(* ===== verification/_CoqProject ===== *)
-Q . S2P
Prelude.v
DataOutput.v
DataInput.v
Codec.v
MarshallingSupport.v
Robust.v
BooleanStream.v
TightCodec.v
BaseDataStreamMarshaller.v
StlMap.v
PrimitiveTypes.v
OpenWireFormat.v
Fields.v
Commands.v
BitSet.v
DispatchChannel.v
StringUtils.v
OrderedMap.v
IdGenerator.v
TrackedCommands.v
URIPool.v
Floating.v
HashMap.v
StateTracker.v
FailoverSpec.v
FailoverSim.v
FailoverTrack.v
Failover.v
FailoverReplay.v
FailoverBroker.v
FailoverRestore.v
FailoverConnect.v
FailoverRun.v
FailoverComplete.v
FailoverTheorems.v
Reconnect.v
ReconnectTheorems.v
ReconnectOutcome.v
ReconnectLimits.v
ResponseCorrelator.v
CorrelatorTheorems.v
InactivityMonitor.v
InactivityTheorems.v
TaskRunner.v
TaskRunnerTheorems.v
BinaryHeap.v
PriorityQueue.v
Timer.v
TimerTheorems.v
RedeliveryPolicy.v
TransactionContext.v
SessionState.v
MessageAudit.v
ConnectionAudit.v
ConsumerKernel.v
SessionKernel.v
SessionSamples.v
SessionTransactions.v
ConsumerAcks.v
ConsumerRollback.v
SessionCommit.v
