(* ===== verification/Prelude.v ===== *)
(** * NeoActiveMQ-CPP: a verification library of the client core (root file)

    NeoActiveMQ-CPP is a C++ client of the ActiveMQ broker. Its core (under
    src/activemq-cpp/src/main) turns commands into bytes and back (activemq/wireformat,
    activemq/util, decaf/io), keeps sessions and consumers (activemq/core and its kernels)
    and rests on a class library in the style of Java (decaf). This library models the
    wire format from the streams to whole commands, the client's side of a session (its
    consumers, their acknowledgements and its transactions), the transport that fails over
    from one broker to the next, the filters above and below it that match answers to requests
    and watch for silence, and the threads, timers and queues these run on.

    ** How the code is modelled

    A C++ call is a function of a state that gives an [outcome] (this file): a result, an
    exception of the code's classes, undefined behaviour ([UB]: a null pointer, an index
    out of range, an invalid iterator) or no end ([Hang]). [M] is that monad; [rethrow],
    [catch_amq] and the like are the code's catch macros. Integers are [Z] with the
    wrap-around of their width written out ([wrapu], [wraps]); bytes are numbers below 256.
    What the code takes from outside is a class or an argument: the stream under a
    DataInputStream, the marshallers of a wire format, the network's replies, the clock, the
    listener of the application, the threads that change a channel while another waits.

    ** The wire format

    - DataOutput, DataInput, Codec: DataOutputStream and DataInputStream, and that what one
      writes the other reads.
    - MarshallingSupport: the string forms and the modified UTF-8 of util/MarshallingSupport.cpp.
    - BooleanStream: the flags of the tight encoding, packed into bytes.
    - Robust: that a reader ends on every input, with a value or an IOException.
    - TightCodec, BaseDataStreamMarshaller: the two passes of the tight encoding, the loose
      encoding, and the values both know: strings, longs, byte arrays, errors, objects.
    - StlMap, PrimitiveTypes: maps and the typed values of PrimitiveTypesMarshaller.cpp.
    - OpenWireFormat: whole commands, the options of a wire format and their negotiation.
    - Fields, Commands: the generated marshallers as sequences of fields; identifiers,
      destinations, responses, acknowledgements, and the table that holds them.
    - BitSet: decaf/util/BitSet.cpp on its array of words.

    ** Names, maps and duplicates

    - StringUtils: the natural order of decaf/internal/util/StringUtils.cpp, by which
      destinations and identifiers are sorted.
    - IdGenerator: the identifiers of activemq/util/IdGenerator.cpp and their parts.
    - Floating: IEEE numbers and their conversions.
    - OrderedMap: the std::map under decaf/util StlMap and ConcurrentStlMap, sorted by an order
      that need not be one.
    - HashMap: decaf/util HashMap, LinkedHashMap and LRUCache, on buckets and a chain.
    - MessageAudit, ConnectionAudit: ActiveMQMessageAudit.cpp and ConnectionAudit.cpp on the
      caches, bit sets and the natural order, as an instance of the interface [Audit] of
      SessionState, by which a session asks whether a message is a duplicate.

    ** Failover

    - TrackedCommands: the commands that a connection state tracker looks at.
    - URIPool: the comparisons of decaf/net/URI.cpp and activemq/transport/failover/URIPool.cpp.
    - StateTracker: activemq/state: ConnectionStateTracker.cpp and the states it keeps.
    - FailoverSpec: what a broker knows of its clients and what a client has told it, the two
      abstract sides. FailoverSim: when a tracker stands for a client. FailoverTrack: that
      every command keeps it so.
    - Failover: FailoverTransport.cpp: sending, responses, the loss of a connection and the
      replay on the next ([connect]). FailoverReplay, FailoverBroker, FailoverRestore,
      FailoverConnect: what the replay tells a broker that knows nothing. FailoverRun,
      FailoverComplete: the simulation over sends, responses and completions.
    - FailoverTheorems: the histories of a transport ([reaches]) and what every one promises.
    - Reconnect: the other half of FailoverTransport.cpp, [iterate]: which address is tried and
      when, who is exhausted, when the transport gives up, how addresses change.
      ReconnectTheorems: an iteration is a step of a history. ReconnectOutcome: a broker that
      is there is found. ReconnectLimits: where none is, the number of attempts, the delays
      and the exceptions.

    ** Requests and silence

    - ResponseCorrelator: ResponseCorrelator.cpp with the futures of FutureResponse.cpp, as the
      places where the threads in it are; CorrelatorTheorems: which answer a request gets, that
      it gets one, and what it leaves behind.
    - InactivityMonitor: InactivityMonitor.cpp with its two timers and two tasks;
      InactivityTheorems: a dead peer is given up, and two monitors that are connected keep
      the connection alive.

    ** Threads, timers and queues

    - TaskRunner: CompositeTaskRunner.cpp, its thread and those that wake it or shut it down;
      TaskRunnerTheorems: no wakeup is lost and no task starves while none throws and nobody
      shuts the runner down; the shutdown that stops it, if it has no timeout, ends it.
    - BinaryHeap: the heap in an array that two classes keep, and when their loops restore it.
      PriorityQueue: decaf/util/PriorityQueue.h on it; its iterator is modelled, whose remove
      reaches another element than it should and is in no history. Sizes are nat.
    - Timer: TimerTaskHeap.cpp, Timer.cpp, TimerTask.cpp and the Scheduler of activemq/threads,
      with [synchronized] the loop that it is in the code, so that [continue] ends it and not
      the round: the thread dies of a cancelled task that is alone in the heap.
      TimerTheorems: which task is taken when, and the times of a repeated one.

    ** Sessions and consumers

    - DispatchChannel: the interface MessageDispatchChannel with its laws, and the two channels
      of the code as instances that prove them. A client of a channel uses the laws alone. Calls
      on either channel, [clear] and waiting among others included, are compared with a list.
    - RedeliveryPolicy: the delay of a redelivery, in IEEE doubles and 64-bit integers.
    - TransactionContext: ActiveMQTransactionContext.cpp against two classes, the host (session and
      connection) and the callbacks of the synchronizations.
    - SessionState: the state [World] of a session, its consumers and its connection; what they
      call of each other.
    - ConsumerKernel, SessionKernel: the operations of ActiveMQConsumerKernel.cpp,
      ActiveMQSessionKernel.cpp and ActiveMQSessionExecutor.cpp, by their names in the code.
      [SessionKernel.callbacks] closes the circle: the synchronizations of a transaction are
      the operations of the consumers.
    - SessionTransactions: the histories of a session ([run_events]) and what every one keeps.
    - ConsumerAcks, ConsumerRollback, SessionCommit: what is acknowledged, given back and
      committed, and what is left behind when the broker refuses.
    - SessionSamples: concrete sessions for witnesses and scenarios.

    ** What the theorems show

    Round trips: every value and command written is read back, in both encodings, with the
    size announced. Termination: no input makes a reader loop. Refinement: channels are lists,
    maps are finite maps, bit sets are sets, a cache is a map with an order of use, and the
    duplicates of a connection are the set of the messages seen. Invariants: the transactions of a session are
    bracketed on the wire; acknowledgements in batches partition the messages. Functional
    behaviour: what acknowledge, rollback and commit send and leave. Errors: what a refused
    acknowledgement or commit leaves behind. Failover: a client sees one broker that never
    failed; a commit in doubt is answered, requests are sent again, sends wait for a
    connection and end; reconnecting finds a broker or stops after the attempts the limits
    allow. Requests: each gets its own answer or an error, unless the broker sent an error that
    answers nothing; then one that waits without a timeout waits for its reply alone. Silence: two checks of the reader without a command end a connection, and
    the keep alives of a peer in time prevent it. Threads: tasks that have work are run, timers
    run what is due in order and at the rate asked for as long as their thread lives, a priority
    queue gives a least element until a value is taken out of its middle.
    Where the code does other than it means to, the theorem states what it does.

    ** Fuel and bounds

    Readers of nested data take the depth as fuel, and the termination theorems give the fuel
    that is enough, the length of the input. The iteration over synchronizations has as
    many rounds as the set has elements at its start, a callback removing at most itself.
    [dispatch] has two: a message that is dispatched again is no duplicate then. A closed
    session is not closed again, so rollbacks nest twice at most. Waits have a round per
    change of their environment or reading of the clock. The loop that connects draws an
    address from the pool in each round, so the addresses and one more are rounds enough. The
    caches of a tracker count what they hold in an int; histories stay below [ROOM] =
    402653184 sends and failures, which is when it could overflow. The ids of requests are ints
    that wrap around: a history has fewer than 2^32 calls. The 90% rule of the monitor multiplies
    a duration by nine, which is to fit 64 bits. The clock and the delays of a timer are below
    2^62. The loops of a heap get its size as fuel. Counters of messages, ids of local
    transactions and times are numbers without a width.

    ** Not modelled

    One session on a connection, without producers; message transformers, the listener for
    available messages, advisory topics and the table of dispatchers. Of failover the backup
    transports (neither backup nor priorityBackup is set), the parsing of the
    ConnectionControl command, and the transports below, which are lists of the commands
    written to them with the writes that fail. Locks are modelled where their state outlives
    a call (the lock of a session's consumers), otherwise an operation is one step; what
    other threads do while one waits is an argument. When a timer or a task runner gets to run
    is an event of the history, and so is the interruption of a thread that waits for an answer. The commands not in the table of Commands.v, the STOMP format, sockets, discovery,
    the public API over the kernels, and of decaf all but streams, maps, BitSet, the priority
    queue, timers, the comparison of URIs and the natural order of strings. *)
From stdpp Require Export base tactics option list numbers.
From Stdlib Require Export ZArith Lia.
#[global] Open Scope Z_scope.

(** [lia] reasons about [/] and [mod] by constants. *)
Ltac Zify.zify_post_hook ::= Z.to_euclidean_division_equations.

(** ** Exceptions and outcomes *)

(** The exception classes of decaf and activemq the modelled code throws or
    converts to. *)
Inductive exn : Set :=
  | IOException
  | EOFException
  | UTFDataFormatException
  | NullPointerException
  | IndexOutOfBoundsException
  | IllegalArgumentException
  | IllegalStateException
  | NoSuchElementException
  | UnsupportedOperationException
  | NegativeArraySizeException
  | RuntimeException
  | ActiveMQException
  | CMSException
  | CMSIllegalStateException
  | TransactionInProgressException
  | TransactionRolledBackException
  | XAException
  | StdException
  | UnknownException.

#[export] Instance exn_eq_dec : EqDecision exn.
Proof. solve_decision. Defined.

(** [EOFException] and [UTFDataFormatException] extend [IOException]
    (decaf/io), so a handler for [IOException] catches them. *)
Definition is_io (e : exn) : bool :=
  match e with
  | IOException | EOFException | UTFDataFormatException => true
  | _ => false
  end.

(** The classes of the cms API, which derive from [CMSException] and not from decaf's
    [Exception]. *)
Definition is_cms (e : exn) : bool :=
  match e with
  | CMSException | CMSIllegalStateException | TransactionInProgressException
  | TransactionRolledBackException | XAException => true
  | _ => false
  end.

(** decaf's [Exception] and what derives from it. *)
Definition is_decaf (e : exn) : bool :=
  negb (is_cms e) && negb (bool_decide (e = StdException)) && negb (bool_decide (e = UnknownException)).

(** A C++ call returns, throws, steps outside the language's defined behaviour
    (an out-of-range [operator[]], a dereferenced null pointer), or loops: [Hang]
    is what a loop of the model gives when its fuel runs out. *)
Inductive outcome (A : Type) : Type :=
  | Ok (a : A)
  | Throw (e : exn)
  | UB
  | Hang.
Arguments Ok {A} a.
Arguments Throw {A} e.
Arguments UB {A}.
Arguments Hang {A}.

#[export] Instance outcome_eq_dec {A} `{EqDecision A} : EqDecision (outcome A).
Proof. solve_decision. Defined.

(** ** Stateful, fallible computations *)

(** A call may throw after it changed the object it ran on: the state is part
    of every outcome. *)
Definition M (S A : Type) : Type := S -> outcome A * S.

Definition ret {S A} (a : A) : M S A := fun s => (Ok a, s).

Definition bind {S A B} (m : M S A) (k : A -> M S B) : M S B :=
  fun s =>
    match m s with
    | (Ok a, s') => k a s'
    | (Throw e, s') => (Throw e, s')
    | (UB, s') => (UB, s')
    | (Hang, s') => (Hang, s')
    end.

Definition throw {S A} (e : exn) : M S A := fun s => (Throw e, s).
Definition undefined {S A} : M S A := fun s => (UB, s).
Definition hang {S A} : M S A := fun s => (Hang, s).
Definition get {S} : M S S := fun s => (Ok s, s).
Definition put {S} (s : S) : M S unit := fun _ => (Ok tt, s).
Definition modify {S} (f : S -> S) : M S unit := fun s => (Ok tt, f s).

Declare Scope amq_scope.
Delimit Scope amq_scope with amq.
Notation "x <- m ;; k" := (bind m (fun x => k))
  (at level 100, m at next level, right associativity) : amq_scope.
Notation "m ;;; k" := (bind m (fun _ => k))
  (at level 100, k at level 200, right associativity) : amq_scope.
#[global] Open Scope amq_scope.

(** The exception macros: the handlers in [keep] rethrow the exception as it
    is, any other one leaves the function as [to]. *)
Definition rethrow {S A} (keep : exn -> bool) (to : exn) (m : M S A) : M S A :=
  fun s =>
    match m s with
    | (Throw e, s') => (Throw (if keep e then e else to), s')
    | r => r
    end.

(** [CATCH_RETHROW(IOException)] with everything else turned into an
    [IOException]. *)
Definition catch_io {S A} (m : M S A) : M S A := rethrow is_io IOException m.

(** [CATCH_RETHROW(ActiveMQException)] with everything else turned into an
    [ActiveMQException]. *)
Definition catch_amq {S A} (m : M S A) : M S A := rethrow (fun e => bool_decide (e = ActiveMQException)) ActiveMQException m.

(** [AMQ_CATCH_ALL_THROW_CMSEXCEPTION]; the cms exception that an [ActiveMQException] may
    carry as its cause is not told from a plain one. *)
Definition catch_cms {S A} (m : M S A) : M S A := rethrow is_cms CMSException m.

(** [try { m } catch (C&) { handler }] for the exceptions [p] holds of, the handler given
    the exception. *)
Definition try_catch {S A} (p : exn -> bool) (m : M S A) (handler : exn -> M S A) : M S A :=
  fun s => match m s with (Throw e, s') => if p e then handler e s' else (Throw e, s') | r => r end.

(** What the array reads and writes of the streams let through. *)
Definition is_read_error (e : exn) : bool :=
  is_io e || bool_decide (e = NullPointerException)
          || bool_decide (e = IndexOutOfBoundsException).

(** Run a computation on one component of a pair of objects. *)
Definition on_fst {S T A} (m : M S A) : M (S * T) A :=
  fun st => let '(r, s') := m st.1 in (r, (s', st.2)).
Definition on_snd {S T A} (m : M T A) : M (S * T) A :=
  fun st => let '(r, t') := m st.2 in (r, (st.1, t')).

(** Run a computation on the object at hand and a local one, which goes away. *)
Definition with_object {S T A} (t : T) (m : M (S * T) A) : M S A :=
  fun s => let '(r, (s', _)) := m (s, t) in (r, s').

(** [for (i = 0; i < n; ++i) body(i)] *)
Fixpoint repeat_m {S A} (n : nat) (m : M S A) : M S (list A) :=
  match n with
  | O => ret []
  | S n' => x <- m ;; xs <- repeat_m n' m ;; ret (x :: xs)
  end.

Fixpoint iter_m {S A} (f : A -> M S unit) (l : list A) : M S unit :=
  match l with
  | [] => ret tt
  | x :: l' => f x ;;; iter_m f l'
  end.

(** [for (int i = lo; i < hi; i++) body(i)] *)
Definition for_m {S} (lo hi : Z) (body : Z -> M S unit) : M S unit := iter_m body (seqZ lo (hi - lo)).

(** [m s = (Ok a, s')] *)
Definition returns {S A} (m : M S A) (s : S) (a : A) (s' : S) : Prop :=
  m s = (Ok a, s').

Section monad_laws.
Context {S A B C : Type}.
Implicit Types (m : M S A).

Lemma bind_ok m (k : A -> M S B) s a s' :
  m s = (Ok a, s') -> bind m k s = k a s'.
Proof. unfold bind. by intros ->. Qed.

Lemma bind_throw m (k : A -> M S B) s e s' :
  m s = (Throw e, s') -> bind m k s = (Throw e, s').
Proof. unfold bind. by intros ->. Qed.

Lemma bind_assoc m (f : A -> M S B) (g : B -> M S C) s :
  bind (bind m f) g s = bind m (fun a => bind (f a) g) s.
Proof. unfold bind. by destruct (m s) as [[]]. Qed.

Lemma bind_get (k : S -> M S B) s : bind get k s = k s s.
Proof. done. Qed.

Lemma bind_modify f (k : unit -> M S B) s : bind (modify f) k s = k tt (f s).
Proof. done. Qed.

Lemma rethrow_ok keep to m s a s' :
  m s = (Ok a, s') -> rethrow keep to m s = (Ok a, s').
Proof. unfold rethrow. by intros ->. Qed.

Lemma catch_io_ok m s a s' :
  m s = (Ok a, s') -> catch_io m s = (Ok a, s').
Proof. apply rethrow_ok. Qed.

Lemma catch_io_throw m s e s' :
  m s = (Throw e, s') ->
  catch_io m s = (Throw (if is_io e then e else IOException), s').
Proof. unfold catch_io, rethrow. by intros ->. Qed.

(** Nothing but an [IOException] (or a subclass) leaves a [catch_io]. *)
Lemma catch_io_is_io m s e s' :
  catch_io m s = (Throw e, s') -> is_io e = true.
Proof.
  unfold catch_io, rethrow. destruct (m s) as [[a|e'| |] s0]; try done.
  intros [= <- <-]. by destruct (is_io e') eqn:?.
Qed.

Lemma on_fst_ok {T} m s (t : T) a s' :
  m s = (Ok a, s') -> on_fst m (s, t) = (Ok a, (s', t)).
Proof. unfold on_fst. simpl. by intros ->. Qed.

Lemma on_snd_ok {T} m (t : T) s a s' :
  m s = (Ok a, s') -> on_snd m (t, s) = (Ok a, (t, s')).
Proof. unfold on_snd. simpl. by intros ->. Qed.
End monad_laws.

Lemma iter_m_ext {S A} (f g : A -> M S unit) l s :
  (forall a t, f a t = g a t) -> iter_m f l s = iter_m g l s.
Proof.
  intros Hfg. revert s. induction l as [|a l IH]; intros s; [done|]. cbn [iter_m].
  unfold bind. rewrite Hfg. destruct (g a s) as [[] ?]; by rewrite ?IH.
Qed.

(** A loop keeps what its body carries from one index to the next. *)
Lemma for_m_ok {S} (P : Z -> S -> Prop) lo hi (body : Z -> M S unit) s :
  lo <= hi -> P lo s ->
  (forall i t, lo <= i < hi -> P i t -> exists t', body i t = (Ok tt, t') /\ P (i + 1) t') ->
  exists s', for_m lo hi body s = (Ok tt, s') /\ P hi s'.
Proof.
  intros Hle Hlo Hbody. unfold for_m.
  remember (Z.to_nat (hi - lo)) as n eqn:Hn. revert lo s Hle Hlo Hbody Hn.
  induction n as [|n IH]; intros lo s Hle Hlo Hbody Hn.
  - replace hi with lo in * by lia. rewrite Z.sub_diag. by exists s.
  - rewrite seqZ_cons by lia. cbn [iter_m].
    destruct (Hbody lo s ltac:(lia) Hlo) as (t & E & Ht). rewrite (bind_ok _ _ _ _ _ E).
    replace (Z.pred (hi - lo)) with (hi - (lo + 1)) by lia.
    apply (IH (lo + 1)); [lia|done| |lia]. intros i u Hi. apply Hbody. lia.
Qed.

(** ** Invariants of computations

    [keeps P m]: however [m] ends, it leaves a state of [P] in [P]. *)
Definition keeps {S A} (P : S -> Prop) (m : M S A) : Prop := forall s, P s -> P (m s).2.

Section keeps.
Context {S : Type} (P : S -> Prop).

Lemma keeps_ret {A} (a : A) : keeps P (ret a).
Proof. by intros s. Qed.
Lemma keeps_throw {A} e : keeps P (throw (A := A) e).
Proof. by intros s. Qed.
Lemma keeps_undefined {A} : keeps P (undefined (A := A)).
Proof. by intros s. Qed.
Lemma keeps_hang {A} : keeps P (hang (A := A)).
Proof. by intros s. Qed.
Lemma keeps_get : keeps P get.
Proof. by intros s. Qed.
Lemma keeps_modify f : (forall s, P s -> P (f s)) -> keeps P (modify f).
Proof. intros Hf s. apply Hf. Qed.

Lemma keeps_bind {A B} (m : M S A) (k : A -> M S B) :
  keeps P m -> (forall a, keeps P (k a)) -> keeps P (bind m k).
Proof.
  intros Hm Hk s Hs. specialize (Hm s Hs). unfold bind.
  destruct (m s) as [[a|e| |] s']; try done. by apply Hk.
Qed.

(** What is read of a state may be used of it. *)
Lemma keeps_read {B} (k : S -> M S B) : (forall s, P s -> P (k s s).2) -> keeps P (bind get k).
Proof. intros Hk s Hs. by apply Hk. Qed.

Lemma keeps_rethrow {A} keep to (m : M S A) : keeps P m -> keeps P (rethrow keep to m).
Proof. intros Hm s Hs. specialize (Hm s Hs). unfold rethrow. by destruct (m s) as [[]]. Qed.

Lemma keeps_try_catch {A} p (m : M S A) h : keeps P m -> (forall e, keeps P (h e)) -> keeps P (try_catch p m h).
Proof.
  intros Hm Hh s Hs. specialize (Hm s Hs). unfold try_catch.
  destruct (m s) as [[a|e| |] s']; try done. destruct (p e); [by apply Hh|done].
Qed.

Lemma keeps_iter {A} (f : A -> M S unit) l : (forall a, keeps P (f a)) -> keeps P (iter_m f l).
Proof. intros Hf. induction l as [|a l IH]; [apply keeps_ret|]. by apply keeps_bind. Qed.
End keeps.

Create HintDb keeps.
#[export] Hint Resolve keeps_ret keeps_throw keeps_undefined keeps_hang keeps_get keeps_bind keeps_rethrow
  keeps_try_catch keeps_iter : keeps.

(** Split a computation into its steps; what remains are the steps that change the
    state. *)
Ltac keeps :=
  repeat first
    [ progress intros
    | solve [auto with keeps nocore]
    | apply keeps_bind
    | apply keeps_rethrow
    | apply keeps_try_catch
    | apply keeps_iter
    | match goal with |- keeps _ (if ?b then _ else _) => destruct b eqn:? end
    | match goal with |- keeps _ (match ?x with _ => _ end) => destruct x eqn:? end ].

(** [run] steps through a monadic body with the equations of the calls in it
    taken from the context. *)
Ltac run :=
  repeat first
    [ erewrite bind_ok by eassumption
    | erewrite catch_io_ok by eassumption
    | progress cbn [bind ret] ].

(** ** Machine integers *)

(** Conversion to an unsigned and a two's complement [w]-bit integer. *)
Definition wrapu (w z : Z) : Z := z mod 2 ^ w.
Definition wraps (w z : Z) : Z := (z + 2 ^ (w - 1)) mod 2 ^ w - 2 ^ (w - 1).

Abbreviation u8 := (wrapu 8).
Abbreviation u16 := (wrapu 16).
Abbreviation u32 := (wrapu 32).
Abbreviation u64 := (wrapu 64).
Abbreviation s8 := (wraps 8).
Abbreviation s16 := (wraps 16).
Abbreviation s32 := (wraps 32).
Abbreviation s64 := (wraps 64).

(** The ranges of the types, and [Short::MAX_VALUE], [Integer::MAX_VALUE]. *)
Definition in_u (w z : Z) : Prop := 0 <= z < 2 ^ w.
Definition in_s (w z : Z) : Prop := - 2 ^ (w - 1) <= z < 2 ^ (w - 1).
Definition SHORT_MAX : Z := 32767.
Definition INT_MAX : Z := 2147483647.

#[export] Instance in_u_dec w z : Decision (in_u w z).
Proof. unfold in_u. apply _. Defined.
#[export] Instance in_s_dec w z : Decision (in_s w z).
Proof. unfold in_s. apply _. Defined.

Lemma wrapu_range w z : 0 <= w -> in_u w (wrapu w z).
Proof. intros. apply Z.mod_pos_bound. lia. Qed.

Lemma wraps_range w z : 1 <= w -> in_s w (wraps w z).
Proof.
  intros. unfold in_s, wraps.
  pose proof (Z.mod_pos_bound (z + 2 ^ (w - 1)) (2 ^ w)).
  assert (2 ^ w = 2 * 2 ^ (w - 1)) by (rewrite <- Z.pow_succ_r by lia; f_equal; lia).
  lia.
Qed.

Lemma wrapu_id w z : in_u w z -> wrapu w z = z.
Proof. apply Z.mod_small. Qed.

Lemma wraps_id w z : 1 <= w -> in_s w z -> wraps w z = z.
Proof.
  unfold in_s, wraps. intros ? ?.
  assert (2 ^ w = 2 * 2 ^ (w - 1)) by (rewrite <- Z.pow_succ_r by lia; f_equal; lia).
  rewrite Z.mod_small by lia. lia.
Qed.

(** Going through the unsigned type of the same width loses nothing. *)
Lemma wraps_wrapu w z : 1 <= w -> wraps w (wrapu w z) = wraps w z.
Proof.
  intros. unfold wraps, wrapu. by rewrite Zplus_mod_idemp_l.
Qed.

Lemma wrapu_wraps w z : 1 <= w -> wrapu w (wraps w z) = wrapu w z.
Proof.
  intros. unfold wraps, wrapu.
  rewrite Zminus_mod_idemp_l. f_equal. lia.
Qed.

(** ** Bytes *)

Abbreviation byte_ok := (in_u 8).
Abbreviation bytes_ok := (Forall (in_u 8)).

Lemma byte_ok_u8 z : byte_ok (u8 z).
Proof. by apply wrapu_range. Qed.

(** A statement about a range of numbers, decided by running over it. *)
Lemma forallb_seqZ (P : Z -> bool) a n x :
  forallb P (seqZ a n) = true -> a <= x < a + n -> P x = true.
Proof. rewrite forallb_forall. intros HP Hx. by apply HP, list_elem_of_In, elem_of_seqZ. Qed.

Lemma byte_cases (P : Z -> bool) :
  forallb P (seqZ 0 256) = true -> forall c, byte_ok c -> P c = true.
Proof. intros HP c Hc. by apply (forallb_seqZ P 0 256). Qed.

(** ** Big-endian integers *)

(** The reference encoding the streams are compared with: the [n] low bytes of
    [v], most significant first, and the number a list of bytes stands for. *)
Fixpoint be_bytes (n : nat) (v : Z) : list Z :=
  match n with
  | O => []
  | S n' => be_bytes n' (v / 2 ^ 8) ++ [v mod 2 ^ 8]
  end.

Definition be_val (l : list Z) : Z := fold_left (fun acc b => acc * 2 ^ 8 + b) l 0.

Lemma be_val_snoc l b : be_val (l ++ [b]) = be_val l * 2 ^ 8 + b.
Proof. unfold be_val. by rewrite fold_left_app. Qed.

Lemma be_val_bytes n v : be_val (be_bytes n v) = v mod 2 ^ (8 * Z.of_nat n).
Proof.
  revert v. induction n as [|n IH]; intros v; cbn [be_bytes].
  { by rewrite Z.mod_1_r. }
  rewrite be_val_snoc, IH.
  replace (8 * Z.of_nat (S n)) with (8 + 8 * Z.of_nat n) by lia.
  rewrite Z.pow_add_r, Z.rem_mul_r by lia. lia.
Qed.

Lemma be_bytes_length n v : length (be_bytes n v) = n.
Proof.
  revert v. induction n as [|n IH]; intros v; cbn [be_bytes]; [done|].
  rewrite length_app, IH. simpl. lia.
Qed.

Lemma be_bytes_ok n v : bytes_ok (be_bytes n v).
Proof.
  revert v. induction n as [|n IH]; intros v; cbn [be_bytes]; [done|].
  apply Forall_app_2; [done|]. apply Forall_singleton, byte_ok_u8.
Qed.

(** The byte a C++ expression [(v & (0xFF << k)) >> k] extracts. *)
Lemma extract_byte v k :
  0 <= k -> u8 (Z.shiftr (Z.land v (Z.shiftl 0xFF k)) k) = (v / 2 ^ k) mod 2 ^ 8.
Proof.
  intros. rewrite Z.shiftr_land, Z.shiftr_shiftl_l, Z.sub_diag, Z.shiftl_0_r by lia.
  change 0xFF with (Z.ones 8). rewrite Z.land_ones, Z.shiftr_div_pow2 by lia.
  apply Z.mod_mod. lia.
Qed.

Lemma byte_testbit_high b n : byte_ok b -> 8 <= n -> Z.testbit b n = false.
Proof.
  intros [? Hb] ?. rewrite <- (Z.mod_small b (2 ^ 8)) by done.
  by apply Z.mod_pow2_bits_high.
Qed.

(** [x | b << k] is a sum when the bits of [x] below [k + 8] are clear. *)
Lemma lor_byte a b k :
  0 <= k -> byte_ok b ->
  Z.lor (a * 2 ^ (k + 8)) (Z.shiftl b k) = a * 2 ^ (k + 8) + b * 2 ^ k.
Proof.
  intros Hk Hb.
  assert (Z.land (Z.shiftl a (k + 8)) (Z.shiftl b k) = 0) as Hdisj.
  { apply Z.bits_inj'. intros n Hn.
    rewrite Z.land_spec, Z.bits_0, !Z.shiftl_spec by lia.
    destruct (Z.ltb_spec n (k + 8)).
    - by rewrite (Z.testbit_neg_r a) by lia.
    - rewrite (byte_testbit_high b), andb_false_r by (done || lia). done. }
  rewrite <- !Z.shiftl_mul_pow2 by lia.
  rewrite <- Z.lxor_lor by done. symmetry. by apply Z.add_nocarry_lxor.
Qed.

(** One step of [b0 << 24 | b1 << 16 | ...]. *)
Lemma lor_step x b k k' :
  k = k' + 8 -> 0 <= k' -> byte_ok b ->
  Z.lor (x * 2 ^ k) (Z.shiftl b k') = (x * 2 ^ 8 + b) * 2 ^ k'.
Proof.
  intros -> ? ?. rewrite lor_byte by done. rewrite Z.pow_add_r by lia. lia.
Qed.

Lemma land_byte b : byte_ok b -> Z.land b 0xFF = b.
Proof.
  intros. change 0xFF with (Z.ones 8). rewrite Z.land_ones by lia. by apply Z.mod_small.
Qed.

(** ** Lengths as [Z] *)

Definition zlen {A} (l : list A) : Z := Z.of_nat (length l).

Lemma zlen_app {A} (l k : list A) : zlen (l ++ k) = zlen l + zlen k.
Proof. unfold zlen. rewrite length_app. lia. Qed.
Lemma zlen_cons {A} (x : A) l : zlen (x :: l) = 1 + zlen l.
Proof. unfold zlen. simpl. lia. Qed.
Lemma zlen_nil {A} : zlen (@nil A) = 0.
Proof. done. Qed.
Lemma zlen_replicate {A} n (x : A) : zlen (replicate n x) = Z.of_nat n.
Proof. unfold zlen. by rewrite length_replicate. Qed.
Lemma zlen_nonneg {A} (l : list A) : 0 <= zlen l.
Proof. unfold zlen. lia. Qed.
Lemma zlen_zero {A} (l : list A) : zlen l = 0 -> l = [].
Proof. unfold zlen. destruct l; simpl; [done|lia]. Qed.

(** The shorter of two prefixes of a list is a prefix of the other. *)
Lemma app_split {A} (l1 k1 l2 k2 : list A) :
  l1 ++ k1 = l2 ++ k2 -> zlen l1 <= zlen l2 ->
  exists m, l2 = l1 ++ m /\ k1 = m ++ k2.
Proof.
  intros [(k & -> & ->)|(k & -> & ->)]%app_eq_inv Hle; [|by exists k].
  rewrite zlen_app in Hle. unfold zlen in Hle.
  assert (k = []) as -> by (destruct k; simpl in *; [done|lia]).
  exists []. by rewrite !app_nil_r.
Qed.

Create HintDb amq.
#[export] Hint Resolve zlen_nonneg byte_ok_u8 : amq.
Create Rewrite HintDb amq_len.
#[export] Hint Rewrite @zlen_app @zlen_cons @zlen_nil @zlen_replicate : amq_len.

(** Arithmetic over list lengths. *)
Ltac zlia :=
  autorewrite with amq_len in *; unfold zlen, in_u, in_s, SHORT_MAX, INT_MAX in *;
  cbn [length] in *; lia.

(** Decide the comparisons of the goal by arithmetic over the context. *)
Ltac zcmp :=
  cbv zeta;
  repeat match goal with
  | |- context [?a <? ?b] =>
      first [rewrite (proj2 (Z.ltb_lt a b)) by zlia | rewrite (proj2 (Z.ltb_ge a b)) by zlia]
  | |- context [?a <=? ?b] =>
      first [rewrite (proj2 (Z.leb_le a b)) by zlia | rewrite (proj2 (Z.leb_gt a b)) by zlia]
  | |- context [?a =? ?b] =>
      first [rewrite (proj2 (Z.eqb_eq a b)) by zlia | rewrite (proj2 (Z.eqb_neq a b)) by zlia]
  end; cbn [orb andb negb].
