(* ===== verification/DataOutput.v ===== *)
(** * decaf::io::DataOutputStream (decaf/io/DataOutputStream.cpp) and the checks
    it inherits from FilterOutputStream and OutputStream.

    The base stream is the byte buffer of a [ByteArrayOutputStream]: the bytes
    written so far, in order, or [None] for a NULL pointer.  [emits m bs a] is
    what the writers promise their callers: on a usable stream the call returns
    [a] having appended exactly [bs]. *)
From S2P Require Import Prelude.

Record DataOutputStream : Type := mkDOS {
  outputStream : option (list Z);
  closed : bool;
  written : Z;
}.

(** The constructor over a fresh buffer: [closed] is set for a NULL base. *)
Definition DataOutputStream_new (base : option (list Z)) : DataOutputStream :=
  {| outputStream := base;
     closed := match base with None => true | Some _ => false end;
     written := 0 |}.

Definition FilterOutputStream_isClosed (o : DataOutputStream) : bool :=
  closed o || match outputStream o with None => true | Some _ => false end.

(** [if (outputStream == NULL) throw IOException; outputStream->write(..);
    written += n], the body the fixed-width writers share. *)
Definition base_write (bs : list Z) : M DataOutputStream unit :=
  o <- get ;;
  match outputStream o with
  | None => throw IOException
  | Some w =>
      put {| outputStream := Some (w ++ bs);
             closed := closed o;
             written := written o + zlen bs |}
  end.

Definition doWriteByte (c : Z) : M DataOutputStream unit := catch_io (base_write [c]).

(** [doWriteArrayBounded(buffer, size, offset, length)]: [buffer] is NULL or
    the array the pointer refers to. *)
Definition doWriteArrayBounded (buffer : option (list Z)) (size offset length : Z)
    : M DataOutputStream unit :=
  if length =? 0 then ret tt
  else
    o <- get ;;
    if FilterOutputStream_isClosed o then throw IOException
    else
      match buffer with
      | None => throw NullPointerException
      | Some data =>
          if size <? 0 then throw IndexOutOfBoundsException
          else if (size <? offset) || (offset <? 0)
          then throw IndexOutOfBoundsException
          else if (length <? 0) || (size - offset <? length)
          then throw IndexOutOfBoundsException
          else if zlen data <? offset + length then undefined
          else base_write (take (Z.to_nat length) (drop (Z.to_nat offset) data))
      end.

(** [OutputStream::write(buffer, size)], through [FilterOutputStream::doWriteArray]. *)
Definition doWriteArray (buffer : option (list Z)) (size : Z) : M DataOutputStream unit :=
  o <- get ;;
  if FilterOutputStream_isClosed o then throw IOException
  else doWriteArrayBounded buffer size 0 size.

Definition writeBoolean (value : bool) : M DataOutputStream unit :=
  catch_io (base_write [if value then 1 else 0]).

Definition writeByte (value : Z) : M DataOutputStream unit :=
  catch_io (base_write [u8 value]).

(** [outputStream->write(value)] converts the [char] to [unsigned char]. *)
Definition writeChar (value : Z) : M DataOutputStream unit :=
  catch_io (base_write [u8 value]).

Definition writeShort (value : Z) : M DataOutputStream unit :=
  catch_io (base_write
    [u8 (Z.shiftr (Z.land value 0xFF00) 8);
     u8 (Z.shiftr (Z.land value 0x00FF) 0)]).

Definition writeUnsignedShort (value : Z) : M DataOutputStream unit :=
  catch_io (base_write
    [u8 (Z.shiftr (Z.land value 0xFF00) 8);
     u8 (Z.shiftr (Z.land value 0x00FF) 0)]).

Definition writeInt (value : Z) : M DataOutputStream unit :=
  catch_io (base_write
    [u8 (Z.shiftr (Z.land value 0xFF000000) 24);
     u8 (Z.shiftr (Z.land value 0x00FF0000) 16);
     u8 (Z.shiftr (Z.land value 0x0000FF00) 8);
     u8 (Z.shiftr (Z.land value 0x000000FF) 0)]).

Definition writeLong (value : Z) : M DataOutputStream unit :=
  catch_io (base_write
    [u8 (Z.shiftr (Z.land value 0xFF00000000000000) 56);
     u8 (Z.shiftr (Z.land value 0x00FF000000000000) 48);
     u8 (Z.shiftr (Z.land value 0x0000FF0000000000) 40);
     u8 (Z.shiftr (Z.land value 0x000000FF00000000) 32);
     u8 (Z.shiftr (Z.land value 0x00000000FF000000) 24);
     u8 (Z.shiftr (Z.land value 0x0000000000FF0000) 16);
     u8 (Z.shiftr (Z.land value 0x000000000000FF00) 8);
     u8 (Z.shiftr (Z.land value 0x00000000000000FF) 0)]).

(** Floating-point values travel as their bit patterns ([memcpy] in the code):
    [value] is the pattern, passed on as an [int] or a [long long]. *)
Definition writeFloat (value : Z) : M DataOutputStream unit :=
  catch_io (writeInt (s32 value)).
Definition writeDouble (value : Z) : M DataOutputStream unit :=
  catch_io (writeLong (s64 value)).

Definition writeBytes (value : list Z) : M DataOutputStream unit :=
  catch_io
    (if zlen value =? 0 then ret tt
     else doWriteArrayBounded (Some value) (s32 (zlen value)) 0 (s32 (zlen value))).

(** [c_str()] ends in a NUL, which [writeChars] sends too. *)
Definition writeChars (value : list Z) : M DataOutputStream unit :=
  catch_io
    (if zlen value =? 0 then ret tt
     else doWriteArrayBounded (Some (value ++ [0]))
            (s32 (s32 (zlen value) + 1)) 0 (s32 (s32 (zlen value) + 1))).

(** [write(&data[0], size)] and [write(data, size, 0, size)] of decaf::io::OutputStream. *)
Definition write_array (data : list Z) : M DataOutputStream unit :=
  rethrow is_read_error IOException (doWriteArray (Some data) (s32 (zlen data))).
Definition write_string (data : list Z) : M DataOutputStream unit :=
  rethrow is_read_error IOException
    (doWriteArrayBounded (Some data) (s32 (zlen data)) 0 (s32 (zlen data))).

(** ** Modified UTF-8 *)

Definition utf_width (charValue : Z) : Z :=
  if (0 <? charValue) && (charValue <=? 127) then 1
  else if charValue <=? 2047 then 2 else 3.

Definition utf_encode_char (charValue : Z) : list Z :=
  if (0 <? charValue) && (charValue <=? 127) then [u8 charValue]
  else if charValue <=? 2047 then
    [u8 (Z.lor 0xc0 (Z.land 0x1f (Z.shiftr charValue 6)));
     u8 (Z.lor 0x80 (Z.land 0x3f charValue))]
  else
    [u8 (Z.lor 0xe0 (Z.land 0x0f (Z.shiftr charValue 12)));
     u8 (Z.lor 0x80 (Z.land 0x3f (Z.shiftr charValue 6)));
     u8 (Z.lor 0x80 (Z.land 0x3f charValue))].

(** The counting loop, on an [unsigned int] counter. *)
Fixpoint countUTFLength_loop (utfCount : Z) (value : list Z) : Z :=
  match value with
  | [] => utfCount
  | c :: l => countUTFLength_loop (u32 (utfCount + utf_width c)) l
  end.
Definition countUTFLength (value : list Z) : Z := countUTFLength_loop 0 value.

Definition utf_encode (value : list Z) : list Z := value ≫= utf_encode_char.

(** The encoded bytes go to a vector of [utfLength] bytes: a store past its end
    (a count that wrapped around) is undefined. *)
Definition writeUTF (value : list Z) : M DataOutputStream unit :=
  catch_io
    (let utfLength := countUTFLength value in
     if 65535 <? utfLength then throw UTFDataFormatException
     else
       let utfBytes := utf_encode value in
       if utfLength <? zlen utfBytes then undefined
       else
         writeUnsignedShort (u16 utfLength) ;;;
         if 0 <? utfLength then
           let utfIndex := zlen utfBytes in
           doWriteArrayBounded (Some utfBytes) utfIndex 0 utfIndex
         else ret tt).

(** ** What a writer promises *)

Definition usable (o : DataOutputStream) : Prop :=
  is_Some (outputStream o) /\ closed o = false.

Definition emit (bs : list Z) (o : DataOutputStream) : DataOutputStream :=
  {| outputStream := (fun w => w ++ bs) <$> outputStream o;
     closed := closed o;
     written := written o + zlen bs |}.

Definition emits {A} (m : M DataOutputStream A) (bs : list Z) (a : A) : Prop :=
  forall o, usable o -> m o = (Ok a, emit bs o).

Lemma usable_new : usable (DataOutputStream_new (Some [])).
Proof. by split; [eexists|]. Qed.

Lemma usable_emit bs o : usable o -> usable (emit bs o).
Proof. destruct o. intros [[w Hw] ?]. simpl in *. subst. by split; [eexists|]. Qed.

Lemma emit_nil o : emit [] o = o.
Proof.
  destruct o as [[w|] c n]; unfold emit; simpl; rewrite zlen_nil, ?app_nil_r;
    f_equal; lia.
Qed.

Lemma emit_emit bs cs o : emit cs (emit bs o) = emit (bs ++ cs) o.
Proof.
  destruct o as [[w|] c n]; unfold emit; simpl; rewrite zlen_app, ?app_assoc;
    f_equal; lia.
Qed.

Section emits_rules.
Context {A B : Type}.

Lemma emits_ret (a : A) : emits (ret a) [] a.
Proof. intros o Ho. by rewrite emit_nil. Qed.

Lemma emits_bind (m : M DataOutputStream A) (k : A -> M DataOutputStream B) bs cs a b :
  emits m bs a -> emits (k a) cs b -> emits (bind m k) (bs ++ cs) b.
Proof.
  intros Hm Hk o Ho. erewrite bind_ok by by apply Hm.
  rewrite Hk by by apply usable_emit. by rewrite emit_emit.
Qed.

Lemma emits_catch_io (m : M DataOutputStream A) bs a :
  emits m bs a -> emits (catch_io m) bs a.
Proof. intros Hm o Ho. by apply catch_io_ok, Hm. Qed.

(** The same with the bytes left to be computed. *)
Lemma emits_rethrow keep to (m : M DataOutputStream A) bs a :
  emits m bs a -> emits (rethrow keep to m) bs a.
Proof. intros Hm o Ho. by apply rethrow_ok, Hm. Qed.

Lemma emits_eq (m : M DataOutputStream A) bs cs a :
  emits m bs a -> bs = cs -> emits m cs a.
Proof. by intros ? <-. Qed.
End emits_rules.

Lemma emits_base bs : emits (base_write bs) bs tt.
Proof. intros [base c n] [[w Hw] Hc]. simpl in *. by subst. Qed.

#[export] Hint Resolve emits_ret emits_bind emits_catch_io emits_base : amq.

Lemma emits_writeBoolean b : emits (writeBoolean b) [if b then 1 else 0] tt.
Proof. unfold writeBoolean. auto with amq. Qed.

Lemma emits_writeByte v : emits (writeByte v) [u8 v] tt.
Proof. unfold writeByte. auto with amq. Qed.

Lemma emits_writeChar v : emits (writeChar v) [u8 v] tt.
Proof. unfold writeChar. auto with amq. Qed.

(** The bytes of the fixed-width writers are the big-endian encoding. *)
Ltac be_tac :=
  apply emits_catch_io; eapply emits_eq; [apply emits_base|];
  repeat match goal with
  | |- context [Z.land ?v ?m] =>
      match goal with
      | |- context [Z.shiftr (Z.land v m) ?k] =>
          change m with (Z.shiftl 0xFF k); rewrite (extract_byte v k) by lia
      end
  end;
  cbn [be_bytes app]; rewrite ?Z.div_div by lia; repeat f_equal;
  by rewrite Z.pow_0_r, Z.div_1_r.

Lemma emits_writeShort v : emits (writeShort v) (be_bytes 2 v) tt.
Proof. unfold writeShort. be_tac. Qed.

Lemma emits_writeUnsignedShort v : emits (writeUnsignedShort v) (be_bytes 2 v) tt.
Proof. unfold writeUnsignedShort. be_tac. Qed.

Lemma emits_writeInt v : emits (writeInt v) (be_bytes 4 v) tt.
Proof. unfold writeInt. be_tac. Qed.

Lemma emits_writeLong v : emits (writeLong v) (be_bytes 8 v) tt.
Proof. unfold writeLong. be_tac. Qed.

Lemma emits_doWriteArrayBounded data size offset length :
  0 <= offset -> 0 <= length -> offset + length <= size -> size <= zlen data ->
  emits (doWriteArrayBounded (Some data) size offset length)
    (take (Z.to_nat length) (drop (Z.to_nat offset) data)) tt.
Proof.
  intros ???? o Ho. unfold doWriteArrayBounded.
  destruct (Z.eqb_spec length 0) as [->|].
  { by rewrite take_0, emit_nil. }
  unfold bind at 1, get. unfold FilterOutputStream_isClosed.
  destruct Ho as [[w Hw] Hc]. rewrite Hw, Hc. simpl.
  repeat (case_match; [lia|]). apply emits_base. by split; [eexists|].
Qed.

(** Writing a whole array. *)
Lemma emits_write_all data n :
  n = zlen data -> emits (doWriteArrayBounded (Some data) n 0 n) data tt.
Proof.
  intros ->. eapply emits_eq; [apply emits_doWriteArrayBounded; zlia|].
  rewrite drop_0, take_ge; [done|]. zlia.
Qed.

Lemma emits_doWriteArray data n :
  n = zlen data -> emits (doWriteArray (Some data) n) data tt.
Proof.
  intros Hn o Ho. unfold doWriteArray, bind at 1, get.
  unfold FilterOutputStream_isClosed. destruct (Ho) as [[w Hw] Hc].
  rewrite Hw, Hc. simpl. by apply emits_write_all.
Qed.

Lemma emits_writeBytes value :
  zlen value <= INT_MAX -> emits (writeBytes value) value tt.
Proof.
  intros Hlen. unfold writeBytes. apply emits_catch_io.
  destruct (Z.eqb_spec (zlen value) 0) as [Hz|Hz].
  - rewrite (zlen_zero value Hz). apply emits_ret.
  - apply emits_write_all. apply wraps_id; zlia.
Qed.

Lemma emits_write_array data : zlen data <= INT_MAX -> emits (write_array data) data tt.
Proof.
  intros. apply emits_rethrow, emits_doWriteArray. pose proof (zlen_nonneg data).
  apply wraps_id; zlia.
Qed.

Lemma emits_write_string data : zlen data <= INT_MAX -> emits (write_string data) data tt.
Proof.
  intros. apply emits_rethrow, emits_write_all. pose proof (zlen_nonneg data).
  apply wraps_id; zlia.
Qed.

(** ** The modified UTF-8 encoder *)

Lemma utf_encode_char_width c : zlen (utf_encode_char c) = utf_width c.
Proof. unfold utf_encode_char, utf_width. by repeat case_match. Qed.

Lemma utf_width_pos c : 1 <= utf_width c <= 3.
Proof. unfold utf_width. repeat case_match; lia. Qed.

Lemma countUTFLength_spec value : countUTFLength value = u32 (zlen (utf_encode value)).
Proof.
  unfold countUTFLength.
  enough (forall n, countUTFLength_loop (u32 n) value = u32 (n + zlen (utf_encode value)))
    as H by apply (H 0).
  induction value as [|c l IH]; intros n; cbn [countUTFLength_loop utf_encode mbind list_bind].
  { by rewrite zlen_nil, Z.add_0_r. }
  rewrite zlen_app, utf_encode_char_width, Z.add_assoc, <- IH.
  f_equal. unfold wrapu. by rewrite Zplus_mod_idemp_l.
Qed.

Lemma utf_encode_length value : zlen value <= zlen (utf_encode value) <= 3 * zlen value.
Proof.
  induction value as [|c l IH]; cbn [utf_encode mbind list_bind]; [done|].
  rewrite zlen_app, utf_encode_char_width, zlen_cons.
  pose proof (utf_width_pos c). unfold utf_encode in IH. lia.
Qed.

Lemma emits_writeUTF value :
  zlen (utf_encode value) <= 65535 ->
  emits (writeUTF value) (be_bytes 2 (zlen (utf_encode value)) ++ utf_encode value) tt.
Proof.
  intros Hlen. unfold writeUTF. apply emits_catch_io.
  pose proof (zlen_nonneg (utf_encode value)) as Hpos.
  rewrite countUTFLength_spec. rewrite (wrapu_id 32) by zlia.
  case_match; [lia|]. case_match; [lia|].
  rewrite wrapu_id by (unfold in_u; lia).
  eapply emits_bind; [apply emits_writeUnsignedShort|].
  destruct (Z.ltb_spec 0 (zlen (utf_encode value))).
  - by apply emits_write_all.
  - rewrite (zlen_zero (utf_encode value)) by lia. apply emits_ret.
Qed.

(** A string whose encoding does not fit an unsigned short is refused before a
    byte is written, whatever the stream. *)
Lemma writeUTF_too_long value o :
  65535 < zlen (utf_encode value) < 2 ^ 32 ->
  writeUTF value o = (Throw UTFDataFormatException, o).
Proof.
  intros Hlen. unfold writeUTF. rewrite countUTFLength_spec, wrapu_id by zlia.
  case_match; [done|lia].
Qed.
