(* ===== verification/DataInput.v ===== *)
(** * decaf::io::InputStream, ByteArrayInputStream and DataInputStream
    (decaf/io/*.cpp).

    [InputStream] is the interface of the virtual base class: [is_read size
    offset length] is [read(buffer, size, offset, length)], giving the bytes it
    stored or [None] for the -1 of end-of-stream.  A conforming stream
    ([InputStreamLaws]) may return fewer bytes than it was asked for, as a
    socket does, but at least one.  DataInputStream is written against the
    interface, so what is proved of it holds however the bytes arrive;
    [parses m bs a] is what its readers promise: on a stream that will deliver
    [bs] next, [m] returns [a] having consumed exactly [bs]. *)
From S2P Require Import Prelude.

Class InputStream (S : Type) := {
  is_read : Z -> Z -> Z -> M S (option (list Z));
}.

Class InputStreamLaws (S : Type) `{InputStream S} := {
  is_valid : S -> Prop;
  is_bytes : S -> list Z;
  is_read_data s size off len :
    is_valid s -> 0 < len -> 0 <= off -> off + len <= size -> is_bytes s <> [] ->
    exists c s', is_read size off len s = (Ok (Some c), s') /\ is_valid s' /\
      is_bytes s = c ++ is_bytes s' /\ 0 < zlen c <= len;
  is_read_eof s size off len :
    is_valid s -> 0 < len -> 0 <= off -> off + len <= size -> is_bytes s = [] ->
    exists s', is_read size off len s = (Ok None, s') /\ is_valid s' /\
      is_bytes s' = [];
  is_read_bounds s size off len :
    is_valid s -> 0 < len -> size - off < len ->
    is_read size off len s = (Throw IndexOutOfBoundsException, s);
}.

(** ** ByteArrayInputStream *)

Module ByteArray.

Record ByteArrayInputStream : Type := mkBAIS {
  buffer : list Z;
  pos : Z;
  count : Z;
}.

Definition new (bs : list Z) : ByteArrayInputStream :=
  {| buffer := bs; pos := 0; count := zlen bs |}.

(** The caller's buffer is never NULL in the model: the check on it is left out. *)
Definition doReadArrayBounded (size offset length : Z)
    : M ByteArrayInputStream (option (list Z)) :=
  if length =? 0 then ret (Some [])
  else if size <? 0 then throw IndexOutOfBoundsException
  else if (size <? offset) || (offset <? 0) then throw IndexOutOfBoundsException
  else if (length <? 0) || (size - offset <? length) then throw IndexOutOfBoundsException
  else
    s <- get ;;
    if count s <=? pos s then ret None
    else
      let copylen := if count s - pos s <? length then count s - pos s else length in
      put {| buffer := buffer s; pos := pos s + copylen; count := count s |} ;;;
      ret (Some (take (Z.to_nat copylen) (drop (Z.to_nat (pos s)) (buffer s)))).

Definition valid (s : ByteArrayInputStream) : Prop :=
  0 <= pos s <= count s /\ count s <= zlen (buffer s).

Definition bytes (s : ByteArrayInputStream) : list Z :=
  take (Z.to_nat (count s - pos s)) (drop (Z.to_nat (pos s)) (buffer s)).

#[export] Instance ByteArray_stream : InputStream ByteArrayInputStream :=
  {| is_read := doReadArrayBounded |}.

Lemma bytes_length s : valid s -> zlen (bytes s) = count s - pos s.
Proof.
  intros [? ?]. unfold bytes, zlen in *. rewrite length_take, length_drop. lia.
Qed.

Lemma bytes_new bs : bytes (new bs) = bs.
Proof. unfold bytes, new, zlen. simpl. rewrite Z.sub_0_r, Nat2Z.id. apply firstn_all. Qed.

Lemma valid_new bs : valid (new bs).
Proof. unfold valid, new. simpl. zlia. Qed.

Lemma read_data s size off len :
  valid s -> 0 < len -> 0 <= off -> off + len <= size -> bytes s <> [] ->
  exists c s', doReadArrayBounded size off len s = (Ok (Some c), s') /\ valid s' /\
    bytes s = c ++ bytes s' /\ 0 < zlen c <= len.
Proof.
  intros Hv ??? Hne. pose proof (bytes_length s Hv) as Hlen.
  assert (0 < zlen (bytes s)) by (destruct (bytes s); [done|zlia]).
  destruct Hv as [Hp Hc].
  unfold doReadArrayBounded. repeat (case_match; [lia|]).
  unfold bind, get, put, ret. case_match; [lia|].
  set (n := if _ <? _ then _ else _).
  assert (0 < n <= len /\ n <= count s - pos s) by (unfold n; case_match; lia).
  eexists _, _. split; [done|]. split; [by unfold valid; simpl; lia|]. split.
  - unfold bytes at 1 2. simpl.
    replace (Z.to_nat (pos s + n)) with (Z.to_nat (pos s) + Z.to_nat n)%nat by lia.
    rewrite <- drop_drop.
    replace (Z.to_nat (count s - pos s)) with
      (Z.to_nat n + Z.to_nat (count s - (pos s + n)))%nat by lia.
    by rewrite <- take_take_drop.
  - unfold zlen in *. rewrite length_take, length_drop. lia.
Qed.

Lemma read_eof s size off len :
  valid s -> 0 < len -> 0 <= off -> off + len <= size -> bytes s = [] ->
  exists s', doReadArrayBounded size off len s = (Ok None, s') /\ valid s' /\
    bytes s' = [].
Proof.
  intros Hv ??? Hnil. exists s. split; [|done].
  pose proof (bytes_length s Hv) as Hlen. rewrite Hnil, zlen_nil in Hlen.
  unfold doReadArrayBounded. repeat (case_match; [lia|]).
  unfold bind, get. case_match; [done|lia].
Qed.

Lemma read_bounds s size off len :
  valid s -> 0 < len -> size - off < len ->
  doReadArrayBounded size off len s = (Throw IndexOutOfBoundsException, s).
Proof.
  intros _ ??. unfold doReadArrayBounded. case_match; [lia|].
  repeat (case_match; [done|]). lia.
Qed.

#[export] Instance ByteArray_laws : InputStreamLaws ByteArrayInputStream := {|
  is_valid := valid;
  is_bytes := bytes;
  is_read_data := read_data;
  is_read_eof := read_eof;
  is_read_bounds := read_bounds;
|}.

End ByteArray.

(** ** A stream that delivers its bytes in segments *)

(** Not code of the repository: an instance of the interface that behaves like
    a socket, one received segment per [read], against which the client's
    theorems are instantiated. *)
Module Segmented.

Fixpoint read_segments (len : Z) (segs : list (list Z))
    : option (list Z) * list (list Z) :=
  match segs with
  | [] => (None, [])
  | [] :: segs' => read_segments len segs'
  | seg :: segs' =>
      (Some (take (Z.to_nat len) seg),
       if zlen seg <=? len then segs' else drop (Z.to_nat len) seg :: segs')
  end.

Definition segmented_read (size off len : Z) : M (list (list Z)) (option (list Z)) :=
  fun s =>
    if len =? 0 then (Ok (Some []), s)
    else if (off <? 0) || (len <? 0) || (size - off <? len)
    then (Throw IndexOutOfBoundsException, s)
    else let '(r, s') := read_segments len s in (Ok r, s').

#[export] Instance Segmented_stream : InputStream (list (list Z)) :=
  {| is_read := segmented_read |}.

Lemma read_segments_spec len segs :
  0 < len ->
  match read_segments len segs with
  | (Some c, s') => concat segs = c ++ concat s' /\ 0 < zlen c <= len
  | (None, s') => concat segs = [] /\ concat s' = []
  end.
Proof.
  intros Hlen. induction segs as [|[|b seg] segs IH]; [done|done|].
  clear IH. cbn [read_segments]. destruct (Z.leb_spec (zlen (b :: seg)) len) as [Hle|Hle].
  - rewrite take_ge by zlia. split; [done|]. zlia.
  - split.
    + cbn [concat]. by rewrite app_assoc, take_drop.
    + unfold zlen in *. rewrite length_take. lia.
Qed.

Lemma seg_data (s : list (list Z)) size off len :
  True -> 0 < len -> 0 <= off -> off + len <= size -> concat s <> [] ->
  exists c s', segmented_read size off len s = (Ok (Some c), s') /\ True /\
    concat s = c ++ concat s' /\ 0 < zlen c <= len.
Proof.
  intros _ ????. unfold segmented_read. repeat (case_match; [lia|]).
  pose proof (read_segments_spec len s) as Hs.
  destruct (read_segments len s) as [[c|] s']; [|by destruct Hs].
  destruct Hs as [-> ?]; [done|]. by exists c, s'.
Qed.

Lemma seg_eof (s : list (list Z)) size off len :
  True -> 0 < len -> 0 <= off -> off + len <= size -> concat s = [] ->
  exists s', segmented_read size off len s = (Ok None, s') /\ True /\ concat s' = [].
Proof.
  intros _ ??? Hnil. unfold segmented_read. repeat (case_match; [lia|]).
  pose proof (read_segments_spec len s) as Hs.
  destruct (read_segments len s) as [[c|] s'].
  - destruct Hs as [Hs Hc]; [done|]. rewrite Hnil in Hs. symmetry in Hs.
    apply app_eq_nil in Hs as [-> _]. zlia.
  - exists s'. split; [done|]. split; [done|]. by apply Hs.
Qed.

Lemma seg_bounds (s : list (list Z)) size off len :
  True -> 0 < len -> size - off < len ->
  segmented_read size off len s = (Throw IndexOutOfBoundsException, s).
Proof.
  intros _ ??. unfold segmented_read. case_match; [lia|]. case_match; [done|lia].
Qed.

#[export] Instance Segmented_laws : InputStreamLaws (list (list Z)) := {|
  is_valid _ := True;
  is_bytes := @concat Z;
  is_read_data := seg_data;
  is_read_eof := seg_eof;
  is_read_bounds := seg_bounds;
|}.

End Segmented.

#[export] Existing Instance ByteArray.ByteArray_stream.
#[export] Existing Instance ByteArray.ByteArray_laws.
#[export] Existing Instance Segmented.Segmented_stream.
#[export] Existing Instance Segmented.Segmented_laws.

(** ** DataInputStream *)

Record DataInputStream (S : Type) : Type := mkDIS { inputStream : option S }.
Arguments mkDIS {S} _.
Arguments inputStream {S} _.

Section data_input.
Context {S : Type} `{InputStream S}.
Implicit Types (d : DataInputStream S).

(** [inputStream->read(buffer, size, offset, length)] on a non-NULL base. *)
Definition base_read (size offset length : Z) : M (DataInputStream S) (option (list Z)) :=
  fun d =>
    match inputStream d with
    | None => (UB, d)
    | Some s => let '(r, s') := is_read size offset length s in (r, mkDIS (Some s'))
    end.

(** [while (n < length) { count = read(buffer, length, offset + n, length - n);
    if (count == -1) throw EOFException; n += count; }], both callers' loop.
    Each turn stores at least one byte, so [length] turns are enough. *)
Fixpoint read_loop (fuel : nat) (offset n length : Z) : M (DataInputStream S) (list Z) :=
  if length <=? n then ret []
  else
    match fuel with
    | O => hang
    | Datatypes.S fuel' =>
        r <- base_read length (offset + n) (length - n) ;;
        match r with
        | None => throw EOFException
        | Some c =>
            rest <- read_loop fuel' offset (n + zlen c) length ;;
            ret (c ++ rest)
        end
    end.

(** The result is what the member [buffer] holds at [0 .. length - 1]. *)
Definition readAllData (length : Z) : M (DataInputStream S) (list Z) :=
  catch_io
    (if length <? 0 then throw IOException
     else if length =? 0 then ret []
     else
       d <- get ;;
       match inputStream d with
       | None => throw IOException
       | Some _ => read_loop (Z.to_nat length) 0 0 length
       end).

(** [readFully(buffer, size, offset, length)]: the result is what it stored at
    [buffer[offset .. offset + length - 1]]. *)
Definition readFully (buffer_null : bool) (size offset length : Z)
    : M (DataInputStream S) (list Z) :=
  rethrow is_read_error IOException
    (if length =? 0 then ret []
     else if buffer_null then throw NullPointerException
     else
       d <- get ;;
       match inputStream d with
       | None => throw NullPointerException
       | Some _ =>
           if size <? 0 then throw IndexOutOfBoundsException
           else if (size <? offset) || (offset <? 0) then throw IndexOutOfBoundsException
           else if (length <? 0) || (size - offset <? length)
           then throw IndexOutOfBoundsException
           else read_loop (Z.to_nat length) offset 0 length
       end).

(** [readFully(buffer, size)] *)
Definition readFully_all (buffer_null : bool) (size : Z) : M (DataInputStream S) (list Z) :=
  rethrow is_read_error IOException
    (if size =? 0 then ret [] else readFully buffer_null size 0 size).

Definition at_ (buffer : list Z) (i : nat) : Z := nth i buffer 0.

Definition readBoolean : M (DataInputStream S) bool :=
  catch_io (b <- readAllData 1 ;; ret (negb (at_ b 0 =? 0))).

(** [(char)(buffer[0])], a signed [char]. *)
Definition readByte : M (DataInputStream S) Z :=
  catch_io (b <- readAllData 1 ;; ret (s8 (at_ b 0))).

Definition readUnsignedByte : M (DataInputStream S) Z :=
  catch_io (b <- readAllData 1 ;; ret (at_ b 0)).

Definition readChar : M (DataInputStream S) Z :=
  catch_io (b <- readAllData 1 ;; ret (s8 (at_ b 0))).

Definition readShort : M (DataInputStream S) Z :=
  catch_io (b <- readAllData 2 ;;
    ret (s16 (Z.lor (Z.shiftl (at_ b 0) 8) (Z.shiftl (at_ b 1) 0)))).

Definition readUnsignedShort : M (DataInputStream S) Z :=
  catch_io (b <- readAllData 2 ;;
    ret (u16 (Z.lor (Z.shiftl (at_ b 0) 8) (Z.shiftl (at_ b 1) 0)))).

(** The [unsigned int] value is returned as an [int]. *)
Definition readInt : M (DataInputStream S) Z :=
  catch_io (b <- readAllData 4 ;;
    ret (s32 (u32 (Z.lor (Z.lor (Z.lor (Z.shiftl (at_ b 0) 24) (Z.shiftl (at_ b 1) 16))
                                (Z.shiftl (at_ b 2) 8))
                         (Z.shiftl (at_ b 3) 0))))).

Definition readLong : M (DataInputStream S) Z :=
  catch_io (b <- readAllData 8 ;;
    let byte i := Z.land (at_ b i) 0xFF in
    ret (s64 (u64
      (Z.lor (Z.lor (Z.lor (Z.lor (Z.lor (Z.lor (Z.lor
        (Z.shiftl (byte 0%nat) 56) (Z.shiftl (byte 1%nat) 48)) (Z.shiftl (byte 2%nat) 40))
        (Z.shiftl (byte 3%nat) 32)) (Z.shiftl (byte 4%nat) 24)) (Z.shiftl (byte 5%nat) 16))
        (Z.shiftl (byte 6%nat) 8)) (Z.shiftl (byte 7%nat) 0))))).

(** The bit patterns of the floating-point values. *)
Definition readFloat : M (DataInputStream S) Z :=
  catch_io (v <- readInt ;; ret (u32 v)).
Definition readDouble : M (DataInputStream S) Z :=
  catch_io (v <- readLong ;; ret (u64 v)).

(** The decoding loop of [readUTF] over the bytes not yet consumed. *)
Fixpoint utf_decode (buffer : list Z) : outcome (list Z) :=
  let push c r := match r with Ok l => Ok (c :: l) | r => r end in
  match buffer with
  | [] => Ok []
  | a :: rest =>
      if a <? 0x80 then push a (utf_decode rest)
      else if Z.land a 0xE0 =? 0xC0 then
        match rest with
        | [] => Throw UTFDataFormatException
        | b :: rest' =>
            if negb (Z.land b 0xC0 =? 0x80) then Throw UTFDataFormatException
            else if negb (Z.land a 0x1C =? 0) then Throw UTFDataFormatException
            else
              push (u8 (Z.lor (Z.shiftl (Z.land a 0x1F) 6) (Z.land b 0x3F)))
                   (utf_decode rest')
        end
      else if Z.land a 0xF0 =? 0xE0 then Throw UTFDataFormatException
      else Throw UTFDataFormatException
  end.

Definition of_outcome {T A} (r : outcome A) : M T A := fun s => (r, s).

Definition readUTF : M (DataInputStream S) (list Z) :=
  catch_io
    (d <- get ;;
     match inputStream d with
     | None => throw IOException
     | Some _ =>
         utfLength <- readUnsignedShort ;;
         if utfLength =? 0 then ret []
         else buffer <- readFully_all false utfLength ;; of_outcome (utf_decode buffer)
     end).

(** [while (total < num && (cur = inputStream->skip(num - total)) > 0)
    total += cur], with the base stream's [skip] as an argument. *)
Fixpoint skipBytes_loop (base_skip : Z -> M (DataInputStream S) Z) (fuel : nat)
    (total num : Z) : M (DataInputStream S) Z :=
  if num <=? total then ret total
  else
    match fuel with
    | O => hang
    | Datatypes.S fuel' =>
        cur <- base_skip (num - total) ;;
        if 0 <? cur then skipBytes_loop base_skip fuel' (total + cur) num else ret total
    end.

Definition skipBytes (base_skip : Z -> M (DataInputStream S) Z) (num : Z)
    : M (DataInputStream S) Z :=
  catch_io
    (d <- get ;;
     match inputStream d with
     | None => throw IOException
     | Some _ => skipBytes_loop base_skip (Z.to_nat num) 0 num
     end).

End data_input.

(** ** What a reader promises *)

Section data_input_specs.
Context {S : Type} `{InputStreamLaws S}.
Implicit Types (d : DataInputStream S).

Definition ready d : Prop := exists s, inputStream d = Some s /\ is_valid s.

(** The bytes the stream has yet to deliver. *)
Definition avail d : list Z :=
  match inputStream d with Some s => is_bytes s | None => [] end.

Definition parses {A} (m : M (DataInputStream S) A) (bs : list Z) (a : A) : Prop :=
  forall d rest, ready d -> avail d = bs ++ rest ->
  exists d', m d = (Ok a, d') /\ ready d' /\ avail d' = rest.

(** On any stream whose next bytes are [bs], and then anything, [m] throws [e]. *)
Definition refuses {A} (m : M (DataInputStream S) A) (bs : list Z) (e : exn) : Prop :=
  forall d rest, ready d -> avail d = bs ++ rest -> exists d', m d = (Throw e, d').

(** On a stream that ends before [n] bytes, [m] throws [EOFException]. *)
Definition starves {A} (m : M (DataInputStream S) A) (n : Z) : Prop :=
  forall d, ready d -> zlen (avail d) < n ->
  exists d', m d = (Throw EOFException, d') /\ ready d' /\ avail d' = [].

Lemma parses_ret {A} (a : A) : parses (ret a) [] a.
Proof. intros d rest Hd Ha. by exists d. Qed.

Lemma parses_bind {A B} (m : M _ A) (k : A -> M _ B) bs cs a b :
  parses m bs a -> parses (k a) cs b -> parses (bind m k) (bs ++ cs) b.
Proof.
  intros Hm Hk d rest Hd Ha. rewrite <- app_assoc in Ha.
  destruct (Hm d _ Hd Ha) as (d' & E & Hd' & Ha').
  destruct (Hk d' _ Hd' Ha') as (d'' & E' & ? & ?).
  exists d''. by rewrite (bind_ok _ _ _ _ _ E).
Qed.

Lemma parses_rethrow {A} keep to (m : M _ A) bs a :
  parses m bs a -> parses (rethrow keep to m) bs a.
Proof.
  intros Hm d rest Hd Ha. destruct (Hm d rest Hd Ha) as (d' & E & ?).
  exists d'. split; [by apply rethrow_ok|done].
Qed.

Lemma parses_catch_io {A} (m : M _ A) bs a :
  parses m bs a -> parses (catch_io m) bs a.
Proof. apply parses_rethrow. Qed.

Lemma parses_eq {A} (m : M _ A) bs cs a b :
  parses m bs a -> bs = cs -> a = b -> parses m cs b.
Proof. by intros ? <- <-. Qed.

(** [get], which the readers use to test the base pointer. *)
Lemma parses_base {A} (m z : M _ A) bs a :
  parses m bs a ->
  parses (d <- get ;; match inputStream d with None => z | Some _ => m end) bs a.
Proof.
  intros Hm d rest Hd Ha. destruct (Hd) as (s & Hs & _).
  unfold bind, get. rewrite Hs. by apply Hm.
Qed.

Lemma refuses_bind {A B} (m : M _ A) (k : A -> M _ B) bs cs a e :
  parses m bs a -> refuses (k a) cs e -> refuses (bind m k) (bs ++ cs) e.
Proof.
  intros Hm Hk d rest Hd Ha. rewrite <- app_assoc in Ha.
  destruct (Hm d _ Hd Ha) as (d' & E & Hd' & Ha').
  rewrite (bind_ok _ _ _ _ _ E). by eapply Hk.
Qed.

Lemma refuses_catch_io {A} (m : M _ A) bs e :
  is_io e = true -> refuses m bs e -> refuses (catch_io m) bs e.
Proof.
  intros He Hm d rest Hd Ha. destruct (Hm d rest Hd Ha) as (d' & E).
  exists d'. by rewrite (catch_io_throw _ _ _ _ E), He.
Qed.

(** ** The read loop hides how the bytes arrive *)

Lemma base_read_data d off len :
  ready d -> 0 < len -> 0 <= off -> avail d <> [] ->
  exists c d', base_read (off + len) off len d = (Ok (Some c), d') /\ ready d' /\
    avail d = c ++ avail d' /\ 0 < zlen c <= len.
Proof.
  intros (s & Hs & Hv) ?? Hne. unfold avail in *. rewrite Hs in *.
  destruct (is_read_data s (off + len) off len) as (c & s' & E & Hv' & ? & ?); [done..|].
  exists c, (mkDIS (Some s')). unfold base_read. rewrite Hs, E.
  split; [done|]. split; [by exists s'|done].
Qed.

Lemma read_loop_ok fuel n length bs d rest :
  ready d -> (Z.to_nat (length - n) <= fuel)%nat -> 0 <= n -> zlen bs = length - n ->
  avail d = bs ++ rest ->
  exists d', read_loop fuel 0 n length d = (Ok bs, d') /\ ready d' /\ avail d' = rest.
Proof.
  revert n bs d. induction fuel as [|fuel IH]; intros n bs d Hd Hf Hn Hbs Ha; cbn [read_loop].
  - rewrite (proj2 (Z.leb_le length n)) by lia.
    rewrite (zlen_zero bs) in * by zlia. by exists d.
  - destruct (Z.leb_spec length n) as [Hle|Hlt].
    { rewrite (zlen_zero bs) in * by (pose proof (zlen_nonneg bs); lia). by exists d. }
    destruct (base_read_data d n (length - n)) as (c & d' & E & Hd' & Ha' & Hc);
      [done|lia|lia|rewrite Ha; by destruct bs; [zlia|]|].
    replace (n + (length - n)) with length in E by lia. rewrite Z.add_0_l.
    rewrite (bind_ok _ _ _ _ _ E).
    destruct (app_split c (avail d') bs rest) as (bs' & -> & Had'); [congruence|lia|].
    rewrite zlen_app in Hbs.
    destruct (IH (n + zlen c) bs' d') as (d'' & E' & ? & ?); [done|lia|lia|lia|done|].
    exists d''. by rewrite (bind_ok _ _ _ _ _ E').
Qed.

Lemma read_loop_eof fuel n length d :
  ready d -> (Z.to_nat (length - n) <= fuel)%nat -> 0 <= n ->
  zlen (avail d) < length - n ->
  exists d', read_loop fuel 0 n length d = (Throw EOFException, d') /\ ready d' /\
    avail d' = [].
Proof.
  revert n d. induction fuel as [|fuel IH]; intros n d Hd Hf Hn Ha; cbn [read_loop];
    pose proof (zlen_nonneg (avail d)); [lia|].
  rewrite (proj2 (Z.leb_gt length n)) by lia. rewrite Z.add_0_l.
  destruct (decide (avail d = [])) as [Hnil|Hne].
  - destruct Hd as (s & Hs & Hv). unfold avail in Hnil. rewrite Hs in Hnil.
    destruct (is_read_eof s length n (length - n)) as (s' & E & Hv' & Hs');
      [done|lia|lia|lia|done|].
    exists (mkDIS (Some s')). unfold bind, base_read. rewrite Hs, E.
    split; [done|]. split; [by exists s'|done].
  - destruct (base_read_data d n (length - n)) as (c & d' & E & Hd' & Ha' & Hc);
      [done|lia|lia|done|].
    replace (n + (length - n)) with length in E by lia.
    rewrite (bind_ok _ _ _ _ _ E).
    destruct (IH (n + zlen c) d') as (d'' & E' & ?); [done|lia|lia| |].
    { rewrite Ha', zlen_app in Ha. lia. }
    exists d''. by rewrite (bind_throw _ _ _ _ _ E').
Qed.

Lemma parses_readAllData n bs : zlen bs = n -> parses (readAllData n) bs bs.
Proof.
  intros Hn. apply parses_catch_io. pose proof (zlen_nonneg bs).
  rewrite (proj2 (Z.ltb_ge n 0)) by lia. case_match.
  { rewrite (zlen_zero bs) by lia. apply parses_ret. }
  apply parses_base. intros d rest Hd Ha. apply read_loop_ok; [done|lia|lia|lia|done].
Qed.

Lemma starves_readAllData n : starves (readAllData n) n.
Proof.
  intros d Hd Ha. pose proof (zlen_nonneg (avail d)). unfold readAllData.
  rewrite (proj2 (Z.ltb_ge n 0)) by lia. rewrite (proj2 (Z.eqb_neq n 0)) by lia.
  destruct (read_loop_eof (Z.to_nat n) 0 n d) as (d' & E & ?); [done|lia|lia|lia|].
  exists d'. split; [|done]. destruct (Hd) as (s & Hs & _).
  unfold catch_io, rethrow, bind, get. by rewrite Hs, E.
Qed.

Lemma parses_readFully n bs :
  zlen bs = n -> parses (readFully false n 0 n) bs bs.
Proof.
  intros Hn. apply parses_rethrow. pose proof (zlen_nonneg bs). case_match.
  { rewrite (zlen_zero bs) by lia. apply parses_ret. }
  apply parses_base. intros d rest Hd Ha.
  repeat (case_match; [lia|]). apply read_loop_ok; [done|lia|lia|lia|done].
Qed.

Lemma parses_readFully_all n bs : zlen bs = n -> parses (readFully_all false n) bs bs.
Proof.
  intros Hn. apply parses_rethrow. pose proof (zlen_nonneg bs). case_match.
  { rewrite (zlen_zero bs) by lia. apply parses_ret. }
  by apply parses_readFully.
Qed.

Lemma short_readFully_all n d : 0 <= n -> ready d -> zlen (avail d) < n -> exists d', readFully_all false n d = (Throw EOFException, d').
Proof.
  intros Hn Hd Hlt. pose proof (zlen_nonneg (avail d)).
  destruct (read_loop_eof (Z.to_nat n) 0 n d) as (d' & E & _); [done|lia|lia|lia|].
  exists d'. destruct Hd as (s & Hs & _). unfold readFully_all, readFully. zcmp.
  unfold rethrow, bind, get. rewrite Hs. by rewrite E.
Qed.

(** A fixed-width read on a truncated stream. *)
Lemma starves_fixed {A} n (k : list Z -> M _ A) :
  starves (catch_io (b <- readAllData n ;; k b)) n.
Proof.
  intros d Hd Ha. destruct (starves_readAllData n d Hd Ha) as (d' & E & ?).
  exists d'. split; [|done]. unfold catch_io, rethrow. by rewrite (bind_throw _ _ _ _ _ E).
Qed.

(** ** The fixed-width readers *)

Lemma parses_fixed {A} n (f : list Z -> A) bs :
  zlen bs = n -> parses (catch_io (b <- readAllData n ;; ret (f b))) bs (f bs).
Proof.
  intros Hn. apply parses_catch_io.
  eapply parses_eq; [eapply parses_bind; [by apply parses_readAllData|apply parses_ret]
                    |by rewrite app_nil_r|done].
Qed.

Lemma parses_readBoolean b : parses readBoolean [b] (negb (b =? 0)).
Proof. by apply (parses_fixed 1 (fun b => negb (at_ b 0 =? 0))). Qed.
Lemma parses_readByte b : parses readByte [b] (s8 b).
Proof. by apply (parses_fixed 1 (fun b => s8 (at_ b 0))). Qed.
Lemma parses_readUnsignedByte b : parses readUnsignedByte [b] b.
Proof. by apply (parses_fixed 1 (fun b => at_ b 0)). Qed.
Lemma parses_readChar b : parses readChar [b] (s8 b).
Proof. by apply (parses_fixed 1 (fun b => s8 (at_ b 0))). Qed.

(** The shift-and-or expressions are the big-endian value of the bytes. *)
Ltac lor_tac :=
  intros; rewrite (Z.shiftl_mul_pow2 _ _) by lia;
  repeat match goal with
  | |- context [Z.lor (?x * 2 ^ ?k) (Z.shiftl ?b ?k')] =>
      rewrite (lor_step x b k k') by (done || lia)
  end;
  unfold be_val; cbn [fold_left]; lia.

Lemma lor2 a b : byte_ok a -> byte_ok b ->
  Z.lor (Z.shiftl a 8) (Z.shiftl b 0) = be_val [a; b].
Proof. lor_tac. Qed.

Lemma lor4 a b c e : byte_ok a -> byte_ok b -> byte_ok c -> byte_ok e ->
  Z.lor (Z.lor (Z.lor (Z.shiftl a 24) (Z.shiftl b 16)) (Z.shiftl c 8)) (Z.shiftl e 0)
  = be_val [a; b; c; e].
Proof. lor_tac. Qed.

Lemma lor8 a b c e f g h i :
  byte_ok a -> byte_ok b -> byte_ok c -> byte_ok e ->
  byte_ok f -> byte_ok g -> byte_ok h -> byte_ok i ->
  Z.lor (Z.lor (Z.lor (Z.lor (Z.lor (Z.lor (Z.lor (Z.shiftl a 56) (Z.shiftl b 48))
    (Z.shiftl c 40)) (Z.shiftl e 32)) (Z.shiftl f 24)) (Z.shiftl g 16)) (Z.shiftl h 8))
    (Z.shiftl i 0)
  = be_val [a; b; c; e; f; g; h; i].
Proof. lor_tac. Qed.

Lemma parses_readShort bs : bytes_ok bs -> zlen bs = 2 -> parses readShort bs (s16 (be_val bs)).
Proof.
  destruct bs as [|a [|b [|]]]; try (intros; zlia). intros Hok _.
  repeat (apply Forall_cons_iff in Hok as [? Hok]).
  eapply parses_eq; [by apply (parses_fixed 2 _ [a; b])|done|].
  unfold at_. simpl. by rewrite lor2.
Qed.

Lemma parses_readUnsignedShort bs :
  bytes_ok bs -> zlen bs = 2 -> parses readUnsignedShort bs (u16 (be_val bs)).
Proof.
  destruct bs as [|a [|b [|]]]; try (intros; zlia). intros Hok _.
  repeat (apply Forall_cons_iff in Hok as [? Hok]).
  eapply parses_eq; [by apply (parses_fixed 2 _ [a; b])|done|].
  unfold at_. simpl. by rewrite lor2.
Qed.

Lemma parses_readInt bs :
  bytes_ok bs -> zlen bs = 4 -> parses readInt bs (s32 (be_val bs)).
Proof.
  destruct bs as [|a [|b [|c [|e [|]]]]]; try (intros; zlia). intros Hok _.
  repeat (apply Forall_cons_iff in Hok as [? Hok]). 
  eapply parses_eq; [by apply (parses_fixed 4 _ [a; b; c; e])|done|].
  unfold at_. simpl. by rewrite lor4, wraps_wrapu by done.
Qed.

Lemma parses_readLong bs :
  bytes_ok bs -> zlen bs = 8 -> parses readLong bs (s64 (be_val bs)).
Proof.
  destruct bs as [|a [|b [|c [|e [|f [|g [|h [|i [|]]]]]]]]]; try (intros; zlia). intros Hok _.
  repeat (apply Forall_cons_iff in Hok as [? Hok]).
  unfold readLong. cbv zeta. eapply parses_eq; [by apply (parses_fixed 8 _ [a; b; c; e; f; g; h; i])|done|].
  unfold at_. simpl. by rewrite !land_byte, lor8, wraps_wrapu by done.
Qed.
End data_input_specs.

(** ** Properties *)

(** readAllData hides how the bytes arrive: asked for [n] bytes it returns exactly
    the next [n], in however many reads the base stream delivers them, and when the
    stream ends short of that it throws [EOFException], never a partial result. *)
Theorem readAllData_complete {S} `{InputStreamLaws S} (d : DataInputStream S) n :
  ready d -> 0 <= n ->
  exists d', ready d' /\
    if n <=? zlen (avail d)
    then readAllData n d = (Ok (take (Z.to_nat n) (avail d)), d') /\
         avail d' = drop (Z.to_nat n) (avail d)
    else readAllData n d = (Throw EOFException, d') /\ avail d' = [].
Proof.
  intros Hd Hn. destruct (Z.leb_spec n (zlen (avail d))) as [Hle|Hgt].
  - destruct (parses_readAllData n (take (Z.to_nat n) (avail d))) with (d := d)
      (rest := drop (Z.to_nat n) (avail d)) as (d' & E & Hd' & Ha').
    { unfold zlen in *. rewrite length_take. lia. }
    { done. } { by rewrite take_drop. }
    by exists d'.
  - destruct (starves_readAllData n d Hd Hgt) as (d' & E & Hd' & Ha'). by exists d'.
Qed.

Lemma readAllData_complete_witness :
  let d := mkDIS (Some [[1; 2]; []; [3]; [4; 5; 6]]) in
  exists d', ready d' /\
    if 4 <=? zlen (avail d)
    then readAllData 4 d = (Ok (take 4 (avail d)), d') /\ avail d' = drop 4 (avail d)
    else readAllData 4 d = (Throw EOFException, d') /\ avail d' = [].
Proof. apply (readAllData_complete (mkDIS (Some [[1; 2]; []; [3]; [4; 5; 6]])) 4); [by eexists|done]. Defined.

(** readFully with a positive offset never reads: it hands the base stream the
    number of bytes wanted as the size of the buffer, and the base stream rejects
    the offset as out of bounds, although the caller's buffer has room. *)
Theorem readFully_offset_rejected {S} `{InputStreamLaws S} (d : DataInputStream S)
    size offset length :
  ready d -> 0 < offset -> 0 < length -> offset + length <= size ->
  readFully false size offset length d = (Throw IndexOutOfBoundsException, d).
Proof.
  intros (s & Hs & Hv) Ho Hl Hsz. unfold readFully. zcmp.
  unfold rethrow, bind at 1, get. rewrite Hs. zcmp.
  destruct (Z.to_nat length) as [|n] eqn:E; [lia|]. cbn [read_loop]. zcmp.
  unfold bind, base_read. rewrite Hs, is_read_bounds by (done || lia). by destruct d; cbn in *; subst.
Qed.

Lemma readFully_offset_rejected_witness :
  readFully false 10 2 3 (mkDIS (Some [[1; 2; 3; 4; 5]])) =
  (Throw IndexOutOfBoundsException, mkDIS (Some [[1; 2; 3; 4; 5]])).
Proof. apply (readFully_offset_rejected (mkDIS (Some [[1; 2; 3; 4; 5]])) 10 2 3); [by eexists|done..]. Defined.
