(* ===== verification/Codec.v ===== *)
(** * The wire contract of a writer and a reader, and the primitive codecs.

    [codec w r a bs]: writing [a] appends [bs], and a reader handed [bs] gives
    [a] back and stops right behind it.  Codecs compose as the monadic bodies
    do, so a round trip of a record is a walk over its fields. *)
From S2P Require Import Prelude DataOutput DataInput.

(** The result of a reader whose whole input is [bs]. *)
Definition read_from {A} (m : M (DataInputStream ByteArray.ByteArrayInputStream) A)
    (bs : list Z) : outcome A :=
  (m (mkDIS (Some (ByteArray.new bs)))).1.

(** What a writer leaves in a fresh buffer. *)
Definition written_by {A} (m : M DataOutputStream A) : outcome A * list Z :=
  let '(r, o) := m (DataOutputStream_new (Some [])) in
  (r, match outputStream o with Some w => w | None => [] end).

Section codec.
Context {S : Type} `{InputStreamLaws S}.

Definition codec {A} (w : A -> M DataOutputStream unit) (r : M (DataInputStream S) A)
    (a : A) (bs : list Z) : Prop :=
  emits (w a) bs tt /\ parses r bs a.

Lemma codec_parses_inj {A} w (r : M (DataInputStream S) A) a b bs d :
  codec w r a bs -> codec w r b bs -> ready d -> avail d = bs -> a = b.
Proof.
  intros [_ Ha] [_ Hb] Hd Hbs.
  destruct (Ha d []) as (? & Ea & _); [done|by rewrite app_nil_r|].
  destruct (Hb d []) as (? & Eb & _); [done|by rewrite app_nil_r|].
  congruence.
Qed.

Lemma codec_boolean b : codec writeBoolean readBoolean b [if b then 1 else 0].
Proof.
  split; [apply emits_writeBoolean|].
  eapply parses_eq; [apply parses_readBoolean|done|by destruct b].
Qed.

(** [writeByte] takes an unsigned char; [readByte] gives a signed one. *)
Lemma codec_unsignedByte v : byte_ok v -> codec writeByte readUnsignedByte v [v].
Proof.
  intros Hv. split; [|apply parses_readUnsignedByte].
  eapply emits_eq; [apply emits_writeByte|]. by rewrite wrapu_id.
Qed.

Lemma codec_byte v : in_s 8 v -> codec writeByte readByte v [u8 v].
Proof.
  intros Hv. split; [apply emits_writeByte|].
  eapply parses_eq; [apply parses_readByte|done|]. rewrite wraps_wrapu by lia. by apply wraps_id.
Qed.

Lemma codec_char v : in_s 8 v -> codec writeChar readChar v [u8 v].
Proof.
  intros Hv. split; [apply emits_writeChar|].
  eapply parses_eq; [apply parses_readChar|done|]. rewrite wraps_wrapu by lia. by apply wraps_id.
Qed.

Lemma zlen_be_bytes n v : zlen (be_bytes n v) = Z.of_nat n.
Proof. unfold zlen. by rewrite be_bytes_length. Qed.

Lemma s_be_val w n v :
  w = 8 * Z.of_nat n -> 1 <= w -> in_s w v -> wraps w (be_val (be_bytes n v)) = v.
Proof.
  intros Hw Hw1 Hv. rewrite be_val_bytes, <- Hw.
  change (v mod 2 ^ w) with (wrapu w v). rewrite wraps_wrapu by lia. by apply wraps_id.
Qed.

Lemma codec_short v : in_s 16 v -> codec writeShort readShort v (be_bytes 2 v).
Proof.
  intros Hv. split; [apply emits_writeShort|].
  eapply parses_eq; [apply parses_readShort; [apply (be_bytes_ok 2 v)|apply (zlen_be_bytes 2 v)]|done|].
  by apply s_be_val.
Qed.

Lemma codec_unsignedShort v :
  in_u 16 v -> codec writeUnsignedShort readUnsignedShort v (be_bytes 2 v).
Proof.
  intros Hv. split; [apply emits_writeUnsignedShort|].
  eapply parses_eq;
    [apply parses_readUnsignedShort; [apply (be_bytes_ok 2 v)|apply (zlen_be_bytes 2 v)]|done|].
  rewrite be_val_bytes. rewrite (Z.mod_small v) by done. by apply wrapu_id.
Qed.

Lemma codec_int v : in_s 32 v -> codec writeInt readInt v (be_bytes 4 v).
Proof.
  intros Hv. split; [apply emits_writeInt|].
  eapply parses_eq; [apply parses_readInt; [apply (be_bytes_ok 4 v)|apply (zlen_be_bytes 4 v)]|done|].
  by apply s_be_val.
Qed.

Lemma codec_long v : in_s 64 v -> codec writeLong readLong v (be_bytes 8 v).
Proof.
  intros Hv. split; [apply emits_writeLong|].
  eapply parses_eq; [apply parses_readLong; [apply (be_bytes_ok 8 v)|apply (zlen_be_bytes 8 v)]|done|].
  by apply s_be_val.
Qed.

Lemma be_bytes_mod n v : be_bytes n (v mod 2 ^ (8 * Z.of_nat n)) = be_bytes n v.
Proof.
  revert v. induction n as [|n IH]; intros v; cbn [be_bytes]; [done|].
  replace (8 * Z.of_nat (Datatypes.S n)) with (8 + 8 * Z.of_nat n) by lia.
  rewrite Z.pow_add_r, Z.rem_mul_r by lia. f_equal.
  - rewrite <- (IH (v / 2 ^ 8)). f_equal.
    rewrite Z.mul_comm, Z.div_add, Z.div_small by (try apply Z.mod_pos_bound; lia). lia.
  - f_equal. rewrite Z.mul_comm, Z.mod_add by lia. apply Z.mod_mod. lia.
Qed.

Lemma be_bytes_s w n v : w = 8 * Z.of_nat n -> 1 <= w -> be_bytes n (wraps w v) = be_bytes n v.
Proof.
  intros Hw Hw1. rewrite <- (be_bytes_mod n (wraps w v)), <- Hw.
  change (wraps w v mod 2 ^ w) with (wrapu w (wraps w v)).
  rewrite wrapu_wraps by done. unfold wrapu. rewrite Hw. apply be_bytes_mod.
Qed.

Lemma codec_float v : in_u 32 v -> codec writeFloat readFloat v (be_bytes 4 v).
Proof.
  intros Hv. rewrite <- (be_bytes_s 32 4 v) by done.
  destruct (codec_int (s32 v)) as [He Hp]; [by apply wraps_range|].
  split; [by apply emits_catch_io|]. apply parses_catch_io.
  eapply parses_eq; [eapply parses_bind; [exact Hp|apply parses_ret]|by rewrite app_nil_r|].
  rewrite wrapu_wraps by lia. by apply wrapu_id.
Qed.

Lemma codec_double v : in_u 64 v -> codec writeDouble readDouble v (be_bytes 8 v).
Proof.
  intros Hv. rewrite <- (be_bytes_s 64 8 v) by done.
  destruct (codec_long (s64 v)) as [He Hp]; [by apply wraps_range|].
  split; [by apply emits_catch_io|]. apply parses_catch_io.
  eapply parses_eq; [eapply parses_bind; [exact Hp|apply parses_ret]|by rewrite app_nil_r|].
  rewrite wrapu_wraps by lia. by apply wrapu_id.
Qed.

(** A block of bytes of known length. *)
Lemma codec_block bs :
  emits (doWriteArrayBounded (Some bs) (zlen bs) 0 (zlen bs)) bs tt /\
  parses (readFully_all false (zlen bs)) bs bs.
Proof. split; [by apply emits_write_all|by apply parses_readFully_all]. Qed.

(** ** Modified UTF-8 *)

(** The decoder undoes the encoder one character at a time: the 256 cases. *)
Lemma utf_decode_char c rest :
  byte_ok c ->
  utf_decode (utf_encode_char c ++ rest) =
  match utf_decode rest with Ok l => Ok (c :: l) | r => r end.
Proof.
  intros Hc.
  assert (match utf_encode_char c with
          | [a] => (a <? 0x80) && (a =? c)
          | [a; b] =>
              negb (a <? 0x80) && (Z.land a 0xE0 =? 0xC0) && (Z.land b 0xC0 =? 0x80) &&
              (Z.land a 0x1C =? 0) &&
              (u8 (Z.lor (Z.shiftl (Z.land a 0x1F) 6) (Z.land b 0x3F)) =? c)
          | _ => false
          end = true) as Hb.
  { revert c Hc. apply byte_cases. by vm_compute. }
  destruct (utf_encode_char c) as [|a [|b [|]]]; [done|..|done]; cbn [app utf_decode].
  - apply andb_prop in Hb as [-> Ha%Z.eqb_eq]. subst. by destruct (utf_decode rest).
  - repeat (apply andb_prop in Hb as [Hb ?]).
    apply negb_true_iff in Hb. rewrite Hb.
    repeat match goal with H : (_ =? _) = true |- _ => apply Z.eqb_eq in H end.
    repeat match goal with H : Z.land _ _ = _ |- _ => rewrite H end.
    rewrite !Z.eqb_refl. simpl. subst. by destruct (utf_decode rest).
Qed.

Lemma utf_decode_encode value : bytes_ok value -> utf_decode (utf_encode value) = Ok value.
Proof.
  induction 1 as [|c l Hc Hl IH]; [done|]. cbn [utf_encode mbind list_bind].
  rewrite utf_decode_char by done. unfold utf_encode in IH. by rewrite IH.
Qed.

Lemma parses_readUTF bs value :
  zlen bs <= 65535 -> utf_decode bs = Ok value ->
  parses readUTF (be_bytes 2 (zlen bs) ++ bs) value.
Proof.
  intros Hlen Hdec. apply parses_catch_io, parses_base.
  pose proof (zlen_nonneg bs).
  eapply parses_bind; [apply codec_unsignedShort; unfold in_u; lia|].
  destruct (Z.eqb_spec (zlen bs) 0) as [Hz|Hz].
  - rewrite (zlen_zero bs Hz) in *. injection Hdec as <-. apply parses_ret.
  - eapply parses_eq; [eapply parses_bind;
      [by apply parses_readFully_all|]|by apply app_nil_r|done].
    intros d rest Hd Ha. exists d. unfold of_outcome. by rewrite Hdec.
Qed.

Lemma codec_utf value :
  bytes_ok value -> zlen (utf_encode value) <= 65535 ->
  codec writeUTF readUTF value (be_bytes 2 (zlen (utf_encode value)) ++ utf_encode value).
Proof.
  intros Hok Hlen. split; [by apply emits_writeUTF|].
  apply parses_readUTF; [done|by apply utf_decode_encode].
Qed.

(** ** Loops over lists *)

Lemma emits_iter_m {A} (f : A -> M DataOutputStream unit) enc l :
  Forall (fun x => emits (f x) (enc x) tt) l -> emits (iter_m f l) (l ≫= enc) tt.
Proof.
  induction 1 as [|x l Hx Hl IH]; [apply emits_ret|]. rewrite bind_cons. by eapply emits_bind.
Qed.

Lemma parses_repeat_m {A} (m : M (DataInputStream S) A) enc l :
  Forall (fun x => parses m (enc x) x) l -> parses (repeat_m (length l) m) (l ≫= enc) l.
Proof.
  induction 1 as [|x l Hx Hl IH]; [apply parses_ret|]. rewrite bind_cons.
  eapply parses_bind; [exact Hx|]. rewrite <- (app_nil_r (l ≫= enc)).
  eapply parses_bind; [exact IH|]. apply parses_ret.
Qed.

End codec.

#[export] Hint Resolve codec_boolean codec_unsignedByte codec_byte codec_char codec_short
  codec_unsignedShort codec_int codec_long codec_float codec_double codec_utf : amq.
#[export] Hint Rewrite zlen_be_bytes : amq_len.

(** ** Properties *)

(** Every fixed-width value a DataOutputStream writes, a DataInputStream reads back
    and stops right behind it, on any conforming base stream: booleans, bytes,
    signed and unsigned 16-bit, 32-bit and 64-bit integers in network order, and
    the bit patterns of floats and doubles. *)
Theorem fixed_width_roundtrip {S} `{InputStreamLaws S} :
  (forall b, codec (S := S) writeBoolean readBoolean b [if b then 1 else 0]) /\
  (forall v, byte_ok v -> codec (S := S) writeByte readUnsignedByte v [v]) /\
  (forall v, in_s 16 v -> codec (S := S) writeShort readShort v (be_bytes 2 v)) /\
  (forall v, in_u 16 v -> codec (S := S) writeUnsignedShort readUnsignedShort v (be_bytes 2 v)) /\
  (forall v, in_s 32 v -> codec (S := S) writeInt readInt v (be_bytes 4 v)) /\
  (forall v, in_s 64 v -> codec (S := S) writeLong readLong v (be_bytes 8 v)) /\
  (forall v, in_u 32 v -> codec (S := S) writeFloat readFloat v (be_bytes 4 v)) /\
  (forall v, in_u 64 v -> codec (S := S) writeDouble readDouble v (be_bytes 8 v)).
Proof. split_and!; auto with amq. Qed.

(** A string whose modified UTF-8 form fits 65535 bytes survives writeUTF and
    readUTF; a longer one is refused before a byte is written. *)
Theorem utf_roundtrip {S} `{InputStreamLaws S} value :
  bytes_ok value -> zlen (utf_encode value) < 2 ^ 32 ->
  if zlen (utf_encode value) <=? 65535
  then codec (S := S) writeUTF readUTF value
         (be_bytes 2 (zlen (utf_encode value)) ++ utf_encode value)
  else forall o, writeUTF value o = (Throw UTFDataFormatException, o).
Proof.
  intros Hok Hlen. destruct (Z.leb_spec (zlen (utf_encode value)) 65535).
  - by apply codec_utf.
  - intros o. apply writeUTF_too_long. lia.
Qed.

Lemma utf_roundtrip_witness :
  codec (S := ByteArray.ByteArrayInputStream)
    writeUTF readUTF [72; 0; 233] [0; 5; 72; 0xC0; 0x80; 0xC3; 0xA9].
Proof.
  apply (utf_roundtrip (S := ByteArray.ByteArrayInputStream) [72; 0; 233]); [|by vm_compute].
  repeat constructor; by vm_compute.
Defined.
