(* ===== verification/MarshallingSupport.v ===== *)
(** * activemq::util::MarshallingSupport (activemq/util/MarshallingSupport.cpp):
    length-prefixed strings and the modified UTF-8 conversions. *)
From S2P Require Import Prelude DataOutput DataInput Codec.

(** PrimitiveValueNode::PrimitiveType, the tag bytes of the wire. *)
Definition NULL_TYPE : Z := 0.
Definition BOOLEAN_TYPE : Z := 1.
Definition BYTE_TYPE : Z := 2.
Definition CHAR_TYPE : Z := 3.
Definition SHORT_TYPE : Z := 4.
Definition INTEGER_TYPE : Z := 5.
Definition LONG_TYPE : Z := 6.
Definition DOUBLE_TYPE : Z := 7.
Definition FLOAT_TYPE : Z := 8.
Definition STRING_TYPE : Z := 9.
Definition BYTE_ARRAY_TYPE : Z := 10.
Definition MAP_TYPE : Z := 11.
Definition LIST_TYPE : Z := 12.
Definition BIG_STRING_TYPE : Z := 13.

Definition writeString16 (value : list Z) : M DataOutputStream unit :=
  catch_io
    (let strSize := s32 (zlen value) in
     if SHORT_MAX <? strSize then throw IOException
     else
       writeShort (s16 strSize) ;;;
       if 0 <? strSize then doWriteArrayBounded (Some value) strSize 0 strSize
       else ret tt).

Definition writeString32 (value : list Z) : M DataOutputStream unit :=
  catch_io
    (let strSize := s32 (zlen value) in
     if INT_MAX <? strSize then throw IOException
     else
       writeInt strSize ;;;
       if 0 <? strSize then doWriteArrayBounded (Some value) strSize 0 strSize
       else ret tt).

Definition writeString (value : list Z) : M DataOutputStream unit :=
  catch_io
    (if s32 (zlen value) <=? SHORT_MAX / 4 then
       doWriteByte STRING_TYPE ;;; writeString16 value
     else
       doWriteByte BIG_STRING_TYPE ;;; writeString32 value).

Section readers.
Context {S : Type} `{InputStream S}.

Definition readString16 : M (DataInputStream S) (list Z) :=
  catch_io
    (utfLength <- readShort ;;
     if 0 <? utfLength then readFully_all false utfLength else ret []).

Definition readString32 : M (DataInputStream S) (list Z) :=
  catch_io
    (utfLength <- readInt ;;
     if 0 <? utfLength then readFully_all false utfLength else ret []).
End readers.

(** The count is an [int]: past [Integer::MAX_VALUE] it overflows, which the
    test after the loop cannot see. *)
Definition asciiToModifiedUtf8 (asciiString : list Z) : outcome (list Z) :=
  if 0 <? zlen asciiString then
    if INT_MAX <? zlen (utf_encode asciiString) then UB
    else Ok (utf_encode asciiString)
  else Ok [].

(** The decoding loop is the one of [DataInputStream::readUTF]. *)
Definition modifiedUtf8ToAscii (modifiedUtf8String : list Z) : outcome (list Z) :=
  if zlen modifiedUtf8String =? 0 then Ok []
  else utf_decode modifiedUtf8String.

(** ** What the decoder accepts, in arithmetic *)

(** One character of the subset of modified UTF-8 the client supports: code
    points below 256, a NUL in either form. *)
Inductive latin1_char : list Z -> Z -> Prop :=
  | latin1_one a : 0 <= a < 128 -> latin1_char [a] a
  | latin1_two a b :
      0xC0 <= a <= 0xC3 -> 0x80 <= b <= 0xBF ->
      latin1_char [a; b] ((a - 0xC0) * 64 + (b - 0x80)).

Inductive latin1 : list Z -> list Z -> Prop :=
  | latin1_nil : latin1 [] []
  | latin1_app bs c rest l :
      latin1_char bs c -> latin1 rest l -> latin1 (bs ++ rest) (c :: l).

(** The masks of the two-byte form, decided over all the bytes. *)
Lemma lead_byte a : byte_ok a ->
  (Z.land a 0xE0 =? 0xC0) && (Z.land a 0x1C =? 0) = (0xC0 <=? a) && (a <=? 0xC3).
Proof.
  intros Ha. apply eqb_prop. revert a Ha.
  apply (byte_cases (fun a => eqb _ _)). by vm_compute.
Qed.

Lemma trail_byte b : byte_ok b ->
  (Z.land b 0xC0 =? 0x80) = (0x80 <=? b) && (b <=? 0xBF).
Proof.
  intros Hb. apply eqb_prop. revert b Hb.
  apply (byte_cases (fun b => eqb _ _)). by vm_compute.
Qed.

Lemma two_byte_value a b : 0xC0 <= a <= 0xC3 -> 0x80 <= b <= 0xBF ->
  u8 (Z.lor (Z.shiftl (Z.land a 0x1F) 6) (Z.land b 0x3F)) = (a - 0xC0) * 64 + (b - 0x80).
Proof.
  intros Ha Hb.
  assert (forallb (fun a => forallb (fun b =>
    u8 (Z.lor (Z.shiftl (Z.land a 0x1F) 6) (Z.land b 0x3F)) =?
      (a - 0xC0) * 64 + (b - 0x80)) (seqZ 0x80 64)) (seqZ 0xC0 4) = true) as H
    by by vm_compute.
  rewrite forallb_forall in H. specialize (H a).
  rewrite forallb_forall in H. apply Z.eqb_eq, H;
    apply list_elem_of_In, elem_of_seqZ; lia.
Qed.

Lemma utf_decode_latin1 bs l : bytes_ok bs -> utf_decode bs = Ok l <-> latin1 bs l.
Proof.
  intros Hok. split.
  - revert l Hok. remember (length bs) as n eqn:Hn.
    revert bs Hn. induction (Nat.lt_wf_0 n) as [n _ IH]. intros bs -> l Hok.
    destruct bs as [|a rest]; cbn [utf_decode]; [intros [= <-]; constructor|].
    apply Forall_cons_iff in Hok as [Ha Hok].
    destruct (Z.ltb_spec a 128).
    { destruct (utf_decode rest) as [l'| | |] eqn:E; try done. intros [= <-].
      apply (latin1_app [a]); [constructor; unfold in_u in Ha; lia|].
      eapply IH; [|done|done|done]. simpl. lia. }
    pose proof (lead_byte a Ha) as Hlead.
    destruct (Z.land a 0xE0 =? 0xC0) eqn:E1; [|by case_match].
    destruct rest as [|b rest]; [done|]. apply Forall_cons_iff in Hok as [Hb Hok].
    rewrite (trail_byte b Hb).
    destruct ((0x80 <=? b) && (b <=? 0xBF)) eqn:Eb; [|done].
    destruct (Z.land a 0x1C =? 0) eqn:E2; [|done]. cbn [negb andb] in *.
    symmetry in Hlead. apply andb_prop in Hlead as [?%Z.leb_le ?%Z.leb_le].
    apply andb_prop in Eb as [?%Z.leb_le ?%Z.leb_le].
    destruct (utf_decode rest) as [l'| | |] eqn:E; try done. intros [= <-].
    rewrite two_byte_value by done.
    apply (latin1_app [a; b]); [by constructor|].
    eapply IH; [|done|done|done]. simpl. lia.
  - intros Hl. induction Hl as [|bs c rest l Hc Hl IH]; [done|].
    apply Forall_app in Hok as [Hbs Hok]. specialize (IH Hok).
    destruct Hc as [a Ha|a b Ha Hb]; cbn [app utf_decode].
    + rewrite (proj2 (Z.ltb_lt a 128)) by lia. by rewrite IH.
    + apply Forall_cons_iff in Hbs as [Hoka [Hokb _]%Forall_cons_iff].
      rewrite (proj2 (Z.ltb_ge a 128)) by lia.
      pose proof (lead_byte a Hoka) as Hlead.
      rewrite (proj2 (Z.leb_le 0xC0 a)), (proj2 (Z.leb_le a 0xC3)) in Hlead by lia.
      apply andb_prop in Hlead as [-> ->]. rewrite (trail_byte b Hokb).
      rewrite (proj2 (Z.leb_le 0x80 b)), (proj2 (Z.leb_le b 0xBF)) by lia. simpl.
      by rewrite IH, two_byte_value.
Qed.

(** Anything else is refused with [UTFDataFormatException]. *)
Lemma utf_decode_total bs :
  (exists l, utf_decode bs = Ok l) \/ utf_decode bs = Throw UTFDataFormatException.
Proof.
  remember (length bs) as n eqn:Hn. revert bs Hn.
  induction (Nat.lt_wf_0 n) as [n _ IH]. intros [|a rest] ->; cbn [utf_decode]; [eauto|].
  destruct (a <? 128).
  { destruct (IH (length rest)) with (bs := rest) as [[l ->]| ->]; simpl; eauto. }
  destruct (_ =? 0xC0); [|case_match; eauto]. destruct rest as [|b rest]; [eauto|].
  repeat (destruct (negb _); [eauto|]).
  destruct (IH (length rest)) with (bs := rest) as [[l ->]| ->]; simpl; eauto.
Qed.

(** ** Length-prefixed strings *)

Section strings.
Context {S : Type} `{InputStreamLaws S}.

Lemma codec_string16 value :
  zlen value <= SHORT_MAX ->
  codec (S := S) writeString16 readString16 value (be_bytes 2 (zlen value) ++ value).
Proof.
  intros Hlen. pose proof (zlen_nonneg value).
  destruct (codec_short (S := S) (zlen value)) as [He Hp]; [zlia|].
  split; [apply emits_catch_io|apply parses_catch_io].
  - cbv zeta. rewrite (wraps_id 32) by zlia. rewrite (proj2 (Z.ltb_ge SHORT_MAX _)) by lia.
    rewrite wraps_id by zlia.
    eapply emits_bind; [exact He|]. case_match; [by apply emits_write_all|].
    rewrite (zlen_zero value) by lia. apply emits_ret.
  - eapply parses_bind; [exact Hp|]. case_match; [by apply parses_readFully_all|].
    rewrite (zlen_zero value) by lia. apply parses_ret.
Qed.

Lemma codec_string32 value :
  zlen value <= INT_MAX ->
  codec (S := S) writeString32 readString32 value (be_bytes 4 (zlen value) ++ value).
Proof.
  intros Hlen. pose proof (zlen_nonneg value).
  destruct (codec_int (S := S) (zlen value)) as [He Hp]; [zlia|].
  split; [apply emits_catch_io|apply parses_catch_io].
  - cbv zeta. rewrite (wraps_id 32) by zlia. rewrite (proj2 (Z.ltb_ge INT_MAX _)) by lia.
    eapply emits_bind; [exact He|]. case_match; [by apply emits_write_all|].
    rewrite (zlen_zero value) by lia. apply emits_ret.
  - eapply parses_bind; [exact Hp|]. case_match; [by apply parses_readFully_all|].
    rewrite (zlen_zero value) by lia. apply parses_ret.
Qed.

Lemma writeString16_too_long value o :
  SHORT_MAX < zlen value <= INT_MAX -> writeString16 value o = (Throw IOException, o).
Proof.
  intros Hlen. unfold writeString16. rewrite wraps_id by zlia.
  by zcmp.
Qed.

End strings.

(** ** Reading the decoded string *)

Section read_utf.
Context {S : Type} `{InputStreamLaws S}.

Lemma refuses_readUTF bs :
  zlen bs <= 65535 -> utf_decode bs = Throw UTFDataFormatException ->
  refuses readUTF (be_bytes 2 (zlen bs) ++ bs) UTFDataFormatException.
Proof.
  intros Hlen Hdec. apply refuses_catch_io; [done|]. pose proof (zlen_nonneg bs).
  intros d rest Hd Ha. destruct (Hd) as (s & Hs & _). unfold bind at 1, get. rewrite Hs.
  assert (in_u 16 (zlen bs)) as Hin by (unfold in_u; lia). destruct (codec_unsignedShort (S := S) (zlen bs) Hin) as [_ Hp].
  refine (refuses_bind _ _ _ bs _ _ Hp _ d rest Hd Ha).
  destruct (Z.eqb_spec (zlen bs) 0) as [Hz|Hz]; [by rewrite (zlen_zero bs Hz) in Hdec|].
  intros d1 rest1 Hd1 Ha1.
  refine (refuses_bind _ _ _ [] _ _ (parses_readFully_all (zlen bs) bs eq_refl) _ d1 rest1 Hd1 _); [|by rewrite app_nil_r].
  intros d2 rest2 _ _. exists d2. unfold of_outcome. by rewrite Hdec.
Qed.

Lemma readUTF_short n bs (d : DataInputStream S) :
  zlen bs < n <= 65535 -> ready d -> avail d = be_bytes 2 n ++ bs -> exists d', readUTF d = (Throw EOFException, d').
Proof.
  intros Hn Hd Ha. pose proof (zlen_nonneg bs). destruct (codec_unsignedShort (S := S) n) as [_ Hp]; [unfold in_u; lia|].
  destruct (Hp d bs Hd Ha) as (d1 & E1 & Hd1 & Ha1). destruct (Hd) as (s & Hs & _).
  assert (exists d', readFully_all false n d1 = (Throw EOFException, d')) as [d2 E2] by (apply short_readFully_all; [lia|done|rewrite Ha1; lia]).
  exists d2. unfold readUTF, catch_io, rethrow, bind, get. rewrite Hs, E1. zcmp. by rewrite E2.
Qed.
End read_utf.

(** ** Properties *)

(** C40: On a stream with a length and as many bytes, readUTF returns [l], and has taken just these
    bytes, when they are the one- and two-byte forms of the characters [l], all below 256 (a NUL
    in either form), and throws [UTFDataFormatException] when they are no such forms; so of the
    modified UTF-8 format the rest, the two-byte forms above 0xFF and the three-byte forms, is
    refused. On a stream that ends before the length says it throws [EOFException]. *)
Theorem readUTF_characterised {S} `{InputStreamLaws S} bs :
  bytes_ok bs -> zlen bs <= 65535 ->
  (forall l, latin1 bs l -> parses (S := S) readUTF (be_bytes 2 (zlen bs) ++ bs) l) /\
  ((forall l, ~ latin1 bs l) -> refuses (S := S) readUTF (be_bytes 2 (zlen bs) ++ bs) UTFDataFormatException) /\
  (forall n d, zlen bs < n <= 65535 -> ready d -> avail d = be_bytes 2 n ++ bs -> exists d', readUTF d = (Throw EOFException, d')).
Proof.
  intros Hok Hlen. split_and!.
  - intros l Hl. apply parses_readUTF; [done|]. by apply utf_decode_latin1.
  - intros Hnone. apply refuses_readUTF; [done|]. destruct (utf_decode_total bs) as [[l Hl]|?]; [|done].
    exfalso. by apply (Hnone l), utf_decode_latin1.
  - intros n d Hn Hd Ha. by apply (readUTF_short n bs d).
Qed.

(** An e with an acute accent, a three-byte form, and a stream that ends early. *)
Lemma readUTF_characterised_witness :
  parses (S := list (list Z)) readUTF [0; 3; 0x41; 0xC3; 0xA9] [0x41; 0xE9] /\
  refuses (S := list (list Z)) readUTF [0; 3; 0xE2; 0x82; 0xAC] UTFDataFormatException /\
  exists d', readUTF (mkDIS (Some [[0; 4]; [0x41]; [0xC3; 0xA9]])) = (Throw EOFException, d').
Proof.
  split; [|split].
  - apply (readUTF_characterised (S := list (list Z)) [0x41; 0xC3; 0xA9]); [repeat constructor; by vm_compute|by vm_compute|].
    apply (latin1_app [0x41] 0x41); [constructor; lia|]. apply (latin1_app [0xC3; 0xA9] 0xE9 [] []); [constructor; lia|constructor].
  - apply (readUTF_characterised (S := list (list Z)) [0xE2; 0x82; 0xAC]); [repeat constructor; by vm_compute|by vm_compute|].
    intros l Hl. apply utf_decode_latin1 in Hl; [by vm_compute in Hl|repeat constructor; by vm_compute].
  - apply (readUTF_characterised (S := list (list Z)) [0x41; 0xC3; 0xA9]) with (n := 4); [repeat constructor; by vm_compute|by vm_compute|by vm_compute|by eexists|by vm_compute].
Defined.

(** A length-prefixed string comes back from the reader of its form; the 16-bit
    form refuses, before writing anything, a string its length field cannot hold. *)
Theorem string_forms {S} `{InputStreamLaws S} value :
  zlen value <= INT_MAX ->
  codec (S := S) writeString32 readString32 value (be_bytes 4 (zlen value) ++ value) /\
  if zlen value <=? SHORT_MAX
  then codec (S := S) writeString16 readString16 value (be_bytes 2 (zlen value) ++ value)
  else forall o, writeString16 value o = (Throw IOException, o).
Proof.
  intros Hlen. split; [by apply codec_string32|].
  destruct (Z.leb_spec (zlen value) SHORT_MAX); [by apply codec_string16|].
  intros o. by apply writeString16_too_long.
Qed.

Lemma string_forms_witness :
  codec (S := list (list Z)) writeString32 readString32 [104; 105] [0; 0; 0; 2; 104; 105] /\
  codec (S := list (list Z)) writeString16 readString16 [104; 105] [0; 2; 104; 105].
Proof. apply (string_forms (S := list (list Z)) [104; 105]). by vm_compute. Defined.

(** Converting ASCII-8 text to modified UTF-8 and back loses nothing. *)
Theorem ascii_utf8_roundtrip value :
  bytes_ok value -> zlen (utf_encode value) <= INT_MAX ->
  exists u, asciiToModifiedUtf8 value = Ok u /\ modifiedUtf8ToAscii u = Ok value.
Proof.
  intros Hok Hlen. pose proof (utf_encode_length value). unfold asciiToModifiedUtf8.
  destruct (Z.ltb_spec 0 (zlen value)).
  - zcmp. eexists. split; [done|]. unfold modifiedUtf8ToAscii. zcmp. by apply utf_decode_encode.
  - rewrite (zlen_zero value) by (pose proof (zlen_nonneg value); lia). by exists [].
Qed.

Lemma ascii_utf8_roundtrip_witness :
  exists u, asciiToModifiedUtf8 [0; 65; 255] = Ok u /\ modifiedUtf8ToAscii u = Ok [0; 65; 255].
Proof. apply ascii_utf8_roundtrip; [repeat constructor; by vm_compute|by vm_compute]. Defined.
