(* ===== verification/Robust.v ===== *)
(** * Readers on arbitrary input.

    A peer may send anything.  [safe n m] says that, whatever the bytes, the reader
    [m] leaves the stream usable and either throws, or returns having consumed
    at least [n] bytes: it neither loops nor steps outside defined behaviour.
    [bounded k n m] is the same for streams with fewer than [k] bytes to go, which
    is how a recursive reader's fuel is discharged. *)
From S2P Require Import Prelude DataOutput DataInput MarshallingSupport.

Section safe.
Context {S : Type} `{InputStreamLaws S}.

Definition ends {A} (n : Z) (m : M (DataInputStream S) A) (d : DataInputStream S) : Prop :=
  exists d', ready d' /\
    ((exists a, m d = (Ok a, d') /\ zlen (avail d') + n <= zlen (avail d)) \/
     (exists e, m d = (Throw e, d'))).

Definition safe {A} (n : Z) (m : M (DataInputStream S) A) : Prop :=
  forall d, ready d -> ends n m d.

Definition bounded {A} (k n : Z) (m : M (DataInputStream S) A) : Prop :=
  forall d, ready d -> zlen (avail d) < k -> ends n m d.

Lemma safe_bounded {A} k n (m : M _ A) : safe n m -> bounded k n m.
Proof. intros Hm d Hd _. by apply Hm. Qed.

Lemma bounded_ret {A} k (a : A) : bounded k 0 (ret a).
Proof. intros d Hd _. exists d. split; [done|]. left. exists a. split; [done|lia]. Qed.

Lemma bounded_throw {A} k n e : bounded (A := A) k n (throw e).
Proof. intros d Hd _. exists d. split; [done|]. right. by exists e. Qed.

Lemma bounded_bind {A B} k n1 n2 (m : M _ A) (f : A -> M _ B) :
  0 <= n1 -> bounded k n1 m -> (forall a, bounded (k - n1) n2 (f a)) ->
  bounded k (n1 + n2) (bind m f).
Proof.
  intros Hn Hm Hf d Hd Hk. destruct (Hm d Hd Hk) as (d1 & Hd1 & [(a & E & Ha)|(e & E)]).
  - destruct (Hf a d1 Hd1) as (d2 & Hd2 & Hr); [lia|].
    exists d2. split; [done|]. rewrite (bind_ok _ _ _ _ _ E).
    destruct Hr as [(b & E2 & Hb)|He]; [left|by right]. exists b. split; [done|lia].
  - exists d1. split; [done|]. right. exists e. by apply bind_throw.
Qed.

Lemma bounded_weaken {A} k k' n n' (m : M _ A) :
  bounded k n m -> k' <= k -> n' <= n -> bounded k' n' m.
Proof.
  intros Hm ?? d Hd Hk. destruct (Hm d Hd) as (d' & Hd' & Hr); [lia|].
  exists d'. split; [done|].
  destruct Hr as [(a & E & ?)|?]; [left|by right]. exists a. split; [done|lia].
Qed.

Lemma bounded_catch_io {A} k n (m : M _ A) : bounded k n m -> bounded k n (catch_io m).
Proof.
  intros Hm d Hd Hk. destruct (Hm d Hd Hk) as (d' & Hd' & [(a & E & Ha)|(e & E)]).
  - exists d'. split; [done|]. left. exists a. split; [by apply catch_io_ok|done].
  - exists d'. split; [done|]. right. eexists. by apply catch_io_throw.
Qed.

Lemma bounded_rethrow {A} k n keep to (m : M _ A) :
  bounded k n m -> bounded k n (rethrow keep to m).
Proof.
  intros Hm d Hd Hk. destruct (Hm d Hd Hk) as (d' & Hd' & [(a & E & Ha)|(e & E)]).
  - exists d'. split; [done|]. left. exists a. split; [by apply rethrow_ok|done].
  - exists d'. split; [done|]. right. exists (if keep e then e else to).
    unfold rethrow. by rewrite E.
Qed.

Lemma bounded_if {A} k n (b : bool) (m1 m2 : M _ A) :
  (b = true -> bounded k n m1) -> (b = false -> bounded k n m2) ->
  bounded k n (if b then m1 else m2).
Proof. destruct b; auto. Qed.

(** The connection is there: the readers' test for a NULL stream passes. *)
Lemma bounded_base {A} k n (m z : M _ A) :
  bounded k n m ->
  bounded k n (d <- get ;; match inputStream d with None => z | Some _ => m end).
Proof.
  intros Hm d Hd Hk. destruct (Hm d Hd Hk) as (d' & ?). exists d'.
  destruct Hd as (s & Hs & _). unfold bind, get. by rewrite Hs.
Qed.

(** The rule for [bind] as the tactic below uses it. *)
Lemma bounded_step {A B} k n n1 (m : M _ A) (f : A -> M _ B) :
  bounded k n1 m -> 0 <= n1 -> (forall a, bounded (k - n1) (n - n1) (f a)) ->
  bounded k n (bind m f).
Proof.
  intros Hm Hn Hf. replace n with (n1 + (n - n1)) by lia. by apply bounded_bind.
Qed.

Lemma bounded_done {A} k n (a : A) : n <= 0 -> bounded k n (ret a).
Proof. intros. eapply bounded_weaken; [apply bounded_ret|reflexivity|done]. Qed.

Lemma bounded_repeat {A} k n (m : M _ A) : bounded k 0 m -> bounded k 0 (repeat_m n m).
Proof.
  intros Hm. induction n as [|n IH]; [apply bounded_ret|]. cbn [repeat_m].
  eapply bounded_step; [exact Hm|lia|]. intros a. rewrite Z.sub_0_r.
  eapply bounded_step; [exact IH|lia|]. intros l. by apply bounded_done.
Qed.

Lemma bounded_readAllData k n : 0 <= n -> bounded k n (readAllData n).
Proof.
  intros Hn d Hd _. destruct (decide (n <= zlen (avail d))) as [Hle|Hgt].
  - destruct (parses_readAllData n (take (Z.to_nat n) (avail d))) with (d := d)
      (rest := drop (Z.to_nat n) (avail d)) as (d' & E & Hd' & Ha').
    { unfold zlen in *. rewrite length_take. lia. }
    { done. } { by rewrite take_drop. }
    exists d'. split; [done|]. left. eexists. split; [done|].
    rewrite Ha'. unfold zlen in *. rewrite length_drop. lia.
  - destruct (starves_readAllData n d) as (d' & E & Hd' & _); [done|lia|].
    exists d'. split; [done|]. right. by eexists.
Qed.

Lemma bounded_readFully_all k n : 0 <= n -> bounded k n (readFully_all false n).
Proof.
  intros Hn d Hd _. destruct (decide (n <= zlen (avail d))) as [Hle|Hgt].
  - destruct (parses_readFully_all n (take (Z.to_nat n) (avail d))) with (d := d)
      (rest := drop (Z.to_nat n) (avail d)) as (d' & E & Hd' & Ha').
    { unfold zlen in *. rewrite length_take. lia. }
    { done. } { by rewrite take_drop. }
    exists d'. split; [done|]. left. eexists. split; [done|].
    rewrite Ha'. unfold zlen in *. rewrite length_drop. lia.
  - pose proof (zlen_nonneg (avail d)).
    destruct (read_loop_eof (Z.to_nat n) 0 n d) as (d' & E & Hd' & _); [done|lia|lia|lia|].
    exists d'. split; [done|]. right. destruct Hd as (s & Hs & _).
    exists EOFException. unfold readFully_all, readFully. zcmp.
    unfold rethrow, bind, get. rewrite Hs. by rewrite E.
Qed.

(** A negative size is refused. *)
Lemma bounded_readFully_any k n : bounded k 0 (readFully_all false n).
Proof.
  destruct (decide (0 <= n)) as [|Hn].
  { apply (bounded_weaken k k n 0); [by apply bounded_readFully_all|lia..]. }
  apply bounded_rethrow. zcmp. apply bounded_rethrow. zcmp. apply bounded_base.
  apply bounded_throw.
Qed.

Lemma bounded_fixed {A} k n (f : list Z -> A) :
  0 <= n -> bounded k n (catch_io (b <- readAllData n ;; ret (f b))).
Proof.
  intros. apply bounded_catch_io. rewrite <- (Z.add_0_r n) at 1.
  apply bounded_bind; [done|by apply bounded_readAllData|]. intros b. apply bounded_ret.
Qed.

Lemma bounded_readBoolean k : bounded k 1 readBoolean.
Proof. by apply (bounded_fixed k 1 (fun b => negb (at_ b 0 =? 0))). Qed.
Lemma bounded_readByte k : bounded k 1 readByte.
Proof. by apply (bounded_fixed k 1 (fun b => s8 (at_ b 0))). Qed.
Lemma bounded_readChar k : bounded k 1 readChar.
Proof. by apply (bounded_fixed k 1 (fun b => s8 (at_ b 0))). Qed.
Lemma bounded_readShort k : bounded k 2 readShort.
Proof. by eapply (bounded_fixed k 2 (fun b => s16 _)). Qed.
Lemma bounded_readUnsignedShort k : bounded k 2 readUnsignedShort.
Proof. by eapply (bounded_fixed k 2 (fun b => u16 _)). Qed.
Lemma bounded_readInt k : bounded k 4 readInt.
Proof. by eapply (bounded_fixed k 4 (fun b => s32 _)). Qed.
Lemma bounded_readLong k : bounded k 8 readLong.
Proof. by eapply (bounded_fixed k 8 (fun b => s64 _)). Qed.
End safe.

#[export] Hint Resolve bounded_readBoolean bounded_readByte bounded_readChar bounded_readShort
  bounded_readUnsignedShort bounded_readInt bounded_readLong bounded_readAllData
  bounded_readFully_any : amq.

(** Walk over a reader's body. *)
Ltac bound :=
  repeat match goal with
  | |- bounded _ _ (catch_io _) => apply bounded_catch_io
  | |- bounded _ _ (throw _) => apply bounded_throw
  | |- bounded _ _ (ret _) => apply bounded_done; lia
  | |- bounded _ _ (if _ then _ else _) => apply bounded_if; intros ?
  | |- bounded _ _ (bind _ _) =>
      first [ eapply bounded_step; [solve [eauto with amq zarith]|lia|intros ?]
            | apply (bounded_step _ _ 0); [|lia|intros ?] ]
  | |- bounded ?k _ _ =>
      solve [eauto with amq | eapply (bounded_weaken k k); [eauto with amq|lia|lia]]
  end.

Section safe_strings.
Context {S : Type} `{InputStreamLaws S}.

Lemma bounded_of_outcome {A} k (r : outcome A) :
  (exists a, r = Ok a) \/ (exists e, r = Throw e) ->
  bounded (S := S) k 0 (of_outcome r).
Proof.
  intros Hr d Hd _. exists d. split; [done|].
  destruct Hr as [[a ->]|[e ->]]; [left|right].
  - exists a. split; [done|lia].
  - by exists e.
Qed.

Lemma bounded_readUTF k : bounded (S := S) k 2 readUTF.
Proof.
  apply bounded_catch_io, bounded_base. bound.
  eapply bounded_weaken; [apply (bounded_of_outcome k)|lia|lia].
  destruct (utf_decode_total a0) as [?|?]; [by left|by right; eexists].
Qed.

Lemma bounded_readString16 k : bounded (S := S) k 2 readString16.
Proof. unfold readString16. bound. Qed.

Lemma bounded_readString32 k : bounded (S := S) k 4 readString32.
Proof. unfold readString32. bound. Qed.

Lemma bounded_readFloat k : bounded (S := S) k 4 readFloat.
Proof. unfold readFloat. bound. Qed.

Lemma bounded_readDouble k : bounded (S := S) k 8 readDouble.
Proof. unfold readDouble. bound. Qed.
End safe_strings.

#[export] Hint Resolve bounded_readUTF bounded_readString16 bounded_readString32
  bounded_readFloat bounded_readDouble : amq.
