(* ===== verification/BooleanStream.v ===== *)
(** * activemq::wireformat::openwire::utils::BooleanStream
    (wireformat/openwire/utils/BooleanStream.cpp): the bit vector that goes ahead
    of a tightly encoded command.

    [holds bs w] is the writing side's abstraction (the booleans [w] have been
    written), [yields bs r] the reading side's (the next booleans read are [r]).
    [arrayLimit] and [arrayPos] are [short]s: the theorems hold up to the
    [MAX_BITS] booleans a [short] can count. *)
From S2P Require Import Prelude DataOutput DataInput Codec.

Record BooleanStream : Type := mkBS {
  data : list Z;
  arrayLimit : Z;
  arrayPos : Z;
  bytePos : Z;
}.

(** The constructor reserves (and zero-fills) 1000 bytes. *)
Definition BooleanStream_new : BooleanStream :=
  {| data := replicate 1000 0; arrayLimit := 0; arrayPos := 0; bytePos := 0 |}.

(** [data[i]]: outside the vector's bounds it is undefined. *)
Definition data_at (i : Z) (d : list Z) : option Z :=
  if i <? 0 then None else d !! Z.to_nat i.

(** [bytePos++; if (bytePos >= 8) { bytePos = 0; arrayPos++; }] *)
Definition bs_advance (b : BooleanStream) : BooleanStream :=
  let bp := u8 (bytePos b + 1) in
  if 8 <=? bp
  then {| data := data b; arrayLimit := arrayLimit b;
          arrayPos := s16 (arrayPos b + 1); bytePos := 0 |}
  else {| data := data b; arrayLimit := arrayLimit b;
          arrayPos := arrayPos b; bytePos := bp |}.

Definition bs_readBoolean : M BooleanStream bool :=
  catch_io
    (b <- get ;;
     match data_at (arrayPos b) (data b) with
     | None => undefined
     | Some c =>
         let rc := negb (Z.land (Z.shiftr c (bytePos b)) 0x01 =? 0) in
         put (bs_advance b) ;;; ret rc
     end).

(** [arrayLimit++] and the re-growth of the vector. *)
Definition bs_grow (b : BooleanStream) : BooleanStream :=
  if bytePos b =? 0 then
    let limit := s16 (arrayLimit b + 1) in
    {| data := if zlen (data b) <=? u64 limit
               then data b ++ replicate (length (data b)) 0 else data b;
       arrayLimit := limit; arrayPos := arrayPos b; bytePos := bytePos b |}
  else b.

Definition bs_writeBoolean (value : bool) : M BooleanStream unit :=
  catch_io
    (modify bs_grow ;;;
     b <- get ;;
     (if value then
        match data_at (arrayPos b) (data b) with
        | None => undefined
        | Some c =>
            put {| data := <[Z.to_nat (arrayPos b) :=
                             u8 (Z.lor c (u8 (Z.shiftl 0x01 (bytePos b))))]> (data b);
                   arrayLimit := arrayLimit b; arrayPos := arrayPos b;
                   bytePos := bytePos b |}
        end
      else ret tt) ;;;
     modify bs_advance).

Definition bs_clear : M BooleanStream unit :=
  modify (fun b => {| data := data b; arrayLimit := arrayLimit b;
                      arrayPos := 0; bytePos := 0 |}).

(** The size of the payload, in one to three bytes. *)
Definition marshal_limit (limit : Z) : M DataOutputStream unit :=
  if limit <? 64 then writeByte (u8 limit)
  else if limit <? 256 then writeByte 0xC0 ;;; writeByte (u8 limit)
  else writeByte 0x80 ;;; writeShort limit.

(** [marshal(DataOutputStream* )] works on both objects. *)
Definition bs_marshal : M (DataOutputStream * BooleanStream) unit :=
  catch_io
    (b <- on_snd get ;;
     on_fst
       (marshal_limit (arrayLimit b) ;;;
        doWriteArrayBounded (Some (data b)) (s32 (zlen (data b))) 0 (arrayLimit b)) ;;;
     on_snd bs_clear).

(** [marshal(std::vector& )] appends to a vector; [&data[0] .. &data[arrayLimit - 1]]
    is a half-open range, undefined when it is not one inside the vector. *)
Definition bs_marshal_vector (b : BooleanStream) (dataOut : list Z) : outcome (list Z) :=
  let size :=
    if arrayLimit b <? 64 then [u8 (arrayLimit b)]
    else if arrayLimit b <? 256 then [0xC0; u8 (arrayLimit b)]
    else [0x80; u8 (Z.shiftr (arrayLimit b) 8); u8 (Z.land (arrayLimit b) 0xFF)] in
  if (arrayLimit b <? 1) || (zlen (data b) <? arrayLimit b) then UB
  else Ok (dataOut ++ size ++ take (Z.to_nat (arrayLimit b - 1)) (data b)).

Section unmarshal.
Context {S : Type} `{InputStream S}.

Definition set_limit (l : Z) : M (DataInputStream S * BooleanStream) unit :=
  on_snd (modify (fun b =>
    {| data := data b; arrayLimit := l; arrayPos := arrayPos b; bytePos := bytePos b |})).

Definition set_data (f : BooleanStream -> list Z) : M (DataInputStream S * BooleanStream) unit :=
  on_snd (modify (fun b =>
    {| data := f b; arrayLimit := arrayLimit b;
       arrayPos := arrayPos b; bytePos := bytePos b |})).

(** [data.resize(arrayLimit)] throws [std::length_error] for a negative limit,
    which the handlers turn into an [IOException]; the payload then overwrites
    every byte of the resized vector. *)
Definition unmarshal_payload : M (DataInputStream S * BooleanStream) unit :=
  b <- on_snd get ;;
  if arrayLimit b <? 0 then throw UnknownException
  else
    set_data (fun b => resize (Z.to_nat (arrayLimit b)) 0 (data b)) ;;;
    payload <- on_fst (readFully false (arrayLimit b) 0 (arrayLimit b)) ;;
    set_data (fun _ => payload) ;;;
    on_snd bs_clear.

Definition bs_unmarshal : M (DataInputStream S * BooleanStream) unit :=
  catch_io
    (n <- on_fst readByte ;;
     let limit := s16 (Z.land n 0xFF) in
     set_limit limit ;;;
     (if limit =? 0xC0 then
        m <- on_fst readByte ;; set_limit (s16 (Z.land m 0xFF))
      else if limit =? 0x80 then
        m <- on_fst readShort ;; set_limit m
      else ret tt) ;;;
     unmarshal_payload).

End unmarshal.

Definition bs_marshalledSize (b : BooleanStream) : Z :=
  if arrayLimit b <? 64 then 1 + arrayLimit b
  else if arrayLimit b <? 256 then 2 + arrayLimit b
  else 3 + arrayLimit b.

(** ** The abstraction: a list of booleans *)

Definition bits_of_byte (c : Z) : list bool := Z.testbit c <$> seqZ 0 8.
Definition bits (d : list Z) : list bool := d ≫= bits_of_byte.

(** The booleans a [short] number of bytes holds. *)
Definition MAX_BITS : Z := 8 * SHORT_MAX.

Record holds (b : BooleanStream) (w : list bool) : Prop := {
  holds_bound : zlen w <= MAX_BITS;
  holds_pos : arrayPos b = zlen w / 8;
  holds_bit : bytePos b = zlen w mod 8;
  holds_limit : arrayLimit b = (zlen w + 7) / 8;
  holds_size : arrayLimit b < zlen (data b) <= 2 * SHORT_MAX;
  holds_ok : bytes_ok (data b);
  holds_bits : exists k, bits (data b) = w ++ replicate k false;
}.

Record yields (b : BooleanStream) (r : list bool) : Prop := {
  yields_pos : 0 <= arrayPos b;
  yields_bit : 0 <= bytePos b < 8;
  yields_bound : 8 * arrayPos b + bytePos b + zlen r <= MAX_BITS;
  yields_bits : exists tail,
    drop (Z.to_nat (8 * arrayPos b + bytePos b)) (bits (data b)) = r ++ tail;
}.

Lemma bits_of_byte_length c : length (bits_of_byte c) = 8%nat.
Proof. unfold bits_of_byte. by rewrite length_fmap, length_seqZ. Qed.

Lemma bits_cons c d : bits (c :: d) = bits_of_byte c ++ bits d.
Proof. done. Qed.

Lemma bits_app d e : bits (d ++ e) = bits d ++ bits e.
Proof. apply bind_app. Qed.

Lemma bits_length d : length (bits d) = (8 * length d)%nat.
Proof.
  induction d as [|c d IH]; [done|].
  rewrite bits_cons, length_app, bits_of_byte_length, IH. simpl. lia.
Qed.

Lemma bits_zeros n : bits (replicate n 0) = replicate (8 * n) false.
Proof.
  induction n as [|n IH]; [done|]. cbn [replicate]. rewrite bits_cons, IH.
  replace (8 * S n)%nat with (8 + 8 * n)%nat by lia. by rewrite replicate_add.
Qed.

Lemma bits_take n d : bits (take n d) = take (8 * n) (bits d).
Proof.
  revert n. induction d as [|c d IH]; intros [|n]; [done..|].
  cbn [take]. rewrite !bits_cons, IH, take_app, bits_of_byte_length.
  rewrite (take_ge (bits_of_byte c)) by (rewrite bits_of_byte_length; lia).
  do 2 f_equal. lia.
Qed.

Lemma bits_lookup d i j c :
  d !! i = Some c -> (j < 8)%nat ->
  bits d !! (8 * i + j)%nat = Some (Z.testbit c (Z.of_nat j)).
Proof.
  revert i. induction d as [|c' d IH]; intros i Hi Hj; [done|].
  rewrite bits_cons. destruct i as [|i]; simpl in Hi.
  - injection Hi as ->. rewrite lookup_app_l by (rewrite bits_of_byte_length; lia).
    unfold bits_of_byte. rewrite list_lookup_fmap, lookup_seqZ_lt by lia.
    done.
  - rewrite lookup_app_r by (rewrite bits_of_byte_length; lia).
    rewrite bits_of_byte_length.
    replace (8 * S i + j - 8)%nat with (8 * i + j)%nat by lia. by apply IH.
Qed.

(** [(c >> i) & 1] is bit [i]. *)
Lemma bit_test c i : 0 <= i -> negb (Z.land (Z.shiftr c i) 0x01 =? 0) = Z.testbit c i.
Proof.
  intros. rewrite Z.testbit_odd. change 0x01 with (Z.ones 1).
  rewrite Z.land_ones by lia. change (2 ^ 1) with 2. rewrite Zmod_odd.
  by destruct (Z.odd _).
Qed.

(** [c | (1 << i)] sets bit [i] and no other. *)
Lemma bit_set c i j :
  byte_ok c -> 0 <= i < 8 -> 0 <= j < 8 ->
  Z.testbit (u8 (Z.lor c (u8 (Z.shiftl 0x01 i)))) j = (j =? i) || Z.testbit c j.
Proof.
  intros Hc Hi Hj. unfold wrapu. rewrite Z.mod_pow2_bits_low by lia.
  rewrite Z.lor_spec, Z.mod_pow2_bits_low by lia.
  rewrite Z.shiftl_1_l, Z.pow2_bits_eqb by lia. rewrite (Z.eqb_sym i j). apply orb_comm.
Qed.

Lemma bits_insert d i c k :
  d !! i = Some c -> byte_ok c -> (k < 8)%nat ->
  bits (<[i := u8 (Z.lor c (u8 (Z.shiftl 0x01 (Z.of_nat k))))]> d)
  = <[(8 * i + k)%nat := true]> (bits d).
Proof.
  intros Hi Hc Hk. apply list_eq. intros n.
  destruct (decide (n < 8 * length d)%nat) as [Hn|Hn]; cycle 1.
  { rewrite !lookup_ge_None_2; [done|..];
      rewrite ?length_insert, ?bits_length, ?length_insert; lia. }
  assert (n = 8 * (n / 8) + n mod 8)%nat as -> by (apply Nat.div_mod_eq).
  assert (n mod 8 < 8)%nat by (apply Nat.mod_upper_bound; lia).
  assert (n / 8 < length d)%nat by (apply Nat.Div0.div_lt_upper_bound; lia).
  set (q := (n / 8)%nat) in *. set (r := (n mod 8)%nat) in *.
  destruct (lookup_lt_is_Some_2 d q) as [e He]; [lia|].
  destruct (decide (q = i)) as [->|Hne].
  - rewrite He in Hi. injection Hi as ->.
    erewrite (bits_lookup _ i r) by (try apply list_lookup_insert_eq; lia).
    rewrite bit_set by (done || lia).
    destruct (decide (r = k)) as [->|].
    + rewrite Z.eqb_refl, list_lookup_insert_eq; [done|]. rewrite bits_length. lia.
    + rewrite (proj2 (Z.eqb_neq _ _)) by lia.
      rewrite list_lookup_insert_ne by lia. symmetry. by apply bits_lookup.
  - rewrite (bits_lookup _ q r e) by (try rewrite list_lookup_insert_ne; done).
    rewrite list_lookup_insert_ne by lia. symmetry. by apply bits_lookup.
Qed.

(** ** The operations against the abstraction *)

Lemma holds_new : holds BooleanStream_new [].
Proof.
  split; unfold BooleanStream_new; cbn [data arrayLimit arrayPos bytePos];
    [by vm_compute|done|done|done|by vm_compute|by apply Forall_replicate|].
  exists (8 * 1000)%nat. apply bits_zeros.
Qed.

Lemma data_at_lookup i d : 0 <= i < zlen d -> exists c, data_at i d = Some c /\ d !! Z.to_nat i = Some c.
Proof.
  intros [? Hi]. unfold data_at. zcmp.
  destruct (lookup_lt_is_Some_2 d (Z.to_nat i)) as [c ->]; [unfold zlen in Hi; lia|eauto].
Qed.

(** Moving on by one bit, in terms of the bit position. *)
Lemma advance_pos b p :
  0 <= p < MAX_BITS -> arrayPos b = p / 8 -> bytePos b = p mod 8 ->
  arrayPos (bs_advance b) = (p + 1) / 8 /\ bytePos (bs_advance b) = (p + 1) mod 8 /\
  data (bs_advance b) = data b /\ arrayLimit (bs_advance b) = arrayLimit b.
Proof.
  unfold MAX_BITS, SHORT_MAX. intros Hp Ha Hb. unfold bs_advance.
  rewrite Ha, Hb, (wrapu_id 8) by (unfold in_u; lia).
  destruct (Z.leb_spec 8 (p mod 8 + 1)); simpl.
  - rewrite wraps_id by (unfold in_s; lia). split_and!; done || lia.
  - split_and!; done || lia.
Qed.

Lemma holds_grow b w :
  holds b w -> zlen w < MAX_BITS ->
  let g := bs_grow b in
  arrayPos g = zlen w / 8 /\ bytePos g = zlen w mod 8 /\
  arrayLimit g = (zlen w + 1 + 7) / 8 /\ arrayLimit g < zlen (data g) <= 2 * SHORT_MAX /\
  bytes_ok (data g) /\ exists k, bits (data g) = w ++ replicate k false.
Proof.
  unfold MAX_BITS, SHORT_MAX. intros [_ Hp Hb Hl Hs Hok [k Hk]] Hlt. unfold bs_grow.
  rewrite Hb, Hl, Hp. pose proof (zlen_nonneg w).
  destruct (Z.eqb_spec (zlen w mod 8) 0); cbn [data arrayLimit arrayPos bytePos].
  - rewrite (wraps_id 16) by (unfold in_s; lia). rewrite (wrapu_id 64) by (unfold in_u; lia).
    repeat split; try lia.
    + destruct (Z.leb_spec (zlen (data b)) ((zlen w + 7) / 8 + 1)); zlia.
    + case_match; zlia.
    + case_match; [|done]. apply Forall_app_2; [done|]. by apply Forall_replicate.
    + case_match; [|by exists k].
      exists (k + 8 * length (data b))%nat.
      by rewrite bits_app, Hk, bits_zeros, replicate_add, app_assoc.
  - unfold SHORT_MAX in *. rewrite Hp, Hb, Hl. repeat split; try done; try lia. by exists k.
Qed.

Lemma holds_write v b w :
  holds b w -> zlen w < MAX_BITS ->
  exists b', bs_writeBoolean v b = (Ok tt, b') /\ holds b' (w ++ [v]).
Proof.
  intros Hh Hlt.
  destruct (holds_grow b w Hh Hlt) as (Hp & Hb & Hl & Hs & Hok & k & Hk).
  pose proof (zlen_nonneg w). unfold MAX_BITS, SHORT_MAX in *.
  set (g := bs_grow b) in *.
  assert (exists k', k = S k') as [k' ->].
  { destruct k; [|eauto]. exfalso.
    assert (length (bits (data g)) = length w) as Hlen.
    { by rewrite Hk, app_nil_r. }
    rewrite bits_length in Hlen. unfold zlen in *. lia. }
  set (d := if v then <[length w := true]> (bits (data g)) else bits (data g)).
  assert (d = (w ++ [v]) ++ replicate k' false) as Hd.
  { unfold d. rewrite Hk, <- app_assoc. destruct v; [|done].
    by rewrite insert_app_r_alt, Nat.sub_diag by done. }
  assert (exists b1, (if v then
        match data_at (arrayPos g) (data g) with
        | None => undefined
        | Some c =>
            put {| data := <[Z.to_nat (arrayPos g) :=
                             u8 (Z.lor c (u8 (Z.shiftl 0x01 (bytePos g))))]> (data g);
                   arrayLimit := arrayLimit g; arrayPos := arrayPos g;
                   bytePos := bytePos g |}
        end
      else ret tt) g = (Ok tt, b1) /\ bits (data b1) = d /\ bytes_ok (data b1) /\
      length (data b1) = length (data g) /\
      arrayPos b1 = arrayPos g /\ bytePos b1 = bytePos g /\ arrayLimit b1 = arrayLimit g)
    as (b1 & E & Hbits & Hok1 & Hlen1 & Hp1 & Hb1 & Hl1).
  { destruct v; [|by exists g].
    destruct (data_at_lookup (arrayPos g) (data g)) as (c & -> & Hc); [lia|].
    eexists. split; [done|]. cbn [data arrayLimit arrayPos bytePos].
    repeat split; [| |by rewrite length_insert].
    - rewrite Hb. rewrite <- (Z2Nat.id (zlen w mod 8)) by lia.
      rewrite bits_insert; [|done|by eapply Forall_lookup_1|lia].
      unfold d. f_equal. rewrite Hp. unfold zlen in *. lia.
    - apply Forall_insert; [done|apply byte_ok_u8]. }
  destruct (advance_pos b1 (zlen w)) as (Hp2 & Hb2 & Hd2 & Hl2);
    [unfold MAX_BITS, SHORT_MAX; lia|congruence|congruence|].
  exists (bs_advance b1). split.
  { unfold bs_writeBoolean, catch_io, rethrow, bind, modify, get. fold g. by rewrite E. }
  split; rewrite ?zlen_app, ?zlen_cons, ?zlen_nil, ?Z.add_0_r, ?Hd2, ?Hl2; try done.
  - unfold MAX_BITS, SHORT_MAX. lia.
  - congruence.
  - rewrite Hl1. unfold zlen in *. rewrite Hlen1. unfold SHORT_MAX. lia.
  - exists k'. by rewrite Hbits.
Qed.

Lemma on_fst_emits {T A} (m : M DataOutputStream A) bs a o (t : T) :
  emits m bs a -> usable o -> on_fst m (o, t) = (Ok a, (emit bs o, t)).
Proof. intros Hm Ho. by apply on_fst_ok, Hm. Qed.

(** Reading a bit that is there. *)
Lemma yields_read b v r :
  yields b (v :: r) -> exists b', bs_readBoolean b = (Ok v, b') /\ yields b' r.
Proof.
  intros [Hp Hb Hbd [tail Ht]]. rewrite zlen_cons in Hbd. pose proof (zlen_nonneg r).
  set (p := 8 * arrayPos b + bytePos b) in *.
  assert (bits (data b) !! Z.to_nat p = Some v) as Hv.
  { rewrite <- (Nat.add_0_r (Z.to_nat p)), <- lookup_drop, Ht. done. }
  assert (Z.to_nat p < 8 * length (data b))%nat as Hlt.
  { rewrite <- bits_length. apply lookup_lt_is_Some_1. eauto. }
  destruct (data_at_lookup (arrayPos b) (data b)) as (c & Hc & Hc'); [unfold zlen; lia|].
  assert (Z.testbit c (bytePos b) = v) as Hbit.
  { pose proof (bits_lookup _ _ (Z.to_nat (bytePos b)) _ Hc' ltac:(lia)) as H1.
    rewrite Z2Nat.id in H1 by lia.
    replace (8 * Z.to_nat (arrayPos b) + Z.to_nat (bytePos b))%nat with (Z.to_nat p) in H1 by lia.
    congruence. }
  destruct (advance_pos b p) as (Hp2 & Hb2 & Hd2 & _); [lia|lia|lia|].
  exists (bs_advance b). split.
  { unfold bs_readBoolean, catch_io, rethrow, bind, get, put, ret.
    rewrite Hc. by rewrite bit_test, Hbit by lia. }
  split; rewrite ?Hp2, ?Hb2, ?Hd2; [lia|lia|lia|].
  exists tail. replace (Z.to_nat (8 * ((p + 1) / 8) + (p + 1) mod 8)) with
    (Z.to_nat p + 1)%nat by lia. by rewrite <- drop_drop, Ht.
Qed.

(** [clear] turns what was written into what will be read. *)
Definition cleared (b : BooleanStream) : BooleanStream :=
  {| data := data b; arrayLimit := arrayLimit b; arrayPos := 0; bytePos := 0 |}.

Lemma yields_cleared b w : holds b w -> yields (cleared b) w.
Proof. intros [Hbd ? ? ? ? ? [k Hk]]. split; simpl; [lia|lia|lia|]. eauto. Qed.

(** ** The marshalled form *)

(** The size prefix: one, two or three bytes. *)
Definition header (n : Z) : list Z :=
  if n <? 64 then [n] else if n <? 256 then [0xC0; n] else 0x80 :: be_bytes 2 n.

Definition wire_form (b : BooleanStream) : list Z :=
  header (arrayLimit b) ++ take (Z.to_nat (arrayLimit b)) (data b).

Lemma emits_marshal_limit n :
  0 <= n <= SHORT_MAX -> emits (marshal_limit n) (header n) tt.
Proof.
  unfold SHORT_MAX. intros Hn. unfold marshal_limit, header. repeat case_match.
  - eapply emits_eq; [apply emits_writeByte|]. by rewrite !wrapu_id by (rewrite ?wrapu_id; unfold in_u; lia).
  - eapply emits_eq; [eapply emits_bind; apply emits_writeByte|].
    by rewrite !wrapu_id by (rewrite ?wrapu_id; unfold in_u; lia).
  - eapply emits_eq; [eapply emits_bind; [apply emits_writeByte|apply emits_writeShort]|done].
Qed.

Lemma holds_limit_range b w : holds b w -> 0 <= arrayLimit b <= SHORT_MAX.
Proof.
  intros [Hbd _ _ Hl _ _ _]. pose proof (zlen_nonneg w).
  unfold MAX_BITS, SHORT_MAX in *. lia.
Qed.

Lemma marshal_spec b w o :
  holds b w -> usable o ->
  bs_marshal (o, b) = (Ok tt, (emit (wire_form b) o, cleared b)).
Proof.
  intros Hh Ho. pose proof (holds_limit_range b w Hh) as Hn.
  destruct Hh as [_ _ _ _ Hs _ _]. unfold SHORT_MAX in *.
  assert (emits (marshal_limit (arrayLimit b) ;;;
        doWriteArrayBounded (Some (data b)) (s32 (zlen (data b))) 0 (arrayLimit b))
      (wire_form b) tt) as He.
  { eapply emits_bind; [by apply emits_marshal_limit|].
    eapply emits_eq; [apply emits_doWriteArrayBounded|by rewrite drop_0];
      rewrite ?wraps_id; unfold in_s; lia. }
  apply catch_io_ok. rewrite (bind_ok _ _ _ b (o, b)) by done.
  by rewrite (bind_ok _ _ _ _ _ (on_fst_ok _ _ _ _ _ (He o Ho))).
Qed.

Lemma wire_form_length b w :
  holds b w -> zlen (wire_form b) = bs_marshalledSize b.
Proof.
  intros Hh. pose proof (holds_limit_range b w Hh) as Hn. destruct Hh as [_ _ _ _ Hs _ _].
  unfold wire_form, bs_marshalledSize. rewrite zlen_app.
  assert (zlen (take (Z.to_nat (arrayLimit b)) (data b)) = arrayLimit b) as ->.
  { unfold zlen in *. rewrite length_take. lia. }
  unfold header. repeat case_match; zlia.
Qed.

Lemma wire_form_bits b w :
  holds b w -> exists k, bits (take (Z.to_nat (arrayLimit b)) (data b)) = w ++ replicate k false.
Proof.
  intros [_ _ _ Hl _ _ [k Hk]]. pose proof (zlen_nonneg w).
  rewrite bits_take, Hk, take_app, take_replicate, take_ge by (unfold zlen in *; lia).
  eauto.
Qed.

Section unmarshal_spec.
Context {S : Type} `{InputStreamLaws S}.

Lemma land_s8_byte n : 0 <= n < 256 -> Z.land (s8 n) 0xFF = n.
Proof.
  intros. change 0xFF with (Z.ones 8). rewrite Z.land_ones by lia.
  change (s8 n mod 2 ^ 8) with (u8 (s8 n)). rewrite wrapu_wraps by lia.
  by apply wrapu_id.
Qed.

Lemma unmarshal_payload_spec (d : DataInputStream S) b payload rest :
  ready d -> avail d = payload ++ rest -> arrayLimit b = zlen payload ->
  exists d', unmarshal_payload (d, b) =
      (Ok tt, (d', {| data := payload; arrayLimit := zlen payload;
                      arrayPos := 0; bytePos := 0 |})) /\
    ready d' /\ avail d' = rest.
Proof.
  intros Hd Ha Hb.
  destruct (parses_readFully (zlen payload) payload eq_refl d rest Hd Ha) as (d' & E & ? & ?).
  exists d'. split; [|done]. unfold unmarshal_payload.
  rewrite (bind_ok _ _ _ b (d, b)) by done. rewrite Hb. zcmp.
  rewrite (bind_ok (set_data _) _ (d, b) tt _ eq_refl).
  rewrite (bind_ok _ _ _ _ _ (on_fst_ok _ _ _ _ _ E)).
  unfold bind, set_data, on_snd. simpl. by rewrite Hb.
Qed.

Lemma unmarshal_spec (d : DataInputStream S) b n payload rest :
  ready d -> 0 <= n <= SHORT_MAX -> zlen payload = n ->
  avail d = header n ++ payload ++ rest ->
  exists d', bs_unmarshal (d, b) =
      (Ok tt, (d', {| data := payload; arrayLimit := n; arrayPos := 0; bytePos := 0 |})) /\
    ready d' /\ avail d' = rest.
Proof.
  unfold SHORT_MAX. intros Hd Hn Hlen Ha. subst n. unfold header in Ha.
  set (b' := {| data := data b; arrayLimit := zlen payload;
                arrayPos := arrayPos b; bytePos := bytePos b |}).
  destruct (Z.ltb_spec (zlen payload) 64); [|destruct (Z.ltb_spec (zlen payload) 256)];
    simpl in Ha.
  - destruct (parses_readByte (zlen payload) d (payload ++ rest) Hd Ha) as (d1 & E1 & Hd1 & Ha1).
    destruct (unmarshal_payload_spec d1 b' payload rest) as (d' & E & ?); [done..|].
    exists d'. split; [|done]. apply catch_io_ok.
    rewrite (bind_ok _ _ _ _ _ (on_fst_ok _ _ _ _ _ E1)).
    rewrite land_s8_byte, wraps_id by (unfold in_s; lia). zcmp. exact E.
  - destruct (parses_readByte 0xC0 d (zlen payload :: payload ++ rest) Hd Ha)
      as (d1 & E1 & Hd1 & Ha1).
    destruct (parses_readByte (zlen payload) d1 (payload ++ rest) Hd1 Ha1)
      as (d2 & E2 & Hd2 & Ha2).
    destruct (unmarshal_payload_spec d2 b' payload rest) as (d' & E & ?); [done..|].
    exists d'. split; [|done]. apply catch_io_ok.
    rewrite (bind_ok _ _ _ _ _ (on_fst_ok _ _ _ _ _ E1)).
    change (s16 (Z.land (s8 192) 255)) with 192. cbv zeta. rewrite Z.eqb_refl.
    rewrite (bind_ok (set_limit _) _ (d1, b) tt _ eq_refl).
    rewrite bind_assoc, (bind_ok _ _ _ _ _ (on_fst_ok _ _ _ _ _ E2)).
    rewrite land_s8_byte, wraps_id by (unfold in_s; lia). exact E.
  - destruct (parses_readByte 0x80 d (be_bytes 2 (zlen payload) ++ payload ++ rest) Hd Ha)
      as (d1 & E1 & Hd1 & Ha1).
    destruct (codec_short (S := S) (zlen payload)) as [_ Hp]; [unfold in_s; lia|].
    destruct (Hp d1 (payload ++ rest) Hd1 Ha1) as (d2 & E2 & Hd2 & Ha2).
    destruct (unmarshal_payload_spec d2 b' payload rest) as (d' & E & ?); [done..|].
    exists d'. split; [|done]. apply catch_io_ok.
    rewrite (bind_ok _ _ _ _ _ (on_fst_ok _ _ _ _ _ E1)).
    change (s16 (Z.land (s8 128) 255)) with 128. cbv zeta.
    rewrite (bind_ok (set_limit _) _ (d1, b) tt _ eq_refl).
    cbn [Z.eqb Pos.eqb]. rewrite bind_assoc.
    by rewrite (bind_ok _ _ _ _ _ (on_fst_ok _ _ _ _ _ E2)).
Qed.

End unmarshal_spec.

(** ** Properties *)

(** The writes of a list of booleans, and the reads. *)
Definition write_all (w : list bool) : M BooleanStream unit := iter_m bs_writeBoolean w.
Definition read_all (n : nat) : M BooleanStream (list bool) := repeat_m n bs_readBoolean.

Lemma holds_write_all b w0 w :
  holds b w0 -> zlen w0 + zlen w <= MAX_BITS ->
  exists b', write_all w b = (Ok tt, b') /\ holds b' (w0 ++ w).
Proof.
  revert b w0. induction w as [|v w IH]; intros b w0 Hb Hlen.
  { exists b. by rewrite app_nil_r. }
  rewrite zlen_cons in Hlen. pose proof (zlen_nonneg w).
  destruct (holds_write v b w0 Hb) as (b1 & E & Hb1); [lia|].
  destruct (IH b1 (w0 ++ [v])) as (b2 & E2 & Hb2); [done|rewrite zlen_app, zlen_cons, zlen_nil; lia|].
  exists b2. unfold write_all in *. cbn [iter_m]. rewrite (bind_ok _ _ _ _ _ E), E2.
  by rewrite <- app_assoc in Hb2.
Qed.

Lemma yields_read_all b w r :
  yields b (w ++ r) -> exists b', read_all (length w) b = (Ok w, b') /\ yields b' r.
Proof.
  revert b. induction w as [|v w IH]; intros b Hb; [by exists b|].
  destruct (yields_read b v _ Hb) as (b1 & E & Hb1).
  destruct (IH b1 Hb1) as (b2 & E2 & Hb2).
  exists b2. split; [|done]. unfold read_all in *. cbn [length repeat_m].
  by rewrite (bind_ok _ _ _ _ _ E), (bind_ok _ _ _ _ _ E2).
Qed.

(** The flags of a command survive the wire: whatever booleans are written (up to
    the number a short can index), the stream's marshalled form is as long as
    marshalledSize announced, and unmarshalling it on the other side gives a
    stream from which the same booleans are read in order. *)
Theorem flags_roundtrip {S} `{InputStreamLaws S} (w : list bool) :
  zlen w <= MAX_BITS ->
  exists b form,
    write_all w BooleanStream_new = (Ok tt, b) /\ zlen form = bs_marshalledSize b /\
    (forall o, usable o -> exists b', bs_marshal (o, b) = (Ok tt, (emit form o, b'))) /\
    forall (d : DataInputStream S) rest, ready d -> avail d = form ++ rest ->
    exists d' b' b'', bs_unmarshal (d, BooleanStream_new) = (Ok tt, (d', b')) /\
      ready d' /\ avail d' = rest /\ read_all (length w) b' = (Ok w, b'').
Proof.
  intros Hw. destruct (holds_write_all _ [] w holds_new) as (b & E & Hb); [by rewrite zlen_nil|].
  exists b, (wire_form b). split_and!; [done|by apply (wire_form_length b w)|..].
  - intros o Ho. eexists. by apply (marshal_spec b w).
  - intros d rest Hd Ha. pose proof (holds_limit_range b w Hb) as Hn.
    destruct (wire_form_bits b w Hb) as [k Hk].
    set (payload := take (Z.to_nat (arrayLimit b)) (data b)) in *.
    assert (zlen payload = arrayLimit b) as Hlen.
    { destruct Hb as [_ _ _ _ Hs _ _]. unfold payload, zlen in *. rewrite length_take. lia. }
    unfold wire_form in Ha. fold payload in Ha. rewrite <- app_assoc in Ha.
    destruct (unmarshal_spec d BooleanStream_new (arrayLimit b) payload rest)
      as (d1 & E1 & Hd1 & Ha1); [done..|].
    destruct (yields_read_all {| data := payload; arrayLimit := arrayLimit b; arrayPos := 0; bytePos := 0 |}
      w []) as (b2 & E2 & _).
    { rewrite app_nil_r. split; cbn [data arrayLimit arrayPos bytePos]; [lia|lia| |by eauto].
      destruct Hb. lia. }
    by exists d1, {| data := payload; arrayLimit := arrayLimit b; arrayPos := 0; bytePos := 0 |}, b2.
Qed.

Lemma flags_roundtrip_witness :
  let w := [true; false; true; true; false; false; false; true; true] in
  exists b form,
    write_all w BooleanStream_new = (Ok tt, b) /\ zlen form = bs_marshalledSize b /\
    (forall o, usable o -> exists b', bs_marshal (o, b) = (Ok tt, (emit form o, b'))) /\
    forall (d : DataInputStream (list (list Z))) rest, ready d -> avail d = form ++ rest ->
    exists d' b' b'', bs_unmarshal (d, BooleanStream_new) = (Ok tt, (d', b')) /\
      ready d' /\ avail d' = rest /\ read_all (length w) b' = (Ok w, b'').
Proof.
  apply (flags_roundtrip (S := list (list Z)) [true; false; true; true; false; false; false; true; true]).
  by vm_compute.
Defined.

(** The vector form of marshal leaves out the last byte of the payload it
    announces: the stream form of the same booleans is one byte longer. *)
Theorem vector_form_short b w :
  holds b w -> 0 < arrayLimit b ->
  exists form, bs_marshal_vector b [] = Ok form /\
    zlen form = bs_marshalledSize b - 1 /\ form = take (length form) (wire_form b).
Proof.
  intros Hb Hpos. pose proof (holds_limit_range b w Hb) as Hn.
  destruct Hb as [_ _ _ _ Hs _ _]. unfold bs_marshal_vector. zcmp.
  eexists. split; [done|]. rewrite app_nil_l.
  unfold bs_marshalledSize, wire_form, header, SHORT_MAX in *.
  set (l := arrayLimit b) in *.
  assert (zlen (take (Z.to_nat (l - 1)) (data b)) = l - 1) as Hlen.
  { unfold zlen in *. rewrite length_take. lia. }
  assert (take (Z.to_nat (l - 1)) (data b) =
    take (Z.to_nat (l - 1)) (take (Z.to_nat l) (data b))) as Htake.
  { rewrite take_take. f_equal. lia. }
  assert (length (take (Z.to_nat (l - 1)) (data b)) = Z.to_nat (l - 1)) as Hlen' by (unfold zlen in *; lia).
  destruct (Z.ltb_spec l 64); [|destruct (Z.ltb_spec l 256)];
    rewrite zlen_app, Hlen, length_app, Hlen'.
  - split; [rewrite zlen_cons, zlen_nil; lia|].
    rewrite wrapu_id by (unfold in_u; lia). cbn [length Nat.add app take]. by rewrite Htake.
  - split; [rewrite !zlen_cons, zlen_nil; lia|].
    rewrite wrapu_id by (unfold in_u; lia). cbn [length Nat.add app take]. by rewrite Htake.
  - split; [rewrite !zlen_cons, zlen_nil; lia|].
    replace [0x80; u8 (Z.shiftr l 8); u8 (Z.land l 0xFF)] with (0x80 :: be_bytes 2 l).
    + cbn [length be_bytes app Nat.add take]. by rewrite Htake.
    + cbn [be_bytes app]. rewrite Z.shiftr_div_pow2 by lia.
      change 0xFF with (Z.ones 8). rewrite Z.land_ones by lia.
      unfold wrapu. rewrite Z.mod_mod by lia. done.
Qed.

Lemma vector_form_short_witness :
  exists form, bs_marshal_vector (write_all [true; true; false] BooleanStream_new).2 [] = Ok form /\
    zlen form = bs_marshalledSize (write_all [true; true; false] BooleanStream_new).2 - 1 /\
    form = take (length form) (wire_form (write_all [true; true; false] BooleanStream_new).2).
Proof.
  assert (holds (write_all [true; true; false] BooleanStream_new).2 [true; true; false]) as Hb.
  { destruct (holds_write_all _ [] [true; true; false] holds_new) as (b & E & Hb); [by vm_compute|].
    by rewrite E. }
  apply (vector_form_short _ _ Hb). by vm_compute.
Defined.
