(* ===== verification/TightCodec.v ===== *)
(** * The wire contract of the tight encoding.

    Tight marshalling runs in two passes over one [BooleanStream]: the first
    ([m1]) writes the flags and adds up the size, the second ([m2]) reads the
    flags back and writes the payload; unmarshalling ([mr]) reads flags and
    payload together.  [tight_codec m1 m2 mr a w bs] says the three agree on the
    flags [w] and the payload [bs] of [a], and that the size the first pass
    announced is the size of the payload. *)
From S2P Require Import Prelude DataOutput DataInput Codec BooleanStream.

Definition sizes {A} (m : M BooleanStream A) (w : list bool) (a : A) : Prop :=
  forall b w0, holds b w0 -> zlen w0 + zlen w <= MAX_BITS ->
  exists b', m b = (Ok a, b') /\ holds b' (w0 ++ w).

Definition emits2 {A} (m : M (DataOutputStream * BooleanStream) A)
    (w : list bool) (bs : list Z) (a : A) : Prop :=
  forall o b r, usable o -> yields b (w ++ r) ->
  exists b', m (o, b) = (Ok a, (emit bs o, b')) /\ yields b' r.

Section tight.
Context {S : Type} `{InputStreamLaws S}.

Definition parses2 {A} (m : M (DataInputStream S * BooleanStream) A)
    (w : list bool) (bs : list Z) (a : A) : Prop :=
  forall d b r rest, ready d -> avail d = bs ++ rest -> yields b (w ++ r) ->
  exists d' b', m (d, b) = (Ok a, (d', b')) /\ ready d' /\ avail d' = rest /\ yields b' r.

Definition tight_codec {A}
    (m1 : A -> M BooleanStream Z) (m2 : A -> M (DataOutputStream * BooleanStream) unit)
    (mr : M (DataInputStream S * BooleanStream) A)
    (a : A) (w : list bool) (bs : list Z) : Prop :=
  sizes (m1 a) w (zlen bs) /\ emits2 (m2 a) w bs tt /\ parses2 mr w bs a.

(** ** First pass *)

Lemma sizes_ret {A} (a : A) : sizes (ret a) [] a.
Proof. intros b w0 Hb _. exists b. by rewrite app_nil_r. Qed.

Lemma sizes_bind {A B} (m : M _ A) (k : A -> M _ B) w v a b :
  sizes m w a -> sizes (k a) v b -> sizes (bind m k) (w ++ v) b.
Proof.
  intros Hm Hk s w0 Hs Hlen. rewrite zlen_app in Hlen. pose proof (zlen_nonneg v).
  destruct (Hm s w0 Hs) as (s' & E & Hs'); [lia|].
  destruct (Hk s' _ Hs') as (s'' & E' & Hs''); [rewrite zlen_app; lia|].
  exists s''. by rewrite (bind_ok _ _ _ _ _ E), app_assoc.
Qed.

Lemma sizes_catch_io {A} (m : M _ A) w a : sizes m w a -> sizes (catch_io m) w a.
Proof.
  intros Hm b w0 Hb Hlen. destruct (Hm b w0 Hb Hlen) as (b' & E & ?).
  exists b'. split; [by apply catch_io_ok|done].
Qed.

Lemma sizes_eq {A} (m : M _ A) w v a b : sizes m w a -> w = v -> a = b -> sizes m v b.
Proof. by intros ? <- <-. Qed.

Lemma sizes_writeBoolean v : sizes (bs_writeBoolean v) [v] tt.
Proof.
  intros b w0 Hb Hlen. rewrite zlen_cons, zlen_nil in Hlen.
  apply holds_write; [done|lia].
Qed.

(** ** Second pass *)

Lemma emits2_ret {A} (a : A) : emits2 (ret a) [] [] a.
Proof. intros o b r Ho Hb. exists b. by rewrite emit_nil. Qed.

Lemma emits2_bind {A B} (m : M _ A) (k : A -> M _ B) w v bs cs a b :
  emits2 m w bs a -> emits2 (k a) v cs b -> emits2 (bind m k) (w ++ v) (bs ++ cs) b.
Proof.
  intros Hm Hk o s r Ho Hs. rewrite <- app_assoc in Hs.
  destruct (Hm o s _ Ho Hs) as (s' & E & Hs').
  destruct (Hk (emit bs o) s' r) as (s'' & E' & ?); [by apply usable_emit|done|].
  exists s''. by rewrite (bind_ok _ _ _ _ _ E), E', emit_emit.
Qed.

Lemma emits2_catch_io {A} (m : M _ A) w bs a :
  emits2 m w bs a -> emits2 (catch_io m) w bs a.
Proof.
  intros Hm o b r Ho Hb. destruct (Hm o b r Ho Hb) as (b' & E & ?).
  exists b'. split; [by apply catch_io_ok|done].
Qed.

Lemma emits2_eq {A} (m : M _ A) w v bs cs a :
  emits2 m w bs a -> w = v -> bs = cs -> emits2 m v cs a.
Proof. by intros ? <- <-. Qed.

Lemma emits2_fst {A} (m : M DataOutputStream A) bs a :
  emits m bs a -> emits2 (on_fst m) [] bs a.
Proof. intros Hm o b r Ho Hb. exists b. split; [by apply on_fst_emits|done]. Qed.

Lemma emits2_readBoolean v : emits2 (on_snd bs_readBoolean) [v] [] v.
Proof.
  intros o b r Ho Hb. destruct (yields_read b v r Hb) as (b' & E & ?).
  exists b'. split; [|done]. rewrite emit_nil. by apply on_snd_ok.
Qed.

(** ** Unmarshalling *)

Lemma parses2_ret {A} (a : A) : parses2 (ret a) [] [] a.
Proof. intros d b r rest Hd Ha Hb. by exists d, b. Qed.

Lemma parses2_bind {A B} (m : M _ A) (k : A -> M _ B) w v bs cs a b :
  parses2 m w bs a -> parses2 (k a) v cs b -> parses2 (bind m k) (w ++ v) (bs ++ cs) b.
Proof.
  intros Hm Hk d s r rest Hd Ha Hs. rewrite <- app_assoc in Ha, Hs.
  destruct (Hm d s _ _ Hd Ha Hs) as (d' & s' & E & Hd' & Ha' & Hs').
  destruct (Hk d' s' _ _ Hd' Ha' Hs') as (d'' & s'' & E' & ?).
  exists d'', s''. by rewrite (bind_ok _ _ _ _ _ E).
Qed.

Lemma parses2_catch_io {A} (m : M _ A) w bs a :
  parses2 m w bs a -> parses2 (catch_io m) w bs a.
Proof.
  intros Hm d b r rest Hd Ha Hb. destruct (Hm d b r rest Hd Ha Hb) as (d' & b' & E & ?).
  exists d', b'. split; [by apply catch_io_ok|done].
Qed.

Lemma parses2_eq {A} (m : M _ A) w v bs cs a b :
  parses2 m w bs a -> w = v -> bs = cs -> a = b -> parses2 m v cs b.
Proof. by intros ? <- <- <-. Qed.

Lemma parses2_fst {A} (m : M (DataInputStream S) A) bs a :
  parses m bs a -> parses2 (on_fst m) [] bs a.
Proof.
  intros Hm d b r rest Hd Ha Hb. destruct (Hm d rest Hd Ha) as (d' & E & ? & ?).
  exists d', b. split; [by apply on_fst_ok|done].
Qed.

Lemma parses2_readBoolean v : parses2 (on_snd bs_readBoolean) [v] [] v.
Proof.
  intros d b r rest Hd Ha Hb. destruct (yields_read b v r Hb) as (b' & E & ?).
  exists d, b'. split; [by apply on_snd_ok|done].
Qed.
(** ** Loops over lists *)

Lemma emits2_iter_m {A} (f : A -> M (DataOutputStream * BooleanStream) unit) fl enc l :
  Forall (fun x => emits2 (f x) (fl x) (enc x) tt) l ->
  emits2 (iter_m f l) (l ≫= fl) (l ≫= enc) tt.
Proof.
  induction 1 as [|x l Hx Hl IH]; [apply emits2_ret|]. rewrite !bind_cons. by eapply emits2_bind.
Qed.

Lemma parses2_repeat_m {A} (m : M (DataInputStream S * BooleanStream) A) fl enc l :
  Forall (fun x => parses2 m (fl x) (enc x) x) l ->
  parses2 (repeat_m (length l) m) (l ≫= fl) (l ≫= enc) l.
Proof.
  induction 1 as [|x l Hx Hl IH]; [apply parses2_ret|]. rewrite !bind_cons.
  eapply parses2_bind; [exact Hx|].
  rewrite <- (app_nil_r (l ≫= enc)), <- (app_nil_r (l ≫= fl)).
  eapply parses2_bind; [exact IH|]. apply parses2_ret.
Qed.
End tight.

(** Peel the handlers and the flag reads off a goal, leaving its payload. *)
Ltac peel :=
  repeat match goal with
  | |- sizes (catch_io _) _ _ => apply sizes_catch_io
  | |- emits2 (catch_io _) _ _ _ => apply emits2_catch_io
  | |- parses2 (catch_io _) _ _ _ => apply parses2_catch_io
  | |- emits (catch_io _) _ _ => apply emits_catch_io
  | |- parses (catch_io _) _ _ => apply parses_catch_io
  end.

(** Read or write one boolean. *)
Ltac flag :=
  match goal with
  | |- sizes (bind (bs_writeBoolean ?v) _) (_ :: ?w) _ =>
      apply (sizes_bind _ _ [v] w tt); [apply sizes_writeBoolean|]
  | |- emits2 (bind (on_snd bs_readBoolean) _) (?v :: ?w) ?bs _ =>
      apply (emits2_bind _ _ [v] w [] bs v); [apply emits2_readBoolean|]
  | |- parses2 (bind (on_snd bs_readBoolean) _) (?v :: ?w) ?bs _ =>
      apply (parses2_bind _ _ [v] w [] bs v); [apply parses2_readBoolean|]
  end.
