(* ===== verification/BaseDataStreamMarshaller.v ===== *)
(** * BaseDataStreamMarshaller (wireformat/openwire/marshal/BaseDataStreamMarshaller.cpp
    and .h): the field marshallers every generated command marshaller is made of.

    The wire format the C++ methods receive is the interface [WireFormat]: the
    option they consult and the nested-object operations they call back.  The
    file OpenWireFormat.v provides its instance.  The running size of a first
    pass is a [Z]: an [int] in the code, it overflows (which is undefined) only
    for a command of more than [INT_MAX] bytes. *)
From S2P Require Import Prelude DataOutput DataInput Codec MarshallingSupport Robust BooleanStream TightCodec.

Class WireFormat (S D : Type) := {
  wireVersion : Z;
  isStackTraceEnabled : bool;
  nested_tightMarshal1 : option D -> M BooleanStream Z;
  nested_tightMarshal2 : option D -> M (DataOutputStream * BooleanStream) unit;
  nested_tightUnmarshal : M (DataInputStream S * BooleanStream) (option D);
  nested_looseMarshal : option D -> M DataOutputStream unit;
  nested_looseUnmarshal : M (DataInputStream S) (option D);
}.

(** ** Strings *)

(** The loop over [value[i]], a signed [char]: the bytes of the encoding and
    whether the string is plain ASCII. *)
Fixpoint tight_string_loop (value : list Z) (utflen : Z) (isOnlyAscii : bool) : Z * bool :=
  match value with
  | [] => (utflen, isOnlyAscii)
  | v :: value' =>
      let c := s8 v in
      if (0x0001 <=? c) && (c <=? 0x007F) then tight_string_loop value' (utflen + 1) isOnlyAscii
      else if 0x07FF <? c then tight_string_loop value' (utflen + 3) false
      else tight_string_loop value' (utflen + 2) false
  end.

Definition non_empty (value : list Z) : bool := negb (zlen value =? 0).

Definition tightMarshalString1 (value : list Z) : M BooleanStream Z :=
  catch_io
    (bs_writeBoolean (non_empty value) ;;;
     if non_empty value then
       let '(utflen, isOnlyAscii) := tight_string_loop value 0 true in
       if 0x10000 <=? utflen then throw IOException
       else bs_writeBoolean isOnlyAscii ;;; ret (utflen + 2)
     else ret 0).

Definition tightMarshalString2 (value : list Z) : M (DataOutputStream * BooleanStream) unit :=
  catch_io
    (b <- on_snd bs_readBoolean ;;
     if (b : bool) then
       ascii <- on_snd bs_readBoolean ;;
       if (ascii : bool) then on_fst (writeShort (s16 (zlen value)) ;;; writeBytes value)
       else on_fst (writeUTF value)
     else ret tt).

Definition looseMarshalString (value : list Z) : M DataOutputStream unit :=
  catch_io
    (writeBoolean (non_empty value) ;;;
     if non_empty value then writeUTF value else ret tt).

Section read_strings.
Context {S : Type} `{InputStream S}.

Definition readAsciiString : M (DataInputStream S) (list Z) :=
  catch_io
    (size <- readShort ;;
     if 0 <? size then readFully_all false size else ret []).

Definition tightUnmarshalString : M (DataInputStream S * BooleanStream) (list Z) :=
  catch_io
    (b <- on_snd bs_readBoolean ;;
     if (b : bool) then
       ascii <- on_snd bs_readBoolean ;;
       if (ascii : bool) then on_fst readAsciiString else on_fst readUTF
     else ret []).

Definition looseUnmarshalString : M (DataInputStream S) (list Z) :=
  catch_io (b <- readBoolean ;; if (b : bool) then readUTF else ret []).
End read_strings.

(** ** Longs *)

Definition tightMarshalLong1 (value : Z) : M BooleanStream Z :=
  catch_io
    (if value =? 0 then bs_writeBoolean false ;;; bs_writeBoolean false ;;; ret 0
     else
       let ul := u64 value in
       if Z.land ul 0xFFFFFFFFFFFF0000 =? 0 then
         bs_writeBoolean false ;;; bs_writeBoolean true ;;; ret 2
       else if Z.land ul 0xFFFFFFFF00000000 =? 0 then
         bs_writeBoolean true ;;; bs_writeBoolean false ;;; ret 4
       else bs_writeBoolean true ;;; bs_writeBoolean true ;;; ret 8).

Definition tightMarshalLong2 (value : Z) : M (DataOutputStream * BooleanStream) unit :=
  catch_io
    (b <- on_snd bs_readBoolean ;;
     if (b : bool) then
       c <- on_snd bs_readBoolean ;;
       if (c : bool) then on_fst (writeLong value) else on_fst (writeInt (s32 value))
     else
       c <- on_snd bs_readBoolean ;;
       if (c : bool) then on_fst (writeShort (s16 value)) else ret tt).

Definition looseMarshalLong (value : Z) : M DataOutputStream unit := catch_io (writeLong value).

Section read_longs.
Context {S : Type} `{InputStream S}.

Definition tightUnmarshalLong : M (DataInputStream S * BooleanStream) Z :=
  catch_io
    (b <- on_snd bs_readBoolean ;;
     if (b : bool) then
       c <- on_snd bs_readBoolean ;;
       if (c : bool) then on_fst readLong else (v <- on_fst readInt ;; ret (u32 v))
     else
       c <- on_snd bs_readBoolean ;;
       if (c : bool) then on_fst readUnsignedShort else ret 0).

Definition looseUnmarshalLong : M (DataInputStream S) Z := catch_io readLong.
End read_longs.

(** ** Byte arrays *)

Section read_arrays.
Context {S : Type} `{InputStream S}.

(** [if (size > 0) { data.resize(size); readFully(&data[0], size); }] *)
Definition read_array (size : Z) : M (DataInputStream S) (list Z) :=
  if 0 <? size then readFully_all false size else ret [].

Definition tightUnmarshalByteArray : M (DataInputStream S * BooleanStream) (list Z) :=
  catch_io
    (b <- on_snd bs_readBoolean ;;
     if (b : bool) then (size <- on_fst readInt ;; on_fst (read_array size)) else ret []).

Definition looseUnmarshalByteArray : M (DataInputStream S) (list Z) :=
  catch_io
    (b <- readBoolean ;;
     if (b : bool) then (size <- readInt ;; read_array size) else ret []).

Definition tightUnmarshalConstByteArray (size : Z) :
    M (DataInputStream S * BooleanStream) (list Z) :=
  catch_io (on_fst (read_array size)).

Definition looseUnmarshalConstByteArray (size : Z) : M (DataInputStream S) (list Z) :=
  catch_io (read_array size).
End read_arrays.

(** ** Broker errors *)

Record StackTraceElement : Type := mkSTE {
  ClassName : list Z;
  FileName : list Z;
  MethodName : list Z;
  LineNumber : Z;
}.

(** A pointer to a commands::BrokerError: the error and the chain of its causes. *)
Inductive BrokerError : Type :=
  | NoError
  | Error (exceptionClass message : list Z) (stackTraceElements : list StackTraceElement)
      (cause : BrokerError).

(** [for (...) rc += f(element)] *)
Fixpoint sum_m {A} (f : A -> M BooleanStream Z) (l : list A) (rc : Z) : M BooleanStream Z :=
  match l with
  | [] => ret rc
  | x :: l' => n <- f x ;; sum_m f l' (rc + n)
  end.

Definition tight_element1 (e : StackTraceElement) : M BooleanStream Z :=
  a <- tightMarshalString1 (ClassName e) ;;
  b <- tightMarshalString1 (MethodName e) ;;
  c <- tightMarshalString1 (FileName e) ;;
  ret (a + b + c + 4).

Definition tight_element2 (e : StackTraceElement) : M (DataOutputStream * BooleanStream) unit :=
  tightMarshalString2 (ClassName e) ;;;
  tightMarshalString2 (MethodName e) ;;;
  tightMarshalString2 (FileName e) ;;;
  on_fst (writeInt (LineNumber e)).

Definition loose_element (e : StackTraceElement) : M DataOutputStream unit :=
  looseMarshalString (ClassName e) ;;;
  looseMarshalString (MethodName e) ;;;
  looseMarshalString (FileName e) ;;;
  writeInt (LineNumber e).

Section errors.
Context {S D : Type} `{WireFormat S D} `{InputStream S}.

Fixpoint tightMarshalBrokerError1 (error : BrokerError) : M BooleanStream Z :=
  catch_io
    match error with
    | NoError => bs_writeBoolean false ;;; ret 0
    | Error exceptionClass message stack cause =>
        bs_writeBoolean true ;;;
        a <- tightMarshalString1 exceptionClass ;;
        b <- tightMarshalString1 message ;;
        if isStackTraceEnabled then
          rc <- sum_m tight_element1 stack (a + b + 2) ;;
          n <- tightMarshalBrokerError1 cause ;;
          ret (rc + n)
        else ret (a + b)
    end.

(** Dereferencing a null error is undefined; the number of elements is cut to
    a [short]. *)
Fixpoint tightMarshalBrokerError2 (error : BrokerError) :
    M (DataOutputStream * BooleanStream) unit :=
  catch_io
    (b <- on_snd bs_readBoolean ;;
     if (b : bool) then
       match error with
       | NoError => undefined
       | Error exceptionClass message stack cause =>
           tightMarshalString2 exceptionClass ;;;
           tightMarshalString2 message ;;;
           if isStackTraceEnabled then
             let length := s16 (zlen stack) in
             on_fst (writeShort length) ;;;
             iter_m tight_element2 (take (Z.to_nat length) stack) ;;;
             tightMarshalBrokerError2 cause
           else ret tt
       end
     else ret tt).

Fixpoint looseMarshalBrokerError (error : BrokerError) : M DataOutputStream unit :=
  catch_io
    match error with
    | NoError => catch_io (doWriteByte 0)
    | Error exceptionClass message stack cause =>
        catch_io (doWriteByte 1) ;;;
        looseMarshalString exceptionClass ;;;
        looseMarshalString message ;;;
        if isStackTraceEnabled then
          writeShort (s16 (zlen stack)) ;;;
          iter_m loose_element stack ;;;
          looseMarshalBrokerError cause
        else ret tt
    end.

Definition tight_read_element : M (DataInputStream S * BooleanStream) StackTraceElement :=
  c <- tightUnmarshalString ;;
  m <- tightUnmarshalString ;;
  f <- tightUnmarshalString ;;
  n <- on_fst readInt ;;
  ret {| ClassName := c; FileName := f; MethodName := m; LineNumber := n |}.

Definition loose_read_element : M (DataInputStream S) StackTraceElement :=
  c <- looseUnmarshalString ;;
  m <- looseUnmarshalString ;;
  f <- looseUnmarshalString ;;
  n <- readInt ;;
  ret {| ClassName := c; FileName := f; MethodName := m; LineNumber := n |}.

(** The depth of the chain is what the sender put on the wire; [fuel] bounds it. *)
Fixpoint tightUnmarshalBrokerError (fuel : nat) :
    M (DataInputStream S * BooleanStream) BrokerError :=
  match fuel with
  | O => hang
  | Datatypes.S fuel' =>
      catch_io
        (b <- on_snd bs_readBoolean ;;
         if (b : bool) then
           exceptionClass <- tightUnmarshalString ;;
           message <- tightUnmarshalString ;;
           if isStackTraceEnabled then
             length <- on_fst readShort ;;
             stack <- repeat_m (Z.to_nat length) tight_read_element ;;
             cause <- tightUnmarshalBrokerError fuel' ;;
             ret (Error exceptionClass message stack cause)
           else ret (Error exceptionClass message [] NoError)
         else ret NoError)
  end.

Fixpoint looseUnmarshalBrokerError (fuel : nat) : M (DataInputStream S) BrokerError :=
  match fuel with
  | O => hang
  | Datatypes.S fuel' =>
      catch_io
        (b <- readBoolean ;;
         if (b : bool) then
           exceptionClass <- looseUnmarshalString ;;
           message <- looseUnmarshalString ;;
           if isStackTraceEnabled then
             length <- readShort ;;
             stack <- repeat_m (Z.to_nat length) loose_read_element ;;
             cause <- looseUnmarshalBrokerError fuel' ;;
             ret (Error exceptionClass message stack cause)
           else ret (Error exceptionClass message [] NoError)
         else ret NoError)
  end.
End errors.

(** ** Nested objects and arrays of objects *)

Section nested.
Context {S D : Type} `{WireFormat S D} `{InputStream S}.

Definition tightMarshalNestedObject1 (o : option D) : M BooleanStream Z :=
  catch_io (nested_tightMarshal1 o).
Definition tightMarshalNestedObject2 (o : option D) : M (DataOutputStream * BooleanStream) unit :=
  catch_io (nested_tightMarshal2 o).
Definition tightUnmarshalNestedObject : M (DataInputStream S * BooleanStream) (option D) :=
  catch_io nested_tightUnmarshal.
Definition looseMarshalNestedObject (o : option D) : M DataOutputStream unit :=
  catch_io (nested_looseMarshal o).
Definition looseUnmarshalNestedObject : M (DataInputStream S) (option D) :=
  catch_io nested_looseUnmarshal.

(** The "cached" variants do what the nested ones do. *)
Definition tightMarshalCachedObject1 (o : option D) : M BooleanStream Z :=
  catch_io (nested_tightMarshal1 o).
Definition tightMarshalCachedObject2 (o : option D) : M (DataOutputStream * BooleanStream) unit :=
  catch_io (nested_tightMarshal2 o).
Definition tightUnmarshalCachedObject : M (DataInputStream S * BooleanStream) (option D) :=
  catch_io nested_tightUnmarshal.
Definition looseMarshalCachedObject (o : option D) : M DataOutputStream unit :=
  catch_io (nested_looseMarshal o).
Definition looseUnmarshalCachedObject : M (DataInputStream S) (option D) :=
  catch_io nested_looseUnmarshal.

Definition tightMarshalObjectArray1 (objects : list (option D)) : M BooleanStream Z :=
  catch_io
    match objects with
    | [] => bs_writeBoolean false ;;; ret 0
    | _ => bs_writeBoolean true ;;; sum_m tightMarshalNestedObject1 objects 2
    end.

Definition tightMarshalObjectArray2 (objects : list (option D)) :
    M (DataOutputStream * BooleanStream) unit :=
  catch_io
    (b <- on_snd bs_readBoolean ;;
     if (b : bool) then
       on_fst (writeShort (s16 (zlen objects))) ;;;
       iter_m tightMarshalNestedObject2 objects
     else ret tt).

Definition looseMarshalObjectArray (objects : list (option D)) : M DataOutputStream unit :=
  catch_io
    match objects with
    | [] => writeBoolean false
    | _ =>
        writeBoolean true ;;;
        writeShort (s16 (zlen objects)) ;;;
        iter_m looseMarshalNestedObject objects
    end.

(** What the generated marshallers do to read an array back; [reserve] refuses a
    negative size with a [std::length_error]. *)
Definition tight_read_objects : M (DataInputStream S * BooleanStream) (list (option D)) :=
  b <- on_snd bs_readBoolean ;;
  if (b : bool) then
    size <- on_fst readShort ;;
    if size <? 0 then throw UnknownException
    else repeat_m (Z.to_nat size) tightUnmarshalNestedObject
  else ret [].

Definition loose_read_objects : M (DataInputStream S) (list (option D)) :=
  b <- readBoolean ;;
  if (b : bool) then
    size <- readShort ;;
    if size <? 0 then throw UnknownException
    else repeat_m (Z.to_nat size) looseUnmarshalNestedObject
  else ret [].
End nested.

(** ** Strings on the wire *)

Definition is_ascii (value : list Z) : bool := forallb (fun c => (1 <=? c) && (c <=? 127)) value.

Definition string_flags (value : list Z) : list bool :=
  if non_empty value then [true; is_ascii value] else [false].

Definition string_bytes (value : list Z) : list Z :=
  if non_empty value then be_bytes 2 (zlen (utf_encode value)) ++ utf_encode value else [].

Definition loose_string (value : list Z) : list Z :=
  if non_empty value then 1 :: be_bytes 2 (zlen (utf_encode value)) ++ utf_encode value else [0].

(** The strings both encodings carry. The reader of a tight ASCII string takes
    its length for a signed [short]. *)
Definition string_ok (value : list Z) : Prop :=
  bytes_ok value /\
  zlen (utf_encode value) <= (if is_ascii value then SHORT_MAX else 65535).

Lemma non_empty_nil value : non_empty value = false -> value = [].
Proof. unfold non_empty. intros H%negb_false_iff%Z.eqb_eq. by apply zlen_zero. Qed.

Lemma utf_encode_ascii value : is_ascii value = true -> utf_encode value = value.
Proof.
  unfold is_ascii. induction value as [|c l IH]; [done|]. cbn [forallb utf_encode mbind list_bind].
  intros [[Hc1%Z.leb_le Hc2%Z.leb_le]%andb_prop Hl]%andb_prop.
  unfold utf_encode in IH. rewrite IH by done.
  unfold utf_encode_char. zcmp. by rewrite wrapu_id by (unfold in_u; lia).
Qed.

(** The loop computes the length of the encoding and the ASCII test. *)
Lemma tight_string_loop_spec value n b :
  bytes_ok value ->
  tight_string_loop value n b = (n + zlen (utf_encode value), b && is_ascii value).
Proof.
  intros Hok. revert n b. induction Hok as [|c l Hc Hl IH]; intros n b.
  { cbn. by rewrite zlen_nil, Z.add_0_r, andb_true_r. }
  cbn [tight_string_loop utf_encode mbind list_bind is_ascii forallb].
  fold (is_ascii l) (utf_encode l).
  rewrite zlen_app, utf_encode_char_width, Z.add_assoc.
  assert ((if (1 <=? s8 c) && (s8 c <=? 127)
           then (1 <=? c) && (c <=? 127) && (utf_width c =? 1)
           else negb (2047 <? s8 c) && negb ((1 <=? c) && (c <=? 127)) && (utf_width c =? 2))
          = true) as H.
  { revert c Hc. apply byte_cases. by vm_compute. }
  cbv zeta. case_match.
  - apply andb_prop in H as [-> ->%Z.eqb_eq]. by rewrite IH.
  - apply andb_prop in H as [[->%negb_true_iff ->%negb_true_iff]%andb_prop ->%Z.eqb_eq].
    by rewrite IH, andb_false_r.
Qed.

Section string_specs.
Context {S : Type} `{InputStreamLaws S}.

Lemma parses_readAsciiString bs :
  zlen bs <= SHORT_MAX -> parses readAsciiString (be_bytes 2 (zlen bs) ++ bs) bs.
Proof.
  intros Hlen. pose proof (zlen_nonneg bs). unfold readAsciiString. peel.
  eapply parses_bind; [apply codec_short; zlia|].
  case_match; [by apply parses_readFully_all|]. rewrite (zlen_zero bs) by lia. apply parses_ret.
Qed.

Lemma tight_codec_string value :
  string_ok value ->
  tight_codec (S := S) tightMarshalString1 tightMarshalString2 tightUnmarshalString
    value (string_flags value) (string_bytes value).
Proof.
  intros [Hok Hlen].
  pose proof (zlen_nonneg (utf_encode value)) as Hn.
  unfold tight_codec, string_flags, string_bytes, tightMarshalString1, tightMarshalString2,
    tightUnmarshalString.
  destruct (non_empty value) eqn:He; cycle 1.
  { apply non_empty_nil in He as ->. repeat split; peel; flag; [apply sizes_ret|apply emits2_ret|apply parses2_ret]. }
  rewrite tight_string_loop_spec by done. cbn [andb].
  assert (zlen (utf_encode value) <= 65535) by (unfold SHORT_MAX in *; case_match; lia).
  repeat split; peel; flag.
  - clear Hlen. zcmp. flag. eapply sizes_eq; [apply sizes_ret|done|].
    autorewrite with amq_len. lia.
  - flag. destruct (is_ascii value) eqn:Ha; apply emits2_fst.
    + rewrite (utf_encode_ascii value Ha) in *. unfold SHORT_MAX in *.
      eapply emits_bind; [|apply emits_writeBytes; unfold INT_MAX; lia].
      rewrite wraps_id by zlia. apply emits_writeShort.
    + by apply emits_writeUTF.
  - flag. destruct (is_ascii value) eqn:Ha; apply parses2_fst.
    + rewrite (utf_encode_ascii value Ha) in *. by apply parses_readAsciiString.
    + apply parses_readUTF; [done|by apply utf_decode_encode].
Qed.

Lemma codec_loose_string value :
  bytes_ok value -> zlen (utf_encode value) <= 65535 ->
  codec (S := S) looseMarshalString looseUnmarshalString value (loose_string value).
Proof.
  intros Hok Hlen. unfold codec, looseMarshalString, looseUnmarshalString, loose_string.
  destruct (non_empty value) eqn:He.
  - split; peel.
    + apply (emits_bind _ _ [1] _ tt tt); [apply (emits_writeBoolean true)|by apply emits_writeUTF].
    + apply (parses_bind _ _ [1] _ true); [apply (parses_readBoolean 1)|].
      apply parses_readUTF; [done|by apply utf_decode_encode].
  - apply non_empty_nil in He as ->. split; peel.
    + apply (emits_bind _ _ [0] [] tt tt); [apply (emits_writeBoolean false)|apply emits_ret].
    + apply (parses_bind _ _ [0] [] false); [apply (parses_readBoolean 0)|apply parses_ret].
Qed.
End string_specs.

(** ** Longs on the wire *)

Definition long_flags (value : Z) : list bool :=
  if value =? 0 then [false; false]
  else if u64 value <? 2 ^ 16 then [false; true]
  else if u64 value <? 2 ^ 32 then [true; false]
  else [true; true].

Definition long_bytes (value : Z) : list Z :=
  if value =? 0 then []
  else if u64 value <? 2 ^ 16 then be_bytes 2 value
  else if u64 value <? 2 ^ 32 then be_bytes 4 value
  else be_bytes 8 value.

(** The mask of the high bits tests for a number below [2 ^ k]. *)
Lemma land_high x k :
  0 <= k <= 64 -> 0 <= x < 2 ^ 64 ->
  (Z.land x (Z.shiftl (Z.ones (64 - k)) k) =? 0) = (x <? 2 ^ k).
Proof.
  intros Hk Hx.
  assert (Z.land x (Z.shiftl (Z.ones (64 - k)) k) = x / 2 ^ k * 2 ^ k) as ->.
  { apply Z.bits_inj'. intros n Hn. rewrite Z.land_spec, Z.shiftl_spec by done.
    destruct (Z.ltb_spec n k).
    - rewrite (Z.testbit_neg_r (Z.ones _)), andb_false_r by lia.
      by rewrite Z.mul_pow2_bits_low by lia.
    - rewrite Z.mul_pow2_bits, Z.div_pow2_bits by lia. rewrite Z.sub_add.
      destruct (Z.ltb_spec n 64).
      + by rewrite Z.ones_spec_low, andb_true_r by lia.
      + rewrite Z.ones_spec_high, andb_false_r by lia. symmetry.
        rewrite <- (Z.mod_small x (2 ^ 64)) by done.
        apply Z.mod_pow2_bits_high. lia. }
  pose proof (Z.pow_pos_nonneg 2 k).
  destruct (Z.ltb_spec x (2 ^ k)).
  - rewrite Z.div_small by lia. done.
  - apply Z.eqb_neq. assert (1 <= x / 2 ^ k) by (apply Z.div_le_lower_bound; lia). nia.
Qed.

Section long_specs.
Context {S : Type} `{InputStreamLaws S}.

Lemma tight_codec_long value :
  in_s 64 value ->
  tight_codec (S := S) tightMarshalLong1 tightMarshalLong2 tightUnmarshalLong
    value (long_flags value) (long_bytes value).
Proof.
  intros Hv. unfold tight_codec, long_flags, long_bytes, tightMarshalLong1,
    tightMarshalLong2, tightUnmarshalLong.
  assert (in_u 64 (u64 value)) as Hu by (apply wrapu_range; lia).
  change 0xFFFFFFFFFFFF0000 with (Z.shiftl (Z.ones (64 - 16)) 16).
  change 0xFFFFFFFF00000000 with (Z.shiftl (Z.ones (64 - 32)) 32).
  cbv zeta. rewrite !land_high by (done || lia).
  destruct (Z.eqb_spec value 0) as [->|].
  { repeat split; peel; do 2 flag; [apply sizes_ret|apply emits2_ret|apply parses2_ret]. }
  destruct (Z.ltb_spec (u64 value) (2 ^ 16)) as [Hs|].
  { assert (value = u64 value) as Hval by (unfold wrapu, in_s, in_u in *; lia).
    rewrite <- Hval in Hs. repeat split; peel; do 2 flag.
    - apply sizes_ret.
    - apply emits2_fst. rewrite <- (be_bytes_s 16 2) by lia. apply emits_writeShort.
    - apply parses2_fst, codec_unsignedShort. unfold in_u in *; lia. }
  destruct (Z.ltb_spec (u64 value) (2 ^ 32)) as [Hs|].
  { assert (value = u64 value) as Hval by (unfold wrapu, in_s, in_u in *; lia).
    rewrite <- Hval in Hs. repeat split; peel; do 2 flag.
    - apply sizes_ret.
    - apply emits2_fst. rewrite <- (be_bytes_s 32 4) by lia. apply emits_writeInt.
    - rewrite <- (be_bytes_s 32 4) by lia.
      eapply (parses2_eq _ ([] ++ []) _ (be_bytes 4 (s32 value) ++ []));
        [|done|by rewrite app_nil_r|].
      + eapply parses2_bind; [apply parses2_fst, codec_int, wraps_range; lia|apply parses2_ret].
      + rewrite wrapu_wraps by lia. apply wrapu_id. unfold in_u in *; lia. }
  repeat split; peel; do 2 flag.
  - apply sizes_ret.
  - apply emits2_fst, emits_writeLong.
  - by apply parses2_fst, codec_long.
Qed.

Lemma codec_loose_long value :
  in_s 64 value ->
  codec (S := S) looseMarshalLong looseUnmarshalLong value (be_bytes 8 value).
Proof.
  intros Hv. destruct (codec_long (S := S) value Hv) as [??].
  split; unfold looseMarshalLong, looseUnmarshalLong; by peel.
Qed.
End long_specs.

(** ** Byte arrays on the wire *)

(** What the generated marshallers write: a flag, the length, the bytes. *)
Definition array_bytes (value : list Z) : list Z :=
  if non_empty value then be_bytes 4 (zlen value) ++ value else [].

Section array_specs.
Context {S : Type} `{InputStreamLaws S}.

Lemma parses_read_array value :
  parses (S := S) (read_array (zlen value)) value value.
Proof.
  unfold read_array. pose proof (zlen_nonneg value).
  case_match; [by apply parses_readFully_all|].
  rewrite (zlen_zero value) by lia. apply parses_ret.
Qed.

Lemma parses2_byteArray value :
  zlen value <= INT_MAX ->
  parses2 (S := S) tightUnmarshalByteArray [non_empty value] (array_bytes value) value.
Proof.
  intros Hlen. pose proof (zlen_nonneg value).
  unfold tightUnmarshalByteArray, array_bytes. peel.
  flag.
  destruct (non_empty value) eqn:He; [|apply non_empty_nil in He as ->; apply parses2_ret].
  eapply (parses2_bind _ _ [] []); [apply parses2_fst, codec_int; zlia|].
  apply parses2_fst, parses_read_array.
Qed.

Lemma parses_byteArray value :
  zlen value <= INT_MAX ->
  parses (S := S) looseUnmarshalByteArray
    ((if non_empty value then 1 else 0) :: array_bytes value) value.
Proof.
  intros Hlen. pose proof (zlen_nonneg value).
  unfold looseUnmarshalByteArray, array_bytes. peel.
  apply (parses_bind _ _ [_] _ (non_empty value)).
  { eapply parses_eq; [apply parses_readBoolean|done|]. by destruct (non_empty value). }
  destruct (non_empty value) eqn:He; [|apply non_empty_nil in He as ->; apply parses_ret].
  eapply parses_bind; [apply codec_int; zlia|]. apply parses_read_array.
Qed.
End array_specs.

(** ** Broker errors on the wire *)

Definition element_flags (e : StackTraceElement) : list bool :=
  string_flags (ClassName e) ++ string_flags (MethodName e) ++ string_flags (FileName e).
Definition element_bytes (e : StackTraceElement) : list Z :=
  string_bytes (ClassName e) ++ string_bytes (MethodName e) ++ string_bytes (FileName e)
  ++ be_bytes 4 (LineNumber e).
Definition loose_element_bytes (e : StackTraceElement) : list Z :=
  loose_string (ClassName e) ++ loose_string (MethodName e) ++ loose_string (FileName e)
  ++ be_bytes 4 (LineNumber e).

Record element_ok (e : StackTraceElement) : Prop := {
  ok_class : string_ok (ClassName e);
  ok_method : string_ok (MethodName e);
  ok_file : string_ok (FileName e);
  ok_line : in_s 32 (LineNumber e);
}.

(** Without stack traces only the first error's class and message travel. *)
Fixpoint error_ok (traces : bool) (e : BrokerError) : Prop :=
  match e with
  | NoError => True
  | Error c m stack cause =>
      string_ok c /\ string_ok m /\
      (if traces then Forall element_ok stack /\ zlen stack <= SHORT_MAX /\ error_ok traces cause
       else True)
  end.

Definition transmitted (traces : bool) (e : BrokerError) : BrokerError :=
  match e with
  | Error c m _ _ => if traces then e else Error c m [] NoError
  | NoError => NoError
  end.

Fixpoint error_flags (traces : bool) (e : BrokerError) : list bool :=
  match e with
  | NoError => [false]
  | Error c m stack cause =>
      true :: string_flags c ++ string_flags m ++
      (if traces then (stack ≫= element_flags) ++ error_flags traces cause else [])
  end.

Fixpoint error_bytes (traces : bool) (e : BrokerError) : list Z :=
  match e with
  | NoError => []
  | Error c m stack cause =>
      string_bytes c ++ string_bytes m ++
      (if traces
       then be_bytes 2 (zlen stack) ++ (stack ≫= element_bytes) ++ error_bytes traces cause
       else [])
  end.

Fixpoint loose_error (traces : bool) (e : BrokerError) : list Z :=
  match e with
  | NoError => [0]
  | Error c m stack cause =>
      1 :: loose_string c ++ loose_string m ++
      (if traces
       then be_bytes 2 (zlen stack) ++ (stack ≫= loose_element_bytes) ++ loose_error traces cause
       else [])
  end.

(** The number of calls it takes to read an error back. *)
Fixpoint error_depth (e : BrokerError) : nat :=
  match e with NoError => 1 | Error _ _ _ cause => Datatypes.S (error_depth cause) end.

Lemma sizes_sum_m {A} (f : A -> M BooleanStream Z) fl (enc : A -> list Z) l rc :
  Forall (fun x => sizes (f x) (fl x) (zlen (enc x))) l ->
  sizes (sum_m f l rc) (l ≫= fl) (rc + zlen (l ≫= enc)).
Proof.
  intros Hl. revert rc. induction Hl as [|x l Hx Hl IH]; intros rc.
  { eapply sizes_eq; [apply sizes_ret|done|]. cbn. rewrite zlen_nil. lia. }
  rewrite !bind_cons. eapply sizes_bind; [exact Hx|].
  eapply sizes_eq; [apply IH|done|]. rewrite zlen_app. lia.
Qed.

Section error_specs.
Context {S D : Type} `{WireFormat S D} `{InputStreamLaws S}.

Lemma tight_element e :
  element_ok e ->
  sizes (tight_element1 e) (element_flags e) (zlen (element_bytes e)) /\
  emits2 (tight_element2 e) (element_flags e) (element_bytes e) tt /\
  parses2 (S := S) tight_read_element (element_flags e) (element_bytes e) e.
Proof.
  intros [(C1 & C2 & C3)%(tight_codec_string (S := S)) (M1 & M2 & M3)%(tight_codec_string (S := S))
          (F1 & F2 & F3)%(tight_codec_string (S := S)) Hline].
  unfold element_flags, element_bytes. split_and!.
  - repeat (eapply sizes_bind; [eassumption|]).
    eapply sizes_eq; [eapply sizes_bind; [eassumption|]; apply sizes_ret|by rewrite app_nil_r|].
    autorewrite with amq_len. lia.
  - repeat (eapply emits2_bind; [eassumption|]).
    eapply emits2_eq; [eapply emits2_bind; [eassumption|]|by rewrite app_nil_r|done].
    apply emits2_fst, emits_writeInt.
  - repeat (eapply parses2_bind; [eassumption|]).
    eapply parses2_eq; [eapply parses2_bind; [eassumption|];
        eapply parses2_bind; [by apply parses2_fst, codec_int|apply parses2_ret]
      |by rewrite !app_nil_r|by rewrite !app_nil_r|by destruct e].
Qed.

Lemma sizes_error e :
  error_ok isStackTraceEnabled e ->
  sizes (tightMarshalBrokerError1 e) (error_flags isStackTraceEnabled e)
    (zlen (error_bytes isStackTraceEnabled e)).
Proof.
  induction e as [|c m stack cause IH]; cbn [tightMarshalBrokerError1 error_flags error_bytes error_ok].
  { intros _. peel. flag. apply sizes_ret. }
  intros ((C1 & _)%(tight_codec_string (S := S)) & (M1 & _)%(tight_codec_string (S := S)) & Hrest).
  peel. flag. do 2 (eapply sizes_bind; [eassumption|]).
  destruct isStackTraceEnabled.
  - destruct Hrest as (Hstack & Hlen & Hcause).
    eapply sizes_bind.
    { apply (sizes_sum_m _ element_flags element_bytes).
      eapply Forall_impl; [|exact Hstack]. intros e He. by apply tight_element. }
    rewrite <- (app_nil_r (error_flags _ _)).
    eapply sizes_bind; [by apply IH|]. eapply sizes_eq; [apply sizes_ret|done|].
    autorewrite with amq_len. lia.
  - eapply sizes_eq; [apply sizes_ret|done|]. autorewrite with amq_len. lia.
Qed.

Lemma emits2_error e :
  error_ok isStackTraceEnabled e ->
  emits2 (tightMarshalBrokerError2 e) (error_flags isStackTraceEnabled e)
    (error_bytes isStackTraceEnabled e) tt.
Proof.
  induction e as [|c m stack cause IH]; cbn [tightMarshalBrokerError2 error_flags error_bytes error_ok].
  { intros _. peel. flag. apply emits2_ret. }
  intros ((_ & C2 & _)%(tight_codec_string (S := S)) & (_ & M2 & _)%(tight_codec_string (S := S)) & Hrest).
  peel. flag. do 2 (eapply emits2_bind; [eassumption|]).
  destruct isStackTraceEnabled; [|apply emits2_ret].
  destruct Hrest as (Hstack & Hlen & Hcause).
  pose proof (zlen_nonneg stack). cbv zeta. rewrite wraps_id by zlia.
  rewrite take_ge by (unfold zlen; lia).
  apply (emits2_bind _ _ [] _ (be_bytes 2 (zlen stack)) _ tt).
  { apply emits2_fst, emits_writeShort. }
  eapply emits2_bind; [|by apply IH]. apply emits2_iter_m.
  eapply Forall_impl; [|exact Hstack]. intros e He. by apply tight_element.
Qed.

Lemma parses2_error e fuel :
  error_ok isStackTraceEnabled e -> (error_depth e <= fuel)%nat ->
  parses2 (S := S) (tightUnmarshalBrokerError fuel) (error_flags isStackTraceEnabled e)
    (error_bytes isStackTraceEnabled e) (transmitted isStackTraceEnabled e).
Proof.
  revert fuel. induction e as [|c m stack cause IH]; intros [|fuel] Hok Hfuel;
    cbn [error_depth] in Hfuel; try lia;
    cbn [tightUnmarshalBrokerError error_flags error_bytes transmitted]; peel; flag.
  { apply parses2_ret. }
  destruct Hok as ((_ & _ & C3)%(tight_codec_string (S := S)) &
    (_ & _ & M3)%(tight_codec_string (S := S)) & Hrest).
  do 2 (eapply parses2_bind; [eassumption|]).
  destruct isStackTraceEnabled; [|apply parses2_ret].
  destruct Hrest as (Hstack & Hlen & Hcause).
  pose proof (zlen_nonneg stack).
  apply (parses2_bind _ _ [] _ (be_bytes 2 (zlen stack)) _ (zlen stack)).
  { apply parses2_fst, codec_short. zlia. }
  eapply parses2_bind.
  { unfold zlen at 1. rewrite Nat2Z.id. apply parses2_repeat_m.
    eapply Forall_impl; [|exact Hstack]. intros e He. by apply tight_element. }
  rewrite <- (app_nil_r (error_flags _ _)), <- (app_nil_r (error_bytes _ _)).
  eapply parses2_bind; [apply IH; [done|lia]|].
  eapply parses2_eq; [apply parses2_ret|done|done|]. by destruct cause.
Qed.

Lemma codec_loose_element e :
  element_ok e -> codec (S := S) loose_element loose_read_element e (loose_element_bytes e).
Proof.
  assert (forall v, string_ok v -> bytes_ok v /\ zlen (utf_encode v) <= 65535) as Hok.
  { intros v [? Hv]. split; [done|]. unfold SHORT_MAX in *. case_match; lia. }
  intros [[]%Hok []%Hok []%Hok Hline].
  destruct (codec_loose_string (S := S) (ClassName e)); [done..|].
  destruct (codec_loose_string (S := S) (MethodName e)); [done..|].
  destruct (codec_loose_string (S := S) (FileName e)); [done..|].
  unfold loose_element_bytes. split.
  - repeat (eapply emits_bind; [eassumption|]). apply emits_writeInt.
  - repeat (eapply parses_bind; [eassumption|]).
    rewrite <- (app_nil_r (be_bytes _ _)).
    eapply parses_bind; [by apply codec_int|]. eapply parses_eq; [apply parses_ret|done|by destruct e].
Qed.

Lemma emits_loose_error e :
  error_ok isStackTraceEnabled e ->
  emits (looseMarshalBrokerError e) (loose_error isStackTraceEnabled e) tt.
Proof.
  assert (forall v, string_ok v -> emits (looseMarshalString v) (loose_string v) tt) as Hstr.
  { intros v [? Hv]. apply (codec_loose_string (S := S)); [done|].
    unfold SHORT_MAX in *. case_match; lia. }
  induction e as [|c m stack cause IH]; cbn [looseMarshalBrokerError loose_error error_ok].
  { intros _. peel. apply emits_catch_io, emits_base. }
  intros (C%Hstr & M%Hstr & Hrest). peel.
  apply (emits_bind _ _ [1] _ tt). { do 2 apply emits_catch_io. apply emits_base. }
  do 2 (eapply emits_bind; [eassumption|]).
  destruct isStackTraceEnabled; [|apply emits_ret].
  destruct Hrest as (Hstack & Hlen & Hcause). pose proof (zlen_nonneg stack).
  rewrite wraps_id by zlia.
  eapply emits_bind; [apply emits_writeShort|]. eapply emits_bind; [|by apply IH].
  apply emits_iter_m. eapply Forall_impl; [|exact Hstack]. intros e He. by apply codec_loose_element.
Qed.

Lemma parses_loose_error e fuel :
  error_ok isStackTraceEnabled e -> (error_depth e <= fuel)%nat ->
  parses (S := S) (looseUnmarshalBrokerError fuel) (loose_error isStackTraceEnabled e)
    (transmitted isStackTraceEnabled e).
Proof.
  assert (forall v, string_ok v -> parses (S := S) looseUnmarshalString (loose_string v) v) as Hstr.
  { intros v [? Hv]. apply (codec_loose_string (S := S)); [done|].
    unfold SHORT_MAX in *. case_match; lia. }
  revert fuel. induction e as [|c m stack cause IH]; intros [|fuel] Hok Hfuel;
    cbn [error_depth] in Hfuel; try lia;
    cbn [looseUnmarshalBrokerError loose_error transmitted]; peel.
  { apply (parses_bind _ _ [0] [] false); [apply (parses_readBoolean 0)|apply parses_ret]. }
  destruct Hok as (C%Hstr & M%Hstr & Hrest).
  apply (parses_bind _ _ [1] _ true); [apply (parses_readBoolean 1)|].
  do 2 (eapply parses_bind; [eassumption|]).
  destruct isStackTraceEnabled; [|apply parses_ret].
  destruct Hrest as (Hstack & Hlen & Hcause). pose proof (zlen_nonneg stack).
  eapply parses_bind; [apply codec_short; zlia|].
  eapply parses_bind.
  { unfold zlen at 1. rewrite Nat2Z.id. apply parses_repeat_m.
    eapply Forall_impl; [|exact Hstack]. intros e He. by apply codec_loose_element. }
  rewrite <- (app_nil_r (loose_error _ _)).
  eapply parses_bind; [apply IH; [done|lia]|].
  eapply parses_eq; [apply parses_ret|done|]. by destruct cause.
Qed.
End error_specs.

(** ** Loose readers on arbitrary input *)

Section robust.
Context {S D : Type} `{WireFormat S D} `{InputStreamLaws S}.

Lemma bounded_looseUnmarshalString k : bounded (S := S) k 1 looseUnmarshalString.
Proof. unfold looseUnmarshalString. bound. Qed.

Lemma bounded_looseUnmarshalByteArray k : bounded (S := S) k 1 looseUnmarshalByteArray.
Proof. unfold looseUnmarshalByteArray, read_array. bound. Qed.

Lemma bounded_loose_read_element k : bounded (S := S) k 7 loose_read_element.
Proof.
  unfold loose_read_element.
  repeat (eapply bounded_step; [apply bounded_looseUnmarshalString|lia|intros ?]). bound.
Qed.

(** Each level of the chain takes a byte: a reader with more fuel than there are
    bytes to go does not run out of it. *)
Lemma bounded_looseUnmarshalBrokerError fuel k :
  k <= Z.of_nat fuel -> bounded (S := S) k 1 (looseUnmarshalBrokerError fuel).
Proof.
  revert k. induction fuel as [|fuel IH]; intros k Hk.
  { intros d _ Hd. pose proof (zlen_nonneg (avail d)). lia. }
  cbn [looseUnmarshalBrokerError].
  apply bounded_catch_io. eapply bounded_step; [apply bounded_readBoolean|lia|intros b].
  apply bounded_if; intros _; [|bound].
  do 2 (eapply bounded_step; [apply bounded_looseUnmarshalString|lia|intros ?]).
  apply bounded_if; intros _; [|bound].
  eapply bounded_step; [apply bounded_readShort|lia|intros length].
  eapply bounded_step; [apply bounded_repeat;
    eapply bounded_weaken; [apply bounded_loose_read_element|reflexivity|lia]|lia|intros stack].
  eapply bounded_step; [apply IH; lia|lia|intros cause]. bound.
Qed.
End robust.

(** ** Arrays of nested objects *)

Section object_specs.
Context {S D : Type} `{WireFormat S D} `{InputStreamLaws S}.

(** The three tight operations of the wire format agree on an object. *)
Definition nested_ok (o : option D) (w : list bool) (bs : list Z) : Prop :=
  tight_codec (S := S) nested_tightMarshal1 nested_tightMarshal2 nested_tightUnmarshal o w bs.

Definition objects_flags (fl : option D -> list bool) (objects : list (option D)) : list bool :=
  bool_decide (objects <> []) :: (objects ≫= fl).
Definition objects_bytes (enc : option D -> list Z) (objects : list (option D)) : list Z :=
  if bool_decide (objects = []) then [] else be_bytes 2 (zlen objects) ++ (objects ≫= enc).

Lemma tight_codec_objects fl enc objects :
  Forall (fun o => nested_ok o (fl o) (enc o)) objects -> zlen objects <= SHORT_MAX ->
  tight_codec (S := S) tightMarshalObjectArray1 tightMarshalObjectArray2 tight_read_objects
    objects (objects_flags fl objects) (objects_bytes enc objects).
Proof.
  intros Hall Hlen. pose proof (zlen_nonneg objects).
  unfold tight_codec, tightMarshalObjectArray1, tightMarshalObjectArray2,
    tight_read_objects, objects_flags, objects_bytes.
  destruct (decide (objects = [])) as [->|Hne].
  { repeat split; peel; flag; [apply sizes_ret|apply emits2_ret|apply parses2_ret]. }
  rewrite (bool_decide_eq_true_2 (objects <> [])), bool_decide_eq_false_2 by done.
  repeat split; peel.
  - destruct objects as [|o l]; [done|]. cbv zeta. cbn [bool_decide].
    flag. eapply sizes_eq; [apply (sizes_sum_m _ fl enc)|done|].
    + eapply Forall_impl; [|exact Hall]. intros x (Hx & _). by apply sizes_catch_io.
    + autorewrite with amq_len. lia.
  - flag. rewrite wraps_id by zlia.
    apply (emits2_bind _ _ [] _ (be_bytes 2 (zlen objects)) _ tt).
    { apply emits2_fst, emits_writeShort. }
    apply emits2_iter_m. eapply Forall_impl; [|exact Hall].
    intros x (_ & Hx & _). by apply emits2_catch_io.
  - flag. apply (parses2_bind _ _ [] _ (be_bytes 2 (zlen objects)) _ (zlen objects)).
    { apply parses2_fst, codec_short. zlia. }
    zcmp. unfold zlen at 1. rewrite Nat2Z.id. apply parses2_repeat_m.
    eapply Forall_impl; [|exact Hall]. intros x (_ & _ & Hx). by apply parses2_catch_io.
Qed.
End object_specs.

(** ** Properties *)

(** Tight fields: the size the first pass announces is the size the second pass
    writes, the flags it writes are the ones the second pass and the reader consume,
    and the reader gets the string back. *)
Theorem tight_string_roundtrip {S} `{InputStreamLaws S} value :
  string_ok value ->
  exists w bs,
    sizes (tightMarshalString1 value) w (zlen bs) /\
    emits2 (tightMarshalString2 value) w bs tt /\
    parses2 (S := S) tightUnmarshalString w bs value.
Proof. intros Hv. eexists _, _. by apply tight_codec_string. Qed.

Lemma tight_string_roundtrip_witness :
  exists w bs,
    sizes (tightMarshalString1 [104; 233]) w (zlen bs) /\
    emits2 (tightMarshalString2 [104; 233]) w bs tt /\
    parses2 (S := list (list Z)) tightUnmarshalString w bs [104; 233].
Proof. apply tight_string_roundtrip. split; [repeat constructor; by vm_compute|by vm_compute]. Defined.

(** Every 64-bit integer survives its variable-width form, which takes 0, 2, 4 or
    8 bytes; negative numbers always take 8. *)
Theorem tight_long_roundtrip {S} `{InputStreamLaws S} value :
  in_s 64 value ->
  exists w bs,
    sizes (tightMarshalLong1 value) w (zlen bs) /\
    emits2 (tightMarshalLong2 value) w bs tt /\
    parses2 (S := S) tightUnmarshalLong w bs value /\
    zlen bs = (if value =? 0 then 0 else if value <? 0 then 8
               else if value <? 2 ^ 16 then 2 else if value <? 2 ^ 32 then 4 else 8).
Proof.
  intros Hv. destruct (tight_codec_long (S := S) value Hv) as (?&?&?).
  exists (long_flags value), (long_bytes value). split_and!; [done..|].
  unfold long_bytes, wrapu, in_s in *.
  destruct (Z.eqb_spec value 0); [done|]. destruct (Z.ltb_spec value 0).
  - by zcmp.
  - rewrite Z.mod_small by lia. by repeat case_match.
Qed.

Lemma tight_long_roundtrip_witness :
  exists w bs,
    sizes (tightMarshalLong1 70000) w (zlen bs) /\
    emits2 (tightMarshalLong2 70000) w bs tt /\
    parses2 (S := list (list Z)) tightUnmarshalLong w bs 70000 /\
    zlen bs = (if 70000 =? 0 then 0 else if 70000 <? 0 then 8
               else if 70000 <? 2 ^ 16 then 2 else if 70000 <? 2 ^ 32 then 4 else 8).
Proof. by apply tight_long_roundtrip. Defined.

(** An ASCII string of 32768 to 65535 characters passes the first pass's length
    check and is written, but the reader takes the length for a signed short: it
    returns the empty string and leaves the characters in the stream. *)
Theorem tight_string_misread {S} `{InputStreamLaws S} value :
  is_ascii value = true -> SHORT_MAX < zlen value <= 65535 ->
  sizes (tightMarshalString1 value) [true; true] (zlen (string_bytes value)) /\
  emits2 (tightMarshalString2 value) [true; true] (be_bytes 2 (zlen value) ++ value) tt /\
  parses2 (S := S) tightUnmarshalString [true; true] (be_bytes 2 (zlen value)) [].
Proof.
  intros Ha Hlen. pose proof (utf_encode_ascii value Ha) as Henc.
  assert (bytes_ok value) as Hok.
  { unfold is_ascii in Ha. rewrite forallb_forall in Ha. apply List.Forall_forall.
    intros c Hc. apply Ha in Hc. apply andb_prop in Hc as [?%Z.leb_le ?%Z.leb_le].
    unfold in_u. lia. }
  assert (non_empty value = true) as He.
  { unfold non_empty. unfold SHORT_MAX in *. by zcmp. }
  unfold SHORT_MAX in *. split_and!.
  - unfold tightMarshalString1, string_bytes. rewrite He, tight_string_loop_spec, Henc, Ha by done.
    peel. flag. zcmp. flag. eapply sizes_eq; [apply sizes_ret|done|].
    autorewrite with amq_len. lia.
  - unfold tightMarshalString2. peel. flag. flag. apply emits2_fst.
    eapply emits_bind; [|apply emits_writeBytes; unfold INT_MAX; lia].
    rewrite <- (be_bytes_s 16 2) by lia. apply emits_writeShort.
  - unfold tightUnmarshalString. peel. flag. flag. apply parses2_fst.
    unfold readAsciiString. peel. rewrite <- (app_nil_r (be_bytes _ _)).
    rewrite <- (be_bytes_s 16 2) by lia.
    eapply parses_bind; [apply codec_short, wraps_range; lia|].
    unfold wraps. zcmp. apply parses_ret.
Qed.

Lemma tight_string_misread_witness :
  let value := List.repeat 65 (Z.to_nat 40000) in
  sizes (tightMarshalString1 value) [true; true] (zlen (string_bytes value)) /\
  emits2 (tightMarshalString2 value) [true; true] (be_bytes 2 (zlen value) ++ value) tt /\
  parses2 (S := list (list Z)) tightUnmarshalString [true; true] (be_bytes 2 (zlen value)) [].
Proof.
  apply (tight_string_misread (S := list (list Z)) (List.repeat 65 (Z.to_nat 40000)));
    by vm_compute.
Defined.

(** C36: A broker error with its stack trace and its chain of causes survives both
    encodings, with as many calls as the chain is long; without stack traces its
    class and message do. *)
Theorem broker_error_roundtrip {S D} `{WireFormat S D} `{InputStreamLaws S} e fuel :
  error_ok isStackTraceEnabled e -> (error_depth e <= fuel)%nat ->
  (exists w bs,
    sizes (tightMarshalBrokerError1 e) w (zlen bs) /\
    emits2 (tightMarshalBrokerError2 e) w bs tt /\
    parses2 (S := S) (tightUnmarshalBrokerError fuel) w bs (transmitted isStackTraceEnabled e)) /\
  (exists bs,
    emits (looseMarshalBrokerError e) bs tt /\
    parses (S := S) (looseUnmarshalBrokerError fuel) bs (transmitted isStackTraceEnabled e)).
Proof.
  intros Hok Hf. split.
  - exists (error_flags isStackTraceEnabled e), (error_bytes isStackTraceEnabled e).
    split_and!; [by apply (sizes_error (S := S))|by apply (emits2_error (S := S))|by apply parses2_error].
  - eexists. split; [by apply (emits_loose_error (S := S))|by apply parses_loose_error].
Qed.

(** A wire format for the witnesses, without nested objects. *)
Definition traces_format (traces : bool) : WireFormat (list (list Z)) unit := {|
  wireVersion := 11;
  isStackTraceEnabled := traces;
  nested_tightMarshal1 _ := ret 0;
  nested_tightMarshal2 _ := ret tt;
  nested_tightUnmarshal := ret None;
  nested_looseMarshal _ := ret tt;
  nested_looseUnmarshal := ret None;
|}.

Definition sample_error : BrokerError :=
  Error [69] [109; 115; 103] [mkSTE [67] [70] [77] 42] (Error [70] [] [] NoError).

Lemma broker_error_roundtrip_witness :
  (exists w bs,
    sizes (tightMarshalBrokerError1 (H := traces_format true) sample_error) w (zlen bs) /\
    emits2 (tightMarshalBrokerError2 (H := traces_format true) sample_error) w bs tt /\
    parses2 (tightUnmarshalBrokerError (H := traces_format true) 3) w bs sample_error) /\
  (exists bs,
    emits (looseMarshalBrokerError (H := traces_format true) sample_error) bs tt /\
    parses (looseUnmarshalBrokerError (H := traces_format true) 3) bs sample_error).
Proof.
  apply (broker_error_roundtrip (H := traces_format true) sample_error 3).
  - repeat split; cbn; repeat constructor; by vm_compute.
  - by vm_compute.
Defined.

(** Reading a loose broker error terminates safely on any input: with fuel for the
    bytes at hand, whatever they are, it returns or throws an [IOException], never
    looping and never stepping outside defined behaviour. *)
Theorem loose_error_total {S D} `{WireFormat S D} `{InputStreamLaws S}
    (d : DataInputStream S) fuel :
  ready d -> zlen (avail d) < Z.of_nat fuel ->
  exists r d', looseUnmarshalBrokerError fuel d = (r, d') /\ ready d' /\
    match r with Ok _ => zlen (avail d') < zlen (avail d) | Throw e => is_io e = true | _ => False end.
Proof.
  intros Hd Hf.
  destruct (bounded_looseUnmarshalBrokerError fuel (Z.of_nat fuel) ltac:(lia) d Hd Hf)
    as (d' & Hd' & [(e & E & Ha)|(x & E)]).
  - exists (Ok e), d'. split_and!; [done|done|lia].
  - exists (Throw x), d'. split_and!; [done|done|].
    destruct fuel as [|fuel]; [done|]. cbn [looseUnmarshalBrokerError] in E.
    by apply catch_io_is_io in E.
Qed.

Lemma loose_error_total_witness :
  let d := mkDIS (Some [[1; 1; 0; 1]; [65; 7]]) in
  exists r d', looseUnmarshalBrokerError (H := traces_format true) 10 d = (r, d') /\ ready d' /\
    match r with Ok _ => zlen (avail d') < zlen (avail d) | Throw e => is_io e = true | _ => False end.
Proof.
  apply (loose_error_total (H := traces_format true) (mkDIS (Some [[1; 1; 0; 1]; [65; 7]])) 10);
    [by eexists|by vm_compute].
Defined.

(** An array of objects survives if its elements do, up to the length a short
    counts: flags, length and elements, in order. *)
Theorem object_array_roundtrip {S D} `{WireFormat S D} `{InputStreamLaws S}
    (fl : option D -> list bool) (enc : option D -> list Z) objects :
  Forall (fun o => nested_ok o (fl o) (enc o)) objects -> zlen objects <= SHORT_MAX ->
  exists w bs,
    sizes (tightMarshalObjectArray1 objects) w (zlen bs) /\
    emits2 (tightMarshalObjectArray2 objects) w bs tt /\
    parses2 (S := S) tight_read_objects w bs objects.
Proof. intros. eexists _, _. by apply tight_codec_objects. Qed.

Lemma object_array_roundtrip_witness :
  exists w bs,
    sizes (tightMarshalObjectArray1 (H := traces_format true) [None; None]) w (zlen bs) /\
    emits2 (tightMarshalObjectArray2 (H := traces_format true) [None; None]) w bs tt /\
    parses2 (tight_read_objects (H := traces_format true)) w bs [None; None].
Proof.
  apply (object_array_roundtrip (H := traces_format true) (fun _ => []) (fun _ => []) [None; None]);
    [|by vm_compute].
  assert (nested_ok (H := traces_format true) None [] []) as Hn.
  { split_and!; [apply sizes_ret|apply emits2_ret|apply parses2_ret]. }
  constructor; [exact Hn|constructor; [exact Hn|constructor]].
Defined.
