(* ===== verification/StlMap.v ===== *)
(** * decaf::util::StlMap (decaf/util/StlMap.h) with string keys.

    The underlying std::map is the list of its entries in the order of the keys
    ([std::less<std::string>] compares the bytes).  [abs] is the finite map the
    entries stand for: the operations refine stdpp's. *)
From S2P Require Import Prelude.
From stdpp Require Import gmap sorting.
#[local] Open Scope Z_scope.

Definition key : Type := list Z.

(** [std::string::compare] on bytes. *)
Fixpoint key_ltb (a b : key) : bool :=
  match a, b with
  | _, [] => false
  | [], _ :: _ => true
  | x :: a', y :: b' => (x <? y) || ((x =? y) && key_ltb a' b')
  end.

(** ** std::map *)

Section std_map.
Context {V : Type}.

Definition std_map : Type := list (key * V).

Fixpoint map_find (k : key) (m : std_map) : option V :=
  match m with
  | [] => None
  | (k', v) :: m' => if decide (k = k') then Some v else map_find k m'
  end.

(** [m[k] = v] *)
Fixpoint map_set (k : key) (v : V) (m : std_map) : std_map :=
  match m with
  | [] => [(k, v)]
  | (k', v') :: m' =>
      if decide (k = k') then (k, v) :: m'
      else if key_ltb k k' then (k, v) :: m
      else (k', v') :: map_set k v m'
  end.

Fixpoint map_erase (k : key) (m : std_map) : std_map :=
  match m with
  | [] => []
  | (k', v) :: m' => if decide (k = k') then m' else (k', v) :: map_erase k m'
  end.

(** [m.insert(first, last)]: a key that is there already keeps its value. *)
Definition map_insert_range (entries m : std_map) : std_map :=
  fold_left (fun acc '(k, v) =>
    match map_find k acc with Some _ => acc | None => map_set k v acc end) entries m.

Definition entry_lt (p q : key * V) : Prop := key_ltb p.1 q.1 = true.
Definition map_wf (m : std_map) : Prop := StronglySorted entry_lt m.

(** The finite map the entries stand for. *)
Definition abs (m : std_map) : gmap key V := list_to_map m.

End std_map.
Arguments std_map V : clear implicits.

(** ** StlMap *)

Record StlMap (V : Type) : Type := mkStlMap {
  valueMap : std_map V;
  modCount : Z;
}.
Arguments mkStlMap {V} _ _.
Arguments valueMap {V} _.
Arguments modCount {V} _.

Section stl_map.
Context {V : Type}.
Implicit Types (s : StlMap V).

Definition StlMap_new : StlMap V := mkStlMap [] 0.

Definition containsKey (k : key) s : bool :=
  match map_find k (valueMap s) with Some _ => true | None => false end.

Definition isEmpty s : bool := match valueMap s with [] => true | _ => false end.
Definition size s : Z := s32 (zlen (valueMap s)).

Definition get_ (k : key) s : outcome V :=
  match map_find k (valueMap s) with Some v => Ok v | None => Throw NoSuchElementException end.

Definition put_ (k : key) (v : V) : M (StlMap V) bool := fun s =>
  (Ok (containsKey k s), mkStlMap (map_set k v (valueMap s)) (modCount s + 1)).

(** [put(key, value, oldValue)]: the result and what [oldValue] is set to. *)
Definition put_old (k : key) (v : V) : M (StlMap V) (option V) := fun s =>
  (Ok (map_find k (valueMap s)), mkStlMap (map_set k v (valueMap s)) (modCount s + 1)).

Definition remove_ (k : key) : M (StlMap V) V := fun s =>
  match map_find k (valueMap s) with
  | None => (Throw NoSuchElementException, s)
  | Some v => (Ok v, mkStlMap (map_erase k (valueMap s)) (modCount s + 1))
  end.

Definition clear_ s : StlMap V := mkStlMap [] (modCount s).

(** [putAll(const StlMap& )] and [putAll(const Map& )]: two implementations. *)
Definition putAll_stl (other s : StlMap V) : StlMap V :=
  mkStlMap (map_insert_range (valueMap other) (valueMap s)) (modCount s + 1).

Definition putAll_map (other : StlMap V) : M (StlMap V) unit :=
  iter_m (fun '(k, _) =>
    match get_ k other with
    | Ok v => put_ k v ;;; ret tt
    | Throw e => throw e
    | _ => undefined
    end) (valueMap other).

(** [copy(const Map& )] *)
Definition copy_map (other : StlMap V) : M (StlMap V) unit :=
  modify clear_ ;;; putAll_map other.

Definition copy_stl (other s : StlMap V) : StlMap V :=
  mkStlMap (map_insert_range (valueMap other) []) (modCount s).

Section equality.
(** [operator==] of the values. *)
Variable veq : V -> V -> bool.

Definition containsValue (v : V) s : bool := existsb (fun '(_, w) => veq w v) (valueMap s).

(** [equals(const Map& )]: the loop looks the key up in [this] where it means
    [source], whose [get] then throws. *)
Fixpoint equals_loop (keys : list key) s (source : StlMap V) : outcome bool :=
  match keys with
  | [] => Ok true
  | k :: keys' =>
      if negb (containsKey k s) then Ok false
      else
        match get_ k s, get_ k source with
        | Ok v, Ok w => if negb (veq v w) then Ok false else equals_loop keys' s source
        | Ok _, r => match r with Throw e => Throw e | _ => UB end
        | r, _ => match r with Throw e => Throw e | _ => UB end
        end
  end.
Definition equals_map s (source : StlMap V) : outcome bool :=
  equals_loop (map fst (valueMap s)) s source.
End equality.
End stl_map.
Arguments StlMap_new {V}.

(** ** The order of the keys *)

Lemma key_ltb_irrefl a : key_ltb a a = false.
Proof. induction a as [|x a IH]; [done|]. cbn. by rewrite Z.ltb_irrefl, Z.eqb_refl, IH. Qed.

Lemma key_ltb_trans a b c : key_ltb a b = true -> key_ltb b c = true -> key_ltb a c = true.
Proof.
  revert b c. induction a as [|x a IH]; intros [|y b] [|z c]; cbn; try done.
  intros [H1|[H1 H1']%andb_prop]%orb_prop [H2|[H2 H2']%andb_prop]%orb_prop.
  - rewrite (proj2 (Z.ltb_lt x z)) by lia. done.
  - rewrite (proj2 (Z.ltb_lt x z)) by lia. done.
  - rewrite (proj2 (Z.ltb_lt x z)) by lia. done.
  - rewrite (IH b c), (proj2 (Z.eqb_eq x z)) by (done || lia). by rewrite orb_true_r.
Qed.

Lemma key_ltb_total a b : a <> b -> key_ltb a b = false -> key_ltb b a = true.
Proof.
  revert b. induction a as [|x a IH]; intros [|y b] Hne; cbn; try done.
  intros [H1 H2]%orb_false_iff. destruct (Z.eqb_spec x y) as [->|].
  - rewrite Z.eqb_refl. cbn [andb] in *. rewrite IH; [by rewrite orb_true_r|congruence|done].
  - rewrite (proj2 (Z.ltb_lt y x)) by lia. done.
Qed.

#[export] Instance entry_lt_trans V : Transitive (entry_lt (V := V)).
Proof. intros p q r. apply key_ltb_trans. Qed.

(** ** Refinement of finite maps *)

Section refinement.
Context {V : Type}.
Implicit Types (m : std_map V).

Lemma map_find_abs k m : map_find k m = abs m !! k.
Proof.
  unfold abs. induction m as [|[k' v] m IH]; [done|]. cbn. destruct (decide (k = k')) as [->|].
  - by rewrite lookup_insert_eq.
  - by rewrite lookup_insert_ne.
Qed.

(** A key before the first entry is not in the map. *)
Lemma map_find_before k m :
  map_wf m -> Forall (fun p => key_ltb k p.1 = true) m -> map_find k m = None.
Proof.
  intros _. induction 1 as [|[k' v] m Hk Hm IH]; [done|]. cbn in *.
  rewrite decide_False; [done|]. intros ->. by rewrite key_ltb_irrefl in Hk.
Qed.

Lemma Forall_map_set (P : key * V -> Prop) k v m :
  P (k, v) -> Forall P m -> Forall P (map_set k v m).
Proof.
  intros Hk. induction 1 as [|[k' v'] m Hp Hm IH]; cbn; [by constructor|].
  repeat case_match; by repeat constructor.
Qed.

Lemma map_set_wf k v m : map_wf m -> map_wf (map_set k v m).
Proof.
  induction 1 as [|[k' v'] m Hm IH Hall]; cbn.
  { apply SSorted_cons; constructor. }
  destruct (decide (k = k')) as [->|Hne]; [by constructor|].
  destruct (key_ltb k k') eqn:E.
  - constructor; [by constructor|]. constructor; [done|].
    eapply Forall_impl; [exact Hall|]. intros p Hp. eapply entry_lt_trans; [|exact Hp]. done.
  - constructor; [done|]. apply Forall_map_set; [|done]. apply key_ltb_total; [done|done].
Qed.

Lemma abs_map_set k v m : abs (map_set k v m) = <[k := v]> (abs m).
Proof.
  unfold abs. induction m as [|[k' v'] m IH]; [done|]. cbn.
  destruct (decide (k = k')) as [->|Hne]; [by rewrite insert_insert_eq|].
  destruct (key_ltb k k'); [done|]. cbn. rewrite IH. by apply insert_insert_ne.
Qed.

Lemma map_erase_incl k m p : In p (map_erase k m) -> In p m.
Proof.
  induction m as [|[k' v] m IH]; [done|]. cbn. case_match; [auto|]. intros [->|]; auto.
Qed.

Lemma map_erase_wf k m : map_wf m -> map_wf (map_erase k m).
Proof.
  induction 1 as [|[k' v'] m Hm IH Hall]; cbn; [constructor|].
  case_match; [done|]. constructor; [done|].
  apply Forall_forall. intros p Hp. apply list_elem_of_In, map_erase_incl in Hp.
  by eapply Forall_forall in Hall; [|by apply list_elem_of_In].
Qed.

Lemma abs_map_erase k m : map_wf m -> abs (map_erase k m) = delete k (abs m).
Proof.
  unfold abs. induction 1 as [|[k' v'] m Hm IH Hall]; cbn; [by rewrite delete_empty|].
  destruct (decide (k = k')) as [->|Hne].
  - rewrite delete_insert_eq. symmetry. apply delete_id.
    change (list_to_map m) with (abs m). rewrite <- map_find_abs. by apply map_find_before.
  - cbn. by rewrite IH, delete_insert_ne.
Qed.

Lemma map_insert_range_wf es m : map_wf m -> map_wf (map_insert_range es m).
Proof.
  revert m. induction es as [|[k v] es IH]; intros m Hm; [done|]. cbn. apply IH.
  case_match; [done|]. by apply map_set_wf.
Qed.

Lemma abs_insert_range es m : abs (map_insert_range es m) = abs m ∪ abs es.
Proof.
  revert m. induction es as [|[k v] es IH]; intros m.
  { change (abs []) with (∅ : gmap key V). cbn. by rewrite (right_id_L ∅ _). }
  change (map_insert_range ((k, v) :: es) m) with
    (map_insert_range es (match map_find k m with Some _ => m | None => map_set k v m end)).
  change (abs ((k, v) :: es)) with (<[k := v]> (abs es)).
  rewrite map_find_abs. destruct (abs m !! k) as [w|] eqn:E.
  - rewrite IH. apply map_eq. intros j. rewrite !lookup_union.
    destruct (decide (j = k)) as [->|]; [|by rewrite lookup_insert_ne].
    rewrite E, lookup_insert_eq. by destruct (abs es !! k).
  - rewrite IH, abs_map_set. rewrite <- insert_union_l. by rewrite insert_union_r.
Qed.

(** The entries are determined by the finite map: two well-formed maps with the
    same contents are equal, so copies rebuilt key by key are the same map. *)
Lemma abs_lookup_head k v m : abs ((k, v) :: m) !! k = Some v.
Proof. apply lookup_insert_eq. Qed.

Lemma abs_below k m : map_wf m -> Forall (fun p => key_ltb k p.1 = true) m -> abs m !! k = None.
Proof. intros. rewrite <- map_find_abs. by apply map_find_before. Qed.

Lemma abs_inj m1 m2 : map_wf m1 -> map_wf m2 -> abs m1 = abs m2 -> m1 = m2.
Proof.
  intros H1. revert m2. induction H1 as [|[k v] m Hm IH Hall]; intros m2 H2 Heq.
  { destruct m2 as [|[k' v'] m2]; [done|]. exfalso.
    assert (abs (V := V) [] !! k' = Some v') as H by (rewrite Heq; apply abs_lookup_head). done. }
  destruct H2 as [|[k' v'] m2 Hm2 Hall2].
  { exfalso. assert (abs (V := V) [] !! k = Some v) as H by (rewrite <- Heq; apply abs_lookup_head).
    done. }
  assert (k = k') as <-.
  { destruct (decide (k = k')) as [|Hne]; [done|exfalso].
    destruct (key_ltb k k') eqn:E.
    - assert (abs ((k', v') :: m2) !! k = None) as HN; [|by rewrite <- Heq, abs_lookup_head in HN].
      apply abs_below; [by constructor|]. constructor; [done|].
      eapply Forall_impl; [exact Hall2|]. intros p. by apply key_ltb_trans.
    - apply key_ltb_total in E; [|done].
      assert (abs ((k, v) :: m) !! k' = None) as HN; [|by rewrite Heq, abs_lookup_head in HN].
      apply abs_below; [by constructor|]. constructor; [done|].
      eapply Forall_impl; [exact Hall|]. intros p. by apply key_ltb_trans. }
  assert (v = v') as <-.
  { assert (Some v = Some v') by (rewrite <- (abs_lookup_head k v m), Heq; apply abs_lookup_head).
    congruence. }
  f_equal. apply IH; [done|].
  rewrite <- (delete_insert_id (abs m) k v), <- (delete_insert_id (abs m2) k v);
    [by f_equal|by apply abs_below|by apply abs_below].
Qed.
End refinement.

(** ** The operations of StlMap *)

Section operations.
Context {V : Type}.
Implicit Types (s : StlMap V) (m : std_map V).

Definition contents s : gmap key V := abs (valueMap s).
Definition well_formed s : Prop := map_wf (valueMap s).

Lemma map_find_elem m k v : map_wf m -> In (k, v) m -> map_find k m = Some v.
Proof.
  induction 1 as [|[k' v'] m Hm IH Hall]; [done|]. intros [Heq|Hin]; cbn.
  { injection Heq as -> ->. by rewrite decide_True. }
  rewrite decide_False; [by apply IH|]. intros ->.
  rewrite Forall_forall in Hall. apply list_elem_of_In, Hall in Hin.
  unfold entry_lt in Hin. cbn in Hin. by rewrite key_ltb_irrefl in Hin.
Qed.

Lemma well_formed_new : well_formed StlMap_new.
Proof. constructor. Qed.

Lemma containsKey_spec k s : containsKey k s = bool_decide (is_Some (contents s !! k)).
Proof.
  unfold containsKey, contents. rewrite map_find_abs.
  destruct (abs (valueMap s) !! k); [by rewrite bool_decide_eq_true_2|].
  by rewrite bool_decide_eq_false_2 by apply is_Some_None.
Qed.

Lemma get_spec k s :
  get_ k s = match contents s !! k with Some v => Ok v | None => Throw NoSuchElementException end.
Proof. unfold get_, contents. by rewrite map_find_abs. Qed.

Lemma put_spec k v s :
  well_formed s ->
  exists s', put_ k v s = (Ok (containsKey k s), s') /\ well_formed s' /\
    contents s' = <[k := v]> (contents s) /\ modCount s' = modCount s + 1.
Proof.
  intros Hs. eexists. split; [done|]. split; [by apply map_set_wf|].
  split; [apply abs_map_set|done].
Qed.

Lemma remove_spec k s :
  well_formed s ->
  match contents s !! k with
  | None => remove_ k s = (Throw NoSuchElementException, s)
  | Some v => exists s', remove_ k s = (Ok v, s') /\ well_formed s' /\
      contents s' = delete k (contents s) /\ modCount s' = modCount s + 1
  end.
Proof.
  intros Hs. unfold remove_, contents. rewrite map_find_abs. case_match; [|done].
  eexists. split; [done|]. split; [by apply map_erase_wf|].
  split; [by apply abs_map_erase|done].
Qed.

Lemma putAll_stl_spec other s :
  well_formed s ->
  well_formed (putAll_stl other s) /\
  contents (putAll_stl other s) = contents s ∪ contents other.
Proof. intros Hs. split; [by apply map_insert_range_wf|apply abs_insert_range]. Qed.

Lemma putAll_loop l other s :
  map_wf l -> well_formed s -> (forall k v, In (k, v) l -> get_ k other = Ok v) ->
  exists s', iter_m (fun '(k, _) =>
      match get_ k other with
      | Ok v => put_ k v ;;; ret tt
      | Throw e => throw e
      | _ => undefined
      end) l s = (Ok tt, s') /\ well_formed s' /\ contents s' = abs l ∪ contents s.
Proof.
  intros Hl. revert s. induction Hl as [|[k v] l Hl IH Hall]; intros s Hs Hget.
  { exists s. split_and!; [done|done|]. change (abs []) with (∅ : gmap key V).
    by rewrite (left_id_L ∅ _). }
  cbn [iter_m]. rewrite (Hget k v) by by left.
  destruct (put_spec k v s Hs) as (s1 & E & Hs1 & Hc & _).
  destruct (IH s1 Hs1) as (s2 & E2 & Hs2 & Hc2); [intros; apply Hget; by right|].
  exists s2. rewrite (bind_ok _ _ _ tt s1) by by rewrite (bind_ok _ _ _ _ _ E).
  split_and!; [done|done|]. rewrite Hc2, Hc.
  change (abs ((k, v) :: l)) with (<[k := v]> (abs l)).
  rewrite <- insert_union_l. symmetry. apply insert_union_r. by apply abs_below.
Qed.

Lemma putAll_map_spec other s :
  well_formed other -> well_formed s ->
  exists s', putAll_map other s = (Ok tt, s') /\ well_formed s' /\
    contents s' = contents other ∪ contents s.
Proof.
  intros Ho Hs. apply putAll_loop; [done|done|]. intros k v Hin.
  unfold get_. by rewrite (map_find_elem _ k v).
Qed.

Lemma copy_map_spec other s :
  well_formed other ->
  exists s', copy_map other s = (Ok tt, s') /\ valueMap s' = valueMap other.
Proof.
  intros Ho. destruct (putAll_map_spec other (clear_ s)) as (s' & E & Hs' & Hc); [done|constructor|].
  exists s'. split; [done|]. apply abs_inj; [done..|].
  unfold contents in Hc. rewrite Hc. change (abs (valueMap (clear_ s))) with (∅ : gmap key V).
  by rewrite (right_id_L ∅ _).
Qed.

(** [equals(const Map& )] tests inclusion, not equality. *)
Lemma equals_loop_true veq keys s source :
  (forall v w, veq v w = true <-> v = w) ->
  equals_loop veq keys s source = Ok true <->
  Forall (fun k => exists v, contents s !! k = Some v /\ contents source !! k = Some v) keys.
Proof.
  intros Hveq. induction keys as [|k keys IH]; cbn [equals_loop]; [done|].
  rewrite Forall_cons, <- IH, containsKey_spec, !get_spec.
  destruct (contents s !! k) as [v|] eqn:Es; cycle 1.
  { rewrite bool_decide_eq_false_2 by apply is_Some_None.
    split; [done|]. by intros [(x & [=] & _) _]. }
  rewrite bool_decide_eq_true_2 by done. cbn [negb].
  destruct (contents source !! k) as [w|]; cycle 1.
  { split; [done|]. by intros [(x & _ & [=]) _]. }
  destruct (veq v w) eqn:E; cbn [negb].
  - apply Hveq in E as ->. split; [|by intros [_ ?]].
    intros ?. split; [by exists w|done].
  - split; [done|]. intros [(x & Hx & Hx') _]. simplify_eq.
    by rewrite (proj2 (Hveq x x)) in E.
Qed.


Lemma equals_map_included veq s source :
  (forall v w, veq v w = true <-> v = w) -> well_formed s ->
  equals_map veq s source = Ok true <-> contents s ⊆ contents source.
Proof.
  intros Hveq Hs. unfold equals_map. rewrite equals_loop_true by done.
  rewrite map_subseteq_spec, Forall_forall. split.
  - intros Hall k v Hk. destruct (Hall k) as (w & Hw & Hw'); [|congruence].
    unfold contents, abs in Hk. apply elem_of_list_to_map_2 in Hk.
    apply list_elem_of_In, in_map_iff. exists (k, v). split; [done|]. by apply list_elem_of_In.
  - intros Hsub k Hk. apply list_elem_of_In, in_map_iff in Hk as ([k' v] & <- & Hin).
    exists v. cbn. assert (contents s !! k' = Some v) as Hv.
    { unfold contents. rewrite <- map_find_abs. by apply map_find_elem. }
    split; [done|by apply Hsub].
Qed.
End operations.

(** ** Properties *)

(** StlMap implements the finite map from keys to values its entries stand for:
    put is insertion, get lookup, remove deletion, with the exceptions of a missing
    key, and each keeps the entries in key order without duplicates. *)
Theorem stl_map_refines {V} (s : StlMap V) k v :
  well_formed s ->
  (exists s', put_ k v s = (Ok (bool_decide (is_Some (contents s !! k))), s') /\
     well_formed s' /\ contents s' = <[k := v]> (contents s)) /\
  get_ k s = match contents s !! k with Some w => Ok w | None => Throw NoSuchElementException end /\
  match contents s !! k with
  | None => remove_ k s = (Throw NoSuchElementException, s)
  | Some w => exists s', remove_ k s = (Ok w, s') /\ well_formed s' /\
      contents s' = delete k (contents s)
  end.
Proof.
  intros Hs. split_and!.
  - destruct (put_spec k v s Hs) as (s' & E & ? & ? & _). rewrite containsKey_spec in E. by exists s'.
  - apply get_spec.
  - pose proof (remove_spec k s Hs) as Hr. case_match; [|done].
    destruct Hr as (s' & ? & ? & ? & _). by exists s'.
Qed.

Definition sample_map : StlMap Z := mkStlMap [([65], 1); ([66], 2)] 2.

Lemma sample_map_ok : well_formed sample_map.
Proof. unfold well_formed, sample_map. repeat constructor; by vm_compute. Qed.

Lemma stl_map_refines_witness :
  (exists s', put_ [65] 9 sample_map = (Ok (bool_decide (is_Some (contents sample_map !! [65]))), s') /\
     well_formed s' /\ contents s' = <[[65] := 9]> (contents sample_map)) /\
  get_ [65] sample_map =
    match contents sample_map !! [65] with Some w => Ok w | None => Throw NoSuchElementException end /\
  match contents sample_map !! [65] with
  | None => remove_ [65] sample_map = (Throw NoSuchElementException, sample_map)
  | Some w => exists s', remove_ [65] sample_map = (Ok w, s') /\ well_formed s' /\
      contents s' = delete [65] (contents sample_map)
  end.
Proof. apply stl_map_refines, sample_map_ok. Defined.

(** equals(const Map& ) is not equality: it holds whenever every entry of this map
    is in the other, whatever else the other holds; and on a key the other lacks it
    throws instead of answering false. *)
Theorem stl_map_equals_one_sided {V} (veq : V -> V -> bool) (s source : StlMap V) k v :
  (forall v w, veq v w = true <-> v = w) -> well_formed s ->
  (equals_map veq s source = Ok true <-> contents s ⊆ contents source) /\
  (valueMap s = [(k, v)] -> contents source !! k = None ->
   equals_map veq s source = Throw NoSuchElementException).
Proof.
  intros Hveq Hs. split; [by apply equals_map_included|]. intros Hs1 Hk.
  unfold equals_map. rewrite Hs1. cbn [map fst equals_loop].
  rewrite containsKey_spec, !get_spec, Hk.
  assert (contents s !! k = Some v) as ->.
  { unfold contents. rewrite Hs1. apply abs_lookup_head. }
  done.
Qed.

Lemma stl_map_equals_one_sided_witness :
  (equals_map Z.eqb (mkStlMap [([65], 1)] 1) sample_map = Ok true <->
   contents (mkStlMap [([65], 1)] 1) ⊆ contents sample_map) /\
  (valueMap (mkStlMap [([65], 1)] 1) = [([65], 1)] -> contents sample_map !! [65] = None ->
   equals_map Z.eqb (mkStlMap [([65], 1)] 1) sample_map = Throw NoSuchElementException).
Proof.
  apply stl_map_equals_one_sided.
  - apply Z.eqb_eq.
  - unfold well_formed. repeat constructor.
Defined.

(** The two overloads of putAll disagree on the keys both maps hold: putAll(const
    Map& ) takes the other map's values, as put would, putAll(const StlMap& ) keeps
    its own. *)
Theorem stl_map_putAll_overloads {V} (other s : StlMap V) :
  well_formed other -> well_formed s ->
  contents (putAll_stl other s) = contents s ∪ contents other /\
  exists s', putAll_map other s = (Ok tt, s') /\ contents s' = contents other ∪ contents s.
Proof.
  intros Ho Hs. split; [by apply putAll_stl_spec|].
  destruct (putAll_map_spec other s Ho Hs) as (s' & ? & ? & ?). by exists s'.
Qed.

Lemma stl_map_putAll_overloads_witness :
  contents (putAll_stl (mkStlMap [([65], 7)] 1) sample_map) =
    contents sample_map ∪ contents (mkStlMap [([65], 7)] 1) /\
  exists s', putAll_map (mkStlMap [([65], 7)] 1) sample_map = (Ok tt, s') /\
    contents s' = contents (mkStlMap [([65], 7)] 1) ∪ contents sample_map.
Proof.
  apply stl_map_putAll_overloads; [unfold well_formed; repeat constructor|apply sample_map_ok].
Defined.
