(* ===== verification/PrimitiveTypes.v ===== *)
(** * PrimitiveValueNode, PrimitiveMap and PrimitiveTypesMarshaller
    (activemq/util/PrimitiveValueNode.cpp, PrimitiveMap.cpp and
    wireformat/openwire/marshal/PrimitiveTypesMarshaller.cpp): the typed values of
    message properties and of map and stream message bodies.

    A node's union of a tag and a value is an inductive type; the pointers in it
    are owned copies, so values stand for them.  [float]s and [double]s are their
    bit patterns.  A value read back is [received v], not always [v]: an empty
    string comes back as a NULL node. *)
From S2P Require Import Prelude DataOutput DataInput Codec MarshallingSupport Robust StlMap.
#[local] Set Warnings "-register-all".

Inductive PrimitiveValueNode : Type :=
  | NullValue
  | BoolValue (b : bool)
  | ByteValue (v : Z)
  | CharValue (v : Z)
  | ShortValue (v : Z)
  | IntValue (v : Z)
  | LongValue (v : Z)
  | DoubleValue (v : Z)
  | FloatValue (v : Z)
  | StringValue (s : list Z)
  | ByteArrayValue (a : list Z)
  | MapValue (m : list (key * PrimitiveValueNode))
  | ListValue (l : list PrimitiveValueNode).

Definition getType (n : PrimitiveValueNode) : Z :=
  match n with
  | NullValue => NULL_TYPE
  | BoolValue _ => BOOLEAN_TYPE
  | ByteValue _ => BYTE_TYPE
  | CharValue _ => CHAR_TYPE
  | ShortValue _ => SHORT_TYPE
  | IntValue _ => INTEGER_TYPE
  | LongValue _ => LONG_TYPE
  | DoubleValue _ => DOUBLE_TYPE
  | FloatValue _ => FLOAT_TYPE
  | StringValue _ => STRING_TYPE
  | ByteArrayValue _ => BYTE_ARRAY_TYPE
  | MapValue _ => MAP_TYPE
  | ListValue _ => LIST_TYPE
  end.

(** ** The typed getters *)

Definition getBool (n : PrimitiveValueNode) : outcome bool :=
  match n with BoolValue b => Ok b | _ => Throw NoSuchElementException end.
Definition getByte (n : PrimitiveValueNode) : outcome Z :=
  match n with ByteValue v => Ok v | _ => Throw NoSuchElementException end.
Definition getChar (n : PrimitiveValueNode) : outcome Z :=
  match n with CharValue v => Ok v | _ => Throw NoSuchElementException end.
Definition getShort (n : PrimitiveValueNode) : outcome Z :=
  match n with ShortValue v => Ok v | _ => Throw NoSuchElementException end.
Definition getInt (n : PrimitiveValueNode) : outcome Z :=
  match n with IntValue v => Ok v | _ => Throw NoSuchElementException end.
Definition getLong (n : PrimitiveValueNode) : outcome Z :=
  match n with LongValue v => Ok v | _ => Throw NoSuchElementException end.
Definition getDouble (n : PrimitiveValueNode) : outcome Z :=
  match n with DoubleValue v => Ok v | _ => Throw NoSuchElementException end.
Definition getFloat (n : PrimitiveValueNode) : outcome Z :=
  match n with FloatValue v => Ok v | _ => Throw NoSuchElementException end.
Definition getString (n : PrimitiveValueNode) : outcome (list Z) :=
  match n with StringValue s => Ok s | _ => Throw NoSuchElementException end.
Definition getByteArray (n : PrimitiveValueNode) : outcome (list Z) :=
  match n with ByteArrayValue a => Ok a | _ => Throw NoSuchElementException end.
Definition getList (n : PrimitiveValueNode) : outcome (list PrimitiveValueNode) :=
  match n with ListValue l => Ok l | _ => Throw NoSuchElementException end.
Definition getMap (n : PrimitiveValueNode) : outcome (std_map PrimitiveValueNode) :=
  match n with MapValue m => Ok m | _ => Throw NoSuchElementException end.

(** ** Marshalling *)

Section marshal.
Variable marshalPrimitive : PrimitiveValueNode -> M DataOutputStream unit.

Definition marshal_entry (e : key * PrimitiveValueNode) : M DataOutputStream unit :=
  writeUTF e.1 ;;; marshalPrimitive e.2.

(** The keys in order, each with the value [map.get(key)] finds for it. *)
Definition marshal_map_with (m : std_map PrimitiveValueNode) : M DataOutputStream unit :=
  catch_io (writeInt (s32 (zlen m)) ;;; iter_m marshal_entry m).

Definition marshal_list_with (l : list PrimitiveValueNode) : M DataOutputStream unit :=
  catch_io (writeInt (s32 (zlen l)) ;;; iter_m marshalPrimitive l).
End marshal.

Fixpoint marshalPrimitive (value : PrimitiveValueNode) : M DataOutputStream unit :=
  catch_io
    match value with
    | BoolValue b => writeByte BOOLEAN_TYPE ;;; writeBoolean b
    | ByteValue v => writeByte BYTE_TYPE ;;; writeByte v
    | CharValue v => writeByte CHAR_TYPE ;;; writeChar 0 ;;; writeChar v
    | ShortValue v => writeByte SHORT_TYPE ;;; writeShort v
    | IntValue v => writeByte INTEGER_TYPE ;;; writeInt v
    | LongValue v => writeByte LONG_TYPE ;;; writeLong v
    | FloatValue v => writeByte FLOAT_TYPE ;;; writeFloat v
    | DoubleValue v => writeByte DOUBLE_TYPE ;;; writeDouble v
    | ByteArrayValue data =>
        writeByte BYTE_ARRAY_TYPE ;;;
        writeInt (s32 (zlen data)) ;;;
        if zlen data =? 0 then ret tt else write_array data
    | StringValue data =>
        let size := s32 (zlen data) in
        if size =? 0 then writeByte STRING_TYPE ;;; writeShort (s16 size)
        else if SHORT_MAX / 4 <? size then
          writeByte BIG_STRING_TYPE ;;; writeInt size ;;; write_string data
        else
          writeByte STRING_TYPE ;;; writeShort (s16 size) ;;; write_string data
    | ListValue l => writeByte LIST_TYPE ;;; marshal_list_with marshalPrimitive l
    | MapValue m => writeByte MAP_TYPE ;;; marshal_map_with marshalPrimitive m
    | NullValue => throw IOException
    end.

Definition marshalPrimitiveMap : std_map PrimitiveValueNode -> M DataOutputStream unit :=
  marshal_map_with marshalPrimitive.
Definition marshalPrimitiveList : list PrimitiveValueNode -> M DataOutputStream unit :=
  marshal_list_with marshalPrimitive.

(** [marshalMap], [marshalList]: a NULL container is the size -1. *)
Definition marshalMap (map : option (std_map PrimitiveValueNode)) : M DataOutputStream unit :=
  match map with None => writeInt (-1) | Some m => marshalPrimitiveMap m end.
Definition marshalList (l : option (list PrimitiveValueNode)) : M DataOutputStream unit :=
  match l with None => writeInt (-1) | Some l => marshalPrimitiveList l end.

(** ** Unmarshalling *)

(** A call on a local object, whose final value is the result. *)
Definition with_local {S T} (t : T) (m : M (S * T) unit) : M S T :=
  fun s =>
    let '(r, (s', t')) := m (s, t) in
    (match r with Ok _ => Ok t' | Throw e => Throw e | UB => UB | Hang => Hang end, s').

Section unmarshal.
Context {S : Type} `{InputStream S}.

Section containers.
Variable unmarshalPrimitive : M (DataInputStream S) PrimitiveValueNode.

Definition unmarshal_entry : M (DataInputStream S * std_map PrimitiveValueNode) unit :=
  k <- on_fst readUTF ;;
  v <- on_fst unmarshalPrimitive ;;
  on_snd (modify (map_set k v)).

Definition unmarshal_element : M (DataInputStream S * list PrimitiveValueNode) unit :=
  v <- on_fst unmarshalPrimitive ;;
  on_snd (modify (fun l => l ++ [v])).

Definition unmarshal_map_with : M (DataInputStream S * std_map PrimitiveValueNode) unit :=
  catch_io
    (size <- on_fst readInt ;;
     if 0 <? size then repeat_m (Z.to_nat size) unmarshal_entry ;;; ret tt else ret tt).

Definition unmarshal_list_with : M (DataInputStream S * list PrimitiveValueNode) unit :=
  catch_io
    (size <- on_fst readInt ;;
     repeat_m (Z.to_nat size) unmarshal_element ;;; ret tt).
End containers.

(** [fuel] bounds the nesting of the containers. *)
Fixpoint unmarshalPrimitive (fuel : nat) : M (DataInputStream S) PrimitiveValueNode :=
  match fuel with
  | O => hang
  | Datatypes.S fuel' =>
      catch_io
        (t <- readByte ;;
         let type := u8 t in
         if type =? NULL_TYPE then ret NullValue
         else if type =? BYTE_TYPE then v <- readByte ;; ret (ByteValue (u8 v))
         else if type =? BOOLEAN_TYPE then b <- readBoolean ;; ret (BoolValue b)
         else if type =? CHAR_TYPE then readByte ;;; v <- readChar ;; ret (CharValue v)
         else if type =? SHORT_TYPE then v <- readShort ;; ret (ShortValue v)
         else if type =? INTEGER_TYPE then v <- readInt ;; ret (IntValue v)
         else if type =? LONG_TYPE then v <- readLong ;; ret (LongValue v)
         else if type =? FLOAT_TYPE then v <- readFloat ;; ret (FloatValue v)
         else if type =? DOUBLE_TYPE then v <- readDouble ;; ret (DoubleValue v)
         else if type =? BYTE_ARRAY_TYPE then
           size <- readInt ;;
           data <- (if 0 <? size then readFully_all false size else ret []) ;;
           ret (ByteArrayValue data)
         else if type =? STRING_TYPE then
           utfLength <- readShort ;;
           if 0 <? utfLength then
             buffer <- readFully_all false utfLength ;; ret (StringValue buffer)
           else ret NullValue
         else if type =? BIG_STRING_TYPE then
           utfLength <- readInt ;;
           if 0 <? utfLength then
             buffer <- readFully_all false utfLength ;; ret (StringValue buffer)
           else ret NullValue
         else if type =? LIST_TYPE then
           l <- with_local [] (unmarshal_list_with (unmarshalPrimitive fuel')) ;;
           ret (ListValue l)
         else if type =? MAP_TYPE then
           m <- with_local [] (unmarshal_map_with (unmarshalPrimitive fuel')) ;;
           ret (MapValue m)
         else throw IOException)
  end.

Definition unmarshalPrimitiveMap (fuel : nat) :
    M (DataInputStream S * std_map PrimitiveValueNode) unit :=
  unmarshal_map_with (unmarshalPrimitive fuel).
Definition unmarshalPrimitiveList (fuel : nat) :
    M (DataInputStream S * list PrimitiveValueNode) unit :=
  unmarshal_list_with (unmarshalPrimitive fuel).

Definition unmarshalMap (fuel : nat) : M (DataInputStream S) (std_map PrimitiveValueNode) :=
  with_local [] (unmarshalPrimitiveMap fuel).
Definition unmarshalList (fuel : nat) : M (DataInputStream S) (list PrimitiveValueNode) :=
  with_local [] (unmarshalPrimitiveList fuel).
End unmarshal.

(** ** The buffer form *)

(** [marshal(map, buffer)] and [marshal(list, buffer)]: the bytes go in front of
    what the buffer holds. *)
Definition marshal_buffer (write : M DataOutputStream unit) (buffer : list Z) : outcome (list Z) :=
  match written_by write with
  | (Ok _, bs) => Ok (bs ++ buffer)
  | (Throw e, _) => Throw e
  | (UB, _) => UB
  | (Hang, _) => Hang
  end.

Definition marshal_map (map : option (std_map PrimitiveValueNode)) (buffer : list Z) :
    outcome (list Z) := marshal_buffer (marshalMap map) buffer.
Definition marshal_list (l : option (list PrimitiveValueNode)) (buffer : list Z) :
    outcome (list Z) := marshal_buffer (marshalList l) buffer.

(** [unmarshal(map, buffer)], [unmarshal(list, buffer)]: nothing happens for an
    empty buffer, otherwise the container is cleared first; what it holds after
    an exception is part of the result. *)
Definition unmarshal_map (fuel : nat) (buffer : list Z) :
    M (std_map PrimitiveValueNode) unit := fun map =>
  match buffer with
  | [] => (Ok tt, map)
  | _ =>
      let '(r, (_, map')) :=
        unmarshalPrimitiveMap fuel (mkDIS (Some (ByteArray.new buffer)), []) in
      (r, map')
  end.
Definition unmarshal_list (fuel : nat) (buffer : list Z) :
    M (list PrimitiveValueNode) unit := fun l =>
  match buffer with
  | [] => (Ok tt, l)
  | _ =>
      let '(r, (_, l')) :=
        unmarshalPrimitiveList fuel (mkDIS (Some (ByteArray.new buffer)), []) in
      (r, l')
  end.

(** ** Induction over nested values *)

Section node_ind.
Variable P : PrimitiveValueNode -> Prop.
Hypothesis flat : forall n,
  match n with MapValue _ | ListValue _ => False | _ => True end -> P n.
Hypothesis on_map : forall m, Forall (fun e => P e.2) m -> P (MapValue m).
Hypothesis on_list : forall l, Forall P l -> P (ListValue l).

Fixpoint node_ind' (n : PrimitiveValueNode) : P n :=
  match n with
  | MapValue m =>
      on_map m ((fix go m : Forall (fun e => P e.2) m :=
        match m with
        | [] => List.Forall_nil _
        | e :: m' => List.Forall_cons _ _ _ (node_ind' e.2) (go m')
        end) m)
  | ListValue l =>
      on_list l ((fix go l : Forall P l :=
        match l with
        | [] => List.Forall_nil _
        | n' :: l' => List.Forall_cons _ _ _ (node_ind' n') (go l')
        end) l)
  | n' => flat n' I
  end.
End node_ind.

(** ** The wire form of a value *)

Definition utf_bytes (s : list Z) : list Z := be_bytes 2 (zlen (utf_encode s)) ++ utf_encode s.

Fixpoint node_bytes (n : PrimitiveValueNode) : list Z :=
  match n with
  | NullValue => []
  | BoolValue b => [BOOLEAN_TYPE; if b then 1 else 0]
  | ByteValue v => [BYTE_TYPE; v]
  | CharValue v => [CHAR_TYPE; 0; u8 v]
  | ShortValue v => SHORT_TYPE :: be_bytes 2 v
  | IntValue v => INTEGER_TYPE :: be_bytes 4 v
  | LongValue v => LONG_TYPE :: be_bytes 8 v
  | DoubleValue v => DOUBLE_TYPE :: be_bytes 8 v
  | FloatValue v => FLOAT_TYPE :: be_bytes 4 v
  | StringValue s =>
      if zlen s <=? SHORT_MAX / 4 then STRING_TYPE :: be_bytes 2 (zlen s) ++ s
      else BIG_STRING_TYPE :: be_bytes 4 (zlen s) ++ s
  | ByteArrayValue a => BYTE_ARRAY_TYPE :: be_bytes 4 (zlen a) ++ a
  | MapValue m =>
      MAP_TYPE :: be_bytes 4 (zlen m) ++ (m ≫= fun e => utf_bytes e.1 ++ node_bytes e.2)
  | ListValue l => LIST_TYPE :: be_bytes 4 (zlen l) ++ (l ≫= node_bytes)
  end.

(** The value the receiver ends up with. *)
Fixpoint received (n : PrimitiveValueNode) : PrimitiveValueNode :=
  match n with
  | StringValue [] => NullValue
  | MapValue m => MapValue (map (fun e => (e.1, received e.2)) m)
  | ListValue l => ListValue (map received l)
  | n => n
  end.

Fixpoint node_depth (n : PrimitiveValueNode) : nat :=
  match n with
  | MapValue m => Datatypes.S (fold_right (fun e d => Nat.max (node_depth e.2) d) O m)
  | ListValue l => Datatypes.S (fold_right (fun n d => Nat.max (node_depth n) d) O l)
  | _ => 1
  end.

Definition key_ok (k : key) : Prop := bytes_ok k /\ zlen (utf_encode k) <= 65535.

(** The values the encoding carries: each in the range of its type, maps in key
    order with keys that fit, no NULL inside. *)
Inductive node_ok : PrimitiveValueNode -> Prop :=
  | ok_bool b : node_ok (BoolValue b)
  | ok_byte v : byte_ok v -> node_ok (ByteValue v)
  | ok_char v : in_s 8 v -> node_ok (CharValue v)
  | ok_short v : in_s 16 v -> node_ok (ShortValue v)
  | ok_int v : in_s 32 v -> node_ok (IntValue v)
  | ok_long v : in_s 64 v -> node_ok (LongValue v)
  | ok_double v : in_u 64 v -> node_ok (DoubleValue v)
  | ok_float v : in_u 32 v -> node_ok (FloatValue v)
  | ok_string s : zlen s <= INT_MAX -> node_ok (StringValue s)
  | ok_byteArray a : zlen a <= INT_MAX -> node_ok (ByteArrayValue a)
  | ok_map m : map_wf m -> zlen m <= INT_MAX -> Forall (fun e => key_ok e.1) m ->
      Forall (fun e => node_ok e.2) m -> node_ok (MapValue m)
  | ok_list l : zlen l <= INT_MAX -> Forall node_ok l -> node_ok (ListValue l).

(** The tag byte in front of a value. *)
Lemma emits_tag {A} t (m : M DataOutputStream A) bs a :
  byte_ok t -> emits m bs a -> emits (writeByte t ;;; m) (t :: bs) a.
Proof.
  intros Ht Hm. apply (emits_bind _ _ [t] bs tt); [|done].
  eapply emits_eq; [apply emits_writeByte|]. by rewrite wrapu_id.
Qed.

Lemma emits_map m :
  zlen m <= INT_MAX -> Forall (fun e => key_ok e.1) m ->
  Forall (fun e => emits (marshalPrimitive e.2) (node_bytes e.2) tt) m ->
  emits (marshalPrimitiveMap m)
    (be_bytes 4 (zlen m) ++ (m ≫= fun e => utf_bytes e.1 ++ node_bytes e.2)) tt.
Proof.
  intros Hlen Hk Hv. pose proof (zlen_nonneg m). apply emits_catch_io.
  rewrite wraps_id by zlia. eapply emits_bind; [apply emits_writeInt|].
  apply (emits_iter_m _ (fun e => utf_bytes e.1 ++ node_bytes e.2)).
  apply List.Forall_forall. intros e He. rewrite List.Forall_forall in Hk, Hv.
  eapply emits_bind; [|by apply Hv]. by apply emits_writeUTF, Hk.
Qed.

Lemma emits_list l :
  zlen l <= INT_MAX -> Forall (fun n => emits (marshalPrimitive n) (node_bytes n) tt) l ->
  emits (marshalPrimitiveList l) (be_bytes 4 (zlen l) ++ (l ≫= node_bytes)) tt.
Proof.
  intros Hlen Hv. pose proof (zlen_nonneg l). apply emits_catch_io.
  rewrite wraps_id by zlia. eapply emits_bind; [apply emits_writeInt|]. by apply emits_iter_m.
Qed.

Lemma emits_marshalPrimitive n : node_ok n -> emits (marshalPrimitive n) (node_bytes n) tt.
Proof.
  assert (forall t, (0 <=? t) && (t <? 256) = true -> byte_ok t) as Hbyte.
  { intros t [?%Z.leb_le ?%Z.ltb_lt]%andb_prop. done. }
  induction n as [n Hflat|m IH|l IH] using node_ind'; intros Hok; inversion Hok; subst;
    try done; cbn [marshalPrimitive node_bytes]; apply emits_catch_io.
  - apply emits_tag; [by apply Hbyte|]. apply emits_writeBoolean.
  - apply emits_tag; [by apply Hbyte|]. eapply emits_eq; [apply emits_writeByte|by rewrite wrapu_id].
  - apply emits_tag; [by apply Hbyte|].
    apply (emits_bind _ _ [0] [u8 v] tt); apply emits_writeChar.
  - apply emits_tag; [by apply Hbyte|]. apply emits_writeShort.
  - apply emits_tag; [by apply Hbyte|]. apply emits_writeInt.
  - apply emits_tag; [by apply Hbyte|]. apply emits_writeLong.
  - apply emits_tag; [by apply Hbyte|]. by apply (codec_double (S := ByteArray.ByteArrayInputStream)).
  - apply emits_tag; [by apply Hbyte|]. by apply (codec_float (S := ByteArray.ByteArrayInputStream)).
  - pose proof (zlen_nonneg s). cbv zeta. rewrite (wraps_id 32) by zlia.
    change (SHORT_MAX / 4) with 8191.
    destruct (Z.eqb_spec (zlen s) 0) as [Hz|].
    { rewrite (zlen_zero s) by done. apply emits_tag; [by apply Hbyte|]. apply (emits_writeShort 0). }
    destruct (Z.ltb_spec 8191 (zlen s)); zcmp; (apply emits_tag; [by apply Hbyte|]).
    + eapply emits_bind; [apply emits_writeInt|by apply emits_write_string].
    + rewrite (wraps_id 16) by zlia.
      eapply emits_bind; [apply emits_writeShort|by apply emits_write_string].
  - pose proof (zlen_nonneg a). rewrite (wraps_id 32) by zlia.
    apply emits_tag; [by apply Hbyte|]. eapply emits_bind; [apply emits_writeInt|].
    destruct (Z.eqb_spec (zlen a) 0); [rewrite (zlen_zero a) by done; apply emits_ret|].
    by apply emits_write_array.
  - apply emits_tag; [by apply Hbyte|]. apply emits_map; [done..|].
    apply List.Forall_forall. intros e He. rewrite List.Forall_forall in *. auto.
  - apply emits_tag; [by apply Hbyte|]. apply emits_list; [done|].
    apply List.Forall_forall. intros e He. rewrite List.Forall_forall in *. auto.
Qed.

(** ** Reading back *)

Section read_back.
Context {S : Type} `{InputStreamLaws S}.

(** [parses] for a call that also works on a local object. *)
Definition updates {T A} (m : M (DataInputStream S * T) A) (bs : list Z) (t : T) (a : A) (t' : T)
    : Prop :=
  forall d rest, ready d -> avail d = bs ++ rest ->
  exists d', m (d, t) = (Ok a, (d', t')) /\ ready d' /\ avail d' = rest.

Lemma updates_ret {T A} (t : T) (a : A) : updates (ret a) [] t a t.
Proof. intros d rest Hd Ha. by exists d. Qed.

Lemma updates_bind {T A B} (m : M (DataInputStream S * T) A) (k : A -> M _ B) bs cs t1 t2 t3 a b :
  updates m bs t1 a t2 -> updates (k a) cs t2 b t3 -> updates (bind m k) (bs ++ cs) t1 b t3.
Proof.
  intros Hm Hk d rest Hd Ha. rewrite <- app_assoc in Ha.
  destruct (Hm d _ Hd Ha) as (d1 & E1 & Hd1 & Ha1).
  destruct (Hk d1 _ Hd1 Ha1) as (d2 & E2 & ?).
  exists d2. by rewrite (bind_ok _ _ _ _ _ E1).
Qed.

Lemma updates_catch_io {T A} (m : M (DataInputStream S * T) A) bs t a t' :
  updates m bs t a t' -> updates (catch_io m) bs t a t'.
Proof.
  intros Hm d rest Hd Ha. destruct (Hm d rest Hd Ha) as (d' & E & ?).
  exists d'. by rewrite (catch_io_ok _ _ _ _ E).
Qed.

Lemma updates_fst {T A} (m : M (DataInputStream S) A) bs (t : T) a :
  parses m bs a -> updates (on_fst m) bs t a t.
Proof.
  intros Hm d rest Hd Ha. destruct (Hm d rest Hd Ha) as (d' & E & ?).
  exists d'. split; [by apply on_fst_ok|done].
Qed.

Lemma updates_modify {T} (f : T -> T) (t : T) : updates (on_snd (modify f)) [] t tt (f t).
Proof. intros d rest Hd Ha. by exists d. Qed.

Lemma parses_local {T} (m : M (DataInputStream S * T) unit) bs t t' :
  updates m bs t tt t' -> parses (with_local t m) bs t'.
Proof.
  intros Hm d rest Hd Ha. destruct (Hm d rest Hd Ha) as (d' & E & ?).
  exists d'. unfold with_local. by rewrite E.
Qed.

(** The loop of a container: each turn reads one element and adds it. *)
Lemma updates_repeat {T A} (m : M (DataInputStream S * T) unit) (enc : A -> list Z)
    (add : A -> T -> T) (l : list A) (t : T) :
  (forall x t, In x l -> updates m (enc x) t tt (add x t)) ->
  exists us, updates (repeat_m (length l) m) (l ≫= enc) t us (fold_left (fun t x => add x t) l t).
Proof.
  revert t. induction l as [|x l IH]; intros t Hm; [exists []; apply updates_ret|].
  destruct (IH (add x t)) as [us Hus]; [intros; apply Hm; by right|].
  exists (tt :: us). rewrite bind_cons. eapply updates_bind; [apply Hm; by left|].
  rewrite <- (app_nil_r (l ≫= enc)). eapply updates_bind; [exact Hus|]. apply updates_ret.
Qed.

Lemma map_set_last {V} k (v : V) acc :
  Forall (fun p => key_ltb p.1 k = true) acc -> map_set k v acc = acc ++ [(k, v)].
Proof.
  induction 1 as [|[k' v'] acc Hk Hacc IH]; [done|]. cbn in *.
  rewrite decide_False by (intros ->; by rewrite key_ltb_irrefl in Hk).
  destruct (key_ltb k k') eqn:E.
  { pose proof (key_ltb_trans k k' k E Hk) as Hkk. by rewrite key_ltb_irrefl in Hkk. }
  by rewrite IH.
Qed.

(** Entries that arrive in key order end up behind one another. *)
Lemma fold_map_set (m acc : list (key * PrimitiveValueNode)) :
  map_wf m -> Forall (fun e => Forall (fun p => key_ltb p.1 e.1 = true) acc) m ->
  fold_left (fun t e => map_set e.1 (received e.2) t) m acc =
  acc ++ map (fun e => (e.1, received e.2)) m.
Proof.
  intros Hm. revert acc. induction Hm as [|[k v] m Hm IH Hall]; intros acc Hacc.
  { cbn. by rewrite app_nil_r. }
  apply Forall_cons_iff in Hacc as [Hk Hacc].
  cbn [fold_left map fst snd] in *. rewrite map_set_last by done.
  rewrite IH, <- app_assoc; [done|].
  rewrite List.Forall_forall in *. intros e He. apply List.Forall_app.
  split; [by apply Hacc|]. repeat constructor. by apply Hall.
Qed.

Lemma fold_add l acc :
  fold_left (fun t n => t ++ [received n]) l acc = acc ++ map received l.
Proof.
  revert acc. induction l as [|n l IH]; intros acc; cbn; [by rewrite app_nil_r|].
  by rewrite IH, <- app_assoc.
Qed.

Lemma updates_unmarshal_map u m :
  map_wf m -> zlen m <= INT_MAX -> Forall (fun e => key_ok e.1) m ->
  Forall (fun e => parses u (node_bytes e.2) (received e.2)) m ->
  updates (unmarshal_map_with u)
    (be_bytes 4 (zlen m) ++ (m ≫= fun e => utf_bytes e.1 ++ node_bytes e.2)) [] tt
    (map (fun e => (e.1, received e.2)) m).
Proof.
  intros Hwf Hlen Hk Hv. pose proof (zlen_nonneg m). apply updates_catch_io.
  eapply updates_bind; [apply updates_fst, codec_int; zlia|].
  destruct (Z.ltb_spec 0 (zlen m)); cycle 1.
  { rewrite (zlen_zero m) by lia. apply updates_ret. }
  unfold zlen at 1. rewrite Nat2Z.id.
  match goal with |- updates _ ?bs _ _ _ => rewrite <- (app_nil_r bs) end.
  destruct (updates_repeat (unmarshal_entry u) (fun e => utf_bytes e.1 ++ node_bytes e.2)
    (fun e t => map_set e.1 (received e.2) t) m []) as [us Hus].
  - rewrite List.Forall_forall in Hk, Hv. intros e t He.
    eapply updates_bind; [apply updates_fst|].
    { apply parses_readUTF; [by apply Hk|]. by apply utf_decode_encode, Hk. }
    rewrite <- (app_nil_r (node_bytes _)).
    eapply updates_bind; [by apply updates_fst, Hv|]. apply updates_modify.
  - eapply updates_bind; [exact Hus|]. rewrite fold_map_set; [apply updates_ret|done|].
    apply List.Forall_forall. constructor.
Qed.

Lemma updates_unmarshal_list u l :
  zlen l <= INT_MAX -> Forall (fun n => parses u (node_bytes n) (received n)) l ->
  updates (unmarshal_list_with u) (be_bytes 4 (zlen l) ++ (l ≫= node_bytes)) [] tt
    (map received l).
Proof.
  intros Hlen Hv. pose proof (zlen_nonneg l). apply updates_catch_io.
  eapply updates_bind; [apply updates_fst, codec_int; zlia|].
  rewrite <- (app_nil_r (l ≫= node_bytes)). unfold zlen at 1. rewrite Nat2Z.id.
  destruct (updates_repeat (unmarshal_element u) node_bytes
    (fun n t => t ++ [received n]) l []) as [us Hus].
  - rewrite List.Forall_forall in Hv. intros n t Hn. rewrite <- (app_nil_r (node_bytes _)).
    eapply updates_bind; [by apply updates_fst, Hv|].
    apply (updates_modify (fun t => t ++ [received n])).
  - eapply updates_bind; [exact Hus|]. rewrite fold_add. apply updates_ret.
Qed.

Lemma max_depth {A} (f : A -> nat) l k :
  (fold_right (fun x d => Nat.max (f x) d) O l <= k)%nat -> Forall (fun x => (f x <= k)%nat) l.
Proof. induction l as [|x l IH]; cbn; constructor; [lia|apply IH; lia]. Qed.

(** The tag byte decides the branch. *)
Lemma parses_tag {A} t (k : Z -> M (DataInputStream S) A) bs a :
  byte_ok t -> parses (k (s8 t)) bs a -> parses (x <- readByte ;; k x) (t :: bs) a.
Proof. intros Ht Hk. apply (parses_bind _ _ [t] bs (s8 t)); [apply parses_readByte|done]. Qed.

Lemma parses_map_ret {A B} (m : M (DataInputStream S) A) (f : A -> B) bs a :
  parses m bs a -> parses (x <- m ;; ret (f x)) bs (f a).
Proof.
  intros Hm. rewrite <- (app_nil_r bs). eapply parses_bind; [exact Hm|apply parses_ret].
Qed.

Lemma parses_unmarshalPrimitive n fuel :
  node_ok n -> (node_depth n <= fuel)%nat ->
  parses (unmarshalPrimitive fuel) (node_bytes n) (received n).
Proof.
  revert fuel.
  induction n as [n Hflat|m IH|l IH] using node_ind'; intros [|fuel] Hok Hfuel;
    try (destruct n; cbn in Hfuel; lia); try (cbn in Hfuel; lia);
    inversion Hok; subst; try done; cbn [unmarshalPrimitive node_bytes received];
    apply parses_catch_io.
  - apply parses_tag; [done|]. apply parses_map_ret, codec_boolean.
  - apply parses_tag; [done|]. cbv zeta.
    eapply parses_eq; [apply parses_map_ret, parses_readByte|done|].
    f_equal. rewrite wrapu_wraps by lia. by apply wrapu_id.
  - apply parses_tag; [done|]. apply (parses_bind _ _ [0] _ (s8 0)); [apply parses_readByte|].
    by apply parses_map_ret, codec_char.
  - apply parses_tag; [done|]. by apply parses_map_ret, codec_short.
  - apply parses_tag; [done|]. by apply parses_map_ret, codec_int.
  - apply parses_tag; [done|]. by apply parses_map_ret, codec_long.
  - apply parses_tag; [done|]. by apply parses_map_ret, codec_double.
  - apply parses_tag; [done|]. by apply parses_map_ret, codec_float.
  - pose proof (zlen_nonneg s). change (SHORT_MAX / 4) with 8191.
    assert (0 < zlen s -> match s with [] => NullValue | _ => StringValue s end = StringValue s) as Hs
      by (destruct s; [by cbn|done]).
    assert (forall r, 0 < zlen s -> r = StringValue s ->
      parses (buffer <- readFully_all false (zlen s) ;; ret (StringValue buffer)) s r) as Hread.
    { intros r _ ->. by apply parses_map_ret, parses_readFully_all. }
    destruct (Z.leb_spec (zlen s) 8191); (apply parses_tag; [done|]).
    + eapply parses_bind; [apply codec_short; zlia|].
      destruct (Z.ltb_spec 0 (zlen s)) as [Hpos|].
      * apply Hread; [done|]. destruct s; [done|done].
      * rewrite (zlen_zero s) by lia. apply parses_ret.
    + eapply parses_bind; [apply codec_int; zlia|].
      destruct (Z.ltb_spec 0 (zlen s)) as [Hpos|]; [|lia].
      apply Hread; [done|]. destruct s; [done|done].
  - pose proof (zlen_nonneg a). apply parses_tag; [done|].
    eapply parses_bind; [apply codec_int; zlia|]. apply parses_map_ret.
    destruct (Z.ltb_spec 0 (zlen a)); [by apply parses_readFully_all|].
    rewrite (zlen_zero a) by lia. apply parses_ret.
  - apply parses_tag; [done|]. apply parses_map_ret, parses_local, updates_unmarshal_map; [done..|].
    assert (fold_right (fun e d => Nat.max (node_depth e.2) d) O m <= fuel)%nat as Hd
      by (cbn in Hfuel; lia).
    apply max_depth in Hd. rewrite List.Forall_forall in *. intros e He.
    apply IH; [done|by auto|by apply Hd].
  - apply parses_tag; [done|]. apply parses_map_ret, parses_local, updates_unmarshal_list; [done|].
    assert (fold_right (fun n d => Nat.max (node_depth n) d) O l <= fuel)%nat as Hd
      by (cbn in Hfuel; lia).
    apply max_depth in Hd. rewrite List.Forall_forall in *. intros e He.
    apply IH; [done|by auto|by apply Hd].
Qed.
End read_back.

(** ** Values from an arbitrary peer *)

Section arbitrary.
Context {S : Type} `{InputStreamLaws S}.

(** [bounded] for a call that also works on a local object. *)
Definition bounded_with {T A} (k n : Z) (m : M (DataInputStream S * T) A) : Prop :=
  forall d t, ready d -> zlen (avail d) < k ->
  exists d' t', ready d' /\
    ((exists a, m (d, t) = (Ok a, (d', t')) /\ zlen (avail d') + n <= zlen (avail d)) \/
     (exists e, m (d, t) = (Throw e, (d', t')))).

Lemma bounded_with_ret {T A} k (a : A) : bounded_with (T := T) k 0 (ret a).
Proof. intros d t Hd _. exists d, t. split; [done|]. left. exists a. split; [done|lia]. Qed.

Lemma bounded_with_step {T A B} k n n1 (m : M (DataInputStream S * T) A) (f : A -> M _ B) :
  bounded_with k n1 m -> 0 <= n1 -> (forall a, bounded_with (k - n1) (n - n1) (f a)) ->
  bounded_with k n (bind m f).
Proof.
  intros Hm Hn Hf d t Hd Hk.
  destruct (Hm d t Hd Hk) as (d1 & t1 & Hd1 & [(a & E & Ha)|(e & E)]).
  - destruct (Hf a d1 t1 Hd1) as (d2 & t2 & Hd2 & Hr); [lia|].
    exists d2, t2. split; [done|]. rewrite (bind_ok _ _ _ _ _ E).
    destruct Hr as [(b & E2 & Hb)|He]; [left|by right]. exists b. split; [done|lia].
  - exists d1, t1. split; [done|]. right. exists e. by apply bind_throw.
Qed.

Lemma bounded_with_fst {T A} k n (m : M (DataInputStream S) A) :
  bounded k n m -> bounded_with (T := T) k n (on_fst m).
Proof.
  intros Hm d t Hd Hk. destruct (Hm d Hd Hk) as (d' & Hd' & Hr).
  exists d', t. split; [done|]. unfold on_fst. cbn.
  destruct Hr as [(a & -> & Ha)|(e & ->)]; [left; by exists a|right; by exists e].
Qed.

Lemma bounded_with_modify {T} k (f : T -> T) : bounded_with k 0 (on_snd (modify f)).
Proof. intros d t Hd _. exists d, (f t). split; [done|]. left. exists tt. split; [done|lia]. Qed.

Lemma bounded_with_repeat {T A} k n (m : M (DataInputStream S * T) A) :
  bounded_with k 0 m -> bounded_with k 0 (repeat_m n m).
Proof.
  intros Hm. induction n as [|n IH]; [apply bounded_with_ret|]. cbn [repeat_m].
  eapply bounded_with_step; [exact Hm|lia|]. intros a. rewrite Z.sub_0_r.
  eapply bounded_with_step; [exact IH|lia|]. intros l. apply bounded_with_ret.
Qed.

Lemma bounded_with_catch_io {T A} k n (m : M (DataInputStream S * T) A) :
  bounded_with k n m -> bounded_with k n (catch_io m).
Proof.
  intros Hm d t Hd Hk. destruct (Hm d t Hd Hk) as (d' & t' & Hd' & [(a & E & Ha)|(e & E)]);
    exists d', t'; (split; [done|]).
  - left. exists a. split; [by apply catch_io_ok|done].
  - right. eexists. by apply catch_io_throw.
Qed.

Lemma bounded_local {T} k n (m : M (DataInputStream S * T) unit) t :
  bounded_with k n m -> bounded k n (with_local t m).
Proof.
  intros Hm d Hd Hk. destruct (Hm d t Hd Hk) as (d' & t' & Hd' & [(a & E & Ha)|(e & E)]);
    exists d'; (split; [done|]); unfold with_local; rewrite E; [left; by exists t'|right; by exists e].
Qed.

Lemma bounded_with_weaken {T A} k k' n n' (m : M (DataInputStream S * T) A) :
  bounded_with k n m -> k' <= k -> n' <= n -> bounded_with k' n' m.
Proof.
  intros Hm ?? d t Hd Hk. destruct (Hm d t Hd) as (d' & t' & Hd' & Hr); [lia|].
  exists d', t'. split; [done|].
  destruct Hr as [(a & E & ?)|?]; [left|by right]. exists a. split; [done|lia].
Qed.

Lemma bounded_unmarshal_map k (u : M (DataInputStream S) PrimitiveValueNode) :
  bounded (k - 6) 0 u -> bounded_with k 0 (unmarshal_map_with u).
Proof.
  intros Hu. apply bounded_with_catch_io.
  eapply bounded_with_step; [apply bounded_with_fst, bounded_readInt|lia|intros size].
  case_match; cycle 1.
  { eapply bounded_with_weaken; [apply bounded_with_ret|reflexivity|lia]. }
  apply (bounded_with_weaken (k - 4) _ 0 _); [|lia..].
  eapply bounded_with_step; [apply bounded_with_repeat|lia|intros us; apply bounded_with_ret].
  apply (bounded_with_weaken (k - 4) _ 2 _); [|lia..].
  eapply bounded_with_step; [apply bounded_with_fst, bounded_readUTF|lia|intros key].
  apply (bounded_with_weaken (k - 6) _ 0 _); [|lia..].
  eapply bounded_with_step; [by apply bounded_with_fst|lia|intros v].
  apply bounded_with_modify.
Qed.

Lemma bounded_unmarshal_list k (u : M (DataInputStream S) PrimitiveValueNode) :
  bounded (k - 4) 0 u -> bounded_with k 0 (unmarshal_list_with u).
Proof.
  intros Hu. apply bounded_with_catch_io.
  eapply bounded_with_step; [apply bounded_with_fst, bounded_readInt|lia|intros size].
  apply (bounded_with_weaken (k - 4) _ 0 _); [|lia..].
  eapply bounded_with_step; [apply bounded_with_repeat|lia|intros us; apply bounded_with_ret].
  eapply bounded_with_step; [by apply bounded_with_fst|lia|intros v].
  apply bounded_with_modify.
Qed.

(** Every container takes bytes, so fuel for the bytes at hand is enough. *)
Lemma bounded_unmarshalPrimitive fuel k :
  k <= Z.of_nat fuel -> bounded (S := S) k 1 (unmarshalPrimitive fuel).
Proof.
  revert k. induction fuel as [|fuel IH]; intros k Hk.
  { intros d _ Hd. pose proof (zlen_nonneg (avail d)). lia. }
  cbn [unmarshalPrimitive]. apply bounded_catch_io.
  eapply bounded_step; [apply bounded_readByte|lia|intros t]. cbv zeta.
  do 12 (apply bounded_if; intros _; [bound|]).
  apply bounded_if; intros _.
  { apply (bounded_step _ _ 0); [|lia|intros; bound].
    apply bounded_local, bounded_unmarshal_list.
    apply (bounded_weaken (k - 1) _ 1 _); [apply IH; lia|lia..]. }
  apply bounded_if; intros _; [|bound].
  apply (bounded_step _ _ 0); [|lia|intros; bound].
  apply bounded_local, bounded_unmarshal_map.
  apply (bounded_weaken (k - 1) _ 1 _); [apply IH; lia|lia..].
Qed.
End arbitrary.

Lemma unmarshal_map_buffer fuel b l old r d m :
  unmarshalPrimitiveMap fuel (mkDIS (Some (ByteArray.new (b :: l))), []) = (r, (d, m)) ->
  unmarshal_map fuel (b :: l) old = (r, m).
Proof. intros E. cbv [unmarshal_map]. by rewrite E. Qed.

(** ** Properties *)

(** C37: A typed value, however deep its lists and maps nest, is read back as the value
    it was, its maps with the same entries; only an empty string comes back as a
    NULL node ([received]). *)
Theorem primitive_roundtrip {S} `{InputStreamLaws S} n fuel :
  node_ok n -> (node_depth n <= fuel)%nat ->
  codec (S := S) (fun _ => marshalPrimitive n) (unmarshalPrimitive fuel) (received n) (node_bytes n).
Proof. intros Hok Hf. split; [by apply emits_marshalPrimitive|by apply parses_unmarshalPrimitive]. Qed.

Definition sample_node : PrimitiveValueNode :=
  MapValue [([97], ListValue [IntValue (-5); StringValue [104; 105]]); ([98], BoolValue true)].

Lemma sample_node_ok : node_ok sample_node.
Proof.
  repeat constructor; cbn; rewrite ?zlen_cons, ?zlen_nil; try by vm_compute.
Qed.

Lemma primitive_roundtrip_witness :
  codec (S := list (list Z)) (fun _ => marshalPrimitive sample_node) (unmarshalPrimitive 3)
    (received sample_node) (node_bytes sample_node).
Proof. apply primitive_roundtrip; [apply sample_node_ok|by vm_compute]. Defined.

(** The buffer form: a map marshalled into a buffer and unmarshalled into any other
    map replaces its contents with the (received) entries. *)
Theorem primitive_map_buffer_roundtrip m old fuel :
  node_ok (MapValue m) -> (node_depth (MapValue m) <= fuel)%nat ->
  exists buffer, marshal_map (Some m) [] = Ok buffer /\
    unmarshal_map fuel buffer old = (Ok tt, map (fun e => (e.1, received e.2)) m).
Proof.
  intros Hok Hf. inversion Hok as [| | | | | | | | | |m' Hwf Hlen Hk Hv|]; subst.
  assert (Forall (fun e => emits (marshalPrimitive e.2) (node_bytes e.2) tt) m) as Hem.
  { eapply List.Forall_impl; [|exact Hv]. intros e. apply emits_marshalPrimitive. }
  pose proof (emits_map m Hlen Hk Hem) as He.
  set (bs := be_bytes 4 (zlen m) ++ (m ≫= fun e => utf_bytes e.1 ++ node_bytes e.2)) in *.
  exists bs. unfold marshal_map, marshal_buffer, marshalMap, written_by.
  rewrite (He _ usable_new). split; [by cbn; rewrite app_nil_r|].
  assert (exists b l, bs = b :: l) as (b & l & Hbs) by (by eexists _, _).
  assert (updates (S := ByteArray.ByteArrayInputStream) (unmarshalPrimitiveMap fuel) bs [] tt
    (map (fun e => (e.1, received e.2)) m)) as Hu.
  { apply updates_unmarshal_map; [done..|].
    assert (fold_right (fun e d => Nat.max (node_depth e.2) d) O m <= fuel)%nat as Hd
      by (cbn in Hf; lia).
    apply max_depth in Hd. rewrite List.Forall_forall in *. intros e Hin.
    apply parses_unmarshalPrimitive; [by apply Hv|by apply Hd]. }
  destruct (Hu (mkDIS (Some (ByteArray.new bs))) []) as (d' & E & _).
  - eexists. split; [done|]. apply ByteArray.valid_new.
  - rewrite app_nil_r. apply ByteArray.bytes_new.
  - rewrite Hbs in E |- *. by eapply unmarshal_map_buffer.
Qed.

Lemma primitive_map_buffer_roundtrip_witness :
  let m := [([97], ListValue [IntValue (-5); StringValue [104; 105]]); ([98], BoolValue true)] in
  exists buffer, marshal_map (Some m) [] = Ok buffer /\
    unmarshal_map 3 buffer [([99], NullValue)] = (Ok tt, map (fun e => (e.1, received e.2)) m).
Proof. apply (primitive_map_buffer_roundtrip _ [([99], NullValue)] 3 sample_node_ok). by vm_compute. Defined.

(** C38: Unmarshalling a value terminates safely on any input: with fuel for the bytes at
    hand it returns, having consumed some, or throws an [IOException]. *)
Theorem primitive_total {S} `{InputStreamLaws S} (d : DataInputStream S) fuel :
  ready d -> zlen (avail d) < Z.of_nat fuel ->
  exists r d', unmarshalPrimitive fuel d = (r, d') /\ ready d' /\
    match r with Ok _ => zlen (avail d') < zlen (avail d) | Throw e => is_io e = true | _ => False end.
Proof.
  intros Hd Hf. destruct (bounded_unmarshalPrimitive fuel (Z.of_nat fuel) ltac:(lia) d Hd Hf)
    as (d' & Hd' & [(n & E & Ha)|(x & E)]).
  - exists (Ok n), d'. split_and!; [done|done|lia].
  - exists (Throw x), d'. split_and!; [done|done|].
    destruct fuel as [|fuel]; [done|]. cbn [unmarshalPrimitive] in E. by apply catch_io_is_io in E.
Qed.

Lemma primitive_total_witness :
  let d := mkDIS (Some [[11; 127; 255]; [255; 255; 0; 1; 97]; [13; 0]]) in
  exists r d', unmarshalPrimitive 20 d = (r, d') /\ ready d' /\
    match r with Ok _ => zlen (avail d') < zlen (avail d) | Throw e => is_io e = true | _ => False end.
Proof.
  apply (primitive_total (mkDIS (Some [[11; 127; 255]; [255; 255; 0; 1; 97]; [13; 0]])) 20);
    [by eexists|by vm_compute].
Defined.

(** A NULL value cannot be sent: marshalling a map that holds one throws an
    [IOException] after part of the map has been written, although the reader takes
    the NULL tag. *)
Theorem null_value_refused {S} `{InputStreamLaws S} k m o :
  usable o -> key_ok k -> zlen m < INT_MAX ->
  marshalPrimitiveMap ((k, NullValue) :: m) o =
    (Throw IOException, emit (be_bytes 4 (1 + zlen m) ++ utf_bytes k) o) /\
  parses (S := S) (unmarshalPrimitive 1) [MarshallingSupport.NULL_TYPE] NullValue.
Proof.
  intros Ho [Hk Hlen] Hm. pose proof (zlen_nonneg m). split.
  - unfold marshalPrimitiveMap, marshal_map_with. rewrite zlen_cons, wraps_id by zlia.
    rewrite <- emit_emit. apply (catch_io_throw _ _ IOException).
    rewrite (bind_ok _ _ _ _ _ (emits_writeInt (1 + zlen m) o Ho)).
    apply bind_throw. unfold marshal_entry. cbn [fst snd].
    by rewrite (bind_ok _ _ _ _ _ (emits_writeUTF k Hlen _ (usable_emit _ _ Ho))).
  - cbn [unmarshalPrimitive]. apply parses_catch_io. apply parses_tag; [done|]. apply parses_ret.
Qed.

Lemma null_value_refused_witness :
  marshalPrimitiveMap [([97], NullValue)] (DataOutputStream_new (Some [])) =
    (Throw IOException, emit (be_bytes 4 1 ++ utf_bytes [97]) (DataOutputStream_new (Some []))) /\
  parses (S := list (list Z)) (unmarshalPrimitive 1) [MarshallingSupport.NULL_TYPE] NullValue.
Proof.
  apply (null_value_refused [97] [] (DataOutputStream_new (Some [])));
    [apply usable_new|split; [repeat constructor; by vm_compute|by vm_compute]|by vm_compute].
Defined.
