(* ===== verification/OpenWireFormat.v ===== *)
(** * OpenWireFormat (wireformat/openwire/OpenWireFormat.cpp): commands on the wire,
    objects nested in them, and the negotiation of the options.

    The table of command marshallers is the argument [dataMarshallers]; a
    marshaller's operations receive the wire format they are called through
    ([WireFormat]), which here is tied back to the table: [wire f fuel] is
    OpenWireFormat's implementation of that interface, [fuel] bounding how deep
    objects nest. *)
From S2P Require Import Prelude DataOutput DataInput Codec BooleanStream TightCodec BaseDataStreamMarshaller.

Definition NULL_TYPE : Z := 0.
Definition DEFAULT_VERSION : Z := 1.
Definition MAX_SUPPORTED_VERSION : Z := 11.

(** What a commands::WireFormatInfo's getters return. *)
Record WireFormatInfo : Type := mkWFI {
  wfi_version : Z;
  wfi_stackTraceEnabled : bool;
  wfi_tcpNoDelayEnabled : bool;
  wfi_cacheEnabled : bool;
  wfi_cacheSize : Z;
  wfi_tightEncodingEnabled : bool;
  wfi_sizePrefixDisabled : bool;
  wfi_maxInactivityDuration : Z;
  wfi_maxInactivityDurationInitalDelay : Z;
}.

Record OpenWireFormat : Type := mkOWF {
  preferedWireFormatInfo : option WireFormatInfo;
  receiving : bool;
  currentTransport : option Z;
  version : Z;
  stackTraceEnabled : bool;
  tcpNoDelayEnabled : bool;
  cacheEnabled : bool;
  cacheSize : Z;
  tightEncodingEnabled : bool;
  sizePrefixDisabled : bool;
  maxInactivityDuration : Z;
  maxInactivityDurationInitialDelay : Z;
}.

(** ** Options and their negotiation *)

Definition with_version (v : Z) (f : OpenWireFormat) : OpenWireFormat :=
  mkOWF (preferedWireFormatInfo f) (receiving f) (currentTransport f) v
    (stackTraceEnabled f) (tcpNoDelayEnabled f) (cacheEnabled f) (cacheSize f)
    (tightEncodingEnabled f) (sizePrefixDisabled f) (maxInactivityDuration f)
    (maxInactivityDurationInitialDelay f).

Definition with_receiving (r : bool) (t : option Z) (f : OpenWireFormat) : OpenWireFormat :=
  mkOWF (preferedWireFormatInfo f) r t (version f)
    (stackTraceEnabled f) (tcpNoDelayEnabled f) (cacheEnabled f) (cacheSize f)
    (tightEncodingEnabled f) (sizePrefixDisabled f) (maxInactivityDuration f)
    (maxInactivityDurationInitialDelay f).

Definition setVersion (v : Z) : M OpenWireFormat unit :=
  f <- get ;;
  if v =? version f then ret tt
  else if MAX_SUPPORTED_VERSION <? v then throw IllegalArgumentException
  else put (with_version v f).

Definition setPreferedWireFormatInfo (info : option WireFormatInfo) : M OpenWireFormat unit :=
  modify (fun f =>
    mkOWF info (receiving f) (currentTransport f) (version f)
      (stackTraceEnabled f) (tcpNoDelayEnabled f) (cacheEnabled f) (cacheSize f)
      (tightEncodingEnabled f) (sizePrefixDisabled f) (maxInactivityDuration f)
      (maxInactivityDurationInitialDelay f)).

(** The constructor; [setVersion(DEFAULT_VERSION)] is its last step. *)
Definition OpenWireFormat_new : outcome OpenWireFormat :=
  let f := mkOWF None false None 0 true true true 1024 false false 30000 10000 in
  match setVersion DEFAULT_VERSION f with
  | (Ok _, f') => Ok f'
  | (Throw e, _) => Throw e
  | (UB, _) => UB
  | (Hang, _) => Hang
  end.

Definition renegotiateWireFormat (info : WireFormatInfo) : M OpenWireFormat unit :=
  f0 <- get ;;
  match preferedWireFormatInfo f0 with
  | None => throw IllegalStateException
  | Some p =>
      setVersion (Z.min (wfi_version p) (wfi_version info)) ;;;
      modify (fun f =>
        mkOWF (preferedWireFormatInfo f) (receiving f) (currentTransport f) (version f)
          (wfi_stackTraceEnabled info && wfi_stackTraceEnabled p)
          (wfi_tcpNoDelayEnabled info && wfi_tcpNoDelayEnabled p)
          (wfi_cacheEnabled info && wfi_cacheEnabled p)
          (Z.min (wfi_cacheSize info) (wfi_cacheSize p))
          (wfi_tightEncodingEnabled info && wfi_tightEncodingEnabled p)
          (wfi_sizePrefixDisabled info && wfi_sizePrefixDisabled p)
          (Z.min (wfi_maxInactivityDuration info) (wfi_maxInactivityDuration p))
          (Z.min (wfi_maxInactivityDurationInitalDelay info)
                 (wfi_maxInactivityDurationInitalDelay p)))
  end.

(** ** Commands *)

(** commands::DataStructure and wireformat::MarshalAware. *)
Class DataStructure (D : Type) := {
  getDataStructureType : D -> Z;
  isMarshalAware : D -> bool;
  getMarshaledForm : D -> list Z;
  isCommand : D -> bool;
}.

(** marshal::DataStreamMarshaller; unmarshalling fills in the object it is given,
    which is [createObject()]. *)
Record DataStreamMarshaller (S D : Type) : Type := mkDSM {
  createObject : D;
  dsm_tightMarshal1 : WireFormat S D -> D -> M BooleanStream Z;
  dsm_tightMarshal2 : WireFormat S D -> D -> M (DataOutputStream * BooleanStream) unit;
  dsm_tightUnmarshal : WireFormat S D -> D -> M (DataInputStream S * BooleanStream) D;
  dsm_looseMarshal : WireFormat S D -> D -> M DataOutputStream unit;
  dsm_looseUnmarshal : WireFormat S D -> D -> M (DataInputStream S) D;
}.
Arguments createObject {S D} _.
Arguments dsm_tightMarshal1 {S D} _ _ _.
Arguments dsm_tightMarshal2 {S D} _ _ _.
Arguments dsm_tightUnmarshal {S D} _ _ _.
Arguments dsm_looseMarshal {S D} _ _ _.
Arguments dsm_looseUnmarshal {S D} _ _ _.

Section wire_format.
Context {S D : Type} `{InputStream S} `{DataStructure D}.
Variable dataMarshallers : Z -> option (DataStreamMarshaller S D).

Definition marshaller (type : Z) : option (DataStreamMarshaller S D) :=
  dataMarshallers (Z.land type 0xFF).

(** *** Nested objects *)

Section nested_objects.
(** The wire format the marshallers of nested objects are handed. *)
Variable wf : WireFormat S D.

(** A marshal-aware object answers with its marshalled form, if it has one. *)
Definition aware_size (o : D) : M BooleanStream (option Z) :=
  if isMarshalAware o then
    let sequence := getMarshaledForm o in
    bs_writeBoolean (non_empty sequence) ;;;
    ret (if non_empty sequence then Some (1 + zlen sequence) else None)
  else ret None.

Definition owf_tightMarshal1 (object : option D) : M BooleanStream Z :=
  catch_io
    (bs_writeBoolean (match object with Some _ => true | None => false end) ;;;
     match object with
     | None => ret 0
     | Some o =>
         sized <- aware_size o ;;
         match sized with
         | Some n => ret n
         | None =>
             let type := u8 (getDataStructureType o) in
             if type =? 0 then throw IOException
             else
               match marshaller type with
               | None => throw IOException
               | Some dsm => n <- dsm_tightMarshal1 dsm wf o ;; ret (1 + n)
               end
         end
     end).

(** [o->isMarshalAware() && bs->readBoolean()] *)
Definition aware_flag {T} (o : D) : M (T * BooleanStream) bool :=
  if isMarshalAware o then on_snd bs_readBoolean else ret false.

Definition owf_tightMarshal2 (object : option D) : M (DataOutputStream * BooleanStream) unit :=
  catch_io
    (b <- on_snd bs_readBoolean ;;
     if negb b then ret tt
     else
       match object with
       | None => undefined
       | Some o =>
           let type := u8 (getDataStructureType o) in
           on_fst (writeByte type) ;;;
           aware <- aware_flag o ;;
           if (aware : bool) then on_fst (write_array (getMarshaledForm o))
           else
             match marshaller type with
             | None => throw IOException
             | Some dsm => dsm_tightMarshal2 dsm wf o
             end
       end).

Definition owf_tightUnmarshal : M (DataInputStream S * BooleanStream) (option D) :=
  catch_io
    (b <- on_snd bs_readBoolean ;;
     if (b : bool) then
       t <- on_fst readByte ;;
       match marshaller (u8 t) with
       | None => throw IOException
       | Some dsm =>
           aware <- aware_flag (createObject dsm) ;;
           if (aware : bool) then
             on_fst readInt ;;;
             on_fst readByte ;;;
             data <- on_fst (with_object BooleanStream_new
                      (bs_unmarshal ;;; dsm_tightUnmarshal dsm wf (createObject dsm))) ;;
             ret (Some data)
           else
             data <- dsm_tightUnmarshal dsm wf (createObject dsm) ;; ret (Some data)
       end
     else ret None).

Definition owf_looseUnmarshal : M (DataInputStream S) (option D) :=
  catch_io
    (b <- readBoolean ;;
     if (b : bool) then
       t <- readByte ;;
       match marshaller (u8 t) with
       | None => throw IOException
       | Some dsm => data <- dsm_looseUnmarshal dsm wf (createObject dsm) ;; ret (Some data)
       end
     else ret None).

Definition owf_looseMarshal (object : option D) : M DataOutputStream unit :=
  catch_io
    (writeBoolean (match object with Some _ => true | None => false end) ;;;
     match object with
     | None => ret tt
     | Some o =>
         let dataType := u8 (getDataStructureType o) in
         writeByte dataType ;;;
         match marshaller dataType with
         | None => throw IOException
         | Some dsm => dsm_looseMarshal dsm wf o
         end
     end).

End nested_objects.

(** *** The knot: the wire format of nested objects is the one at hand *)

Definition no_wire (f : OpenWireFormat) : WireFormat S D := {|
  wireVersion := version f;
  isStackTraceEnabled := stackTraceEnabled f;
  nested_tightMarshal1 _ := hang;
  nested_tightMarshal2 _ := hang;
  nested_tightUnmarshal := hang;
  nested_looseMarshal _ := hang;
  nested_looseUnmarshal := hang;
|}.

Definition wire_step (f : OpenWireFormat) (wf : WireFormat S D) : WireFormat S D := {|
  wireVersion := version f;
  isStackTraceEnabled := stackTraceEnabled f;
  nested_tightMarshal1 := owf_tightMarshal1 wf;
  nested_tightMarshal2 := owf_tightMarshal2 wf;
  nested_tightUnmarshal := owf_tightUnmarshal wf;
  nested_looseMarshal := owf_looseMarshal wf;
  nested_looseUnmarshal := owf_looseUnmarshal wf;
|}.

Fixpoint wire (f : OpenWireFormat) (fuel : nat) : WireFormat S D :=
  match fuel with
  | O => no_wire f
  | Datatypes.S fuel' => wire_step f (wire f fuel')
  end.

(** *** Whole commands *)

Definition marshal_tight (f : OpenWireFormat) (wf : WireFormat S D)
    (dsm : DataStreamMarshaller S D) (type : Z) (o : D) : M DataOutputStream unit :=
  with_object BooleanStream_new
    (n <- on_snd (dsm_tightMarshal1 dsm wf o) ;;
     bs <- on_snd get ;;
     let size := 1 + n + bs_marshalledSize bs in
     (if sizePrefixDisabled f then ret tt else on_fst (writeInt size)) ;;;
     on_fst (writeByte type) ;;;
     bs_marshal ;;;
     dsm_tightMarshal2 dsm wf o).

(** With a size prefix the loose form goes through a buffer of its own. *)
Definition marshal_loose (f : OpenWireFormat) (wf : WireFormat S D)
    (dsm : DataStreamMarshaller S D) (type : Z) (o : D) : M DataOutputStream unit :=
  if sizePrefixDisabled f then
    writeByte type ;;; dsm_looseMarshal dsm wf o
  else
    let '(r, baos) := written_by (writeByte type ;;; dsm_looseMarshal dsm wf o) in
    of_outcome r ;;;
    writeInt (s32 (zlen baos)) ;;;
    (if 0 <? s32 (zlen baos) then write_array baos else ret tt).

(** [marshal(command, transport, dataOut)] *)
Definition marshal (fuel : nat) (f : OpenWireFormat) (transport : option Z) (dataOut_null : bool)
    (command : option D) : M DataOutputStream unit :=
  match transport with
  | None => throw IOException
  | Some _ =>
      if dataOut_null then throw IOException
      else
        catch_io
          match command with
          | Some o =>
              let type := u8 (getDataStructureType o) in
              match marshaller type with
              | None => throw IOException
              | Some dsm =>
                  if tightEncodingEnabled f then marshal_tight f (wire f fuel) dsm type o
                  else marshal_loose f (wire f fuel) dsm type o
              end
          | None => writeInt 1 ;;; writeByte NULL_TYPE
          end
  end.

(** The destructor of the local [finalizer] runs however the body ends. *)
Definition finally {T A} (cleanup : T -> T) (m : M T A) : M T A :=
  fun s => let '(r, s') := m s in (r, cleanup s').

Definition doUnmarshal_body (fuel : nat) (f : OpenWireFormat) : M (DataInputStream S) (option D) :=
  t <- readByte ;;
  let dataType := u8 t in
  if negb (dataType =? NULL_TYPE) then
    match marshaller dataType with
    | None => throw IOException
    | Some dsm =>
        data <- (if tightEncodingEnabled f then
                   with_object BooleanStream_new
                     (bs_unmarshal ;;; dsm_tightUnmarshal dsm (wire f fuel) (createObject dsm))
                 else dsm_looseUnmarshal dsm (wire f fuel) (createObject dsm)) ;;
        ret (Some data)
    end
  else ret None.

Definition doUnmarshal (fuel : nat) (transport : option Z) :
    M (DataInputStream S * OpenWireFormat) (option D) :=
  catch_io
    (f <- on_snd get ;;
     on_snd (modify (with_receiving (receiving f) transport)) ;;;
     finally (fun '(d, f) => (d, with_receiving false None f))
       (on_snd (modify (with_receiving true transport)) ;;;
        g <- on_snd get ;;
        on_fst (doUnmarshal_body fuel g))).

(** [unmarshal(transport, dis)]; an object that is no Command leaves as NULL. *)
Definition unmarshal (fuel : nat) (transport : option Z) (dis_null : bool) :
    M (DataInputStream S * OpenWireFormat) (option D) :=
  catch_io
    (if dis_null then throw IOException
     else
       f <- on_snd get ;;
       (if sizePrefixDisabled f then ret tt else (on_fst readInt ;;; ret tt)) ;;;
       data <- doUnmarshal fuel transport ;;
       match data with
       | None => throw IOException
       | Some o => ret (if isCommand o then Some o else None)
       end).
End wire_format.

(** ** Negotiation *)

Lemma setVersion_ok v f :
  v = version f \/ v <= MAX_SUPPORTED_VERSION ->
  setVersion v f = (Ok tt, with_version v f).
Proof.
  intros Hv. unfold setVersion, bind, get. destruct (Z.eqb_spec v (version f)) as [->|Hne].
  - by destruct f.
  - destruct (Z.ltb_spec MAX_SUPPORTED_VERSION v); [lia|done].
Qed.

Lemma setVersion_refused v f :
  v <> version f -> MAX_SUPPORTED_VERSION < v ->
  setVersion v f = (Throw IllegalArgumentException, f).
Proof. intros Hne Hv. unfold setVersion, bind, get. by zcmp. Qed.

(** The options two peers' infos settle on. *)
Definition negotiated (p q : WireFormatInfo) (f : OpenWireFormat) : Prop :=
  version f = Z.min (wfi_version p) (wfi_version q) /\
  stackTraceEnabled f = wfi_stackTraceEnabled p && wfi_stackTraceEnabled q /\
  tcpNoDelayEnabled f = wfi_tcpNoDelayEnabled p && wfi_tcpNoDelayEnabled q /\
  cacheEnabled f = wfi_cacheEnabled p && wfi_cacheEnabled q /\
  cacheSize f = Z.min (wfi_cacheSize p) (wfi_cacheSize q) /\
  tightEncodingEnabled f = wfi_tightEncodingEnabled p && wfi_tightEncodingEnabled q /\
  sizePrefixDisabled f = wfi_sizePrefixDisabled p && wfi_sizePrefixDisabled q /\
  maxInactivityDuration f = Z.min (wfi_maxInactivityDuration p) (wfi_maxInactivityDuration q) /\
  maxInactivityDurationInitialDelay f =
    Z.min (wfi_maxInactivityDurationInitalDelay p) (wfi_maxInactivityDurationInitalDelay q).

Lemma negotiated_sym p q f : negotiated p q f <-> negotiated q p f.
Proof.
  unfold negotiated.
  rewrite (Z.min_comm (wfi_version p)), (Z.min_comm (wfi_cacheSize p)),
    (Z.min_comm (wfi_maxInactivityDuration p)),
    (Z.min_comm (wfi_maxInactivityDurationInitalDelay p)),
    (andb_comm (wfi_stackTraceEnabled p)), (andb_comm (wfi_tcpNoDelayEnabled p)),
    (andb_comm (wfi_cacheEnabled p)), (andb_comm (wfi_tightEncodingEnabled p)),
    (andb_comm (wfi_sizePrefixDisabled p)).
  done.
Qed.

Lemma renegotiate_ok p info f :
  preferedWireFormatInfo f = Some p ->
  Z.min (wfi_version p) (wfi_version info) <= MAX_SUPPORTED_VERSION ->
  exists f', renegotiateWireFormat info f = (Ok tt, f') /\ negotiated p info f' /\
    preferedWireFormatInfo f' = Some p /\ receiving f' = receiving f.
Proof.
  intros Hp Hv. unfold renegotiateWireFormat, bind at 1, get. rewrite Hp.
  rewrite (bind_ok _ _ _ _ _ (setVersion_ok _ _ (or_intror Hv))).
  eexists. split; [done|]. split; [|by split; [cbn; rewrite Hp|]].
  repeat split; cbn; apply andb_comm || apply Z.min_comm.
Qed.

(** ** Nested objects *)

Section nested_specs.
Context {S D : Type} `{InputStreamLaws S} `{DataStructure D}.
Variable dataMarshallers : Z -> option (DataStreamMarshaller S D).
Variable wf : WireFormat S D.

(** The table has a marshaller for [o]'s type. *)
Record registered (o : D) (dsm : DataStreamMarshaller S D) : Prop := {
  reg_type : 0 < getDataStructureType o < 256;
  reg_entry : dataMarshallers (getDataStructureType o) = Some dsm;
  reg_aware : isMarshalAware o = false;
  reg_fresh : isMarshalAware (createObject dsm) = false;
}.

Definition tight_object (dsm : DataStreamMarshaller S D) (o : D) (w : list bool) (bs : list Z) : Prop :=
  tight_codec (dsm_tightMarshal1 dsm wf) (dsm_tightMarshal2 dsm wf)
    (dsm_tightUnmarshal dsm wf (createObject dsm)) o w bs.

Definition loose_object (dsm : DataStreamMarshaller S D) (o : D) (bs : list Z) : Prop :=
  codec (dsm_looseMarshal dsm wf) (dsm_looseUnmarshal dsm wf (createObject dsm)) o bs.

Lemma marshaller_registered o dsm :
  registered o dsm ->
  u8 (getDataStructureType o) = getDataStructureType o /\
  marshaller dataMarshallers (getDataStructureType o) = Some dsm.
Proof.
  intros [Ht Hr _ _]. split; [apply wrapu_id; unfold in_u; lia|].
  unfold marshaller. by rewrite land_byte by (unfold in_u; lia).
Qed.

Lemma tight_nested_none :
  tight_codec (owf_tightMarshal1 dataMarshallers wf) (owf_tightMarshal2 dataMarshallers wf)
    (owf_tightUnmarshal dataMarshallers wf) None [false] [].
Proof.
  repeat split; unfold owf_tightMarshal1, owf_tightMarshal2, owf_tightUnmarshal; peel; flag;
    [apply sizes_ret|apply emits2_ret|apply parses2_ret].
Qed.

Lemma tight_nested_some o dsm w bs :
  registered o dsm -> tight_object dsm o w bs ->
  tight_codec (owf_tightMarshal1 dataMarshallers wf) (owf_tightMarshal2 dataMarshallers wf)
    (owf_tightUnmarshal dataMarshallers wf) (Some o) (true :: w)
    (getDataStructureType o :: bs).
Proof.
  intros Hreg (X1 & X2 & X3). destruct (marshaller_registered o dsm Hreg) as [Hu Hm].
  destruct Hreg as [Ht _ Ha Hf].
  repeat split; unfold owf_tightMarshal1, owf_tightMarshal2, owf_tightUnmarshal; peel; flag.
  - apply (sizes_bind _ _ [] w None).
    { unfold aware_size. rewrite Ha. apply sizes_ret. }
    rewrite Hu, Hm. zcmp. rewrite <- (app_nil_r w). eapply sizes_bind; [exact X1|].
    eapply sizes_eq; [apply sizes_ret|done|]. by rewrite zlen_cons.
  - rewrite Hu. apply (emits2_bind _ _ [] w [getDataStructureType o] bs tt).
    { apply emits2_fst. eapply emits_eq; [apply emits_writeByte|]. by rewrite Hu. }
    apply (emits2_bind _ _ [] w [] bs false).
    { unfold aware_flag. rewrite Ha. apply emits2_ret. }
    by rewrite Hm.
  - apply (parses2_bind _ _ [] w [getDataStructureType o] bs (s8 (getDataStructureType o))).
    { apply parses2_fst, parses_readByte. }
    rewrite wrapu_wraps, Hu, Hm by lia.
    apply (parses2_bind _ _ [] w [] bs false).
    { unfold aware_flag. rewrite Hf. apply parses2_ret. }
    rewrite <- (app_nil_r w), <- (app_nil_r bs).
    eapply parses2_bind; [exact X3|apply parses2_ret].
Qed.

Lemma loose_nested_none :
  codec (owf_looseMarshal dataMarshallers wf) (owf_looseUnmarshal dataMarshallers wf) None [0].
Proof.
  split; unfold owf_looseMarshal, owf_looseUnmarshal; peel.
  - apply (emits_bind _ _ [0] [] tt); [apply (emits_writeBoolean false)|apply emits_ret].
  - apply (parses_bind _ _ [0] [] false); [apply (parses_readBoolean 0)|apply parses_ret].
Qed.

Lemma loose_nested_some o dsm bs :
  registered o dsm -> loose_object dsm o bs ->
  codec (owf_looseMarshal dataMarshallers wf) (owf_looseUnmarshal dataMarshallers wf)
    (Some o) (1 :: getDataStructureType o :: bs).
Proof.
  intros Hreg [X1 X2]. destruct (marshaller_registered o dsm Hreg) as [Hu Hm].
  split; unfold owf_looseMarshal, owf_looseUnmarshal; peel.
  - apply (emits_bind _ _ [1] (getDataStructureType o :: bs) tt); [apply (emits_writeBoolean true)|].
    rewrite Hu, Hm. apply (emits_bind _ _ [getDataStructureType o] bs tt); [|done].
    eapply emits_eq; [apply emits_writeByte|]. by rewrite Hu.
  - apply (parses_bind _ _ [1] (getDataStructureType o :: bs) true); [apply (parses_readBoolean 1)|].
    apply (parses_bind _ _ [getDataStructureType o] bs (s8 (getDataStructureType o)));
      [apply parses_readByte|].
    rewrite wrapu_wraps, Hu, Hm by lia. rewrite <- (app_nil_r bs).
    eapply parses_bind; [exact X2|apply parses_ret].
Qed.
End nested_specs.

(** ** Frames *)

(** What goes over the wire for a body of [payload]. *)
Definition frame (f : OpenWireFormat) (payload : list Z) : list Z :=
  (if sizePrefixDisabled f then [] else be_bytes 4 (zlen payload)) ++ payload.

(** The flags of a first pass, as the bytes that go ahead of the fields. *)
Lemma flags_sent (m : M BooleanStream Z) w n :
  sizes m w n -> zlen w <= MAX_BITS ->
  exists b, m BooleanStream_new = (Ok n, b) /\ holds b w.
Proof. intros Hm Hw. exact (Hm _ _ holds_new ltac:(rewrite zlen_nil; lia)). Qed.

Section frame_specs.
Context {S D : Type} `{InputStreamLaws S} `{DataStructure D}.
Variable dataMarshallers : Z -> option (DataStreamMarshaller S D).

Lemma emits_prefix f n (bs : list Z) :
  n = zlen bs ->
  emits (if sizePrefixDisabled f then ret tt else writeInt n)
    (if sizePrefixDisabled f then [] else be_bytes 4 (zlen bs)) tt.
Proof. intros ->. destruct (sizePrefixDisabled f); [apply emits_ret|apply emits_writeInt]. Qed.

(** A tight body: its flags, then its fields, written and read back. *)
Lemma emits_tight f wf dsm type o w bs b :
  0 < type < 256 -> holds b w ->
  dsm_tightMarshal1 dsm wf o BooleanStream_new = (Ok (zlen bs), b) ->
  emits2 (dsm_tightMarshal2 dsm wf o) w bs tt ->
  emits (marshal_tight (S := S) (D := D) f wf dsm type o)
    (frame f (type :: wire_form b ++ bs)) tt.
Proof.
  intros Ht Hb E1 He2 os Hos. unfold marshal_tight, with_object.
  rewrite (bind_ok _ _ _ _ _ (on_snd_ok _ _ _ _ _ E1)).
  rewrite (bind_ok _ _ _ b (os, b)) by done. cbv zeta.
  assert (1 + zlen bs + bs_marshalledSize b = zlen (type :: wire_form b ++ bs)) as Hsize.
  { rewrite <- (wire_form_length b w) by done. autorewrite with amq_len. lia. }
  set (os1 := emit (if sizePrefixDisabled f then []
                    else be_bytes 4 (zlen (type :: wire_form b ++ bs))) os).
  rewrite (bind_ok _ _ _ tt (os1, b)); cycle 1.
  { pose proof (emits_prefix f _ _ Hsize os Hos) as Ep. fold os1 in Ep.
    destruct (sizePrefixDisabled f); [|by apply on_fst_ok].
    unfold ret in *. by injection Ep as <-. }
  assert (usable os1) as Hos1 by by apply usable_emit.
  rewrite (bind_ok _ _ _ _ _ (on_fst_ok _ _ _ _ _ (emits_writeByte type os1 Hos1))).
  rewrite (bind_ok _ _ _ _ _ (marshal_spec b w _ Hb (usable_emit _ _ Hos1))).
  destruct (He2 (emit (wire_form b) (emit [u8 type] os1)) (cleared b) []) as (b' & E2 & _).
  { by do 2 apply usable_emit. }
  { rewrite app_nil_r. by apply yields_cleared. }
  rewrite E2. unfold os1. rewrite !emit_emit, wrapu_id by (unfold in_u; lia).
  done.
Qed.

Lemma parses_tight {A} (mr : M (DataInputStream S * BooleanStream) A) w bs a b :
  holds b w -> parses2 mr w bs a ->
  parses (with_object BooleanStream_new (bs_unmarshal ;;; mr)) (wire_form b ++ bs) a.
Proof.
  intros Hb Hr d rest Hd Ha. pose proof (holds_limit_range b w Hb) as Hn.
  pose proof (wire_form_bits b w Hb) as [k Hk].
  set (payload := take (Z.to_nat (arrayLimit b)) (data b)) in *.
  assert (zlen payload = arrayLimit b) as Hlen.
  { destruct Hb as [_ _ _ _ Hs _ _]. unfold payload, zlen in *. rewrite length_take. lia. }
  unfold wire_form in Ha. fold payload in Ha. rewrite <- !app_assoc in Ha.
  destruct (unmarshal_spec d BooleanStream_new (arrayLimit b) payload (bs ++ rest))
    as (d1 & E1 & Hd1 & Ha1); [done..|].
  destruct (Hr d1 {| data := payload; arrayLimit := arrayLimit b; arrayPos := 0; bytePos := 0 |}
    [] rest) as (d2 & b2 & E2 & Hd2 & Ha2 & _); [done|done| |].
  { rewrite app_nil_r. split; cbn [data arrayLimit arrayPos bytePos]; [lia|lia| |by eauto].
    destruct Hb. lia. }
  exists d2. split; [|done]. unfold with_object.
  by rewrite (bind_ok _ _ _ _ _ E1), E2.
Qed.

(** Reading a frame's body, with the options [f]. *)
Lemma parses_doUnmarshal_body fuel f o dsm body :
  registered dataMarshallers o dsm ->
  parses (if tightEncodingEnabled f then
            with_object BooleanStream_new
              (bs_unmarshal ;;; dsm_tightUnmarshal dsm (wire dataMarshallers f fuel) (createObject dsm))
          else dsm_looseUnmarshal dsm (wire dataMarshallers f fuel) (createObject dsm)) body o ->
  parses (doUnmarshal_body dataMarshallers fuel f) (getDataStructureType o :: body) (Some o).
Proof.
  intros Hreg Hp. destruct (marshaller_registered dataMarshallers o dsm Hreg) as [Hu Hm].
  destruct Hreg as [Ht _ _ _]. unfold doUnmarshal_body.
  apply (parses_bind _ _ [getDataStructureType o] body (s8 (getDataStructureType o)));
    [apply parses_readByte|].
  rewrite wrapu_wraps, Hu by lia. cbv zeta. unfold NULL_TYPE. zcmp. rewrite Hm.
  rewrite <- (app_nil_r body). eapply parses_bind; [exact Hp|apply parses_ret].
Qed.

(** Whatever the body does, the finalizer leaves the wire format not receiving. *)
Lemma unmarshal_frame fuel f o dsm transport payload d rest :
  registered dataMarshallers o dsm -> zlen payload <= INT_MAX ->
  parses (doUnmarshal_body dataMarshallers fuel (with_receiving true transport f)) payload (Some o) ->
  ready d -> avail d = frame f payload ++ rest ->
  exists d', unmarshal dataMarshallers fuel transport false (d, f) =
      (Ok (if isCommand o then Some o else None), (d', with_receiving false None f)) /\
    ready d' /\ avail d' = rest.
Proof.
  intros Hreg Hlen Hp Hd Ha. pose proof (zlen_nonneg payload).
  assert (exists d1, (if sizePrefixDisabled f then ret tt else (on_fst readInt ;;; ret tt)) (d, f)
      = (Ok tt, (d1, f)) /\ ready d1 /\ avail d1 = payload ++ rest) as (d1 & E1 & Hd1 & Ha1).
  { unfold frame in Ha. destruct (sizePrefixDisabled f); [by exists d|].
    rewrite <- app_assoc in Ha.
    destruct (codec_int (S := S) (zlen payload)) as [_ Hi]; [unfold in_s, INT_MAX in *; lia|].
    destruct (Hi d _ Hd Ha) as (d1 & E & ? & ?).
    exists d1. split; [|done]. by rewrite (bind_ok _ _ _ _ _ (on_fst_ok _ _ _ _ _ E)). }
  destruct (Hp d1 rest Hd1 Ha1) as (d2 & E2 & Hd2 & Ha2).
  exists d2. split; [|done]. apply catch_io_ok.
  rewrite (bind_ok _ _ _ f (d, f)) by done. rewrite (bind_ok _ _ _ _ _ E1).
  assert (doUnmarshal dataMarshallers fuel transport (d1, f) =
    (Ok (Some o), (d2, with_receiving false None f))) as E;
    [|by rewrite (bind_ok _ _ _ _ _ E)].
  apply catch_io_ok. rewrite (bind_ok _ _ _ f (d1, f)) by done.
  rewrite (bind_ok _ _ _ tt (d1, with_receiving (receiving f) transport f)) by done.
  unfold finally. rewrite (bind_ok _ _ _ tt (d1, with_receiving true transport f)) by done.
  rewrite (bind_ok _ _ _ (with_receiving true transport f) (d1, with_receiving true transport f))
    by done.
  by rewrite (on_fst_ok _ _ _ _ _ E2).
Qed.
(** The options a marshaller sees do not depend on who is receiving. *)
Lemma wire_with_receiving r t f fuel :
  wire dataMarshallers (with_receiving r t f) fuel = wire dataMarshallers f fuel.
Proof. induction fuel as [|fuel IH]; [done|]. cbn [wire]. rewrite IH. done. Qed.

(** Marshalling [o] gives bytes from which the other side, with the same options,
    reads [o] and nothing beyond. *)
Definition delivers (fuel : nat) (f : OpenWireFormat) (o : D) : Prop :=
  exists fr,
    (forall t, emits (marshal (S := S) dataMarshallers fuel f (Some t) false (Some o)) fr tt) /\
    (exists payload, fr = frame f payload /\ zlen payload <= INT_MAX) /\
    forall (d : DataInputStream S) rest transport, ready d -> avail d = fr ++ rest ->
    exists d', unmarshal dataMarshallers fuel transport false (d, f) =
        (Ok (if isCommand o then Some o else None), (d', with_receiving false None f)) /\
      ready d' /\ avail d' = rest.

(** The largest field section of a tight command: the flags take the rest. *)
Definition MAX_FIELDS : Z := INT_MAX - 32771.

Lemma delivers_tight fuel f o dsm w bs :
  tightEncodingEnabled f = true -> registered dataMarshallers o dsm ->
  tight_object (wire dataMarshallers f fuel) dsm o w bs ->
  zlen w <= MAX_BITS -> zlen bs <= MAX_FIELDS ->
  delivers fuel f o.
Proof.
  intros Hf Hreg (X1 & X2 & X3) Hw Hbs.
  destruct (marshaller_registered dataMarshallers o dsm Hreg) as [Hu Hm].
  destruct (flags_sent _ _ _ X1 Hw) as (b & E1 & Hb).
  assert (0 < getDataStructureType o < 256) as Ht by apply Hreg.
  assert (zlen (getDataStructureType o :: wire_form b ++ bs) <= INT_MAX) as Hlen.
  { pose proof (holds_limit_range b w Hb). autorewrite with amq_len.
    rewrite (wire_form_length b w) by done. unfold bs_marshalledSize, MAX_FIELDS, INT_MAX, SHORT_MAX in *.
    repeat case_match; lia. }
  exists (frame f (getDataStructureType o :: wire_form b ++ bs)). split_and!.
  - intros t. unfold marshal. apply emits_catch_io. rewrite Hu, Hm, Hf. by eapply emits_tight.
  - by eexists.
  - intros d rest transport Hd Ha. eapply unmarshal_frame; try done.
    apply (parses_doUnmarshal_body fuel _ o dsm (wire_form b ++ bs)); [done|].
    rewrite wire_with_receiving. cbn. rewrite Hf. by apply (parses_tight _ w).
Qed.

Lemma delivers_loose fuel f o dsm bs :
  tightEncodingEnabled f = false -> registered dataMarshallers o dsm ->
  loose_object (wire dataMarshallers f fuel) dsm o bs -> zlen bs < INT_MAX ->
  delivers fuel f o.
Proof.
  intros Hf Hreg [X1 X2] Hbs.
  destruct (marshaller_registered dataMarshallers o dsm Hreg) as [Hu Hm].
  assert (0 < getDataStructureType o < 256) as Ht by apply Hreg.
  assert (emits (writeByte (getDataStructureType o) ;;;
    dsm_looseMarshal dsm (wire dataMarshallers f fuel) o) (getDataStructureType o :: bs) tt) as Hbody.
  { apply (emits_bind _ _ [getDataStructureType o] bs tt); [|done].
    eapply emits_eq; [apply emits_writeByte|]. by rewrite Hu. }
  pose proof (zlen_nonneg bs).
  exists (frame f (getDataStructureType o :: bs)). split_and!.
  - intros t. unfold marshal. apply emits_catch_io. cbv zeta. rewrite Hu, Hm, Hf.
    unfold marshal_loose, frame. destruct (sizePrefixDisabled f); [done|].
    unfold written_by. rewrite (Hbody _ usable_new). cbn [outputStream emit DataOutputStream_new fmap option_fmap option_map app].
    rewrite wraps_id by zlia.
    apply (emits_bind _ _ [] _ tt); [intros os Hos; by rewrite emit_nil|].
    apply (emits_bind _ _ (be_bytes 4 (zlen (getDataStructureType o :: bs))) _ tt);
      [apply emits_writeInt|]. zcmp.
    apply emits_write_array. zlia.
  - eexists. split; [done|]. zlia.
  - intros d rest transport Hd Ha. eapply unmarshal_frame; try done; [zlia|].
    apply (parses_doUnmarshal_body fuel _ o dsm bs); [done|].
    rewrite wire_with_receiving. cbn. by rewrite Hf.
Qed.
End frame_specs.

(** The finalizer restores the state of the wire format however reading ends. *)
Lemma rethrow_state {T A} keep to (m : M T A) s r s' :
  rethrow keep to m s = (r, s') -> exists r0, m s = (r0, s').
Proof. unfold rethrow. destruct (m s) as [[] s0]; intros E; injection E as <- <-; eauto. Qed.

Lemma doUnmarshal_state {S D} `{InputStream S} `{DataStructure D} dataMarshallers fuel t
    (d : DataInputStream S) f r d' f' :
  doUnmarshal (D := D) dataMarshallers fuel t (d, f) = (r, (d', f')) ->
  f' = with_receiving false None f.
Proof.
  unfold doUnmarshal, catch_io. intros E. apply rethrow_state in E as [r0 E].
  revert E. unfold finally, bind, on_snd, get, modify, on_fst. cbn.
  destruct (doUnmarshal_body _ _ _ d) as [? ?]. by intros [= <- <- <-].
Qed.

(** ** Properties *)

(** Two peers that advertise their options and renegotiate with what they receive
    end with the same options, each the conjunction or the smaller of the two. *)
Theorem renegotiation_agrees p q f g :
  preferedWireFormatInfo f = Some p -> preferedWireFormatInfo g = Some q ->
  Z.min (wfi_version p) (wfi_version q) <= MAX_SUPPORTED_VERSION ->
  exists f' g', renegotiateWireFormat q f = (Ok tt, f') /\
    renegotiateWireFormat p g = (Ok tt, g') /\ negotiated p q f' /\ negotiated p q g'.
Proof.
  intros Hf Hg Hv. destruct (renegotiate_ok p q f Hf Hv) as (f' & Ef & Nf & _).
  destruct (renegotiate_ok q p g Hg) as (g' & Eg & Ng & _); [by rewrite Z.min_comm|].
  exists f', g'. by rewrite negotiated_sym in Ng.
Qed.

Definition client_info : WireFormatInfo := mkWFI 11 true true true 1024 true false 30000 10000.
Definition broker_info : WireFormatInfo := mkWFI 9 false true true 512 false false 10000 0.
Definition format_with (p : WireFormatInfo) : OpenWireFormat :=
  mkOWF (Some p) false None 1 true true true 1024 false false 30000 10000.

Lemma renegotiation_agrees_witness :
  exists f' g', renegotiateWireFormat broker_info (format_with client_info) = (Ok tt, f') /\
    renegotiateWireFormat client_info (format_with broker_info) = (Ok tt, g') /\
    negotiated client_info broker_info f' /\ negotiated client_info broker_info g'.
Proof. by apply renegotiation_agrees. Defined.

(** Renegotiating to a version above the supported one, or before this side has
    advertised its own options, throws and leaves the wire format as it was. *)
Theorem renegotiation_refused info f :
  match preferedWireFormatInfo f with
  | None => renegotiateWireFormat info f = (Throw IllegalStateException, f)
  | Some p =>
      let v := Z.min (wfi_version p) (wfi_version info) in
      MAX_SUPPORTED_VERSION < v -> v <> version f ->
      renegotiateWireFormat info f = (Throw IllegalArgumentException, f)
  end.
Proof.
  destruct (preferedWireFormatInfo f) as [p|] eqn:Hp; [intros v Hv Hne|];
    unfold renegotiateWireFormat, bind at 1, get; rewrite Hp; [|done].
  by rewrite (bind_throw _ _ _ _ _ (setVersion_refused _ _ Hne Hv)).
Qed.

Lemma renegotiation_refused_witness :
  let new := mkWFI 12 true true true 1024 true false 30000 10000 in
  renegotiateWireFormat new (format_with new) =
    (Throw IllegalArgumentException, format_with new).
Proof.
  pose proof (renegotiation_refused (mkWFI 12 true true true 1024 true false 30000 10000)
    (format_with (mkWFI 12 true true true 1024 true false 30000 10000))) as R.
  apply R; by vm_compute.
Defined.

(** Against the interface of the marshallers: a nested object, NULL or one whose
    marshaller gives it back, passes through the nested operations unchanged in both
    encodings. *)
Theorem nested_object_roundtrip {S D} `{InputStreamLaws S} `{DataStructure D}
    dataMarshallers (wf : WireFormat S D) (object : option D) dsm w bs lbs :
  (forall o, object = Some o ->
     registered dataMarshallers o dsm /\ tight_object wf dsm o w bs /\ loose_object wf dsm o lbs) ->
  tight_codec (owf_tightMarshal1 dataMarshallers wf) (owf_tightMarshal2 dataMarshallers wf)
    (owf_tightUnmarshal dataMarshallers wf) object
    (match object with Some _ => true :: w | None => [false] end)
    (match object with Some o => getDataStructureType o :: bs | None => [] end) /\
  codec (owf_looseMarshal dataMarshallers wf) (owf_looseUnmarshal dataMarshallers wf) object
    (match object with Some o => 1 :: getDataStructureType o :: lbs | None => [0] end).
Proof.
  destruct object as [o|]; intros Hok.
  - destruct (Hok o eq_refl) as (Hr & Ht & Hl).
    split; [by eapply tight_nested_some|by eapply loose_nested_some].
  - split; [apply tight_nested_none|apply loose_nested_none].
Qed.

(** C13: A whole command, against the same interface: the frame that marshalling gives is
    read back by a peer with the same options, whatever follows it on the stream, and
    a structure that is no command is answered with NULL. *)
Theorem command_frame_roundtrip {S D} `{InputStreamLaws S} `{DataStructure D}
    dataMarshallers fuel f (o : D) (dsm : DataStreamMarshaller S D) w bs lbs :
  registered dataMarshallers o dsm ->
  tight_object (wire dataMarshallers f fuel) dsm o w bs ->
  loose_object (wire dataMarshallers f fuel) dsm o lbs ->
  zlen w <= MAX_BITS -> zlen bs <= MAX_FIELDS -> zlen lbs < INT_MAX ->
  delivers dataMarshallers fuel f o.
Proof.
  intros Hr Ht Hl Hw Hbs Hlbs. destruct (tightEncodingEnabled f) eqn:Hf.
  - by eapply delivers_tight.
  - by eapply delivers_loose.
Qed.

(** Reading leaves the wire format not receiving and without a transport, however it
    ends, unless it fails before the body is reached, which changes nothing. *)
Theorem unmarshal_releases {S D} `{InputStream S} `{DataStructure D} dataMarshallers fuel t null
    (d : DataInputStream S) f :
  let f' := (unmarshal (D := D) dataMarshallers fuel t null (d, f)).2.2 in
  f' = f \/ f' = with_receiving false None f.
Proof.
  cbv zeta. destruct (unmarshal _ _ _ _ _) as [r [d' f']] eqn:E. cbn [snd].
  unfold unmarshal, catch_io in E. apply rethrow_state in E as [r0 E].
  destruct null; [injection E as _ _ <-; by left|].
  unfold bind at 1 in E. unfold on_snd at 1, get in E. cbn iota beta in E.
  cbn [fst snd] in E.
  match type of E with
  | bind ?m _ _ = _ => destruct (m (d, f)) as [r1 [d1 f1]] eqn:E1
  end.
  assert (f1 = f) as ->.
  { destruct (sizePrefixDisabled f); [by injection E1|]. revert E1. unfold bind, on_fst.
    cbn [fst snd]. destruct (readInt d) as [[] ?]; intros E1; by injection E1. }
  unfold bind at 1 in E. rewrite E1 in E.
  destruct r1; try (injection E as _ _ <-; by left).
  destruct (doUnmarshal dataMarshallers fuel t (d1, f)) as [r2 [d2 f2]] eqn:E2.
  pose proof (doUnmarshal_state _ _ _ _ _ _ _ _ E2) as ->.
  unfold bind in E. rewrite E2 in E. destruct r2 as [[o|]| | |]; injection E as _ _ <-; by right.
Qed.

(** The NULL command is written with its length whatever the options, and what is
    written is no command for the reader: with or without size prefixes it throws an
    [IOException], and without them the rest of the frame stays in the stream. *)
Theorem null_command_unreadable {S D} `{InputStreamLaws S} `{DataStructure D} dataMarshallers
    fuel f t (d : DataInputStream S) rest :
  emits (marshal (S := S) (D := D) dataMarshallers fuel f (Some t) false None) [0; 0; 0; 1; 0] tt /\
  (ready d -> avail d = [0; 0; 0; 1; 0] ++ rest ->
   exists d', unmarshal (D := D) dataMarshallers fuel (Some t) false (d, f) =
       (Throw IOException, (d', with_receiving false None f)) /\
     avail d' = (if sizePrefixDisabled f then [0; 0; 1; 0] ++ rest else rest)).
Proof.
  split.
  - unfold marshal. apply emits_catch_io.
    apply (emits_bind _ _ [0; 0; 0; 1] [0] tt); [apply emits_writeInt|apply (emits_writeByte 0)].
  - intros Hd Ha.
    assert (exists d1, (if sizePrefixDisabled f then ret tt else (on_fst readInt ;;; ret tt)) (d, f)
        = (Ok tt, (d1, f)) /\ ready d1 /\
        avail d1 = 0 :: (if sizePrefixDisabled f then [0; 0; 1; 0] ++ rest else rest))
      as (d1 & E1 & Hd1 & Ha1).
    { destruct (sizePrefixDisabled f); [by exists d|].
      destruct (codec_int (S := S) 1) as [_ Hi]; [unfold in_s; lia|].
      destruct (Hi d (0 :: rest) Hd Ha) as (d1 & E & ? & ?).
      exists d1. split; [|done]. by rewrite (bind_ok _ _ _ _ _ (on_fst_ok _ _ _ _ _ E)). }
    destruct (parses_readByte 0 d1 _ Hd1 Ha1) as (d2 & E2 & _ & Ha2).
    exists d2. split; [|done]. unfold unmarshal. apply (catch_io_throw _ _ IOException).
    rewrite (bind_ok _ _ _ f (d, f)) by done. rewrite (bind_ok _ _ _ _ _ E1).
    assert (doUnmarshal (D := D) dataMarshallers fuel (Some t) (d1, f) =
      (Ok None, (d2, with_receiving false None f))) as E; [|by rewrite (bind_ok _ _ _ _ _ E)].
    apply catch_io_ok. unfold finally, bind, on_snd, get, modify. cbn -[doUnmarshal_body].
    unfold on_fst, doUnmarshal_body. cbn -[readByte]. by rewrite (bind_ok _ _ _ _ _ E2).
Qed.

(** A structure of one [int] field, for the examples below. *)
Definition counter_structure : DataStructure Z :=
  {| getDataStructureType _ := 7; isMarshalAware _ := false; getMarshaledForm _ := [];
     isCommand _ := true |}.
#[local] Existing Instance counter_structure.

Definition counter_marshaller : DataStreamMarshaller (list (list Z)) Z := {|
  createObject := 0;
  dsm_tightMarshal1 _ _ := ret 4;
  dsm_tightMarshal2 _ n := on_fst (writeInt n);
  dsm_tightUnmarshal _ _ := on_fst readInt;
  dsm_looseMarshal _ n := writeInt n;
  dsm_looseUnmarshal _ _ := readInt;
|}.
Definition counter_table (type : Z) : option (DataStreamMarshaller (list (list Z)) Z) :=
  if type =? 7 then Some counter_marshaller else None.

Lemma counter_objects (wf : WireFormat (list (list Z)) Z) :
  registered counter_table 1000 counter_marshaller /\
  tight_object wf counter_marshaller 1000 [] [0; 0; 3; 232] /\
  loose_object wf counter_marshaller 1000 [0; 0; 3; 232].
Proof.
  destruct (codec_int (S := list (list Z)) 1000) as [Hw Hr]; [by vm_compute|].
  split_and!; [split; done| |by split].
  repeat split; cbn; [|by apply emits2_fst|by apply parses2_fst].
  eapply sizes_eq; [apply sizes_ret|done|done].
Qed.

Lemma nested_object_roundtrip_witness :
  let wf := wire (S := list (list Z)) counter_table (format_with client_info) 0 in
  tight_codec (owf_tightMarshal1 counter_table wf) (owf_tightMarshal2 counter_table wf)
    (owf_tightUnmarshal counter_table wf) (Some 1000) [true] [7; 0; 0; 3; 232] /\
  codec (owf_looseMarshal counter_table wf) (owf_looseUnmarshal counter_table wf) (Some 1000)
    [1; 7; 0; 0; 3; 232].
Proof.
  refine (nested_object_roundtrip counter_table
    (wire (S := list (list Z)) counter_table (format_with client_info) 0) (Some 1000)
    counter_marshaller [] [0; 0; 3; 232] [0; 0; 3; 232] _).
  intros o [= <-]. apply counter_objects.
Defined.

Lemma command_frame_roundtrip_witness :
  delivers (S := list (list Z)) counter_table 0 (format_with client_info) 1000.
Proof.
  apply (command_frame_roundtrip counter_table 0 (format_with client_info) 1000
    counter_marshaller [] [0; 0; 3; 232] [0; 0; 3; 232]);
    solve [apply counter_objects|apply (counter_objects (wire counter_table (format_with client_info) 0))
          |by vm_compute].
Defined.

Lemma null_command_unreadable_witness :
  let f := format_with client_info in
  let d := mkDIS (Some [[0; 0]; [0; 1; 0; 10]]) in
  exists d', unmarshal (D := Z) counter_table 0 (Some 1) false (d, f) =
      (Throw IOException, (d', with_receiving false None f)) /\ avail d' = [10].
Proof.
  exact (proj2 (null_command_unreadable counter_table 0 (format_with client_info) 1
    (mkDIS (Some [[0; 0]; [0; 1; 0; 10]])) [10]) ltac:(by eexists) eq_refl).
Defined.
