(* ===== verification/Fields.v ===== *)
(** * The command marshallers' bodies, field by field.

    A generated marshaller (wireformat/openwire/marshal/generated/*.cpp) is five
    methods that walk over the same fields in the same order: a first and a second
    tight pass, tight unmarshalling, and the loose pair.  A [Field] is one field's
    line in each of them; [f_seq] puts lines one behind the other, and
    [marshaller_of] makes the methods of the result a [DataStreamMarshaller].

    [carried wf o nw nb]: the table's marshaller gives [o] back in both encodings,
    in at most [nw] flags and [nb] bytes. *)
From S2P Require Import Prelude DataOutput DataInput Codec BooleanStream TightCodec BaseDataStreamMarshaller OpenWireFormat.

Section fields.
Context {S D : Type} `{InputStream S}.

Record Field (R : Type) : Type := mkField {
  put1 : WireFormat S D -> R -> M BooleanStream Z;
  put2 : WireFormat S D -> R -> M (DataOutputStream * BooleanStream) unit;
  get_t : WireFormat S D -> R -> M (DataInputStream S * BooleanStream) R;
  put_l : WireFormat S D -> R -> M DataOutputStream unit;
  get_l : WireFormat S D -> R -> M (DataInputStream S) R;
}.
Arguments mkField {R}.
Arguments put1 {R}.
Arguments put2 {R}.
Arguments get_t {R}.
Arguments put_l {R}.
Arguments get_l {R}.

Definition f_nil {R} : Field R := {|
  put1 wf r := ret 0;
  put2 wf r := ret tt;
  get_t wf r := ret r;
  put_l wf r := ret tt;
  get_l wf r := ret r;
|}.

Definition f_then {R} (F G : Field R) : Field R := {|
  put1 wf r := a <- put1 F wf r ;; b <- put1 G wf r ;; ret (a + b);
  put2 wf r := put2 F wf r ;;; put2 G wf r;
  get_t wf r := r' <- get_t F wf r ;; get_t G wf r';
  put_l wf r := put_l F wf r ;;; put_l G wf r;
  get_l wf r := r' <- get_l F wf r ;; get_l G wf r';
|}.

Fixpoint f_seq {R} (Fs : list (Field R)) : Field R :=
  match Fs with [] => f_nil | F :: Fs' => f_then F (f_seq Fs') end.

(** [if (wireVersion >= v)] *)
Definition f_since {R} (v : Z) (F : Field R) : Field R := {|
  put1 wf r := if v <=? @wireVersion _ _ wf then put1 F wf r else ret 0;
  put2 wf r := if v <=? @wireVersion _ _ wf then put2 F wf r else ret tt;
  get_t wf r := if v <=? @wireVersion _ _ wf then get_t F wf r else ret r;
  put_l wf r := if v <=? @wireVersion _ _ wf then put_l F wf r else ret tt;
  get_l wf r := if v <=? @wireVersion _ _ wf then get_l F wf r else ret r;
|}.

(** The base class's lines. *)
Definition f_base {R B} (get : R -> B) (set : B -> R -> R) (F : Field B) : Field R := {|
  put1 wf r := catch_io (put1 F wf (get r));
  put2 wf r := catch_io (put2 F wf (get r));
  get_t wf r := b <- catch_io (get_t F wf (get r)) ;; ret (set b r);
  put_l wf r := catch_io (put_l F wf (get r));
  get_l wf r := b <- catch_io (get_l F wf (get r)) ;; ret (set b r);
|}.

Section accessors.
Context {R A : Type}.
Variables (get : R -> A) (set : A -> R -> R).

(** Read a value and store it. *)
Definition store {T} (m : M T A) (r : R) : M T R := a <- m ;; ret (set a r).
End accessors.

Definition f_string {R} (get : R -> list Z) (set : list Z -> R -> R) : Field R := {|
  put1 wf r := tightMarshalString1 (get r);
  put2 wf r := tightMarshalString2 (get r);
  get_t wf r := store set tightUnmarshalString r;
  put_l wf r := looseMarshalString (get r);
  get_l wf r := store set looseUnmarshalString r;
|}.

Definition f_long {R} (get : R -> Z) (set : Z -> R -> R) : Field R := {|
  put1 wf r := tightMarshalLong1 (get r);
  put2 wf r := tightMarshalLong2 (get r);
  get_t wf r := store set tightUnmarshalLong r;
  put_l wf r := looseMarshalLong (get r);
  get_l wf r := store set looseUnmarshalLong r;
|}.

(** The constant sizes are the [+ 4], [+ 1] of the first pass's result. *)
Definition f_int {R} (get : R -> Z) (set : Z -> R -> R) : Field R := {|
  put1 wf r := ret 4;
  put2 wf r := on_fst (writeInt (get r));
  get_t wf r := store set (on_fst readInt) r;
  put_l wf r := writeInt (get r);
  get_l wf r := store set readInt r;
|}.

(** [write(info->getX())], an [unsigned char]; [setX(readByte())]. *)
Definition f_byte {R} (get : R -> Z) (set : Z -> R -> R) : Field R := {|
  put1 wf r := ret 1;
  put2 wf r := on_fst (catch_io (doWriteByte (get r)));
  get_t wf r := store (fun v => set (u8 v)) (on_fst readByte) r;
  put_l wf r := catch_io (doWriteByte (get r));
  get_l wf r := store (fun v => set (u8 v)) readByte r;
|}.

Definition f_bool {R} (get : R -> bool) (set : bool -> R -> R) : Field R := {|
  put1 wf r := bs_writeBoolean (get r) ;;; ret 0;
  put2 wf r := on_snd bs_readBoolean ;;; ret tt;
  get_t wf r := store set (on_snd bs_readBoolean) r;
  put_l wf r := writeBoolean (get r);
  get_l wf r := store set readBoolean r;
|}.

(** A pointer to an object of another class: what comes back is [dynamic_cast]. *)
Definition f_cached {R A} (inj : A -> D) (proj : D -> option A)
    (get : R -> option A) (set : option A -> R -> R) : Field R := {|
  put1 wf r := tightMarshalCachedObject1 (inj <$> get r);
  put2 wf r := tightMarshalCachedObject2 (inj <$> get r);
  get_t wf r := store (fun o => set (o ≫= proj)) tightUnmarshalCachedObject r;
  put_l wf r := looseMarshalCachedObject (inj <$> get r);
  get_l wf r := store (fun o => set (o ≫= proj)) looseUnmarshalCachedObject r;
|}.

Definition f_nested {R A} (inj : A -> D) (proj : D -> option A)
    (get : R -> option A) (set : option A -> R -> R) : Field R := {|
  put1 wf r := tightMarshalNestedObject1 (inj <$> get r);
  put2 wf r := tightMarshalNestedObject2 (inj <$> get r);
  get_t wf r := store (fun o => set (o ≫= proj)) tightUnmarshalNestedObject r;
  put_l wf r := looseMarshalNestedObject (inj <$> get r);
  get_l wf r := store (fun o => set (o ≫= proj)) looseUnmarshalNestedObject r;
|}.

(** [fuel] bounds the chain of causes that is read back. *)
Definition f_error {R} (fuel : nat) (get : R -> BrokerError) (set : BrokerError -> R -> R) : Field R := {|
  put1 wf r := tightMarshalBrokerError1 (get r);
  put2 wf r := tightMarshalBrokerError2 (get r);
  get_t wf r := store set (tightUnmarshalBrokerError fuel) r;
  put_l wf r := looseMarshalBrokerError (get r);
  get_l wf r := store set (looseUnmarshalBrokerError fuel) r;
|}.

(** [dynamic_cast<T*>(dataStructure)] of another class's object is NULL, and
    dereferencing it undefined. *)
Definition marshaller_of {R} (inj : R -> D) (proj : D -> option R) (fresh : R) (F : Field R) :
    DataStreamMarshaller S D :=
  let cast {T A} (o : D) (k : R -> M T A) : M T A :=
    match proj o with Some r => catch_io (k r) | None => undefined end in
  {| createObject := inj fresh;
     dsm_tightMarshal1 wf o := cast o (put1 F wf);
     dsm_tightMarshal2 wf o := cast o (put2 F wf);
     dsm_tightUnmarshal wf o := cast o (fun r => r' <- get_t F wf r ;; ret (inj r'));
     dsm_looseMarshal wf o := cast o (put_l F wf);
     dsm_looseUnmarshal wf o := cast o (fun r => r' <- get_l F wf r ;; ret (inj r')) |}.

End fields.
Arguments Field S D R : clear implicits.
Arguments mkField {S D R}.
Arguments put1 {S D R}.
Arguments put2 {S D R}.
Arguments get_t {S D R}.
Arguments put_l {S D R}.
Arguments get_l {S D R}.

(** ** What a field promises *)

Section field_specs.
Context {S D : Type} `{InputStreamLaws S} `{DataStructure D}.
Implicit Types (wf : WireFormat S D).

(** [upd r r0] is [r0] with the field's value in [r]. *)
Definition field_ok {R} wf (F : Field S D R) (upd : R -> R -> R) (nw nb : Z) (r : R) : Prop :=
  exists w bs lbs,
    zlen w <= nw /\ zlen bs <= nb /\ zlen lbs <= nb /\
    sizes (put1 F wf r) w (zlen bs) /\ emits2 (put2 F wf r) w bs tt /\
    (forall r0, parses2 (get_t F wf r0) w bs (upd r r0)) /\
    emits (put_l F wf r) lbs tt /\ (forall r0, parses (get_l F wf r0) lbs (upd r r0)).

Lemma field_nil {R} wf (r : R) : field_ok wf f_nil (fun _ r0 => r0) 0 0 r.
Proof.
  exists [], [], []. split_and!; try done; intros; cbn.
  - apply sizes_ret.
  - apply emits2_ret.
  - apply parses2_ret.
  - apply emits_ret.
  - apply parses_ret.
Qed.

Lemma field_then {R} wf F G (u v : R -> R -> R) nw nb mw mb r :
  field_ok wf F u nw nb r -> field_ok wf G v mw mb r ->
  field_ok wf (f_then F G) (fun r r0 => v r (u r r0)) (nw + mw) (nb + mb) r.
Proof.
  intros (w & bs & lbs & Hw & Hbs & Hl & F1 & F2 & F3 & F4 & F5)
         (w' & bs' & lbs' & Hw' & Hbs' & Hl' & G1 & G2 & G3 & G4 & G5).
  exists (w ++ w'), (bs ++ bs'), (lbs ++ lbs').
  rewrite !zlen_app. split_and!; try lia; intros; cbn.
  - eapply sizes_bind; [exact F1|]. rewrite <- (app_nil_r w').
    eapply sizes_bind; [exact G1|]. apply sizes_ret.
  - by eapply emits2_bind.
  - by eapply parses2_bind.
  - by eapply emits_bind.
  - by eapply parses_bind.
Qed.

Lemma field_weaken {R} wf (F : Field S D R) u nw nb nw' nb' r :
  field_ok wf F u nw nb r -> nw <= nw' -> nb <= nb' -> field_ok wf F u nw' nb' r.
Proof.
  intros (w & bs & lbs & ? & ? & ? & ?) ??. exists w, bs, lbs. split_and!; try lia; tauto.
Qed.

Lemma field_since {R} wf v F (u : R -> R -> R) nw nb r :
  0 <= nw -> 0 <= nb -> (v <= @wireVersion _ _ wf -> field_ok wf F u nw nb r) ->
  field_ok wf (f_since v F)
    (fun r r0 => if v <=? @wireVersion _ _ wf then u r r0 else r0) nw nb r.
Proof.
  intros Hnw Hnb HF. destruct (Z.leb_spec v (@wireVersion _ _ wf)) as [Hv|Hv].
  - destruct (HF Hv) as (w & bs & lbs & Hw & Hbs & Hl & F1 & F2 & F3 & F4 & F5).
    exists w, bs, lbs. cbn. by rewrite (proj2 (Z.leb_le _ _) Hv).
  - destruct (field_nil wf r) as (w & bs & lbs & ? & ? & ? & F1 & F2 & F3 & F4 & F5).
    exists w, bs, lbs. cbn. rewrite (proj2 (Z.leb_gt _ _) Hv). split_and!; done || lia.
Qed.

Lemma parses2_store {R A} (m : M (DataInputStream S * BooleanStream) A) (set : A -> R -> R) w bs a r :
  parses2 m w bs a -> parses2 (store set m r) w bs (set a r).
Proof.
  intros Hm. rewrite <- (app_nil_r w), <- (app_nil_r bs).
  eapply parses2_bind; [exact Hm|apply parses2_ret].
Qed.

Lemma parses_store {R A} (m : M (DataInputStream S) A) (set : A -> R -> R) bs a r :
  parses m bs a -> parses (store set m r) bs (set a r).
Proof.
  intros Hm. rewrite <- (app_nil_r bs). eapply parses_bind; [exact Hm|apply parses_ret].
Qed.

(** Agreement of a field's tight and loose forms on one value is all it takes. *)
Lemma field_value {R A} wf (F : Field S D R) (m1 : A -> M BooleanStream Z) m2 mt wl ml
    (set : A -> R -> R) a w bs lbs nw nb r :
  put1 F wf r = m1 a -> put2 F wf r = m2 a -> (forall r0, get_t F wf r0 = store set mt r0) ->
  put_l F wf r = wl a -> (forall r0, get_l F wf r0 = store set ml r0) ->
  tight_codec (S := S) m1 m2 mt a w bs -> codec (S := S) wl ml a lbs ->
  zlen w <= nw -> zlen bs <= nb -> zlen lbs <= nb ->
  field_ok wf F (fun _ r0 => set a r0) nw nb r.
Proof.
  intros E1 E2 E3 E4 E5 (T1 & T2 & T3) [L1 L2] ???. exists w, bs, lbs.
  rewrite E1, E2, E4. split_and!; try done; intros r0; rewrite ?E3, ?E5;
    [by apply parses2_store|by apply parses_store].
Qed.

(** The bounds of the fields of fixed size, and of a string. *)
Definition STRING_BYTES : Z := 65538.

Lemma string_sizes v :
  string_ok v ->
  zlen (string_flags v) <= 2 /\ zlen (string_bytes v) <= STRING_BYTES /\
  zlen (loose_string v) <= STRING_BYTES.
Proof.
  intros [_ Hv]. unfold string_flags, string_bytes, loose_string, STRING_BYTES, SHORT_MAX in *.
  assert (zlen (utf_encode v) <= 65535) by (case_match; lia).
  destruct (non_empty v); autorewrite with amq_len; lia.
Qed.

Lemma string_loose_ok v : string_ok v -> bytes_ok v /\ zlen (utf_encode v) <= 65535.
Proof. intros [? Hv]. split; [done|]. unfold SHORT_MAX in *. case_match; lia. Qed.

Lemma field_string {R} wf (get : R -> list Z) set r :
  string_ok (get r) ->
  field_ok wf (f_string get set) (fun _ r0 => set (get r) r0) 2 STRING_BYTES r.
Proof.
  intros Hv. destruct (string_sizes _ Hv) as (?&?&?). destruct (string_loose_ok _ Hv).
  by eapply field_value;
    [done|done|done|done|done|by apply tight_codec_string|by apply codec_loose_string|..].
Qed.

Lemma field_long {R} wf (get : R -> Z) set r :
  in_s 64 (get r) -> field_ok wf (f_long get set) (fun _ r0 => set (get r) r0) 2 8 r.
Proof.
  intros Hv. eapply field_value;
    [done|done|done|done|done|by apply tight_codec_long|by apply codec_loose_long|..].
  - unfold long_flags. by repeat case_match.
  - unfold long_bytes. by repeat case_match.
  - done.
Qed.

Lemma field_int {R} wf (get : R -> Z) set r :
  in_s 32 (get r) -> field_ok wf (f_int get set) (fun _ r0 => set (get r) r0) 0 4 r.
Proof.
  intros Hv. exists [], (be_bytes 4 (get r)), (be_bytes 4 (get r)).
  split_and!; try done; intros; cbn.
  - apply sizes_ret.
  - apply emits2_fst, emits_writeInt.
  - by apply parses2_store, parses2_fst, codec_int.
  - apply emits_writeInt.
  - by apply parses_store, codec_int.
Qed.

Lemma field_byte {R} wf (get : R -> Z) set r :
  byte_ok (get r) -> field_ok wf (f_byte get set) (fun _ r0 => set (get r) r0) 0 1 r.
Proof.
  intros Hv. exists [], [get r], [get r].
  assert (emits (catch_io (doWriteByte (get r))) [get r] tt) by (do 2 apply emits_catch_io; apply emits_base).
  assert (forall r0, (fun v => set (u8 v)) (s8 (get r)) r0 = set (get r) r0) as Hset.
  { intros r0. cbn. by rewrite wrapu_wraps, wrapu_id by (done || lia). }
  split_and!; try done; intros; cbn.
  - apply sizes_ret.
  - by apply emits2_fst.
  - rewrite <- Hset. apply (parses2_store _ (fun v => set (u8 v))), parses2_fst, parses_readByte.
  - rewrite <- Hset. apply (parses_store _ (fun v => set (u8 v))), parses_readByte.
Qed.

Lemma field_bool {R} wf (get : R -> bool) set r :
  field_ok wf (f_bool get set) (fun _ r0 => set (get r) r0) 1 1 r.
Proof.
  exists [get r], [], [if get r then 1 else 0].
  split_and!; try done; intros; cbn.
  - flag. apply sizes_ret.
  - flag. apply emits2_ret.
  - apply (parses2_store _ set [get r] [] (get r)), parses2_readBoolean.
  - apply emits_writeBoolean.
  - apply parses_store, codec_boolean.
Qed.

Lemma field_base {R B} wf (get : R -> B) set (F : Field S D B) u nw nb r :
  field_ok wf F u nw nb (get r) ->
  field_ok wf (f_base get set F) (fun _ r0 => set (u (get r) (get r0)) r0) nw nb r.
Proof.
  intros (w & bs & lbs & Hw & Hbs & Hl & F1 & F2 & F3 & F4 & F5).
  exists w, bs, lbs. split_and!; try done; intros; cbn; try by peel.
  - rewrite <- (app_nil_r w), <- (app_nil_r bs).
    eapply parses2_bind; [apply parses2_catch_io, F3|apply parses2_ret].
  - rewrite <- (app_nil_r lbs).
    eapply parses_bind; [apply parses_catch_io, F5|apply parses_ret].
Qed.

(** ** What an object's marshaller promises *)

Variable dataMarshallers : Z -> option (DataStreamMarshaller S D).

Definition carried wf (o : D) (nw nb : Z) : Prop :=
  exists dsm w bs lbs,
    registered dataMarshallers o dsm /\
    tight_object wf dsm o w bs /\ loose_object wf dsm o lbs /\
    zlen w <= nw /\ zlen bs <= nb /\ zlen lbs <= nb.

Lemma carried_of {R} wf (inj : R -> D) (proj : D -> option R) fresh F upd nw nb r :
  (forall x, proj (inj x) = Some x) -> upd r fresh = r ->
  registered dataMarshallers (inj r) (marshaller_of inj proj fresh F) ->
  field_ok wf F upd nw nb r -> carried wf (inj r) nw nb.
Proof.
  intros Hproj Hupd Hreg (w & bs & lbs & Hw & Hbs & Hl & F1 & F2 & F3 & F4 & F5).
  exists (marshaller_of inj proj fresh F), w, bs, lbs. split_and!; try done.
  - unfold tight_object, tight_codec. cbn. rewrite !Hproj.
    split_and!; peel; [done|done|]. rewrite <- (app_nil_r w), <- (app_nil_r bs), <- Hupd.
    eapply parses2_bind; [apply F3|]. rewrite Hupd. apply parses2_ret.
  - split; cbn; rewrite !Hproj; peel; [done|]. rewrite <- (app_nil_r lbs), <- Hupd.
    eapply parses_bind; [apply F5|]. rewrite Hupd. apply parses_ret.
Qed.

(** A nested object goes through the wire format at hand, one level down. *)
Lemma nested_carried f wf {A} (inj : A -> D) (a : option A) nw nb :
  0 <= nw -> 0 <= nb -> (forall x, a = Some x -> carried wf (inj x) nw nb) ->
  exists w bs lbs,
    tight_codec (S := S) (@nested_tightMarshal1 _ _ (wire_step dataMarshallers f wf))
      (@nested_tightMarshal2 _ _ (wire_step dataMarshallers f wf))
      (@nested_tightUnmarshal _ _ (wire_step dataMarshallers f wf)) (inj <$> a) w bs /\
    codec (S := S) (@nested_looseMarshal _ _ (wire_step dataMarshallers f wf))
      (@nested_looseUnmarshal _ _ (wire_step dataMarshallers f wf)) (inj <$> a) lbs /\
    zlen w <= 1 + nw /\ zlen bs <= 2 + nb /\ zlen lbs <= 2 + nb.
Proof.
  intros Hnw Hnb Ha. destruct a as [x|]; cbn.
  - destruct (Ha x eq_refl) as (dsm & w & bs & lbs & Hreg & Ht & Hl & ? & ? & ?).
    exists (true :: w), (getDataStructureType (inj x) :: bs), (1 :: getDataStructureType (inj x) :: lbs).
    rewrite !zlen_cons. split_and!; try lia.
    + by apply tight_nested_some with (dsm := dsm).
    + by apply loose_nested_some with (dsm := dsm).
  - exists [false], [], [0].
    split_and!; [apply tight_nested_none|apply loose_nested_none|unfold zlen; cbn; lia..].
Qed.

Section nested_fields.
Context {R A : Type}.
Variables (f : OpenWireFormat) (wf : WireFormat S D).
Variables (inj : A -> D) (proj : D -> option A).
Hypothesis proj_inj : forall x, proj (inj x) = Some x.
Variables (get : R -> option A) (set : option A -> R -> R).

Lemma field_cached nw nb r :
  0 <= nw -> 0 <= nb -> (forall x, get r = Some x -> carried wf (inj x) nw nb) ->
  field_ok (wire_step dataMarshallers f wf) (f_cached inj proj get set)
    (fun _ r0 => set (get r) r0) (1 + nw) (2 + nb) r.
Proof.
  intros Hnw Hnb Ha.
  destruct (nested_carried f wf inj (get r) nw nb Hnw Hnb Ha)
    as (w & bs & lbs & (T1 & T2 & T3) & [L1 L2] & ? & ? & ?).
  assert (forall r0, set (get r) r0 = set ((inj <$> get r) ≫= proj) r0) as Hback.
  { intros r0. f_equal. destruct (get r); cbn; auto. }
  exists w, bs, lbs. split_and!; try done; intros; cbn; rewrite ?Hback.
  - by apply sizes_catch_io.
  - by apply emits2_catch_io.
  - apply (parses2_store _ (fun o => set (o ≫= proj))). by apply parses2_catch_io.
  - by apply emits_catch_io.
  - apply (parses_store _ (fun o => set (o ≫= proj))). by apply parses_catch_io.
Qed.

Lemma field_nested nw nb r :
  0 <= nw -> 0 <= nb -> (forall x, get r = Some x -> carried wf (inj x) nw nb) ->
  field_ok (wire_step dataMarshallers f wf) (f_nested inj proj get set)
    (fun _ r0 => set (get r) r0) (1 + nw) (2 + nb) r.
Proof. apply field_cached. Qed.
End nested_fields.

(** The bounds asked of an error: far beyond what a broker sends. *)
Definition ERROR_FLAGS : Z := 100000.
Definition ERROR_BYTES : Z := 1000000000.

Record error_fits (fuel : nat) (traces : bool) (e : BrokerError) : Prop := {
  fits_ok : error_ok traces e;
  fits_depth : (error_depth e <= fuel)%nat;
  fits_traces : transmitted traces e = e;
  fits_flags : zlen (error_flags traces e) <= ERROR_FLAGS;
  fits_bytes : zlen (error_bytes traces e) <= ERROR_BYTES;
  fits_loose : zlen (loose_error traces e) <= ERROR_BYTES;
}.

Lemma field_error {R} wf fuel (get : R -> BrokerError) set r :
  error_fits fuel (@isStackTraceEnabled _ _ wf) (get r) ->
  field_ok wf (f_error fuel get set) (fun _ r0 => set (get r) r0) ERROR_FLAGS ERROR_BYTES r.
Proof.
  intros [Hok Hd Ht Hw Hb Hl]. eexists _, _, _. split_and!; [exact Hw|exact Hb|exact Hl|..].
  - by apply (sizes_error (S := S)).
  - by apply (emits2_error (S := S)).
  - intros r0. apply parses2_store. rewrite <- Ht at 3. by apply parses2_error.
  - by apply (emits_loose_error (S := S)).
  - intros r0. apply parses_store. rewrite <- Ht at 2. by apply parses_loose_error.
Qed.

End field_specs.
