(* ===== verification/Commands.v ===== *)
(** * Commands (activemq/commands and the generated marshallers): the identifiers,
    destinations, acknowledgements and responses the client exchanges with a
    broker, each with its marshaller, and their delivery in both encodings.

    One record per command class, [Object] for the DataStructure the wire format
    handles, [dataMarshallers] for this part of the table that
    generated/MarshallerFactory.cpp fills. *)
From S2P Require Import Prelude DataOutput DataInput Codec BooleanStream TightCodec BaseDataStreamMarshaller OpenWireFormat Fields.

(** ** The command classes *)

Record ConnectionId : Type := mkConnectionId { ci_value : list Z }.
Record SessionId : Type := mkSessionId { si_connectionId : list Z; si_value : Z }.
Record ConsumerId : Type := mkConsumerId {
  co_connectionId : list Z; co_sessionId : Z; co_value : Z }.
Record ProducerId : Type := mkProducerId {
  pr_connectionId : list Z; pr_value : Z; pr_sessionId : Z }.
Record LocalTransactionId : Type := mkLocalTransactionId {
  lt_value : Z; lt_connectionId : option ConnectionId }.
Record MessageId : Type := mkMessageId {
  mi_textView : list Z; mi_producerId : option ProducerId;
  mi_producerSequenceId : Z; mi_brokerSequenceId : Z }.

(** ActiveMQDestination: what follows a question mark in the name are options,
    kept here as they are written. *)
Record ActiveMQDestination : Type := mkDestination {
  physicalName : list Z; optstring : option (list Z); advisory : bool }.

Record BaseCommand : Type := mkBaseCommand { responseRequired : bool; commandId : Z }.
Record Response : Type := mkResponse { re_base : BaseCommand; correlationId : Z }.
Record ExceptionResponse : Type := mkExceptionResponse {
  er_base : Response; exception : BrokerError }.
Record MessageAck : Type := mkMessageAck {
  ma_base : BaseCommand; ma_destination : option (bool * ActiveMQDestination);
  ma_transactionId : option LocalTransactionId; ma_consumerId : option ConsumerId;
  ackType : Z; firstMessageId : option MessageId; lastMessageId : option MessageId;
  messageCount : Z; poisonCause : BrokerError }.

Inductive Object : Type :=
  | OConnectionId (x : ConnectionId)
  | OSessionId (x : SessionId)
  | OConsumerId (x : ConsumerId)
  | OProducerId (x : ProducerId)
  | OLocalTransactionId (x : LocalTransactionId)
  | OMessageId (x : MessageId)
  | ODestination (topic : bool) (x : ActiveMQDestination)
  | OKeepAliveInfo (x : BaseCommand)
  | OResponse (x : Response)
  | OExceptionResponse (x : ExceptionResponse)
  | OMessageAck (x : MessageAck).

Definition ID_CONNECTIONID : Z := 120.
Definition ID_SESSIONID : Z := 121.
Definition ID_CONSUMERID : Z := 122.
Definition ID_PRODUCERID : Z := 123.
Definition ID_LOCALTRANSACTIONID : Z := 111.
Definition ID_MESSAGEID : Z := 110.
Definition ID_ACTIVEMQQUEUE : Z := 100.
Definition ID_ACTIVEMQTOPIC : Z := 101.
Definition ID_KEEPALIVEINFO : Z := 10.
Definition ID_RESPONSE : Z := 30.
Definition ID_EXCEPTIONRESPONSE : Z := 31.
Definition ID_MESSAGEACK : Z := 22.

#[export] Instance Object_DataStructure : DataStructure Object := {
  getDataStructureType o :=
    match o with
    | OConnectionId _ => ID_CONNECTIONID
    | OSessionId _ => ID_SESSIONID
    | OConsumerId _ => ID_CONSUMERID
    | OProducerId _ => ID_PRODUCERID
    | OLocalTransactionId _ => ID_LOCALTRANSACTIONID
    | OMessageId _ => ID_MESSAGEID
    | ODestination topic _ => if topic then ID_ACTIVEMQTOPIC else ID_ACTIVEMQQUEUE
    | OKeepAliveInfo _ => ID_KEEPALIVEINFO
    | OResponse _ => ID_RESPONSE
    | OExceptionResponse _ => ID_EXCEPTIONRESPONSE
    | OMessageAck _ => ID_MESSAGEACK
    end;
  isMarshalAware _ := false;
  getMarshaledForm _ := [];
  isCommand o :=
    match o with
    | OKeepAliveInfo _ | OResponse _ | OExceptionResponse _ | OMessageAck _ => true
    | _ => false
    end;
}.

(** ** ActiveMQDestination::setPhysicalName *)

(** [AdvisorySupport::ADVISORY_TOPIC_PREFIX]: ActiveMQ.Advisory. *)
Definition ADVISORY_TOPIC_PREFIX : list Z :=
  [65; 99; 116; 105; 118; 101; 77; 81; 46; 65; 100; 118; 105; 115; 111; 114; 121; 46].

(** [find_first_of(chars)]: the index of the first character that is one of
    [chars], -1 for [npos]. *)
Fixpoint find_first_of (chars s : list Z) (i : Z) : Z :=
  match s with
  | [] => -1
  | c :: s' => if bool_decide (c ∈ chars) then i else find_first_of chars s' (i + 1)
  end.

Definition QUESTION : Z := 63.

Definition setPhysicalName (name : list Z) (d : ActiveMQDestination) : ActiveMQDestination :=
  let pos := find_first_of [QUESTION] name 0 in
  {| physicalName := if pos =? -1 then name else take (Z.to_nat pos) name;
     optstring := if pos =? -1 then optstring d else Some (drop (Z.to_nat (pos + 1)) name);
     advisory := find_first_of ADVISORY_TOPIC_PREFIX name 0 =? 0 |}.

(** ** The marshallers *)

Section marshallers.
Context {S : Type} `{InputStream S}.
(** The bound on the causes of an error that is read. *)
Variable error_fuel : nat.

Abbreviation field := (Field S Object).

Definition ConnectionIdMarshaller : field ConnectionId :=
  f_seq [f_string ci_value (fun v _ => mkConnectionId v)].

Definition SessionIdMarshaller : field SessionId :=
  f_seq [f_string si_connectionId (fun v r => mkSessionId v (si_value r));
         f_long si_value (fun v r => mkSessionId (si_connectionId r) v)].

Definition ConsumerIdMarshaller : field ConsumerId :=
  f_seq [f_string co_connectionId (fun v r => mkConsumerId v (co_sessionId r) (co_value r));
         f_long co_sessionId (fun v r => mkConsumerId (co_connectionId r) v (co_value r));
         f_long co_value (fun v r => mkConsumerId (co_connectionId r) (co_sessionId r) v)].

Definition ProducerIdMarshaller : field ProducerId :=
  f_seq [f_string pr_connectionId (fun v r => mkProducerId v (pr_value r) (pr_sessionId r));
         f_long pr_value (fun v r => mkProducerId (pr_connectionId r) v (pr_sessionId r));
         f_long pr_sessionId (fun v r => mkProducerId (pr_connectionId r) (pr_value r) v)].

Definition as_ConnectionId (o : Object) : option ConnectionId :=
  match o with OConnectionId x => Some x | _ => None end.
Definition as_SessionId (o : Object) : option SessionId :=
  match o with OSessionId x => Some x | _ => None end.
Definition as_ConsumerId (o : Object) : option ConsumerId :=
  match o with OConsumerId x => Some x | _ => None end.
Definition as_ProducerId (o : Object) : option ProducerId :=
  match o with OProducerId x => Some x | _ => None end.
Definition as_LocalTransactionId (o : Object) : option LocalTransactionId :=
  match o with OLocalTransactionId x => Some x | _ => None end.
Definition as_MessageId (o : Object) : option MessageId :=
  match o with OMessageId x => Some x | _ => None end.
Definition as_ActiveMQDestination (o : Object) : option (bool * ActiveMQDestination) :=
  match o with ODestination t x => Some (t, x) | _ => None end.

(** TransactionIdMarshaller, its base, has no fields. *)
Definition LocalTransactionIdMarshaller : field LocalTransactionId :=
  f_seq [f_long lt_value (fun v r => mkLocalTransactionId v (lt_connectionId r));
         f_cached OConnectionId as_ConnectionId lt_connectionId
           (fun v r => mkLocalTransactionId (lt_value r) v)].

Definition MessageIdMarshaller : field MessageId :=
  f_seq
    [f_since 10 (f_string mi_textView (fun v r =>
       mkMessageId v (mi_producerId r) (mi_producerSequenceId r) (mi_brokerSequenceId r)));
     f_cached OProducerId as_ProducerId mi_producerId (fun v r =>
       mkMessageId (mi_textView r) v (mi_producerSequenceId r) (mi_brokerSequenceId r));
     f_long mi_producerSequenceId (fun v r =>
       mkMessageId (mi_textView r) (mi_producerId r) v (mi_brokerSequenceId r));
     f_long mi_brokerSequenceId (fun v r =>
       mkMessageId (mi_textView r) (mi_producerId r) (mi_producerSequenceId r) v)].

Definition ActiveMQDestinationMarshaller : field ActiveMQDestination :=
  f_seq [f_string physicalName setPhysicalName].

Definition BaseCommandMarshaller : field BaseCommand :=
  f_seq [f_int commandId (fun v r => mkBaseCommand (responseRequired r) v);
         f_bool responseRequired (fun v r => mkBaseCommand v (commandId r))].

Definition KeepAliveInfoMarshaller : field BaseCommand :=
  f_base id (fun b _ => b) BaseCommandMarshaller.

Definition ResponseMarshaller : field Response :=
  f_seq [f_base re_base (fun b r => mkResponse b (correlationId r)) BaseCommandMarshaller;
         f_int correlationId (fun v r => mkResponse (re_base r) v)].

Definition ExceptionResponseMarshaller : field ExceptionResponse :=
  f_seq [f_base er_base (fun b r => mkExceptionResponse b (exception r)) ResponseMarshaller;
         f_error error_fuel exception (fun v r => mkExceptionResponse (er_base r) v)].

Definition ack_destination (d : bool * ActiveMQDestination) : Object := ODestination d.1 d.2.

Definition MessageAckMarshaller : field MessageAck :=
  f_seq
    [f_base ma_base
       (fun v '(mkMessageAck _ d t c y f l n p) => mkMessageAck v d t c y f l n p)
       BaseCommandMarshaller;
     f_cached ack_destination as_ActiveMQDestination ma_destination
       (fun v '(mkMessageAck b _ t c y f l n p) => mkMessageAck b v t c y f l n p);
     f_cached OLocalTransactionId as_LocalTransactionId ma_transactionId
       (fun v '(mkMessageAck b d _ c y f l n p) => mkMessageAck b d v c y f l n p);
     f_cached OConsumerId as_ConsumerId ma_consumerId
       (fun v '(mkMessageAck b d t _ y f l n p) => mkMessageAck b d t v y f l n p);
     f_byte ackType
       (fun v '(mkMessageAck b d t c _ f l n p) => mkMessageAck b d t c v f l n p);
     f_nested OMessageId as_MessageId firstMessageId
       (fun v '(mkMessageAck b d t c y _ l n p) => mkMessageAck b d t c y v l n p);
     f_nested OMessageId as_MessageId lastMessageId
       (fun v '(mkMessageAck b d t c y f _ n p) => mkMessageAck b d t c y f v n p);
     f_int messageCount
       (fun v '(mkMessageAck b d t c y f l _ p) => mkMessageAck b d t c y f l v p);
     f_since 7 (f_error error_fuel poisonCause
       (fun v '(mkMessageAck b d t c y f l n _) => mkMessageAck b d t c y f l n v))].

(** ** The table *)

Definition fresh_base : BaseCommand := mkBaseCommand false 0.
Definition fresh_destination : ActiveMQDestination := mkDestination [] None false.
Definition fresh_ack : MessageAck :=
  mkMessageAck fresh_base None None None 0 None None 0 NoError.

Definition dataMarshallers (type : Z) : option (DataStreamMarshaller S Object) :=
  if type =? ID_CONNECTIONID then
    Some (marshaller_of OConnectionId as_ConnectionId (mkConnectionId []) ConnectionIdMarshaller)
  else if type =? ID_SESSIONID then
    Some (marshaller_of OSessionId as_SessionId (mkSessionId [] 0) SessionIdMarshaller)
  else if type =? ID_CONSUMERID then
    Some (marshaller_of OConsumerId as_ConsumerId (mkConsumerId [] 0 0) ConsumerIdMarshaller)
  else if type =? ID_PRODUCERID then
    Some (marshaller_of OProducerId as_ProducerId (mkProducerId [] 0 0) ProducerIdMarshaller)
  else if type =? ID_LOCALTRANSACTIONID then
    Some (marshaller_of OLocalTransactionId as_LocalTransactionId (mkLocalTransactionId 0 None)
            LocalTransactionIdMarshaller)
  else if type =? ID_MESSAGEID then
    Some (marshaller_of OMessageId as_MessageId (mkMessageId [] None 0 0) MessageIdMarshaller)
  else if type =? ID_ACTIVEMQQUEUE then
    Some (marshaller_of (ODestination false)
            (fun o => match o with ODestination _ x => Some x | _ => None end)
            fresh_destination ActiveMQDestinationMarshaller)
  else if type =? ID_ACTIVEMQTOPIC then
    Some (marshaller_of (ODestination true)
            (fun o => match o with ODestination _ x => Some x | _ => None end)
            fresh_destination ActiveMQDestinationMarshaller)
  else if type =? ID_KEEPALIVEINFO then
    Some (marshaller_of OKeepAliveInfo
            (fun o => match o with OKeepAliveInfo x => Some x | _ => None end)
            fresh_base KeepAliveInfoMarshaller)
  else if type =? ID_RESPONSE then
    Some (marshaller_of OResponse (fun o => match o with OResponse x => Some x | _ => None end)
            (mkResponse fresh_base 0) ResponseMarshaller)
  else if type =? ID_EXCEPTIONRESPONSE then
    Some (marshaller_of OExceptionResponse
            (fun o => match o with OExceptionResponse x => Some x | _ => None end)
            (mkExceptionResponse (mkResponse fresh_base 0) NoError) ExceptionResponseMarshaller)
  else if type =? ID_MESSAGEACK then
    Some (marshaller_of OMessageAck (fun o => match o with OMessageAck x => Some x | _ => None end)
            fresh_ack MessageAckMarshaller)
  else None.
End marshallers.

(** ** Delivery *)

Definition connectionId_ok (c : ConnectionId) : Prop := string_ok (ci_value c).
Definition sessionId_ok (s : SessionId) : Prop :=
  string_ok (si_connectionId s) /\ in_s 64 (si_value s).
Definition consumerId_ok (c : ConsumerId) : Prop :=
  string_ok (co_connectionId c) /\ in_s 64 (co_sessionId c) /\ in_s 64 (co_value c).
Definition producerId_ok (p : ProducerId) : Prop :=
  string_ok (pr_connectionId p) /\ in_s 64 (pr_value p) /\ in_s 64 (pr_sessionId p).
Definition localTransactionId_ok (t : LocalTransactionId) : Prop :=
  in_s 64 (lt_value t) /\ forall c, lt_connectionId t = Some c -> connectionId_ok c.

(** Versions before 10 have no text view. *)
Definition messageId_ok (v : Z) (m : MessageId) : Prop :=
  string_ok (mi_textView m) /\ (v < 10 -> mi_textView m = []) /\
  (forall p, mi_producerId m = Some p -> producerId_ok p) /\
  in_s 64 (mi_producerSequenceId m) /\ in_s 64 (mi_brokerSequenceId m).

(** The name without options, which do not travel. *)
Definition destination_ok (d : ActiveMQDestination) : Prop :=
  string_ok (physicalName d) /\ setPhysicalName (physicalName d) fresh_destination = d.

Definition response_ok (r : Response) : Prop :=
  in_s 32 (commandId (re_base r)) /\ in_s 32 (correlationId r).

Definition exceptionResponse_ok (fuel : nat) (traces : bool) (e : ExceptionResponse) : Prop :=
  response_ok (er_base e) /\ error_fits fuel traces (exception e).

Record messageAck_ok (fuel : nat) (traces : bool) (v : Z) (a : MessageAck) : Prop := {
  ack_command : in_s 32 (commandId (ma_base a));
  ack_dest : forall d, ma_destination a = Some d -> destination_ok d.2;
  ack_tx : forall t, ma_transactionId a = Some t -> localTransactionId_ok t;
  ack_consumer : forall c, ma_consumerId a = Some c -> consumerId_ok c;
  ack_type : byte_ok (ackType a);
  ack_first : forall m, firstMessageId a = Some m -> messageId_ok v m;
  ack_last : forall m, lastMessageId a = Some m -> messageId_ok v m;
  ack_count : in_s 32 (messageCount a);
  ack_cause : 7 <= v -> error_fits fuel traces (poisonCause a);
  ack_no_cause : v < 7 -> poisonCause a = NoError;
}.

Definition object_ok (fuel : nat) (traces : bool) (v : Z) (o : Object) : Prop :=
  match o with
  | OConnectionId x => connectionId_ok x
  | OSessionId x => sessionId_ok x
  | OConsumerId x => consumerId_ok x
  | OProducerId x => producerId_ok x
  | OLocalTransactionId x => localTransactionId_ok x
  | OMessageId x => messageId_ok v x
  | ODestination _ x => destination_ok x
  | OKeepAliveInfo x => in_s 32 (commandId x)
  | OResponse x => response_ok x
  | OExceptionResponse x => exceptionResponse_ok fuel traces x
  | OMessageAck x => messageAck_ok fuel traces v x
  end.

Section delivery.
Context {S : Type} `{InputStreamLaws S}.
Variable error_fuel : nat.
Implicit Types (wf : WireFormat S Object).
Abbreviation table := (dataMarshallers (S := S) error_fuel).

Lemma carried_weaken wf o nw nb nw' nb' :
  carried table wf o nw nb -> nw <= nw' -> nb <= nb' -> carried table wf o nw' nb'.
Proof.
  intros (dsm & w & bs & lbs & ? & ? & ? & ? & ? & ?) ??.
  exists dsm, w, bs, lbs. split_and!; done || lia.
Qed.

Lemma carried_by {R} wf (inj : R -> Object) proj fresh F upd nw nb nw' nb' r :
  field_ok wf F upd nw nb r ->
  (forall x, proj (inj x) = Some x) -> upd r fresh = r ->
  registered table (inj r) (marshaller_of inj proj fresh F) ->
  nw <= nw' -> nb <= nb' -> carried table wf (inj r) nw' nb'.
Proof. intros. eapply carried_weaken; [by eapply carried_of|done|done]. Qed.

(** Walk over a class's fields, with the lemmas of the database. *)
Ltac fields :=
  cbn [f_seq];
  repeat (eapply field_then; [solve [eauto with fields]|]); apply field_nil.

Create HintDb fields.
Hint Resolve field_string field_long field_int field_byte field_bool : fields.

Lemma carried_ConnectionId wf c :
  connectionId_ok c -> carried table wf (OConnectionId c) 2 STRING_BYTES.
Proof.
  intros Hv. eapply (carried_by wf OConnectionId as_ConnectionId (mkConnectionId [])
    ConnectionIdMarshaller);
    [unfold ConnectionIdMarshaller; fields|done|by destruct c|done|done|done].
Qed.

Lemma carried_SessionId wf s :
  sessionId_ok s -> carried table wf (OSessionId s) 4 (STRING_BYTES + 8).
Proof.
  intros [??]. eapply (carried_by wf OSessionId as_SessionId (mkSessionId [] 0) SessionIdMarshaller);
    [unfold SessionIdMarshaller; fields|done|by destruct s|done|done|done].
Qed.

Lemma carried_ConsumerId wf c :
  consumerId_ok c -> carried table wf (OConsumerId c) 6 (STRING_BYTES + 16).
Proof.
  intros (?&?&?). eapply (carried_by wf OConsumerId as_ConsumerId (mkConsumerId [] 0 0)
    ConsumerIdMarshaller);
    [unfold ConsumerIdMarshaller; fields|done|by destruct c|done|done|done].
Qed.

Lemma carried_ProducerId wf p :
  producerId_ok p -> carried table wf (OProducerId p) 6 (STRING_BYTES + 16).
Proof.
  intros (?&?&?). eapply (carried_by wf OProducerId as_ProducerId (mkProducerId [] 0 0)
    ProducerIdMarshaller);
    [unfold ProducerIdMarshaller; fields|done|by destruct p|done|done|done].
Qed.

Lemma carried_Destination wf t d :
  destination_ok d -> carried table wf (ODestination t d) 2 STRING_BYTES.
Proof.
  intros [Hs Hd].
  eapply (carried_by wf (ODestination t) (fun o => match o with ODestination _ x => Some x | _ => None end)
    fresh_destination ActiveMQDestinationMarshaller);
    [unfold ActiveMQDestinationMarshaller; fields|done|exact Hd|by destruct t|done|done].
Qed.

Lemma field_command wf b : in_s 32 (commandId b) ->
  field_ok wf (BaseCommandMarshaller (S := S)) (fun r _ => mkBaseCommand (responseRequired r) (commandId r))
    1 5 b.
Proof.
  intros Hv. exact (field_then _ _ _ _ _ _ _ _ _ _ (field_int wf commandId
    (fun v r => mkBaseCommand (responseRequired r) v) b Hv)
    (field_then _ _ _ _ _ _ _ _ _ _ (field_bool wf responseRequired
      (fun v r => mkBaseCommand v (commandId r)) b) (field_nil wf b))).
Qed.

Hint Resolve field_base field_command : fields.

Lemma carried_KeepAliveInfo wf b :
  in_s 32 (commandId b) -> carried table wf (OKeepAliveInfo b) 1 5.
Proof.
  intros Hv. eapply (carried_by wf OKeepAliveInfo
    (fun o => match o with OKeepAliveInfo x => Some x | _ => None end) fresh_base
    KeepAliveInfoMarshaller);
    [by apply field_base, field_command|done|by destruct b|done|done|done].
Qed.

Lemma field_response wf r :
  response_ok r -> exists upd, (forall r0, upd r r0 = r) /\
  field_ok wf (ResponseMarshaller (S := S)) upd 1 9 r.
Proof.
  intros [??]. eexists. split; cycle 1.
  - unfold ResponseMarshaller. cbn [f_seq]. eapply field_weaken;
      [eapply field_then; [by apply field_base, field_command|];
       eapply field_then; [by apply field_int|apply field_nil]|done|done].
  - intros r0. by destruct r as [[] ?].
Qed.

Lemma carried_Response wf r : response_ok r -> carried table wf (OResponse r) 1 9.
Proof.
  intros Hr. destruct (field_response wf r Hr) as (upd & Hupd & Hf).
  eapply (carried_by wf OResponse (fun o => match o with OResponse x => Some x | _ => None end)
    (mkResponse fresh_base 0) ResponseMarshaller); [exact Hf|done|apply Hupd|done|done|done].
Qed.

Lemma carried_ExceptionResponse wf e :
  exceptionResponse_ok error_fuel (@isStackTraceEnabled _ _ wf) e ->
  carried table wf (OExceptionResponse e) (1 + ERROR_FLAGS) (9 + ERROR_BYTES).
Proof.
  intros [Hr He]. destruct (field_response wf (er_base e) Hr) as (upd & Hupd & Hf).
  eapply (carried_by wf OExceptionResponse
    (fun o => match o with OExceptionResponse x => Some x | _ => None end)
    (mkExceptionResponse (mkResponse fresh_base 0) NoError) (ExceptionResponseMarshaller error_fuel)).
  - unfold ExceptionResponseMarshaller. cbn [f_seq].
    eapply field_then; [by apply field_base|].
    eapply field_then; [by apply field_error|apply field_nil].
  - done.
  - cbn. rewrite Hupd. by destruct e.
  - done.
  - lia.
  - lia.
Qed.

(** Objects with others inside, one level of the wire format down. *)
Lemma carried_LocalTransactionId f wf t :
  localTransactionId_ok t ->
  carried table (wire_step table f wf) (OLocalTransactionId t) 5 (STRING_BYTES + 10).
Proof.
  intros [Hv Hc]. eapply (carried_by _ OLocalTransactionId as_LocalTransactionId
    (mkLocalTransactionId 0 None) LocalTransactionIdMarshaller).
  - unfold LocalTransactionIdMarshaller. cbn [f_seq].
    eapply field_then; [by apply field_long|].
    eapply field_then; [|apply field_nil].
    apply (field_cached table f wf OConnectionId as_ConnectionId) with (nw := 2) (nb := STRING_BYTES);
      [done|done|done|]. intros c Hget. by apply carried_ConnectionId, Hc.
  - done.
  - by destruct t.
  - done.
  - lia.
  - lia.
Qed.

Lemma carried_MessageId f wf m :
  messageId_ok (version f) m ->
  carried table (wire_step table f wf) (OMessageId m) 13 (2 * STRING_BYTES + 34).
Proof.
  intros (Ht & Hold & Hp & H1' & H2'). eapply (carried_by _ OMessageId as_MessageId
    (mkMessageId [] None 0 0) MessageIdMarshaller).
  - unfold MessageIdMarshaller. cbn [f_seq].
    eapply field_then; [exact (field_since (wire_step table f wf) 10 _ _ 2 STRING_BYTES m ltac:(done) ltac:(done)
      (fun _ => field_string (wire_step table f wf) mi_textView _ m Ht))|].
    eapply field_then.
    { apply (field_cached table f wf OProducerId as_ProducerId) with (nw := 6) (nb := STRING_BYTES + 16);
        [done|done|done|]. intros p Hget. by apply carried_ProducerId, Hp. }
    eapply field_then; [by apply field_long|].
    eapply field_then; [by apply field_long|apply field_nil].
  - done.
  - cbn. destruct m as [tv p x y]. cbn in *. destruct (Z.leb_spec 10 (version f)); [done|].
    by rewrite Hold by lia.
  - done.
  - lia.
  - unfold STRING_BYTES. lia.
Qed.

Lemma carried_MessageAck f wf a :
  messageAck_ok error_fuel (stackTraceEnabled f) (version f) a ->
  carried table (wire_step table f (wire_step table f wf)) (OMessageAck a)
    (50 + ERROR_FLAGS) (7 * STRING_BYTES + 200 + ERROR_BYTES).
Proof.
  intros [Hcmd Hd Ht Hc Hty Hf Hl Hn He Hne].
  eapply (carried_by _ OMessageAck (fun o => match o with OMessageAck x => Some x | _ => None end)
    fresh_ack (MessageAckMarshaller error_fuel)).
  - unfold MessageAckMarshaller. cbv zeta. cbn [f_seq].
    eapply field_then; [by apply field_base, field_command|].
    eapply field_then.
    { apply (field_cached table f _ ack_destination as_ActiveMQDestination)
        with (nw := 2) (nb := STRING_BYTES); [by intros []|done|done|].
      intros d Hget. by apply carried_Destination, Hd. }
    eapply field_then.
    { apply (field_cached table f _ OLocalTransactionId as_LocalTransactionId)
        with (nw := 5) (nb := STRING_BYTES + 10); [done|done|done|].
      intros t Hget. by apply carried_LocalTransactionId, Ht. }
    eapply field_then.
    { apply (field_cached table f _ OConsumerId as_ConsumerId)
        with (nw := 6) (nb := STRING_BYTES + 16); [done|done|done|].
      intros c Hget. by apply carried_ConsumerId, Hc. }
    eapply field_then; [by apply field_byte|].
    eapply field_then.
    { apply (field_nested table f _ OMessageId as_MessageId)
        with (nw := 13) (nb := 2 * STRING_BYTES + 34); [done|done|done|].
      intros m Hget. by apply carried_MessageId, Hf. }
    eapply field_then.
    { apply (field_nested table f _ OMessageId as_MessageId)
        with (nw := 13) (nb := 2 * STRING_BYTES + 34); [done|done|done|].
      intros m Hget. by apply carried_MessageId, Hl. }
    eapply field_then; [by apply field_int|].
    eapply field_then; [|apply field_nil].
    exact (field_since (wire_step table f (wire_step table f wf)) 7 _ _ ERROR_FLAGS ERROR_BYTES a
      ltac:(done) ltac:(done)
      (fun Hv => field_error (wire_step table f (wire_step table f wf)) error_fuel poisonCause _ a (He Hv))).
  - done.
  - cbn. destruct a as [[rr id] dest tx cons ty fi la n cause]. cbn in *.
    destruct (Z.leb_spec 7 (version f)); [done|]. by rewrite Hne by lia.
  - done.
  - lia.
  - unfold STRING_BYTES. lia.
Qed.

(** Two levels of nesting are all these commands have. *)
Lemma carried_object f o :
  object_ok error_fuel (stackTraceEnabled f) (version f) o ->
  carried table (wire table f 2) o (50 + ERROR_FLAGS) (7 * STRING_BYTES + 200 + ERROR_BYTES).
Proof.
  destruct o; cbn [object_ok wire]; intros Hok; (eapply carried_weaken; [|shelve..]);
    [by apply carried_ConnectionId|by apply carried_SessionId|by apply carried_ConsumerId
    |by apply carried_ProducerId|by apply carried_LocalTransactionId|by apply carried_MessageId
    |by apply carried_Destination|by apply carried_KeepAliveInfo|by apply carried_Response
    |by apply carried_ExceptionResponse|by apply carried_MessageAck].
  Unshelve. all: unfold STRING_BYTES, ERROR_FLAGS, ERROR_BYTES; lia.
Qed.

Lemma delivers_object f o :
  object_ok error_fuel (stackTraceEnabled f) (version f) o -> delivers table 2 f o.
Proof.
  intros Hok. destruct (carried_object f o Hok)
    as (dsm & w & bs & lbs & Hreg & Ht & Hl & Hw & Hbs & Hlbs).
  unfold STRING_BYTES, ERROR_FLAGS, ERROR_BYTES in *.
  destruct (tightEncodingEnabled f) eqn:Hf.
  - eapply delivers_tight; try done; unfold MAX_BITS, SHORT_MAX, MAX_FIELDS, INT_MAX; lia.
  - eapply delivers_loose; try done. unfold INT_MAX. lia.
Qed.
End delivery.

Lemma find_first_of_lower chars s i :
  find_first_of chars s i = -1 \/ i <= find_first_of chars s i.
Proof.
  revert i. induction s as [|c s IH]; intros i; cbn; [by left|].
  case_bool_decide; [by right|]. destruct (IH (i + 1)); [by left|right; lia].
Qed.

(** ** Properties *)

(** C2: An acknowledgement, response, exception response or keep alive whose strings and numbers
    fit the protocol is delivered: marshalled under any options, it is read back as it was by a
    peer with the same options, in either encoding, nested objects, broker errors and
    version-dependent fields included. An identifier or a destination, which is no command, is
    read to its end and given as NULL when it is sent so; inside of a command, where
    the protocol has it, it comes back as it was, as every object of the table does, in either
    encoding. *)
Theorem command_delivery {S} `{InputStreamLaws S} error_fuel f o :
  object_ok error_fuel (stackTraceEnabled f) (version f) o ->
  delivers (S := S) (dataMarshallers error_fuel) 2 f o /\
  exists w bs lbs, let wf := wire (S := S) (dataMarshallers error_fuel) f 3 in
    tight_codec (S := S) (@nested_tightMarshal1 _ _ wf) (@nested_tightMarshal2 _ _ wf) (@nested_tightUnmarshal _ _ wf) (Some o) w bs /\
    codec (S := S) (@nested_looseMarshal _ _ wf) (@nested_looseUnmarshal _ _ wf) (Some o) lbs.
Proof.
  intros Hok. split; [by apply delivers_object|]. pose proof (carried_object error_fuel f o Hok) as Hc.
  assert (0 <= 50 + ERROR_FLAGS /\ 0 <= 7 * STRING_BYTES + 200 + ERROR_BYTES) as [Hw Hb] by (unfold STRING_BYTES, ERROR_FLAGS, ERROR_BYTES; lia).
  destruct (nested_carried (dataMarshallers error_fuel) f (wire (dataMarshallers error_fuel) f 2) (fun o => o) (Some o) _ _ Hw Hb) as (w & bs & lbs & H1 & H2 & _); [by intros ? [= <-]|].
  by exists w, bs, lbs.
Qed.

Definition sample_messageId : MessageId :=
  mkMessageId [] (Some (mkProducerId [73; 68] 1 1)) 5 (2 ^ 40).
Definition sample_ack : Object :=
  OMessageAck (mkMessageAck (mkBaseCommand true 7) (Some (true, mkDestination [113] None false))
    (Some (mkLocalTransactionId 3 (Some (mkConnectionId [73; 68]))))
    (Some (mkConsumerId [73; 68] 1 2)) 2 (Some sample_messageId) (Some sample_messageId) 10 NoError).

Ltac sample :=
  repeat match goal with
  | |- _ /\ _ => split
  | |- Forall _ _ => constructor
  | |- ?x = Some _ -> _ => let E := fresh in intros E; cbv in E; injection E as <-
  | |- forall x, _ = Some x -> _ => intro
  end; try by vm_compute.

Lemma command_delivery_witness :
  delivers (S := list (list Z)) (dataMarshallers 1) 2 (format_with client_info) sample_ack /\
  exists w bs lbs, let wf := wire (S := list (list Z)) (dataMarshallers 1) (format_with client_info) 3 in
    tight_codec (S := list (list Z)) (@nested_tightMarshal1 _ _ wf) (@nested_tightMarshal2 _ _ wf) (@nested_tightUnmarshal _ _ wf) (Some (OMessageId sample_messageId)) w bs /\
    codec (S := list (list Z)) (@nested_looseMarshal _ _ wf) (@nested_looseUnmarshal _ _ wf) (Some (OMessageId sample_messageId)) lbs.
Proof.
  split.
  - apply command_delivery. split;
      cbn [ma_destination ma_transactionId ma_consumerId firstMessageId lastMessageId sample_ack];
      unfold destination_ok, localTransactionId_ok, connectionId_ok, consumerId_ok, messageId_ok,
        producerId_ok, string_ok; sample.
  - apply (command_delivery 1 (format_with client_info) (OMessageId sample_messageId)).
    cbn [object_ok]; unfold messageId_ok, producerId_ok, string_ok; sample.
Defined.

(** The advisory flag follows from the first character alone: it is set exactly when
    that is one of the letters of the prefix, so for every advisory topic, and also
    for names like [orders] that do not start with it. *)
Theorem advisory_flag name d :
  (advisory (setPhysicalName name d) = true <->
   exists c rest, name = c :: rest /\ c ∈ ADVISORY_TOPIC_PREFIX) /\
  (forall rest, advisory (setPhysicalName (ADVISORY_TOPIC_PREFIX ++ rest) d) = true) /\
  exists other, advisory (setPhysicalName other d) = true /\
    take (length ADVISORY_TOPIC_PREFIX) other <> ADVISORY_TOPIC_PREFIX.
Proof.
  split_and!.
  - unfold setPhysicalName. cbn [advisory]. rewrite Z.eqb_eq. destruct name as [|c rest]; cbn.
    { split; [done|]. by intros (? & ? & ? & _). }
    case_bool_decide as Hc.
    + split; [|done]. intros _. by exists c, rest.
    + pose proof (find_first_of_lower ADVISORY_TOPIC_PREFIX rest (0 + 1)).
      split; [lia|]. intros (c' & rest' & [= <- <-] & Hc'). done.
  - done.
  - exists [111; 114; 100; 101; 114; 115]. by split.
Qed.
