(* ===== verification/BitSet.v ===== *)
(** * BitSet (decaf/util/BitSet.cpp): a growing array of 64-bit words as a set of
    indices.

    [bit s i] is the element test the operations are specified by; [wf] is the
    invariant of the representation, [exact] what [isLengthActual] promises about it.
    An access outside the array that [bits] points to is undefined behaviour;
    [bitsSize] is the field of that name, which the code does not always keep equal
    to the length of the array. *)
From S2P Require Import Prelude.

Record BitSet : Type := mkBitSet {
  bits : list Z;
  bitsSize : Z;
  needClear : bool;
  actualArrayLength : Z;
  isLengthActual : bool;
}.

Definition OFFSET : Z := 6.
Definition ELM_SIZE : Z := 64.
Definition RIGHT_BITS : Z := 63.
Definition ALL_ONES : Z := 0xFFFFFFFFFFFFFFFF.

(** The table holds the powers of two. *)
Definition TWO_N_ARRAY (i : Z) : Z := Z.shiftl 1 i.

Definition pop (x : Z) : Z :=
  let x := u64 (x - Z.land (Z.shiftr x 1) 0x55555555) in
  let x := u64 (Z.land x 0x33333333 + Z.land (Z.shiftr x 2) 0x33333333) in
  let x := Z.land (u64 (x + Z.shiftr x 4)) 0x0f0f0f0f in
  let x := u64 (x + Z.shiftr x 8) in
  let x := u64 (x + Z.shiftr x 16) in
  Z.land (s32 x) 0x3f.

(** ** The words *)

Definition word (i : Z) : M BitSet Z := fun s =>
  if i <? 0 then (UB, s)
  else match bits s !! Z.to_nat i with Some w => (Ok w, s) | None => (UB, s) end.

Definition with_bits (ws : list Z) (s : BitSet) : BitSet :=
  mkBitSet ws (bitsSize s) (needClear s) (actualArrayLength s) (isLengthActual s).

Definition set_word (i w : Z) : M BitSet unit := fun s =>
  if (i <? 0) || (zlen (bits s) <=? i) then (UB, s)
  else (Ok tt, with_bits (<[Z.to_nat i := w]> (bits s)) s).

Definition change_word (i : Z) (f : Z -> Z) : M BitSet unit := w <- word i ;; set_word i (f w).

(** [bits], a new array of [n] words, the first [k] of them copied from [src], the
    others 0; copying more than either array holds is undefined. *)
Definition new_bits {S} (n k : Z) (src : list Z) : M S (list Z) := fun s =>
  if (n <? k) || (zlen src <? k) then (UB, s)
  else (Ok (take (Z.to_nat k) src ++ replicate (Z.to_nat (n - k)) 0), s).

Definition set_lengths (actual : Z) (isActual : bool) (s : BitSet) : BitSet :=
  mkBitSet (bits s) (bitsSize s) (needClear s) actual isActual.
Definition set_needClear (s : BitSet) : BitSet :=
  mkBitSet (bits s) (bitsSize s) true (actualArrayLength s) (isLengthActual s).

(** [isLengthActual = !((actualArrayLength > 0) && (bits[actualArrayLength - 1] == 0))] *)
Definition check_length : M BitSet unit :=
  s <- get ;;
  if 0 <? actualArrayLength s then
    w <- word (actualArrayLength s - 1) ;;
    modify (set_lengths (actualArrayLength s) (negb (w =? 0)))
  else modify (set_lengths (actualArrayLength s) true).

(** [while (idx >= 0 && bits[idx] == 0) --idx;] with [idx + 1] as [n] *)
Fixpoint scan_down (n : nat) : M BitSet Z :=
  match n with
  | O => ret (-1)
  | Datatypes.S n' =>
      w <- word (Z.of_nat n') ;;
      if w =? 0 then scan_down n' else ret (Z.of_nat n')
  end.

Definition getActualArrayLength : M BitSet Z :=
  s <- get ;;
  if isLengthActual s then ret (actualArrayLength s)
  else
    idx <- scan_down (Z.to_nat (actualArrayLength s)) ;;
    modify (set_lengths (idx + 1) true) ;;;
    ret (idx + 1).

Definition ensureCapacity (len : Z) : M BitSet unit :=
  s <- get ;;
  let newSize := Z.max len (s32 (bitsSize s * 2)) in
  tempBits <- new_bits newSize (actualArrayLength s) (bits s) ;;
  put (mkBitSet tempBits newSize (needClear s) (actualArrayLength s) (isLengthActual s)).

(** ** Construction *)

Definition BitSet_new : BitSet := mkBitSet [0] 1 false 0 true.

Definition BitSet_sized (bitCount : Z) : outcome BitSet :=
  if bitCount <? 0 then Throw NegativeArraySizeException
  else
    let n := Z.shiftr bitCount OFFSET + (if 0 <? Z.land bitCount RIGHT_BITS then 1 else 0) in
    Ok (mkBitSet (replicate (Z.to_nat n) 0) n false 0 true).

(** ** Single elements *)

Definition BitSet_get (index : Z) : M BitSet bool :=
  if index <? 0 then throw IndexOutOfBoundsException
  else
    s <- get ;;
    let arrayPos := Z.shiftr index OFFSET in
    if arrayPos <? actualArrayLength s then
      w <- word arrayPos ;;
      ret (negb (Z.land w (TWO_N_ARRAY (Z.land index RIGHT_BITS)) =? 0))
    else ret false.

(** Room for the word at [len - 1]. *)
Definition make_room (len : Z) : M BitSet unit :=
  s <- get ;; if bitsSize s <? len then ensureCapacity len else ret tt.

(** [if (len > actualArrayLength) { actualArrayLength = len; isLengthActual = true; }] *)
Definition grow_length (len : Z) (s : BitSet) : BitSet :=
  if actualArrayLength s <? len then set_lengths len true s else s.

Definition BitSet_set (index : Z) : M BitSet unit :=
  if index <? 0 then throw IndexOutOfBoundsException
  else
    let len := Z.shiftr index OFFSET + 1 in
    make_room len ;;;
    change_word (len - 1) (fun w => Z.lor w (TWO_N_ARRAY (Z.land index RIGHT_BITS))) ;;;
    modify (grow_length len) ;;;
    modify set_needClear.

Definition BitSet_clear (index : Z) : M BitSet unit :=
  if index <? 0 then throw IndexOutOfBoundsException
  else
    s <- get ;;
    if negb (needClear s) then ret tt
    else
      let arrayPos := Z.shiftr index OFFSET in
      if arrayPos <? actualArrayLength s then
        change_word arrayPos
          (fun w => Z.land w (Z.lnot (TWO_N_ARRAY (Z.land index RIGHT_BITS)))) ;;;
        w <- word (actualArrayLength s - 1) ;;
        if w =? 0 then modify (fun s => set_lengths (actualArrayLength s) false s) else ret tt
      else ret tt.

Definition BitSet_set_value (index : Z) (value : bool) : M BitSet unit :=
  if value then BitSet_set index else BitSet_clear index.

Definition BitSet_flip (index : Z) : M BitSet unit :=
  if index <? 0 then throw IndexOutOfBoundsException
  else
    let len := Z.shiftr index OFFSET + 1 in
    make_room len ;;;
    change_word (len - 1) (fun w => Z.lxor w (TWO_N_ARRAY (Z.land index RIGHT_BITS))) ;;;
    modify (fun s => if actualArrayLength s <? len
                     then set_lengths len (isLengthActual s) s else s) ;;;
    check_length ;;;
    modify set_needClear.

(** ** Ranges *)

Definition bad_range (fromIndex toIndex : Z) : bool :=
  (fromIndex <? 0) || (toIndex <? 0) || (toIndex <? fromIndex).

Definition factor1 (fromIndex : Z) : Z := u64 (Z.shiftl ALL_ONES (Z.land fromIndex RIGHT_BITS)).
Definition factor2 (toIndex : Z) : Z :=
  let shift := ELM_SIZE - Z.land toIndex RIGHT_BITS in
  if shift <? 64 then Z.shiftr ALL_ONES shift else ALL_ONES.

(** The words of a range: [op] with a mask on the first and the last, [full] on the
    ones between. *)
Definition change_range (op : Z -> Z -> Z) (full : Z -> Z) (fromIndex toIndex : Z) : M BitSet unit :=
  let idx1 := Z.shiftr fromIndex OFFSET in
  let idx2 := Z.shiftr (toIndex - 1) OFFSET in
  if idx1 =? idx2 then
    change_word idx1 (fun w => op w (Z.land (factor1 fromIndex) (factor2 toIndex)))
  else
    change_word idx1 (fun w => op w (factor1 fromIndex)) ;;;
    change_word idx2 (fun w => op w (factor2 toIndex)) ;;;
    for_m (idx1 + 1) idx2 (fun i => change_word i full).

Definition BitSet_set_range (fromIndex toIndex : Z) : M BitSet unit :=
  if bad_range fromIndex toIndex then throw IndexOutOfBoundsException
  else if fromIndex =? toIndex then ret tt
  else
    let len2 := Z.shiftr (toIndex - 1) OFFSET + 1 in
    make_room len2 ;;;
    change_range Z.lor (fun w => Z.lor w ALL_ONES) fromIndex toIndex ;;;
    modify (grow_length len2) ;;;
    modify set_needClear.

Definition BitSet_flip_range (fromIndex toIndex : Z) : M BitSet unit :=
  if bad_range fromIndex toIndex then throw IndexOutOfBoundsException
  else if fromIndex =? toIndex then ret tt
  else
    let len2 := Z.shiftr (toIndex - 1) OFFSET + 1 in
    make_room len2 ;;;
    change_range Z.lxor (fun w => Z.lxor w ALL_ONES) fromIndex toIndex ;;;
    modify (fun s => if actualArrayLength s <? len2
                     then set_lengths len2 (isLengthActual s) s else s) ;;;
    check_length ;;;
    modify set_needClear.

Definition BitSet_clear_range (fromIndex toIndex : Z) : M BitSet unit :=
  if bad_range fromIndex toIndex then throw IndexOutOfBoundsException
  else
    s <- get ;;
    if negb (needClear s) then ret tt
    else
      let last := s32 (Z.shiftl (actualArrayLength s) OFFSET) in
      if (last <=? fromIndex) || (fromIndex =? toIndex) then ret tt
      else
        let toIndex := if last <? toIndex then last else toIndex in
        change_range (fun w m => Z.land w (Z.lnot m)) (fun _ => 0) fromIndex toIndex ;;;
        s <- get ;;
        if 0 <? actualArrayLength s then
          w <- word (actualArrayLength s - 1) ;;
          if w =? 0 then modify (fun s => set_lengths (actualArrayLength s) false s) else ret tt
        else ret tt.

Definition BitSet_set_range_value (fromIndex toIndex : Z) (value : bool) : M BitSet unit :=
  if value then BitSet_set_range fromIndex toIndex else BitSet_clear_range fromIndex toIndex.

(** [clear()] *)
Definition BitSet_clear_all : M BitSet unit :=
  s <- get ;;
  if needClear s then
    for_m 0 (bitsSize s) (fun i => set_word i 0) ;;;
    modify (fun s => mkBitSet (bits s) (bitsSize s) false 0 true)
  else ret tt.

(** ** Scans *)

Definition BitSet_size (s : BitSet) : Z := s32 (Z.shiftl (bitsSize s) OFFSET).

(** [for (int j = from; j < ELM_SIZE; j++) if (p(j)) return j;] *)
Fixpoint find_bit (p : Z -> bool) (n : nat) (j : Z) : option Z :=
  match n with
  | O => None
  | Datatypes.S n' => if p j then Some j else find_bit p n' (j + 1)
  end.
Definition find_from (p : Z -> bool) (from : Z) : option Z :=
  find_bit p (Z.to_nat (ELM_SIZE - from)) from.

(** [while (idx < length && p(bits[idx])) idx++;] with [length - idx] as [n] *)
Fixpoint skip_words (p : Z -> bool) (n : nat) (idx : Z) : M BitSet Z :=
  match n with
  | O => ret idx
  | Datatypes.S n' =>
      w <- word idx ;; if p w then skip_words p n' (idx + 1) else ret idx
  end.

Definition has_bit (w j : Z) : bool := negb (Z.land w (TWO_N_ARRAY j) =? 0).
Definition lacks_bit (w j : Z) : bool := Z.land w (TWO_N_ARRAY j) =? 0.

(** The search the two scans share: [p w j] is the test of a bit, [e w] holds of a
    word without any; the first hit at or after bit [off] of the word [idx], [None]
    past the words in use. *)
Definition search (p : Z -> Z -> bool) (e : Z -> bool) (idx off : Z) : M BitSet (option Z) :=
  s <- get ;;
  w <- word idx ;;
  match (if negb (e w) then find_from (p w) off else None) with
  | Some j => ret (Some (s32 (Z.shiftl idx OFFSET + j)))
  | None =>
      idx <- skip_words e (Z.to_nat (actualArrayLength s - (idx + 1))) (idx + 1) ;;
      if idx =? actualArrayLength s then ret None
      else
        w <- word idx ;;
        ret (option_map (fun j => s32 (Z.shiftl idx OFFSET + j)) (find_from (p w) 0))
  end.

Definition BitSet_nextSetBit (index : Z) : M BitSet Z :=
  if index <? 0 then throw IndexOutOfBoundsException
  else
    s <- get ;;
    if s32 (Z.shiftl (actualArrayLength s) OFFSET) <=? index then ret (-1)
    else
      r <- search has_bit (fun w => w =? 0) (Z.shiftr index OFFSET) (Z.land index RIGHT_BITS) ;;
      ret (default (-1) r).

Definition BitSet_nextClearBit (index : Z) : M BitSet Z :=
  if index <? 0 then throw IndexOutOfBoundsException
  else
    s <- get ;;
    let bssize := s32 (Z.shiftl (actualArrayLength s) OFFSET) in
    if bssize <=? index then ret index
    else
      r <- search lacks_bit (fun w => w =? ALL_ONES) (Z.shiftr index OFFSET) (Z.rem index ELM_SIZE) ;;
      ret (default bssize r).

(** [int i = n; while ((val & TWO_N_ARRAY[i]) == 0 && i > 0) i--;] *)
Fixpoint high_bit (val : Z) (n : nat) : Z :=
  match n with
  | O => 0
  | Datatypes.S n' => if lacks_bit val (Z.of_nat n) then high_bit val n' else Z.of_nat n
  end.

Definition BitSet_length : M BitSet Z :=
  s <- get ;;
  idx <- scan_down (Z.to_nat (actualArrayLength s)) ;;
  modify (fun s => set_lengths (idx + 1) (isLengthActual s) s) ;;;
  if idx =? -1 then ret 0
  else
    val <- word idx ;;
    ret (s32 (Z.shiftl idx OFFSET + high_bit val 63 + 1)).

Definition BitSet_isEmpty : M BitSet bool :=
  s <- get ;;
  if negb (needClear s) then ret true
  else
    idx <- skip_words (fun w => w =? 0) (Z.to_nat (bitsSize s)) 0 ;;
    ret (idx =? bitsSize s).

Definition BitSet_cardinality : M BitSet Z :=
  s <- get ;;
  if negb (needClear s) then ret 0
  else
    with_object 0
      (for_m 0 (bitsSize s) (fun i =>
         w <- on_fst (word i) ;;
         on_snd (modify (fun count => count + pop (Z.land w 0xffffffff) + pop (Z.shiftr w 32)))) ;;;
       on_snd get).

(** ** Two sets

    The other set comes second; the operations that correct its length change it. *)

Definition word2 (i : Z) : M (BitSet * BitSet) Z := on_snd (word i).

(** [bits[i] = op(bits[i], bsBits[i])] for [lo <= i < hi] *)
Definition combine (op : Z -> Z -> Z) (lo hi : Z) : M (BitSet * BitSet) unit :=
  for_m lo hi (fun i => v <- word2 i ;; on_fst (change_word i (fun w => op w v))).

Definition BitSet_AND : M (BitSet * BitSet) unit :=
  s <- get ;;
  if negb (needClear s.1) then ret tt
  else
    let length1 := actualArrayLength s.1 in
    let length2 := actualArrayLength s.2 in
    (if length1 <=? length2 then combine Z.land 0 length1
     else
       combine Z.land 0 length2 ;;;
       on_fst (for_m length2 length1 (fun i => set_word i 0)) ;;;
       on_fst (modify (fun t => set_lengths length2 (isLengthActual t) t))) ;;;
    on_fst check_length.

Definition BitSet_andNot : M (BitSet * BitSet) unit :=
  s <- get ;;
  if negb (needClear s.1) then ret tt
  else
    let range := if actualArrayLength s.1 <? actualArrayLength s.2
                 then actualArrayLength s.1 else actualArrayLength s.2 in
    combine (fun w v => Z.land w (Z.lnot v)) 0 range ;;;
    on_fst (modify (fun t => if actualArrayLength t <? range
                             then set_lengths range (isLengthActual t) t else t)) ;;;
    on_fst check_length.

(** The array replaced by the other set's words combined with this one's, the fields
    that describe it left to the callers: [bitsSize] stays as it was. *)
Definition replace_bits (op : Z -> Z -> Z) (n : Z) : M (BitSet * BitSet) unit :=
  s <- get ;;
  tempBits <- new_bits n (actualArrayLength s.2) (bits s.2) ;;
  let old := bits s.1 in
  on_fst (modify (with_bits tempBits)) ;;;
  for_m 0 (actualArrayLength s.1) (fun i =>
    match old !! Z.to_nat i with
    | Some w => on_fst (change_word i (fun v => op v w))
    | None => undefined
    end).

Definition BitSet_OR : M (BitSet * BitSet) unit :=
  setActualLen <- on_snd getActualArrayLength ;;
  s <- get ;;
  (if bitsSize s.1 <? setActualLen then
     replace_bits Z.lor setActualLen ;;;
     on_fst (modify (set_lengths setActualLen true))
   else
     combine Z.lor 0 setActualLen ;;;
     on_fst (modify (grow_length setActualLen))) ;;;
  on_fst (modify set_needClear).

Definition BitSet_XOR : M (BitSet * BitSet) unit :=
  setActualLength <- on_snd getActualArrayLength ;;
  s <- get ;;
  (if bitsSize s.1 <? setActualLength then
     replace_bits Z.lxor setActualLength ;;;
     on_fst (modify (fun t => set_lengths setActualLength (isLengthActual t) t)) ;;;
     on_fst check_length
   else
     combine Z.lxor 0 setActualLength ;;;
     on_fst (modify (grow_length setActualLength))) ;;;
  on_fst (modify set_needClear).

(** [for (i = idx; i < idx + n; i++) if (!p(i)) return false;] *)
Fixpoint all_words (p : Z -> M (BitSet * BitSet) bool) (n : nat) (idx : Z) : M (BitSet * BitSet) bool :=
  match n with
  | O => ret true
  | Datatypes.S n' => b <- p idx ;; if (b : bool) then all_words p n' (idx + 1) else ret false
  end.

(** The comparison with itself by address aside. *)
Definition BitSet_equals : M (BitSet * BitSet) bool :=
  s <- get ;;
  let length1 := actualArrayLength s.1 in
  let length2 := actualArrayLength s.2 in
  let same i := w <- on_fst (word i) ;; v <- word2 i ;; ret (w =? v) in
  if isLengthActual s.1 && isLengthActual s.2 && negb (length1 =? length2) then ret false
  else if length1 <=? length2 then
    b <- all_words same (Z.to_nat length1) 0 ;;
    if (b : bool) then
      all_words (fun i => v <- word2 i ;; ret (v =? 0)) (Z.to_nat (length2 - length1)) length1
    else ret false
  else
    b <- all_words same (Z.to_nat length2) 0 ;;
    if (b : bool) then
      all_words (fun i => w <- on_fst (word i) ;; ret (w =? 0)) (Z.to_nat (length1 - length2)) length2
    else ret false.

Definition BitSet_intersects : M (BitSet * BitSet) bool :=
  s <- get ;;
  let n := if actualArrayLength s.1 <=? actualArrayLength s.2
           then actualArrayLength s.1 else actualArrayLength s.2 in
  b <- all_words (fun i => w <- on_fst (word i) ;; v <- word2 i ;; ret (Z.land w v =? 0)) (Z.to_nat n) 0 ;;
  ret (negb b).

(** ** The bits of a range as a new set *)

(** The words shifted right by [k] bits, each taking the low bits of the next. *)
Fixpoint shift_words (k : Z) (ws : list Z) : list Z :=
  match ws with
  | [] => []
  | w :: ws' =>
      match ws' with
      | [] => Z.shiftr w k
      | v :: _ => Z.lor (Z.shiftr w k) (u64 (Z.shiftl v (ELM_SIZE - k)))
      end :: shift_words k ws'
  end.

(** One past the last word that is not 0, [len] if there is none. *)
Fixpoint last_used (ws : list Z) (i len : Z) : Z :=
  match ws with
  | [] => len
  | w :: ws' => last_used ws' (i + 1) (if w =? 0 then len else i + 1)
  end.

Fixpoint read_words (idx : Z) (n : nat) : M BitSet (list Z) :=
  match n with
  | O => ret []
  | Datatypes.S n' => w <- word idx ;; ws <- read_words (idx + 1) n' ;; ret (w :: ws)
  end.

Definition empty_set : BitSet := mkBitSet [] 0 false 0 true.

(** The range in one word. *)
Definition slice_one (fromIndex toIndex : Z) : M BitSet BitSet :=
  s <- get ;;
  w <- word (Z.shiftr fromIndex OFFSET) ;;
  let result := Z.shiftr (Z.land w (Z.land (factor1 fromIndex) (factor2 toIndex)))
                  (Z.rem fromIndex ELM_SIZE) in
  if result =? 0 then ret empty_set else ret (mkBitSet [result] 1 (needClear s) 1 true).

(** The range in several. *)
Definition slice_many (fromIndex toIndex : Z) : M BitSet BitSet :=
  s <- get ;;
  let idx1 := Z.shiftr fromIndex OFFSET in
  let idx2 := Z.shiftr (toIndex - 1) OFFSET in
  let newBitsSize := idx2 - idx1 + 1 in
  w1 <- word idx1 ;;
  w2 <- word idx2 ;;
  between <- read_words (idx1 + 1) (Z.to_nat (idx2 - idx1 - 1)) ;;
  let newbits := Z.land w1 (factor1 fromIndex) :: between ++ [Z.land w2 (factor2 toIndex)] in
  let numBitsToShift := Z.land fromIndex RIGHT_BITS in
  let newbits := if numBitsToShift =? 0 then newbits else shift_words numBitsToShift newbits in
  let actualLen := if numBitsToShift =? 0 then newBitsSize else last_used newbits 0 newBitsSize in
  match newbits !! Z.to_nat (actualLen - 1) with
  | None => undefined
  | Some w => ret (mkBitSet newbits newBitsSize (needClear s) actualLen (negb (w =? 0)))
  end.

Definition BitSet_get_range (fromIndex toIndex : Z) : M BitSet BitSet :=
  if bad_range fromIndex toIndex then throw IndexOutOfBoundsException
  else
    s <- get ;;
    let last := s32 (Z.shiftl (actualArrayLength s) OFFSET) in
    if (last <=? fromIndex) || (fromIndex =? toIndex) then ret empty_set
    else
      let toIndex := if last <? toIndex then last else toIndex in
      if Z.shiftr fromIndex OFFSET =? Z.shiftr (toIndex - 1) OFFSET
      then slice_one fromIndex toIndex else slice_many fromIndex toIndex.

(** ** The set of bits *)

Definition nth_word (ws : list Z) (k : Z) : Z := default 0 (ws !! Z.to_nat k).
Definition bit_of (ws : list Z) (i : Z) : bool := Z.testbit (nth_word ws (i / 64)) (i mod 64).
Definition bit (s : BitSet) (i : Z) : bool := bit_of (bits s) i.

Record wf (s : BitSet) : Prop := {
  wf_words : Forall (in_u 64) (bits s);
  wf_size : bitsSize s = zlen (bits s);
  wf_actual : 0 <= actualArrayLength s <= bitsSize s;
  wf_beyond : forall k, actualArrayLength s <= k -> nth_word (bits s) k = 0;
  wf_clear : needClear s = false -> actualArrayLength s = 0;
}.

(** What [isLengthActual] promises. *)
Definition exact (s : BitSet) : Prop :=
  isLengthActual s = true -> 0 < actualArrayLength s ->
  nth_word (bits s) (actualArrayLength s - 1) <> 0.

(** ** Lemmas on words and bits *)

Lemma word_index i : Z.shiftr i OFFSET = i / 64.
Proof. unfold OFFSET. by rewrite Z.shiftr_div_pow2 by lia. Qed.

Lemma word_offset i : Z.land i RIGHT_BITS = i mod 64.
Proof. unfold RIGHT_BITS. change 63 with (Z.ones 6). by rewrite Z.land_ones by lia. Qed.

Lemma testbit_two_n k j : 0 <= k -> 0 <= j -> Z.testbit (TWO_N_ARRAY k) j = (j =? k).
Proof.
  intros Hk Hj. unfold TWO_N_ARRAY. rewrite Z.shiftl_spec by done.
  destruct (Z.ltb_spec j k).
  - rewrite Z.testbit_neg_r by lia. by zcmp.
  - destruct (Z.eqb_spec j k) as [->|]; [by rewrite Z.sub_diag|].
    apply Z.bits_above_log2; [done|]. cbn. lia.
Qed.

Lemma has_bit_spec w j : 0 <= j -> has_bit w j = Z.testbit w j.
Proof.
  intros Hj. unfold has_bit. destruct (Z.testbit w j) eqn:E.
  - destruct (Z.eqb_spec (Z.land w (TWO_N_ARRAY j)) 0) as [H0|]; [|done].
    assert (Z.testbit (Z.land w (TWO_N_ARRAY j)) j = false) as F by (by rewrite H0, Z.bits_0).
    by rewrite Z.land_spec, E, testbit_two_n, Z.eqb_refl in F.
  - destruct (Z.eqb_spec (Z.land w (TWO_N_ARRAY j)) 0) as [|Hn]; [done|]. destruct Hn.
    apply Z.bits_inj'. intros n Hn. rewrite Z.land_spec, testbit_two_n, Z.bits_0 by done.
    destruct (Z.eqb_spec n j) as [->|]; [by rewrite E|by rewrite andb_false_r].
Qed.

Lemma lacks_bit_spec w j : 0 <= j -> lacks_bit w j = negb (Z.testbit w j).
Proof. intros Hj. rewrite <- has_bit_spec by done. unfold has_bit. by rewrite negb_involutive. Qed.

Lemma word_high w j : in_u 64 w -> 64 <= j -> Z.testbit w j = false.
Proof.
  intros [? Hw] ?. rewrite <- (Z.mod_small w (2 ^ 64)) by done. by apply Z.mod_pow2_bits_high.
Qed.

(** A word whose bits beyond 63 are clear is in range. *)
Lemma word_range w : 0 <= w -> (forall j, 64 <= j -> Z.testbit w j = false) -> in_u 64 w.
Proof.
  intros H0 Hb. split; [done|]. destruct (Z.ltb_spec w (2 ^ 64)) as [|Hge]; [done|].
  assert (0 < w) as Hw by lia. pose proof (Z.bit_log2 w Hw) as Hl.
  rewrite Hb in Hl; [done|]. apply Z.log2_le_pow2; lia.
Qed.

Lemma word_ext w v : in_u 64 w -> in_u 64 v ->
  (forall j, 0 <= j < 64 -> Z.testbit w j = Z.testbit v j) -> w = v.
Proof.
  intros Hw Hv Hb. apply Z.bits_inj'. intros n Hn. destruct (Z.ltb_spec n 64); [by apply Hb|].
  by rewrite !word_high.
Qed.

Lemma testbit_ones j : 0 <= j < 64 -> Z.testbit ALL_ONES j = true.
Proof. intros. change ALL_ONES with (Z.ones 64). apply Z.ones_spec_low. lia. Qed.

Lemma ones_range : in_u 64 ALL_ONES.
Proof. by vm_compute. Qed.

Lemma nth_word_some ws k w : ws !! Z.to_nat k = Some w -> nth_word ws k = w.
Proof. unfold nth_word. by intros ->. Qed.

Lemma nth_word_lookup ws k : 0 <= k < zlen ws -> ws !! Z.to_nat k = Some (nth_word ws k).
Proof.
  intros Hk. unfold nth_word. destruct (ws !! Z.to_nat k) eqn:E; [done|].
  apply lookup_ge_None in E. unfold zlen in Hk. lia.
Qed.

Lemma nth_word_beyond ws k : zlen ws <= k -> nth_word ws k = 0.
Proof. intros Hk. unfold nth_word. rewrite lookup_ge_None_2; [done|]. unfold zlen in Hk. lia. Qed.

Lemma nth_word_range ws k : Forall (in_u 64) ws -> in_u 64 (nth_word ws k).
Proof.
  intros Hw. unfold nth_word. destruct (ws !! Z.to_nat k) eqn:E; cbn; [|by vm_compute].
  by eapply Forall_lookup_1.
Qed.

Lemma nth_word_insert ws k w j :
  0 <= k < zlen ws -> 0 <= j ->
  nth_word (<[Z.to_nat k := w]> ws) j = if j =? k then w else nth_word ws j.
Proof.
  intros Hk Hj. unfold nth_word. destruct (Z.eqb_spec j k) as [->|Hne].
  - rewrite list_lookup_insert_eq; [done|]. unfold zlen in Hk. lia.
  - rewrite list_lookup_insert_ne by lia. done.
Qed.

Lemma zlen_insert {A} (l : list A) i x : zlen (<[i := x]> l) = zlen l.
Proof. unfold zlen. by rewrite length_insert. Qed.

(** Two sets of words with the same bits. *)
Lemma bit_of_word ws k j : 0 <= k -> 0 <= j < 64 -> bit_of ws (64 * k + j) = Z.testbit (nth_word ws k) j.
Proof.
  intros Hk Hj. unfold bit_of.
  replace ((64 * k + j) / 64) with k by lia. by replace ((64 * k + j) mod 64) with j by lia.
Qed.

(** ** The steps of the operations *)

Lemma word_ok s i : 0 <= i < zlen (bits s) -> word i s = (Ok (nth_word (bits s) i), s).
Proof. intros Hi. unfold word. zcmp. by rewrite nth_word_lookup. Qed.

Lemma set_word_ok s i w : 0 <= i < zlen (bits s) ->
  set_word i w s = (Ok tt, with_bits (<[Z.to_nat i := w]> (bits s)) s).
Proof. intros Hi. unfold set_word. by zcmp. Qed.

Lemma change_word_ok s i f : 0 <= i < zlen (bits s) ->
  change_word i f s = (Ok tt, with_bits (<[Z.to_nat i := f (nth_word (bits s) i)]> (bits s)) s).
Proof. intros Hi. unfold change_word. by rewrite (bind_ok _ _ _ _ _ (word_ok s i Hi)), set_word_ok. Qed.

Lemma new_bits_ok {T} n k src (t : T) : 0 <= k <= n -> k <= zlen src ->
  exists ws, new_bits n k src t = (Ok ws, t) /\ zlen ws = n /\
    (forall j, 0 <= j -> nth_word ws j = if j <? k then nth_word src j else 0) /\
    (Forall (in_u 64) src -> Forall (in_u 64) ws).
Proof.
  intros Hk Hs. unfold new_bits. zcmp. eexists. split; [done|].
  assert (length (take (Z.to_nat k) src) = Z.to_nat k) as Hl.
  { rewrite length_take. unfold zlen in Hs. lia. }
  split; [|split].
  - unfold zlen. rewrite length_app, length_replicate, Hl. lia.
  - intros j Hj. unfold nth_word. destruct (Z.ltb_spec j k).
    + rewrite lookup_app_l by lia. by rewrite lookup_take_lt by lia.
    + rewrite lookup_app_r by lia. destruct (replicate _ 0 !! _) eqn:E; [|done].
      by apply lookup_replicate in E as [-> _].
  - intros Hw. apply Forall_app_2; [by apply Forall_take|]. apply Forall_replicate. by vm_compute.
Qed.

(** The same set in a larger array. *)
Record roomier (s s' : BitSet) : Prop := {
  room_wf : wf s';
  room_word : forall k, 0 <= k -> nth_word (bits s') k = nth_word (bits s) k;
  room_clear : needClear s' = needClear s;
  room_actual : actualArrayLength s' = actualArrayLength s;
  room_exact : isLengthActual s' = isLengthActual s;
}.

Lemma ensureCapacity_ok s len : wf s -> bitsSize s < len ->
  exists s', ensureCapacity len s = (Ok tt, s') /\ roomier s s' /\ len <= bitsSize s'.
Proof.
  intros [Hw Hs Ha Hb Hc] Hlen. unfold ensureCapacity. rewrite bind_get.
  cbv zeta. set (n := Z.max _ _).
  destruct (new_bits_ok (T := BitSet) n (actualArrayLength s) (bits s) s) as (ws & E & Hl & Hn & Hf);
    [lia|lia|].
  rewrite (bind_ok _ _ _ _ _ E). eexists. split; [done|].
  assert (forall k, 0 <= k -> nth_word ws k = nth_word (bits s) k) as Hk.
  { intros k Hk. rewrite Hn by done. destruct (Z.ltb_spec k (actualArrayLength s)); [done|].
    by rewrite Hb. }
  split; [|cbn; lia]. split; cbn; try done. split; cbn; try done; [by apply Hf|lia|].
  intros k ?. by rewrite Hk, Hb by lia.
Qed.

Lemma make_room_ok s len : wf s ->
  exists s', make_room len s = (Ok tt, s') /\ roomier s s' /\ len <= bitsSize s'.
Proof.
  intros Hwf. unfold make_room. rewrite bind_get.
  destruct (Z.ltb_spec (bitsSize s) len); [by apply ensureCapacity_ok|].
  exists s. by split_and!; [done|split|lia].
Qed.

(** [wf] after an update of the words and the length. *)
Lemma wf_step s ws n nc la :
  wf s -> Forall (in_u 64) ws -> zlen ws = bitsSize s ->
  0 <= n <= bitsSize s -> (forall k, n <= k -> nth_word ws k = 0) ->
  (nc = false -> n = 0) -> wf (mkBitSet ws (bitsSize s) nc n la).
Proof. intros [Hw Hs Ha Hb Hc] ???? ?. by split; cbn; try done; lia. Qed.

Lemma Forall_insert_word ws k w :
  Forall (in_u 64) ws -> in_u 64 w -> Forall (in_u 64) (<[k := w]> ws).
Proof. intros. by apply Forall_insert. Qed.

(** The bits after one word changed. *)
Lemma bit_of_insert ws k w i :
  0 <= k < zlen ws -> 0 <= i ->
  bit_of (<[Z.to_nat k := w]> ws) i = if i / 64 =? k then Z.testbit w (i mod 64) else bit_of ws i.
Proof.
  intros Hk Hi. unfold bit_of. rewrite nth_word_insert by lia. by case_match.
Qed.

Lemma check_length_ok s : 0 <= actualArrayLength s <= zlen (bits s) ->
  exists b, check_length s = (Ok tt, set_lengths (actualArrayLength s) b s) /\
    exact (set_lengths (actualArrayLength s) b s).
Proof.
  intros Ha. unfold check_length. rewrite bind_get.
  destruct (Z.ltb_spec 0 (actualArrayLength s)).
  - rewrite (bind_ok _ _ _ _ _ (word_ok s (actualArrayLength s - 1) ltac:(lia))). eexists. split; [done|].
    intros He _. cbn in *. by destruct (Z.eqb_spec (nth_word (bits s) (actualArrayLength s - 1)) 0).
  - eexists. split; [done|]. intros _ Hpos. cbn in Hpos. lia.
Qed.

Lemma two_n_range j : 0 <= j < 64 -> in_u 64 (TWO_N_ARRAY j).
Proof.
  intros Hj. unfold TWO_N_ARRAY. rewrite Z.shiftl_mul_pow2, Z.mul_1_l by lia.
  split; [lia|]. apply Z.pow_lt_mono_r; lia.
Qed.

Lemma lor_range w v : in_u 64 w -> in_u 64 v -> in_u 64 (Z.lor w v).
Proof.
  intros Hw Hv. apply word_range; [apply Z.lor_nonneg; split; [apply Hw|apply Hv]|].
  intros j Hj. by rewrite Z.lor_spec, !word_high.
Qed.
Lemma lxor_range w v : in_u 64 w -> in_u 64 v -> in_u 64 (Z.lxor w v).
Proof.
  intros Hw Hv. apply word_range; [apply Z.lxor_nonneg; split; intros _; [apply Hv|apply Hw]|].
  intros j Hj. by rewrite Z.lxor_spec, !word_high.
Qed.
Lemma land_range w v : in_u 64 w -> in_u 64 (Z.land w v).
Proof.
  intros Hw. apply word_range; [apply Z.land_nonneg; left; apply Hw|].
  intros j Hj. by rewrite Z.land_spec, word_high.
Qed.

(** ** Single elements *)

Lemma div_mod_eq i j : 0 <= i -> 0 <= j -> i / 64 = j / 64 -> i mod 64 = j mod 64 -> i = j.
Proof. lia. Qed.

(** A word function that changes the bit at [i mod 64] by [g]. *)
Definition changes_bit (f : Z -> Z) (i : Z) (g : bool -> bool) : Prop :=
  forall w, in_u 64 w -> in_u 64 (f w) /\
    forall j, 0 <= j < 64 -> Z.testbit (f w) j =
      if j =? i mod 64 then g (Z.testbit w j) else Z.testbit w j.

Lemma changes_set i : 0 <= i -> changes_bit (fun w => Z.lor w (TWO_N_ARRAY (Z.land i RIGHT_BITS))) i (fun _ => true).
Proof.
  intros Hi w Hw. rewrite word_offset. assert (0 <= i mod 64 < 64) by lia.
  split; [by apply lor_range, two_n_range|].
  intros j Hj. rewrite Z.lor_spec, testbit_two_n by lia.
  by destruct (Z.eqb_spec j (i mod 64)); rewrite ?orb_true_r, ?orb_false_r.
Qed.
Lemma changes_flip i : 0 <= i -> changes_bit (fun w => Z.lxor w (TWO_N_ARRAY (Z.land i RIGHT_BITS))) i negb.
Proof.
  intros Hi w Hw. rewrite word_offset. assert (0 <= i mod 64 < 64) by lia.
  split; [by apply lxor_range, two_n_range|].
  intros j Hj. rewrite Z.lxor_spec, testbit_two_n by lia.
  by destruct (Z.eqb_spec j (i mod 64)); rewrite ?xorb_true_r, ?xorb_false_r.
Qed.
Lemma changes_clear i : 0 <= i ->
  changes_bit (fun w => Z.land w (Z.lnot (TWO_N_ARRAY (Z.land i RIGHT_BITS)))) i (fun _ => false).
Proof.
  intros Hi w Hw. rewrite word_offset. assert (0 <= i mod 64 < 64) by lia.
  split; [by apply land_range|].
  intros j Hj. rewrite Z.land_spec, Z.lnot_spec, testbit_two_n by lia.
  by destruct (Z.eqb_spec j (i mod 64)); rewrite ?andb_true_r, ?andb_false_r.
Qed.

Lemma bit_of_change ws f i g :
  Forall (in_u 64) ws -> 0 <= i -> i / 64 < zlen ws -> changes_bit f i g ->
  forall j, 0 <= j -> bit_of (<[Z.to_nat (i / 64) := f (nth_word ws (i / 64))]> ws) j =
    if j =? i then g (bit_of ws i) else bit_of ws j.
Proof.
  intros Hws Hi Hlt Hf j Hj. rewrite bit_of_insert by lia.
  destruct (Hf (nth_word ws (i / 64)) (nth_word_range _ _ Hws)) as [_ Hb].
  destruct (Z.eqb_spec (j / 64) (i / 64)) as [E|E].
  - rewrite Hb by lia. unfold bit_of. rewrite E.
    destruct (Z.eqb_spec (j mod 64) (i mod 64)) as [E'|E'].
    + rewrite (div_mod_eq j i) by done. by rewrite Z.eqb_refl.
    + destruct (Z.eqb_spec j i) as [->|]; done.
  - destruct (Z.eqb_spec j i) as [->|]; done.
Qed.

Lemma bit_roomier s s' j : roomier s s' -> 0 <= j -> bit s' j = bit s j.
Proof. intros [_ Hr _ _ _] Hj. unfold bit, bit_of. rewrite Hr by lia. done. Qed.

Lemma nth_word_zero_bits w : (forall j, 0 <= j < 64 -> Z.testbit w j = false) -> in_u 64 w -> w = 0.
Proof. intros Hb Hw. apply word_ext; [done|by vm_compute|]. intros j Hj. by rewrite Hb, Z.bits_0. Qed.

Lemma bit_beyond s i : wf s -> 0 <= i -> actualArrayLength s <= i / 64 -> bit s i = false.
Proof. intros Hwf Hi Hle. unfold bit, bit_of. rewrite (wf_beyond s Hwf) by done. apply Z.bits_0. Qed.

Lemma get_ok s i : wf s -> 0 <= i -> BitSet_get i s = (Ok (bit s i), s).
Proof.
  intros Hwf Hi. unfold BitSet_get. zcmp. rewrite bind_get, word_index.
  destruct (Z.ltb_spec (i / 64) (actualArrayLength s)) as [Hlt|Hge].
  - pose proof Hwf as [Hw Hs Ha Hb Hc].
    rewrite (bind_ok _ _ _ _ _ (word_ok s (i / 64) ltac:(lia))). rewrite word_offset.
    change (ret (has_bit (nth_word (bits s) (i / 64)) (i mod 64)) s = (Ok (bit s i), s)).
    by rewrite has_bit_spec by lia.
  - by rewrite bit_beyond.
Qed.

(** The test on the last word that ends the clearing operations. *)
Definition recheck : M BitSet unit :=
  s <- get ;;
  w <- word (actualArrayLength s - 1) ;;
  if w =? 0 then modify (fun s => set_lengths (actualArrayLength s) false s) else ret tt.

Lemma recheck_ok s : wf s -> 0 < actualArrayLength s ->
  exists b, recheck s = (Ok tt, set_lengths (actualArrayLength s) b s) /\
    exact (set_lengths (actualArrayLength s) b s).
Proof.
  intros [Hw Hs Ha Hb Hc] Hpos. unfold recheck. rewrite bind_get.
  rewrite (bind_ok _ _ _ _ _ (word_ok s (actualArrayLength s - 1) ltac:(lia))).
  destruct (Z.eqb_spec (nth_word (bits s) (actualArrayLength s - 1)) 0) as [E|E].
  - by exists false.
  - exists (isLengthActual s). split; [by destruct s|]. intros _ _. done.
Qed.

Lemma wf_lengths s b : wf s -> wf (set_lengths (actualArrayLength s) b s).
Proof. intros [????]. by split. Qed.

(** ** Ranges of words *)

(** The words [lo] to [hi] of [ws] after [f]. *)
Definition changed_words (f : Z -> Z -> Z) (lo hi : Z) (ws ws' : list Z) : Prop :=
  zlen ws' = zlen ws /\
  forall k, 0 <= k -> nth_word ws' k =
    if (lo <=? k) && (k <? hi) then f k (nth_word ws k) else nth_word ws k.

Lemma changed_step f lo i ws ws' w :
  changed_words f lo i ws ws' -> lo <= i < zlen ws -> 0 <= lo -> w = f i (nth_word ws i) ->
  changed_words f lo (i + 1) ws (<[Z.to_nat i := w]> ws').
Proof.
  intros [Hl Hn] Hi Hlo ->. split; [by rewrite zlen_insert|].
  intros k Hk. rewrite nth_word_insert by lia. destruct (Z.eqb_spec k i) as [->|]; [by zcmp|].
  rewrite Hn by done. destruct (Z.leb_spec lo k); cbn [andb]; [|done].
  destruct (Z.ltb_spec k i), (Z.ltb_spec k (i + 1)); done || lia.
Qed.

Lemma changed_unchanged f lo i ws ws' :
  changed_words f lo i ws ws' -> 0 <= lo <= i -> nth_word ws' i = nth_word ws i.
Proof. intros [_ Hn] Hi. rewrite Hn by lia. by zcmp. Qed.

Lemma for_change_word s f lo hi : 0 <= lo <= hi -> hi <= zlen (bits s) ->
  exists ws, for_m lo hi (fun i => change_word i (f i)) s = (Ok tt, with_bits ws s) /\
    changed_words f lo hi (bits s) ws.
Proof.
  intros Hlo Hhi.
  destruct (for_m_ok (fun i t => exists ws, t = with_bits ws s /\ changed_words f lo i (bits s) ws)
    lo hi (fun i => change_word i (f i)) s) as (t & E & ws & -> & Hc); [lia| | |by exists ws].
  - exists (bits s). split; [by destruct s|]. split; [done|]. intros k Hk.
    destruct (Z.leb_spec lo k), (Z.ltb_spec k lo); done || lia.
  - intros i t Hi (ws & -> & Hc). pose proof Hc as [Hl _].
    rewrite (change_word_ok (with_bits ws s) i (f i)) by (cbn; lia).
    eexists. split; [done|]. eexists. split; [done|]. cbn [bits with_bits].
    apply changed_step; [done|lia..|]. f_equal. eapply changed_unchanged; [done|lia].
Qed.

Lemma for_zero_words s lo hi : 0 <= lo <= hi -> hi <= zlen (bits s) ->
  exists ws, for_m lo hi (fun i => set_word i 0) s = (Ok tt, with_bits ws s) /\
    changed_words (fun _ _ => 0) lo hi (bits s) ws.
Proof.
  intros Hlo Hhi. destruct (for_change_word s (fun _ _ => 0) lo hi Hlo Hhi) as (ws & E & Hc).
  exists ws. split; [|done]. rewrite <- E. unfold for_m. apply iter_m_ext. intros i t.
  unfold change_word, bind, word, set_word. destruct (Z.ltb_spec i 0); [done|]. cbn [orb].
  destruct (Z.leb_spec (zlen (bits t)) i).
  - rewrite lookup_ge_None_2; [done|]. unfold zlen in *. lia.
  - rewrite nth_word_lookup by lia. cbn. by zcmp.
Qed.

(** An operation on words that changes the bits of a mask by [g]. *)
Definition changes_mask (op : Z -> Z -> Z) (full : Z -> Z) (g : bool -> bool) : Prop :=
  forall w, in_u 64 w ->
    (forall m, in_u 64 m -> in_u 64 (op w m) /\ forall j, 0 <= j < 64 ->
       Z.testbit (op w m) j = if Z.testbit m j then g (Z.testbit w j) else Z.testbit w j) /\
    in_u 64 (full w) /\ forall j, 0 <= j < 64 -> Z.testbit (full w) j = g (Z.testbit w j).

Lemma mask_set : changes_mask Z.lor (fun w => Z.lor w ALL_ONES) (fun _ => true).
Proof.
  intros w Hw. split_and!; [intros m Hm; split| |]; [by apply lor_range| |by apply lor_range, ones_range|].
  - intros j Hj. rewrite Z.lor_spec. by destruct (Z.testbit m j); rewrite ?orb_true_r, ?orb_false_r.
  - intros j Hj. by rewrite Z.lor_spec, testbit_ones, orb_true_r.
Qed.
Lemma mask_flip : changes_mask Z.lxor (fun w => Z.lxor w ALL_ONES) negb.
Proof.
  intros w Hw. split_and!; [intros m Hm; split| |]; [by apply lxor_range| |by apply lxor_range, ones_range|].
  - intros j Hj. rewrite Z.lxor_spec. by destruct (Z.testbit m j); rewrite ?xorb_true_r, ?xorb_false_r.
  - intros j Hj. by rewrite Z.lxor_spec, testbit_ones, xorb_true_r.
Qed.
Lemma mask_clear : changes_mask (fun w m => Z.land w (Z.lnot m)) (fun _ => 0) (fun _ => false).
Proof.
  intros w Hw. split_and!; [intros m Hm; split| |]; [by apply land_range| |by vm_compute|].
  - intros j Hj. rewrite Z.land_spec, Z.lnot_spec by lia.
    by destruct (Z.testbit m j); rewrite ?andb_true_r, ?andb_false_r.
  - intros j Hj. apply Z.bits_0.
Qed.

Lemma factor1_range i : in_u 64 (factor1 i).
Proof. apply wrapu_range. lia. Qed.

Lemma factor1_bit i j : 0 <= i -> 0 <= j < 64 -> Z.testbit (factor1 i) j = (i mod 64 <=? j).
Proof.
  intros Hi Hj. unfold factor1, wrapu. rewrite Z.mod_pow2_bits_low, word_offset by lia.
  rewrite Z.shiftl_spec by lia. destruct (Z.leb_spec (i mod 64) j).
  - apply testbit_ones. lia.
  - apply Z.testbit_neg_r. lia.
Qed.

Lemma factor2_range i : in_u 64 (factor2 i).
Proof.
  unfold factor2. destruct (Z.ltb_spec (ELM_SIZE - Z.land i RIGHT_BITS) 64); [|apply ones_range].
  rewrite word_offset in *. unfold ELM_SIZE in *. change ALL_ONES with (Z.ones 64).
  apply word_range; [apply Z.shiftr_nonneg; by vm_compute|].
  intros j Hj. rewrite Z.shiftr_spec by lia. apply Z.ones_spec_high. lia.
Qed.

Lemma factor2_bit i j : 0 < i -> 0 <= j < 64 ->
  Z.testbit (factor2 i) j = (j <=? (i - 1) mod 64).
Proof.
  intros Hi Hj. unfold factor2. rewrite word_offset. unfold ELM_SIZE. change ALL_ONES with (Z.ones 64).
  destruct (Z.ltb_spec (64 - i mod 64) 64).
  - rewrite Z.shiftr_spec by lia. destruct (Z.leb_spec j ((i - 1) mod 64)).
    + apply Z.ones_spec_low. lia.
    + apply Z.ones_spec_high. lia.
  - rewrite Z.ones_spec_low by lia. symmetry. apply Z.leb_le. lia.
Qed.

(** The bits of the words, changed by [g] from [lo] to [hi]. *)
Definition bits_changed (g : bool -> bool) (lo hi : Z) (ws ws' : list Z) : Prop :=
  zlen ws' = zlen ws /\ Forall (in_u 64) ws' /\
  forall j, 0 <= j -> bit_of ws' j = if (lo <=? j) && (j <? hi) then g (bit_of ws j) else bit_of ws j.

(** Two conditionals with equivalent conditions; a condition the context decides. *)
Ltac same_cond :=
  match goal with |- (if ?a then _ else _) = (if ?b then _ else _) => replace a with b by lia; done end.
Ltac decide_cond_in :=
  repeat match goal with
  | |- context [if ?a && ?b then _ else _] =>
      first [replace (a && b) with true by lia|replace (a && b) with false by lia]
  end.
Ltac decide_cond := decide_cond_in; done.

Lemma bits_changed_words g lo hi ws ws' :
  zlen ws' = zlen ws ->
  (forall k, 0 <= k -> in_u 64 (nth_word ws' k) /\ forall j, 0 <= j < 64 ->
     Z.testbit (nth_word ws' k) j =
       if (lo <=? 64 * k + j) && (64 * k + j <? hi) then g (Z.testbit (nth_word ws k) j)
       else Z.testbit (nth_word ws k) j) ->
  bits_changed g lo hi ws ws'.
Proof.
  intros Hl Hk. split; [done|]. split.
  - apply Forall_lookup_2. intros i w Hi.
    assert (Z.to_nat (Z.of_nat i) = i) as Hnat by lia. rewrite <- Hnat in Hi.
    rewrite <- (nth_word_some _ _ _ Hi). apply Hk. lia.
  - intros j Hj. unfold bit_of. destruct (Hk (j / 64) ltac:(lia)) as [_ Hb].
    rewrite Hb by lia. by replace (64 * (j / 64) + j mod 64) with j by lia.
Qed.

Lemma change_range_ok op full g lo hi s :
  changes_mask op full g -> Forall (in_u 64) (bits s) ->
  0 <= lo < hi -> (hi - 1) / 64 < zlen (bits s) ->
  exists ws, change_range op full lo hi s = (Ok tt, with_bits ws s) /\
    bits_changed g lo hi (bits s) ws.
Proof.
  intros Hop Hws Hlo Hlen. unfold change_range. rewrite !word_index. cbv zeta.
  assert (forall k, in_u 64 (nth_word (bits s) k)) as Hr by (intros; by apply nth_word_range).
  destruct (Z.eqb_spec (lo / 64) ((hi - 1) / 64)) as [E|E].
  - rewrite change_word_ok by lia. eexists. split; [done|].
    apply bits_changed_words; [apply zlen_insert|]. intros k Hk. rewrite nth_word_insert by lia.
    destruct (Hop (nth_word (bits s) (lo / 64)) (Hr _)) as [Hm _].
    destruct (Hm _ (land_range _ (factor2 hi) (factor1_range lo))) as [Hin Hb].
    destruct (Z.eqb_spec k (lo / 64)) as [->|]; (split; [done|]); intros j Hj.
    + rewrite Hb, Z.land_spec, factor1_bit, factor2_bit by lia.
      same_cond.
    + decide_cond.
  - assert (lo / 64 <= (hi - 1) / 64) as Hle by (apply Z.div_le_mono; lia).
    rewrite (bind_ok _ _ _ _ _ (change_word_ok s (lo / 64) _ ltac:(lia))).
    set (s1 := with_bits _ s).
    assert (zlen (bits s1) = zlen (bits s)) as Hl1 by apply zlen_insert.
    rewrite (bind_ok _ _ _ _ _ (change_word_ok s1 ((hi - 1) / 64) _ ltac:(lia))).
    set (s2 := with_bits _ s1).
    assert (zlen (bits s2) = zlen (bits s)) as Hl2 by (unfold s2; cbn; by rewrite !zlen_insert).
    destruct (for_change_word s2 (fun _ => full) (lo / 64 + 1) ((hi - 1) / 64)) as (ws & E3 & Hl3 & Hn3);
      [lia|lia|].
    rewrite E3. exists ws. split; [done|]. apply bits_changed_words; [lia|]. intros k Hk.
    assert (nth_word (bits s2) k =
      if k =? (hi - 1) / 64 then op (nth_word (bits s) k) (factor2 hi)
      else if k =? lo / 64 then op (nth_word (bits s) k) (factor1 lo) else nth_word (bits s) k) as Hs2.
    { unfold s2, s1. cbn [bits with_bits]. rewrite !nth_word_insert by (rewrite ?zlen_insert; lia).
      destruct (Z.eqb_spec k ((hi - 1) / 64)) as [->|].
      - by destruct (Z.eqb_spec ((hi - 1) / 64) (lo / 64)); [lia|].
      - by destruct (Z.eqb_spec k (lo / 64)) as [->|]. }
    rewrite Hn3, Hs2 by done.
    destruct (Hop (nth_word (bits s) k) (Hr _)) as [Hm [Hfr Hfb]].
    destruct (Hm _ (factor1_range lo)) as [Hr1 Hb1], (Hm _ (factor2_range hi)) as [Hr2 Hb2].
    destruct (Z.eqb_spec k ((hi - 1) / 64)) as [Ek|Nk]; [|destruct (Z.eqb_spec k (lo / 64)) as [Ek|Nk']].
    + decide_cond_in. split; [done|]. intros j Hj. rewrite Hb2, factor2_bit by lia.
      same_cond.
    + decide_cond_in. split; [done|]. intros j Hj. rewrite Hb1, factor1_bit by lia.
      same_cond.
    + destruct (Z.leb_spec (lo / 64 + 1) k), (Z.ltb_spec k ((hi - 1) / 64)); cbn [andb];
        (split; [done|]); intros j Hj; rewrite ?Hfb by lia; clear - Hlo Hle Nk Nk' Hj H H0; first [exfalso; lia|decide_cond].
Qed.

(** ** The ends of the operations *)

Lemma words_beyond ws n : Forall (in_u 64) ws -> 0 <= n ->
  (forall j, 64 * n <= j -> bit_of ws j = false) -> forall k, n <= k -> nth_word ws k = 0.
Proof.
  intros Hws Hn Hb k Hk. apply nth_word_zero_bits; [|by apply nth_word_range].
  intros j Hj. rewrite <- bit_of_word by lia. apply Hb. lia.
Qed.

Lemma bit_of_nonzero ws k : 0 <= k -> (exists j, 64 * k <= j < 64 * k + 64 /\ bit_of ws j = true) ->
  nth_word ws k <> 0.
Proof.
  intros Hk (j & Hj & Hb) H0. unfold bit_of in Hb. replace (j / 64) with k in Hb by lia.
  by rewrite H0, Z.bits_0 in Hb.
Qed.

(** New words that agree with the old set from the word [len] on. *)
Record reaches (t : BitSet) (len : Z) (ws : list Z) : Prop := {
  reach_len : zlen ws = zlen (bits t);
  reach_words : Forall (in_u 64) ws;
  reach_room : 0 <= len <= bitsSize t;
  reach_bits : forall j, 64 * len <= j -> bit_of ws j = bit t j;
}.

Lemma reaches_beyond t len ws : wf t -> reaches t len ws ->
  forall k, Z.max (actualArrayLength t) len <= k -> nth_word ws k = 0.
Proof.
  intros Hwf [Hl Hw Hr Hb]. pose proof (wf_actual t Hwf).
  apply words_beyond; [done|lia|]. intros j Hj. rewrite Hb by lia. apply bit_beyond; [done|lia..].
Qed.

Lemma grow_ok t len ws : wf t -> reaches t len ws ->
  let u := set_needClear (grow_length len (with_bits ws t)) in
  wf u /\
  ((forall j, 0 <= j -> bit t j = true -> bit_of ws j = true) ->
   (actualArrayLength t < len -> exists j, 64 * (len - 1) <= j < 64 * len /\ bit_of ws j = true) ->
   exact t -> exact u).
Proof.
  intros Hwf Hre. pose proof Hwf as [Hw Hs Ha Hb Hc]. pose proof Hre as [Hl Hws Hr _].
  pose proof (reaches_beyond t len ws Hwf Hre) as Hz.
  assert (forall n la, n = Z.max (actualArrayLength t) len -> wf (mkBitSet ws (bitsSize t) true n la)) as Hok.
  { intros n la ->. apply wf_step; try done; lia. }
  unfold grow_length. cbn [actualArrayLength with_bits].
  destruct (Z.ltb_spec (actualArrayLength t) len) as [Hlt|Hge]; (split; [apply Hok; cbn; lia|]); intros Hmono Hlast He.
  - intros _ Hpos. cbn in Hpos |- *. apply bit_of_nonzero; [lia|].
    destruct (Hlast Hlt) as (j & ? & ?). exists j. split; [lia|done].
  - intros Hla Hpos. cbn in *. intros H0. apply (He Hla Hpos).
    apply nth_word_zero_bits; [|by apply nth_word_range]. intros j Hj. rewrite <- bit_of_word by lia.
    destruct (bit_of (bits t) _) eqn:E; [|done]. apply Hmono in E; [|lia].
    by rewrite bit_of_word, H0, Z.bits_0 in E by lia.
Qed.

(** What the flips do to the length. *)
Lemma settle_ok t len ws : wf t -> reaches t len ws ->
  exists u, (modify (fun s => if actualArrayLength s <? len then set_lengths len (isLengthActual s) s else s) ;;;
             check_length ;;; modify set_needClear) (with_bits ws t) = (Ok tt, u) /\
    bits u = ws /\ wf u /\ exact u.
Proof.
  intros Hwf Hre. pose proof Hwf as [Hw Hs Ha Hb Hc]. pose proof Hre as [Hl Hws Hr _].
  pose proof (reaches_beyond t len ws Hwf Hre) as Hz. rewrite bind_modify.
  cbn [actualArrayLength isLengthActual with_bits].
  set (n := Z.max (actualArrayLength t) len) in *.
  replace (if _ <? _ then _ else _) with (mkBitSet ws (bitsSize t) (needClear t) n (isLengthActual t));
    cycle 1.
  { unfold n. destruct (Z.ltb_spec (actualArrayLength t) len);
      [by rewrite Z.max_r by lia|by rewrite Z.max_l by lia]. }
  destruct (check_length_ok (mkBitSet ws (bitsSize t) (needClear t) n (isLengthActual t))) as (b & E & He);
    [cbn; unfold n; lia|].
  rewrite (bind_ok _ _ _ _ _ E). eexists. split; [done|]. split; [done|].
  split; [|exact He].
  exact (wf_step t ws n true b Hwf Hws ltac:(lia) ltac:(unfold n; lia) Hz ltac:(done)).
Qed.

(** ** Setting and flipping *)

(** The bits after [lo] to [hi] changed in a set with room for them. *)
Lemma changed_reaches g t lo hi ws : wf t -> 0 <= lo < hi -> (hi - 1) / 64 + 1 <= bitsSize t ->
  bits_changed g lo hi (bits t) ws -> reaches t ((hi - 1) / 64 + 1) ws.
Proof.
  intros Hwf Hlo Hlen (Hl & Hw & Hb). split; [done..|lia|].
  intros j Hj. rewrite Hb by lia. by decide_cond.
Qed.

(** One bit is the range from [i] to [i + 1]. *)
Lemma change_one f g t i : wf t -> 0 <= i -> i / 64 < bitsSize t -> changes_bit f i g ->
  exists ws, change_word (i / 64) f t = (Ok tt, with_bits ws t) /\ bits_changed g i (i + 1) (bits t) ws.
Proof.
  intros Hwf Hi Hlt Hf. pose proof Hwf as [Hw Hs _ _ _].
  rewrite change_word_ok by lia. eexists. split; [done|].
  split; [apply zlen_insert|]. split.
  - apply Forall_insert_word; [done|]. by apply (Hf _ (nth_word_range _ _ Hw)).
  - intros j Hj. rewrite (bit_of_change _ _ _ _ Hw Hi ltac:(lia) Hf j Hj).
    destruct (Z.eqb_spec j i) as [->|]; decide_cond.
Qed.

(** An operation that makes room, changes the bits and grows the length. *)
Lemma set_tail t lo hi ws : wf t -> 0 <= lo < hi -> (hi - 1) / 64 + 1 <= bitsSize t ->
  bits_changed (fun _ => true) lo hi (bits t) ws ->
  let u := set_needClear (grow_length ((hi - 1) / 64 + 1) (with_bits ws t)) in
  wf u /\ (exact t -> exact u).
Proof.
  intros Hwf Hlo Hlen Hc.
  destruct (grow_ok t ((hi - 1) / 64 + 1) ws Hwf (changed_reaches _ _ _ _ _ Hwf Hlo Hlen Hc)) as [Hu He].
  destruct Hc as (_ & _ & Hb). split; [done|]. apply He.
  - intros j Hj E. rewrite Hb by done. by case_match.
  - intros _. exists (hi - 1). split; [lia|]. rewrite Hb by lia. decide_cond.
Qed.

Lemma exact_roomier s t : roomier s t -> exact s -> exact t.
Proof.
  intros [Hwf Hw Hc Ha He] Hs. unfold exact in *. rewrite He, Ha. intros Hla Hpos.
  rewrite Hw by lia. by apply Hs.
Qed.

Lemma set_range_ok s lo hi : wf s -> 0 <= lo < hi ->
  exists s', BitSet_set_range lo hi s = (Ok tt, s') /\ wf s' /\ (exact s -> exact s') /\
    forall j, 0 <= j -> bit s' j = ((lo <=? j) && (j <? hi)) || bit s j.
Proof.
  intros Hwf Hlo. unfold BitSet_set_range, bad_range. zcmp. rewrite word_index.
  destruct (make_room_ok s ((hi - 1) / 64 + 1) Hwf) as (t & E & Ht & Hlen).
  rewrite (bind_ok _ _ _ _ _ E). pose proof (room_wf _ _ Ht) as Htw.
  destruct (change_range_ok _ _ _ lo hi t mask_set (wf_words t Htw) Hlo) as (ws & Ec & Hc);
    [rewrite <- (wf_size t Htw); lia|].
  rewrite (bind_ok _ _ _ _ _ Ec), bind_modify.
  destruct (set_tail t lo hi ws Htw Hlo Hlen Hc) as [Hu He].
  eexists. split; [done|]. split; [done|]. split; [intros; by eapply He, exact_roomier|].
  intros j Hj. change (bit (set_needClear _) j) with (bit_of (bits (grow_length ((hi - 1) / 64 + 1) (with_bits ws t))) j).
  replace (bits (grow_length _ _)) with ws by (unfold grow_length; by case_match).
  destruct Hc as (_ & _ & Hb). rewrite Hb by done. change (bit_of (bits t) j) with (bit t j).
  rewrite (bit_roomier s t) by done. by case_match.
Qed.

Lemma set_ok s i : wf s -> 0 <= i ->
  exists s', BitSet_set i s = (Ok tt, s') /\ wf s' /\ (exact s -> exact s') /\
    forall j, 0 <= j -> bit s' j = (j =? i) || bit s j.
Proof.
  intros Hwf Hi. unfold BitSet_set. zcmp. rewrite word_index.
  destruct (make_room_ok s (i / 64 + 1) Hwf) as (t & E & Ht & Hlen).
  rewrite (bind_ok _ _ _ _ _ E). pose proof (room_wf _ _ Ht) as Htw.
  replace (i / 64 + 1 - 1) with (i / 64) by lia.
  destruct (change_one _ _ t i Htw Hi ltac:(lia) (changes_set i Hi)) as (ws & Ec & Hc).
  rewrite (bind_ok _ _ _ _ _ Ec), bind_modify.
  replace (i / 64 + 1) with ((i + 1 - 1) / 64 + 1) in * by (f_equal; f_equal; lia).
  destruct (set_tail t i (i + 1) ws Htw ltac:(lia) Hlen Hc) as [Hu He].
  eexists. split; [done|]. split; [done|]. split; [intros; by eapply He, exact_roomier|].
  intros j Hj. change (bit (set_needClear _) j) with (bit_of (bits (grow_length ((i + 1 - 1) / 64 + 1) (with_bits ws t))) j).
  replace (bits (grow_length _ _)) with ws by (unfold grow_length; by case_match).
  destruct Hc as (_ & _ & Hb). rewrite Hb by done. change (bit_of (bits t) j) with (bit t j).
  rewrite (bit_roomier s t) by done. destruct (Z.eqb_spec j i) as [->|]; decide_cond.
Qed.

Lemma flip_range_ok s lo hi : wf s -> 0 <= lo < hi ->
  exists s', BitSet_flip_range lo hi s = (Ok tt, s') /\ wf s' /\ exact s' /\
    forall j, 0 <= j -> bit s' j = xorb ((lo <=? j) && (j <? hi)) (bit s j).
Proof.
  intros Hwf Hlo. unfold BitSet_flip_range, bad_range. zcmp. rewrite word_index.
  destruct (make_room_ok s ((hi - 1) / 64 + 1) Hwf) as (t & E & Ht & Hlen).
  rewrite (bind_ok _ _ _ _ _ E). pose proof (room_wf _ _ Ht) as Htw.
  destruct (change_range_ok _ _ _ lo hi t mask_flip (wf_words t Htw) Hlo) as (ws & Ec & Hc);
    [rewrite <- (wf_size t Htw); lia|].
  rewrite (bind_ok _ _ _ _ _ Ec).
  destruct (settle_ok t _ ws Htw (changed_reaches _ _ _ _ _ Htw Hlo Hlen Hc)) as (u & Eu & Hbits & Hu & He).
  exists u. split_and!; [exact Eu|done|done|]. intros j Hj. unfold bit at 1. rewrite Hbits.
  destruct Hc as (_ & _ & Hb). rewrite Hb by done. change (bit_of (bits t) j) with (bit t j).
  rewrite (bit_roomier s t) by done. by case_match; destruct (bit s j).
Qed.

Lemma flip_ok s i : wf s -> 0 <= i ->
  exists s', BitSet_flip i s = (Ok tt, s') /\ wf s' /\ exact s' /\
    forall j, 0 <= j -> bit s' j = xorb (j =? i) (bit s j).
Proof.
  intros Hwf Hi. unfold BitSet_flip. zcmp. rewrite word_index.
  destruct (make_room_ok s (i / 64 + 1) Hwf) as (t & E & Ht & Hlen).
  rewrite (bind_ok _ _ _ _ _ E). pose proof (room_wf _ _ Ht) as Htw.
  replace (i / 64 + 1 - 1) with (i / 64) by lia.
  destruct (change_one _ _ t i Htw Hi ltac:(lia) (changes_flip i Hi)) as (ws & Ec & Hc).
  rewrite (bind_ok _ _ _ _ _ Ec).
  replace (i / 64 + 1) with ((i + 1 - 1) / 64 + 1) in * by (f_equal; f_equal; lia).
  destruct (settle_ok t _ ws Htw (changed_reaches _ _ i (i + 1) _ Htw ltac:(lia) Hlen Hc)) as (u & Eu & Hbits & Hu & He).
  exists u. split_and!; [exact Eu|done|done|]. intros j Hj. unfold bit at 1. rewrite Hbits.
  destruct Hc as (_ & _ & Hb). rewrite Hb by done. change (bit_of (bits t) j) with (bit t j).
  rewrite (bit_roomier s t) by done. destruct (Z.eqb_spec j i) as [->|]; decide_cond_in; by destruct (bit s _).
Qed.

(** ** Clearing *)

(** Clearing leaves the length and looks whether its last word is still in use. *)
Lemma clear_tail t lo hi ws : wf t -> 0 < actualArrayLength t ->
  bits_changed (fun _ => false) lo hi (bits t) ws ->
  exists u, recheck (with_bits ws t) = (Ok tt, u) /\ bits u = ws /\ wf u /\ exact u.
Proof.
  intros Hwf Hpos (Hl & Hw & Hb). pose proof Hwf as [Hwt Hs Ha Hz Hc].
  assert (wf (with_bits ws t)) as Hu.
  { apply wf_step; try done; [lia|]. apply words_beyond; [done|lia|]. intros j Hj.
    rewrite Hb by lia. pose proof (bit_beyond t j Hwf ltac:(lia) ltac:(lia)) as Hj0.
    unfold bit in Hj0. rewrite Hj0. by case_match. }
  destruct (recheck_ok _ Hu Hpos) as (b & E & He). exists (set_lengths (actualArrayLength t) b (with_bits ws t)).
  split_and!; [exact E|done|by apply (wf_lengths _ b) in Hu|exact He].
Qed.

Lemma clear_ok s i : wf s -> 0 <= i ->
  exists s', BitSet_clear i s = (Ok tt, s') /\ wf s' /\ (exact s -> exact s') /\
    forall j, 0 <= j -> bit s' j = negb (j =? i) && bit s j.
Proof.
  intros Hwf Hi. unfold BitSet_clear. zcmp. rewrite bind_get, word_index.
  assert (actualArrayLength s <= i / 64 ->
    exists s', (Ok tt, s) = (Ok tt, s') /\ wf s' /\ (exact s -> exact s') /\
      forall j, 0 <= j -> bit s' j = negb (j =? i) && bit s j) as Hout.
  { intros Hle. exists s. split_and!; try done. intros j Hj.
    destruct (Z.eqb_spec j i) as [->|]; [by apply bit_beyond|done]. }
  pose proof (wf_actual s Hwf) as Ha. pose proof (wf_clear s Hwf) as Hc.
  destruct (needClear s) eqn:Hn; cbn [negb]; [|apply Hout; specialize (Hc eq_refl); lia].
  destruct (Z.ltb_spec (i / 64) (actualArrayLength s)) as [Hlt|Hge]; [|by apply Hout].
  destruct (change_one _ _ s i Hwf Hi ltac:(lia) (changes_clear i Hi)) as (ws & Ec & Hch).
  rewrite (bind_ok _ _ _ _ _ Ec).
  destruct (clear_tail s i (i + 1) ws Hwf ltac:(lia) Hch) as (u & Eu & Hbits & Hu & He).
  exists u. split_and!; [exact Eu|done|done|]. intros j Hj. unfold bit at 1. rewrite Hbits.
  destruct Hch as (_ & _ & Hb). rewrite Hb by done.
  destruct (Z.eqb_spec j i) as [->|]; decide_cond.
Qed.

(** Lengths whose bits an [int] counts. *)
Definition fits (s : BitSet) : Prop := actualArrayLength s < 2 ^ 25.

Lemma last_bit s : wf s -> fits s ->
  s32 (Z.shiftl (actualArrayLength s) OFFSET) = 64 * actualArrayLength s.
Proof.
  intros Hwf Hf. pose proof (wf_actual s Hwf). unfold fits in Hf. unfold OFFSET.
  rewrite Z.shiftl_mul_pow2 by lia. rewrite wraps_id; unfold in_s; lia.
Qed.

Lemma clear_range_ok s lo hi : wf s -> fits s -> 0 <= lo <= hi ->
  exists s', BitSet_clear_range lo hi s = (Ok tt, s') /\ wf s' /\ (exact s -> exact s') /\
    forall j, 0 <= j -> bit s' j = negb ((lo <=? j) && (j <? hi)) && bit s j.
Proof.
  intros Hwf Hfit Hlo. unfold BitSet_clear_range, bad_range. zcmp. rewrite bind_get.
  assert (64 * actualArrayLength s <= lo \/ lo = hi ->
    exists s', (Ok tt, s) = (Ok tt, s') /\ wf s' /\ (exact s -> exact s') /\
      forall j, 0 <= j -> bit s' j = negb ((lo <=? j) && (j <? hi)) && bit s j) as Hout.
  { intros Hle. exists s. split_and!; try done. intros j Hj.
    destruct ((lo <=? j) && (j <? hi)) eqn:E; [|done]. apply bit_beyond; [done|lia..]. }
  pose proof (wf_actual s Hwf) as Ha. pose proof (wf_clear s Hwf) as Hc.
  destruct (needClear s) eqn:Hn; cbn [negb]; [|apply Hout; specialize (Hc eq_refl); lia].
  rewrite (last_bit s Hwf Hfit).
  destruct (Z.leb_spec (64 * actualArrayLength s) lo); [apply Hout; lia|].
  destruct (Z.eqb_spec lo hi); [apply Hout; lia|]. cbn [orb].
  set (hi' := if _ <? _ then _ else _).
  assert (hi' = Z.min (64 * actualArrayLength s) hi) as Hhi
    by (unfold hi'; destruct (Z.ltb_spec (64 * actualArrayLength s) hi); lia).
  destruct (change_range_ok _ _ _ lo hi' s mask_clear (wf_words s Hwf) ltac:(lia)) as (ws & Ec & Hch);
    [rewrite <- (wf_size s Hwf); lia|].
  rewrite (bind_ok _ _ _ _ _ Ec), bind_get. cbn [actualArrayLength with_bits]. zcmp.
  destruct (clear_tail s lo hi' ws Hwf ltac:(lia) Hch) as (u & Eu & Hbits & Hu & He).
  exists u. split_and!; [exact Eu|done|done|]. intros j Hj. unfold bit at 1. rewrite Hbits.
  destruct Hch as (_ & _ & Hb). rewrite Hb by done. change (bit_of (bits s) j) with (bit s j).
  destruct (Z.ltb_spec j (64 * actualArrayLength s)).
  - replace (j <? hi') with (j <? hi) by lia. by case_match.
  - rewrite bit_beyond by (done || lia). by rewrite andb_false_r; case_match.
Qed.

Lemma clear_all_ok s : wf s ->
  exists s', BitSet_clear_all s = (Ok tt, s') /\ wf s' /\ (exact s -> exact s') /\
    forall j, 0 <= j -> bit s' j = false.
Proof.
  intros Hwf. pose proof Hwf as [Hw Hs Ha Hb Hc]. unfold BitSet_clear_all. rewrite bind_get.
  destruct (needClear s) eqn:Hn; cycle 1.
  { exists s. split_and!; try done. intros j Hj. apply bit_beyond; [done|done|]. rewrite Hc by done. lia. }
  destruct (for_zero_words s 0 (bitsSize s)) as (ws & E' & Hl & Hz); [lia|lia|].
  rewrite (bind_ok _ _ _ _ _ E'). eexists. split; [done|]. cbn.
  assert (forall k, 0 <= k -> nth_word ws k = 0) as Hzero.
  { intros k Hk. rewrite Hz by done. destruct (Z.ltb_spec k (bitsSize s)); zcmp; [done|].
    apply nth_word_beyond. lia. }
  assert (Forall (in_u 64) ws) as Hws.
  { apply Forall_lookup_2. intros i w Hi. rewrite <- (Nat2Z.id i) in Hi.
    apply nth_word_some in Hi. rewrite Hzero in Hi by lia. subst w. by vm_compute. }
  split; [|split].
  - exact (wf_step s ws 0 false true Hwf Hws ltac:(lia) ltac:(lia) Hzero ltac:(done)).
  - intros _ _ Hpos. cbn in Hpos. lia.
  - intros j Hj. unfold bit, bit_of. cbn. rewrite Hzero by lia. apply Z.bits_0.
Qed.

(** ** Scans *)

Lemma scan_down_ok n s : Z.of_nat n <= zlen (bits s) ->
  exists idx, scan_down n s = (Ok idx, s) /\ -1 <= idx < Z.of_nat n /\
    (forall k, idx < k < Z.of_nat n -> nth_word (bits s) k = 0) /\
    (0 <= idx -> nth_word (bits s) idx <> 0).
Proof.
  induction n as [|n IH]; intros Hn.
  { exists (-1). split_and!; [done|lia..]. }
  cbn [scan_down]. rewrite (bind_ok _ _ _ _ _ (word_ok s (Z.of_nat n) ltac:(lia))).
  destruct (Z.eqb_spec (nth_word (bits s) (Z.of_nat n)) 0) as [E|E].
  - destruct IH as (idx & Es & Hi & Hz & Hnz); [lia|]. exists idx. split_and!; [done|lia..| |done].
    intros k Hk. destruct (Z.eqb_spec k (Z.of_nat n)) as [->|]; [done|]. apply Hz. lia.
  - exists (Z.of_nat n). split_and!; [done|lia|lia|lia|done].
Qed.

Lemma getActualArrayLength_ok s : wf s ->
  exists n la, getActualArrayLength s = (Ok n, set_lengths n la s) /\
    wf (set_lengths n la s) /\ (exact s -> exact (set_lengths n la s) /\ (0 < n -> nth_word (bits s) (n - 1) <> 0)).
Proof.
  intros Hwf. pose proof Hwf as [Hw Hs Ha Hb Hc]. unfold getActualArrayLength. rewrite bind_get.
  destruct (isLengthActual s) eqn:Hla.
  { exists (actualArrayLength s), true. split; [by destruct s; cbn in *; subst|].
    split; [by apply wf_lengths|]. intros He. split; [intros _; by apply He|]. by apply He. }
  destruct (scan_down_ok (Z.to_nat (actualArrayLength s)) s) as (idx & E & Hi & Hz & Hnz); [lia|].
  rewrite (bind_ok _ _ _ _ _ E), bind_modify. exists (idx + 1), true. split; [done|].
  split.
  - destruct s as [ws n nc al la]. cbn in *. apply (wf_step (mkBitSet ws n nc al la)); cbn; try done; [lia..| |].
    + intros k Hk. destruct (Z.ltb_spec k al); [apply Hz; lia|by apply Hb].
    + intros ->. specialize (Hc eq_refl). lia.
  - intros _. split.
    + intros _ Hpos. cbn in *. replace (idx + 1 - 1) with idx by lia. apply Hnz. lia.
    + intros Hpos. replace (idx + 1 - 1) with idx by lia. apply Hnz. lia.
Qed.

Lemma high_bit_ok val n : (exists j, 0 <= j <= Z.of_nat n /\ Z.testbit val j = true) ->
  0 <= high_bit val n <= Z.of_nat n /\ Z.testbit val (high_bit val n) = true /\
  forall j, high_bit val n < j <= Z.of_nat n -> Z.testbit val j = false.
Proof.
  induction n as [|n IH]; intros (j & Hj & Hb); cbn [high_bit].
  { replace j with 0 in Hb by lia. split_and!; [lia..|done|lia]. }
  rewrite lacks_bit_spec by lia. destruct (Z.testbit val (Z.of_nat (S n))) eqn:E; cbn [negb].
  - split_and!; [lia..|done|lia].
  - destruct IH as (H1 & H2 & H3).
    + exists j. destruct (Z.eqb_spec j (Z.of_nat (S n))) as [->|]; [congruence|]. split; [lia|done].
    + split_and!; [lia..|done|]. intros i Hi.
      destruct (Z.eqb_spec i (Z.of_nat (S n))) as [->|]; [done|]. apply H3. lia.
Qed.

Lemma nonzero_bit w : in_u 64 w -> w <> 0 -> exists j, 0 <= j < 64 /\ Z.testbit w j = true.
Proof.
  intros Hw Hne. destruct (decide (Exists (fun j => Z.testbit w j = true) (seqZ 0 64))) as [Hx|Hx].
  - apply List.Exists_exists in Hx as (j & Hj & Hb). apply list_elem_of_In, elem_of_seqZ in Hj.
    exists j. by split; [lia|].
  - destruct Hne. apply nth_word_zero_bits; [|done]. intros j Hj.
    destruct (Z.testbit w j) eqn:E; [|done]. destruct Hx. apply List.Exists_exists.
    exists j. by rewrite <- list_elem_of_In, elem_of_seqZ.
Qed.

Lemma length_ok s : wf s -> fits s ->
  exists n s', BitSet_length s = (Ok n, s') /\ wf s' /\ exact s' /\
    (forall j, 0 <= j -> bit s' j = bit s j) /\
    0 <= n /\ (forall j, n <= j -> bit s j = false) /\ (0 < n -> bit s (n - 1) = true).
Proof.
  intros Hwf Hfit. pose proof Hwf as [Hw Hs Ha Hb Hc]. unfold BitSet_length. rewrite bind_get.
  destruct (scan_down_ok (Z.to_nat (actualArrayLength s)) s) as (idx & E & Hi & Hz & Hnz); [lia|].
  rewrite (bind_ok _ _ _ _ _ E), bind_modify. set (s' := set_lengths _ _ s).
  assert (wf s') as Hwf'.
  { destruct s as [ws n nc al la]. cbn in *. apply (wf_step (mkBitSet ws n nc al la)); cbn; try done; [lia..| |].
    + intros k Hk. destruct (Z.ltb_spec k al); [apply Hz; lia|by apply Hb].
    + intros ->. specialize (Hc eq_refl). lia. }
  assert (exact s') as He.
  { intros _ Hpos. cbn in *. replace (idx + 1 - 1) with idx by lia. apply Hnz. lia. }
  destruct (Z.eqb_spec idx (-1)) as [->|Hne].
  - exists 0, s'. split_and!; try done. intros j Hj. apply (bit_beyond s' j Hwf' Hj). cbn. lia.
  - rewrite (bind_ok _ _ _ _ _ (word_ok s' idx ltac:(cbn; lia))). cbn [bits s' set_lengths].
    destruct (nonzero_bit (nth_word (bits s) idx) (nth_word_range _ _ Hw) ltac:(apply Hnz; lia)) as (j0 & Hj0 & Hb0).
    destruct (high_bit_ok (nth_word (bits s) idx) 63) as (Hh & Ht & Hf); [exists j0; split; [lia|done]|].
    set (h := high_bit _ _) in *. unfold fits in Hfit.
    assert (s32 (Z.shiftl idx OFFSET + h + 1) = 64 * idx + h + 1) as ->.
    { unfold OFFSET. rewrite Z.shiftl_mul_pow2 by lia. rewrite wraps_id; unfold in_s; lia. }
    exists (64 * idx + h + 1), s'. split_and!; try done; [lia| |].
    + intros j Hj. destruct (Z.ltb_spec j (64 * idx + 64)).
      * replace j with (64 * idx + (j - 64 * idx)) by lia. unfold bit. rewrite bit_of_word by lia.
        apply Hf. lia.
      * apply (bit_beyond s' j Hwf'); cbn; lia.
    + intros _. replace (64 * idx + h + 1 - 1) with (64 * idx + h) by lia. unfold bit.
      by rewrite bit_of_word by lia.
Qed.

Lemma find_bit_ok p n j :
  match find_bit p n j with
  | Some r => j <= r < j + Z.of_nat n /\ p r = true /\ forall i, j <= i < r -> p i = false
  | None => forall i, j <= i < j + Z.of_nat n -> p i = false
  end.
Proof.
  revert j. induction n as [|n IH]; intros j; cbn [find_bit]; [lia|].
  destruct (p j) eqn:E; [split_and!; [lia..|done|lia]|].
  specialize (IH (j + 1)). destruct (find_bit p n (j + 1)) as [r|].
  - destruct IH as (Hr & Hp & Hf). split_and!; [lia..|done|]. intros i Hi.
    destruct (Z.eqb_spec i j) as [->|]; [done|]. apply Hf. lia.
  - intros i Hi. destruct (Z.eqb_spec i j) as [->|]; [done|]. apply IH. lia.
Qed.

Lemma skip_words_ok p n idx s : 0 <= idx -> idx + Z.of_nat n <= zlen (bits s) ->
  exists r, skip_words p n idx s = (Ok r, s) /\ idx <= r <= idx + Z.of_nat n /\
    (forall k, idx <= k < r -> p (nth_word (bits s) k) = true) /\
    (r < idx + Z.of_nat n -> p (nth_word (bits s) r) = false).
Proof.
  revert idx. induction n as [|n IH]; intros idx Hidx Hlen; cbn [skip_words].
  { exists idx. split_and!; [done|lia..]. }
  rewrite (bind_ok _ _ _ _ _ (word_ok s idx ltac:(lia))).
  destruct (p (nth_word (bits s) idx)) eqn:E.
  - destruct (IH (idx + 1)) as (r & Er & Hr & Hp & Hn); [lia|lia|].
    exists r. split_and!; [done|lia..| |].
    + intros k Hk. destruct (Z.eqb_spec k idx) as [->|]; [done|]. apply Hp. lia.
    + intros ?. apply Hn. lia.
  - exists idx. split_and!; [done|lia..|done].
Qed.

(** A test of bits and the words it fails on throughout. *)
Record tests (p : Z -> Z -> bool) (e : Z -> bool) (want : bool) : Prop := {
  test_bit : forall w j, 0 <= j -> p w j = eqb want (Z.testbit w j);
  test_none : forall w j, in_u 64 w -> e w = true -> 0 <= j < 64 -> Z.testbit w j = negb want;
  test_some : forall w, in_u 64 w -> e w = false -> exists j, 0 <= j < 64 /\ Z.testbit w j = want;
}.

Lemma tests_set : tests has_bit (fun w => w =? 0) true.
Proof.
  split.
  - intros w j Hj. rewrite has_bit_spec by done. by destruct (Z.testbit w j).
  - intros w j _ ->%Z.eqb_eq Hj. apply Z.bits_0.
  - intros w Hw Hne%Z.eqb_neq. by apply nonzero_bit.
Qed.
Lemma tests_clear : tests lacks_bit (fun w => w =? ALL_ONES) false.
Proof.
  split.
  - intros w j Hj. rewrite lacks_bit_spec by done. by destruct (Z.testbit w j).
  - intros w j _ ->%Z.eqb_eq Hj. by apply testbit_ones.
  - intros w Hw Hne%Z.eqb_neq.
    destruct (nonzero_bit (Z.lxor w ALL_ONES) (lxor_range _ _ Hw ones_range)) as (j & Hj & Hb).
    + intros H0. apply Hne. by apply Z.lxor_eq in H0.
    + exists j. split; [done|]. rewrite Z.lxor_spec, testbit_ones in Hb by done. by destruct (Z.testbit w j).
Qed.

(** The first bit with the value [want] at or after [i], if it is below [limit]. *)
Definition first_bit (s : BitSet) (want : bool) (i limit : Z) (r : option Z) : Prop :=
  match r with
  | Some r => i <= r < limit /\ bit s r = want /\ forall j, i <= j < r -> bit s j = negb want
  | None => forall j, i <= j < limit -> bit s j = negb want
  end.

Lemma find_from_ok p e want w off : tests p e want -> 0 <= off < 64 ->
  match find_from (p w) off with
  | Some r => off <= r < 64 /\ Z.testbit w r = want /\ forall j, off <= j < r -> Z.testbit w j = negb want
  | None => forall j, off <= j < 64 -> Z.testbit w j = negb want
  end.
Proof.
  intros [Hp _ _] Hoff. unfold find_from, ELM_SIZE.
  pose proof (find_bit_ok (p w) (Z.to_nat (64 - off)) off) as Hf.
  assert (forall j, 0 <= j -> p w j = false -> Z.testbit w j = negb want) as Hn.
  { intros j Hj. rewrite Hp by done. by destruct want, (Z.testbit w j). }
  destruct (find_bit _ _ _) as [r|].
  - destruct Hf as (Hr & Ht & Hb). split; [lia|]. split.
    + rewrite Hp in Ht by lia. by destruct want, (Z.testbit w r).
    + intros j Hj. apply Hn; [lia|]. apply Hb. lia.
  - intros j Hj. apply Hn; [lia|]. apply Hf. lia.
Qed.

Lemma int_index k j : 0 <= k < 2 ^ 25 -> 0 <= j < 64 -> s32 (Z.shiftl k OFFSET + j) = 64 * k + j.
Proof.
  intros Hk Hj. unfold OFFSET. rewrite Z.shiftl_mul_pow2 by lia. rewrite wraps_id; unfold in_s; lia.
Qed.

Lemma bit_word s k j : 0 <= k -> 64 * k <= j < 64 * k + 64 ->
  bit s j = Z.testbit (nth_word (bits s) k) (j - 64 * k).
Proof.
  intros Hk Hj. unfold bit. rewrite <- bit_of_word by lia. f_equal. lia.
Qed.

Lemma search_ok p e want s i : tests p e want -> wf s -> fits s -> 0 <= i -> i / 64 < actualArrayLength s ->
  exists r, search p e (i / 64) (i mod 64) s = (Ok r, s) /\
    first_bit s want i (64 * actualArrayLength s) r.
Proof.
  intros Ht Hwf Hfit Hi Hlt. pose proof Hwf as [Hw Hs Ha Hb Hc]. unfold fits in Hfit.
  unfold search. rewrite bind_get, (bind_ok _ _ _ _ _ (word_ok s (i / 64) ltac:(lia))).
  set (w := nth_word (bits s) (i / 64)). set (m := if negb (e w) then _ else _).
  assert (match m with
    | Some r => i mod 64 <= r < 64 /\ Z.testbit w r = want /\ forall j, i mod 64 <= j < r -> Z.testbit w j = negb want
    | None => forall j, i mod 64 <= j < 64 -> Z.testbit w j = negb want end) as Hm.
  { unfold m. destruct (e w) eqn:E; cbn [negb]; [|apply (find_from_ok _ _ _ _ _ Ht); lia].
    intros j Hj. apply (test_none _ _ _ Ht); [by apply nth_word_range|done|lia]. }
  destruct m as [r|].
  { destruct Hm as (Hr & Hbit & Hbefore). eexists. split; [done|]. rewrite int_index by lia. split; [lia|]. split.
    - rewrite (bit_word s (i / 64)) by lia. rewrite <- Hbit. unfold w. f_equal. lia.
    - intros j Hj. rewrite (bit_word s (i / 64)) by lia. apply Hbefore. lia. }
  destruct (skip_words_ok e (Z.to_nat (actualArrayLength s - (i / 64 + 1))) (i / 64 + 1) s) as (k & Ek & Hk & Hskip & Hstop);
    [lia|lia|].
  rewrite (bind_ok _ _ _ _ _ Ek).
  assert (forall j, i <= j < 64 * k -> bit s j = negb want) as Hnone.
  { intros j Hj. destruct (Z.ltb_spec j (64 * (i / 64) + 64)).
    - rewrite (bit_word s (i / 64)) by lia. apply Hm. lia.
    - rewrite (bit_word s (j / 64)) by lia. apply (test_none _ _ _ Ht); [by apply nth_word_range| |lia].
      apply Hskip. lia. }
  destruct (Z.eqb_spec k (actualArrayLength s)) as [->|Hne]; [by exists None|].
  rewrite (bind_ok _ _ _ _ _ (word_ok s k ltac:(lia))).
  destruct (test_some _ _ _ Ht (nth_word (bits s) k) (nth_word_range _ _ Hw) (Hstop ltac:(lia))) as (j0 & Hj0 & Hb0).
  pose proof (find_from_ok p e want (nth_word (bits s) k) 0 Ht ltac:(lia)) as Hf.
  destruct (find_from _ 0) as [r|]; [|rewrite Hf in Hb0 by lia; by destruct want].
  destruct Hf as (Hr & Hbit & Hbefore). eexists. split; [done|]. cbn [option_map]. rewrite int_index by lia.
  split; [lia|]. split.
  - rewrite (bit_word s k) by lia. rewrite <- Hbit. f_equal. lia.
  - intros j Hj. destruct (Z.ltb_spec j (64 * k)); [apply Hnone; lia|].
    rewrite (bit_word s k) by lia. apply Hbefore. lia.
Qed.

Lemma nextSetBit_ok s i : wf s -> fits s -> 0 <= i ->
  exists r, BitSet_nextSetBit i s = (Ok r, s) /\
    ((r = -1 /\ forall j, i <= j -> bit s j = false) \/
     (i <= r /\ bit s r = true /\ forall j, i <= j < r -> bit s j = false)).
Proof.
  intros Hwf Hfit Hi. unfold BitSet_nextSetBit. zcmp. rewrite bind_get, (last_bit s Hwf Hfit).
  destruct (Z.leb_spec (64 * actualArrayLength s) i).
  { exists (-1). split; [done|]. left. split; [done|]. intros j Hj. apply bit_beyond; [done|lia..]. }
  rewrite word_index, word_offset.
  destruct (search_ok _ _ _ s i tests_set Hwf Hfit Hi ltac:(lia)) as (r & E & Hr).
  rewrite (bind_ok _ _ _ _ _ E). eexists. split; [done|]. destruct r as [r|]; cbn in Hr |- *.
  - right. destruct Hr as (? & ? & ?). split; [lia|done].
  - left. split; [done|]. intros j Hj. destruct (Z.ltb_spec j (64 * actualArrayLength s)); [by apply Hr|].
    apply bit_beyond; [done|lia..].
Qed.

Lemma nextClearBit_ok s i : wf s -> fits s -> 0 <= i ->
  exists r, BitSet_nextClearBit i s = (Ok r, s) /\
    i <= r /\ bit s r = false /\ forall j, i <= j < r -> bit s j = true.
Proof.
  intros Hwf Hfit Hi. pose proof (wf_actual s Hwf). unfold BitSet_nextClearBit. zcmp.
  rewrite bind_get, (last_bit s Hwf Hfit).
  destruct (Z.leb_spec (64 * actualArrayLength s) i).
  { exists i. split_and!; [done|lia|apply bit_beyond; [done|lia..]|lia]. }
  rewrite word_index. replace (Z.rem i ELM_SIZE) with (i mod 64) by (unfold ELM_SIZE; rewrite Z.rem_mod_nonneg by lia; done).
  destruct (search_ok _ _ _ s i tests_clear Hwf Hfit Hi ltac:(lia)) as (r & E & Hr).
  rewrite (bind_ok _ _ _ _ _ E). eexists. split; [done|]. destruct r as [r|]; cbn in Hr |- *.
  - destruct Hr as (? & ? & ?). split; [lia|done].
  - split_and!; [lia|apply bit_beyond; [done|lia..]|done].
Qed.

Lemma isEmpty_ok s : wf s ->
  exists b, BitSet_isEmpty s = (Ok b, s) /\ (b = true <-> forall j, 0 <= j -> bit s j = false).
Proof.
  intros Hwf. pose proof Hwf as [Hw Hs Ha Hb Hc]. unfold BitSet_isEmpty. rewrite bind_get.
  destruct (needClear s) eqn:Hn; cbn [negb]; cycle 1.
  { exists true. split; [done|]. split; [|done]. intros _ j Hj. apply bit_beyond; [done|done|].
    rewrite Hc by done. lia. }
  destruct (skip_words_ok (fun w => w =? 0) (Z.to_nat (bitsSize s)) 0 s) as (k & Ek & Hk & Hskip & Hstop); [lia|lia|].
  rewrite (bind_ok _ _ _ _ _ Ek). eexists. split; [done|]. rewrite Z.eqb_eq. split.
  - intros -> j Hj. destruct (Z.ltb_spec (j / 64) (bitsSize s)).
    + unfold bit, bit_of. specialize (Hskip (j / 64) ltac:(lia)). apply Z.eqb_eq in Hskip. rewrite Hskip. apply Z.bits_0.
    + apply bit_beyond; [done|lia..].
  - intros Hz. destruct (Z.eqb_spec k (bitsSize s)); [done|].
    specialize (Hstop ltac:(lia)). apply Z.eqb_neq in Hstop.
    destruct (nonzero_bit _ (nth_word_range _ k Hw) Hstop) as (j & Hj & Hb').
    specialize (Hz (64 * k + j) ltac:(lia)). unfold bit in Hz. by rewrite bit_of_word, Hb' in Hz by lia.
Qed.

(** ** Two sets *)

(** An operation on words that works bit by bit. *)
Definition bitwise (op : Z -> Z -> Z) (f : bool -> bool -> bool) : Prop :=
  forall w v, in_u 64 w -> in_u 64 v -> in_u 64 (op w v) /\
    forall j, 0 <= j < 64 -> Z.testbit (op w v) j = f (Z.testbit w j) (Z.testbit v j).

Lemma bitwise_or : bitwise Z.lor orb.
Proof. intros w v Hw Hv. split; [by apply lor_range|]. intros j _. apply Z.lor_spec. Qed.
Lemma bitwise_xor : bitwise Z.lxor xorb.
Proof. intros w v Hw Hv. split; [by apply lxor_range|]. intros j _. apply Z.lxor_spec. Qed.
Lemma bitwise_and : bitwise Z.land andb.
Proof. intros w v Hw Hv. split; [by apply land_range|]. intros j _. apply Z.land_spec. Qed.
Lemma bitwise_andNot : bitwise (fun w v => Z.land w (Z.lnot v)) (fun a b => a && negb b).
Proof.
  intros w v Hw Hv. split; [by apply land_range|]. intros j Hj. by rewrite Z.land_spec, Z.lnot_spec by lia.
Qed.

Lemma combine_ok op lo hi s t : 0 <= lo <= hi -> hi <= zlen (bits s) -> hi <= zlen (bits t) ->
  exists ws, combine op lo hi (s, t) = (Ok tt, (with_bits ws s, t)) /\
    changed_words (fun k w => op w (nth_word (bits t) k)) lo hi (bits s) ws.
Proof.
  intros Hlo Hs Ht.
  destruct (for_m_ok (fun i st => exists ws, st = (with_bits ws s, t) /\
      changed_words (fun k w => op w (nth_word (bits t) k)) lo i (bits s) ws)
    lo hi (fun i => v <- word2 i ;; on_fst (change_word i (fun w => op w v))) (s, t))
    as (st & E & ws & -> & Hc); [lia| | |by exists ws].
  - exists (bits s). split; [by destruct s|]. split; [done|]. intros k Hk. decide_cond.
  - intros i st Hi (ws & -> & Hc). pose proof Hc as [Hl _].
    assert (word2 i (with_bits ws s, t) = (Ok (nth_word (bits t) i), (with_bits ws s, t))) as Ew
      by (apply on_snd_ok, word_ok; lia).
    rewrite (bind_ok _ _ _ _ _ Ew).
    rewrite (on_fst_ok _ _ _ _ _ (change_word_ok (with_bits ws s) i _ ltac:(cbn; lia))).
    eexists. split; [done|]. eexists. split; [done|]. cbn [bits with_bits].
    apply changed_step; [done|lia..|]. f_equal. eapply changed_unchanged; [done|lia].
Qed.

(** The bits of words combined up to [n]. *)
Lemma combined_bits op f n ws vs ws' : bitwise op f -> 0 <= n ->
  Forall (in_u 64) ws -> Forall (in_u 64) vs ->
  changed_words (fun k w => op w (nth_word vs k)) 0 n ws ws' ->
  Forall (in_u 64) ws' /\
  forall j, 0 <= j -> bit_of ws' j = if j <? 64 * n then f (bit_of ws j) (bit_of vs j) else bit_of ws j.
Proof.
  intros Hop Hn Hws Hvs [Hl Hk]. split.
  - apply Forall_lookup_2. intros i w Hi. rewrite <- (Nat2Z.id i) in Hi.
    apply nth_word_some in Hi. rewrite Hk in Hi by lia. subst w. case_match; [|by apply nth_word_range].
    by apply Hop; apply nth_word_range.
  - intros j Hj. unfold bit_of. rewrite Hk by lia.
    replace ((0 <=? j / 64) && (j / 64 <? n)) with (j <? 64 * n) by lia.
    case_match; [|done]. apply Hop; [by apply nth_word_range..|lia].
Qed.

Lemma settle_words s ws n : wf s -> needClear s = true -> Forall (in_u 64) ws -> zlen ws = zlen (bits s) ->
  0 <= n <= bitsSize s -> (forall k, n <= k -> nth_word ws k = 0) -> forall la,
  exists b, check_length (set_lengths n la (with_bits ws s)) = (Ok tt, set_lengths n b (with_bits ws s)) /\
    wf (set_lengths n b (with_bits ws s)) /\ exact (set_lengths n b (with_bits ws s)).
Proof.
  intros Hwf Hnc Hw Hl Hn Hz la. pose proof (wf_size s Hwf).
  destruct (check_length_ok (set_lengths n la (with_bits ws s))) as (b & E & He); [cbn; lia|].
  exists b. split_and!; [exact E| |exact He]. apply (wf_step s ws n (needClear s) b); try done; [lia|].
  by rewrite Hnc.
Qed.

(** The words of [s] after a step that keeps only what [t] may hold. *)
Lemma narrow s t ws n f : wf s -> wf t -> needClear s = true ->
  n = Z.min (actualArrayLength s) (actualArrayLength t) -> zlen ws = zlen (bits s) -> Forall (in_u 64) ws ->
  (forall k, n <= k -> nth_word ws k = 0) ->
  (forall j, 0 <= j < 64 * n -> bit_of ws j = f (bit s j) (bit t j)) ->
  (forall a, f a false = false) -> (forall a, f false a = false) -> forall la,
  exists s', on_fst check_length (set_lengths n la (with_bits ws s), t) = (Ok tt, (s', t)) /\
    wf s' /\ exact s' /\ forall j, 0 <= j -> bit s' j = f (bit s j) (bit t j).
Proof.
  intros Hs Ht Hnc Hn Hl Hw Hz Hb Hf0 Hf1 la.
  pose proof (wf_actual s Hs). pose proof (wf_actual t Ht).
  destruct (settle_words s ws n Hs Hnc Hw Hl ltac:(lia) Hz la) as (b & E & Hwf & He).
  eexists. split; [by apply on_fst_ok|]. split_and!; [done|done|]. intros j Hj.
  change (bit_of ws j = f (bit s j) (bit t j)). destruct (Z.ltb_spec j (64 * n)); [by apply Hb|].
  unfold bit_of. rewrite Hz, Z.bits_0 by lia.
  destruct (Z.leb_spec (actualArrayLength s) (j / 64)).
  - by rewrite (bit_beyond s) by done.
  - by rewrite (bit_beyond t), Hf0 by (done || lia).
Qed.

Lemma and_ok s t : wf s -> wf t ->
  exists s', BitSet_AND (s, t) = (Ok tt, (s', t)) /\ wf s' /\ (exact s -> exact s') /\
    forall j, 0 <= j -> bit s' j = bit s j && bit t j.
Proof.
  intros Hs Ht. unfold BitSet_AND. rewrite bind_get. cbn [fst snd].
  pose proof (wf_actual s Hs) as Has. pose proof (wf_actual t Ht) as Hat.
  pose proof (wf_size s Hs) as Hss. pose proof (wf_size t Ht) as Hst.
  destruct (needClear s) eqn:Hn; cbn [negb]; cycle 1.
  { exists s. split_and!; try done. intros j Hj. rewrite (bit_beyond s); [done|done|done|].
    rewrite (wf_clear s Hs Hn). lia. }
  set (n := Z.min (actualArrayLength s) (actualArrayLength t)).
  assert (n = Z.min (actualArrayLength s) (actualArrayLength t)) as Hmin by done.
  destruct (combine_ok Z.land 0 n s t) as (ws & E & Hc); [lia..|].
  destruct (combined_bits _ _ n (bits s) (bits t) ws bitwise_and ltac:(lia) (wf_words s Hs) (wf_words t Ht) Hc) as [Hw Hb].
  pose proof Hc as [Hl Hk].
  assert (forall j, 0 <= j < 64 * n -> bit_of ws j = bit s j && bit t j) as Hbn.
  { intros j Hj. rewrite Hb by lia. by zcmp. }
  destruct (Z.leb_spec (actualArrayLength s) (actualArrayLength t)).
  - replace (actualArrayLength s) with n by lia. rewrite (bind_ok _ _ _ _ _ E).
    destruct (narrow s t ws n andb Hs Ht Hn Hmin Hl Hw) with (la := isLengthActual s) as (s' & E' & Hwf & He & Hbit);
      [|done|by intros []|done|].
    { intros k Hge. destruct (Z.ltb_spec k 0); [|rewrite Hk by lia; decide_cond_in; apply (wf_beyond s Hs); lia].
      lia. }
    exists s'. split_and!; try done. rewrite <- E'. f_equal. f_equal.
    replace n with (actualArrayLength s) by lia. by destruct s.
  - replace (actualArrayLength t) with n by lia.
    destruct (for_zero_words (with_bits ws s) n (actualArrayLength s)) as (ws' & E1 & Hl1 & Hk1); [lia|cbn; lia|].
    cbn [bits with_bits] in Hl1, Hk1.
    rewrite bind_assoc, (bind_ok _ _ _ _ _ E), bind_assoc.
    rewrite (bind_ok _ _ _ _ _ (on_fst_ok _ _ _ _ _ E1)).
    rewrite (bind_ok _ _ _ tt (set_lengths n (isLengthActual s) (with_bits ws' s), t)) by done.
    destruct (narrow s t ws' n andb Hs Ht Hn Hmin ltac:(lia)) with (la := isLengthActual s) as (s' & E' & Hwf & He & Hbit);
      [| | |by intros []|done|by exists s'].
    + apply Forall_lookup_2. intros i w Hi. rewrite <- (Nat2Z.id i) in Hi.
      apply nth_word_some in Hi. rewrite Hk1 in Hi by lia. subst w. case_match; [by vm_compute|by apply nth_word_range].
    + intros k Hge. rewrite Hk1 by lia. destruct (Z.ltb_spec k (actualArrayLength s)); decide_cond_in; [done|].
      rewrite Hk by lia. decide_cond_in. apply (wf_beyond s Hs). lia.
    + intros j Hj. rewrite <- Hbn by lia. unfold bit_of. rewrite Hk1 by lia. decide_cond.
Qed.

Lemma andNot_ok s t : wf s -> wf t ->
  exists s', BitSet_andNot (s, t) = (Ok tt, (s', t)) /\ wf s' /\ (exact s -> exact s') /\
    forall j, 0 <= j -> bit s' j = bit s j && negb (bit t j).
Proof.
  intros Hs Ht. unfold BitSet_andNot. rewrite bind_get. cbn [fst snd].
  pose proof (wf_actual s Hs) as Has. pose proof (wf_actual t Ht) as Hat.
  pose proof (wf_size s Hs) as Hss. pose proof (wf_size t Ht) as Hst.
  destruct (needClear s) eqn:Hn; cbn [negb]; cycle 1.
  { exists s. split_and!; try done. intros j Hj. rewrite (bit_beyond s); [done|done|done|].
    rewrite (wf_clear s Hs Hn). lia. }
  set (n := if _ <? _ then _ else _).
  assert (n = Z.min (actualArrayLength s) (actualArrayLength t)) as Hmin.
  { unfold n. destruct (Z.ltb_spec (actualArrayLength s) (actualArrayLength t)); lia. }
  destruct (combine_ok (fun w v => Z.land w (Z.lnot v)) 0 n s t) as (ws & E & Hc); [lia..|].
  destruct (combined_bits _ _ n (bits s) (bits t) ws bitwise_andNot ltac:(lia) (wf_words s Hs) (wf_words t Ht) Hc) as [Hw Hb].
  pose proof Hc as [Hl Hk]. rewrite (bind_ok _ _ _ _ _ E).
  rewrite (bind_ok _ _ _ tt (with_bits ws s, t)); cycle 1.
  { cbn. by zcmp. }
  destruct (settle_words s ws (actualArrayLength s) Hs Hn Hw Hl Has) with (la := isLengthActual s) as (b & E' & Hwf & He).
  { intros k Hge. rewrite Hk by lia. decide_cond_in. by apply (wf_beyond s Hs). }
  exists (set_lengths (actualArrayLength s) b (with_bits ws s)). split_and!; [by apply on_fst_ok|done|done|].
  intros j Hj. change (bit_of ws j = bit s j && negb (bit t j)). rewrite Hb by done.
  destruct (Z.ltb_spec j (64 * n)); [done|]. change (bit_of (bits s) j) with (bit s j).
  destruct (Z.leb_spec (actualArrayLength s) (j / 64)).
  - by rewrite (bit_beyond s) by done.
  - rewrite (bit_beyond t) by (done || lia). by rewrite andb_true_r.
Qed.

(** The other set's [n] words merged into this one, which has room for them. *)
Lemma merge_fits op f s t n : bitwise op f -> (forall a, f a false = a) -> wf s -> wf t ->
  actualArrayLength t = n -> n <= bitsSize s ->
  exists ws, combine op 0 n (s, t) = (Ok tt, (with_bits ws s, t)) /\ reaches s n ws /\
    forall j, 0 <= j -> bit_of ws j = f (bit s j) (bit t j).
Proof.
  intros Hop Hf Hs Ht Hn Hfit. pose proof (wf_actual t Ht) as Hat.
  pose proof (wf_size s Hs). pose proof (wf_size t Ht).
  destruct (combine_ok op 0 n s t) as (ws & E & Hc); [lia..|].
  destruct (combined_bits op f n (bits s) (bits t) ws Hop ltac:(lia) (wf_words s Hs) (wf_words t Ht) Hc) as [Hw Hb].
  exists ws. split; [done|]. split.
  - split; [by destruct Hc|done|lia|]. intros j Hj. rewrite Hb by lia. by zcmp.
  - intros j Hj. rewrite Hb by done. destruct (Z.ltb_spec j (64 * n)); [done|].
    rewrite (bit_beyond t), Hf by (done || lia). done.
Qed.

(** ... and into a new array, which this one has become too small for. *)
Lemma merge_replaces op f s t n : bitwise op f -> (forall a, f a false = a) -> (forall a b, f a b = f b a) ->
  wf s -> wf t -> actualArrayLength t = n -> bitsSize s < n ->
  exists ws, replace_bits op n (s, t) = (Ok tt, (with_bits ws s, t)) /\ zlen ws = n /\
    Forall (in_u 64) ws /\ forall j, 0 <= j -> bit_of ws j = f (bit s j) (bit t j).
Proof.
  intros Hop Hf Hcomm Hs Ht Hn Hlt. pose proof (wf_actual t Ht) as Hat. pose proof (wf_actual s Hs) as Has.
  pose proof (wf_size s Hs). pose proof (wf_size t Ht).
  unfold replace_bits. rewrite bind_get. cbn [fst snd].
  destruct (new_bits_ok n (actualArrayLength t) (bits t) (s, t)) as (ws0 & E0 & Hl0 & Hk0 & Hw0); [lia..|].
  rewrite (bind_ok _ _ _ _ _ E0). rewrite (bind_ok _ _ _ tt (with_bits ws0 s, t)) by done.
  set (body := fun i : Z => _).
  destruct (for_m_ok (fun i st => exists ws, st = (with_bits ws s, t) /\
      changed_words (fun k v => op v (nth_word (bits s) k)) 0 i ws0 ws)
    0 (actualArrayLength s) body (with_bits ws0 s, t)) as (st & E & ws & -> & Hc); [lia| | |].
  - exists ws0. split; [done|]. split; [done|]. intros k Hk. decide_cond.
  - intros i st Hi (ws & -> & Hc). pose proof Hc as [Hl _]. unfold body.
    rewrite nth_word_lookup by lia.
    rewrite (on_fst_ok _ _ _ _ _ (change_word_ok (with_bits ws s) i _ ltac:(cbn; lia))).
    eexists. split; [done|]. eexists. split; [done|]. cbn [bits with_bits].
    apply changed_step; [done|lia..|]. f_equal. eapply changed_unchanged; [done|lia].
  - destruct (combined_bits op f (actualArrayLength s) ws0 (bits s) ws Hop ltac:(lia)
      (Hw0 (wf_words t Ht)) (wf_words s Hs) Hc) as [Hw Hb].
    exists ws. split; [exact E|]. split; [destruct Hc; lia|]. split; [done|].
    assert (forall j, 0 <= j -> bit_of ws0 j = bit t j) as Hcopied.
    { intros j Hj. unfold bit, bit_of. rewrite Hk0 by lia. case_match; [done|].
      rewrite (wf_beyond t Ht) by lia. done. }
    intros j Hj. rewrite Hb, Hcopied by done. destruct (Z.ltb_spec j (64 * actualArrayLength s)); [apply Hcomm|].
    rewrite (bit_beyond s) by (done || lia). by rewrite Hcomm, Hf.
Qed.

(** What the two merging operations leave: the union or the symmetric difference, in a
    well-formed set if there was room for the other set's words; if not, in an array
    that [bitsSize] has not followed. *)
Definition last_nonzero (s : BitSet) : Prop :=
  0 < actualArrayLength s -> nth_word (bits s) (actualArrayLength s - 1) <> 0.

Definition merged (f : bool -> bool -> bool) (s t s' t' : BitSet) : Prop :=
  wf t' /\ (exact t -> last_nonzero t') /\ (forall j, bit t' j = bit t j) /\
  (forall j, 0 <= j -> bit s' j = f (bit s j) (bit t j)) /\
  Forall (in_u 64) (bits s') /\ needClear s' = true /\ bitsSize s' = bitsSize s /\
  if actualArrayLength t' <=? bitsSize s then wf s'
  else actualArrayLength s' = zlen (bits s') /\ bitsSize s' < zlen (bits s').

Lemma bits_grow len s : bits (grow_length len s) = bits s.
Proof. unfold grow_length. by case_match. Qed.

Lemma size_grow len s : bitsSize (grow_length len s) = bitsSize s.
Proof. unfold grow_length. by case_match. Qed.

Lemma or_ok s t : wf s -> wf t ->
  exists s' t', BitSet_OR (s, t) = (Ok tt, (s', t')) /\ merged orb s t s' t' /\
    (exact s -> exact t -> actualArrayLength t' <= bitsSize s -> exact s').
Proof.
  intros Hs Ht. unfold BitSet_OR.
  destruct (getActualArrayLength_ok t Ht) as (n & la & E & Ht' & Hex).
  rewrite (bind_ok _ _ _ _ _ (on_snd_ok _ s t _ _ E)), bind_get. cbn [fst snd].
  set (t' := set_lengths n la t) in *.
  destruct (Z.ltb_spec (bitsSize s) n) as [Hlt|Hge].
  - destruct (merge_replaces _ _ s t' n bitwise_or orb_false_r orb_comm Hs Ht' eq_refl Hlt) as (ws & Ew & Hl & Hw & Hb).
    rewrite bind_assoc, (bind_ok _ _ _ _ _ Ew).
    exists (set_needClear (set_lengths n true (with_bits ws s))), t'. split; [done|].
    split; [|cbn; lia]. split_and!; [done|exact (fun Het => proj2 (Hex Het))|done|done|done|done|done|]. cbn. zcmp. split; [done|lia].
  - destruct (merge_fits _ _ s t' n bitwise_or orb_false_r Hs Ht' eq_refl Hge) as (ws & Ew & Hre & Hb).
    rewrite bind_assoc, (bind_ok _ _ _ _ _ Ew).
    exists (set_needClear (grow_length n (with_bits ws s))), t'. split; [done|].
    destruct (grow_ok s n ws Hs Hre) as [Hwf He]. split.
    + split_and!; [done|exact (fun Het => proj2 (Hex Het))|done| |cbn; rewrite bits_grow; apply Hre|done|cbn; by rewrite size_grow|by cbn; zcmp].
      intros j Hj. unfold bit at 1. cbn [set_needClear bits]. rewrite bits_grow. by apply Hb.
    + intros Hes Het _. apply He; [|intros Hlt|done].
      * intros j Hj Hjb. by rewrite Hb, Hjb by done.
      * pose proof (wf_actual s Hs). destruct (Hex Het) as [_ Hlast].
        destruct (nonzero_bit _ (nth_word_range _ (n - 1) (wf_words t Ht)) (Hlast ltac:(lia))) as (j & Hj & Hjb).
        exists (64 * (n - 1) + j). split; [lia|]. rewrite Hb by lia.
        replace (bit t' (64 * (n - 1) + j)) with true; [by rewrite orb_true_r|].
        unfold bit. by rewrite bit_of_word by lia.
Qed.

Lemma xor_ok s t : wf s -> wf t ->
  exists s' t', BitSet_XOR (s, t) = (Ok tt, (s', t')) /\ merged xorb s t s' t'.
Proof.
  intros Hs Ht. unfold BitSet_XOR.
  destruct (getActualArrayLength_ok t Ht) as (n & la & E & Ht' & Hex).
  rewrite (bind_ok _ _ _ _ _ (on_snd_ok _ s t _ _ E)), bind_get. cbn [fst snd].
  set (t' := set_lengths n la t) in *. pose proof (wf_actual t' Ht') as Hn.
  destruct (Z.ltb_spec (bitsSize s) n) as [Hlt|Hge].
  - destruct (merge_replaces _ _ s t' n bitwise_xor xorb_false_r xorb_comm Hs Ht' eq_refl Hlt) as (ws & Ew & Hl & Hw & Hb).
    rewrite bind_assoc, (bind_ok _ _ _ _ _ Ew).
    rewrite bind_assoc, (bind_ok _ _ _ tt (set_lengths n (isLengthActual s) (with_bits ws s), t')) by done.
    destruct (check_length_ok (set_lengths n (isLengthActual s) (with_bits ws s))) as (b & Ec & _); [cbn in *; lia|].
    rewrite (bind_ok _ _ _ _ _ (on_fst_ok _ _ _ _ _ Ec)).
    exists (set_needClear (set_lengths n b (with_bits ws s))), t'. split; [done|].
    split_and!; [done|exact (fun Het => proj2 (Hex Het))|done|done|done|done|done|]. cbn. zcmp. split; [done|lia].
  - destruct (merge_fits _ _ s t' n bitwise_xor xorb_false_r Hs Ht' eq_refl Hge) as (ws & Ew & Hre & Hb).
    rewrite bind_assoc, (bind_ok _ _ _ _ _ Ew).
    exists (set_needClear (grow_length n (with_bits ws s))), t'. split; [done|].
    destruct (grow_ok s n ws Hs Hre) as [Hwf _].
    split_and!; [done|exact (fun Het => proj2 (Hex Het))|done| |cbn; rewrite bits_grow; apply Hre|done|cbn; by rewrite size_grow|by cbn; zcmp].
    intros j Hj. unfold bit at 1. cbn [set_needClear bits]. rewrite bits_grow. by apply Hb.
Qed.

(** ** Comparisons *)

Lemma all_words_ok p q n idx st :
  (forall i, idx <= i < idx + Z.of_nat n -> p i st = (Ok (q i), st)) ->
  exists b, all_words p n idx st = (Ok b, st) /\
    (b = true <-> forall i, idx <= i < idx + Z.of_nat n -> q i = true).
Proof.
  revert idx. induction n as [|n IH]; intros idx Hp; cbn [all_words].
  { exists true. split; [done|]. split; [lia|done]. }
  rewrite (bind_ok _ _ _ _ _ (Hp idx ltac:(lia))). destruct (q idx) eqn:E.
  - destruct (IH (idx + 1)) as (b & Eb & Hb); [intros i Hi; apply Hp; lia|].
    exists b. split; [done|]. rewrite Hb. split; intros Hq i Hi.
    + destruct (Z.eqb_spec i idx) as [->|]; [done|]. apply Hq. lia.
    + apply Hq. lia.
  - exists false. split; [done|]. split; [done|]. intros Hq. by rewrite Hq in E by lia.
Qed.

Lemma same_bits_words s t : wf s -> wf t ->
  (forall j, 0 <= j -> bit s j = bit t j) <-> (forall k, 0 <= k -> nth_word (bits s) k = nth_word (bits t) k).
Proof.
  intros Hs Ht. split.
  - intros Hb k Hk. apply word_ext; [apply nth_word_range; by apply wf_words..|].
    intros j Hj. rewrite <- !bit_of_word by lia. apply Hb. lia.
  - intros Hw j Hj. unfold bit, bit_of. by rewrite Hw by lia.
Qed.

Lemma word_fst (s t : BitSet) i : 0 <= i < zlen (bits s) -> on_fst (word i) (s, t) = (Ok (nth_word (bits s) i), (s, t)).
Proof. intros. by apply on_fst_ok, word_ok. Qed.
Lemma word_snd (s t : BitSet) i : 0 <= i < zlen (bits t) -> word2 i (s, t) = (Ok (nth_word (bits t) i), (s, t)).
Proof. intros. by apply on_snd_ok, word_ok. Qed.

(** Words compared up to the shorter length, then one side's rest with 0. *)
Lemma compare_ok p s t n m : wf s -> wf t -> 0 <= n <= m -> n <= bitsSize s -> n <= bitsSize t ->
  (forall i, n <= i < m -> p i (s, t) =
     (Ok (bool_decide (nth_word (bits s) i = nth_word (bits t) i)), (s, t))) ->
  (forall k, m <= k -> nth_word (bits s) k = nth_word (bits t) k) ->
  exists b, (b <- all_words (fun i => w <- on_fst (word i) ;; v <- word2 i ;; ret (w =? v)) (Z.to_nat n) 0 ;;
             if (b : bool) then all_words p (Z.to_nat (m - n)) n else ret false) (s, t) = (Ok b, (s, t)) /\
    (b = true <-> forall j, 0 <= j -> bit s j = bit t j).
Proof.
  intros Hs Ht Hn Hns Hnt Hp Hrest. pose proof (wf_size s Hs). pose proof (wf_size t Ht).
  destruct (all_words_ok (fun i => w <- on_fst (word i) ;; v <- word2 i ;; ret (w =? v))
    (fun i => nth_word (bits s) i =? nth_word (bits t) i) (Z.to_nat n) 0 (s, t)) as (b1 & E1 & H1).
  { intros i Hi. rewrite (bind_ok _ _ _ _ _ (word_fst s t i ltac:(lia))).
    by rewrite (bind_ok _ _ _ _ _ (word_snd s t i ltac:(lia))). }
  rewrite (bind_ok _ _ _ _ _ E1). pose proof (same_bits_words s t Hs Ht) as Hsame. destruct b1; cycle 1.
  { exists false. split; [done|]. rewrite Hsame. split; [done|]. intros Hw. apply H1. intros i Hi. apply Z.eqb_eq, Hw. lia. }
  destruct (all_words_ok p (fun i => bool_decide (nth_word (bits s) i = nth_word (bits t) i))
    (Z.to_nat (m - n)) n (s, t)) as (b2 & E2 & H2).
  { intros i Hi. apply Hp. lia. }
  exists b2. split; [done|]. rewrite Hsame, H2. split.
  - intros Hq k Hk. destruct (Z.ltb_spec k n).
    + apply Z.eqb_eq. apply H1; [done|lia].
    + destruct (Z.ltb_spec k m); [|apply Hrest; lia]. eapply bool_decide_eq_true_1, Hq. lia.
  - intros Hw i Hi. apply bool_decide_eq_true_2, Hw. lia.
Qed.

Lemma equals_ok s t : wf s -> wf t -> exact s -> exact t ->
  exists b, BitSet_equals (s, t) = (Ok b, (s, t)) /\ (b = true <-> forall j, 0 <= j -> bit s j = bit t j).
Proof.
  intros Hs Ht Hes Het. unfold BitSet_equals. rewrite bind_get. cbn [fst snd].
  pose proof (wf_actual s Hs) as Has. pose proof (wf_actual t Ht) as Hat.
  pose proof (wf_size s Hs) as Hss. pose proof (wf_size t Ht) as Hst.
  destruct (_ && _) eqn:E.
  - exists false. split; [done|]. split; [done|]. intros Hb. exfalso.
    apply andb_prop in E as [[Hls Hlt]%andb_prop Hne%negb_true_iff%Z.eqb_neq].
    rewrite same_bits_words in Hb by done. unfold exact in *.
    destruct (Z.lt_total (actualArrayLength s) (actualArrayLength t)) as [Hlt'|[|Hlt']]; [|done|].
    + apply (Het Hlt); [lia|]. rewrite <- Hb by lia. apply (wf_beyond s Hs). lia.
    + apply (Hes Hls); [lia|]. rewrite Hb by lia. apply (wf_beyond t Ht). lia.
  - destruct (Z.leb_spec (actualArrayLength s) (actualArrayLength t)).
    + apply compare_ok; try done; [lia..| |].
      * intros i Hi. rewrite (bind_ok _ _ _ _ _ (word_snd s t i ltac:(lia))).
        rewrite (wf_beyond s Hs) by lia. unfold ret. do 2 f_equal.
        destruct (Z.eqb_spec (nth_word (bits t) i) 0), (bool_decide_reflect (0 = nth_word (bits t) i)); congruence.
      * intros k Hk. by rewrite (wf_beyond s Hs), (wf_beyond t Ht) by lia.
    + apply compare_ok; try done; [lia..| |].
      * intros i Hi. rewrite (bind_ok _ _ _ _ _ (word_fst s t i ltac:(lia))).
        rewrite (wf_beyond t Ht) by lia. unfold ret. do 2 f_equal.
        destruct (Z.eqb_spec (nth_word (bits s) i) 0), (bool_decide_reflect (nth_word (bits s) i = 0)); congruence.
      * intros k Hk. by rewrite (wf_beyond s Hs), (wf_beyond t Ht) by lia.
Qed.

Lemma intersects_ok s t : wf s -> wf t ->
  exists b, BitSet_intersects (s, t) = (Ok b, (s, t)) /\
    (b = false <-> forall j, 0 <= j -> bit s j && bit t j = false).
Proof.
  intros Hs Ht. unfold BitSet_intersects. rewrite bind_get. cbn [fst snd]. cbv zeta.
  pose proof (wf_actual s Hs) as Has. pose proof (wf_actual t Ht) as Hat.
  pose proof (wf_size s Hs) as Hss. pose proof (wf_size t Ht) as Hst.
  set (n := if _ <=? _ then _ else _).
  assert (n = Z.min (actualArrayLength s) (actualArrayLength t)) as Hn
    by (unfold n; destruct (Z.leb_spec (actualArrayLength s) (actualArrayLength t)); lia).
  destruct (all_words_ok (fun i => w <- on_fst (word i) ;; v <- word2 i ;; ret (Z.land w v =? 0))
    (fun i => Z.land (nth_word (bits s) i) (nth_word (bits t) i) =? 0) (Z.to_nat n) 0 (s, t)) as (b & E & Hb).
  { intros i Hi. rewrite (bind_ok _ _ _ _ _ (word_fst s t i ltac:(lia))).
    by rewrite (bind_ok _ _ _ _ _ (word_snd s t i ltac:(lia))). }
  rewrite (bind_ok _ _ _ _ _ E). exists (negb b). split; [done|].
  rewrite negb_false_iff, Hb. split.
  - intros Hz j Hj. destruct (Z.ltb_spec (j / 64) n).
    + unfold bit, bit_of. rewrite <- Z.land_spec. specialize (Hz (j / 64) ltac:(lia)).
      apply Z.eqb_eq in Hz. rewrite Hz. apply Z.bits_0.
    + destruct (Z.leb_spec (actualArrayLength s) (j / 64)).
      * by rewrite (bit_beyond s) by done.
      * rewrite (bit_beyond t) by (done || lia). apply andb_false_r.
  - intros Hz i Hi. apply Z.eqb_eq.
    apply nth_word_zero_bits; [|apply land_range, nth_word_range, (wf_words s Hs)].
    intros j Hj. rewrite Z.land_spec, <- !bit_of_word by lia. apply Hz. lia.
Qed.

(** ** Counting *)

(** How many of the [n] indices from [lo] satisfy [p]. *)
Fixpoint count (p : Z -> bool) (lo : Z) (n : nat) : Z :=
  match n with
  | O => 0
  | Datatypes.S n' => (if p lo then 1 else 0) + count p (lo + 1) n'
  end.

Lemma count_app p lo n m : count p lo (n + m) = count p lo n + count p (lo + Z.of_nat n) m.
Proof.
  revert lo. induction n as [|n IH]; intros lo; cbn [count Nat.add].
  - by rewrite Z.add_0_r.
  - rewrite IH. replace (lo + 1 + Z.of_nat n) with (lo + Z.of_nat (Datatypes.S n)) by lia. lia.
Qed.

Lemma count_ext p q lo lo' n :
  (forall i, 0 <= i < Z.of_nat n -> p (lo + i) = q (lo' + i)) -> count p lo n = count q lo' n.
Proof.
  revert lo lo'. induction n as [|n IH]; intros lo lo' Hpq; cbn [count]; [done|].
  pose proof (Hpq 0 ltac:(lia)) as H0. rewrite !Z.add_0_r in H0. rewrite H0. f_equal.
  apply IH. intros i Hi. specialize (Hpq (1 + i) ltac:(lia)).
  by rewrite <- !Z.add_assoc.
Qed.

(** Masks and sums nibble by nibble. *)
Lemma land_nibble h l m c : 0 <= l < 16 -> 0 <= c < 16 ->
  Z.land (16 * h + l) (16 * m + c) = 16 * Z.land h m + Z.land l c.
Proof.
  intros Hl Hc. assert (forall a b, 0 <= b < 16 -> 16 * a + b = Z.lor (Z.shiftl a 4) b) as Hsum.
  { intros a b Hb. rewrite Z.shiftl_mul_pow2 by lia. replace (16 * a + b) with (a * 2 ^ 4 + b) by lia.
    rewrite <- Z.lxor_lor; [apply Z.add_nocarry_lxor|]; apply Z.bits_inj'; intros n Hn;
      rewrite Z.land_spec, Z.bits_0; (destruct (Z.ltb_spec n 4);
        [rewrite Z.mul_pow2_bits_low by lia; done
        |rewrite <- (Z.mod_small b (2 ^ 4)), Z.mod_pow2_bits_high by lia; apply andb_false_r]). }
  assert (0 <= Z.land l c < 16) as Hlc.
  { split; [apply Z.land_nonneg; lia|]. change 16 with (2 ^ 4).
    destruct (Z.eqb_spec (Z.land l c) 0) as [->|]; [lia|].
    apply Z.log2_lt_pow2; [pose proof (Z.land_nonneg l c); lia|].
    pose proof (Z.log2_land l c ltac:(lia) ltac:(lia)).
    assert (Z.log2 l < 4) by (destruct (Z.eqb_spec l 0) as [->|]; [done|apply Z.log2_lt_pow2; lia]). lia. }
  rewrite (Hsum h l Hl), (Hsum m c Hc), (Hsum (Z.land h m) (Z.land l c) Hlc).
  apply Z.bits_inj'. intros n Hn. rewrite !Z.land_spec, !Z.lor_spec, !Z.land_spec, !Z.shiftl_spec, Z.land_spec by lia.
  destruct (Z.ltb_spec n 4).
  - by rewrite !(Z.testbit_neg_r _ (n - 4)) by lia.
  - rewrite <- (Z.mod_small l (2 ^ 4)), <- (Z.mod_small c (2 ^ 4)) by lia.
    rewrite !Z.mod_pow2_bits_high by lia. by rewrite !orb_false_r.
Qed.

(** The bits of a nibble, as its four steps count them. *)
Definition nibble_ones (l : Z) : Z := l mod 2 + l / 2 mod 2 + l / 4 mod 2 + l / 8 mod 2.

Lemma nibble_steps : forallb (fun l =>
    (let p := l - Z.land (l / 2) 5 in
     (0 <=? p) && (p <? 16) && (Z.land p 3 + Z.land (p / 4) 3 =? nibble_ones l) && (nibble_ones l <=? 4)) &&
    forallb (fun b => (Z.land (l / 2 + 8 * b) 5 =? Z.land (l / 2) 5)) (seqZ 0 2) &&
    forallb (fun b => (Z.land (l / 4 + 4 * b) 3 =? Z.land (l / 4) 3)) (seqZ 0 4)) (seqZ 0 16) = true.
Proof. by vm_compute. Qed.

Lemma nibble_step l b c : 0 <= l < 16 -> 0 <= b < 2 -> 0 <= c < 4 ->
  let p := l - Z.land (l / 2) 5 in
  0 <= p < 16 /\ Z.land p 3 + Z.land (p / 4) 3 = nibble_ones l /\ 0 <= nibble_ones l <= 4 /\
  Z.land (l / 2 + 8 * b) 5 = Z.land (l / 2) 5 /\ Z.land (l / 4 + 4 * c) 3 = Z.land (l / 4) 3.
Proof.
  intros Hl Hb Hc p. pose proof (forallb_seqZ _ _ _ l nibble_steps ltac:(lia)) as H. cbv beta in H.
  apply andb_prop in H as [[[[[H1 H2]%andb_prop H3]%andb_prop H4]%andb_prop H5]%andb_prop H6].
  pose proof (forallb_seqZ _ _ _ b H5 ltac:(lia)). pose proof (forallb_seqZ _ _ _ c H6 ltac:(lia)).
  unfold p. unfold nibble_ones in *. split_and!; try lia.
Qed.

(** Numbers by their nibbles, the lowest first. *)
Fixpoint val (ls : list Z) : Z := match ls with [] => 0 | l :: ls' => 16 * val ls' + l end.
Fixpoint nibbles (n : nat) (x : Z) : list Z :=
  match n with O => [] | Datatypes.S n' => x mod 16 :: nibbles n' (x / 16) end.
Fixpoint mask (c : Z) (n : nat) : Z := match n with O => 0 | Datatypes.S n' => 16 * mask c n' + c end.
Abbreviation nibble := (fun l => 0 <= l < 16).

Lemma nibbles_ok n x : Forall nibble (nibbles n x).
Proof. revert x. induction n as [|n IH]; intros x; constructor; [lia|done]. Qed.
Lemma val_nibbles n x : 0 <= x < 16 ^ Z.of_nat n -> val (nibbles n x) = x.
Proof.
  revert x. induction n as [|n IH]; intros x Hx; cbn [nibbles val]; [cbn in Hx; lia|].
  replace (Z.of_nat (Datatypes.S n)) with (1 + Z.of_nat n) in Hx by lia.
  rewrite Z.pow_add_r in Hx by lia. rewrite IH; [lia|]. split; [lia|]. apply Z.div_lt_upper_bound; lia.
Qed.
Lemma length_nibbles n x : length (nibbles n x) = n.
Proof. revert x. induction n as [|n IH]; intros x; cbn; [done|]. by rewrite IH. Qed.
Lemma val_nonneg ls : Forall nibble ls -> 0 <= val ls.
Proof. induction 1; cbn [val]; lia. Qed.

Lemma val_land ls c : Forall nibble ls -> 0 <= c < 16 ->
  Z.land (val ls) (mask c (length ls)) = val (map (fun l => Z.land l c) ls).
Proof.
  intros Hls Hc. induction Hls as [|l ls Hl _ IH]; [done|]. cbn [val mask length map].
  by rewrite land_nibble, IH.
Qed.

(** A shift by one or two bits under a mask that drops what the next nibble gives. *)
Lemma val_shift1 ls : Forall nibble ls ->
  Z.land (val ls / 2) (mask 5 (length ls)) = val (map (fun l => Z.land (l / 2) 5) ls).
Proof.
  induction 1 as [|l ls Hl Hls IH]; [done|]. cbn [val mask length map].
  replace ((16 * val ls + l) / 2) with (16 * (val ls / 2) + (l / 2 + 8 * (val ls mod 2))) by lia.
  rewrite land_nibble, IH by lia.
  by destruct (nibble_step l (val ls mod 2) 0) as (_ & _ & _ & -> & _); [lia..|].
Qed.
Lemma val_shift2 ls : Forall nibble ls ->
  Z.land (val ls / 4) (mask 3 (length ls)) = val (map (fun l => Z.land (l / 4) 3) ls).
Proof.
  induction 1 as [|l ls Hl Hls IH]; [done|]. cbn [val mask length map].
  replace ((16 * val ls + l) / 4) with (16 * (val ls / 4) + (l / 4 + 4 * (val ls mod 4))) by lia.
  rewrite land_nibble, IH by lia.
  by destruct (nibble_step l 0 (val ls mod 4)) as (_ & _ & _ & _ & ->); [lia..|].
Qed.

Lemma val_map_add (f g : Z -> Z) ls : val (map f ls) + val (map g ls) = val (map (fun l => f l + g l) ls).
Proof. induction ls as [|l ls IH]; cbn [val map]; lia. Qed.
Lemma val_map_sub (g : Z -> Z) ls : val ls - val (map g ls) = val (map (fun l => l - g l) ls).
Proof. induction ls as [|l ls IH]; cbn [val map]; lia. Qed.

(** The first two steps leave the count of each nibble in its place. *)
Lemma pop_steps ls : Forall nibble ls ->
  let y := val ls - Z.land (val ls / 2) (mask 5 (length ls)) in
  0 <= y /\ Z.land y (mask 3 (length ls)) + Z.land (y / 4) (mask 3 (length ls)) = val (map nibble_ones ls).
Proof.
  intros Hls. cbv zeta. rewrite val_shift1, val_map_sub by done.
  set (ps := map (fun l => l - Z.land (l / 2) 5) ls).
  assert (Forall nibble ps) as Hps.
  { unfold ps. apply Forall_map. eapply Forall_impl; [|exact Hls]. intros l Hl.
    by apply (nibble_step l 0 0). }
  assert (length ls = length ps) as -> by (unfold ps; by rewrite length_map).
  split; [by apply val_nonneg|]. rewrite val_land, val_shift2, val_map_add by (done || lia).
  unfold ps. rewrite map_map. f_equal. apply map_ext_Forall. eapply Forall_impl; [|exact Hls].
  intros l Hl. by apply (nibble_step l 0 0).
Qed.

(** The last three steps add the counts up. *)
Lemma pop_tail n0 n1 n2 n3 n4 n5 n6 n7 :
  Forall (fun n => 0 <= n <= 4) [n0; n1; n2; n3; n4; n5; n6; n7] ->
  let x := u64 (val [n0; n1; n2; n3; n4; n5; n6; n7]) in
  let x := Z.land (u64 (x + Z.shiftr x 4)) 0x0f0f0f0f in
  let x := u64 (x + Z.shiftr x 8) in
  let x := u64 (x + Z.shiftr x 16) in
  Z.land (s32 x) 0x3f = n0 + n1 + n2 + n3 + n4 + n5 + n6 + n7.
Proof.
  intros Hn. rewrite !Forall_cons_iff in Hn. destruct Hn as (H0 & H1 & H2 & H3 & H4 & H5 & H6 & H7 & _).
  cbv zeta. rewrite !Z.shiftr_div_pow2 by lia.
  set (z := val _). assert (0 <= z < 2 ^ 32) by (unfold z; cbn [val]; lia).
  rewrite (wrapu_id 64 z) by (unfold in_u; lia). change (2 ^ 4) with 16.
  rewrite (wrapu_id 64 (z + z / 16)) by (unfold in_u; lia).
  assert (z + z / 16 = val [n0 + n1; n1 + n2; n2 + n3; n3 + n4; n4 + n5; n5 + n6; n6 + n7; n7]) as ->
    by (unfold z; cbn [val]; lia).
  replace 0x0f0f0f0f with (val [15; 0; 15; 0; 15; 0; 15; 0]) by done.
  cbn [val]. rewrite !land_nibble by lia. rewrite !Z.land_0_r.
  assert (forall n, 0 <= n < 16 -> Z.land n 15 = n) as Hland.
  { intros n ?. change 15 with (Z.ones 4). rewrite Z.land_ones by lia. by apply Z.mod_small. }
  rewrite !Hland by lia.
  replace (16 * _ + (n0 + n1)) with
    ((n0 + n1) + 2 ^ 8 * (n2 + n3) + 2 ^ 16 * (n4 + n5) + 2 ^ 24 * (n6 + n7)) by lia.
  set (z1 := _ + 2 ^ 24 * _). assert (0 <= z1 < 2 ^ 28) by (unfold z1; lia).
  rewrite (wrapu_id 64 (z1 + _)) by (unfold in_u; lia).
  replace (z1 + z1 / 2 ^ 8) with ((n0 + n1 + n2 + n3) + 2 ^ 8 * (n2 + n3 + n4 + n5) +
    2 ^ 16 * (n4 + n5 + n6 + n7) + 2 ^ 24 * (n6 + n7)) by (unfold z1; lia).
  set (z2 := _ + 2 ^ 24 * _). assert (0 <= z2 < 2 ^ 28) by (unfold z2; lia).
  rewrite (wrapu_id 64 (z2 + _)) by (unfold in_u; lia).
  assert (exists k, 0 <= k < 2 ^ 22 /\ z2 + z2 / 2 ^ 16 = 256 * k + (n0 + n1 + n2 + n3 + n4 + n5 + n6 + n7)) as (k & Hk & ->).
  { exists ((n2 + n3 + n4 + n5) + (n6 + n7) + 256 * (n4 + n5 + n6 + n7) + 65536 * (n6 + n7)). unfold z2. lia. }
  rewrite wraps_id by (unfold in_s; lia). change 0x3f with (Z.ones 6). rewrite Z.land_ones by lia. lia.
Qed.

Definition nibble_sum (ls : list Z) : Z := fold_right (fun l a => nibble_ones l + a) 0 ls.

Lemma nibble_sum_map ls : nibble_sum ls = fold_right Z.add 0 (map nibble_ones ls).
Proof. induction ls as [|l ls IH]; [done|]. cbn. by rewrite <- IH. Qed.

Lemma pop_nibbles x : in_u 32 x -> pop x = nibble_sum (nibbles 8 x).
Proof.
  intros Hx. pose proof (nibbles_ok 8 x) as Hok. pose proof (val_nibbles 8 x Hx) as Hval.
  pose proof (pop_steps _ Hok) as Hsteps. rewrite length_nibbles, Hval in Hsteps.
  change (mask 5 8) with 0x55555555 in Hsteps. change (mask 3 8) with 0x33333333 in Hsteps.
  cbv zeta in Hsteps. destruct Hsteps as [Hy0 Hy]. unfold in_u in Hx.
  assert (0 <= Z.land (x / 2) 0x55555555) by (apply Z.land_nonneg; lia).
  assert (Forall (fun l => 0 <= l <= 4) (map nibble_ones (nibbles 8 x))) as Hones.
  { apply Forall_map. eapply Forall_impl; [|exact Hok]. intros l Hl. by apply (nibble_step l 0 0). }
  unfold pop. rewrite !Z.shiftr_div_pow2 by lia. change (2 ^ 1) with 2.
  rewrite (wrapu_id 64 (x - _)) by (unfold in_u; lia). change (2 ^ 2) with 4. rewrite Hy.
  rewrite nibble_sum_map.
  assert (length (map nibble_ones (nibbles 8 x)) = 8%nat) as Hlen by (by rewrite length_map, length_nibbles).
  destruct (map nibble_ones (nibbles 8 x)) as [|a [|b [|c [|d [|e [|f [|g [|h [|]]]]]]]]]; try done.
  rewrite <- !Z.shiftr_div_pow2 by lia. etransitivity; [exact (pop_tail a b c d e f g h Hones)|]. cbn. lia.
Qed.

(** The count of the bits of a number, four at a time. *)
Lemma count_nibbles n x : count (Z.testbit x) 0 (4 * n) = nibble_sum (nibbles n x).
Proof.
  revert x. induction n as [|n IH]; intros x; [done|].
  replace (4 * Datatypes.S n)%nat with (4 + 4 * n)%nat by lia. rewrite count_app.
  cbn [nibbles nibble_sum fold_right]. f_equal.
  - cbn [count]. assert (forall j, 0 <= j -> (if Z.testbit x j then 1 else 0) = (x / 2 ^ j) mod 2) as Hb.
    { intros j Hj. rewrite <- Z.testbit_spec' by done. by destruct (Z.testbit x j). }
    rewrite !Hb by lia. unfold nibble_ones. change (2 ^ 0) with 1. change (2 ^ (0 + 1)) with 2.
    change (2 ^ (0 + 1 + 1)) with 4. change (2 ^ (0 + 1 + 1 + 1)) with 8. lia.
  - rewrite <- IH. apply count_ext. intros i Hi. change 16 with (2 ^ 4).
    rewrite Z.div_pow2_bits by lia. f_equal. lia.
Qed.

Lemma pop_word w : in_u 64 w ->
  pop (Z.land w 0xffffffff) + pop (Z.shiftr w 32) = count (Z.testbit w) 0 64.
Proof.
  intros Hw. change 0xffffffff with (Z.ones 32). rewrite Z.land_ones, Z.shiftr_div_pow2 by lia.
  unfold in_u in Hw. rewrite !pop_nibbles by (unfold in_u; lia). rewrite <- !(count_nibbles 8).
  change 64%nat with (32 + 32)%nat. rewrite (count_app _ 0 32 32). f_equal; apply count_ext; intros i Hi.
  - apply Z.mod_pow2_bits_low. lia.
  - rewrite Z.div_pow2_bits by lia. f_equal. lia.
Qed.

Lemma cardinality_ok s : wf s -> bitsSize s < 2 ^ 25 ->
  BitSet_cardinality s = (Ok (count (bit s) 0 (64 * Z.to_nat (bitsSize s))), s).
Proof.
  intros Hwf Hsize. pose proof Hwf as [Hw Hs Ha Hb Hc]. unfold BitSet_cardinality. rewrite bind_get.
  destruct (needClear s) eqn:Hn; cbn [negb]; cycle 1.
  { unfold ret. do 2 f_equal. symmetry.
    assert (forall n lo, 0 <= lo -> count (bit s) lo n = 0) as H0; [|by apply H0].
    induction n as [|n IH]; intros lo Hlo; cbn [count]; [done|].
    rewrite bit_beyond; [by rewrite IH by lia|done|done|]. rewrite Hc by done. lia. }
  unfold with_object. set (body := fun i : Z => _).
  destruct (for_m_ok (fun i st => st = (s, count (bit s) 0 (64 * Z.to_nat i))) 0 (bitsSize s) body (s, 0))
    as (st & E & ->); [lia|done| |by rewrite (bind_ok _ _ _ _ _ E)].
  intros i st Hi ->. unfold body.
  rewrite (bind_ok _ _ _ _ _ (on_fst_ok _ _ _ _ _ (word_ok s i ltac:(lia)))).
  eexists. split; [done|]. f_equal. rewrite <- Z.add_assoc, pop_word by by apply nth_word_range.
  replace (64 * Z.to_nat (i + 1))%nat with (64 * Z.to_nat i + 64)%nat by lia. rewrite count_app.
  f_equal. apply count_ext. intros j Hj. unfold bit. rewrite <- bit_of_word by lia. f_equal. lia.
Qed.

(** ** The bits of a range *)

Lemma read_words_ok n idx s : 0 <= idx -> idx + Z.of_nat n <= zlen (bits s) ->
  exists ws, read_words idx n s = (Ok ws, s) /\ zlen ws = Z.of_nat n /\
    forall k, 0 <= k < Z.of_nat n -> nth_word ws k = nth_word (bits s) (idx + k).
Proof.
  revert idx. induction n as [|n IH]; intros idx Hidx Hlen; cbn [read_words].
  { exists []. split_and!; [done|done|lia]. }
  rewrite (bind_ok _ _ _ _ _ (word_ok s idx ltac:(lia))).
  destruct (IH (idx + 1)) as (ws & E & Hl & Hn); [lia|lia|]. rewrite (bind_ok _ _ _ _ _ E).
  eexists. split; [done|]. split; [rewrite zlen_cons; lia|]. intros k Hk.
  destruct (Z.eqb_spec k 0) as [->|]; [by rewrite Z.add_0_r|].
  replace (idx + k) with (idx + 1 + (k - 1)) by lia. rewrite <- Hn by lia. unfold nth_word.
  by replace (Z.to_nat k) with (S (Z.to_nat (k - 1))) by lia.
Qed.

Lemma nth_word_cons w ws i : 0 <= i ->
  nth_word (w :: ws) i = if i =? 0 then w else nth_word ws (i - 1).
Proof.
  intros Hi. unfold nth_word. destruct (Z.eqb_spec i 0) as [->|]; [done|].
  by replace (Z.to_nat i) with (S (Z.to_nat (i - 1))) by lia.
Qed.

Lemma nth_word_shift k ws i : 0 <= i ->
  nth_word (shift_words k ws) i =
    Z.lor (Z.shiftr (nth_word ws i) k) (u64 (Z.shiftl (nth_word ws (i + 1)) (ELM_SIZE - k))).
Proof.
  revert i. induction ws as [|w ws IH]; intros i Hi.
  { unfold nth_word. cbn [shift_words]. rewrite !lookup_nil. cbn [default].
    by rewrite Z.shiftr_0_l, Z.shiftl_0_l. }
  cbn [shift_words]. rewrite !nth_word_cons by lia. replace (i + 1 - 1) with i by lia.
  destruct (Z.eqb_spec i 0) as [->|]; zcmp.
  - destruct ws as [|v ws]; [|done]. unfold nth_word. cbn. by rewrite Z.shiftl_0_l, Z.lor_0_r.
  - rewrite IH by lia. by replace (i - 1 + 1) with i by lia.
Qed.

Lemma zlen_shift_words k ws : zlen (shift_words k ws) = zlen ws.
Proof. unfold zlen. f_equal. induction ws as [|w ws IH]; cbn; [done|by rewrite IH]. Qed.

Lemma words_range ws : (forall i, 0 <= i -> in_u 64 (nth_word ws i)) -> Forall (in_u 64) ws.
Proof.
  intros Hw. apply Forall_lookup_2. intros i w Hi. rewrite <- (Nat2Z.id i) in Hi.
  rewrite <- (nth_word_some _ _ _ Hi). apply Hw. lia.
Qed.

Lemma shift_words_ok k ws : 0 < k < 64 -> Forall (in_u 64) ws ->
  Forall (in_u 64) (shift_words k ws) /\
  forall j, 0 <= j -> bit_of (shift_words k ws) j = bit_of ws (j + k).
Proof.
  intros Hk Hws. assert (forall i, in_u 64 (nth_word ws i)) as Hr by (intros; by apply nth_word_range).
  split.
  - apply words_range. intros i Hi. rewrite nth_word_shift by done. apply lor_range; [|by apply wrapu_range].
    rewrite Z.shiftr_div_pow2 by lia. specialize (Hr i). unfold in_u in *. split; [apply Z.div_pos; lia|].
    apply Z.div_lt_upper_bound; [lia|]. nia.
  - intros j Hj. unfold bit_of. rewrite nth_word_shift by lia. unfold ELM_SIZE, wrapu.
    rewrite Z.lor_spec, Z.mod_pow2_bits_low, Z.shiftr_spec, Z.shiftl_spec by lia.
    destruct (Z.ltb_spec (j mod 64 + k) 64).
    + rewrite (Z.testbit_neg_r _ (j mod 64 - _)), orb_false_r by lia. f_equal; [f_equal|]; lia.
    + rewrite (word_high (nth_word ws (j / 64))) by (done || lia). cbn [orb]. f_equal; [f_equal|]; lia.
Qed.

Lemma last_used_ok ws i len :
  (last_used ws i len = len /\ forall k, 0 <= k -> nth_word ws k = 0) \/
  (i < last_used ws i len <= i + zlen ws /\ nth_word ws (last_used ws i len - i - 1) <> 0 /\
   forall k, last_used ws i len - i <= k -> nth_word ws k = 0).
Proof.
  revert i len. induction ws as [|w ws IH]; intros i len; cbn [last_used].
  { left. split; [done|]. intros k _. done. }
  rewrite zlen_cons. destruct (IH (i + 1) (if w =? 0 then len else i + 1)) as [[-> Hz]|(Hr & Hnz & Hz)].
  - destruct (Z.eqb_spec w 0) as [->|Hw].
    + left. split; [done|]. intros k Hk. rewrite nth_word_cons by done. case_match; [done|]. apply Hz. lia.
    + right. pose proof (zlen_nonneg ws). split; [lia|]. split.
      * rewrite nth_word_cons by lia. by replace (i + 1 - i - 1) with 0 by lia.
      * intros k Hk. rewrite nth_word_cons by lia. zcmp. apply Hz. lia.
  - right. split; [lia|]. split.
    + rewrite nth_word_cons by lia. zcmp. by replace (last_used ws (i + 1) _ - i - 1 - 1) with
        (last_used ws (i + 1) (if w =? 0 then len else i + 1) - (i + 1) - 1) by lia.
    + intros k Hk. rewrite nth_word_cons by lia. zcmp. apply Hz. lia.
Qed.

(** The words of the range before they are shifted. *)
Lemma cut_words s lo hi w1 w2 between : Forall (in_u 64) (bits s) -> 0 <= lo < hi ->
  lo / 64 < (hi - 1) / 64 -> w1 = nth_word (bits s) (lo / 64) -> w2 = nth_word (bits s) ((hi - 1) / 64) ->
  zlen between = (hi - 1) / 64 - lo / 64 - 1 ->
  (forall k, 0 <= k < zlen between -> nth_word between k = nth_word (bits s) (lo / 64 + 1 + k)) ->
  let ws := Z.land w1 (factor1 lo) :: between ++ [Z.land w2 (factor2 hi)] in
  zlen ws = (hi - 1) / 64 - lo / 64 + 1 /\ Forall (in_u 64) ws /\
  forall j, 0 <= j -> bit_of ws j = (lo mod 64 <=? j) && (64 * (lo / 64) + j <? hi) && bit s (64 * (lo / 64) + j).
Proof.
  intros Hws Hlo Hidx -> -> Hl Hb ws. pose proof (zlen_nonneg between).
  assert (forall k, in_u 64 (nth_word (bits s) k)) as Hr by (intros; by apply nth_word_range).
  assert (zlen ws = (hi - 1) / 64 - lo / 64 + 1) as Hlen by (unfold ws; autorewrite with amq_len; lia).
  assert (forall k, 0 <= k -> nth_word ws k =
    if k =? 0 then Z.land (nth_word (bits s) (lo / 64)) (factor1 lo)
    else if k <? (hi - 1) / 64 - lo / 64 then nth_word (bits s) (lo / 64 + k)
    else if k =? (hi - 1) / 64 - lo / 64 then Z.land (nth_word (bits s) ((hi - 1) / 64)) (factor2 hi) else 0) as Hn.
  { intros k Hk. unfold ws. rewrite nth_word_cons by done. destruct (Z.eqb_spec k 0); [done|].
    destruct (Z.ltb_spec k ((hi - 1) / 64 - lo / 64)).
    - unfold nth_word at 1. rewrite lookup_app_l by (unfold zlen in *; lia).
      change (nth_word between (k - 1) = nth_word (bits s) (lo / 64 + k)). rewrite Hb by lia. f_equal. lia.
    - unfold nth_word at 1. rewrite lookup_app_r by (unfold zlen in *; lia).
      destruct (Z.eqb_spec k ((hi - 1) / 64 - lo / 64)).
      + replace (Z.to_nat (k - 1) - length between)%nat with O by (unfold zlen in *; lia). done.
      + rewrite lookup_ge_None_2; [done|]. cbn [length]. unfold zlen in *. lia. }
  split; [done|]. split.
  - apply words_range. intros k Hk. rewrite Hn by done.
    repeat case_match; [by apply land_range|done|by apply land_range|by vm_compute].
  - intros j Hj. unfold bit_of. rewrite Hn by lia. unfold bit, bit_of.
    replace ((64 * (lo / 64) + j) / 64) with (lo / 64 + j / 64) by lia.
    replace ((64 * (lo / 64) + j) mod 64) with (j mod 64) by lia.
    destruct (Z.eqb_spec (j / 64) 0) as [Ej|Ej]; [|destruct (Z.ltb_spec (j / 64) ((hi - 1) / 64 - lo / 64)) as [Ek|Ek];
      [|destruct (Z.eqb_spec (j / 64) ((hi - 1) / 64 - lo / 64)) as [El|El]]].
    + rewrite Z.land_spec, factor1_bit, Ej, Z.add_0_r by lia.
      replace (64 * (lo / 64) + j <? hi) with true by lia.
      replace (lo mod 64 <=? j mod 64) with (lo mod 64 <=? j) by lia.
      by rewrite andb_true_r, andb_comm.
    + replace (lo mod 64 <=? j) with true by lia. by replace (64 * (lo / 64) + j <? hi) with true by lia.
    + rewrite Z.land_spec, factor2_bit by lia. replace (lo mod 64 <=? j) with true by lia.
      replace (j mod 64 <=? (hi - 1) mod 64) with (64 * (lo / 64) + j <? hi) by lia.
      replace (lo / 64 + j / 64) with ((hi - 1) / 64) by lia. by rewrite andb_comm.
    + rewrite Z.bits_0. replace (64 * (lo / 64) + j <? hi) with false by lia. by rewrite andb_false_r.
Qed.

Lemma empty_set_ok : wf empty_set /\ exact empty_set /\ forall j, bit empty_set j = false.
Proof.
  split; [|split].
  - split; cbn; done.
  - intros _ Hpos. cbn in Hpos. lia.
  - intros j. apply Z.bits_0.
Qed.

(** A fresh set of [n] words, [len] of them in use. *)
Lemma fresh_ok ws n len : Forall (in_u 64) ws -> zlen ws = n -> 0 < len <= n ->
  (forall k, len <= k -> nth_word ws k = 0) ->
  wf (mkBitSet ws n true len (negb (nth_word ws (len - 1) =? 0))) /\
  exact (mkBitSet ws n true len (negb (nth_word ws (len - 1) =? 0))).
Proof.
  intros Hw Hl Hlen Hz. split.
  - split; cbn; done || lia.
  - intros Hla _. cbn in *. by destruct (Z.eqb_spec (nth_word ws (len - 1)) 0).
Qed.

(** [r] is the slice of [s] from [lo] to [hi]. *)
Definition slice_of (s : BitSet) (lo hi : Z) (r : BitSet) : Prop :=
  wf r /\ exact r /\ forall j, 0 <= j -> bit r j = (lo + j <? hi) && bit s (lo + j).

Lemma slice_empty s lo hi : (forall j, 0 <= j -> (lo + j <? hi) && bit s (lo + j) = false) ->
  slice_of s lo hi empty_set.
Proof.
  intros Hz. destruct empty_set_ok as (H1 & H2 & H3). split_and!; try done.
  intros j Hj. by rewrite H3, Hz.
Qed.

Lemma slice_one_ok s lo hi : wf s -> needClear s = true -> 0 <= lo < hi -> lo / 64 = (hi - 1) / 64 ->
  lo / 64 < bitsSize s ->
  exists r, slice_one lo hi s = (Ok r, s) /\ slice_of s lo hi r.
Proof.
  intros Hwf Hnc Hlo Ei Hroom. pose proof Hwf as [Hw Hs Ha Hb Hc]. unfold slice_one.
  rewrite bind_get, word_index, (bind_ok _ _ _ _ _ (word_ok s (lo / 64) ltac:(lia))), Hnc.
  assert (Z.rem lo ELM_SIZE = lo mod 64) as -> by (unfold ELM_SIZE; by rewrite Z.rem_mod_nonneg by lia).
  set (result := Z.shiftr _ _).
  assert (forall j, 0 <= j -> Z.testbit result j = (lo + j <? hi) && bit s (lo + j)) as Hres.
  { intros j Hj. unfold result. rewrite Z.shiftr_spec, !Z.land_spec by lia.
    destruct (Z.ltb_spec (j + lo mod 64) 64).
    - rewrite factor1_bit, factor2_bit by lia. unfold bit, bit_of.
      replace ((lo + j) / 64) with (lo / 64) by lia. replace ((lo + j) mod 64) with (j + lo mod 64) by lia.
      replace (lo mod 64 <=? j + lo mod 64) with true by lia.
      replace (j + lo mod 64 <=? (hi - 1) mod 64) with (lo + j <? hi) by lia. by rewrite andb_comm.
    - rewrite (word_high (nth_word (bits s) (lo / 64)) (j + lo mod 64)) by (first [by apply nth_word_range|lia]).
      by replace (lo + j <? hi) with false by lia. }
  assert (in_u 64 result) as Hr.
  { apply word_range.
    - apply Z.shiftr_nonneg, Z.land_nonneg. left. apply (nth_word_range _ _ Hw).
    - intros j Hj. rewrite Hres by lia. by replace (lo + j <? hi) with false by lia. }
  destruct (Z.eqb_spec result 0) as [E0|N0].
  { exists empty_set. split; [done|]. apply slice_empty. intros j Hj. rewrite <- Hres, E0 by done. apply Z.bits_0. }
  exists (mkBitSet [result] 1 true 1 true). split; [done|].
  destruct (fresh_ok [result] 1 1) as [Hf He]; [by constructor|done|lia| |].
  { intros k Hk. by apply nth_word_beyond. }
  assert (nth_word [result] (1 - 1) = result) as En by done. rewrite En in Hf, He.
  destruct (Z.eqb_spec result 0); [done|]. split; [exact Hf|]. split; [exact He|].
  intros j Hj. rewrite <- Hres by done. unfold bit, bit_of. cbn [bits].
  destruct (Z.ltb_spec j 64).
  - replace (j / 64) with 0 by lia. by replace (j mod 64) with j by lia.
  - rewrite nth_word_beyond, Z.bits_0 by (change (zlen [result]) with 1; lia). by rewrite word_high.
Qed.

Lemma slice_many_ok s lo hi : wf s -> needClear s = true -> 0 <= lo < hi -> lo / 64 < (hi - 1) / 64 ->
  (hi - 1) / 64 < bitsSize s ->
  exists r, slice_many lo hi s = (Ok r, s) /\ slice_of s lo hi r.
Proof.
  intros Hwf Hnc Hlo Hidx Hroom. pose proof Hwf as [Hw Hs Ha Hb Hc]. unfold slice_many.
  rewrite bind_get, !word_index, word_offset, Hnc. cbv zeta.
  rewrite (bind_ok _ _ _ _ _ (word_ok s (lo / 64) ltac:(lia))).
  rewrite (bind_ok _ _ _ _ _ (word_ok s ((hi - 1) / 64) ltac:(lia))).
  destruct (read_words_ok (Z.to_nat ((hi - 1) / 64 - lo / 64 - 1)) (lo / 64 + 1) s) as (between & Er & Hlb & Hbt); [lia|lia|].
  rewrite (bind_ok _ _ _ _ _ Er).
  destruct (cut_words s lo hi _ _ between Hw Hlo Hidx eq_refl eq_refl ltac:(lia)) as (Hl0 & Hw0 & Hb0).
  { intros k Hk. rewrite Hbt by lia. done. }
  set (n := (hi - 1) / 64 - lo / 64 + 1) in *. set (ws0 := _ :: _) in *.
  set (ws := if lo mod 64 =? 0 then ws0 else shift_words (lo mod 64) ws0).
  set (len := if lo mod 64 =? 0 then n else last_used ws 0 n).
  assert (Forall (in_u 64) ws /\ zlen ws = n /\
    forall j, 0 <= j -> bit_of ws j = (lo + j <? hi) && bit s (lo + j)) as (Hws & Hlen & Hbits).
  { unfold ws. destruct (Z.eqb_spec (lo mod 64) 0) as [E0|N0].
    - split_and!; try done. intros j Hj. rewrite Hb0 by done. rewrite E0. zcmp.
      by replace (64 * (lo / 64) + j) with (lo + j) by lia.
    - destruct (shift_words_ok (lo mod 64) ws0 ltac:(lia) Hw0) as [Hsw Hsb].
      split_and!; [done|by rewrite zlen_shift_words|]. intros j Hj. rewrite Hsb, Hb0 by lia.
      replace (64 * (lo / 64) + (j + lo mod 64)) with (lo + j) by lia. by zcmp. }
  assert (0 < len <= n /\ forall k, len <= k -> nth_word ws k = 0) as [Hlen' Hz].
  { assert (0 < n) by (unfold n; lia). unfold len. destruct (Z.eqb_spec (lo mod 64) 0).
    - split; [lia|]. intros k Hk. apply nth_word_beyond. lia.
    - destruct (last_used_ok ws 0 n) as [[-> Hz]|(Hr & _ & Hz)]; (split; [lia|]); intros k Hk; apply Hz; lia. }
  rewrite (nth_word_lookup ws (len - 1)) by lia. eexists. split; [done|].
  destruct (fresh_ok ws n len Hws Hlen Hlen' Hz) as [Hf He]. split_and!; [exact Hf|exact He|exact Hbits].
Qed.

Lemma get_range_ok s lo hi : wf s -> fits s -> 0 <= lo <= hi ->
  exists r, BitSet_get_range lo hi s = (Ok r, s) /\ slice_of s lo hi r.
Proof.
  intros Hwf Hfit Hlo. pose proof Hwf as [Hw Hs Ha Hb Hc]. unfold BitSet_get_range, bad_range. zcmp.
  rewrite bind_get, (last_bit s Hwf Hfit).
  destruct (Z.leb_spec (64 * actualArrayLength s) lo); cbn [orb].
  { eexists. split; [done|]. apply slice_empty. intros j Hj.
    rewrite (bit_beyond s) by (done || lia). apply andb_false_r. }
  destruct (Z.eqb_spec lo hi).
  { eexists. split; [done|]. apply slice_empty. intros j Hj. by replace (lo + j <? hi) with false by lia. }
  assert (needClear s = true) as Hnc.
  { destruct (needClear s); [done|]. specialize (Hc eq_refl). lia. }
  set (hi' := if _ <? _ then _ else _).
  assert (hi' = Z.min (64 * actualArrayLength s) hi) as Hhi
    by (unfold hi'; destruct (Z.ltb_spec (64 * actualArrayLength s) hi); lia).
  assert (exists r, (if lo / 64 =? (hi' - 1) / 64 then slice_one lo hi' else slice_many lo hi') s = (Ok r, s) /\
    slice_of s lo hi' r) as (r & E & Hwr & Her & Hbr).
  { destruct (Z.eqb_spec (lo / 64) ((hi' - 1) / 64)).
    - apply slice_one_ok; done || lia.
    - assert (lo / 64 <= (hi' - 1) / 64) by (apply Z.div_le_mono; lia). apply slice_many_ok; done || lia. }
  rewrite !word_index, E. exists r. split; [done|]. split_and!; [done|done|].
  intros j Hj. rewrite Hbr by done. destruct (Z.ltb_spec (lo + j) (64 * actualArrayLength s)).
  - by replace (lo + j <? hi') with (lo + j <? hi) by lia.
  - rewrite (bit_beyond s) by (done || lia). by rewrite !andb_false_r.
Qed.

(** ** The operations that change one set *)

Inductive update : Type :=
| USet (i : Z)
| UClear (i : Z)
| USetValue (i : Z) (value : bool)
| UFlip (i : Z)
| USetRange (lo hi : Z)
| UClearRange (lo hi : Z)
| USetRangeValue (lo hi : Z) (value : bool)
| UFlipRange (lo hi : Z)
| UClearAll.

Definition run_update (u : update) : M BitSet unit :=
  match u with
  | USet i => BitSet_set i
  | UClear i => BitSet_clear i
  | USetValue i value => BitSet_set_value i value
  | UFlip i => BitSet_flip i
  | USetRange lo hi => BitSet_set_range lo hi
  | UClearRange lo hi => BitSet_clear_range lo hi
  | USetRangeValue lo hi value => BitSet_set_range_value lo hi value
  | UFlipRange lo hi => BitSet_flip_range lo hi
  | UClearAll => BitSet_clear_all
  end.

(** The indices the operation names: empty for [lo = hi]; refused when negative or
    out of order. *)
Definition accepts (u : update) : bool :=
  match u with
  | USet i | UClear i | USetValue i _ | UFlip i => 0 <=? i
  | USetRange lo hi | UClearRange lo hi | USetRangeValue lo hi _ | UFlipRange lo hi => (0 <=? lo) && (lo <=? hi)
  | UClearAll => true
  end.
Definition within (lo hi j : Z) : bool := (lo <=? j) && (j <? hi).

(** What becomes of element [j], which was [b]. *)
Definition effect (u : update) (j : Z) (b : bool) : bool :=
  match u with
  | USet i => (j =? i) || b
  | UClear i => negb (j =? i) && b
  | USetValue i value => if j =? i then value else b
  | UFlip i => xorb (j =? i) b
  | USetRange lo hi => within lo hi j || b
  | UClearRange lo hi => negb (within lo hi j) && b
  | USetRangeValue lo hi value => if within lo hi j then value else b
  | UFlipRange lo hi => xorb (within lo hi j) b
  | UClearAll => false
  end.

Lemma bad_range_spec lo hi : bad_range lo hi = negb ((0 <=? lo) && (lo <=? hi)).
Proof. unfold bad_range. lia. Qed.

Lemma within_empty lo j : within lo lo j = false.
Proof. unfold within. lia. Qed.

(** The outcome every accepted update has. *)
Definition updates (s : BitSet) (m : M BitSet unit) (e : Z -> bool -> bool) : Prop :=
  exists s', m s = (Ok tt, s') /\ wf s' /\ exact s' /\ forall j, 0 <= j -> bit s' j = e j (bit s j).

Lemma updates_weaken s m e : exact s ->
  (exists s', m s = (Ok tt, s') /\ wf s' /\ (exact s -> exact s') /\ forall j, 0 <= j -> bit s' j = e j (bit s j)) ->
  updates s m e.
Proof. intros He (s' & E & Hw & Hx & Hb). exists s'. auto. Qed.

Lemma updates_ext s m e e' : updates s m e -> (forall j b, e j b = e' j b) -> updates s m e'.
Proof. intros (s' & E & Hw & Hx & Hb) He. exists s'. split_and!; try done. intros j Hj. by rewrite Hb, He. Qed.

Lemma updates_none s (m : M BitSet unit) e : wf s -> exact s -> m s = (Ok tt, s) ->
  (forall j b, e j b = b) -> updates s m e.
Proof. intros Hw Hx E He. exists s. split_and!; try done. Qed.

Lemma set_range_updates s lo hi : wf s -> exact s -> 0 <= lo <= hi ->
  updates s (BitSet_set_range lo hi) (fun j b => within lo hi j || b).
Proof.
  intros Hw Hx Hr. destruct (Z.eqb_spec lo hi) as [->|N].
  - apply updates_none; [done|done| |intros; by rewrite within_empty].
    unfold BitSet_set_range, bad_range. by zcmp.
  - apply (updates_weaken _ _ _ Hx), set_range_ok; [done|lia].
Qed.

Lemma flip_range_updates s lo hi : wf s -> exact s -> 0 <= lo <= hi ->
  updates s (BitSet_flip_range lo hi) (fun j b => xorb (within lo hi j) b).
Proof.
  intros Hw Hx Hr. destruct (Z.eqb_spec lo hi) as [->|N].
  - apply updates_none; [done|done| |intros; by rewrite within_empty].
    unfold BitSet_flip_range, bad_range. by zcmp.
  - apply flip_range_ok; [done|lia].
Qed.

Lemma clear_range_updates s lo hi : wf s -> exact s -> fits s -> 0 <= lo <= hi ->
  updates s (BitSet_clear_range lo hi) (fun j b => negb (within lo hi j) && b).
Proof. intros Hw Hx Hf Hr. by apply (updates_weaken _ _ _ Hx), clear_range_ok. Qed.

(** An update of [BitSet] on a well-formed set: negative or reversed indices throw
    IndexOutOfBoundsException and leave the set as it was; otherwise the update returns,
    its effect on every element is the one its name says, the representation stays
    well formed and [isLengthActual] keeps its promise. The array grows when it has to. *)
Theorem bitset_updates u s : wf s -> exact s -> fits s ->
  if accepts u then updates s (run_update u) (effect u)
  else run_update u s = (Throw IndexOutOfBoundsException, s).
Proof.
  intros Hw Hx Hf. destruct (accepts u) eqn:Ha.
  - destruct u as [i|i|i [|]|i|lo hi|lo hi|lo hi [|]|lo hi|]; cbn [accepts run_update effect BitSet_set_value
      BitSet_set_range_value] in *; rewrite ?andb_true_iff, ?Z.leb_le in Ha.
    + by apply (updates_weaken _ _ _ Hx), set_ok.
    + by apply (updates_weaken _ _ _ Hx), clear_ok.
    + eapply updates_ext; [by apply (updates_weaken _ _ (fun j b => (j =? i) || b) Hx), set_ok|].
      intros j b. cbn. by destruct (j =? i), b.
    + eapply updates_ext; [by apply (updates_weaken _ _ (fun j b => negb (j =? i) && b) Hx), clear_ok|].
      intros j b. cbn. by destruct (j =? i), b.
    + by apply flip_ok.
    + by apply set_range_updates.
    + by apply clear_range_updates.
    + eapply updates_ext; [by apply set_range_updates|]. intros j b. cbn. by destruct (within lo hi j), b.
    + eapply updates_ext; [by apply clear_range_updates|]. intros j b. cbn. by destruct (within lo hi j), b.
    + by apply flip_range_updates.
    + by apply (updates_weaken _ _ _ Hx), clear_all_ok.
  - destruct u as [i|i|i [|]|i|lo hi|lo hi|lo hi [|]|lo hi|]; cbn [accepts] in Ha; try done;
      cbn [run_update BitSet_set_value BitSet_set_range_value];
      rewrite ?Z.leb_gt in Ha;
      first [ unfold BitSet_set_range, BitSet_clear_range, BitSet_flip_range; by rewrite bad_range_spec, Ha
            | unfold BitSet_set, BitSet_clear, BitSet_flip; by zcmp ].
Qed.

Example updates_run :
  let m := run_update (USetRange 3 70) ;;; run_update (UFlip 69) ;;; run_update (UClear 3) ;;; run_update (UFlipRange 68 200) in
  let '(r, s) := m BitSet_new in
  r = Ok tt /\ actualArrayLength s = 4 /\ bit s 68 = false /\ bit s 69 = true /\ bit s 199 = true /\ bit s 3 = false.
Proof. vm_compute. repeat split. Qed.

Lemma new_ok : wf BitSet_new /\ exact BitSet_new /\ fits BitSet_new /\ forall j, bit BitSet_new j = false.
Proof.
  split_and!; [|by intros _|done|].
  - split; cbn; try done.
    + by repeat constructor.
    + intros k _. by destruct (Z.to_nat k) as [|[|n]] eqn:E; unfold nth_word; rewrite E.
  - intros j. unfold bit, bit_of, nth_word. cbn.
    destruct (Z.to_nat (j / 64)) as [|[|n]]; apply Z.bits_0.
Qed.

Lemma bitset_updates_witness :
  (if accepts (USetRange 60 70) then updates BitSet_new (run_update (USetRange 60 70)) (effect (USetRange 60 70))
   else run_update (USetRange 60 70) BitSet_new = (Throw IndexOutOfBoundsException, BitSet_new)) /\
  run_update (UClear (-1)) BitSet_new = (Throw IndexOutOfBoundsException, BitSet_new).
Proof.
  destruct new_ok as (Hw & Hx & Hf & _). split.
  - exact (bitset_updates (USetRange 60 70) BitSet_new Hw Hx Hf).
  - exact (bitset_updates (UClear (-1)) BitSet_new Hw Hx Hf).
Defined.

Lemma sized_ok n : 0 <= n -> exists s, BitSet_sized n = Ok s /\ wf s /\ exact s /\ n <= 64 * bitsSize s /\
  forall j, bit s j = false.
Proof.
  intros Hn. unfold BitSet_sized. zcmp. rewrite word_index, word_offset.
  set (k := n / 64 + _). assert (0 <= k /\ n <= 64 * k) as [Hk Hnk]
    by (unfold k; destruct (Z.ltb_spec 0 (n mod 64)); lia).
  assert (forall i, nth_word (replicate (Z.to_nat k) 0) i = 0) as Hz.
  { intros i. unfold nth_word. destruct (_ !! _) eqn:E; [|done]. by apply lookup_replicate in E as [-> _]. }
  eexists. split; [done|]. split_and!; [split; cbn|by intros _|done|]; try done.
  - apply Forall_replicate. by vm_compute.
  - unfold zlen. rewrite length_replicate. lia.
  - intros j. unfold bit, bit_of. cbn. rewrite Hz. apply Z.bits_0.
Qed.

(** ** What the queries answer *)

(** The queries of a well-formed set, none of which changes an element: [get] is
    membership; [nextSetBit] and [nextClearBit] find the first element and the first gap
    from an index on, -1 standing for no element; [length] is one more than the last
    element; [isEmpty] and [cardinality] count what [get] shows. *)
Theorem bitset_scans s i : wf s -> fits s -> bitsSize s < 2 ^ 25 -> 0 <= i ->
  BitSet_get i s = (Ok (bit s i), s) /\
  (exists r, BitSet_nextSetBit i s = (Ok r, s) /\
    ((r = -1 /\ forall j, i <= j -> bit s j = false) \/
     (i <= r /\ bit s r = true /\ forall j, i <= j < r -> bit s j = false))) /\
  (exists r, BitSet_nextClearBit i s = (Ok r, s) /\
    i <= r /\ bit s r = false /\ forall j, i <= j < r -> bit s j = true) /\
  (exists n s', BitSet_length s = (Ok n, s') /\ wf s' /\ exact s' /\
    (forall j, 0 <= j -> bit s' j = bit s j) /\
    0 <= n /\ (forall j, n <= j -> bit s j = false) /\ (0 < n -> bit s (n - 1) = true)) /\
  (exists b, BitSet_isEmpty s = (Ok b, s) /\ (b = true <-> forall j, 0 <= j -> bit s j = false)) /\
  BitSet_cardinality s = (Ok (count (bit s) 0 (64 * Z.to_nat (bitsSize s))), s) /\
  forall j, 64 * bitsSize s <= j -> bit s j = false.
Proof.
  intros Hwf Hfit Hsize Hi. split_and!.
  - by apply get_ok.
  - by apply nextSetBit_ok.
  - by apply nextClearBit_ok.
  - by apply length_ok.
  - by apply isEmpty_ok.
  - by apply cardinality_ok.
  - intros j Hj. pose proof (wf_actual s Hwf). apply bit_beyond; [done|lia..].
Qed.

Lemma bitset_scans_witness :
  exists s, wf s /\ bit s 70 = true /\
  (exists r, BitSet_nextSetBit 3 s = (Ok r, s) /\
    ((r = -1 /\ forall j, 3 <= j -> bit s j = false) \/
     (3 <= r /\ bit s r = true /\ forall j, 3 <= j < r -> bit s j = false))).
Proof.
  exists (mkBitSet [0; 64] 2 true 2 true).
  assert (wf (mkBitSet [0; 64] 2 true 2 true)) as Hwf.
  { split; cbn; try done; [repeat constructor; by vm_compute|].
    intros k Hk. apply nth_word_beyond. by cbn. }
  split; [exact Hwf|]. split; [reflexivity|].
  refine (proj1 (proj2 (bitset_scans _ 3 Hwf _ _ _))); cbn; unfold fits; cbn; lia.
Defined.

(** Beyond the room of the first set lies no element of the second. *)
Definition has_room (s t : BitSet) : Prop := forall j, 64 * bitsSize s <= j -> bit t j = false.

Lemma merged_room f s t s' t' : wf s -> exact t -> has_room s t -> merged f s t s' t' ->
  actualArrayLength t' <= bitsSize s.
Proof.
  intros Hs Het Hroom (Ht' & Hlast & Hbits & _). pose proof (wf_actual t' Ht') as Ha. pose proof (wf_actual s Hs).
  destruct (Z.leb_spec (actualArrayLength t') (bitsSize s)) as [|Hlt]; [done|exfalso].
  destruct (nonzero_bit _ (nth_word_range _ (actualArrayLength t' - 1) (wf_words t' Ht')) (Hlast Het ltac:(lia)))
    as (j & Hj & Hb).
  specialize (Hroom (64 * (actualArrayLength t' - 1) + j) ltac:(lia)). rewrite <- Hbits in Hroom.
  unfold bit in Hroom. rewrite bit_of_word in Hroom by lia. congruence.
Qed.

(** The operations of two well-formed sets are those of sets of indices: intersection,
    difference, union and symmetric difference, equality and overlap, the second set
    keeping its elements; the last two merge into a well-formed set as long as
    the first has words for every element of the second. *)
Theorem bitset_algebra s t : wf s -> wf t -> exact s -> exact t ->
  (exists s', BitSet_AND (s, t) = (Ok tt, (s', t)) /\ wf s' /\ exact s' /\
    forall j, 0 <= j -> bit s' j = bit s j && bit t j) /\
  (exists s', BitSet_andNot (s, t) = (Ok tt, (s', t)) /\ wf s' /\ exact s' /\
    forall j, 0 <= j -> bit s' j = bit s j && negb (bit t j)) /\
  (exists b, BitSet_equals (s, t) = (Ok b, (s, t)) /\ (b = true <-> forall j, 0 <= j -> bit s j = bit t j)) /\
  (exists b, BitSet_intersects (s, t) = (Ok b, (s, t)) /\
    (b = false <-> forall j, 0 <= j -> bit s j && bit t j = false)) /\
  (has_room s t -> exists s' t', BitSet_OR (s, t) = (Ok tt, (s', t')) /\ wf s' /\ exact s' /\ wf t' /\
    (forall j, bit t' j = bit t j) /\ forall j, 0 <= j -> bit s' j = bit s j || bit t j) /\
  (has_room s t -> exists s' t', BitSet_XOR (s, t) = (Ok tt, (s', t')) /\ wf s' /\ wf t' /\
    (forall j, bit t' j = bit t j) /\ forall j, 0 <= j -> bit s' j = xorb (bit s j) (bit t j)).
Proof.
  intros Hs Ht Hes Het. split_and!.
  - destruct (and_ok s t Hs Ht) as (s' & E & Hw & Hx & Hb). exists s'. auto.
  - destruct (andNot_ok s t Hs Ht) as (s' & E & Hw & Hx & Hb). exists s'. auto.
  - by apply equals_ok.
  - by apply intersects_ok.
  - intros Hroom. destruct (or_ok s t Hs Ht) as (s' & t' & E & Hm & Hx). exists s', t'.
    pose proof (merged_room _ _ _ _ _ Hs Het Hroom Hm) as Hr.
    destruct Hm as (Ht' & _ & Hbt & Hb & _ & _ & _ & Hwf). revert Hwf. zcmp. auto 10.
  - intros Hroom. destruct (xor_ok s t Hs Ht) as (s' & t' & E & Hm). exists s', t'.
    pose proof (merged_room _ _ _ _ _ Hs Het Hroom Hm) as Hr.
    destruct Hm as (Ht' & _ & Hbt & Hb & _ & _ & _ & Hwf). revert Hwf. zcmp. auto 10.
Qed.

Lemma bitset_algebra_witness :
  exists s t, wf s /\ wf t /\ exact s /\ exact t /\ has_room s t /\ bit t 1 = true /\
  (has_room s t -> exists s' t', BitSet_XOR (s, t) = (Ok tt, (s', t')) /\ wf s' /\ wf t' /\
    (forall j, bit t' j = bit t j) /\ forall j, 0 <= j -> bit s' j = xorb (bit s j) (bit t j)).
Proof.
  set (w v := mkBitSet [v] 1 true 1 true).
  assert (forall v, in_u 64 v -> v <> 0 -> wf (w v) /\ exact (w v)) as Hw.
  { intros v Hv Hz. split; [|by intros _ _]. split; cbn; try done; [by constructor|].
    intros k Hk. by apply nth_word_beyond. }
  destruct (Hw 5 ltac:(by vm_compute) ltac:(done)) as [H1 H2].
  destruct (Hw 3 ltac:(by vm_compute) ltac:(done)) as [H3 H4].
  exists (w 5), (w 3). do 4 (split; [assumption|]). split; [|split; [reflexivity|]].
  - intros j Hj. apply bit_beyond; [done| |]; cbn in *; lia.
  - apply (bitset_algebra _ _ H1 H3 H2 H4).
Defined.

(** A set that lies beyond the room of the first. *)
Definition outgrows (s t : BitSet) : Prop := exists j, 64 * bitsSize s <= j /\ bit t j = true.

Lemma merged_outgrown f s t s' t' : wf s -> outgrows s t -> merged f s t s' t' ->
  bitsSize s < actualArrayLength s' /\ actualArrayLength s' = zlen (bits s').
Proof.
  intros Hs (j & Hj & Hb) (Ht' & _ & Hbits & _ & _ & _ & Hsize & Hcase).
  pose proof (wf_actual s Hs). rewrite <- Hbits in Hb.
  destruct (Z.leb_spec (actualArrayLength t') (bitsSize s)).
  - by rewrite (bit_beyond t') in Hb by (done || lia).
  - lia.
Qed.

(** Only the words that [bitsSize] counts. *)
Lemma isEmpty_words s : Forall (in_u 64) (bits s) -> needClear s = true -> 0 <= bitsSize s <= zlen (bits s) ->
  exists b, BitSet_isEmpty s = (Ok b, s) /\
    (b = true <-> forall j, 0 <= j < 64 * bitsSize s -> bit s j = false).
Proof.
  intros Hw Hn Hsize. unfold BitSet_isEmpty. rewrite bind_get, Hn. cbn [negb].
  destruct (skip_words_ok (fun w => w =? 0) (Z.to_nat (bitsSize s)) 0 s) as (k & Ek & Hk & Hskip & Hstop); [lia|lia|].
  rewrite (bind_ok _ _ _ _ _ Ek). eexists. split; [done|]. rewrite Z.eqb_eq. split.
  - intros -> j Hj. unfold bit, bit_of. specialize (Hskip (j / 64) ltac:(lia)).
    apply Z.eqb_eq in Hskip. rewrite Hskip. apply Z.bits_0.
  - intros Hz. destruct (Z.eqb_spec k (bitsSize s)); [done|].
    specialize (Hstop ltac:(lia)). apply Z.eqb_neq in Hstop.
    destruct (nonzero_bit _ (nth_word_range _ k Hw) Hstop) as (j & Hj & Hb').
    specialize (Hz (64 * k + j) ltac:(lia)). unfold bit in Hz. by rewrite bit_of_word, Hb' in Hz by lia.
Qed.

Lemma grow_undefined s i : 0 <= i -> bitsSize s <= i / 64 ->
  Z.max (i / 64 + 1) (s32 (bitsSize s * 2)) < actualArrayLength s -> BitSet_set i s = (UB, s).
Proof.
  intros Hi Hout Hsmall. unfold BitSet_set. zcmp. rewrite word_index. unfold make_room, ensureCapacity, bind.
  cbn. zcmp. cbn. unfold new_bits. by zcmp.
Qed.

(** OR with a set that has elements beyond the words of the first replaces the array
    but not [bitsSize]: the union is there element by element, yet [isEmpty] sees only
    the old words, and a later [set] just beyond them copies more words than it
    allocated. XOR does the same. *)
Theorem bitset_or_outgrown s t i : wf s -> wf t -> outgrows s t ->
  exists s' t', BitSet_OR (s, t) = (Ok tt, (s', t')) /\
    (forall j, 0 <= j -> bit s' j = bit s j || bit t j) /\
    bitsSize s' = bitsSize s /\ bitsSize s' < actualArrayLength s' /\
    (exists b, BitSet_isEmpty s' = (Ok b, s') /\
      (b = true <-> forall j, 0 <= j < 64 * bitsSize s -> bit s' j = false)) /\
    (0 <= i -> bitsSize s <= i / 64 ->
      Z.max (i / 64 + 1) (s32 (bitsSize s * 2)) < actualArrayLength s' -> BitSet_set i s' = (UB, s')).
Proof.
  intros Hs Ht Hout. destruct (or_ok s t Hs Ht) as (s' & t' & E & Hm & _). exists s', t'.
  destruct (merged_outgrown _ _ _ _ _ Hs Hout Hm) as [Hlt Hlen].
  destruct Hm as (_ & _ & _ & Hb & Hw & Hn & Hsize & _). pose proof (wf_actual s Hs).
  split_and!; [done|done|done|lia| |].
  - rewrite <- Hsize. apply isEmpty_words; [done|done|lia].
  - intros. apply grow_undefined; rewrite ?Hsize; done.
Qed.

(** Words 0 and 4 after the union with the set of element 256: reported empty, and
    setting element 64 runs off the new array. *)
Lemma bitset_or_outgrown_witness :
  exists s t, outgrows s t /\ exists s' t', BitSet_OR (s, t) = (Ok tt, (s', t')) /\ bit s' 256 = true /\
    BitSet_isEmpty s' = (Ok true, s') /\ BitSet_set 64 s' = (UB, s').
Proof.
  exists BitSet_new, (mkBitSet [0; 0; 0; 0; 1] 5 true 5 true).
  assert (outgrows BitSet_new (mkBitSet [0; 0; 0; 0; 1] 5 true 5 true)) as Ho by (by exists 256).
  assert (wf (mkBitSet [0; 0; 0; 0; 1] 5 true 5 true)) as Ht.
  { split; cbn; try done; [repeat constructor; by vm_compute|]. intros k Hk. by apply nth_word_beyond. }
  split; [exact Ho|].
  destruct (bitset_or_outgrown _ _ 64 (proj1 new_ok) Ht Ho) as (s' & t' & E & Hb & Hn & _).
  exists s', t'. vm_compute in E. injection E as <- <-. repeat split.
Defined.

(** [get(from, to)] of a well-formed set: the elements of the range moved down by
    [from], in a well-formed set of its own, whatever the alignment of the range to words. *)
Theorem bitset_slice s lo hi : wf s -> fits s ->
  if (0 <=? lo) && (lo <=? hi)
  then exists r, BitSet_get_range lo hi s = (Ok r, s) /\ wf r /\ exact r /\
    forall j, 0 <= j -> bit r j = (lo + j <? hi) && bit s (lo + j)
  else BitSet_get_range lo hi s = (Throw IndexOutOfBoundsException, s).
Proof.
  intros Hwf Hfit. destruct (_ && _) eqn:E.
  - apply get_range_ok; [done|done|lia].
  - unfold BitSet_get_range. by rewrite bad_range_spec, E.
Qed.

Lemma bitset_slice_witness :
  exists s, wf s /\ exists r, BitSet_get_range 60 69 s = (Ok r, s) /\ bit r 4 = true /\ bit r 9 = false.
Proof.
  set (s := mkBitSet [0; 0x21] 2 true 2 true).
  assert (wf s) as Hwf.
  { split; cbn; try done; [repeat constructor; by vm_compute|]. intros k Hk. by apply nth_word_beyond. }
  exists s. split; [exact Hwf|].
  destruct (bitset_slice s 60 69 Hwf) as (r & E & _ & _ & Hb); [unfold fits; cbn; lia|].
  exists r. split; [exact E|]. split; rewrite Hb; reflexivity || lia.
Defined.

(** The symmetric difference of a set with an equal one has no element, but keeps its
    length and its claim on it: comparing it with an empty set answers false. *)
Example xor_keeps_length :
  let s := mkBitSet [5] 1 true 1 true in
  let '(_, (d, _)) := BitSet_XOR (s, s) in
  BitSet_isEmpty d = (Ok true, d) /\ fst (BitSet_equals (d, BitSet_new)) = Ok false.
Proof. vm_compute. repeat split. Qed.
