(* ===== verification/DispatchChannel.v ===== *)
(** * Message dispatch channels (activemq/core): where messages wait for a consumer.

    [MessageDispatchChannel] is the interface of MessageDispatchChannel.h and
    [ChannelLaws] what its users rely on: the messages of a channel are a list,
    ordered by [rank], in which [enqueue] puts a message behind its equals and
    [enqueueFirst] before them, and from which [dequeueNoWait] takes the first.
    The two channels of the client implement it: [Fifo] (one rank) and
    [SimplePriority] (a list per priority). A LinkedList is a list here. [clear] is not among
    the laws, since that of [SimplePriority] leaves its counter as it was; a sequence of calls
    on either channel, [clear] included, is compared with a list at the end. *)
From S2P Require Import Prelude.

Class MessageDispatchChannel (C D : Type) : Type := {
  enqueue : D -> C -> C;
  enqueueFirst : D -> C -> C;
  isEmpty : C -> bool;
  isClosed : C -> bool;
  isRunning : C -> bool;
  dequeueNoWait : C -> option D * C;
  peek : C -> option D;
  start : C -> C;
  stop : C -> C;
  close : C -> C;
  size : C -> Z;
  removeAll : C -> list D * C;
  clear : C -> C;
}.

(** ** What a channel promises *)

(** Into a list ordered by falling rank: behind every element of the same rank, and
    before every one. *)
Fixpoint insert_back {D} (rank : D -> Z) (d : D) (l : list D) : list D :=
  match l with
  | [] => [d]
  | x :: l' => if rank x <? rank d then d :: l else x :: insert_back rank d l'
  end.
Fixpoint insert_front {D} (rank : D -> Z) (d : D) (l : list D) : list D :=
  match l with
  | [] => [d]
  | x :: l' => if rank x <=? rank d then d :: l else x :: insert_front rank d l'
  end.

(** A channel delivers when it runs and is not closed. *)
Definition delivers {C D} `{MessageDispatchChannel C D} (c : C) : bool := negb (isClosed c) && isRunning c.

Class ChannelLaws (C D : Type) `{MessageDispatchChannel C D} : Type := {
  rank : D -> Z;
  contents : C -> list D;
  channel_ok : C -> Prop;
  contents_enqueue d c : channel_ok c -> contents (enqueue d c) = insert_back rank d (contents c);
  contents_enqueueFirst d c : channel_ok c -> contents (enqueueFirst d c) = insert_front rank d (contents c);
  isEmpty_contents c : channel_ok c -> isEmpty c = true <-> contents c = [];
  size_contents c : channel_ok c -> size c = zlen (contents c);
  dequeue_contents c : channel_ok c -> delivers c = true ->
    (dequeueNoWait c).1 = head (contents c) /\ contents (dequeueNoWait c).2 = tail (contents c);
  dequeue_idle c : delivers c = false -> dequeueNoWait c = (None, c);
  peek_dequeue c : peek c = (dequeueNoWait c).1;
  removeAll_contents c : channel_ok c -> (removeAll c).1 = contents c /\ contents (removeAll c).2 = [];
  contents_control c : contents (start c) = contents c /\ contents (stop c) = contents c /\ contents (close c) = contents c;
  running_start c : isRunning (start c) = (if isClosed c then isRunning c else true) /\ isClosed (start c) = isClosed c;
  running_stop c : isRunning (stop c) = false /\ isClosed (stop c) = isClosed c;
  running_close c : isClosed (close c) = true /\ isRunning (close c) = if isClosed c then isRunning c else false;
  flags_kept d c : isRunning (enqueue d c) = isRunning c /\ isClosed (enqueue d c) = isClosed c /\
    isRunning (enqueueFirst d c) = isRunning c /\ isClosed (enqueueFirst d c) = isClosed c;
  flags_taken c : isRunning (dequeueNoWait c).2 = isRunning c /\ isClosed (dequeueNoWait c).2 = isClosed c /\
    isRunning (removeAll c).2 = isRunning c /\ isClosed (removeAll c).2 = isClosed c;
  ok_enqueue d c : channel_ok c -> channel_ok (enqueue d c) /\ channel_ok (enqueueFirst d c);
  ok_dequeue c : channel_ok c -> channel_ok (dequeueNoWait c).2 /\ channel_ok (removeAll c).2;
  ok_control c : channel_ok c -> channel_ok (start c) /\ channel_ok (stop c) /\ channel_ok (close c);
}.

(** ** Blocking

    [dequeue(timeout)] waits for the channel to change. What happens to the channel
    while a thread waits is an argument: the changes [env] that wake it, in order. *)
Section blocking.
Context {C D : Type} `{MessageDispatchChannel C D}.

Definition blocked (c : C) : bool := negb (isClosed c) && (isEmpty c || negb (isRunning c)).

(** [while (...) channel.wait();] *)
Fixpoint wait_ready (env : list (C -> C)) : M C unit :=
  c <- get ;;
  if blocked c then
    match env with [] => hang | f :: env' => modify f ;;; wait_ready env' end
  else ret tt.

(** One timed wait: it ends with a notification or with the time. *)
Definition wait_once (env : list (C -> C)) : M C unit :=
  c <- get ;;
  if blocked c then match env with [] => ret tt | f :: _ => modify f end else ret tt.

Definition dequeue (timeout : Z) (env : list (C -> C)) : M C (option D) :=
  (if timeout =? 0 then ret tt else if timeout =? -1 then wait_ready env else wait_once env) ;;;
  fun c => let '(d, c') := dequeueNoWait c in (Ok d, c').
End blocking.

(** ** FifoMessageDispatchChannel *)

Record Fifo (D : Type) : Type := mkFifo { fifo_closed : bool; fifo_running : bool; fifo_channel : list D }.
Arguments mkFifo {D} _ _ _.
Arguments fifo_closed {D} _.
Arguments fifo_running {D} _.
Arguments fifo_channel {D} _.

Section fifo.
Context {D : Type}.
Implicit Types (c : Fifo D).

Definition Fifo_new : Fifo D := mkFifo false false [].

Definition fifo_with (l : list D) c : Fifo D := mkFifo (fifo_closed c) (fifo_running c) l.
Definition fifo_isEmpty c : bool := match fifo_channel c with [] => true | _ => false end.

(** [pollFirst] *)
Definition fifo_dequeueNoWait c : option D * Fifo D :=
  if fifo_closed c || negb (fifo_running c) || fifo_isEmpty c then (None, c)
  else match fifo_channel c with [] => (None, c) | d :: l => (Some d, fifo_with l c) end.

Definition fifo_peek c : option D :=
  if fifo_closed c || negb (fifo_running c) || fifo_isEmpty c then None else head (fifo_channel c).

Definition fifo_clear c : Fifo D := fifo_with [] c.

#[export] Instance Fifo_channel : MessageDispatchChannel (Fifo D) D := {
  enqueue d c := fifo_with (fifo_channel c ++ [d]) c;
  enqueueFirst d c := fifo_with (d :: fifo_channel c) c;
  isEmpty := fifo_isEmpty;
  isClosed := fifo_closed;
  isRunning := fifo_running;
  dequeueNoWait := fifo_dequeueNoWait;
  peek := fifo_peek;
  start c := if fifo_closed c then c else mkFifo (fifo_closed c) true (fifo_channel c);
  stop c := mkFifo (fifo_closed c) false (fifo_channel c);
  close c := if fifo_closed c then c else mkFifo true false (fifo_channel c);
  size c := zlen (fifo_channel c);
  removeAll c := (fifo_channel c, fifo_with [] c);
  clear := fifo_clear;
}.
End fifo.

(** ** SimplePriorityMessageDispatchChannel *)

Record SimplePriority (D : Type) : Type := mkPriority {
  prio_closed : bool; prio_running : bool; channels : list (list D); enqueued : Z }.
Arguments mkPriority {D} _ _ _ _.
Arguments prio_closed {D} _.
Arguments prio_running {D} _.
Arguments channels {D} _.
Arguments enqueued {D} _.

Definition MAX_PRIORITIES : nat := 10.

Section priority.
Context {D : Type}.
(** [getMessage()->getPriority()], an unsigned char, [DEFAULT_MSG_PRIORITY] without a
    message. *)
Variable getPriority : D -> Z.
Hypothesis getPriority_range : forall d, 0 <= getPriority d.
Implicit Types (c : SimplePriority D).

Definition SimplePriority_new : SimplePriority D := mkPriority false false (replicate MAX_PRIORITIES []) 0.

(** The index of the list of a message: its priority, 9 at most. *)
Definition getChannel (d : D) : nat := Z.to_nat (Z.min (getPriority d) 9).

Definition with_channels (chs : list (list D)) (n : Z) c : SimplePriority D :=
  mkPriority (prio_closed c) (prio_running c) chs n.

Definition prio_enqueue (d : D) c : SimplePriority D :=
  with_channels (alter (fun l => l ++ [d]) (getChannel d) (channels c)) (enqueued c + 1) c.
Definition prio_enqueueFirst (d : D) c : SimplePriority D :=
  with_channels (alter (cons d) (getChannel d) (channels c)) (enqueued c + 1) c.

Definition prio_isEmpty c : bool := enqueued c =? 0.

(** [for (i = MAX_PRIORITIES - 1; i >= 0; i--) if (!channels[i].isEmpty()) pop], from
    the list [n - 1] down. *)
Fixpoint pop_highest (n : nat) (chs : list (list D)) : option (D * list (list D)) :=
  match n with
  | O => None
  | Datatypes.S n' =>
      match chs !! n' with
      | Some (d :: l) => Some (d, <[n' := l]> chs)
      | _ => pop_highest n' chs
      end
  end.

Definition removeFirst c : option D * SimplePriority D :=
  if 0 <? enqueued c then
    match pop_highest MAX_PRIORITIES (channels c) with
    | Some (d, chs) => (Some d, with_channels chs (enqueued c - 1) c)
    | None => (None, c)
    end
  else (None, c).

Definition prio_getFirst c : option D :=
  if 0 <? enqueued c then option_map fst (pop_highest MAX_PRIORITIES (channels c)) else None.

Definition prio_dequeueNoWait c : option D * SimplePriority D :=
  if prio_closed c || negb (prio_running c) || prio_isEmpty c then (None, c) else removeFirst c.

Definition prio_peek c : option D :=
  if prio_closed c || negb (prio_running c) || prio_isEmpty c then None else prio_getFirst c.

(** One list after the other, the highest first; [enqueued] goes down by each length. *)
Fixpoint drain (n : nat) (chs : list (list D)) (count : Z) : list D * list (list D) * Z :=
  match n with
  | O => ([], chs, count)
  | Datatypes.S n' =>
      let l := default [] (chs !! n') in
      let '(rest, chs', count') := drain n' (<[n' := []]> chs) (count - zlen l) in
      (l ++ rest, chs', count')
  end.

Definition prio_removeAll c : list D * SimplePriority D :=
  let '(l, chs, n) := drain MAX_PRIORITIES (channels c) (enqueued c) in (l, with_channels chs n c).

(** [clear()] leaves [enqueued] as it was. *)
Definition prio_clear c : SimplePriority D :=
  with_channels (fmap (fun _ => []) (channels c)) (enqueued c) c.

#[export] Instance Priority_channel : MessageDispatchChannel (SimplePriority D) D := {
  enqueue := prio_enqueue;
  enqueueFirst := prio_enqueueFirst;
  isEmpty := prio_isEmpty;
  isClosed := prio_closed;
  isRunning := prio_running;
  dequeueNoWait := prio_dequeueNoWait;
  peek := prio_peek;
  start c := if prio_closed c then c else mkPriority (prio_closed c) true (channels c) (enqueued c);
  stop c := mkPriority (prio_closed c) false (channels c) (enqueued c);
  close c := if prio_closed c then c else mkPriority true false (channels c) (enqueued c);
  size := enqueued;
  removeAll := prio_removeAll;
  clear := prio_clear;
}.

(** *** The messages of the lists, the highest priority first *)

Definition prio_contents c : list D := concat (reverse (channels c)).
Definition prio_rank (d : D) : Z := Z.min (getPriority d) 9.

(** A message is in the list of its priority, and [enqueued] counts them all. *)
Record prio_ok c : Prop := {
  prio_lists : length (channels c) = MAX_PRIORITIES;
  prio_sorted : forall i l, channels c !! i = Some l -> Forall (fun d => getChannel d = i) l;
  prio_count : enqueued c = zlen (prio_contents c);
}.

Lemma contents_split (chs : list (list D)) i l : chs !! i = Some l ->
  concat (reverse chs) = concat (reverse (drop (S i) chs)) ++ l ++ concat (reverse (take i chs)).
Proof.
  intros Hi. rewrite <- (take_drop_middle chs i l Hi) at 1.
  rewrite reverse_app, reverse_cons, !concat_app. cbn [concat]. by rewrite app_nil_r, <- app_assoc.
Qed.

Lemma contents_replaced (chs : list (list D)) i l l' : chs !! i = Some l ->
  concat (reverse (<[i := l']> chs)) = concat (reverse (drop (S i) chs)) ++ l' ++ concat (reverse (take i chs)).
Proof.
  intros Hi. rewrite (contents_split _ i l').
  - by rewrite drop_insert_lt, take_insert_ge by lia.
  - rewrite list_lookup_insert_eq; [done|]. by eapply lookup_lt_Some.
Qed.

Lemma alter_replaces (f : list D -> list D) (chs : list (list D)) (i : nat) l : chs !! i = Some l -> alter f i chs = <[i := f l]> chs.
Proof.
  intros Hi. apply list_eq. intros j. destruct (decide (i = j)) as [->|].
  - rewrite list_lookup_alter_eq, list_lookup_insert_eq, Hi; [done|]. by eapply lookup_lt_Some.
  - by rewrite list_lookup_alter_ne, list_lookup_insert_ne.
Qed.

(** The lists of higher and of lower priorities. *)
Lemma sorted_above c i : prio_ok c -> Forall (fun d => (i < getChannel d)%nat) (concat (reverse (drop (S i) (channels c)))).
Proof.
  intros [_ Hs _]. apply Forall_concat, Forall_forall. intros l Hl%list_elem_of_In. rewrite elem_of_reverse in Hl.
  apply list_elem_of_lookup in Hl as [j Hj]. rewrite lookup_drop in Hj.
  apply Hs in Hj. eapply Forall_impl; [|exact Hj]. cbn. lia.
Qed.

Lemma sorted_below c i : prio_ok c -> Forall (fun d => (getChannel d < i)%nat) (concat (reverse (take i (channels c)))).
Proof.
  intros [_ Hs _]. apply Forall_concat, Forall_forall. intros l Hl%list_elem_of_In. rewrite elem_of_reverse in Hl.
  apply list_elem_of_lookup in Hl as [j Hj].
  apply lookup_take_Some in Hj as [Hj ?]. apply Hs in Hj. eapply Forall_impl; [|exact Hj]. cbn. lia.
Qed.

Lemma rank_channel d : prio_rank d = Z.of_nat (getChannel d).
Proof. unfold prio_rank, getChannel. specialize (getPriority_range d). lia. Qed.

Lemma channel_exists c d : prio_ok c -> exists l, channels c !! getChannel d = Some l.
Proof.
  intros [Hl _ _]. apply lookup_lt_is_Some_2. rewrite Hl. unfold getChannel, MAX_PRIORITIES.
  specialize (getPriority_range d). lia.
Qed.

(** The list [i] replaced by another of its messages. *)
Lemma replaced_ok c i l l' : prio_ok c -> channels c !! i = Some l -> Forall (fun d => getChannel d = i) l' ->
  prio_ok (with_channels (<[i := l']> (channels c)) (enqueued c + (zlen l' - zlen l)) c).
Proof.
  intros [Hl Hs Hc] Hi Hl'. split; cbn [channels with_channels enqueued].
  - by rewrite length_insert.
  - intros j k Hj. destruct (decide (i = j)) as [<-|].
    + rewrite list_lookup_insert_eq in Hj by (by eapply lookup_lt_Some). by injection Hj as <-.
    + rewrite list_lookup_insert_ne in Hj by done. by apply Hs.
  - unfold prio_contents in *. cbn [channels with_channels]. rewrite (contents_replaced _ _ _ _ Hi).
    rewrite (contents_split _ _ _ Hi) in Hc. autorewrite with amq_len in *. lia.
Qed.

(** The list a message goes into, between the higher and the lower ones. *)
Lemma insert_back_split d (above l below : list D) :
  Forall (fun x => (getChannel d < getChannel x)%nat) above -> Forall (fun x => getChannel x = getChannel d) l ->
  Forall (fun x => (getChannel x < getChannel d)%nat) below ->
  insert_back prio_rank d (above ++ l ++ below) = above ++ (l ++ [d]) ++ below.
Proof.
  intros Ha Hl Hb. induction Ha as [|x above Hx Ha IH]; cbn [app insert_back].
  - induction Hl as [|x l Hx Hl IH]; cbn [app insert_back].
    + destruct Hb as [|x below Hx Hb]; cbn [insert_back]; [done|].
      by rewrite !rank_channel, (proj2 (Z.ltb_lt _ _)) by lia.
    + rewrite !rank_channel, (proj2 (Z.ltb_ge _ _)) by lia. by rewrite IH.
  - rewrite !rank_channel, (proj2 (Z.ltb_ge _ _)) by lia. by rewrite IH.
Qed.

Lemma insert_front_split d (above l below : list D) :
  Forall (fun x => (getChannel d < getChannel x)%nat) above -> Forall (fun x => getChannel x = getChannel d) l ->
  Forall (fun x => (getChannel x < getChannel d)%nat) below ->
  insert_front prio_rank d (above ++ l ++ below) = above ++ (d :: l) ++ below.
Proof.
  intros Ha Hl Hb. induction Ha as [|x above Hx Ha IH]; cbn [app insert_front].
  - destruct Hl as [|x l Hx Hl]; cbn [app insert_front].
    + destruct Hb as [|x below Hx Hb]; cbn [insert_front]; [done|].
      by rewrite !rank_channel, (proj2 (Z.leb_le _ _)) by lia.
    + by rewrite !rank_channel, (proj2 (Z.leb_le _ _)) by lia.
  - rewrite !rank_channel, (proj2 (Z.leb_gt _ _)) by lia. by rewrite IH.
Qed.

Lemma enqueue_ok c d : prio_ok c ->
  (prio_contents (prio_enqueue d c) = insert_back prio_rank d (prio_contents c) /\ prio_ok (prio_enqueue d c)) /\
  (prio_contents (prio_enqueueFirst d c) = insert_front prio_rank d (prio_contents c) /\
   prio_ok (prio_enqueueFirst d c)).
Proof.
  intros Hok. destruct (channel_exists c d Hok) as [l Hl]. pose proof (prio_sorted _ Hok _ _ Hl) as Hs.
  pose proof (sorted_above c (getChannel d) Hok) as Ha. pose proof (sorted_below c (getChannel d) Hok) as Hb.
  unfold prio_enqueue, prio_enqueueFirst, prio_contents. cbn [channels with_channels].
  rewrite !(alter_replaces _ _ _ _ Hl), !(contents_replaced _ _ _ _ Hl), !(contents_split _ _ _ Hl).
  split; (split; [by rewrite insert_back_split || rewrite insert_front_split|]).
  - replace (enqueued c + 1) with (enqueued c + (zlen (l ++ [d]) - zlen l)) by zlia.
    apply replaced_ok; [done..|]. by apply Forall_app_2, Forall_singleton.
  - replace (enqueued c + 1) with (enqueued c + (zlen (d :: l) - zlen l)) by zlia.
    apply replaced_ok; [done..|]. by constructor.
Qed.

(** ... and the first message of the first list that has one. *)
Lemma pop_highest_spec n (chs : list (list D)) : (n <= length chs)%nat ->
  (forall i l, (n <= i)%nat -> chs !! i = Some l -> l = []) ->
  match pop_highest n chs with
  | Some (d, chs') => exists i l, chs !! i = Some (d :: l) /\ chs' = <[i := l]> chs /\ concat (reverse chs) = d :: concat (reverse chs')
  | None => concat (reverse chs) = []
  end.
Proof.
  induction n as [|n IH]; intros Hn Habove; cbn [pop_highest].
  - induction chs as [|l chs IHc] using rev_ind; [done|]. rewrite reverse_snoc. cbn [concat].
    rewrite (Habove (length chs) l); [|lia|by rewrite list_lookup_middle]. cbn [app]. apply IHc; [cbn; lia|].
    intros i k Hi Hk. apply (Habove i k); [lia|]. by apply lookup_app_l_Some.
  - destruct (lookup_lt_is_Some_2 chs n) as [l Hl]; [lia|]. rewrite Hl.
    destruct l as [|d l].
    + apply IH; [lia|]. intros i k Hi Hk. destruct (decide (i = n)) as [->|]; [congruence|]. apply (Habove i k); [lia|done].
    + exists n, l. split; [done|]. split; [done|].
      rewrite (contents_replaced _ _ _ _ Hl), (contents_split _ _ _ Hl).
      assert (concat (reverse (drop (S n) chs)) = []) as ->; [|done].
      apply concat_nil_Forall, Forall_forall. intros k Hk%list_elem_of_In. rewrite elem_of_reverse in Hk. apply list_elem_of_lookup in Hk.
      destruct Hk as [j Hj]. rewrite lookup_drop in Hj. eapply Habove; [|exact Hj]. lia.
Qed.

Lemma pop_ok c : prio_ok c ->
  match pop_highest MAX_PRIORITIES (channels c) with
  | Some (d, chs) => prio_contents c = d :: concat (reverse chs) /\ prio_ok (with_channels chs (enqueued c - 1) c)
  | None => prio_contents c = []
  end.
Proof.
  intros Hok. pose proof (pop_highest_spec MAX_PRIORITIES (channels c)) as Hp.
  specialize (Hp ltac:(by rewrite (prio_lists _ Hok))).
  destruct (pop_highest _ _) as [[d chs]|].
  - destruct Hp as (i & l & Hi & -> & E).
    { intros i l Hi Hl%lookup_lt_Some. rewrite (prio_lists _ Hok) in Hl. lia. }
    split; [done|]. replace (enqueued c - 1) with (enqueued c + (zlen l - zlen (d :: l))) by zlia.
    apply replaced_ok; [done..|]. apply (prio_sorted _ Hok) in Hi. by inversion Hi.
  - apply Hp. intros i l Hi Hl%lookup_lt_Some. rewrite (prio_lists _ Hok) in Hl. lia.
Qed.

Lemma drain_spec n (chs : list (list D)) count : (n <= length chs)%nat ->
  exists chs', drain n chs count =
      (concat (reverse (take n chs)), chs', count - zlen (concat (reverse (take n chs)))) /\
    length chs' = length chs /\
    (forall i, (i < n)%nat -> chs' !! i = Some []) /\ (forall i, (n <= i)%nat -> chs' !! i = chs !! i).
Proof.
  revert chs count. induction n as [|n IH]; intros chs count Hn; cbn [drain].
  { exists chs. rewrite take_0. split_and!; [|done|lia|done]. do 2 f_equal. zlia. }
  destruct (lookup_lt_is_Some_2 chs n) as [l Hl]; [lia|]. rewrite Hl. cbn [default].
  destruct (IH (<[n:=[]]> chs) (count - zlen l)) as (chs' & E & Hlen & Hlow & Hhigh); [rewrite length_insert; lia|].
  unfold default, from_option, id. rewrite E. exists chs'. rewrite length_insert in Hlen.
  rewrite take_insert_ge by lia. rewrite (take_S_r _ _ _ Hl), reverse_snoc. cbn [concat].
  split_and!; [|done| |].
  - f_equal. autorewrite with amq_len. lia.
  - intros i Hi. destruct (decide (i = n)) as [->|]; [|apply Hlow; lia].
    rewrite Hhigh by lia. by rewrite list_lookup_insert_eq.
  - intros i Hi. rewrite Hhigh by lia. by rewrite list_lookup_insert_ne by lia.
Qed.

Lemma removeAll_ok c : prio_ok c ->
  (prio_removeAll c).1 = prio_contents c /\ prio_contents (prio_removeAll c).2 = [] /\ prio_ok (prio_removeAll c).2.
Proof.
  intros Hok. pose proof (prio_lists _ Hok) as Hl. pose proof (prio_count _ Hok) as Hc. unfold prio_removeAll.
  destruct (drain_spec MAX_PRIORITIES (channels c) (enqueued c)) as (chs & E & Hlen & Hlow & Hhigh); [by rewrite Hl|].
  rewrite E. rewrite take_ge in * by (by rewrite Hl). fold (prio_contents c) in *. cbn [fst snd].
  assert (forall i l, chs !! i = Some l -> l = []) as Hnil.
  { intros i l Hi. assert (i < MAX_PRIORITIES)%nat as Hlt%Hlow by (apply lookup_lt_Some in Hi; lia). congruence. }
  assert (concat (reverse chs) = []) as Hempty.
  { apply concat_nil_Forall, Forall_forall. intros l Hi%list_elem_of_In. rewrite elem_of_reverse in Hi.
    apply list_elem_of_lookup in Hi as [i Hi]. by apply Hnil in Hi. }
  split; [done|]. split; [done|]. split; cbn [channels with_channels enqueued].
  - lia.
  - intros i l Hi%Hnil. by subst.
  - unfold prio_contents at 2. cbn [channels with_channels]. rewrite Hempty, Hc, zlen_nil. lia.
Qed.

Lemma priority_delivers c : @delivers (SimplePriority D) D _ c = true -> prio_closed c = false /\ prio_running c = true.
Proof. unfold delivers. cbn. by destruct (prio_closed c), (prio_running c). Qed.

Lemma prio_isEmpty_contents c : prio_ok c -> prio_isEmpty c = true <-> prio_contents c = [].
Proof.
  intros Hok. unfold prio_isEmpty. rewrite (prio_count _ Hok), Z.eqb_eq. split; [apply zlen_zero|]. by intros ->.
Qed.

Lemma prio_dequeue_ok c : prio_ok c -> prio_closed c = false -> prio_running c = true ->
  (prio_dequeueNoWait c).1 = head (prio_contents c) /\ prio_contents (prio_dequeueNoWait c).2 = tail (prio_contents c) /\
  prio_ok (prio_dequeueNoWait c).2.
Proof.
  intros Hok Hc Hr. unfold prio_dequeueNoWait, removeFirst. rewrite Hc, Hr. cbn [orb negb].
  destruct (prio_isEmpty c) eqn:He.
  - apply (prio_isEmpty_contents c Hok) in He. by rewrite He.
  - pose proof (prio_count _ Hok) as Hn. pose proof (pop_ok c Hok) as Hp. unfold prio_isEmpty in He.
    rewrite (proj2 (Z.ltb_lt 0 _)) by (pose proof (zlen_nonneg (prio_contents c)); lia).
    destruct (pop_highest _ _) as [[d chs]|]; [|by rewrite Hp in *].
    destruct Hp as [-> Hp]. done.
Qed.

Lemma prio_dequeue_flags c : prio_running (prio_dequeueNoWait c).2 = prio_running c /\
  prio_closed (prio_dequeueNoWait c).2 = prio_closed c.
Proof. unfold prio_dequeueNoWait, removeFirst. by repeat case_match. Qed.

Lemma prio_removeAll_flags c : prio_running (prio_removeAll c).2 = prio_running c /\
  prio_closed (prio_removeAll c).2 = prio_closed c.
Proof. unfold prio_removeAll. by repeat case_match. Qed.

Lemma prio_dequeue_keeps_ok c : prio_ok c -> prio_ok (prio_dequeueNoWait c).2.
Proof.
  intros Hok. destruct (prio_closed c) eqn:Hc; [by unfold prio_dequeueNoWait; rewrite Hc|].
  destruct (prio_running c) eqn:Hr; [|by unfold prio_dequeueNoWait; rewrite Hc, Hr].
  by apply prio_dequeue_ok.
Qed.

#[export] Instance Priority_laws : @ChannelLaws (SimplePriority D) D Priority_channel.
Proof.
  refine {| rank := prio_rank; contents := prio_contents; channel_ok := prio_ok |}.
  - intros d c Hok. apply enqueue_ok, Hok.
  - intros d c Hok. apply enqueue_ok, Hok.
  - apply prio_isEmpty_contents.
  - intros c Hok. apply Hok.
  - intros c Hok [Hc Hr]%priority_delivers. destruct (prio_dequeue_ok c Hok Hc Hr) as (? & ? & ?). done.
  - intros c Hd. cbn in *. unfold delivers in Hd. cbn in Hd. unfold prio_dequeueNoWait.
    by destruct (prio_closed c), (prio_running c).
  - intros c. cbn. unfold prio_peek, prio_getFirst, prio_dequeueNoWait, removeFirst. case_match; [done|].
    case_match; [|done]. by destruct (pop_highest _ _) as [[]|].
  - intros c Hok. destruct (removeAll_ok c Hok) as (? & ? & ?). done.
  - intros c. cbn. unfold prio_contents. by case_match.
  - intros c. cbn. by case_match.
  - intros c. by cbn.
  - intros c. cbn. by destruct (prio_closed c) eqn:?; cbn.
  - done.
  - intros c. destruct (prio_dequeue_flags c) as [H1 H2], (prio_removeAll_flags c) as [H3 H4].
    split_and!; exact H1 || exact H2 || exact H3 || exact H4.
  - intros d c Hok. split; apply enqueue_ok, Hok.
  - intros c Hok. split; [by apply prio_dequeue_keeps_ok|]. by apply removeAll_ok.
  - intros c [H1 H2 H3]. cbn. destruct (prio_closed c); split_and!; by split.
Defined.
End priority.

Section fifo_laws.
Context {D : Type}.
Implicit Types (c : Fifo D).

#[export] Instance Fifo_laws : @ChannelLaws (Fifo D) D Fifo_channel.
Proof.
  refine {| rank := fun _ => 0; contents := fifo_channel; channel_ok := fun _ => True |}.
  - intros d c _. cbn. generalize (fifo_channel c). intros l.
    induction l as [|x l IH]; cbn [app insert_back]; [done|]. by rewrite <- IH.
  - intros d c _. cbn. by destruct (fifo_channel c).
  - intros c _. cbn. unfold fifo_isEmpty. by destruct (fifo_channel c).
  - done.
  - intros [cl ru l] _. unfold delivers. cbn. intros Hd. unfold fifo_dequeueNoWait. cbn.
    destruct cl, ru; try done. by destruct l.
  - intros [cl ru l]. unfold delivers. cbn. unfold fifo_dequeueNoWait. cbn. by destruct cl, ru.
  - intros [cl ru l]. cbn. unfold fifo_peek, fifo_dequeueNoWait, fifo_isEmpty. cbn. by destruct cl, ru, l.
  - done.
  - intros c. cbn. by destruct (fifo_closed c).
  - intros c. cbn. by destruct (fifo_closed c) eqn:E.
  - done.
  - intros c. cbn. by destruct (fifo_closed c) eqn:E; cbn.
  - done.
  - intros c. cbn. unfold fifo_dequeueNoWait. case_match; [done|]. by destruct (fifo_channel c).
  - done.
  - done.
  - done.
Defined.
End fifo_laws.

(** ** A channel as the list of its messages *)

Inductive channel_op (D : Type) : Type :=
| Enqueue (d : D) | EnqueueFirst (d : D) | DequeueNoWait | Peek | IsEmpty | Size | RemoveAll | Start | Stop | Close
| IsRunning | IsClosed | Clear.
Arguments Enqueue {D} _.
Arguments EnqueueFirst {D} _.
Arguments DequeueNoWait {D}.
Arguments Peek {D}.
Arguments IsEmpty {D}.
Arguments Size {D}.
Arguments RemoveAll {D}.
Arguments Start {D}.
Arguments Stop {D}.
Arguments Close {D}.
Arguments IsRunning {D}.
Arguments IsClosed {D}.
Arguments Clear {D}.

(** What a thread asks of a channel: an operation, or a [dequeue] with a timeout, during which
    other threads perform [others], a list of operations before each time it is woken. *)
Inductive channel_call (D : Type) : Type := Op (o : channel_op D) | Dequeue (timeout : Z) (others : list (list (channel_op D))).
Arguments Op {D} _.
Arguments Dequeue {D} _ _.

(** The messages an operation answers with, and the number or flag. *)
Definition answer (D : Type) : Type := list D * Z.
Definition of_option {D} (o : option D) : list D := match o with Some d => [d] | None => [] end.

(** The calls of a thread, until one waits for ever. *)
Fixpoint run_calls {D T} (step : channel_call D -> T -> option (answer D * T)) (calls : list (channel_call D)) (s : T) : list (answer D) * option T :=
  match calls with
  | [] => ([], Some s)
  | k :: calls' => match step k s with Some (r, s') => let '(rs, t) := run_calls step calls' s' in (r :: rs, t) | None => ([], None) end
  end.

Section channel_calls.
Context {C D : Type} `{MessageDispatchChannel C D}.

Definition run_op (o : channel_op D) (c : C) : answer D * C :=
  match o with
  | Enqueue d => (([], 0), enqueue d c)
  | EnqueueFirst d => (([], 0), enqueueFirst d c)
  | DequeueNoWait => ((of_option (dequeueNoWait c).1, 0), (dequeueNoWait c).2)
  | Peek => ((of_option (peek c), 0), c)
  | IsEmpty => (([], Z.b2z (isEmpty c)), c)
  | Size => (([], size c), c)
  | RemoveAll => (((removeAll c).1, 0), (removeAll c).2)
  | Start => (([], 0), start c)
  | Stop => (([], 0), stop c)
  | Close => (([], 0), close c)
  | IsRunning => (([], Z.b2z (isRunning c)), c)
  | IsClosed => (([], Z.b2z (isClosed c)), c)
  | Clear => (([], 0), clear c)
  end.
Lemma is_clear (o : channel_op D) : {o = Clear} + {o <> Clear}.
Proof. destruct o; first [left; reflexivity|right; discriminate]. Qed.
Definition run_others (os : list (channel_op D)) (c : C) : C := foldl (fun c o => (run_op o c).2) c os.
Definition run_call (k : channel_call D) (c : C) : option (answer D * C) :=
  match k with
  | Op o => Some (run_op o c)
  | Dequeue timeout others => match dequeue timeout (map run_others others) c with (Ok d, c') => Some ((of_option d, 0), c') | _ => None end
  end.
End channel_calls.

(** The specification: a list ordered by rank, whether it runs and is closed. [a_stale] is what
    the channel counts beyond its messages: nothing, unless [clear] does not count. *)
Record abstract (D : Type) : Type := mkAbstract { a_held : list D; a_stale : Z; a_running : bool; a_closed : bool }.
Arguments mkAbstract {D} _ _ _ _.
Arguments a_held {D} _.
Arguments a_stale {D} _.
Arguments a_running {D} _.
Arguments a_closed {D} _.

Section channel_spec.
Context {D : Type} (rank : D -> Z) (clear_counts : bool).
Implicit Types (a : abstract D).

Definition with_held (l : list D) a : abstract D := mkAbstract l (a_stale a) (a_running a) (a_closed a).
Definition spec_counted a : Z := zlen (a_held a) + a_stale a.
Definition spec_gives a : bool := negb (a_closed a) && a_running a.

Definition run_spec (o : channel_op D) a : answer D * abstract D :=
  match o with
  | Enqueue d => (([], 0), with_held (insert_back rank d (a_held a)) a)
  | EnqueueFirst d => (([], 0), with_held (insert_front rank d (a_held a)) a)
  | DequeueNoWait => if spec_gives a then ((of_option (head (a_held a)), 0), with_held (tail (a_held a)) a) else (([], 0), a)
  | Peek => ((if spec_gives a then of_option (head (a_held a)) else [], 0), a)
  | IsEmpty => (([], Z.b2z (spec_counted a =? 0)), a)
  | Size => (([], spec_counted a), a)
  | RemoveAll => ((a_held a, 0), with_held [] a)
  | Start => (([], 0), if a_closed a then a else mkAbstract (a_held a) (a_stale a) true false)
  | Stop => (([], 0), mkAbstract (a_held a) (a_stale a) false (a_closed a))
  | Close => (([], 0), if a_closed a then a else mkAbstract (a_held a) (a_stale a) false true)
  | IsRunning => (([], Z.b2z (a_running a)), a)
  | IsClosed => (([], Z.b2z (a_closed a)), a)
  | Clear => (([], 0), mkAbstract [] (if clear_counts then a_stale a else spec_counted a) (a_running a) (a_closed a))
  end.

(** A thread waits while the channel is open, and idle or counted empty. *)
Definition spec_waits a : bool := negb (a_closed a) && ((spec_counted a =? 0) || negb (a_running a)).
Definition spec_others (os : list (channel_op D)) a : abstract D := foldl (fun a o => (run_spec o a).2) a os.
Fixpoint spec_wait (others : list (list (channel_op D))) a : option (abstract D) :=
  if spec_waits a then match others with [] => None | os :: others' => spec_wait others' (spec_others os a) end else Some a.
Definition spec_call (k : channel_call D) a : option (answer D * abstract D) :=
  match k with
  | Op o => Some (run_spec o a)
  | Dequeue timeout others =>
      let waited :=
        if timeout =? 0 then Some a
        else if timeout =? -1 then spec_wait others a
        else Some (if spec_waits a then match others with [] => a | os :: _ => spec_others os a end else a) in
      match waited with Some a' => Some (run_spec DequeueNoWait a') | None => None end
  end.
End channel_spec.

(** A channel whose operations do what those of the list do, its calls too. *)
Section calls_refine.
Context {C D : Type} `{MessageDispatchChannel C D} (rank : D -> Z) (clear_counts : bool) (R : C -> abstract D -> Prop).
Hypothesis op_refines : forall o c a, R c a -> (run_op o c).1 = (run_spec rank clear_counts o a).1 /\ R (run_op o c).2 (run_spec rank clear_counts o a).2.

Lemma others_refine os c a : R c a -> R (run_others os c) (spec_others rank clear_counts os a).
Proof.
  revert c a. induction os as [|o os IH]; intros c a HR; [done|]. cbn [run_others spec_others foldl]. apply IH. by apply op_refines.
Qed.
Lemma blocked_waits c a : R c a -> blocked c = spec_waits a.
Proof.
  intros HR. destruct (op_refines IsEmpty c a HR) as [He _], (op_refines IsRunning c a HR) as [Hr _], (op_refines IsClosed c a HR) as [Hc _]. cbn in He, Hr, Hc.
  unfold blocked, spec_waits. assert (forall x y : bool, Z.b2z x = Z.b2z y -> x = y) as Hinj by (by intros [] []). by rewrite (Hinj _ _ ltac:(by injection He)), (Hinj _ _ ltac:(by injection Hr)), (Hinj _ _ ltac:(by injection Hc)).
Qed.
Lemma wait_refines others c a : R c a ->
  match spec_wait rank clear_counts others a with
  | Some a' => exists c', wait_ready (map run_others others) c = (Ok tt, c') /\ R c' a'
  | None => exists c', wait_ready (map run_others others) c = (Hang, c')
  end.
Proof.
  revert c a. induction others as [|os others IH]; intros c a HR; cbn [spec_wait map wait_ready]; rewrite bind_get, (blocked_waits c a HR); destruct (spec_waits a); try (by eexists).
  rewrite bind_modify. apply IH. by apply others_refine.
Qed.

Lemma call_refines k c a : R c a ->
  match spec_call rank clear_counts k a with
  | Some (r, a') => exists c', run_call k c = Some (r, c') /\ R c' a'
  | None => run_call k c = None
  end.
Proof.
  intros HR. destruct k as [o|timeout others]; cbn [spec_call run_call].
  - destruct (op_refines o c a HR) as [H1 H2]. destruct (run_op o c) as [r c'], (run_spec _ _ o a) as [r' a']. cbn in *. subst. by exists c'.
  - assert (forall m c1 a1, R c1 a1 -> m c = (Ok tt, c1) -> let '(r, a') := run_spec rank clear_counts DequeueNoWait a1 in
      exists c', match (m ;;; fun c => let '(d, c') := dequeueNoWait c in (Ok d, c')) c with (Ok d, c') => Some (of_option d, 0, c') | _ => None end = Some (r, c') /\ R c' a') as Htake.
    { intros m c1 a1 HR1 Hm. destruct (op_refines DequeueNoWait c1 a1 HR1) as [H1 H2]. destruct (run_spec _ _ DequeueNoWait a1) as [r a']. unfold bind. rewrite Hm.
      cbn in H1, H2. destruct (dequeueNoWait c1) as [d c2]. cbn in *. subst. by exists c2. }
    unfold dequeue. destruct (timeout =? 0); [|destruct (timeout =? -1)].
    + specialize (Htake (ret tt) c a HR eq_refl). by destruct (run_spec _ _ _ a).
    + pose proof (wait_refines others c a HR) as Hw. destruct (spec_wait _ _ others a) as [a1|].
      * destruct Hw as (c1 & Hw & HR1). specialize (Htake _ c1 a1 HR1 Hw). by destruct (run_spec _ _ _ a1).
      * destruct Hw as (c1 & Hw). unfold bind. by rewrite Hw.
    + set (a1 := if spec_waits a then _ else a). assert (exists c1, wait_once (map run_others others) c = (Ok tt, c1) /\ R c1 a1) as (c1 & Hw & HR1).
      { unfold wait_once, a1. rewrite bind_get, (blocked_waits c a HR). destruct (spec_waits a); [|by exists c]. destruct others as [|os others]; cbn [map]; [by exists c|].
        eexists. split; [done|]. by apply others_refine. }
      specialize (Htake _ c1 a1 HR1 Hw). by destruct (run_spec _ _ _ a1).
Qed.

Lemma calls_refine calls c a : R c a ->
  (run_calls run_call calls c).1 = (run_calls (spec_call rank clear_counts) calls a).1 /\
  match (run_calls run_call calls c).2, (run_calls (spec_call rank clear_counts) calls a).2 with Some c', Some a' => R c' a' | None, None => True | _, _ => False end.
Proof.
  revert c a. induction calls as [|k calls IH]; intros c a HR; [done|]. cbn [run_calls]. pose proof (call_refines k c a HR) as Hk. destruct (spec_call _ _ k a) as [[r a']|].
  - destruct Hk as (c' & -> & HR'). destruct (IH c' a' HR') as [H1 H2]. destruct (run_calls run_call calls c'), (run_calls _ calls a'). cbn in *. by subst.
  - by rewrite Hk.
Qed.
End calls_refine.

Section refinement.
Context {C D : Type} `{ChannelLaws C D}.

(** What the laws of a channel say of its operations, but for [clear]. *)
Definition abs (c : C) : abstract D := mkAbstract (contents c) 0 (isRunning c) (isClosed c).

Lemma run_op_refines b o c : channel_ok c -> o <> Clear ->
  (run_op o c).1 = (run_spec rank b o (abs c)).1 /\ abs (run_op o c).2 = (run_spec rank b o (abs c)).2 /\ channel_ok (run_op o c).2.
Proof.
  intros Hok Hn. pose proof (contents_control c) as (Cs & Ct & Cc).
  destruct (ok_control c Hok) as (Os & Ot & Oc). destruct (ok_dequeue c Hok) as [Od Or]. unfold abs.
  destruct o as [d|d| | | | | | | | | | |]; try done; cbn [run_op run_spec fst snd a_held a_stale a_running a_closed with_held]; unfold spec_gives, spec_counted; cbn [a_held a_stale a_running a_closed].
  - destruct (flags_kept d c) as (-> & -> & _). rewrite contents_enqueue by done. split_and!; try done. by apply ok_enqueue.
  - destruct (flags_kept d c) as (_ & _ & -> & ->). rewrite contents_enqueueFirst by done.
    split_and!; try done. by apply ok_enqueue.
  - destruct (flags_taken c) as (-> & -> & _).
    destruct (delivers c) eqn:E; unfold delivers in E; rewrite E.
    + destruct (dequeue_contents c Hok E) as [-> ->]. done.
    + by rewrite (dequeue_idle c E).
  - rewrite peek_dequeue. destruct (delivers c) eqn:E; unfold delivers in E; rewrite E.
    + by destruct (dequeue_contents c Hok E) as [-> _].
    + by rewrite (dequeue_idle c E).
  - split_and!; [|done..]. do 2 f_equal. rewrite Z.add_0_r. pose proof (isEmpty_contents c Hok) as He. destruct (Z.eqb_spec (zlen (contents c)) 0) as [Hz|Hz].
    + by apply He, zlen_zero.
    + destruct (isEmpty c); [|done]. by rewrite (proj1 He eq_refl) in Hz.
  - rewrite Z.add_0_r. by rewrite size_contents.
  - destruct (removeAll_contents c Hok) as [-> ->]. destruct (flags_taken c) as (_ & _ & -> & ->). by split_and!.
  - destruct (running_start c) as [-> ->]. rewrite Cs. split_and!; [done| |done]. by destruct (isClosed c).
  - destruct (running_stop c) as [-> ->]. rewrite Ct. by split_and!.
  - destruct (running_close c) as [-> ->]. rewrite Cc. split_and!; [done| |done]. by destruct (isClosed c).
Qed.

Lemma blocked_delivers c : channel_ok c -> blocked c = false ->
  isClosed c = true \/ (delivers c = true /\ contents c <> []).
Proof.
  intros Hok. unfold blocked, delivers. pose proof (isEmpty_contents c Hok) as He.
  destruct (isClosed c); [by left|]. destruct (isEmpty c), (isRunning c); try done. right. split; [done|].
  intros Hc. by apply He in Hc.
Qed.

Lemma dequeue_unblocked c d c' : channel_ok c -> blocked c = false -> dequeueNoWait c = (d, c') ->
  match d with
  | None => isClosed c = true
  | Some d => delivers c = true /\ contents c = d :: contents c'
  end.
Proof.
  intros Hok Hb E. destruct (blocked_delivers c Hok Hb) as [Hc|[Hd Hne]].
  - rewrite dequeue_idle in E by (unfold delivers; by rewrite Hc). by injection E as <- _.
  - destruct (dequeue_contents c Hok Hd) as [E1 E2]. rewrite E in E1, E2. cbn in E1, E2.
    destruct (contents c) as [|x l]; [done|]. cbn in *. by subst.
Qed.

(** The changes others make to a channel while a thread waits. *)
Definition environment (env : list (C -> C)) : Prop := Forall (fun f => forall c, channel_ok c -> channel_ok (f c)) env.

Lemma wait_ready_ok env c : channel_ok c -> environment env ->
  exists c' , channel_ok c' /\
    ((wait_ready env c = (Ok tt, c') /\ blocked c' = false) \/
     (wait_ready env c = (Hang, c') /\ blocked c' = true /\ c' = foldl (fun c f => f c) c env)).
Proof.
  revert c. induction env as [|f env IH]; intros c Hok Henv; cbn [wait_ready]; rewrite bind_get.
  - destruct (blocked c) eqn:Hb; [|by exists c; auto]. exists c. split; [done|]. by right.
  - destruct (blocked c) eqn:Hb; [|by exists c; auto]. rewrite bind_modify. cbn [foldl].
    inversion Henv as [|? ? Hf Hrest]; subst. apply IH; [by apply Hf|done].
Qed.

(** A [dequeue] without a limit returns the first message of the channel as soon as
    the channel runs with one, returns nothing only when it finds the channel closed,
    and goes on waiting only if the last change too left the channel open but idle
    or empty. With a timeout of 0 it does not wait. *)
Theorem dequeue_waits env c : channel_ok c -> environment env ->
  dequeue 0 env c = (Ok (dequeueNoWait c).1, (dequeueNoWait c).2) /\
  match dequeue (-1) env c with
  | (Ok (Some d), c') => exists c1, channel_ok c1 /\ delivers c1 = true /\ contents c1 = d :: contents c'
  | (Ok None, c') => isClosed c' = true
  | (Hang, c') => blocked c' = true /\ c' = foldl (fun c f => f c) c env
  | _ => False
  end.
Proof.
  intros Hok Henv. split.
  { unfold dequeue. cbn. unfold bind, ret. by destruct (dequeueNoWait c). }
  unfold dequeue. cbn [Z.eqb Pos.eqb].
  destruct (wait_ready_ok env c Hok Henv) as (c1 & Hok1 & [[E Hb]|(E & Hb & Hf)]).
  - rewrite (bind_ok _ _ _ _ _ E). destruct (dequeueNoWait c1) as [d c2] eqn:E2.
    pose proof (dequeue_unblocked c1 d c2 Hok1 Hb E2) as Hd. destruct d as [d|]; [by exists c1; destruct Hd|].
    destruct (flags_taken c1) as (_ & Hc & _). by rewrite E2, Hd in Hc.
  - unfold bind. rewrite E. done.
Qed.
End refinement.

(** *** The two channels *)

Section fifo_refines.
Context {D : Type}.

Definition fifo_is (c : Fifo D) (a : abstract D) : Prop := a = abs c.
Lemma fifo_op_refines o c a : fifo_is c a -> (run_op o c).1 = (run_spec (fun _ => 0) true o a).1 /\ fifo_is (run_op o c).2 (run_spec (fun _ => 0) true o a).2.
Proof.
  intros ->. destruct (is_clear o) as [->|Hn]; [done|]. destruct (run_op_refines (H0 := Fifo_laws) true o c I Hn) as (H1 & H2 & _). by split.
Qed.
End fifo_refines.

Section priority_refines.
Context {D : Type} (getPriority : D -> Z) (getPriority_range : forall d, 0 <= getPriority d).
#[local] Arguments prio_removeAll : simpl never.
#[local] Arguments prio_dequeueNoWait : simpl never.
#[local] Arguments prio_peek : simpl never.
#[local] Notation perform := (run_op (H := Priority_channel getPriority)).
#[local] Notation laws := (Priority_laws getPriority getPriority_range).
Implicit Types (c : SimplePriority D).

Lemma SimplePriority_ok closed running : prio_ok getPriority (mkPriority closed running (replicate MAX_PRIORITIES ([] : list D)) 0).
Proof.
  split; cbn; [done| |done]. intros i l Hl%list_elem_of_lookup_2.
  change (l ∈ replicate MAX_PRIORITIES ([] : list D)) in Hl. apply elem_of_replicate in Hl as [-> _]. constructor.
Qed.

(** A channel that counts more than it has. *)
Definition lag (e : Z) c : SimplePriority D := with_channels (channels c) (enqueued c + e) c.
Definition priority_is c (a : abstract D) : Prop :=
  0 <= a_stale a /\ exists c0, prio_ok getPriority c0 /\ c = lag (a_stale a) c0 /\ abs (H0 := laws) c0 = mkAbstract (a_held a) 0 (a_running a) (a_closed a).

Lemma lag_removeFirst e c : prio_ok getPriority c -> 0 <= e -> removeFirst (lag e c) = ((removeFirst c).1, lag e (removeFirst c).2).
Proof.
  intros Hok He. pose proof (prio_count _ _ Hok) as Hn. pose proof (zlen_nonneg (prio_contents c)). pose proof (pop_ok getPriority c Hok) as Hp. unfold removeFirst, lag. cbn [channels enqueued with_channels].
  destruct (pop_highest _ _) as [[d chs]|].
  - destruct Hp as [Hp _]. rewrite Hp in Hn. autorewrite with amq_len in Hn. pose proof (zlen_nonneg (concat (reverse chs))). rewrite !(proj2 (Z.ltb_lt 0 _)) by lia. cbn. by replace (enqueued c + e - 1) with (enqueued c - 1 + e) by lia.
  - by destruct (0 <? enqueued c), (0 <? enqueued c + e).
Qed.
Lemma lag_idle e c : prio_ok getPriority c -> 0 <= e -> prio_isEmpty c = true -> removeFirst (lag e c) = (None, lag e c).
Proof.
  intros Hok He Hem. apply (prio_isEmpty_contents getPriority c Hok) in Hem. rewrite lag_removeFirst by done. pose proof (prio_count _ _ Hok) as Hn. rewrite Hem in Hn. unfold removeFirst. by rewrite Hn.
Qed.
Lemma lag_dequeue e c : prio_ok getPriority c -> 0 <= e -> prio_dequeueNoWait (lag e c) = ((prio_dequeueNoWait c).1, lag e (prio_dequeueNoWait c).2).
Proof.
  intros Hok He. unfold prio_dequeueNoWait. cbn [lag with_channels prio_closed prio_running]. destruct (prio_closed c || negb (prio_running c)); [done|]. cbn [orb].
  destruct (prio_isEmpty (lag e c)) eqn:E1, (prio_isEmpty c) eqn:E2; [done| | |by apply lag_removeFirst].
  - pose proof (prio_count _ _ Hok). pose proof (zlen_nonneg (prio_contents c)). unfold prio_isEmpty, lag in E1, E2. cbn in E1. lia.
  - by apply lag_idle.
Qed.
Lemma dequeue_peek c : prio_peek c = (prio_dequeueNoWait c).1.
Proof. apply (peek_dequeue (ChannelLaws := laws) c). Qed.
Lemma lag_drain e n (chs : list (list D)) count : drain n chs (count + e) = ((drain n chs count).1, (drain n chs count).2 + e).
Proof.
  revert chs count. induction n as [|n IH]; intros chs count; cbn [drain]; [done|]. replace (count + e - zlen (default [] (chs !! n))) with (count - zlen (default [] (chs !! n)) + e) by lia.
  rewrite IH. by destruct (drain n _ _) as [[rest chs'] count'].
Qed.
Lemma lag_removeAll e c : prio_removeAll (lag e c) = ((prio_removeAll c).1, lag e (prio_removeAll c).2).
Proof. unfold prio_removeAll, lag. cbn [channels enqueued with_channels]. rewrite lag_drain. by destruct (drain _ _ _) as [[l chs] n]. Qed.

Lemma lag_op e o c : prio_ok getPriority c -> 0 <= e -> match o with IsEmpty | Size | Clear => False | _ => True end ->
  perform o (lag e c) = ((perform o c).1, lag e (perform o c).2).
Proof.
  intros Hok He Ho. destruct o as [d|d| | | | | | | | | | |]; try done; cbn [run_op fst snd]; cbn.
  - unfold prio_enqueue, lag. cbn. by replace (enqueued c + e + 1) with (enqueued c + 1 + e) by lia.
  - unfold prio_enqueueFirst, lag. cbn. by replace (enqueued c + e + 1) with (enqueued c + 1 + e) by lia.
  - by rewrite lag_dequeue.
  - rewrite !dequeue_peek. by rewrite lag_dequeue.
  - by rewrite lag_removeAll.
  - by destruct (prio_closed c).
  - by destruct (prio_closed c).
Qed.
Lemma spec_stale b rank o l e r cl : match o with IsEmpty | Size | Clear => False | _ => True end ->
  run_spec (D := D) rank b o (mkAbstract l e r cl) = ((run_spec rank b o (mkAbstract l 0 r cl)).1, let a := (run_spec rank b o (mkAbstract l 0 r cl)).2 in mkAbstract (a_held a) e (a_running a) (a_closed a)).
Proof. intros Ho. destruct o; try done; cbn; unfold spec_gives; cbn; by destruct cl, r. Qed.
Lemma spec_stale_kept b rank o (a : abstract D) : o <> Clear -> a_stale (run_spec rank b o a).2 = a_stale a.
Proof. intros Ho. destruct o; try done; cbn; by repeat case_match. Qed.

Lemma cleared_ok c : prio_ok getPriority c -> prio_ok getPriority (with_channels (fmap (fun _ => []) (channels c)) 0 c) /\ prio_contents (with_channels (fmap (fun _ => []) (channels c)) 0 c) = [].
Proof.
  intros Hok. assert (concat (reverse (fmap (fun _ : list D => [] : list D) (channels c))) = []) as Hnil.
  { apply concat_nil_Forall, Forall_forall. intros l Hl%list_elem_of_In. rewrite elem_of_reverse in Hl. by apply list_elem_of_fmap in Hl as (? & -> & _). }
  split; [split|done]; cbn [channels with_channels enqueued].
  - rewrite length_fmap. apply Hok.
  - intros i l Hi. rewrite list_lookup_fmap in Hi. destruct (channels c !! i); [|done]. by injection Hi as <-.
  - unfold prio_contents. cbn [channels with_channels]. by rewrite Hnil.
Qed.

Lemma priority_op_refines o c a : priority_is c a ->
  (perform o c).1 = (run_spec (prio_rank getPriority) false o a).1 /\ priority_is (perform o c).2 (run_spec (prio_rank getPriority) false o a).2.
Proof.
  intros (He & c0 & Hok & -> & Habs). destruct a as [l e r cl]. cbn [a_held a_stale a_running a_closed] in *. pose proof (prio_count _ _ Hok) as Hn. injection Habs as Hl Hr Hcl. cbn in Hl, Hr, Hcl.
  assert (enqueued c0 + e = zlen l + e) as Hcount by (rewrite Hn, Hl; lia).
  assert (match o with IsEmpty | Size | Clear => False | _ => True end \/ match o with IsEmpty | Size | Clear => True | _ => False end) as [Ho|Ho] by (destruct o; auto).
  - rewrite lag_op by done. rewrite spec_stale by done. assert (o <> Clear) as Hnc by (by intros ->). destruct (run_op_refines (H0 := laws) false o c0 Hok Hnc) as (H1 & H2 & H3). unfold abs in H1, H2 at 2. cbn in H1, H2.
    rewrite Hl, Hr, Hcl in H1, H2. cbn [fst snd]. split; [exact H1|]. split; [done|]. exists (perform o c0).2. split; [exact H3|]. split; [done|]. cbn [a_held a_running a_closed a_stale]. rewrite H2.
    pose proof (spec_stale_kept false (prio_rank getPriority) o (mkAbstract l 0 r cl) Hnc) as Hs. cbn in Hs. by destruct (run_spec _ _ o _).2; cbn in *; subst.
  - assert (priority_is (lag e c0) (mkAbstract l e r cl)) as Hsame by (split; [done|]; exists c0; split; [done|]; split; [done|]; unfold abs; cbn; by rewrite Hl, Hr, Hcl).
    destruct o; try (exfalso; exact Ho); cbn; unfold spec_counted, prio_isEmpty; cbn; rewrite ?Hcount; try done.
    split; [done|]. pose proof (zlen_nonneg l). split; cbn [a_stale]; [lia|]. destruct (cleared_ok c0 Hok) as [Hok' Hnil]. eexists. split; [exact Hok'|].
    split; [unfold lag, prio_clear, with_channels; cbn; by rewrite Hcount|]. unfold abs. cbn [contents Priority_laws isRunning isClosed Priority_channel prio_running prio_closed with_channels a_held a_running a_closed]. by rewrite Hnil, Hr, Hcl.
Qed.
End priority_refines.

(** C11: Any sequence of calls on either channel of the client, [dequeue] with any timeout and
    whatever other threads do to the channel meanwhile included, answers as it does on the list
    of its messages, in the order of their ranks, waits for ever where it does there, and ends
    with its messages and flags. The FIFO channel has one rank; the priority channel goes on
    counting what its [clear] threw away, so that it is not empty to who asks or waits, and gives
    nothing. *)
Theorem channel_refines {D} (getPriority : D -> Z) (getPriority_range : forall d, 0 <= getPriority d) (calls : list (channel_call D)) :
  ((run_calls (run_call (H := Fifo_channel)) calls Fifo_new).1 = (run_calls (spec_call (fun _ => 0) true) calls (mkAbstract [] 0 false false)).1 /\
   match (run_calls (run_call (H := Fifo_channel)) calls Fifo_new).2, (run_calls (spec_call (fun _ => 0) true) calls (mkAbstract [] 0 false false)).2 with
   | Some c, Some a => fifo_channel c = a_held a /\ a_stale a = 0 /\ fifo_running c = a_running a /\ fifo_closed c = a_closed a
   | None, None => True | _, _ => False end) /\
  ((run_calls (run_call (H := Priority_channel getPriority)) calls SimplePriority_new).1 = (run_calls (spec_call (prio_rank getPriority) false) calls (mkAbstract [] 0 false false)).1 /\
   match (run_calls (run_call (H := Priority_channel getPriority)) calls SimplePriority_new).2, (run_calls (spec_call (prio_rank getPriority) false) calls (mkAbstract [] 0 false false)).2 with
   | Some c, Some a => prio_contents c = a_held a /\ enqueued c = zlen (a_held a) + a_stale a /\ prio_running c = a_running a /\ prio_closed c = a_closed a
   | None, None => True | _, _ => False end).
Proof.
  split.
  - destruct (calls_refine (fun _ => 0) true fifo_is fifo_op_refines calls Fifo_new (mkAbstract [] 0 false false) eq_refl) as [H1 H2]. split; [exact H1|]. revert H2.
    destruct (run_calls run_call calls Fifo_new).2, (run_calls _ calls (mkAbstract _ _ _ _)).2; try done. by intros ->.
  - assert (priority_is getPriority getPriority_range SimplePriority_new (mkAbstract [] 0 false false)) as Hnew by (split; [done|]; exists SimplePriority_new; split; [by apply SimplePriority_ok|done]).
    destruct (calls_refine (H := Priority_channel getPriority) _ false _ (priority_op_refines getPriority getPriority_range) calls _ _ Hnew) as [H1 H2]. split; [exact H1|]. revert H2.
    destruct (run_calls run_call calls SimplePriority_new).2, (run_calls _ calls (mkAbstract _ _ _ _)).2 as [a|]; try done. intros (He & c0 & Hok & -> & Habs). pose proof (prio_count _ _ Hok) as Hn.
    injection Habs as Hl Hr Hcl. cbn in Hl, Hr, Hcl. unfold lag, prio_contents in *. cbn. split_and!; try done. rewrite Hn, Hl. done.
Qed.

(** ** Order of delivery *)

(** Messages by falling rank, those of a rank in the order given. *)
Fixpoint by_rank {D} (rank : D -> Z) (n : nat) (ds : list D) : list D :=
  match n with
  | O => []
  | Datatypes.S n' => filter (fun d => rank d = Z.of_nat n') ds ++ by_rank rank n' ds
  end.

Section order.
Context {D : Type} (rank : D -> Z).

Lemma by_rank_above n k (ds : list D) d : (n <= k)%nat -> rank d = Z.of_nat k -> by_rank rank n (ds ++ [d]) = by_rank rank n ds.
Proof.
  intros Hn Hd. induction n as [|n IH]; cbn [by_rank]; [done|]. rewrite list.filter_app, filter_cons_False, app_nil_r by lia.
  by rewrite IH by lia.
Qed.

Lemma by_rank_below n (ds : list D) : Forall (fun d => rank d < Z.of_nat n) (by_rank rank n ds).
Proof.
  induction n as [|n IH]; cbn [by_rank]; [constructor|]. apply Forall_app_2.
  - apply Forall_forall. intros d Hd%list_elem_of_In. apply list_elem_of_filter in Hd as [Hd _]. lia.
  - eapply Forall_impl; [|exact IH]. cbn. lia.
Qed.

Lemma insert_back_at d (l k : list D) : Forall (fun x => rank d <= rank x) l -> Forall (fun x => rank x < rank d) k ->
  insert_back rank d (l ++ k) = l ++ d :: k.
Proof.
  intros Hl Hk. induction Hl as [|x l Hx Hl IH]; cbn [app insert_back].
  - destruct Hk as [|x k Hx Hk]; cbn [insert_back]; [done|]. by rewrite (proj2 (Z.ltb_lt _ _)) by lia.
  - rewrite (proj2 (Z.ltb_ge _ _)) by lia. by rewrite IH.
Qed.

Lemma insert_back_by_rank n (ds : list D) d : 0 <= rank d < Z.of_nat n ->
  insert_back rank d (by_rank rank n ds) = by_rank rank n (ds ++ [d]).
Proof.
  induction n as [|n IH]; intros Hr; [lia|]. cbn [by_rank]. rewrite list.filter_app.
  assert (Forall (fun x => rank d <= rank x) (filter (fun x => rank x = Z.of_nat n) ds)) as Ha.
  { apply Forall_forall. intros x Hx%list_elem_of_In. apply list_elem_of_filter in Hx as [Hx _]. lia. }
  destruct (decide (rank d = Z.of_nat n)) as [Hd|Hd].
  - rewrite filter_cons_True by done. rewrite insert_back_at; [|done|].
    + rewrite (by_rank_above n n) by (done || lia). by rewrite <- app_assoc.
    + eapply Forall_impl; [|apply by_rank_below]. cbn. lia.
  - rewrite filter_cons_False, app_nil_r by done. rewrite <- IH by lia. clear IH.
    induction Ha as [|x l Hx Ha IHl]; cbn [app insert_back]; [done|].
    rewrite (proj2 (Z.ltb_ge _ _)) by lia. by rewrite IHl.
Qed.
End order.

Section priority_order.
Context {D : Type} (getPriority : D -> Z) (getPriority_range : forall d, 0 <= getPriority d).

(** A priority channel delivers the messages it is given by falling priority (9 and
    above are one), those of a priority in the order in which they came. *)
Theorem priority_stable (ds : list D) :
  (prio_removeAll (foldl (fun c d => prio_enqueue getPriority d c) SimplePriority_new ds)).1 =
  by_rank (prio_rank getPriority) MAX_PRIORITIES ds.
Proof.
  set (fill := foldl _ _).
  assert (prio_ok getPriority (fill ds) /\ prio_contents (fill ds) = by_rank (prio_rank getPriority) MAX_PRIORITIES ds) as [Hok Hc].
  { unfold fill. induction ds as [|d ds IH] using rev_ind; [by split; [apply SimplePriority_ok|]|].
    rewrite foldl_snoc. destruct IH as [Hok Hc].
    destruct (enqueue_ok getPriority getPriority_range _ d Hok) as [[E Hok'] _]. split; [done|].
    rewrite E, Hc. apply insert_back_by_rank. unfold prio_rank, MAX_PRIORITIES. specialize (getPriority_range d). lia. }
  destruct (removeAll_ok getPriority _ Hok) as [E _]. by rewrite E.
Qed.

(** [clear] leaves the count of a priority channel as it was: the emptied channel
    still claims its messages, and gives nothing when asked for one, so that a
    blocking [dequeue] returns without waiting. *)
Theorem priority_clear_stale c : prio_ok getPriority c -> prio_contents c <> [] ->
  prio_contents (prio_clear c) = [] /\ enqueued (prio_clear c) = zlen (prio_contents c) /\
  prio_isEmpty (prio_clear c) = false /\ prio_dequeueNoWait (prio_clear c) = (None, prio_clear c) /\
  (prio_running c = true ->
    @dequeue _ _ (Priority_channel getPriority) (-1) [] (prio_clear c) = (Ok None, prio_clear c)).
Proof.
  intros Hok Hne. pose proof (prio_count _ _ Hok) as Hn. pose proof (zlen_nonneg (prio_contents c)).
  assert (zlen (prio_contents c) <> 0) by (intros E%zlen_zero; done).
  assert (forall n, pop_highest n (fmap (fun _ => [] : list D) (channels c)) = None) as Hpop.
  { intros n. induction n as [|n IH]; cbn [pop_highest]; [done|]. rewrite list_lookup_fmap.
    by destruct (channels c !! n). }
  assert (prio_dequeueNoWait (prio_clear c) = (None, prio_clear c)) as Hd.
  { unfold prio_dequeueNoWait, removeFirst. unfold prio_clear at 4. cbn [channels with_channels]. rewrite Hpop. by repeat case_match. }
  split_and!; [|done| |done|].
  - unfold prio_contents. cbn [channels with_channels prio_clear]. apply concat_nil_Forall, Forall_forall.
    intros l Hl%list_elem_of_In. rewrite elem_of_reverse in Hl. by apply list_elem_of_fmap in Hl as (? & -> & _).
  - unfold prio_isEmpty. cbn. lia.
  - intros Hr. unfold dequeue. cbn [Z.eqb Pos.eqb wait_ready]. unfold bind, get, blocked. cbn [isEmpty isClosed isRunning Priority_channel].
    unfold prio_isEmpty. cbn [prio_clear with_channels prio_closed prio_running enqueued]. rewrite Hr, (proj2 (Z.eqb_neq _ _)) by lia.
    rewrite andb_false_r. cbn. by rewrite Hd.
Qed.
End priority_order.

(** ** Examples: messages are their own priorities *)

Definition sample_priority (d : Z) : Z := d mod 256.
Lemma sample_priority_range d : 0 <= sample_priority d.
Proof. unfold sample_priority. lia. Qed.

Definition sample_channel : SimplePriority Z :=
  foldl (fun c d => prio_enqueue sample_priority d c) (mkPriority false true (replicate MAX_PRIORITIES []) 0) [4; 260; 9; 4].

Lemma sample_channel_ok : prio_ok sample_priority sample_channel.
Proof.
  unfold sample_channel. set (c := mkPriority _ _ _ _).
  assert (prio_ok sample_priority c) as Hc by apply SimplePriority_ok.
  revert Hc. generalize c. induction [4; 260; 9; 4] as [|d ds IH]; intros c0 Hc0; cbn [foldl]; [done|].
  apply IH, enqueue_ok; [apply sample_priority_range|done].
Qed.

(** Messages of three priorities; one is dequeued, and one that another thread adds during the
    wait; then the channel is cleared, still counts two, and no longer makes anyone wait. *)
Definition sample_calls : list (channel_call Z) :=
  [Op (Enqueue 4); Op (Enqueue 260); Op (Enqueue 9); Dequeue (-1) [[Peek]; [Start]]; Op RemoveAll; Dequeue 50 [[Size; Enqueue 7]]; Op (Enqueue 1); Op (Enqueue 2); Op Clear; Op Size; Dequeue (-1) []].

Lemma channel_refines_witness :
  (run_calls (run_call (H := Priority_channel sample_priority)) sample_calls SimplePriority_new).1 =
    [([], 0); ([], 0); ([], 0); ([9], 0); ([4; 260], 0); ([7], 0); ([], 0); ([], 0); ([], 0); ([], 2); ([], 0)] /\
  (run_calls (run_call (H := Fifo_channel)) sample_calls Fifo_new).1 =
    [([], 0); ([], 0); ([], 0); ([4], 0); ([260; 9], 0); ([7], 0); ([], 0); ([], 0); ([], 0); ([], 0)].
Proof.
  destruct (channel_refines sample_priority sample_priority_range sample_calls) as [[E1 _] [E2 _]].
  split; [rewrite E2|rewrite E1]; vm_compute; reflexivity.
Defined.

Lemma dequeue_waits_witness :
  let c := mkFifo false true [] in
  environment (H0 := Fifo_laws (D := Z)) [fun c => c; fun c => enqueue 7 c] /\
  match dequeue (-1) [fun c => c; fun c => enqueue 7 c] c with
  | (Ok (Some d), c') => exists c1, True /\ delivers c1 = true /\ fifo_channel c1 = d :: fifo_channel c'
  | (Ok None, c') => isClosed c' = true
  | (Hang, c') => blocked c' = true /\ c' = foldl (fun c f => f c) c [fun c => c; fun c => enqueue 7 c]
  | _ => False
  end.
Proof.
  assert (environment (H0 := Fifo_laws (D := Z)) [fun c => c; fun c => enqueue 7 c]) as He.
  { repeat constructor. }
  split; [exact He|]. exact (proj2 (dequeue_waits (H0 := Fifo_laws (D := Z)) _ (mkFifo false true []) I He)).
Defined.

Lemma priority_stable_witness :
  (prio_removeAll (foldl (fun c d => prio_enqueue sample_priority d c) SimplePriority_new [4; 260; 9; 12; 4])).1 = [9; 12; 4; 260; 4].
Proof. rewrite (priority_stable sample_priority sample_priority_range). reflexivity. Defined.

Lemma priority_clear_stale_witness :
  prio_isEmpty (prio_clear sample_channel) = false /\ prio_dequeueNoWait (prio_clear sample_channel) = (None, prio_clear sample_channel).
Proof.
  destruct (priority_clear_stale sample_priority sample_channel sample_channel_ok) as (_ & _ & H1 & H2 & _); [discriminate|].
  split; [exact H1|exact H2].
Defined.
