(* ===== verification/StringUtils.v ===== *)
(** * StringUtils (decaf/internal/util/StringUtils.cpp): the comparison of strings that orders
    the identifiers and destinations of the client.

    It is a natural order: blanks are passed over, and runs of digits are compared as
    numbers. A [const char*] is the list of its characters before the NUL, a [char] is
    signed. *)
From S2P Require Import Prelude.

(** [c_str()] of a string of bytes. *)
Fixpoint until_nul (l : list Z) : list Z :=
  match l with [] => [] | c :: l' => if c =? 0 then [] else c :: until_nul l' end.
Definition c_str (l : list Z) : list Z := until_nul (map s8 l).

(** [*p] *)
Definition char (l : list Z) : Z := match l with [] => 0 | c :: _ => c end.

Definition isDigit (c : Z) : bool := (48 <=? c) && (c <=? 57).
Definition isWhitespace (c : Z) : bool := (c =? 10) || (c =? 9) || (c =? 13) || (c =? 12) || (c =? 32).
Definition toUpperCase (c : Z) : Z := if (97 <=? c) && (c <=? 122) then c - 32 else c.

(** The longer run of digits is greater; of two as long the first difference, kept as
    [bias], decides. *)
Fixpoint compareRight (bias : Z) (left right : list Z) : Z :=
  let a := char left in
  let b := char right in
  if negb (isDigit a) && negb (isDigit b) then bias
  else if negb (isDigit a) then -1
  else if negb (isDigit b) then 1
  else
    let bias := if a <? b then (if bias =? 0 then -1 else bias)
                else if b <? a then (if bias =? 0 then 1 else bias) else bias in
    match left with [] => bias | _ :: left' => compareRight bias left' (tail right) end.

(** The first digit that differs decides. *)
Fixpoint compareLeft (left right : list Z) : Z :=
  let a := char left in
  let b := char right in
  if negb (isDigit a) && negb (isDigit b) then 0
  else if negb (isDigit a) then -1
  else if negb (isDigit b) then 1
  else if a <? b then -1
  else if b <? a then 1
  else match left with [] => 0 | _ :: left' => compareLeft left' (tail right) end.

Fixpoint skip_whitespace (l : list Z) : list Z :=
  match l with c :: l' => if isWhitespace c then skip_whitespace l' else l | [] => [] end.

(** [while (true)]: a round moves on in both strings. *)
Fixpoint doCompare (fuel : nat) (ignoreCase : bool) (left right : list Z) : outcome Z :=
  match fuel with
  | O => Hang
  | S fuel' =>
      let left := skip_whitespace left in
      let right := skip_whitespace right in
      let curLeft := char left in
      let curRight := char right in
      let result :=
        if isDigit curLeft && isDigit curRight then
          if (curLeft =? 48) || (curRight =? 48) then compareLeft left right else compareRight 0 left right
        else 0 in
      if negb (result =? 0) then Ok result
      else if (curLeft =? 0) && (curRight =? 0) then Ok 0
      else
        let curLeft := if ignoreCase then toUpperCase curLeft else curLeft in
        let curRight := if ignoreCase then toUpperCase curRight else curRight in
        if curLeft <? curRight then Ok (-1)
        else if curRight <? curLeft then Ok 1
        else doCompare fuel' ignoreCase (tail left) (tail right)
  end.

(** More rounds than the left string has characters are never needed: see
    [doCompare_tokens]. *)
Definition compare_chars (ignoreCase : bool) (left right : list Z) : outcome Z := doCompare (S (length left)) ignoreCase left right.
Definition compare (left right : list Z) : outcome Z := compare_chars false (c_str left) (c_str right).
Definition compareIgnoreCase (left right : list Z) : outcome Z := compare_chars true (c_str left) (c_str right).

(** ** Linear orders *)

Record linear {A} (cmp : A -> A -> comparison) : Prop := {
  linear_eq : forall a b, cmp a b = Eq <-> a = b;
  linear_opp : forall a b, cmp b a = CompOpp (cmp a b);
  linear_trans : forall a b c, cmp a b = Lt -> cmp b c = Lt -> cmp a c = Lt;
}.

Definition lex (x y : comparison) : comparison := match x with Eq => y | _ => x end.
Definition pair_cmp {A B} (ca : A -> A -> comparison) (cb : B -> B -> comparison) (x y : A * B) : comparison :=
  lex (ca x.1 y.1) (cb x.2 y.2).
Fixpoint list_cmp {A} (ca : A -> A -> comparison) (x y : list A) : comparison :=
  match x, y with
  | [], [] => Eq
  | [], _ :: _ => Lt
  | _ :: _, [] => Gt
  | a :: x', b :: y' => lex (ca a b) (list_cmp ca x' y')
  end.

Lemma linear_Z : linear Z.compare.
Proof. split; [apply Z.compare_eq_iff|intros; apply Z.compare_antisym|]. intros a b c. rewrite !Z.compare_lt_iff. lia. Qed.

Lemma linear_lex {A} (cmp : A -> A -> comparison) a b c (r1 r2 r3 : comparison) : linear cmp ->
  (r1 = Lt -> r2 = Lt -> r3 = Lt) -> lex (cmp a b) r1 = Lt -> lex (cmp b c) r2 = Lt -> lex (cmp a c) r3 = Lt.
Proof.
  intros [He _ Ht] Hr H1 H2. destruct (cmp a b) eqn:Eab; [apply He in Eab as ->| |done]; cbn in H1.
  - destruct (cmp b c) eqn:Ebc; [|done|done]. by apply Hr.
  - destruct (cmp b c) eqn:Ebc; [apply He in Ebc as ->; by rewrite Eab| |done]. by rewrite (Ht _ _ _ Eab Ebc).
Qed.

Lemma linear_pair {A B} (ca : A -> A -> comparison) (cb : B -> B -> comparison) : linear ca -> linear cb -> linear (pair_cmp ca cb).
Proof.
  intros La Lb. split; unfold pair_cmp.
  - intros [a b] [a' b']. cbn. destruct (ca a a') eqn:E; cbn.
    + apply La in E as ->. rewrite (linear_eq _ Lb). naive_solver.
    + split; [done|]. intros [= -> ->]. by rewrite (proj2 (linear_eq _ La _ _) eq_refl) in E.
    + split; [done|]. intros [= -> ->]. by rewrite (proj2 (linear_eq _ La _ _) eq_refl) in E.
  - intros [a b] [a' b']. cbn. rewrite (linear_opp _ La a a'), (linear_opp _ Lb b b'). by destruct (ca a a').
  - intros x y z. apply linear_lex; [done|]. apply Lb.
Qed.

Lemma linear_list {A} (ca : A -> A -> comparison) : linear ca -> linear (list_cmp ca).
Proof.
  intros La. split.
  - intros x. induction x as [|a x IH]; intros [|b y]; cbn; [done..|]. destruct (ca a b) eqn:E; cbn.
    + apply La in E as ->. rewrite IH. naive_solver.
    + split; [done|]. intros [= -> ->]. by rewrite (proj2 (linear_eq _ La _ _) eq_refl) in E.
    + split; [done|]. intros [= -> ->]. by rewrite (proj2 (linear_eq _ La _ _) eq_refl) in E.
  - intros x. induction x as [|a x IH]; intros [|b y]; cbn; [done..|]. rewrite (linear_opp _ La a b), IH. by destruct (ca a b).
  - intros x. induction x as [|a x IH]; intros [|b y] [|c z]; cbn; [done..|]. apply linear_lex; [done|]. apply IH.
Qed.

(** ** Tokens *)

(** What the comparison sees of a string: runs of digits and single characters, up to
    the NUL. *)
Inductive token : Type := Run (digits : list Z) | Chr (c : Z).

Section tokens.
Variable ignoreCase : bool.
Definition fold_case (c : Z) : Z := if ignoreCase then toUpperCase c else c.

Fixpoint tokens (l : list Z) : list token :=
  match l with
  | [] => [Chr 0]
  | c :: l' =>
      if isWhitespace c then tokens l'
      else if isDigit c then
        if isDigit (char l') then match tokens l' with Run ds :: ts => Run (c :: ds) :: ts | ts => Run [c] :: ts end
        else Run [c] :: tokens l'
      else Chr (fold_case c) :: tokens l'
  end.
End tokens.

(** Numbers without leading zeros by their length and digits; with them as fractions. *)
Definition token_key (t : token) : Z * (Z * list Z) :=
  match t with
  | Chr c => (c, (-1, []))
  | Run ds => (48, (if char ds =? 48 then 0 else zlen ds, ds))
  end.
Definition digits_cmp : list Z -> list Z -> comparison := list_cmp Z.compare.
Definition key_cmp : Z * (Z * list Z) -> Z * (Z * list Z) -> comparison := pair_cmp Z.compare (pair_cmp Z.compare digits_cmp).
Definition token_cmp (t u : token) : comparison := key_cmp (token_key t) (token_key u).
Definition sign (c : comparison) : Z := match c with Eq => 0 | Lt => -1 | Gt => 1 end.

Lemma linear_token : linear token_cmp.
Proof.
  assert (linear key_cmp) as L by (apply linear_pair; [apply linear_Z|apply linear_pair; [apply linear_Z|apply linear_list, linear_Z]]).
  split; unfold token_cmp.
  - intros t u. rewrite (linear_eq _ L). split; [|by intros ->].
    by destruct t as [d|c], u as [d'|c']; cbn; intros [=]; subst.
  - intros. apply L.
  - intros a b c. apply L.
Qed.

(** ** The comparison is the order of the tokens *)

Fixpoint run (l : list Z) : list Z := match l with c :: l' => if isDigit c then c :: run l' else [] | [] => [] end.
Fixpoint after_run (l : list Z) : list Z := match l with c :: l' => if isDigit c then after_run l' else l | [] => [] end.

Lemma digit_bounds c : isDigit c = true <-> 48 <= c <= 57.
Proof. unfold isDigit. rewrite andb_true_iff, !Z.leb_le. done. Qed.
Lemma digit_no_blank c : isDigit c = true -> isWhitespace c = false.
Proof. rewrite digit_bounds. intros. unfold isWhitespace. rewrite !orb_false_iff, !Z.eqb_neq. lia. Qed.
Lemma fold_digit ic c : isDigit c = true -> fold_case ic c = c.
Proof.
  rewrite digit_bounds. intros. unfold fold_case, toUpperCase. destruct ic; [|done]. by rewrite (proj2 (Z.leb_gt _ _)) by lia.
Qed.
Lemma fold_other ic c : isDigit c = false -> isDigit (fold_case ic c) = false.
Proof.
  unfold fold_case, toUpperCase. destruct ic; [|done]. intros Hc. destruct (_ && _) eqn:E; [|done].
  apply andb_true_iff in E as [?%Z.leb_le ?%Z.leb_le]. apply not_true_iff_false. rewrite digit_bounds. lia.
Qed.
Lemma fold_zero ic c : fold_case ic c = 0 <-> c = 0.
Proof.
  unfold fold_case, toUpperCase. destruct ic; [|done]. destruct (_ && _) eqn:E; [|done].
  apply andb_true_iff in E as [?%Z.leb_le ?%Z.leb_le]. lia.
Qed.

Lemma run_none l : isDigit (char l) = false -> run l = [] /\ after_run l = l.
Proof. destruct l as [|c l]; cbn; [done|]. by intros ->. Qed.

Lemma tokens_run ic l : isDigit (char l) = true -> tokens ic l = Run (run l) :: tokens ic (after_run l).
Proof.
  induction l as [|c l IH]; [done|]. cbn [char tokens run after_run]. intros Hc. rewrite Hc, (digit_no_blank _ Hc).
  destruct (isDigit (char l)) eqn:El; [by rewrite (IH eq_refl)|]. by destruct (run_none _ El) as [-> ->].
Qed.

Lemma tokens_skip ic l : tokens ic (skip_whitespace l) = tokens ic l.
Proof. induction l as [|c l IH]; [done|]. cbn. destruct (isWhitespace c) eqn:E; [done|]. cbn. by rewrite E. Qed.
Lemma skip_length l : (length (skip_whitespace l) <= length l)%nat.
Proof. induction l as [|c l IH]; [done|]. cbn. destruct (isWhitespace c); cbn; lia. Qed.
Lemma skip_no_nul l : Forall (fun c => c <> 0) l -> Forall (fun c => c <> 0) (skip_whitespace l).
Proof. induction 1 as [|c l ? ? IH]; [constructor|]. cbn. destruct (isWhitespace c); [done|by constructor]. Qed.
Lemma skip_head l : isWhitespace (char (skip_whitespace l)) = false.
Proof. induction l as [|c l IH]; [done|]. cbn. by destruct (isWhitespace c) eqn:E. Qed.

Lemma compareLeft_run l r : compareLeft l r = sign (digits_cmp (run l) (run r)).
Proof.
  revert r. induction l as [|a l IH]; intros [|b r]; cbn; [done| | |].
  - by destruct (isDigit b).
  - by destruct (isDigit a).
  - destruct (isDigit a), (isDigit b); cbn; [|done..]. rewrite IH. unfold digits_cmp, Z.ltb. rewrite (Z.compare_antisym a b). by destruct (a ?= b).
Qed.

Lemma compareRight_run bias l r : compareRight bias l r =
  if zlen (run l) <? zlen (run r) then -1 else if zlen (run r) <? zlen (run l) then 1
  else if bias =? 0 then sign (digits_cmp (run l) (run r)) else bias.
Proof.
  assert (forall b, (if b =? 0 then 0 else b) = b) as Hb by (intros b; destruct (Z.eqb_spec b 0); lia).
  revert bias r. induction l as [|a l IH]; intros bias [|b r]; cbn [compareRight char run tail].
  - cbn. by rewrite Hb.
  - destruct (isDigit b); cbn; [|by rewrite Hb]. rewrite !zlen_cons, zlen_nil. pose proof (zlen_nonneg (run r)).
    by rewrite (proj2 (Z.ltb_lt 0 _)) by lia.
  - destruct (isDigit a); cbn; [|by rewrite Hb]. rewrite !zlen_cons, zlen_nil. pose proof (zlen_nonneg (run l)).
    by rewrite (proj2 (Z.ltb_ge _ 0)), (proj2 (Z.ltb_lt 0 _)) by lia.
  - destruct (isDigit a), (isDigit b); cbn [negb andb]; [| | |cbn; by rewrite Hb].
    + rewrite IH, !zlen_cons.
      replace (1 + zlen (run l) <? 1 + zlen (run r)) with (zlen (run l) <? zlen (run r)) by (apply eq_true_iff_eq; rewrite !Z.ltb_lt; lia).
      replace (1 + zlen (run r) <? 1 + zlen (run l)) with (zlen (run r) <? zlen (run l)) by (apply eq_true_iff_eq; rewrite !Z.ltb_lt; lia).
      destruct (zlen (run l) <? zlen (run r)); [done|]. destruct (zlen (run r) <? zlen (run l)); [done|]. unfold digits_cmp. cbn [list_cmp].
      destruct (Z.compare_spec a b) as [->|Hab|Hab]; cbn [lex sign].
      * by rewrite Z.ltb_irrefl.
      * rewrite (proj2 (Z.ltb_lt a b)) by done. destruct (bias =? 0) eqn:E; by rewrite ?E.
      * rewrite (proj2 (Z.ltb_ge a b)), (proj2 (Z.ltb_lt b a)) by lia. destruct (bias =? 0) eqn:E; by rewrite ?E.
    + rewrite !zlen_cons, zlen_nil. pose proof (zlen_nonneg (run l)). by rewrite (proj2 (Z.ltb_ge _ 0)), (proj2 (Z.ltb_lt 0 _)) by lia.
    + rewrite !zlen_cons, zlen_nil. pose proof (zlen_nonneg (run r)). by rewrite (proj2 (Z.ltb_lt 0 _)) by lia.
Qed.

Lemma digits_cmp_head a ds b es : a < b -> digits_cmp (a :: ds) (b :: es) = Lt.
Proof. intros Hab%Z.compare_lt_iff. unfold digits_cmp. cbn. by rewrite Hab. Qed.

(** Two runs: as fractions if one of them starts with a zero. *)
Lemma compare_runs l r : isDigit (char l) = true -> isDigit (char r) = true ->
  (if (char l =? 48) || (char r =? 48) then compareLeft l r else compareRight 0 l r) = sign (token_cmp (Run (run l)) (Run (run r))).
Proof.
  destruct l as [|a l]; [done|]. destruct r as [|b r]; [done|]. cbn [char]. intros Ha Hb. rewrite compareLeft_run, compareRight_run.
  cbn [run]. rewrite Ha, Hb. apply digit_bounds in Ha, Hb. unfold token_cmp, key_cmp, pair_cmp. cbn [token_key fst snd char].
  rewrite Z.compare_refl. cbn [lex].
  set (n := zlen (a :: run l)). set (k := zlen (b :: run r)). assert (0 < n /\ 0 < k) as [Hn Hk] by
    (subst n k; rewrite !zlen_cons; pose proof (zlen_nonneg (run l)); pose proof (zlen_nonneg (run r)); lia).
  destruct (Z.eqb_spec a 48) as [->|Ha0], (Z.eqb_spec b 48) as [->|Hb0]; cbn [orb].
  - done.
  - rewrite (proj2 (Z.compare_lt_iff 0 k)) by done. by rewrite digits_cmp_head by lia.
  - rewrite (proj2 (Z.compare_gt_iff n 0)) by done. unfold digits_cmp. cbn [list_cmp]. by rewrite (proj2 (Z.compare_gt_iff a 48)) by lia.
  - rewrite Z.eqb_refl. unfold Z.ltb. rewrite (Z.compare_antisym n k). by destruct (n ?= k).
Qed.


(** The first token of a string that does not start with a blank, and what follows. *)
Definition first_token (ic : bool) (l : list Z) : token := if isDigit (char l) then Run (run l) else Chr (fold_case ic (char l)).
Definition other_tokens (ic : bool) (l : list Z) : list token :=
  if isDigit (char l) then tokens ic (after_run l) else match l with [] => [] | _ :: l' => tokens ic l' end.

Lemma tokens_first ic l : isWhitespace (char l) = false -> tokens ic l = first_token ic l :: other_tokens ic l.
Proof.
  intros Hw. unfold first_token, other_tokens. destruct (isDigit (char l)) eqn:Hd; [by apply tokens_run|].
  destruct l as [|c l]; cbn in *; [|by rewrite Hw, Hd]. by rewrite (proj2 (fold_zero ic 0)).
Qed.

Lemma compare_others ic l r : isDigit (char l) && isDigit (char r) = false ->
  token_cmp (first_token ic l) (first_token ic r) = (fold_case ic (char l) ?= fold_case ic (char r)).
Proof.
  unfold first_token, token_cmp, key_cmp, pair_cmp. intros Hd.
  destruct (isDigit (char l)) eqn:Hl, (isDigit (char r)) eqn:Hr; cbn [token_key fst snd]; [done|..].
  - rewrite (fold_digit _ _ Hl). pose proof (fold_other ic _ Hr) as Hf. apply digit_bounds in Hl. apply not_true_iff_false in Hf. rewrite digit_bounds in Hf.
    destruct (Z.compare_spec 48 (fold_case ic (char r))), (Z.compare_spec (char l) (fold_case ic (char r))); done || lia.
  - rewrite (fold_digit _ _ Hr). pose proof (fold_other ic _ Hl) as Hf. apply digit_bounds in Hr. apply not_true_iff_false in Hf. rewrite digit_bounds in Hf.
    destruct (Z.compare_spec (fold_case ic (char l)) 48), (Z.compare_spec (fold_case ic (char l)) (char r)); done || lia.
  - by destruct (_ ?= _).
Qed.

Lemma sign_zero c : sign c = 0 <-> c = Eq.
Proof. by destruct c. Qed.
Lemma list_cmp_first ic l r : isWhitespace (char l) = false -> isWhitespace (char r) = false ->
  list_cmp token_cmp (tokens ic l) (tokens ic r) =
  lex (token_cmp (first_token ic l) (first_token ic r)) (list_cmp token_cmp (other_tokens ic l) (other_tokens ic r)).
Proof. intros Hl Hr. by rewrite (tokens_first _ _ Hl), (tokens_first _ _ Hr). Qed.

(** Equal runs are passed one digit at a time. *)
Lemma tokens_equal_runs ic l r : isDigit (char l) = true -> isDigit (char r) = true -> run l = run r ->
  list_cmp token_cmp (tokens ic (tail l)) (tokens ic (tail r)) = list_cmp token_cmp (tokens ic (after_run l)) (tokens ic (after_run r)).
Proof.
  destruct l as [|a l]; [done|]. destruct r as [|b r]; [done|]. cbn [char run tail after_run]. intros -> ->. intros [= -> E].
  destruct (isDigit (char l)) eqn:Hl, (isDigit (char r)) eqn:Hr.
  - rewrite (tokens_run _ l Hl), (tokens_run _ r Hr), E. cbn [list_cmp]. by rewrite (proj2 (linear_eq _ linear_token _ _) eq_refl).
  - destruct (run_none _ Hr) as [Er _]. rewrite Er in E. destruct l as [|c l]; [done|]. cbn in *. by rewrite Hl in E.
  - destruct (run_none _ Hl) as [Er _]. rewrite Er in E. destruct r as [|c r]; [done|]. cbn in *. by rewrite Hr in E.
  - by destruct (run_none _ Hl) as [_ ->], (run_none _ Hr) as [_ ->].
Qed.

Lemma doCompare_tokens ic fuel l r : (length l < fuel)%nat -> Forall (fun c => c <> 0) l -> Forall (fun c => c <> 0) r ->
  doCompare fuel ic l r = Ok (sign (list_cmp token_cmp (tokens ic l) (tokens ic r))).
Proof.
  revert l r. induction fuel as [|fuel IH]; intros l r Hf Hl Hr; [lia|]. cbn [doCompare].
  rewrite <- (tokens_skip ic l), <- (tokens_skip ic r). pose proof (skip_length l) as Hlen.
  apply skip_no_nul in Hl, Hr. pose proof (skip_head l) as Wl. pose proof (skip_head r) as Wr.
  set (l' := skip_whitespace l) in *. set (r' := skip_whitespace r) in *. clearbody l' r'.
  rewrite (list_cmp_first ic l' r' Wl Wr). destruct (isDigit (char l') && isDigit (char r')) eqn:Hd.
  - pose proof Hd as [Dl Dr]%andb_true_iff. rewrite (compare_runs _ _ Dl Dr). unfold first_token. rewrite Dl, Dr.
    destruct (token_cmp (Run (run l')) (Run (run r'))) eqn:Et; [|done|done]. cbn [sign lex Z.eqb negb].
    apply (linear_eq _ linear_token) in Et. injection Et as Et. destruct l' as [|a l']; [done|]. destruct r' as [|b r']; [done|].
    cbn [char] in *. assert (a = b) as -> by (cbn in Et; rewrite Dl, Dr in Et; by injection Et).
    rewrite (proj2 (Z.eqb_neq b 0)) by (apply digit_bounds in Dr; lia). cbn [andb]. fold (fold_case ic b). rewrite Z.ltb_irrefl.
    rewrite IH; [|cbn in *; lia|by inversion Hl|by inversion Hr]. unfold other_tokens. cbn [char]. rewrite Dl.
    by rewrite (tokens_equal_runs ic (b :: l') (b :: r')).
  - rewrite (compare_others _ _ _ Hd). cbn [Z.eqb negb]. fold (fold_case ic (char l')). fold (fold_case ic (char r')).
    destruct (Z.eqb_spec (char l') 0) as [El|El].
    + assert (l' = []) as -> by (destruct l'; [done|]; by inversion Hl). cbn [char]. rewrite (proj2 (fold_zero ic 0)) by done.
      destruct (Z.eqb_spec (char r') 0) as [Er|Er]; cbn [andb].
      * assert (r' = []) as -> by (destruct r'; [done|]; by inversion Hr). cbn [char]. by rewrite (proj2 (fold_zero ic 0)).
      * assert (fold_case ic (char r') <> 0) as Hne by (by rewrite fold_zero). unfold Z.ltb.
        rewrite (Z.compare_antisym 0). destruct (Z.compare_spec 0 (fold_case ic (char r'))); [done..|]. done.
    + cbn [andb]. unfold Z.ltb. rewrite (Z.compare_antisym (fold_case ic (char l')) (fold_case ic (char r'))).
      destruct (Z.compare_spec (fold_case ic (char l')) (fold_case ic (char r'))) as [E|E|E]; cbn [CompOpp lex sign]; [|done|done].
      assert (char r' <> 0) as Er by (intros Er; rewrite Er in E; rewrite (proj2 (fold_zero ic 0)) in E by done; by apply fold_zero in E).
      destruct l' as [|a l']; [done|]. destruct r' as [|b r']; [done|]. cbn [tail char] in *.
      rewrite IH; [|cbn in *; lia|by inversion Hl|by inversion Hr]. unfold other_tokens. cbn [char].
      destruct (isDigit a) eqn:Da, (isDigit b) eqn:Db; [done|..|done]; exfalso.
      * rewrite (fold_digit _ _ Da) in E. rewrite E in Da. by rewrite (fold_other _ _ Db) in Da.
      * rewrite (fold_digit _ _ Db) in E. rewrite <- E in Db. by rewrite (fold_other _ _ Da) in Db.
Qed.

Lemma until_nul_no_nul l : Forall (fun c => c <> 0) (until_nul l).
Proof. induction l as [|c l IH]; cbn; [constructor|]. destruct (Z.eqb_spec c 0); [constructor|by constructor]. Qed.

(** ** The comparison as an order *)

Definition natural_cmp (ic : bool) (l r : list Z) : comparison := list_cmp token_cmp (tokens ic (c_str l)) (tokens ic (c_str r)).

Lemma compare_chars_natural ic l r : compare_chars ic (c_str l) (c_str r) = Ok (sign (natural_cmp ic l r)).
Proof. apply doCompare_tokens; [lia|apply until_nul_no_nul..]. Qed.

Lemma linear_tokens : linear (list_cmp token_cmp).
Proof. apply linear_list, linear_token. Qed.

Lemma sign_inj c d : sign c = sign d -> c = d.
Proof. by destruct c, d. Qed.

(** C39: The comparison ends on all strings and is a strict weak order, as the maps that are
    sorted by it need: it is antisymmetric and transitive, and two strings are
    equivalent if they have the same tokens, which is to say up to blanks between them,
    and up to case where that is ignored. *)
Theorem natural_order ic (l m r : list Z) :
  let cmp a b := compare_chars ic (c_str a) (c_str b) in
  (exists n, cmp l r = Ok n /\ cmp r l = Ok (- n) /\ -1 <= n <= 1) /\
  (cmp l r = Ok 0 <-> tokens ic (c_str l) = tokens ic (c_str r)) /\
  (cmp l m = Ok (-1) -> cmp m r = Ok (-1) -> cmp l r = Ok (-1)).
Proof.
  intros cmp. subst cmp. cbv beta. rewrite !compare_chars_natural. unfold natural_cmp. split_and!.
  - eexists. split; [reflexivity|]. rewrite (linear_opp _ linear_tokens (tokens ic (c_str l)) (tokens ic (c_str r))). by destruct (list_cmp _ _ _).
  - rewrite <- (linear_eq _ linear_tokens). by destruct (list_cmp _ _ _).
  - intros [= H1] [= H2]. apply (sign_inj _ Lt) in H1, H2. by rewrite (linear_trans _ linear_tokens _ _ _ H1 H2).
Qed.

(** "queue 2", "queue10", "queue010": 2 before 10, and a leading zero makes a fraction. *)
Lemma natural_order_witness :
  let q2 := [113; 32; 50] in let q10 := [113; 49; 48] in let q010 := [113; 48; 49; 48] in
  compare q010 q2 = Ok (-1) /\ compare q2 q10 = Ok (-1) /\ compare q010 q10 = Ok (-1).
Proof.
  cbn zeta. split; [vm_compute; reflexivity|]. split; [vm_compute; reflexivity|].
  assert (compare_chars false (c_str [113; 48; 49; 48]) (c_str [113; 32; 50]) = Ok (-1)) as H1 by (vm_compute; reflexivity).
  assert (compare_chars false (c_str [113; 32; 50]) (c_str [113; 49; 48]) = Ok (-1)) as H2 by (vm_compute; reflexivity).
  exact (proj2 (proj2 (natural_order false [113; 48; 49; 48] [113; 32; 50] [113; 49; 48])) H1 H2).
Defined.

(** Names that differ in a blank, and identifiers that differ in case, are one. *)
Example blank_names : compare [97; 32; 98] [97; 98] = Ok 0.
Proof. vm_compute. reflexivity. Qed.
Example case_names : compareIgnoreCase [73; 68; 58; 97] [105; 100; 58; 65] = Ok 0.
Proof. vm_compute. reflexivity. Qed.
