(* ===== verification/OrderedMap.v ===== *)
(** * Sorted maps: [std::map] with the comparator of its keys, under StlMap and
    ConcurrentStlMap (decaf/util)

    A map is the list of its entries, sorted by [less]. Keys that the comparator takes to be
    equivalent are one key: [norm] gives what it sees of a key, so a map stands for a finite
    map of those. A new value for an old key keeps the old key, as [map[key] = value] does. *)
From stdpp Require Import gmap sorting.
From S2P Require Import Prelude StringUtils.

Section ordered_map.
Context {K V : Type} (less : K -> K -> bool).
Implicit Types (l : list (K * V)).

Fixpoint om_find (key : K) l : option V :=
  match l with
  | [] => None
  | (k, v) :: l' => if less k key then om_find key l' else if less key k then None else Some v
  end.

Fixpoint om_set (key : K) (value : V) l : list (K * V) :=
  match l with
  | [] => [(key, value)]
  | (k, v) :: l' => if less k key then (k, v) :: om_set key value l' else if less key k then (key, value) :: l else (k, value) :: l'
  end.

Fixpoint om_remove (key : K) l : list (K * V) :=
  match l with
  | [] => []
  | (k, v) :: l' => if less k key then (k, v) :: om_remove key l' else if less key k then l else l'
  end.

Lemma om_set_keys (P : K -> Prop) key v l : P key -> Forall (fun p => P p.1) l -> Forall (fun p => P p.1) (om_set key v l).
Proof. intros Hk. induction 1 as [|[k v'] l Hp Hl IH]; cbn [om_set]; [by repeat constructor|]. repeat case_match; by repeat constructor. Qed.

Lemma om_remove_keys (P : K -> Prop) key l : Forall (fun p => P p.1) l -> Forall (fun p => P p.1) (om_remove key l).
Proof. induction 1 as [|[k v'] l Hp Hl IH]; cbn [om_remove]; [by constructor|]. repeat case_match; by repeat constructor. Qed.
End ordered_map.

(** A comparator sorts by a linear order of what it sees. *)
Class Sorts {K T : Type} (less : K -> K -> bool) (norm : K -> T) : Type := {
  sorts_cmp : T -> T -> comparison;
  sorts_linear : linear sorts_cmp;
  sorts_less : forall a b, less a b = true <-> sorts_cmp (norm a) (norm b) = Lt;
}.

Section ordered_map_laws.
Context {K T V : Type} {less : K -> K -> bool} {norm : K -> T} `{S : !Sorts less norm} `{Countable T}.
Implicit Types (l : list (K * V)) (k key : K).

Definition below (p q : K * V) : Prop := less p.1 q.1 = true.
Definition om_sorted l : Prop := StronglySorted below l.
Definition om_map l : gmap T V := list_to_map (map (fun p => (norm p.1, p.2)) l).

Lemma less_trans a b c : less a b = true -> less b c = true -> less a c = true.
Proof. rewrite !sorts_less. apply (linear_trans _ sorts_linear). Qed.

Lemma compare_keys a b :
  (less a b = true /\ norm a <> norm b) \/ (less a b = false /\ less b a = true /\ norm a <> norm b) \/
  (less a b = false /\ less b a = false /\ norm a = norm b).
Proof.
  pose proof (linear_opp _ sorts_linear (norm a) (norm b)) as Ho. pose proof (linear_eq _ sorts_linear (norm a) (norm b)) as He.
  pose proof (sorts_less a b) as H1. pose proof (sorts_less b a) as H2. rewrite Ho in H2.
  destruct (sorts_cmp (norm a) (norm b)), (less a b), (less b a); cbn in H2; intuition congruence.
Qed.

Lemma om_map_cons k v l : om_map ((k, v) :: l) = <[norm k := v]> (om_map l).
Proof. done. Qed.

Lemma om_map_above k l : Forall (fun q => less k q.1 = true) l -> om_map l !! norm k = None.
Proof.
  induction 1 as [|[k' v] l Hk _ IH]; [done|]. rewrite om_map_cons, lookup_insert_ne; [done|]. intros E. cbn in Hk.
  apply sorts_less in Hk. by rewrite E, (proj2 (linear_eq _ sorts_linear _ _) eq_refl) in Hk.
Qed.

Lemma above_trans k k' l : less k k' = true -> Forall (fun q => less k' q.1 = true) l -> Forall (fun q => less k q.1 = true) l.
Proof. intros Hk. apply Forall_impl. intros q. by apply less_trans. Qed.

Lemma om_sorted_cons k v l : om_sorted ((k, v) :: l) <-> Forall (fun q => less k q.1 = true) l /\ om_sorted l.
Proof. split; [intros Hs; inversion Hs; by subst|intros [? ?]; by constructor]. Qed.

Lemma om_find_ok key l : om_sorted l -> om_find less key l = om_map l !! norm key.
Proof.
  induction l as [|[k v] l IH]; [done|]. intros [Hk Hs]%om_sorted_cons. cbn [om_find]. rewrite om_map_cons.
  destruct (compare_keys k key) as [(-> & Hne)|[(-> & Hlt & Hne)|(-> & -> & Heq)]].
  - rewrite lookup_insert_ne by done. by apply IH.
  - rewrite Hlt, lookup_insert_ne by done. symmetry. by apply om_map_above, (above_trans key k).
  - by rewrite Heq, lookup_insert_eq.
Qed.

Lemma om_set_above k key v l : less k key = true -> Forall (fun q => less k q.1 = true) l -> Forall (fun q => less k q.1 = true) (om_set less key v l).
Proof.
  intros Hk. induction 1 as [|[k' v'] l Hk' Hl IH]; cbn [om_set]; [by constructor|]. repeat case_match; by repeat constructor.
Qed.

Lemma om_set_ok key v l : om_sorted l -> om_sorted (om_set less key v l) /\ om_map (om_set less key v l) = <[norm key := v]> (om_map l).
Proof.
  induction l as [|[k v'] l IH]; [intros _; split; [repeat constructor|done]|]. intros [Hk Hs]%om_sorted_cons. cbn [om_set]. rewrite !om_map_cons.
  destruct (compare_keys k key) as [(Hlt & Hne)|[(Hge & Hlt & Hne)|(Hge & Hle & Heq)]].
  - rewrite Hlt. destruct (IH Hs) as [Hs' Hm]. split; [apply om_sorted_cons; split; [by apply om_set_above|done]|].
    rewrite om_map_cons, Hm. by apply insert_insert_ne.
  - rewrite Hge, Hlt. split; [|by rewrite !om_map_cons]. apply om_sorted_cons. split; [|by apply om_sorted_cons].
    constructor; [done|]. by apply (above_trans key k).
  - rewrite Hge, Hle. split; [by apply om_sorted_cons|]. by rewrite om_map_cons, Heq, insert_insert_eq.
Qed.

Lemma om_remove_above k key l : Forall (fun q => less k q.1 = true) l -> Forall (fun q => less k q.1 = true) (om_remove less key l).
Proof. induction 1 as [|[k' v'] l Hk' Hl IH]; cbn [om_remove]; [by constructor|]. repeat case_match; by repeat constructor. Qed.

Lemma om_remove_ok key l : om_sorted l -> om_sorted (om_remove less key l) /\ om_map (om_remove less key l) = delete (norm key) (om_map l).
Proof.
  induction l as [|[k v'] l IH]; [intros _; split; [apply SSorted_nil|symmetry; apply delete_empty]|]. intros [Hk Hs]%om_sorted_cons. cbn [om_remove]. rewrite !om_map_cons.
  destruct (compare_keys k key) as [(Hlt & Hne)|[(Hge & Hlt & Hne)|(Hge & Hle & Heq)]].
  - rewrite Hlt. destruct (IH Hs) as [Hs' Hm]. split; [apply om_sorted_cons; split; [by apply om_remove_above|done]|].
    rewrite om_map_cons, Hm. symmetry. by apply delete_insert_ne.
  - rewrite Hge, Hlt. split; [by apply om_sorted_cons|]. rewrite om_map_cons, delete_insert_ne by done. f_equal. symmetry. apply delete_id, om_map_above.
    by apply (above_trans key k).
  - rewrite Hge, Hle. split; [done|]. rewrite <- Heq, delete_insert_eq. symmetry. apply delete_id, om_map_above, Hk.
Qed.

(** An entry of the list is one of the map. *)
Lemma om_map_elem k v l : om_sorted l -> (k, v) ∈ l -> om_map l !! norm k = Some v.
Proof.
  induction l as [|[k' v'] l IH]; [by intros _ ?%not_elem_of_nil|]. intros [Hk Hs]%om_sorted_cons [[= <- <-]|Hin]%elem_of_cons; rewrite om_map_cons; [apply lookup_insert_eq|].
  rewrite lookup_insert_ne; [by apply IH|]. intros E. rewrite List.Forall_forall in Hk. specialize (Hk (k, v)). cbn in Hk. rewrite <- list_elem_of_In in Hk.
  apply Hk in Hin as Hlt. apply sorts_less in Hlt. by rewrite E, (proj2 (linear_eq _ sorts_linear _ _) eq_refl) in Hlt.
Qed.

Lemma om_sorted_NoDup l : om_sorted l -> base.NoDup (map (fun p => norm p.1) l).
Proof.
  induction l as [|[k v] l IH]; intros Hs; [constructor|]. apply om_sorted_cons in Hs as [Ha Hs]. cbn [map fst]. apply list.NoDup_cons. split; [|by apply IH].
  intros ((k', v') & E & Hin)%list_elem_of_fmap. cbn in E. pose proof (om_map_above k l Ha) as Hn. rewrite E in Hn. by rewrite (om_map_elem _ _ _ Hs Hin) in Hn.
Qed.

Lemma om_map_elem_of t v l : om_map l !! t = Some v -> exists k, (k, v) ∈ l /\ norm k = t.
Proof.
  induction l as [|[k' v'] l IH]; [done|]. rewrite om_map_cons. intros [[<- <-]|[_ Hl]]%lookup_insert_Some; [exists k'; by split; [left|]|].
  destruct (IH Hl) as (k & ? & ?). exists k. by split; [right|].
Qed.
End ordered_map_laws.
Arguments om_map {K T V} norm {_ _} l : simpl never.
Arguments om_sorted {K V} less l : simpl never.
Arguments om_find {K V} less key l : simpl never.
Arguments om_set {K V} less key value l : simpl never.
Arguments om_remove {K V} less key l : simpl never.

Lemma om_sorted_nil {K V} (less : K -> K -> bool) : om_sorted less (@nil (K * V)).
Proof. apply SSorted_nil. Qed.

Lemma om_map_nil {K T V} `{Countable T} (norm : K -> T) : om_map norm (@nil (K * V)) = ∅.
Proof. done. Qed.

(** Changing the values leaves the keys. *)
Lemma om_sorted_fmap {K V W} (less : K -> K -> bool) (f : V -> W) (l : list (K * V)) :
  om_sorted less l -> om_sorted less (map (fun p => (p.1, f p.2)) l).
Proof.
  induction 1 as [|[k v] l Hl IH Hk]; [constructor|]. constructor; [done|]. apply List.Forall_map. cbn. exact Hk.
Qed.

Lemma om_map_fmap {K T V W} `{Countable T} (norm : K -> T) (f : V -> W) (l : list (K * V)) :
  om_map norm (map (fun p => (p.1, f p.2)) l) = f <$> om_map norm l.
Proof. unfold om_map. rewrite <- list_to_map_fmap, !map_map. done. Qed.

(** ** The comparators of the code *)

#[export] Instance token_eq_dec : EqDecision token.
Proof. solve_decision. Defined.
#[export] Instance token_countable : Countable token.
Proof.
  refine (inj_countable' (fun t => match t with Run ds => inl ds | Chr c => inr c end)
    (fun x => match x with inl ds => Run ds | inr c => Chr c end) _). by intros [].
Defined.

Definition name_less (ignoreCase : bool) (left right : list Z) : bool :=
  match compare_chars ignoreCase (c_str left) (c_str right) with Ok n => n <? 0 | _ => false end.
Definition name_key (ignoreCase : bool) (name : list Z) : list token := tokens ignoreCase (c_str name).

#[export] Instance name_sorts ic : Sorts (name_less ic) (name_key ic).
Proof.
  refine {| sorts_cmp := list_cmp token_cmp; sorts_linear := linear_tokens |}.
  intros a b. unfold name_less. rewrite compare_chars_natural. unfold natural_cmp, name_key. by destruct (list_cmp _ _ _).
Defined.
