(* ===== verification/IdGenerator.v ===== *)
(** * IdGenerator (activemq/util/IdGenerator.cpp): identifiers made of a seed and a number.

    A string is the list of its bytes. [std::to_string] and [std::stoll] are those of the
    C++ library in base 10. *)
From S2P Require Import Prelude StringUtils.

(** ** Numbers as text *)

(** The decimal digits of [n]; 64-bit numbers have 19 at most. *)
Fixpoint digits (fuel : nat) (n : Z) : list Z :=
  match fuel with
  | O => []
  | S fuel' => if n <? 10 then [48 + n] else digits fuel' (n / 10) ++ [48 + n mod 10]
  end.
Definition to_string (n : Z) : list Z := if n <? 0 then 45 :: digits 20 (- n) else digits 20 n.

Definition digits_value (ds : list Z) : Z := foldl (fun a d => 10 * a + (d - 48)) 0 ds.

Definition isspace (c : Z) : bool := (c =? 32) || ((9 <=? c) && (c <=? 13)).
Fixpoint skip_spaces (l : list Z) : list Z := match l with c :: l' => if isspace c then skip_spaces l' else l | [] => [] end.

(** Text without digits, and numbers out of range, are exceptions of the C++ library. *)
Definition stoll (s : list Z) : outcome Z :=
  let s := skip_spaces s in
  let negative := char s =? 45 in
  let s := if negative || (char s =? 43) then tail s else s in
  match run s with
  | [] => Throw StdException
  | ds =>
      let v := if negative then - digits_value ds else digits_value ds in
      if bool_decide (in_s 64 v) then Ok v else Throw StdException
  end.

(** ** Seeds *)

Definition COLON : Z := 58.

(** What comes up to the last colon and after it; [None] without one. *)
Fixpoint split_last (l : list Z) : option (list Z * list Z) :=
  match l with
  | [] => None
  | c :: l' =>
      match split_last l' with
      | Some (a, b) => Some (c :: a, b)
      | None => if c =? COLON then Some ([c], l') else None
      end
  end.

Definition getSeedFromId (id : list Z) : list Z :=
  match split_last id with Some (seed, _ :: _) => seed | _ => id end.

Definition getSequenceFromId (id : list Z) : outcome Z :=
  match split_last id with Some (_, (_ :: _) as number) => stoll number | _ => Ok (-1) end.

(** [IdGenerator::compare]; the difference of the numbers is cut to an [int]. *)
Definition compare_ids (id1 id2 : list Z) : outcome Z :=
  match getSeedFromId id1, getSeedFromId id2 with
  | [], _ | _, [] => Ok (-1)
  | seed1, seed2 =>
      match compare seed1 seed2 with
      | Ok 0 =>
          match getSequenceFromId id1, getSequenceFromId id2 with
          | Ok c1, Ok c2 => if bool_decide (in_s 64 (c1 - c2)) then Ok (s32 (c1 - c2)) else UB
          | Ok _, r | r, _ => r
          end
      | r => r
      end
  end.

(** ** The generator *)

(** The kernel is shared by the generators of the process. *)
Record IdGeneratorKernel : Type := mkKernel { UNIQUE_STUB : list Z; instanceCount : Z; hostname : list Z }.
Record IdGenerator : Type := mkIdGenerator { prefix : list Z; seed : list Z; sequence : Z }.

Definition IdGenerator_new (prefix : list Z) : IdGenerator := mkIdGenerator prefix [] 0.

(** "ID:" *)
Definition ID : list Z := [73; 68; 58].

Definition generateId : M (IdGenerator * IdGeneratorKernel) (list Z) := fun '(g, k) =>
  let '(g, k) :=
    match seed g with
    | [] =>
        (mkIdGenerator (prefix g)
           ((match prefix g with [] => ID ++ hostname k | p => p end) ++ UNIQUE_STUB k ++ to_string (instanceCount k) ++ [COLON]) (sequence g),
         mkKernel (UNIQUE_STUB k) (instanceCount k + 1) (hostname k))
    | _ => (g, k)
    end in
  (Ok (seed g ++ to_string (sequence g)), (mkIdGenerator (prefix g) (seed g) (sequence g + 1), k)).

(** ** Numbers are read back *)

Lemma digits_value_snoc ds d : digits_value (ds ++ [d]) = 10 * digits_value ds + (d - 48).
Proof. unfold digits_value. by rewrite foldl_app. Qed.

Lemma digits_ok fuel n : (0 < fuel)%nat -> 0 <= n < 10 ^ Z.of_nat fuel ->
  digits_value (digits fuel n) = n /\ Forall (fun d => 48 <= d <= 57) (digits fuel n) /\ digits fuel n <> [].
Proof.
  revert n. induction fuel as [|fuel IH]; intros n Hf Hn; [lia|]. cbn [digits]. destruct (Z.ltb_spec n 10).
  - split_and!; [cbn; lia|by repeat constructor; lia|done].
  - rewrite Nat2Z.inj_succ, Z.pow_succ_r in Hn by lia.
    destruct fuel as [|fuel]; [cbn in Hn; lia|]. destruct (IH (n / 10)) as (IHv & IHd & _); [lia|lia|].
    rewrite digits_value_snoc, IHv. split_and!; [lia|apply List.Forall_app; split; [done|repeat constructor; lia]|by destruct (digits (S fuel) (n / 10))].
Qed.

Lemma run_digits ds l : Forall (fun d => 48 <= d <= 57) ds -> isDigit (char l) = false -> run (ds ++ l) = ds.
Proof.
  intros Hds Hl. induction Hds as [|d ds Hd _ IH]; cbn; [by destruct (run_none _ Hl)|]. by rewrite (proj2 (digit_bounds d) Hd), IH.
Qed.

(** [std::stoll] reads what [std::to_string] writes. *)
Lemma stoll_to_string n : in_s 64 n -> stoll (to_string n) = Ok n.
Proof.
  unfold in_s. cbn. intros Hn. unfold to_string. destruct (Z.ltb_spec n 0).
  - destruct (digits_ok 20 (- n)) as (Hv & Hd & Hne); [lia|cbn; lia|]. unfold stoll.
    change (skip_spaces (45 :: digits 20 (- n))) with (45 :: digits 20 (- n)). cbn [char]. rewrite Z.eqb_refl. cbn [orb tail].
    rewrite <- (app_nil_r (digits 20 (- n))), run_digits, ?app_nil_r by done.
    destruct (digits 20 (- n)) as [|d ds] eqn:E; [done|]. rewrite <- E in *. rewrite Hv, Z.opp_involutive. by rewrite bool_decide_true by done.
  - destruct (digits_ok 20 n) as (Hv & Hd & Hne); [lia|cbn; lia|]. destruct (digits 20 n) as [|d ds] eqn:E; [done|]. rewrite <- E in *.
    assert (48 <= d <= 57) as Hdig by (rewrite E in Hd; by inversion Hd).
    assert (skip_spaces (digits 20 n) = digits 20 n) as Es.
    { rewrite E. cbn. unfold isspace. by rewrite (proj2 (Z.eqb_neq d 32)), (proj2 (Z.leb_gt d 13)), andb_false_r by lia. }
    unfold stoll. rewrite Es. replace (char (digits 20 n)) with d by by rewrite E.
    rewrite (proj2 (Z.eqb_neq d 45)), (proj2 (Z.eqb_neq d 43)) by lia. cbn [orb].
    rewrite <- (app_nil_r (digits 20 n)), run_digits, ?app_nil_r by done. rewrite E at 1. rewrite <- E, Hv.
    by rewrite bool_decide_true by (unfold in_s; cbn; lia).
Qed.

Lemma to_string_no_colon n : in_s 64 n -> COLON ∉ to_string n /\ to_string n <> [].
Proof.
  unfold in_s, to_string. cbn. intros Hn. assert (forall m, 0 <= m <= 2 ^ 63 -> COLON ∉ digits 20 m /\ digits 20 m <> []) as Hd.
  { intros m Hm. destruct (digits_ok 20 m) as (_ & Hd & Hne); [lia|cbn in *; lia|]. split; [|done]. intros Hin.
    eapply List.Forall_forall in Hd; [|by apply list_elem_of_In]. unfold COLON in Hd. lia. }
  cbn in Hd. destruct (Z.ltb_spec n 0); [|apply Hd; lia]. split; [|done]. rewrite not_elem_of_cons. split; [done|apply Hd; lia].
Qed.

Lemma to_string_inj n m : in_s 64 n -> in_s 64 m -> to_string n = to_string m -> n = m.
Proof. intros Hn Hm E. pose proof (stoll_to_string n Hn) as En. rewrite E, stoll_to_string in En by done. by injection En. Qed.

Lemma split_last_none l : COLON ∉ l -> split_last l = None.
Proof.
  induction l as [|c l IH]; [done|]. intros [Hc Hl]%not_elem_of_cons. cbn. rewrite IH by done.
  by rewrite (proj2 (Z.eqb_neq c COLON)) by congruence.
Qed.
Lemma split_last_colon a b : COLON ∉ b -> split_last (a ++ COLON :: b) = Some (a ++ [COLON], b).
Proof. intros Hb. induction a as [|c a IH]; cbn; [by rewrite (split_last_none _ Hb)|by rewrite IH]. Qed.

Lemma seed_of_id a n : in_s 64 n -> getSeedFromId (a ++ COLON :: to_string n) = a ++ [COLON] /\ getSequenceFromId (a ++ COLON :: to_string n) = Ok n.
Proof.
  intros Hn. destruct (to_string_no_colon n Hn) as [Hc Hne]. unfold getSeedFromId, getSequenceFromId. rewrite split_last_colon by done.
  destruct (to_string n) as [|d ds] eqn:E; [done|]. split; [done|]. rewrite <- E. by apply stoll_to_string.
Qed.

(** Every identifier of a generator splits into the generator's seed and its place in the
    sequence; the seed stays, and the number of the next is one more. *)
Theorem generated_ids g k : in_s 64 (sequence g) -> (seed g <> [] -> exists a, seed g = a ++ [COLON]) ->
  exists id g' k', generateId (g, k) = (Ok id, (g', k')) /\
    getSeedFromId id = seed g' /\ getSequenceFromId id = Ok (sequence g) /\
    sequence g' = sequence g + 1 /\ (seed g <> [] -> seed g' = seed g) /\ (exists a, seed g' = a ++ [COLON]).
Proof.
  destruct g as [p [|c s] n]; cbn [seed sequence]; intros Hs Hc; unfold generateId; cbn [seed sequence prefix].
  - eexists _, _, _. split; [reflexivity|]. cbn [seed sequence]. set (a := (match p with [] => _ | _ => _ end)).
    replace (a ++ UNIQUE_STUB k ++ to_string (instanceCount k) ++ [COLON]) with ((a ++ UNIQUE_STUB k ++ to_string (instanceCount k)) ++ [COLON])
      by (by rewrite <- !app_assoc).
    destruct (seed_of_id (a ++ UNIQUE_STUB k ++ to_string (instanceCount k)) _ Hs) as [E1 E2].
    rewrite <- (app_assoc _ [COLON]). cbn [app]. rewrite E1, E2. split_and!; [done..|by eexists].
  - destruct (Hc ltac:(done)) as [a ->]. eexists _, _, _. split; [reflexivity|]. cbn [seed sequence].
    destruct (seed_of_id a _ Hs) as [E1 E2]. rewrite <- app_assoc. cbn [app]. rewrite E1, E2. split_and!; [done..|by eexists].
Qed.

Lemma generated_ids_witness :
  let g := mkIdGenerator [] [73; 68; 58] 41 in let k := mkKernel [45] 0 [104] in
  exists id g' k', generateId (g, k) = (Ok id, (g', k')) /\ id = [73; 68; 58; 52; 49] /\ getSequenceFromId id = Ok 41 /\ sequence g' = 42.
Proof.
  cbn zeta. destruct (generated_ids (mkIdGenerator [] [73; 68; 58] 41) (mkKernel [45] 0 [104])) as (id & g' & k' & E & _ & H1 & H2 & _).
  - vm_compute. split; [intros [=]|reflexivity].
  - intros _. exists [73; 68]. reflexivity.
  - exists id, g', k'. split; [exact E|]. split; [|split; [exact H1|exact H2]]. injection E as <- _ _. vm_compute. reflexivity.
Defined.
