(* ===== verification/TrackedCommands.v ===== *)
(** * The commands of a connection and the order of their identifiers (activemq/commands),
    as the state tracker and the failover transport handle them.

    The identifiers are keys of sorted maps: each class's [compareTo] is a [Sorts] instance
    (OrderedMap.v), by which identifiers that differ in the case of their connection's name,
    or in blanks, are one key. *)
From stdpp Require Import gmap strings.
From S2P Require Import Prelude Commands StringUtils OrderedMap IdGenerator.

(** ** The order of the identifiers *)

Definition compare_numbers (a b : Z) : Z := if b <? a then 1 else if a <? b then -1 else 0.

(** [compareIgnoreCase] of two names; the comparison always returns ([natural_order]). *)
Definition compare_names (a b : list Z) : Z := match compareIgnoreCase a b with Ok n => n | _ => 0 end.

Definition ConnectionId_compareTo (a b : ConnectionId) : Z := compare_names (ci_value a) (ci_value b).

Definition SessionId_compareTo (a b : SessionId) : Z :=
  let connectionIdComp := compare_names (si_connectionId a) (si_connectionId b) in
  if negb (connectionIdComp =? 0) then connectionIdComp else compare_numbers (si_value a) (si_value b).

Definition ProducerId_compareTo (a b : ProducerId) : Z :=
  let connectionIdComp := compare_names (pr_connectionId a) (pr_connectionId b) in
  if negb (connectionIdComp =? 0) then connectionIdComp
  else let valueComp := compare_numbers (pr_value a) (pr_value b) in
  if negb (valueComp =? 0) then valueComp else compare_numbers (pr_sessionId a) (pr_sessionId b).

Definition ConsumerId_compareTo (a b : ConsumerId) : Z :=
  let connectionIdComp := compare_names (co_connectionId a) (co_connectionId b) in
  if negb (connectionIdComp =? 0) then connectionIdComp
  else let sessionComp := compare_numbers (co_sessionId a) (co_sessionId b) in
  if negb (sessionComp =? 0) then sessionComp else compare_numbers (co_value a) (co_value b).

(** A local transaction's connection, given by its name. *)
Record LocalId : Type := mkLocalId { lo_value : Z; lo_connectionId : ConnectionId }.
Definition LocalTransactionId_compareTo (a b : LocalId) : Z :=
  let valueComp := compare_numbers (lo_value a) (lo_value b) in
  if negb (valueComp =? 0) then valueComp else ConnectionId_compareTo (lo_connectionId a) (lo_connectionId b).

Definition less_by {A} (compareTo : A -> A -> Z) (a b : A) : bool := compareTo a b <? 0.
Abbreviation connection_less := (less_by ConnectionId_compareTo).
Abbreviation session_less := (less_by SessionId_compareTo).
Abbreviation producer_less := (less_by ProducerId_compareTo).
Abbreviation consumer_less := (less_by ConsumerId_compareTo).
Abbreviation transaction_less := (less_by LocalTransactionId_compareTo).

(** ** What the order sees of an identifier *)

Definition connection_key (c : ConnectionId) : list token := name_key true (ci_value c).
Definition session_key (s : SessionId) : list token * Z := (name_key true (si_connectionId s), si_value s).
Definition producer_key (p : ProducerId) : list token * (Z * Z) := (name_key true (pr_connectionId p), (pr_value p, pr_sessionId p)).
Definition consumer_key (c : ConsumerId) : list token * (Z * Z) := (name_key true (co_connectionId c), (co_sessionId c, co_value c)).
Definition transaction_key (t : LocalId) : Z * list token := (lo_value t, connection_key (lo_connectionId t)).

Lemma compare_numbers_sign a b : compare_numbers a b = sign (a ?= b).
Proof. unfold compare_numbers. destruct (Z.compare_spec a b), (Z.ltb_spec b a), (Z.ltb_spec a b); try lia; done. Qed.

Lemma compare_names_sign a b : compare_names a b = sign (list_cmp token_cmp (name_key true a) (name_key true b)).
Proof. unfold compare_names, compareIgnoreCase. by rewrite compare_chars_natural. Qed.

Lemma sign_lex c d : (if negb (sign c =? 0) then sign c else sign d) = sign (lex c d).
Proof. by destruct c. Qed.

(** A comparison that is the sign of a linear order of keys sorts by it. *)
Definition sorts_by_sign {A T} (compareTo : A -> A -> Z) (cmp : T -> T -> comparison) (key : A -> T) (L : linear cmp)
    (E : forall a b, compareTo a b = sign (cmp (key a) (key b))) : Sorts (less_by compareTo) key.
Proof.
  refine {| sorts_cmp := cmp; sorts_linear := L |}. intros a b. unfold less_by. rewrite E. by destruct (cmp _ _).
Defined.

Ltac compare_keys_tac :=
  intros a b; cbv beta zeta delta [ConnectionId_compareTo SessionId_compareTo ProducerId_compareTo ConsumerId_compareTo LocalTransactionId_compareTo];
  rewrite ?compare_names_sign, ?compare_numbers_sign, ?sign_lex; reflexivity.

#[export] Instance connection_sorts : Sorts connection_less connection_key.
Proof. apply (sorts_by_sign _ (list_cmp token_cmp)); [apply linear_tokens|compare_keys_tac]. Defined.
#[export] Instance session_sorts : Sorts session_less session_key.
Proof. apply (sorts_by_sign _ (pair_cmp (list_cmp token_cmp) Z.compare)); [auto using linear_pair, linear_tokens, linear_Z|compare_keys_tac]. Defined.
#[export] Instance producer_sorts : Sorts producer_less producer_key.
Proof.
  apply (sorts_by_sign _ (pair_cmp (list_cmp token_cmp) (pair_cmp Z.compare Z.compare))); [auto using linear_pair, linear_tokens, linear_Z|compare_keys_tac].
Defined.
#[export] Instance consumer_sorts : Sorts consumer_less consumer_key.
Proof.
  apply (sorts_by_sign _ (pair_cmp (list_cmp token_cmp) (pair_cmp Z.compare Z.compare))); [auto using linear_pair, linear_tokens, linear_Z|compare_keys_tac].
Defined.
#[export] Instance transaction_sorts : Sorts transaction_less transaction_key.
Proof. apply (sorts_by_sign _ (pair_cmp Z.compare (list_cmp token_cmp))); [auto using linear_pair, linear_tokens, linear_Z|compare_keys_tac]. Defined.

(** The connection and the session an identifier belongs to. *)
Definition session_parent (s : SessionId) : ConnectionId := mkConnectionId (si_connectionId s).
Definition producer_parent (p : ProducerId) : SessionId := mkSessionId (pr_connectionId p) (pr_sessionId p).
Definition consumer_parent (c : ConsumerId) : SessionId := mkSessionId (co_connectionId c) (co_sessionId c).

Lemma session_parent_key s : connection_key (session_parent s) = (session_key s).1.
Proof. done. Qed.
Lemma producer_parent_key p : session_key (producer_parent p) = ((producer_key p).1, (producer_key p).2.2).
Proof. done. Qed.
Lemma consumer_parent_key c : session_key (consumer_parent c) = ((consumer_key c).1, (consumer_key c).2.1).
Proof. done. Qed.

(** ** Transactions

    The map of a connection's transactions is keyed by [dynamic_pointer_cast] to a
    LocalTransactionId, which is null for an XA id. *)
Inductive TransactionId : Type := Local (t : LocalId) | XA (formatId : Z) (globalTransactionId branchQualifier : list Z).

Definition as_local (t : TransactionId) : option LocalId := match t with Local t => Some t | XA _ _ _ => None end.

(** The comparator dereferences both keys; where one is null a map calls for [undefined]
    before it compares. *)
Definition local_less (a b : option LocalId) : bool :=
  match a, b with Some a, Some b => transaction_less a b | None, Some _ => true | _, None => false end.
Definition local_key (t : option LocalId) : option (Z * list token) := option_map transaction_key t.

Definition option_cmp {A} (ca : A -> A -> comparison) (x y : option A) : comparison :=
  match x, y with None, None => Eq | None, Some _ => Lt | Some _, None => Gt | Some a, Some b => ca a b end.

Lemma linear_option {A} (ca : A -> A -> comparison) : linear ca -> linear (option_cmp ca).
Proof.
  intros La. split.
  - intros [a|] [b|]; cbn; [|done..]. rewrite (linear_eq _ La). naive_solver.
  - intros [a|] [b|]; cbn; [|done..]. apply (linear_opp _ La).
  - intros [a|] [b|] [c|]; cbn; [|done..]. apply (linear_trans _ La).
Qed.

#[export] Instance local_sorts : Sorts local_less local_key.
Proof.
  refine {| sorts_cmp := option_cmp (sorts_cmp (Sorts := transaction_sorts)); sorts_linear := linear_option _ sorts_linear |}.
  intros [a|] [b|]; [|done..]. apply (sorts_less (Sorts := transaction_sorts)).
Defined.

(** ** The commands *)

Record Destination : Type := mkDest { dest_temporary : bool; dest_topic : bool; dest_name : list Z }.
#[export] Instance Destination_eq_dec : EqDecision Destination.
Proof. solve_decision. Defined.

Record ConnectionInfo : Type := mkConnectionInfo {
  cn_base : BaseCommand; cn_connectionId : ConnectionId; cn_clientId : list Z; failoverReconnect : bool }.
Record SessionInfo : Type := mkSessionInfo { se_base : BaseCommand; se_sessionId : SessionId }.
Record ProducerInfo : Type := mkProducerInfo {
  pi_base : BaseCommand; pi_producerId : ProducerId; pi_destination : option Destination }.
Record ConsumerInfo : Type := mkConsumerInfo {
  ki_base : BaseCommand; ki_consumerId : ConsumerId; ki_destination : option Destination; prefetchSize : Z }.
Record DestinationInfo : Type := mkDestinationInfo {
  di_base : BaseCommand; di_connectionId : ConnectionId; operationType : Z; di_destination : Destination }.
Inductive ObjectId : Type :=
  | ConnectionObject (c : ConnectionId)
  | SessionObject (s : SessionId)
  | ProducerObject (p : ProducerId)
  | ConsumerObject (c : ConsumerId)
  | OtherObject.
Record RemoveInfo : Type := mkRemoveInfo { ri_base : BaseCommand; objectId : ObjectId }.
Record TransactionInfo : Type := mkTransactionInfo {
  ti_base : BaseCommand; ti_connectionId : option ConnectionId; ti_transactionId : TransactionId; ti_type : Z }.

(** A message's id is shared with its copies: [mp_address] tells the object, [mp_hash] is
    what its [getHashCode] gives. *)
Record MessageIdPtr : Type := mkMessageIdPtr { mp_address : Z; mp_hash : Z }.
#[export] Instance MessageIdPtr_eq_dec : EqDecision MessageIdPtr.
Proof. solve_decision. Defined.
#[export] Instance MessageIdPtr_countable : Countable MessageIdPtr.
Proof. refine (inj_countable' (fun x => (mp_address x, mp_hash x)) (fun x => mkMessageIdPtr x.1 x.2) _). by intros []. Defined.
#[export] Instance BaseCommand_dec : EqDecision BaseCommand.
Proof. solve_decision. Defined.
#[export] Instance ConnectionId_dec : EqDecision ConnectionId.
Proof. solve_decision. Defined.
#[export] Instance ConsumerId_dec : EqDecision ConsumerId.
Proof. solve_decision. Defined.
#[export] Instance ProducerId_dec : EqDecision ProducerId.
Proof. solve_decision. Defined.
#[export] Instance LocalId_dec : EqDecision LocalId.
Proof. solve_decision. Defined.
#[export] Instance TransactionId_dec : EqDecision TransactionId.
Proof. solve_decision. Defined.
Record Message : Type := mkMessage {
  me_base : BaseCommand; me_messageId : MessageIdPtr; me_producerId : ProducerId; me_transactionId : option TransactionId;
  me_content : list Z; me_marshalledProperties : list Z }.
Record MessagePull : Type := mkMessagePull {
  pull_base : BaseCommand; pull_consumerId : option ConsumerId; pull_destination : option Destination; pull_timeout : Z }.
Record ConsumerControl : Type := mkConsumerControl {
  cc_base : BaseCommand; cc_consumerId : ConsumerId; cc_destination : option Destination; cc_prefetch : Z }.

(** [CTracked]: the marker of the state tracker, which is a Response; [COther]: a command that
    no part of the transport looks into. *)
Inductive Command : Type :=
  | CConnectionInfo (i : ConnectionInfo)
  | CSessionInfo (i : SessionInfo)
  | CProducerInfo (i : ProducerInfo)
  | CConsumerInfo (i : ConsumerInfo)
  | CDestinationInfo (i : DestinationInfo)
  | CRemoveInfo (i : RemoveInfo)
  | CTransactionInfo (i : TransactionInfo)
  | CMessage (m : Message)
  | CMessagePull (p : MessagePull)
  | CMessageAck (b : BaseCommand)
  | CConsumerControl (c : ConsumerControl)
  | CConnectionControl (b : BaseCommand) (faultTolerant : bool)
  | CShutdownInfo (b : BaseCommand)
  | CTracked
  | COther (b : BaseCommand).

(** What a BaseCommand is made with. *)
Definition new_base : BaseCommand := mkBaseCommand false 0.

Definition base_of (c : Command) : BaseCommand :=
  match c with
  | CConnectionInfo i => cn_base i
  | CSessionInfo i => se_base i
  | CProducerInfo i => pi_base i
  | CConsumerInfo i => ki_base i
  | CDestinationInfo i => di_base i
  | CRemoveInfo i => ri_base i
  | CTransactionInfo i => ti_base i
  | CMessage m => me_base m
  | CMessagePull p => pull_base p
  | CConsumerControl c => cc_base c
  | CMessageAck b | CConnectionControl b _ | CShutdownInfo b | COther b => b
  | CTracked => new_base
  end.
Definition isResponseRequired (c : Command) : bool := responseRequired (base_of c).
Definition getCommandId (c : Command) : Z := commandId (base_of c).

Definition TRANSACTION_STATE_BEGIN : Z := 0.
Definition TRANSACTION_STATE_PREPARE : Z := 1.
Definition TRANSACTION_STATE_COMMITONEPHASE : Z := 2.
Definition TRANSACTION_STATE_COMMITTWOPHASE : Z := 3.
Definition TRANSACTION_STATE_ROLLBACK : Z := 4.
Definition TRANSACTION_STATE_RECOVER : Z := 5.
Definition TRANSACTION_STATE_FORGET : Z := 6.
Definition TRANSACTION_STATE_END : Z := 7.

Definition DEFAULT_MESSAGE_SIZE : Z := 1024.
Definition getSize (m : Message) : Z := u32 (DEFAULT_MESSAGE_SIZE + u32 (zlen (me_content m)) + u32 (zlen (me_marshalledProperties m))).

Definition createRemoveCommand (i : ProducerInfo) : RemoveInfo :=
  mkRemoveInfo (mkBaseCommand (responseRequired (pi_base i)) (commandId new_base)) (ProducerObject (pi_producerId i)).

(** Text, as the C++ literals have it. *)
Definition ascii (s : String.string) : list Z := map (fun c => Z.of_nat (Ascii.nat_of_ascii c)) (String.list_ascii_of_string s).

Definition destination_toString (d : Destination) : list Z :=
  (match dest_temporary d, dest_topic d with
   | false, true => ascii "topic://"
   | true, true => ascii "temp-topic://"
   | true, false => ascii "temp-queue://"
   | false, false => ascii "queue://"
   end) ++ dest_name d.
Definition ConsumerId_toString (c : ConsumerId) : list Z :=
  co_connectionId c ++ [58] ++ to_string (co_sessionId c) ++ [58] ++ to_string (co_value c).
