(* ===== verification/URIPool.v ===== *)
(** * URI (decaf/net/URI.cpp) and URIPool (activemq/transport/failover): the addresses a
    failover transport may connect to.

    A URI is the components that the parser found; an absent one is the empty string. The
    pool is a list whose [contains] and [remove] go by [operator==], which is
    [compareTo() == 0]. *)
From S2P Require Import Prelude StringUtils.

(** ** URI *)

Record URI : Type := mkURI {
  uri_scheme : list Z;
  uri_opaque : bool;
  uri_schemeSpecificPart : list Z;
  uri_authority : list Z;
  uri_userInfo : list Z;
  uri_host : list Z;
  uri_port : Z;
  uri_path : list Z;
  uri_query : list Z;
  uri_fragment : list Z;
  uri_string : list Z;
}.

#[export] Instance URI_eq_dec : EqDecision URI.
Proof. solve_decision. Defined.

(** [URI()] *)
Definition empty_URI : URI := mkURI [] false [] [] [] [] (-1) [] [] [] [].

(** [Character::digit(c, 16)] *)
Definition hex_digit (c : Z) : option Z :=
  if (48 <=? c) && (c <=? 57) then Some (c - 48)
  else if (97 <=? c) && (c <=? 102) then Some (c - 97 + 10)
  else if (65 <=? c) && (c <=? 70) then Some (c - 65 + 10)
  else None.

(** [URIEncoderDecoder::decode] *)
Fixpoint decode (s : list Z) : outcome (list Z) :=
  match s with
  | [] => Ok []
  | c :: s' =>
      if c =? 37 then
        match s' with
        | a :: b :: s'' =>
            match hex_digit a, hex_digit b with
            | Some d1, Some d2 => match decode s'' with Ok r => Ok (16 * d1 + d2 :: r) | e => e end
            | _, _ => Throw IllegalArgumentException
            end
        | _ => Throw IllegalArgumentException
        end
      else match decode s' with Ok r => Ok (c :: r) | e => e end
  end.

Definition is_empty (s : list Z) : bool := match s with [] => true | _ => false end.

(** An absent component comes before ([1]: after) one that is there; two that are there are
    compared, and what follows decides when they are the same. *)
Definition compare_parts (before : Z) (cmp : list Z -> list Z -> outcome Z) (a b : list Z) (next : outcome Z) : outcome Z :=
  if is_empty a && negb (is_empty b) then Ok before
  else if negb (is_empty a) && is_empty b then Ok (- before)
  else if is_empty a then next
  else match cmp a b with Ok n => if n =? 0 then next else Ok (if 0 <? n then 1 else -1) | e => e end.

(** [StringUtils::compare] of the decoded parts. *)
Definition compare_decoded (a b : list Z) : outcome Z :=
  match decode a, decode b with
  | Ok a, Ok b => compare a b
  | Throw e, _ | _, Throw e => Throw e
  | UB, _ | _, UB => UB
  | Hang, _ | _, Hang => Hang
  end.

Definition compare_always (cmp : list Z -> list Z -> outcome Z) (a b : list Z) (next : outcome Z) : outcome Z :=
  match cmp a b with Ok n => if n =? 0 then next else Ok (if 0 <? n then 1 else -1) | e => e end.

Definition compare_fragments (a b : URI) : outcome Z := compare_parts (-1) compare_decoded (uri_fragment a) (uri_fragment b) (Ok 0).

Definition compare_authority (a b : URI) (next : outcome Z) : outcome Z :=
  if negb (is_empty (uri_authority a)) && is_empty (uri_authority b) then Ok 1
  else if is_empty (uri_authority a) && negb (is_empty (uri_authority b)) then Ok (-1)
  else if is_empty (uri_authority a) then next
  else if negb (is_empty (uri_host a)) && negb (is_empty (uri_host b)) then
    compare_parts (-1) compare_decoded (uri_userInfo a) (uri_userInfo b)
      (compare_always compareIgnoreCase (uri_host a) (uri_host b)
         (if uri_port a =? uri_port b then next else Ok (if 0 <? s32 (uri_port a - uri_port b) then 1 else -1)))
  else compare_always compare (uri_authority a) (uri_authority b) next.

Definition URI_compareTo (a b : URI) : outcome Z :=
  compare_parts (-1) compareIgnoreCase (uri_scheme a) (uri_scheme b)
    (if negb (uri_opaque a) && uri_opaque b then Ok (-1)
     else if uri_opaque a && negb (uri_opaque b) then Ok 1
     else if uri_opaque a then compare_always compare_decoded (uri_schemeSpecificPart a) (uri_schemeSpecificPart b) (compare_fragments a b)
     else compare_authority a b
       (compare_always compare_decoded (uri_path a) (uri_path b)
         (compare_parts (-1) compare_decoded (uri_query a) (uri_query b) (compare_fragments a b)))).

(** [operator==]; the components of a parsed URI decode. *)
Definition uri_eqb (a b : URI) : bool := match URI_compareTo a b with Ok n => n =? 0 | _ => false end.

(** [equalsHexCaseInsensitive]: what is between the escapes is compared as it is, the two
    digits and the character after them by [compareIgnoreCase]. *)
Fixpoint find_percent (s : list Z) : option nat :=
  match s with [] => None | c :: s' => if c =? 37 then Some O else option_map S (find_percent s') end.

Fixpoint equals_escaped (fuel : nat) (a b : list Z) : outcome bool :=
  match fuel with
  | O => Hang
  | S fuel' =>
      match find_percent a, find_percent b with
      | Some i, Some j =>
          if (i =? j)%nat then
            if bool_decide (firstn i a = firstn i b) then
              match compareIgnoreCase (firstn 3 (skipn (S i) a)) (firstn 3 (skipn (S i) b)) with
              | Ok 0 =>
                  if (i + 3 <=? length a)%nat && (i + 3 <=? length b)%nat then equals_escaped fuel' (skipn (i + 3) a) (skipn (i + 3) b)
                  else Throw StdException
              | Ok _ => Ok false
              | Throw e => Throw e | UB => UB | Hang => Hang
              end
            else Ok false
          else Ok (bool_decide (a = b))
      | _, _ => Ok (bool_decide (a = b))
      end
  end.

Definition equalsHexCaseInsensitive (first second : list Z) : outcome bool :=
  if bool_decide (find_percent first = find_percent second) then equals_escaped (S (length first)) first second
  else match compare first second with Ok n => Ok (n =? 0) | Throw e => Throw e | UB => UB | Hang => Hang end.

(** A part that both have, or neither has, and what is said of the rest if it is the same. *)
Definition same_part (cmp : list Z -> list Z -> outcome bool) (a b : list Z) (next : outcome bool) : outcome bool :=
  if is_empty a && is_empty b then next
  else if is_empty a || is_empty b then Ok false
  else match cmp a b with Ok true => next | r => r end.

Definition equals_ignoring_case (a b : list Z) : outcome bool :=
  match compareIgnoreCase a b with Ok n => Ok (n =? 0) | Throw e => Throw e | UB => UB | Hang => Hang end.

Definition URI_equals (this uri : URI) : outcome bool :=
  same_part equalsHexCaseInsensitive (uri_fragment uri) (uri_fragment this)
    (same_part equals_ignoring_case (uri_scheme uri) (uri_scheme this)
      (if uri_opaque uri && uri_opaque this then equalsHexCaseInsensitive (uri_schemeSpecificPart uri) (uri_schemeSpecificPart this)
       else if uri_opaque uri || uri_opaque this then Ok false
       else match equalsHexCaseInsensitive (uri_path this) (uri_path uri) with
            | Ok true =>
                same_part equalsHexCaseInsensitive (uri_query uri) (uri_query this)
                  (if is_empty (uri_authority uri) && is_empty (uri_authority this) then Ok true
                   else if is_empty (uri_authority uri) || is_empty (uri_authority this) then Ok false
                   else if is_empty (uri_host uri) && is_empty (uri_host this) then equalsHexCaseInsensitive (uri_authority uri) (uri_authority this)
                   else same_part equals_ignoring_case (uri_host uri) (uri_host this)
                     (if uri_port this =? uri_port uri then same_part equalsHexCaseInsensitive (uri_userInfo this) (uri_userInfo uri) (Ok true) else Ok false))
            | r => r
            end)).

(** [toString()] *)
Definition uri_toString (u : URI) : list Z :=
  match uri_string u with
  | [] =>
      (if is_empty (uri_scheme u) then [] else uri_scheme u ++ [58]) ++
      (if uri_opaque u then uri_schemeSpecificPart u
       else (if is_empty (uri_authority u) then [] else [47; 47] ++ uri_authority u) ++ uri_path u ++
            (if is_empty (uri_query u) then [] else [63] ++ uri_query u)) ++
      (if is_empty (uri_fragment u) then [] else [35] ++ uri_fragment u)
  | s => s
  end.

(** ** URIPool *)

Record URIPool : Type := mkURIPool { uriPool : list URI; priorityURI : URI; randomize : bool }.

#[export] Instance URIPool_eq_dec : EqDecision URIPool.
Proof. solve_decision. Defined.

Definition URIPool_new : URIPool := mkURIPool [] empty_URI false.
Definition set_uriPool x (p : URIPool) : URIPool := mkURIPool x (priorityURI p) (randomize p).

Definition pool_contains (u : URI) (p : URIPool) : bool := existsb (fun v => uri_eqb v u) (uriPool p).
Definition pool_isEmpty (p : URIPool) : bool := match uriPool p with [] => true | _ => false end.

Definition set_priority (u : URI) (p : URIPool) : URIPool :=
  if is_empty (uri_toString (priorityURI p)) && negb (is_empty (uri_toString u)) then mkURIPool (uriPool p) u (randomize p) else p.

Definition addURI (u : URI) : M URIPool bool :=
  modify (set_priority u) ;;;
  p <- get ;;
  if pool_contains u p then ret false else modify (set_uriPool (uriPool p ++ [u])) ;;; ret true.

Fixpoint addURIs (us : list URI) : M URIPool bool :=
  match us with
  | [] => ret false
  | u :: us' => added <- addURI u ;; rest <- addURIs us' ;; ret (added || rest)
  end.

(** [removeFirstOccurrence] *)
Fixpoint remove_first (u : URI) (l : list URI) : list URI :=
  match l with [] => [] | v :: l' => if uri_eqb v u then l' else v :: remove_first u l' end.
Definition removeURI (u : URI) : M URIPool bool :=
  p <- get ;;
  if pool_contains u p then modify (set_uriPool (remove_first u (uriPool p))) ;;; ret true else ret false.

(** [getURI]: where the pool is randomized, [index] is what the generator draws. *)
Definition getURI (index : Z) : M URIPool URI :=
  p <- get ;;
  let i := if randomize p then Z.to_nat index else O in
  match uriPool p with
  | [] => throw NoSuchElementException
  | l => match List.nth_error l i with
         | Some u => modify (set_uriPool (firstn i l ++ skipn (S i) l)) ;;; ret u
         | None => undefined
         end
  end.

(** [getURIList], [clear], and [equals] of the lists: as many, and each of the other's there. *)
Definition pool_clear : M URIPool unit := modify (set_uriPool []).
Definition pool_equals (p q : URIPool) : bool :=
  (length (uriPool p) =? length (uriPool q))%nat && forallb (fun u => pool_contains u p) (uriPool q).
(** The copy of a pool: its list, the first of which has priority. *)
Definition pool_copy (p : URIPool) : URIPool := mkURIPool (uriPool p) (match uriPool p with [] => empty_URI | u :: _ => u end) false.

(** ** The comparison of a URI with itself and the other way round *)

(** The components of a URI decode, and its port is one. *)
Definition uri_ok (u : URI) : Prop :=
  Forall (fun s => exists d, decode s = Ok d) [uri_schemeSpecificPart u; uri_userInfo u; uri_path u; uri_query u; uri_fragment u] /\
  -1 <= uri_port u <= 65535.
