(* ===== verification/Floating.v ===== *)
(** * Floating point: [double] and [float] as [spec_float] of binary64 and binary32, with the
    Standard Library's arithmetic, and the conversion to an integer. *)
From S2P Require Import Prelude.
From Stdlib Require Import Floats.SpecFloat.

Definition prec : Z := 53.
Definition emax : Z := 1024.
Definition double : Type := spec_float.
Definition dmul : double -> double -> double := SFmul prec emax.
Definition double_of (z : Z) : double := binary_normalize prec emax z 0 false.

Definition float : Type := spec_float.
Definition fmul : float -> float -> float := SFmul 24 128.
Definition float_of (z : Z) : float := binary_normalize 24 128 z 0 false.

(** A conversion to a [w]-bit signed type drops the fraction; a value outside the type
    is undefined. *)
Definition truncate (w : Z) (x : spec_float) : outcome Z :=
  match x with
  | S754_zero _ => Ok 0
  | S754_finite s m e =>
      let v := (if s then -1 else 1) * (if 0 <=? e then Z.shiftl (Z.pos m) e else Z.shiftr (Z.pos m) (- e)) in
      if bool_decide (in_s w v) then Ok v else UB
  | _ => UB
  end.
