(* ===== verification/HashMap.v ===== *)
(** * HashMap, LinkedHashMap and LRUCache (decaf/util)

    The table is an array of buckets, a bucket the list of its entries; the chain that runs
    through a LinkedHashMap is the list of its keys, the head first. The hash function and
    the equality of keys are those of the template's arguments. [modCount] has no width. *)
From stdpp Require Import gmap sorting.
From S2P Require Import Prelude Floating.

(** [HashCode<std::string>]; the [int] wraps around, as it does with the compilers in use,
    though the language leaves the overflow undefined. *)
Definition string_hash (arg : list Z) : Z := foldl (fun h c => s32 (31 * h + s8 c)) 0 arg.

Section hash_map.
Context {K V : Type} `{EqDecision K} (hashFunc : K -> Z).

Record HashMapEntry : Type := mkEntry { entry_key : K; entry_value : V; origKeyHash : Z }.

Record HashMap : Type := mkHashMap {
  elementCount : Z;
  elementData : list (list HashMapEntry);
  modCount : Z;
  loadFactor : float;
  threshold : Z;
}.

Definition set_elementData d (m : HashMap) : HashMap := mkHashMap (elementCount m) d (modCount m) (loadFactor m) (threshold m).
Definition set_elementCount n (m : HashMap) : HashMap := mkHashMap n (elementData m) (modCount m) (loadFactor m) (threshold m).
Definition set_threshold n (m : HashMap) : HashMap := mkHashMap (elementCount m) (elementData m) (modCount m) (loadFactor m) n.
Definition count_change (m : HashMap) : HashMap :=
  mkHashMap (elementCount m) (elementData m) (modCount m + 1) (loadFactor m) (threshold m).

(** ** Capacity *)

Definition calculateCapacity (x : Z) : Z :=
  if 2 ^ 30 <=? x then 2 ^ 30
  else if x =? 0 then 16
  else
    let x := x - 1 in
    let x := Z.lor x (Z.shiftr x 1) in
    let x := Z.lor x (Z.shiftr x 2) in
    let x := Z.lor x (Z.shiftr x 4) in
    let x := Z.lor x (Z.shiftr x 8) in
    let x := Z.lor x (Z.shiftr x 16) in
    x + 1.

Definition computeThreshold : M HashMap unit :=
  m <- get ;;
  match truncate 32 (fmul (float_of (zlen (elementData m))) (loadFactor m)) with
  | Ok n => modify (set_threshold n)
  | _ => undefined
  end.

(** 0.75 *)
Definition DEFAULT_LOAD : float := SpecFloat.SFdiv 24 128 (float_of 3) (float_of 4).

Definition positive (x : float) : bool := SpecFloat.SFltb (float_of 0) x.

(** [HashMap(capacity, loadFactor)] *)
Definition HashMap_new (capacity : Z) (load : float) : outcome HashMap :=
  if (0 <=? capacity) && positive load then
    let m := mkHashMap 0 (replicate (Z.to_nat (calculateCapacity capacity)) []) 0 load 0 in
    match computeThreshold m with (Ok _, m') => Ok m' | _ => UB end
  else Throw IllegalArgumentException.

(** ** Entries *)

Definition index_of (hash : Z) (m : HashMap) : Z := Z.land hash (zlen (elementData m) - 1).

(** [elementData[index]] *)
Definition bucket (index : Z) : M HashMap (list HashMapEntry) := fun m =>
  if index <? 0 then (UB, m)
  else match elementData m !! Z.to_nat index with Some b => (Ok b, m) | None => (UB, m) end.
Definition set_bucket (index : Z) (b : list HashMapEntry) : M HashMap unit :=
  modify (fun m => set_elementData (<[Z.to_nat index := b]> (elementData m)) m).

Definition matches (key : K) (hash : Z) (e : HashMapEntry) : bool := (origKeyHash e =? hash) && bool_decide (key = entry_key e).

Definition findKeyEntry (key : K) (index keyHash : Z) : M HashMap (option HashMapEntry) :=
  b <- bucket index ;; ret (List.find (matches key keyHash) b).

Definition getEntry (key : K) : M HashMap (option HashMapEntry) :=
  let hash := hashFunc key in
  m <- get ;; findKeyEntry key (index_of hash m) hash.

(** A new entry, at the head of its bucket, with the value that [putImpl] sets then. *)
Definition createHashedEntry (key : K) (index hash : Z) (value : V) : M HashMap unit :=
  b <- bucket index ;; set_bucket index (mkEntry key value hash :: b).

(** [setValue] of the entry of a key, which [findKeyEntry] has found. *)
Fixpoint replace_value (p : HashMapEntry -> bool) (value : V) (b : list HashMapEntry) : list HashMapEntry :=
  match b with
  | [] => []
  | e :: b' => if p e then mkEntry (entry_key e) value (origKeyHash e) :: b' else e :: replace_value p value b'
  end.
Definition setValue (key : K) (value : V) : M HashMap unit :=
  let hash := hashFunc key in
  m <- get ;;
  b <- bucket (index_of hash m) ;;
  set_bucket (index_of hash m) (replace_value (matches key hash) value b).

(** Every entry moves to the head of its bucket in the new array; the index is below its
    length, which is a power of two. *)
Definition move_entry (length : Z) (newData : list (list HashMapEntry)) (e : HashMapEntry) : list (list HashMapEntry) :=
  alter (cons e) (Z.to_nat (Z.land (origKeyHash e) (length - 1))) newData.

Definition rehash (capacity : Z) : M HashMap unit :=
  if 2 ^ 31 <=? Z.shiftl capacity 1 then undefined
  else
    let length := calculateCapacity (if capacity =? 0 then 1 else Z.shiftl capacity 1) in
    modify (fun m => set_elementData
      (foldl (foldl (move_entry length)) (replicate (Z.to_nat length) []) (elementData m)) m) ;;;
    computeThreshold.

Definition rehash_full : M HashMap unit := m <- get ;; rehash (zlen (elementData m)).

(** ** HashMap's own operations: the value replaced, if any, is the third argument of
    [put]. *)

Definition putImpl (key : K) (value : V) : M HashMap (option V) :=
  let hash := hashFunc key in
  m <- get ;;
  entry <- findKeyEntry key (index_of hash m) hash ;;
  match entry with
  | None =>
      modify count_change ;;;
      createHashedEntry key (index_of hash m) hash value ;;;
      modify (fun m => set_elementCount (elementCount m + 1) m) ;;;
      m <- get ;;
      (if threshold m <? elementCount m then rehash_full else ret tt) ;;;
      ret None
  | Some e => setValue key value ;;; ret (Some (entry_value e))
  end.

Definition get_value (key : K) : M HashMap V :=
  e <- getEntry key ;; match e with Some e => ret (entry_value e) | None => throw NoSuchElementException end.

Definition hm_containsKey (key : K) : M HashMap bool :=
  e <- getEntry key ;; ret (match e with Some _ => true | None => false end).

Definition hm_clear : M HashMap unit :=
  m <- get ;;
  if 0 <? elementCount m then
    modify (fun m => count_change (set_elementData (map (fun _ => []) (elementData m)) (set_elementCount 0 m)))
  else ret tt.

(** The entry leaves its bucket. *)
Fixpoint unlink (p : HashMapEntry -> bool) (b : list HashMapEntry) : list HashMapEntry :=
  match b with [] => [] | e :: b' => if p e then b' else e :: unlink p b' end.
Definition removeEntry (key : K) : M HashMap (option HashMapEntry) :=
  let hash := hashFunc key in
  m <- get ;;
  b <- bucket (index_of hash m) ;;
  match List.find (matches key hash) b with
  | None => ret None
  | Some e =>
      set_bucket (index_of hash m) (unlink (matches key hash) b) ;;;
      modify count_change ;;;
      modify (fun m => set_elementCount (elementCount m - 1) m) ;;;
      ret (Some e)
  end.

Definition hm_remove (key : K) : M HashMap V :=
  e <- removeEntry key ;; match e with Some e => ret (entry_value e) | None => throw NoSuchElementException end.
End hash_map.
Arguments HashMapEntry : clear implicits.
Arguments HashMap : clear implicits.

(** ** LinkedHashMap *)

Section linked_hash_map.
Context {K V : Type} `{EqDecision K, EqDecision V} (hashFunc : K -> Z).

(** [chain]: the keys from [head] to [tail]. *)
Record LinkedHashMap : Type := mkLinked { table : HashMap K V; accessOrder : bool; chain : list K }.

Definition set_chain l (m : LinkedHashMap) : LinkedHashMap := mkLinked (table m) (accessOrder m) l.
Definition on_table {B} (op : M (HashMap K V) B) : M LinkedHashMap B :=
  fun m => let '(r, t) := op (table m) in (r, mkLinked t (accessOrder m) (chain m)).

Definition LinkedHashMap_new (capacity : Z) (load : float) (order : bool) : outcome LinkedHashMap :=
  match HashMap_new capacity load with
  | Ok t => Ok (mkLinked t order [])
  | Throw e => Throw e
  | UB => UB
  | Hang => Hang
  end.

Definition without (key : K) (l : list K) : list K := List.filter (fun k => negb (bool_decide (k = key))) l.
Definition to_tail (key : K) (l : list K) : list K := without key l ++ [key].
Definition is_tail (key : K) (l : list K) : bool := bool_decide (list.last l = Some key).

(** Looking a key up is an access. *)
Definition lhm_getEntry (key : K) : M LinkedHashMap (option (HashMapEntry K V)) :=
  e <- on_table (getEntry hashFunc key) ;;
  m <- get ;;
  match e with
  | Some e =>
      (if accessOrder m && negb (is_tail key (chain m)) then modify (set_chain (to_tail key (chain m))) else ret tt) ;;;
      ret (Some e)
  | None => ret None
  end.

(** A new entry goes to the tail; an old one in access order too. *)
Definition linkEntry (key : K) : M LinkedHashMap unit :=
  m <- get ;;
  if is_tail key (chain m) then ret tt
  else match chain m with
  | [] => modify (set_chain [key])
  | l =>
      if bool_decide (key ∈ l) then
        if accessOrder m then modify (set_chain (to_tail key l)) else ret tt
      else modify (set_chain (l ++ [key]))
  end.

Definition lhm_putImpl (key : K) (value : V) : M LinkedHashMap (option V) :=
  m <- get ;;
  (if elementCount (table m) =? 0 then modify (set_chain []) else ret tt) ;;;
  let hash := hashFunc key in
  entry <- on_table (findKeyEntry key (index_of hash (table m)) hash) ;;
  match entry with
  | None =>
      on_table (modify (fun t => set_elementCount (elementCount t + 1) (count_change t))) ;;;
      m <- get ;;
      (if threshold (table m) <? elementCount (table m) then on_table rehash_full else ret tt) ;;;
      m <- get ;;
      on_table (createHashedEntry key (index_of hash (table m)) hash value) ;;;
      linkEntry key ;;;
      ret None
  | Some e =>
      linkEntry key ;;;
      on_table (setValue hashFunc key value) ;;;
      ret (Some (entry_value e))
  end.

Definition lhm_remove (key : K) : M LinkedHashMap V :=
  e <- on_table (removeEntry hashFunc key) ;;
  match e with
  | Some e => modify (fun m => set_chain (without key (chain m)) m) ;;; ret (entry_value e)
  | None => throw NoSuchElementException
  end.

(** [put], with the virtual [removeEldestEntry]; [*head] is dereferenced. *)
Definition lhm_put (removeEldestEntry : LinkedHashMap -> bool) (key : K) (value : V) : M LinkedHashMap (option V) :=
  result <- lhm_putImpl key value ;;
  m <- get ;;
  match chain m with
  | [] => undefined
  | eldest :: _ => if removeEldestEntry m then lhm_remove eldest ;;; ret result else ret result
  end.

Definition lhm_get (key : K) : M LinkedHashMap V :=
  e <- lhm_getEntry key ;; match e with Some e => ret (entry_value e) | None => throw NoSuchElementException end.
Definition lhm_containsKey (key : K) : M LinkedHashMap bool :=
  e <- lhm_getEntry key ;; ret (match e with Some _ => true | None => false end).

(** The value an entry of the table has. *)
Definition value_of (key : K) (m : LinkedHashMap) : option V :=
  option_map entry_value (List.find (fun e => bool_decide (key = entry_key e)) (concat (elementData (table m)))).
Definition lhm_containsValue (value : V) (m : LinkedHashMap) : bool :=
  existsb (fun k => bool_decide (value_of k m = Some value)) (chain m).

Definition lhm_clear : M LinkedHashMap unit := on_table hm_clear ;;; modify (set_chain []).

(** The entries of another map, in its order: [putAllImpl] calls [putImpl] and evicts
    nothing. *)
Definition lhm_putAll (source : LinkedHashMap) : M LinkedHashMap unit :=
  if elementCount (table source) =? 0 then ret tt
  else
    m <- get ;;
    let capacity := elementCount (table m) + elementCount (table source) in
    (if threshold (table m) <? capacity then on_table (rehash capacity) else ret tt) ;;;
    iter_m (fun k => match value_of k source with Some v => lhm_putImpl k v ;;; ret tt | None => undefined end) (chain source).

(** The objects the values are may be changed in place. *)
Definition on_value {B} (key : K) (op : M V B) : M LinkedHashMap B :=
  m <- get ;;
  match value_of key m with
  | None => undefined
  | Some v =>
      let '(r, v') := op v in
      on_table (setValue hashFunc key v') ;;; fun m => (r, m)
  end.
End linked_hash_map.
Arguments LinkedHashMap : clear implicits.

(** ** LRUCache *)

Section lru_cache.
Context {K V : Type} `{EqDecision K, EqDecision V} (hashFunc : K -> Z).

Record LRUCache : Type := mkCache { cache : LinkedHashMap K V; maxCacheSize : Z }.

Definition on_cache {B} (op : M (LinkedHashMap K V) B) : M LRUCache B :=
  fun c => let '(r, m) := op (cache c) in (r, mkCache m (maxCacheSize c)).

(** The four constructors; the default has room for 10000 entries. *)
Definition LRUCache_new4 (initialCapacity maximumCacheSize : Z) (load : float) (order : bool) : outcome LRUCache :=
  match LinkedHashMap_new initialCapacity load order with
  | Ok m => if maximumCacheSize <=? 0 then Throw IllegalArgumentException else Ok (mkCache m maximumCacheSize)
  | Throw e => Throw e
  | UB => UB
  | Hang => Hang
  end.
Definition LRUCache_new : outcome LRUCache := LRUCache_new4 0 10000 DEFAULT_LOAD true.
Definition LRUCache_sized (maximumCacheSize : Z) : outcome LRUCache := LRUCache_new4 0 maximumCacheSize DEFAULT_LOAD true.

Definition setMaxCacheSize (size : Z) : M LRUCache unit :=
  if size <=? 0 then throw IllegalArgumentException else modify (fun c => mkCache (cache c) size).

Definition lru_removeEldestEntry (max : Z) (m : LinkedHashMap K V) : bool := max <? elementCount (table m).

Definition lru_put (key : K) (value : V) : M LRUCache (option V) :=
  c <- get ;; on_cache (lhm_put hashFunc (lru_removeEldestEntry (maxCacheSize c)) key value).
Definition lru_get (key : K) : M LRUCache V := on_cache (lhm_get hashFunc key).
Definition lru_remove (key : K) : M LRUCache V := on_cache (lhm_remove hashFunc key).
Definition lru_containsKey (key : K) : M LRUCache bool := on_cache (lhm_containsKey hashFunc key).
Definition lru_clear : M LRUCache unit := on_cache lhm_clear.
Definition lru_putAll (source : LinkedHashMap K V) : M LRUCache unit := on_cache (lhm_putAll hashFunc source).
End lru_cache.
Arguments LRUCache : clear implicits.

(** ** The table as a finite map *)

Section table_ok.
Context {K V : Type} `{Countable K} (hashFunc : K -> Z).
Implicit Types (t : HashMap K V) (b : list (HashMapEntry K V)) (e : HashMapEntry K V).

Definition kv b : list (K * V) := map (fun e => (entry_key e, entry_value e)) b.
Definition kvs t : list (K * V) := kv (concat (elementData t)).
Definition abs t : gmap K V := list_to_map (kvs t).

(** An entry is in the bucket its hash selects. *)
Definition placed (length : Z) (i : nat) e : Prop :=
  origKeyHash e = hashFunc (entry_key e) /\ i = Z.to_nat (Z.land (hashFunc (entry_key e)) (length - 1)).

(** The array has [2 ^ k] buckets, [k <= K0]. *)
Record shape (K0 : nat) t : Prop := {
  ok_length : exists k, (k <= K0)%nat /\ zlen (elementData t) = 2 ^ Z.of_nat k;
  ok_threshold : threshold t = 3 * zlen (elementData t) / 4;
  ok_load : loadFactor t = DEFAULT_LOAD;
  ok_placed : forall i b e, elementData t !! i = Some b -> e ∈ b -> placed (zlen (elementData t)) i e;
}.
Record table_ok (K0 : nat) t : Prop := {
  ok_shape : shape K0 t;
  ok_nodup : NoDup (kvs t).*1;
  ok_count : elementCount t = zlen (kvs t);
}.

Lemma land_index (h : Z) (k : nat) : 0 <= Z.land h (2 ^ Z.of_nat k - 1) < 2 ^ Z.of_nat k.
Proof.
  rewrite Z.sub_1_r, <- Z.ones_equiv, Z.land_ones by lia. apply Z.mod_pos_bound, Z.pow_pos_nonneg; lia.
Qed.

(** *** Buckets *)

Lemma bucket_ok K0 t key : shape K0 t -> exists b, elementData t !! Z.to_nat (index_of (hashFunc key) t) = Some b /\
  bucket (index_of (hashFunc key) t) t = (Ok b, t).
Proof.
  intros Hok. destruct (ok_length _ _ Hok) as (k & _ & Hk). unfold index_of.
  pose proof (land_index (hashFunc key) k) as Hi. rewrite <- Hk in Hi. unfold zlen in *.
  destruct (elementData t !! Z.to_nat (Z.land (hashFunc key) (Z.of_nat (length (elementData t)) - 1))) as [b|] eqn:E.
  - exists b. split; [done|]. unfold bucket. by rewrite (proj2 (Z.ltb_ge _ _)), E by lia.
  - apply lookup_ge_None in E. lia.
Qed.

Lemma kv_app b b' : kv (b ++ b') = kv b ++ kv b'.
Proof. apply map_app. Qed.

(** The entries of one bucket and the rest. *)
Lemma bucket_split t i b : elementData t !! i = Some b ->
  exists rest, kvs t ≡ₚ kv b ++ rest /\ forall b', kvs (set_elementData (<[i := b']> (elementData t)) t) ≡ₚ kv b' ++ rest.
Proof.
  intros E. apply list_elem_of_split_length in E as (l1 & l2 & E & ->). exists (kv (concat l1) ++ kv (concat l2)).
  unfold kvs. cbn [elementData set_elementData]. rewrite E. split; [|intros b'].
  - rewrite concat_app. cbn [concat]. rewrite !kv_app. solve_Permutation.
  - rewrite (insert_app_r_alt l1) by lia. rewrite Nat.sub_diag. cbn [insert list_insert].
    rewrite concat_app. cbn [concat]. rewrite !kv_app. solve_Permutation.
Qed.

Lemma find_split (p : HashMapEntry K V -> bool) b e : List.find p b = Some e ->
  exists b1 b2, b = b1 ++ e :: b2 /\ p e = true /\ unlink p b = b1 ++ b2 /\
    forall v, replace_value p v b = b1 ++ mkEntry (entry_key e) v (origKeyHash e) :: b2.
Proof.
  induction b as [|x b IH]; [done|]. cbn. destruct (p x) eqn:Ex.
  - intros [= ->]. by exists [], b.
  - intros (b1 & b2 & -> & ? & -> & Hv)%IH. exists (x :: b1), b2. split_and!; [done..|]. intros v. cbn. by rewrite Hv.
Qed.

Lemma matches_key key e : matches key (hashFunc key) e = true -> entry_key e = key.
Proof. unfold matches. intros [_ ?%bool_decide_eq_true]%andb_true_iff. done. Qed.

Lemma abs_perm t l : NoDup (kvs t).*1 -> kvs t ≡ₚ l -> abs t = list_to_map l.
Proof. intros Hn Hp. by apply list_to_map_proper. Qed.

(** Looking a key up in its bucket is looking it up in the map. *)
Lemma find_abs K0 t key b : table_ok K0 t -> elementData t !! Z.to_nat (index_of (hashFunc key) t) = Some b ->
  option_map entry_value (List.find (matches key (hashFunc key)) b) = abs t !! key.
Proof.
  intros Hok E. destruct (bucket_split _ _ _ E) as (rest & Hp & _).
  destruct (List.find _ b) as [e|] eqn:Ef; cbn.
  - destruct (find_split _ _ _ Ef) as (b1 & b2 & -> & <-%matches_key & _).
    symmetry. apply elem_of_list_to_map; [apply Hok|]. rewrite Hp, kv_app. set_solver.
  - symmetry. apply not_elem_of_list_to_map. intros Hin.
    apply list_elem_of_fmap in Hin as ([key' v] & -> & Hin). cbn [fst] in *. unfold kvs, kv in Hin.
    apply list_elem_of_fmap in Hin as (e & [= -> ->] & Hin).
    apply list_elem_of_In, in_concat in Hin as (b' & Hb' & He). apply list_elem_of_In in Hb', He.
    apply list_elem_of_lookup in Hb' as [i Hi].
    destruct (ok_placed _ _ (ok_shape _ _ Hok) _ _ _ Hi He) as [Hh ->]. unfold index_of in E. rewrite E in Hi. injection Hi as <-.
    rewrite list_elem_of_In in He. apply (find_none _ _ Ef) in He. unfold matches in He. rewrite Hh, Z.eqb_refl, bool_decide_true in He by done. done.
Qed.

(** *** What the steps of an operation do *)

Lemma shape_bucket K0 t i b' : shape K0 t -> Forall (placed (zlen (elementData t)) i) b' ->
  shape K0 (set_elementData (<[i := b']> (elementData t)) t).
Proof.
  intros [Hk Ht Hl Hp] Hb. assert (zlen (<[i := b']> (elementData t)) = zlen (elementData t)) as E by (unfold zlen; by rewrite length_insert).
  split; cbn; rewrite ?E; try done. intros j b e Hj He. apply list_lookup_insert_Some in Hj as [(<- & <- & _)|[_ Hj]]; [|by eapply Hp].
  by eapply List.Forall_forall in Hb; [|apply list_elem_of_In].
Qed.

Lemma placed_bucket K0 t i b : shape K0 t -> elementData t !! i = Some b -> Forall (placed (zlen (elementData t)) i) b.
Proof. intros Hs Hi. apply List.Forall_forall. intros e He. apply (ok_placed _ _ Hs _ _ _ Hi). by apply list_elem_of_In. Qed.

Lemma placed_around K0 t i b1 e b2 : shape K0 t -> elementData t !! i = Some (b1 ++ e :: b2) ->
  let P := placed (zlen (elementData t)) i in Forall P b1 /\ P e /\ Forall P b2.
Proof. intros Hs [? [? ?]%List.Forall_cons_iff]%(placed_bucket _ _ _ _ Hs)%List.Forall_app. done. Qed.

Lemma create_ok K0 t key v : shape K0 t -> exists t', createHashedEntry key (index_of (hashFunc key) t) (hashFunc key) v t = (Ok tt, t') /\
  shape K0 t' /\ kvs t' ≡ₚ (key, v) :: kvs t /\ elementCount t' = elementCount t /\ zlen (elementData t') = zlen (elementData t).
Proof.
  intros Hs. destruct (bucket_ok _ _ key Hs) as (b & Hb & E). destruct (bucket_split _ _ _ Hb) as (rest & Hp & Hp').
  eexists. split_and!; [unfold createHashedEntry; by rewrite (bind_ok _ _ _ _ _ E)| | |done|].
  - apply shape_bucket; [done|]. constructor; [done|by eapply placed_bucket].
  - rewrite (Hp' (mkEntry key v (hashFunc key) :: b)), Hp. done.
  - unfold zlen. cbn. by rewrite length_insert.
Qed.

Lemma setValue_ok K0 t key v v0 : table_ok K0 t -> abs t !! key = Some v0 -> exists t', setValue hashFunc key v t = (Ok tt, t') /\
  table_ok K0 t' /\ abs t' = <[key := v]> (abs t) /\ elementCount t' = elementCount t /\ zlen (elementData t') = zlen (elementData t).
Proof.
  intros [Hs Hn Hc] Hv. destruct (bucket_ok _ _ key Hs) as (b & Hb & E). destruct (bucket_split _ _ _ Hb) as (rest & Hp & Hp').
  pose proof (find_abs _ _ _ _ (Build_table_ok _ _ Hs Hn Hc) Hb) as Hf. rewrite Hv in Hf.
  destruct (List.find _ b) as [e|] eqn:Ef; [|done]. destruct (find_split _ _ _ Ef) as (b1 & b2 & -> & <-%matches_key & _ & Hr).
  specialize (Hp' (replace_value (matches (entry_key e) (hashFunc (entry_key e))) v (b1 ++ e :: b2))). rewrite Hr in Hp'.
  eexists. split; [unfold setValue; rewrite bind_get, (bind_ok _ _ _ _ _ E); reflexivity|]. rewrite Hr.
  set (t' := set_elementData _ _). assert (kvs t' ≡ₚ (entry_key e, v) :: kv (b1 ++ b2) ++ rest) as P' by
    (subst t'; rewrite Hp', !kv_app; cbn; solve_Permutation).
  assert (kvs t ≡ₚ (entry_key e, entry_value e) :: kv (b1 ++ b2) ++ rest) as P by (rewrite Hp, !kv_app; cbn; solve_Permutation).
  assert (NoDup (kvs t').*1) as Hn' by (rewrite P'; rewrite P in Hn; exact Hn).
  split_and!; [|..|done|unfold zlen; cbn; by rewrite length_insert].
  - split; [|done|].
    + subst t'. apply shape_bucket; [done|]. destruct (placed_around _ _ _ _ _ _ Hs Hb) as (? & ? & ?).
      apply List.Forall_app. split; [done|by constructor].
    + change (elementCount t') with (elementCount t). rewrite Hc. unfold zlen. by rewrite P', P.
  - rewrite (abs_perm _ _ Hn' P'), (abs_perm _ _ Hn P). cbn. by rewrite insert_insert_eq.
Qed.

Lemma removeEntry_ok K0 t key : table_ok K0 t ->
  match abs t !! key with
  | None => removeEntry hashFunc key t = (Ok None, t)
  | Some v => exists e t', removeEntry hashFunc key t = (Ok (Some e), t') /\ entry_value e = v /\ table_ok K0 t' /\ abs t' = delete key (abs t)
  end.
Proof.
  intros [Hs Hn Hc]. destruct (bucket_ok _ _ key Hs) as (b & Hb & E). destruct (bucket_split _ _ _ Hb) as (rest & Hp & Hp').
  pose proof (find_abs _ _ _ _ (Build_table_ok _ _ Hs Hn Hc) Hb) as Hf. unfold removeEntry. rewrite bind_get, (bind_ok _ _ _ _ _ E).
  destruct (List.find _ b) as [e|] eqn:Ef; cbn in Hf; rewrite <- Hf; [|done]. destruct (find_split _ _ _ Ef) as (b1 & b2 & -> & Hm & Hu & _).
  apply matches_key in Hm as <-. rewrite Hu. specialize (Hp' (b1 ++ b2)).
  eexists e, _. split; [reflexivity|]. split; [done|].
  assert (kvs t ≡ₚ (entry_key e, entry_value e) :: kv (b1 ++ b2) ++ rest) as P by (rewrite Hp, !kv_app; cbn; solve_Permutation).
  set (t' := set_elementData _ _) in Hp'. set (t'' := set_elementCount _ _).
  assert (NoDup (kvs t'').*1) as Hn' by (subst t''; change (kvs _) with (kvs t'); rewrite Hp'; rewrite P in Hn; by apply list.NoDup_cons in Hn as []).
  split; [split; [|done|]|].
  - assert (shape K0 t') as [? ? ? ?]; [|by split]. subst t'. apply shape_bucket; [done|]. destruct (placed_around _ _ _ _ _ _ Hs Hb) as (? & ? & ?).
    by apply List.Forall_app.
  - change (elementCount t'') with (elementCount t - 1). change (kvs t'') with (kvs t'). rewrite Hc. unfold zlen. rewrite Hp', P. cbn. lia.
  - rewrite (abs_perm t'' _ Hn' Hp'), (abs_perm _ _ Hn P). cbn. rewrite delete_insert_id; [done|].
    apply not_elem_of_list_to_map. rewrite P in Hn. by apply list.NoDup_cons in Hn as [].
Qed.

(** *** Capacities *)

Lemma capacity_of_pow k : (k <= 29)%nat -> calculateCapacity (2 * 2 ^ Z.of_nat k) = 2 ^ Z.of_nat (S k).
Proof.
  intros Hk. assert (forallb (fun k => calculateCapacity (2 * 2 ^ Z.of_nat k) =? 2 ^ Z.of_nat (S k)) (seq 0 30) = true) as E by by vm_compute.
  eapply forallb_forall in E; [by apply Z.eqb_eq|]. apply in_seq. lia.
Qed.

Lemma threshold_of_pow k : (k <= 30)%nat -> truncate 32 (fmul (float_of (2 ^ Z.of_nat k)) DEFAULT_LOAD) = Ok (3 * 2 ^ Z.of_nat k / 4).
Proof.
  intros Hk.
  assert (forallb (fun k => bool_decide (truncate 32 (fmul (float_of (2 ^ Z.of_nat k)) DEFAULT_LOAD) = Ok (3 * 2 ^ Z.of_nat k / 4))) (seq 0 31) = true)
    as E by by vm_compute.
  eapply forallb_forall in E; [by apply bool_decide_eq_true in E|]. apply in_seq. lia.
Qed.

Lemma moved_all length es nd :
  0 < length -> zlen nd = length -> (forall h, 0 <= Z.land h (length - 1) < length) ->
  (forall i b e, nd !! i = Some b -> e ∈ b -> placed length i e) -> (forall e, e ∈ es -> origKeyHash e = hashFunc (entry_key e)) ->
  let nd' := foldl (move_entry length) nd es in
  zlen nd' = length /\ (forall i b e, nd' !! i = Some b -> e ∈ b -> placed length i e) /\ concat nd' ≡ₚ es ++ concat nd.
Proof.
  intros Hl Hz Hidx. revert nd Hz. induction es as [|e es IH]; intros nd Hz Hp He; cbn [foldl]; [by split_and!|].
  set (i := Z.to_nat (Z.land (origKeyHash e) (length - 1))).
  specialize (Hidx (origKeyHash e)) as Hi. assert (exists b, nd !! i = Some b) as [b Hb] by (apply lookup_lt_is_Some; unfold zlen in Hz; lia).
  assert (move_entry length nd e = <[i := e :: b]> nd) as Em by (unfold move_entry; fold i; apply list_eq; intros j;
    destruct (decide (j = i)) as [->|]; [rewrite list_lookup_alter_eq, Hb, list_lookup_insert_eq; [done|by eapply lookup_lt_Some]|
      by rewrite list_lookup_alter_ne, list_lookup_insert_ne by done]).
  rewrite Em. destruct (IH (<[i := e :: b]> nd)) as (H1 & H2 & H3).
  - unfold zlen in *. by rewrite length_insert.
  - intros j b' e' Hj He'. apply list_lookup_insert_Some in Hj as [(<- & <- & _)|[_ Hj]]; [|by eapply Hp].
    apply elem_of_cons in He' as [->|He']; [|by eapply Hp]. assert (origKeyHash e = hashFunc (entry_key e)) as E by (apply He; set_solver).
    split; [done|]. subst i. by rewrite E.
  - set_solver.
  - split_and!; [done..|]. rewrite H3. apply list_elem_of_split_length in Hb as (l1 & l2 & -> & Hl1). rewrite (insert_app_r_alt l1) by lia.
    rewrite Hl1, Nat.sub_diag. cbn [insert list_insert]. rewrite !concat_app. cbn [concat]. solve_Permutation.
Qed.

Lemma foldl_concat {A B} (f : A -> B -> A) (ls : list (list B)) a : foldl (foldl f) a ls = foldl f a (concat ls).
Proof. revert a. induction ls as [|l ls IH]; intros a; [done|]. cbn. by rewrite IH, foldl_app. Qed.

Lemma concat_replicate_nil {A} n : concat (replicate n (@nil A)) = [].
Proof. by induction n. Qed.

(** A full table is made twice as long, with the same entries. *)
Lemma rehash_ok K0 t : shape K0 t -> 2 * zlen (elementData t) <= 2 ^ Z.of_nat K0 -> (K0 <= 29)%nat ->
  exists t', rehash_full t = (Ok tt, t') /\ shape K0 t' /\ kvs t' ≡ₚ kvs t /\ elementCount t' = elementCount t.
Proof.
  intros [(k & Hk & El) Ht Hl Hp] H2 H29. unfold rehash_full, rehash. rewrite bind_get, El in *.
  assert (S k <= K0)%nat as Hk'.
  { destruct (decide (k < K0)%nat) as [?|Hn]; [done|]. exfalso. assert (k = K0) as -> by lia. pose proof (Z.pow_pos_nonneg 2 (Z.of_nat K0)). lia. }
  assert (0 < 2 ^ Z.of_nat k) as Hpos by (apply Z.pow_pos_nonneg; lia).
  rewrite Z.shiftl_mul_pow2 by lia. replace (2 ^ Z.of_nat k * 2 ^ 1) with (2 * 2 ^ Z.of_nat k) by lia.
  rewrite (proj2 (Z.eqb_neq (2 ^ Z.of_nat k) 0)) by lia.
  rewrite (proj2 (Z.leb_gt _ _)).
  2:{ replace (2 * 2 ^ Z.of_nat k) with (2 ^ Z.of_nat (S k)) by (rewrite Nat2Z.inj_succ, Z.pow_succ_r; lia). apply Z.pow_lt_mono_r; lia. }
  rewrite (capacity_of_pow k) by lia. cbn [bind modify]. set (length := 2 ^ Z.of_nat (S k)).
  assert (0 < length) as Hlen by (apply Z.pow_pos_nonneg; lia).
  assert (zlen (replicate (Z.to_nat length) (@nil (HashMapEntry K V))) = length) as Hz by (unfold zlen; rewrite length_replicate; lia).
  destruct (moved_all length (concat (elementData t)) (replicate (Z.to_nat length) [])) as (E1 & E2 & E3); [done|done| | | |].
  - intros h. apply land_index.
  - intros i b e [-> _]%lookup_replicate. set_solver.
  - intros e He. apply list_elem_of_In, in_concat in He as (b & Hb & He). apply list_elem_of_In in Hb, He. apply list_elem_of_lookup in Hb as [i Hb].
    by destruct (Hp _ _ _ Hb He).
  - rewrite foldl_concat. unfold bind, modify, computeThreshold, get, bind. cbn [elementData set_elementData loadFactor].
    rewrite E1, Hl. subst length. rewrite threshold_of_pow by lia.
    eexists. split; [reflexivity|]. split_and!; [|unfold kvs, kv; cbn; by rewrite E3, concat_replicate_nil, app_nil_r|done].
    split; cbn; rewrite ?E1; [by exists (S k)|done..].
Qed.

Lemma new_table_ok capacity : calculateCapacity capacity = 2 ^ Z.log2 (calculateCapacity capacity) -> 0 <= capacity -> calculateCapacity capacity < 2 ^ 30 ->
  exists t, HashMap_new capacity DEFAULT_LOAD = Ok t /\ table_ok 29 t /\ abs t = ∅ /\ elementCount t = 0.
Proof.
  intros E H0 H30. set (k := Z.to_nat (Z.log2 (calculateCapacity capacity))).
  assert (calculateCapacity capacity = 2 ^ Z.of_nat k) as Ek by (subst k; pose proof (Z.log2_nonneg (calculateCapacity capacity)); by rewrite Z2Nat.id).
  assert (k <= 29)%nat as Hk.
  { rewrite Ek in H30. destruct (decide (k <= 29)%nat); [done|]. pose proof (Z.pow_le_mono_r 2 30 (Z.of_nat k)). lia. }
  assert (0 < 2 ^ Z.of_nat k) by (apply Z.pow_pos_nonneg; lia).
  unfold HashMap_new. rewrite (proj2 (Z.leb_le 0 capacity)) by done. change (positive DEFAULT_LOAD) with true. cbn [andb].
  unfold computeThreshold, bind, get, modify. cbn [elementData loadFactor].
  replace (zlen (replicate (Z.to_nat (calculateCapacity capacity)) [])) with (2 ^ Z.of_nat k) by (unfold zlen; rewrite length_replicate, Ek; lia).
  rewrite threshold_of_pow by lia. eexists. split; [reflexivity|].
  assert (kvs (mkHashMap 0 (replicate (Z.to_nat (calculateCapacity capacity)) []) 0 DEFAULT_LOAD (3 * 2 ^ Z.of_nat k / 4)) = []) as Ekv
    by (unfold kvs, kv; cbn; by rewrite concat_replicate_nil).
  split_and!; [|unfold abs; change (kvs _) with (kvs (mkHashMap 0 (replicate (Z.to_nat (calculateCapacity capacity)) []) 0 DEFAULT_LOAD (3 * 2 ^ Z.of_nat k / 4))); by rewrite Ekv|done].
  split; [|..]; change (kvs _) with (kvs (mkHashMap 0 (replicate (Z.to_nat (calculateCapacity capacity)) []) 0 DEFAULT_LOAD (3 * 2 ^ Z.of_nat k / 4))).
  - split; cbn; unfold zlen; rewrite ?length_replicate, ?Ek, ?Z2Nat.id by lia; [by exists k|done|done|]. intros i b e [-> _]%lookup_replicate. set_solver.
  - rewrite Ekv. constructor.
  - by rewrite Ekv.
Qed.
End table_ok.

(** ** The order of the keys *)

Section chains.
Context {K : Type} `{EqDecision K}.
Implicit Types (key k : K) (l : list K).

(** What an access and an insertion make of the order. *)
Definition accessed (order : bool) (key : K) (l : list K) : list K := if order then to_tail key l else l.
Definition inserted (order : bool) (key : K) (l : list K) : list K := if decide (key ∈ l) then accessed order key l else l ++ [key].

Lemma without_elem key k l : k ∈ without key l <-> k ∈ l /\ k <> key.
Proof.
  unfold without. rewrite !list_elem_of_In, filter_In. rewrite negb_true_iff, bool_decide_eq_false. done.
Qed.
Lemma without_NoDup key l : NoDup l -> NoDup (without key l).
Proof. intros Hn. apply NoDup_ListNoDup, List.NoDup_filter, NoDup_ListNoDup, Hn. Qed.
Lemma without_absent key l : key ∉ l -> without key l = l.
Proof.
  intros Hn. unfold without. induction l as [|k l IH]; [done|]. cbn. apply not_elem_of_cons in Hn as [Hk Hl].
  rewrite bool_decide_false by congruence. cbn. by rewrite IH.
Qed.
Lemma to_tail_elem key k l : k ∈ to_tail key l <-> k ∈ l \/ k = key.
Proof. unfold to_tail. rewrite elem_of_app, without_elem, list_elem_of_singleton. destruct (decide (k = key)); naive_solver. Qed.
Lemma to_tail_NoDup key l : NoDup l -> NoDup (to_tail key l).
Proof.
  intros Hn. unfold to_tail. apply list.NoDup_app. split_and!; [by apply without_NoDup| |apply NoDup_singleton].
  intros k [_ Hk]%without_elem. by rewrite list_elem_of_singleton.
Qed.
Lemma to_tail_last key l : NoDup l -> is_tail key l = true -> to_tail key l = l.
Proof.
  unfold is_tail. intros Hn [l' ->]%bool_decide_eq_true%last_Some. apply list.NoDup_app in Hn as (_ & Hk & _). unfold to_tail, without.
  rewrite List.filter_app. cbn. rewrite bool_decide_true by done. cbn. rewrite app_nil_r.
  change (List.filter _ l') with (without key l'). rewrite without_absent; [done|]. intros Hin. by eapply Hk; [|apply list_elem_of_singleton].
Qed.

Lemma accessed_elem order key k l : key ∈ l -> k ∈ accessed order key l <-> k ∈ l.
Proof. intros Hk. unfold accessed. destruct order; [rewrite to_tail_elem|done]. naive_solver. Qed.
Lemma accessed_NoDup order key l : NoDup l -> NoDup (accessed order key l).
Proof. destruct order; [apply to_tail_NoDup|done]. Qed.
Lemma inserted_elem order key k l : k ∈ inserted order key l <-> k ∈ l \/ k = key.
Proof.
  unfold inserted. destruct (decide (key ∈ l)); [rewrite accessed_elem by done; naive_solver|]. by rewrite elem_of_app, list_elem_of_singleton.
Qed.
Lemma inserted_NoDup order key l : NoDup l -> NoDup (inserted order key l).
Proof.
  intros Hn. unfold inserted. destruct (decide (key ∈ l)); [by apply accessed_NoDup|]. apply list.NoDup_app.
  split_and!; [done| |apply NoDup_singleton]. intros k Hk ->%list_elem_of_singleton. done.
Qed.

Lemma inserted_length order key l : NoDup l -> zlen (inserted order key l) <= zlen l + 1 /\ inserted order key l <> [].
Proof.
  intros Hn. unfold inserted, accessed. destruct (decide (key ∈ l)) as [Hk|Hk].
  - destruct order; [|split; [lia|intros ->; by apply not_elem_of_nil in Hk]]. split; [|unfold to_tail; by destruct (without key l)].
    unfold to_tail. rewrite zlen_app. cbn.
    enough (zlen (without key l) <= zlen l) by (unfold zlen at 2; cbn; lia).
    unfold zlen, without. pose proof (filter_length_le (fun k => negb (bool_decide (k = key))) l). lia.
  - split; [rewrite zlen_app; unfold zlen at 2; cbn; lia|by destruct l].
Qed.

Lemma without_head k l : NoDup (k :: l) -> without k (k :: l) = l.
Proof.
  intros [Hk _]%list.NoDup_cons. unfold without. cbn. rewrite bool_decide_true by done. cbn.
  by apply (without_absent k l).
Qed.
End chains.

(** ** The linked map as a finite map with an order *)

Section linked_ok.
Context {K V : Type} `{Countable K} (hashFunc : K -> Z) (K0 : nat).
Hypothesis small : (K0 <= 29)%nat.
Implicit Types (m : LinkedHashMap K V) (t : HashMap K V) (key k : K) (l : list K).

Record lhm_ok m : Prop := {
  ok_table : table_ok hashFunc K0 (table m);
  ok_chain_nodup : NoDup (chain m);
  ok_chain : forall k, k ∈ chain m <-> is_Some (abs (table m) !! k);
}.

(** As many keys as entries. *)
Lemma count_chain m : lhm_ok m -> elementCount (table m) = zlen (chain m).
Proof.
  intros [[_ Hn Hc] Hcn Hch]. rewrite Hc. unfold zlen. f_equal. rewrite <- (length_fmap fst). apply Permutation_length, NoDup_Permutation; [done..|].
  intros k. rewrite Hch. unfold abs. split.
  - intros ([k' v] & -> & Hk)%list_elem_of_fmap. exists v. by apply elem_of_list_to_map.
  - intros [v Hv]. apply elem_of_list_to_map_2 in Hv. apply list_elem_of_fmap. by exists (k, v).
Qed.

Lemma find_key_ok t key : table_ok hashFunc K0 t ->
  exists r, findKeyEntry key (index_of (hashFunc key) t) (hashFunc key) t = (Ok r, t) /\ option_map entry_value r = abs t !! key.
Proof.
  intros Hok. destruct (bucket_ok _ _ _ key (ok_shape _ _ _ Hok)) as (b & Hb & E). eexists.
  unfold findKeyEntry. rewrite (bind_ok _ _ _ _ _ E). split; [reflexivity|by eapply find_abs].
Qed.

Lemma on_table_ok {B} (op : M (HashMap K V) B) m (r : B) t : op (table m) = (Ok r, t) -> on_table op m = (Ok r, mkLinked t (accessOrder m) (chain m)).
Proof. unfold on_table. by intros ->. Qed.

Lemma table_self m : mkLinked (table m) (accessOrder m) (chain m) = m.
Proof. by destruct m. Qed.

Lemma lhm_getEntry_ok m key : lhm_ok m ->
  exists r, lhm_getEntry hashFunc key m = (Ok r, set_chain (if abs (table m) !! key then accessed (accessOrder m) key (chain m) else chain m) m) /\
    option_map entry_value r = abs (table m) !! key.
Proof.
  intros [Ht Hn Hc]. destruct (find_key_ok (table m) key Ht) as (r & E & Hr). exists r. split; [|done].
  assert (on_table (getEntry hashFunc key) m = (Ok r, m)) as E' by (rewrite <- (table_self m) at 2; by apply on_table_ok).
  unfold lhm_getEntry. rewrite (bind_ok _ _ _ _ _ E'), bind_get. rewrite <- Hr. destruct r as [e|]; cbn [option_map]; [|by destruct m].
  unfold accessed. destruct (accessOrder m) eqn:Ea; cbn [andb]; [|by destruct m; cbn in Ea; subst].
  destruct (is_tail key (chain m)) eqn:El; cbn [negb]; [|done]. rewrite (to_tail_last _ _ Hn El). by destruct m.
Qed.

Lemma lhm_ok_accessed m key : lhm_ok m -> is_Some (abs (table m) !! key) -> lhm_ok (set_chain (accessed (accessOrder m) key (chain m)) m).
Proof.
  intros [Ht Hn Hc] Hk. split; cbn; [done|by apply accessed_NoDup|]. intros k. rewrite accessed_elem by by apply Hc. apply Hc.
Qed.

Lemma linkEntry_ok m key : NoDup (chain m) -> linkEntry key m = (Ok tt, set_chain (inserted (accessOrder m) key (chain m)) m).
Proof.
  intros Hn. unfold linkEntry. rewrite bind_get. unfold inserted.
  destruct (is_tail key (chain m)) eqn:El.
  - assert (key ∈ chain m) as Hk by (unfold is_tail in El; apply bool_decide_eq_true, last_Some in El as [l ->]; set_solver).
    rewrite decide_True by done. unfold accessed. rewrite to_tail_last by done. destruct m; cbn. by destruct accessOrder0.
  - destruct (chain m) as [|k l] eqn:Ec; [by rewrite decide_False by set_solver|]. rewrite <- Ec.
    rewrite <- decide_bool_decide. destruct (decide (key ∈ chain m)); [|done]. unfold accessed. by destruct m; cbn; destruct accessOrder0.
Qed.

(** A table that is full has less than its greatest length. *)
Lemma room_to_double t n : shape hashFunc K0 t -> threshold t < n -> 4 * n <= 3 * 2 ^ Z.of_nat K0 -> 2 * zlen (elementData t) <= 2 ^ Z.of_nat K0.
Proof.
  intros [(k & Hk & El) Ht _ _] Hn Hr. rewrite Ht, El in *.
  assert (2 ^ Z.of_nat k < 2 ^ Z.of_nat K0) as Hlt%Z.pow_lt_mono_r_iff by lia; [|lia..].
  rewrite <- Z.pow_succ_r by lia. apply Z.pow_le_mono_r; lia.
Qed.

(** A new entry, after the table was made longer if it was full. *)
Lemma add_entry_ok t key v : table_ok hashFunc K0 t -> abs t !! key = None -> 4 * (elementCount t + 1) <= 3 * 2 ^ Z.of_nat K0 ->
  let t1 := set_elementCount (elementCount t + 1) (count_change t) in
  exists t2 t3, (if threshold t1 <? elementCount t1 then rehash_full else ret tt) t1 = (Ok tt, t2) /\
    createHashedEntry key (index_of (hashFunc key) t2) (hashFunc key) v t2 = (Ok tt, t3) /\
    table_ok hashFunc K0 t3 /\ abs t3 = <[key := v]> (abs t).
Proof.
  intros [Hs Hn Hc] Hk Hroom t1. assert (shape hashFunc K0 t1) as Hs1 by (by destruct Hs).
  assert (exists t2, (if threshold t1 <? elementCount t1 then rehash_full else ret tt) t1 = (Ok tt, t2) /\ shape hashFunc K0 t2 /\
    kvs t2 ≡ₚ kvs t /\ elementCount t2 = elementCount t + 1) as (t2 & E2 & Hs2 & P2 & C2).
  { destruct (threshold t1 <? elementCount t1) eqn:Hfull; [|by exists t1]. apply Z.ltb_lt in Hfull.
    apply (rehash_ok hashFunc K0 t1); [done| |done]. by eapply room_to_double. }
  destruct (create_ok hashFunc K0 t2 key v Hs2) as (t3 & E3 & Hs3 & P3 & C3 & _). exists t2, t3. split_and!; [done..| |].
  all: assert (kvs t3 ≡ₚ (key, v) :: kvs t) as P by (by rewrite P3, P2).
  all: assert (NoDup (kvs t3).*1) as Hn3 by (rewrite P; cbn; apply list.NoDup_cons; split; [by apply not_elem_of_list_to_map|done]).
  - split; [done..|]. rewrite C3, C2, Hc. unfold zlen. rewrite P. cbn. lia.
  - by rewrite (abs_perm _ _ Hn3 P).
Qed.

Lemma lhm_putImpl_ok m key v : lhm_ok m -> 4 * (zlen (chain m) + 1) <= 3 * 2 ^ Z.of_nat K0 ->
  exists m', lhm_putImpl hashFunc key v m = (Ok (abs (table m) !! key), m') /\ lhm_ok m' /\
    abs (table m') = <[key := v]> (abs (table m)) /\ chain m' = inserted (accessOrder m) key (chain m) /\ accessOrder m' = accessOrder m.
Proof.
  intros Hok Hroom. pose proof (count_chain _ Hok) as Hcount. destruct Hok as [Ht Hn Hc]. unfold lhm_putImpl. rewrite bind_get.
  assert ((if elementCount (table m) =? 0 then modify (set_chain []) else ret tt) m = (Ok tt, m)) as E0.
  { destruct (elementCount (table m) =? 0) eqn:E; [|done]. apply Z.eqb_eq in E. rewrite Hcount in E. apply zlen_zero in E.
    destruct m; cbn in E; subst. done. }
  rewrite (bind_ok _ _ _ _ _ E0). destruct (find_key_ok (table m) key Ht) as (r & E & Hr).
  apply (on_table_ok _ m) in E. rewrite table_self in E. rewrite (bind_ok _ _ _ _ _ E). destruct r as [e|]; cbn [option_map] in Hr; symmetry in Hr.
  - rewrite (bind_ok _ _ _ _ _ (linkEntry_ok _ key Hn)). set (m1 := set_chain _ m).
    destruct (setValue_ok hashFunc K0 (table m1) key v (entry_value e) Ht Hr) as (t' & E' & Ht' & Ha & _ & _).
    apply (on_table_ok _ m1) in E'. rewrite (bind_ok _ _ _ _ _ E'). eexists. rewrite Hr. split; [reflexivity|]. split_and!; [|done..].
    split; cbn; [done|by apply inserted_NoDup|]. intros k. rewrite Ha, inserted_elem, Hc, lookup_insert_is_Some'. naive_solver.
  - rewrite Hcount in *. destruct (add_entry_ok (table m) key v Ht Hr) as (t2 & t3 & E2 & E3 & Ht3 & Ha); [by rewrite Hcount|].
    rewrite (bind_ok _ _ _ _ _ (on_table_ok (modify _) m tt _ eq_refl)), bind_get. cbn [table].
    set (m1 := mkLinked _ _ _). apply (on_table_ok _ m1) in E2.
    assert ((if threshold (set_elementCount (elementCount (table m) + 1) (count_change (table m))) <? elementCount (set_elementCount (elementCount (table m) + 1) (count_change (table m)))
             then on_table rehash_full else ret tt) m1 = (Ok tt, mkLinked t2 (accessOrder m1) (chain m1))) as E2'.
    { rewrite <- E2. by destruct (_ <? _). }
    rewrite (bind_ok _ _ _ _ _ E2'), bind_get. cbn [table]. set (m2 := mkLinked t2 _ _). apply (on_table_ok _ m2) in E3.
    rewrite (bind_ok _ _ _ _ _ E3). rewrite (bind_ok _ _ _ _ _ (linkEntry_ok (mkLinked t3 (accessOrder m2) (chain m2)) key Hn)).
    eexists. rewrite Hr. split; [reflexivity|]. split_and!; [|done..].
    split; cbn; [done|by apply inserted_NoDup|]. intros k. rewrite Ha, inserted_elem, Hc, lookup_insert_is_Some'. naive_solver.
Qed.

Lemma lhm_remove_ok m key : lhm_ok m ->
  match abs (table m) !! key with
  | None => lhm_remove hashFunc key m = (Throw NoSuchElementException, m)
  | Some v => exists m', lhm_remove hashFunc key m = (Ok v, m') /\ lhm_ok m' /\ abs (table m') = delete key (abs (table m)) /\
      chain m' = without key (chain m) /\ accessOrder m' = accessOrder m
  end.
Proof.
  intros [Ht Hn Hc]. pose proof (removeEntry_ok hashFunc K0 _ key Ht) as Hr. unfold lhm_remove. destruct (abs (table m) !! key) as [v|].
  - destruct Hr as (e & t' & E & <- & Ht' & Ha). apply (on_table_ok _ m) in E. rewrite (bind_ok _ _ _ _ _ E), bind_modify.
    eexists. split; [reflexivity|]. split_and!; [|done..]. split; cbn [table chain set_chain]; [done|by apply without_NoDup|].
    intros k. rewrite Ha, without_elem, Hc, lookup_delete_is_Some. naive_solver.
  - apply (on_table_ok _ m) in Hr. rewrite table_self in Hr. by rewrite (bind_ok _ _ _ _ _ Hr).
Qed.

(** *** Values changed in place *)

Lemma value_of_abs m key : value_of key m = abs (table m) !! key.
Proof.
  unfold value_of, abs, kvs, kv. induction (concat (elementData (table m))) as [|e l IH]; cbn; [by rewrite lookup_empty|].
  destruct (decide (key = entry_key e)) as [->|Hne].
  - by rewrite bool_decide_true, lookup_insert_eq.
  - by rewrite bool_decide_false, lookup_insert_ne by congruence.
Qed.

Lemma on_value_ok {B} m key v (op : M V B) r v' : lhm_ok m -> abs (table m) !! key = Some v -> op v = (r, v') ->
  exists m', on_value hashFunc key op m = (r, m') /\ lhm_ok m' /\ abs (table m') = <[key := v']> (abs (table m)) /\
    chain m' = chain m /\ accessOrder m' = accessOrder m.
Proof.
  intros [Ht Hn Hc] Hv Ho. destruct (setValue_ok hashFunc K0 _ _ v' _ Ht Hv) as (t & E & Ht' & Ha & _).
  unfold on_value. rewrite bind_get, value_of_abs, Hv, Ho, (bind_ok _ _ _ _ _ (on_table_ok _ _ _ _ E)).
  eexists. split; [reflexivity|]. split_and!; [|done..]. split; cbn; [done|done|]. intros k. rewrite Ha, Hc, lookup_insert_is_Some'.
  split; [tauto|]. intros [<-|?]; [by rewrite Hv|done].
Qed.
End linked_ok.

(** ** The cache *)

Section cache_spec.
Context {K V : Type} `{Countable K} (hashFunc : K -> Z) (K0 : nat).
Hypothesis small : (K0 <= 29)%nat.
Implicit Types (c : LRUCache K V) (key k : K) (l : list K).

(** What a cache is to do: its entries and their keys, the least recently used first. *)
Definition lru_state : Type := gmap K V * list K.
Definition lru_view c : lru_state := (abs (table (cache c)), chain (cache c)).

Definition spec_put (max : Z) key (v : V) (s : lru_state) : lru_state :=
  let g := <[key := v]> s.1 in
  match inserted true key s.2 with
  | eldest :: l => if max <? zlen (eldest :: l) then (delete eldest g, l) else (g, eldest :: l)
  | [] => (g, [])
  end.

Inductive cache_op : Type := Put key (v : V) | Get key | ContainsKey key | Remove key | Clear.
Inductive cache_reply : Type := Value (v : option V) | Flag (b : bool) | Done.

Definition run_cache_op (o : cache_op) : M (LRUCache K V) cache_reply :=
  match o with
  | Put k v => r <- lru_put hashFunc k v ;; ret (Value r)
  | Get k => v <- lru_get hashFunc k ;; ret (Value (Some v))
  | ContainsKey k => b <- lru_containsKey hashFunc k ;; ret (Flag b)
  | Remove k => v <- lru_remove hashFunc k ;; ret (Value (Some v))
  | Clear => lru_clear ;;; ret Done
  end.

Definition spec_cache_op (max : Z) (o : cache_op) : M lru_state cache_reply := fun s =>
  match o with
  | Put k v => (Ok (Value (s.1 !! k)), spec_put max k v s)
  | Get k => match s.1 !! k with Some v => (Ok (Value (Some v)), (s.1, to_tail k s.2)) | None => (Throw NoSuchElementException, s) end
  | ContainsKey k => match s.1 !! k with Some _ => (Ok (Flag true), (s.1, to_tail k s.2)) | None => (Ok (Flag false), s) end
  | Remove k => match s.1 !! k with Some v => (Ok (Value (Some v)), (delete k s.1, without k s.2)) | None => (Throw NoSuchElementException, s) end
  | Clear => (Ok Done, (∅, []))
  end.

(** A history: what each operation answered or threw. *)
Fixpoint run_history {S} (step : cache_op -> M S cache_reply) (ops : list cache_op) (s : S) : list (outcome cache_reply) * S :=
  match ops with
  | [] => ([], s)
  | o :: ops' => let '(r, s') := step o s in let '(rs, s'') := run_history step ops' s' in (r :: rs, s'')
  end.

Record cache_ok c : Prop := {
  cache_linked : lhm_ok hashFunc K0 (cache c);
  cache_order : accessOrder (cache c) = true;
  cache_max : 0 < maxCacheSize c;
  cache_size : zlen (chain (cache c)) <= maxCacheSize c;
  cache_room : 4 * (maxCacheSize c + 1) <= 3 * 2 ^ Z.of_nat K0;
}.



Lemma on_cache_ok {B} (op : M (LinkedHashMap K V) B) c r m : op (cache c) = (r, m) -> on_cache op c = (r, mkCache m (maxCacheSize c)).
Proof. unfold on_cache. by intros ->. Qed.

Lemma lru_put_ok c key v : cache_ok c ->
  exists c', lru_put hashFunc key v c = (Ok (abs (table (cache c)) !! key), c') /\ cache_ok c' /\ maxCacheSize c' = maxCacheSize c /\
    lru_view c' = spec_put (maxCacheSize c) key v (lru_view c).
Proof.
  intros [Hl Ho Hm Hs Hr]. destruct (lhm_putImpl_ok hashFunc K0 small (cache c) key v Hl) as (m' & E & Hl' & Ha & Hc & Ho'); [lia|].
  destruct (inserted_length (accessOrder (cache c)) key (chain (cache c)) (ok_chain_nodup _ _ _ Hl)) as [Hlen Hne]. rewrite Ho in *.
  unfold lru_put. rewrite bind_get. unfold lhm_put. destruct (inserted true key (chain (cache c))) as [|eldest l] eqn:El; [done|]. clear Hne.
  unfold lru_view at 2, spec_put. cbn [fst snd]. rewrite El. unfold lru_removeEldestEntry.
  pose proof (count_chain hashFunc K0 _ Hl') as Hcnt. rewrite Hc in Hcnt.
  destruct (maxCacheSize c <? zlen (eldest :: l)) eqn:Hfull.
  - pose proof (lhm_remove_ok hashFunc K0 m' eldest Hl') as Hrem.
    assert (is_Some (abs (table m') !! eldest)) as [x Hx] by (apply (ok_chain _ _ _ Hl'); rewrite Hc; set_solver).
    rewrite Hx in Hrem. destruct Hrem as (m'' & E'' & Hl'' & Ha'' & Hc'' & Ho'').
    pose proof (ok_chain_nodup _ _ _ Hl') as Hn. rewrite Hc in Hn, Hc''. rewrite without_head in Hc'' by done.
    eexists. split; [apply on_cache_ok; rewrite (bind_ok _ _ _ _ _ E), bind_get, Hc, Hcnt, Hfull, (bind_ok _ _ _ _ _ E''); reflexivity|].
    split_and!; [|done|unfold lru_view; cbn; by rewrite Ha'', Ha, Hc'']. split; cbn; [done|congruence|done| |done].
    rewrite Hc''. rewrite zlen_cons in Hlen. lia.
  - eexists. split; [apply on_cache_ok; rewrite (bind_ok _ _ _ _ _ E), bind_get, Hc, Hcnt, Hfull; reflexivity|].
    split_and!; [|done|unfold lru_view; cbn; by rewrite Ha, Hc]. split; cbn; [done|congruence|done| |done]. rewrite Hc. lia.
Qed.

Lemma accessed_ok c key : cache_ok c -> is_Some (abs (table (cache c)) !! key) ->
  cache_ok (mkCache (set_chain (to_tail key (chain (cache c))) (cache c)) (maxCacheSize c)).
Proof.
  intros [Hl Ho Hm Hs Hr] Hk. pose proof (lhm_ok_accessed _ _ _ _ Hl Hk) as Hl'. rewrite Ho in Hl'. split; cbn; [done..| |done].
  pose proof (count_chain _ _ _ Hl') as E'. pose proof (count_chain _ _ _ Hl) as E. cbn in *. lia.
Qed.

Lemma lru_access_ok {B} c key (f : option (HashMapEntry K V) -> M (LinkedHashMap K V) B) (g : option (HashMapEntry K V) -> outcome B) :
  cache_ok c -> (forall r m, f r m = (g r, m)) ->
  exists r c', option_map entry_value r = abs (table (cache c)) !! key /\ on_cache (bind (lhm_getEntry hashFunc key) f) c = (g r, c') /\
    cache_ok c' /\ maxCacheSize c' = maxCacheSize c /\
    lru_view c' = (abs (table (cache c)), if abs (table (cache c)) !! key then to_tail key (chain (cache c)) else chain (cache c)).
Proof.
  intros Hok Hf. pose proof Hok as [Hl Ho Hm Hs Hr]. destruct (lhm_getEntry_ok hashFunc K0 (cache c) key Hl) as (r & E & Hv). rewrite Ho in E.
  eexists r, _. split; [done|]. split; [apply on_cache_ok; rewrite (bind_ok _ _ _ _ _ E); apply Hf|]. split; [|done].
  destruct (abs (table (cache c)) !! key) eqn:Ek; [apply accessed_ok; [done|by rewrite Ek]|by destruct c as [[] ?]].
Qed.

(** The three steps a client takes: a key it looks up, a key it puts, a value it changes. *)
Lemma lru_get_ok c key : cache_ok c ->
  exists c', cache_ok c' /\ maxCacheSize c' = maxCacheSize c /\
    match abs (table (cache c)) !! key with
    | Some v => lru_get hashFunc key c = (Ok v, c') /\ lru_view c' = ((lru_view c).1, to_tail key (lru_view c).2)
    | None => lru_get hashFunc key c = (Throw NoSuchElementException, c') /\ lru_view c' = lru_view c
    end.
Proof.
  intros Hok. destruct (lru_access_ok c key (fun e => match e with Some e => ret (entry_value e) | None => throw NoSuchElementException end)
      (fun e => match e with Some e => Ok (entry_value e) | None => Throw NoSuchElementException end) Hok)
    as (r & c' & Hr & E & Hok' & Hm & Hv); [intros [e|] m; reflexivity|].
  exists c'. split; [done|]. split; [done|]. rewrite <- Hr in Hv |- *. unfold lru_get, lhm_get. destruct r as [e|]; cbn; (split; [exact E|done]).
Qed.

Lemma lru_value_ok {B} c key v (op : M V B) r v' : cache_ok c -> abs (table (cache c)) !! key = Some v -> op v = (r, v') ->
  exists c', on_cache (on_value hashFunc key op) c = (r, c') /\ cache_ok c' /\ maxCacheSize c' = maxCacheSize c /\
    lru_view c' = (<[key := v']> (lru_view c).1, (lru_view c).2).
Proof.
  intros [Hl Ho Hm Hs Hr] Hv Hop. destruct (on_value_ok hashFunc K0 (cache c) key v op r v' Hl Hv Hop) as (m & E & Hl' & Ha & Hc & Ho').
  eexists. split; [apply on_cache_ok, E|]. split; [|split; [done|unfold lru_view; cbn; by rewrite Ha, Hc]].
  split; cbn; [done|congruence|done|by rewrite Hc|done].
Qed.

Lemma lru_clear_ok c : cache_ok c -> exists c', lru_clear c = (Ok tt, c') /\ cache_ok c' /\ maxCacheSize c' = maxCacheSize c /\ lru_view c' = (∅, []).
Proof.
  intros [Hl Ho Hm Hs Hr]. pose proof (count_chain _ _ _ Hl) as Hcnt. destruct Hl as [[Hsh Hn Hc] _ _].
  unfold lru_clear, lhm_clear, hm_clear. set (op := bind get _).
  assert (exists t, op (table (cache c)) = (Ok tt, t) /\ table_ok hashFunc K0 t /\ abs t = ∅) as (t & E & Ht & Ha).
  { subst op. rewrite bind_get. destruct (0 <? elementCount (table (cache c))) eqn:Hpos.
    - eexists. split; [reflexivity|]. set (t := count_change _).
      assert (kvs t = []) as Ek by (unfold kvs, t; cbn; by induction (elementData (table (cache c)))).
      split; [|by unfold abs; rewrite Ek]. destruct Hsh as [Hlen Hth Hld _].
      assert (zlen (elementData t) = zlen (elementData (table (cache c)))) as El by (unfold zlen; cbn; by rewrite length_map).
      split; [split|rewrite Ek; constructor|by rewrite Ek]; rewrite ?El; [done|done|done|]. intros i b e Hi He. cbn in Hi.
      apply list_lookup_fmap_Some in Hi as (? & -> & _). set_solver.
    - exists (table (cache c)). apply Z.ltb_ge in Hpos. assert (kvs (table (cache c)) = []) as Ek by (apply zlen_zero; pose proof (zlen_nonneg (kvs (table (cache c)))); lia).
      split; [done|]. split; [done|by unfold abs; rewrite Ek]. }
  eexists. split; [apply on_cache_ok; rewrite (bind_ok _ _ _ _ _ (on_table_ok _ _ _ _ E)); reflexivity|].
  split_and!; [|done|unfold lru_view; cbn; by rewrite Ha]. split; cbn; [|done|done|unfold zlen; cbn; lia|done].
  split; cbn; [done|constructor|]. intros k. rewrite Ha, lookup_empty. split; [set_solver|by intros []].
Qed.

Lemma run_cache_op_ok c o : cache_ok c ->
  exists r c', run_cache_op o c = (r, c') /\ cache_ok c' /\ maxCacheSize c' = maxCacheSize c /\
    spec_cache_op (maxCacheSize c) o (lru_view c) = (r, lru_view c').
Proof.
  intros Hok. destruct o as [key v|key|key|key|]; cbn [run_cache_op spec_cache_op].
  - destruct (lru_put_ok c key v Hok) as (c' & E & Hok' & Hm & Hv). rewrite (bind_ok _ _ _ _ _ E). eexists _, _.
    split; [reflexivity|]. by rewrite Hv.
  - destruct (lru_access_ok c key (fun e => match e with Some e => ret (entry_value e) | None => throw NoSuchElementException end)
        (fun e => match e with Some e => Ok (entry_value e) | None => Throw NoSuchElementException end) Hok)
      as (r & c' & Hr & E & Hok' & Hm & Hv); [intros [e|] m; reflexivity|].
    unfold lru_get, lhm_get. unfold bind at 1. rewrite E. unfold lru_view at 1. cbn [fst snd]. rewrite <- Hr.
    destruct r as [e|]; cbn; eexists _, c'; (split; [reflexivity|]); by rewrite Hv, <- ?Hr.
  - destruct (lru_access_ok c key (fun e => ret (match e with Some _ => true | None => false end))
        (fun e => Ok (match e with Some _ => true | None => false end)) Hok)
      as (r & c' & Hr & E & Hok' & Hm & Hv); [intros [e|] m; reflexivity|].
    unfold lru_containsKey, lhm_containsKey. unfold bind at 1. rewrite E. unfold lru_view at 1. cbn [fst snd]. rewrite <- Hr.
    destruct r as [e|]; cbn; eexists _, c'; (split; [reflexivity|]); by rewrite Hv, <- ?Hr.
  - destruct Hok as [Hl Ho Hm Hs Hr]. pose proof (lhm_remove_ok hashFunc K0 (cache c) key Hl) as Hrem. unfold lru_remove.
    unfold lru_view at 1. cbn [fst snd]. destruct (abs (table (cache c)) !! key) as [v|] eqn:Ev.
    + destruct Hrem as (m' & E & Hl' & Ha & Hc & Ho'). rewrite (bind_ok _ _ _ _ _ (on_cache_ok _ _ _ _ E)).
      eexists _, _. split; [reflexivity|]. split_and!; [|done|unfold lru_view; cbn; by rewrite Ha, Hc].
      split; cbn; [done|congruence|done| |done]. rewrite Hc. unfold without, zlen in *.
      pose proof (filter_length_le (fun k => negb (bool_decide (k = key))) (chain (cache c))). lia.
    + rewrite (bind_throw _ _ _ _ _ (on_cache_ok _ _ _ _ Hrem)). eexists _, _. split; [reflexivity|]. by destruct c as [[] ?].
  - destruct (lru_clear_ok c Hok) as (c' & E & Hok' & Hm & Hv). rewrite (bind_ok _ _ _ _ _ E). eexists _, _. split; [reflexivity|]. by rewrite Hv.
Qed.

(** C12: A cache is a finite map with the order in which its keys were used: any history of
    operations answers as on the map, evicts the least recently used key when there are
    more than the maximum, and never holds more. A key is used when it is put, got, or asked for
    with [containsKey]: that too goes through [getEntry], which LinkedHashMap.h says no method but
    [put] and [get] does (see [containsKey_is_a_use]). *)
Theorem lru_cache_refines (ops : list cache_op) c : cache_ok c ->
  (run_history run_cache_op ops c).1 = (run_history (spec_cache_op (maxCacheSize c)) ops (lru_view c)).1 /\
  lru_view (run_history run_cache_op ops c).2 = (run_history (spec_cache_op (maxCacheSize c)) ops (lru_view c)).2 /\
  cache_ok (run_history run_cache_op ops c).2 /\
  zlen (lru_view (run_history run_cache_op ops c).2).2 <= maxCacheSize c.
Proof.
  revert c. induction ops as [|o ops IH]; intros c Hok; cbn [run_history]; [split_and!; [done..|apply Hok]|].
  destruct (run_cache_op_ok c o Hok) as (r & c' & E & Hok' & Hm & Hs). rewrite E, Hs. specialize (IH c' Hok'). rewrite Hm in IH.
  destruct (run_history run_cache_op ops c') as [rs c'']. destruct (run_history _ ops (lru_view c')) as [rs' s'']. cbn in *.
  destruct IH as (-> & ? & ? & ?). done.
Qed.
End cache_spec.

(** The cache the default constructor makes. *)
Lemma new_cache_ok {K V} `{Countable K} (hashFunc : K -> Z) :
  exists c : LRUCache K V, LRUCache_new = Ok c /\ cache_ok hashFunc 29 c /\ lru_view c = (∅, []) /\ maxCacheSize c = 10000.
Proof.
  destruct (new_table_ok (K := K) (V := V) hashFunc 0) as (t & E & Ht & Ha & Hc); [done|lia|done|].
  unfold LRUCache_new, LRUCache_new4, LinkedHashMap_new. rewrite E. cbn [Z.leb]. eexists. split; [reflexivity|].
  split_and!; [|unfold lru_view; cbn; by rewrite Ha|done]. split; cbn; [|done|lia|unfold zlen; cbn; lia|lia].
  split; cbn; [done|constructor|]. intros k. rewrite Ha, lookup_empty. split; [set_solver|by intros []].
Qed.

(** Two entries in a cache of two, one of them used, and a third. *)
Definition sample_history : list (@cache_op Z Z) := [Put 1 10; Put 17 20; Get 1; Put 33 30; Get 17; ContainsKey 1; Remove 33].

Lemma lru_cache_refines_witness :
  let c := match LRUCache_sized 2 with Ok c => c | _ => mkCache (mkLinked (mkHashMap 0 [] 0 DEFAULT_LOAD 0) true []) 0 end in
  cache_ok (fun k : Z => k) 29 c /\
  (run_history (run_cache_op (fun k => k)) sample_history c).1 = (run_history (spec_cache_op 2) sample_history (lru_view c)).1 /\
  (run_history (run_cache_op (fun k => k)) sample_history c).1 =
    [Ok (Value None); Ok (Value None); Ok (Value (Some 10)); Ok (Value None); Throw NoSuchElementException; Ok (Flag true); Ok (Value (Some 30))].
Proof.
  intros c. assert (cache_ok (fun k : Z => k) 29 c) as Hok.
  { destruct (new_table_ok (K := Z) (V := Z) (fun k => k) 0) as (t & E & Ht & Ha & Hc); [done|lia|done|].
    subst c. unfold LRUCache_sized, LRUCache_new4, LinkedHashMap_new. rewrite E. cbn. split; cbn; [|done|lia|unfold zlen; cbn; lia|lia].
    split; cbn; [done|constructor|]. intros k. rewrite Ha, lookup_empty. split; [set_solver|by intros []]. }
  split; [exact Hok|]. split; [|vm_compute; reflexivity].
  apply (lru_cache_refines (fun k => k) 29 (le_n _) sample_history c Hok).
Defined.

(** Asking whether the cache has 1 keeps it: 2 is evicted, which came after it. *)
Example containsKey_is_a_use : match LRUCache_sized 2 with
  | Ok c => (run_history (run_cache_op (fun k : Z => k)) [Put 1 10; Put 2 20; ContainsKey 1; Put 3 30; Get 1; Get 2] c).1 =
      [Ok (Value None); Ok (Value None); Ok (Flag true); Ok (Value None); Ok (Value (Some 10)); Throw NoSuchElementException]
  | _ => False
  end.
Proof. vm_compute. reflexivity. Qed.
