(* ===== verification/StateTracker.v ===== *)
(** * ConnectionStateTracker (activemq/state): what a client has told its broker, kept so
    that another broker can be told again.

    The objects for connections, sessions, producers and consumers are reached through one
    map each and are values here. A TransactionState is shared, by the transactions of its
    connection and by the producers that sent in it: it lives in a heap and the others hold
    its address. Nothing but destructors calls the [shutdown] of these classes, so their
    [checkShutdown] never throws. *)
From stdpp Require Import gmap.
From S2P Require Import Prelude Commands StringUtils OrderedMap TrackedCommands HashMap.

(** ** The state *)

Record ProducerState : Type := mkProducerState { ps_info : ProducerInfo; ps_transactionState : option Z }.
Record ConsumerState : Type := mkConsumerState { ks_info : ConsumerInfo }.

Record SessionState : Type := mkSessionState {
  ss_info : SessionInfo;
  ss_producers : list (ProducerId * ProducerState);
  ss_consumers : list (ConsumerId * ConsumerState);
}.

Record TransactionState : Type := mkTransactionState {
  ts_commands : list Command;
  ts_producers : list (ProducerId * ProducerState);
}.

Record ConnectionState : Type := mkConnectionState {
  cs_info : ConnectionInfo;
  cs_transactions : list (option LocalId * Z);
  cs_sessions : list (SessionId * SessionState);
  cs_tempDestinations : list DestinationInfo;
  cs_interruptComplete : bool;
  cs_recoveringPullConsumers : list (ConsumerId * ConsumerInfo);
}.

Record Settings : Type := mkSettings {
  trackTransactions : bool;
  restoreSessions : bool;
  restoreConsumers : bool;
  restoreProducers : bool;
  restoreTransaction : bool;
  trackMessages : bool;
  trackTransactionProducers : bool;
  maxMessageCacheSize : Z;
  maxMessagePullCacheSize : Z;
}.

#[export] Instance Message_eq_dec : EqDecision Message.
Proof. solve_decision. Defined.
#[export] Instance MessagePull_eq_dec : EqDecision MessagePull.
Proof. solve_decision. Defined.

Record Tracker : Type := mkTracker {
  settings : Settings;
  connectionStates : list (ConnectionId * ConnectionState);
  heap : gmap Z TransactionState;
  nextAddress : Z;
  messageCache : LinkedHashMap MessageIdPtr Message;
  currentCacheSize : Z;
  messagePullCache : LinkedHashMap (list Z) MessagePull;
}.

Definition set_connectionStates x (t : Tracker) : Tracker :=
  mkTracker (settings t) x (heap t) (nextAddress t) (messageCache t) (currentCacheSize t) (messagePullCache t).
Definition set_heap x n (t : Tracker) : Tracker :=
  mkTracker (settings t) (connectionStates t) x n (messageCache t) (currentCacheSize t) (messagePullCache t).
Definition set_messageCache x n (t : Tracker) : Tracker :=
  mkTracker (settings t) (connectionStates t) (heap t) (nextAddress t) x n (messagePullCache t).
Definition set_messagePullCache x (t : Tracker) : Tracker :=
  mkTracker (settings t) (connectionStates t) (heap t) (nextAddress t) (messageCache t) (currentCacheSize t) x.

(** What a new tracker does, and after [setTrackTransactions(true)]. *)
Definition DefaultSettings (transactions : bool) : Settings := mkSettings transactions true true true true true true (128 * 1024) 10.

Definition Tracker_new (s : Settings) : outcome Tracker :=
  match LinkedHashMap_new 12 DEFAULT_LOAD false, LinkedHashMap_new 12 DEFAULT_LOAD false with
  | Ok m, Ok p => Ok (mkTracker s [] ∅ 1 m 0 p)
  | _, _ => UB
  end.

(** [ConcurrentStlMap::get] *)
Definition get_from {K V} (less : K -> K -> bool) (key : K) (m : list (K * V)) : M Tracker V :=
  match om_find less key m with Some v => ret v | None => throw NoSuchElementException end.

(** ** ConnectionState and SessionState *)

Definition set_cs_info x (c : ConnectionState) := mkConnectionState x (cs_transactions c) (cs_sessions c) (cs_tempDestinations c) (cs_interruptComplete c) (cs_recoveringPullConsumers c).
Definition set_transactions x (c : ConnectionState) := mkConnectionState (cs_info c) x (cs_sessions c) (cs_tempDestinations c) (cs_interruptComplete c) (cs_recoveringPullConsumers c).
Definition set_sessions x (c : ConnectionState) := mkConnectionState (cs_info c) (cs_transactions c) x (cs_tempDestinations c) (cs_interruptComplete c) (cs_recoveringPullConsumers c).
Definition set_tempDestinations x (c : ConnectionState) := mkConnectionState (cs_info c) (cs_transactions c) (cs_sessions c) x (cs_interruptComplete c) (cs_recoveringPullConsumers c).
Definition set_recovering complete x (c : ConnectionState) := mkConnectionState (cs_info c) (cs_transactions c) (cs_sessions c) (cs_tempDestinations c) complete x.

(** The object a command leads to, and what becomes of it. *)
Definition connection (id : ConnectionId) : M Tracker ConnectionState := t <- get ;; get_from connection_less id (connectionStates t).
Definition set_connection (id : ConnectionId) (c : ConnectionState) : M Tracker unit :=
  modify (fun t => set_connectionStates (om_set connection_less id c (connectionStates t)) t).

Definition addSession (i : SessionInfo) (c : ConnectionState) : ConnectionState :=
  set_sessions (om_set session_less (se_sessionId i) (mkSessionState i [] []) (cs_sessions c)) c.
Definition removeSession (id : SessionId) (c : ConnectionState) : ConnectionState :=
  set_sessions (om_remove session_less id (cs_sessions c)) c.
Definition addTempDestination (i : DestinationInfo) (c : ConnectionState) : ConnectionState :=
  set_tempDestinations (cs_tempDestinations c ++ [i]) c.
Definition removeTempDestination (d : Destination) (c : ConnectionState) : ConnectionState :=
  set_tempDestinations (List.filter (fun i => negb (bool_decide (di_destination i = d))) (cs_tempDestinations c)) c.

(** With the default session, of number -1. *)
Definition ConnectionState_new (i : ConnectionInfo) : ConnectionState :=
  addSession (mkSessionInfo new_base (mkSessionId (ci_value (cn_connectionId i)) (-1))) (mkConnectionState i [] [] [] true []).

Definition getSessionState (id : SessionId) (c : ConnectionState) : M Tracker SessionState := get_from session_less id (cs_sessions c).
Definition set_session (id : SessionId) (s : SessionState) (c : ConnectionState) : ConnectionState :=
  set_sessions (om_set session_less id s (cs_sessions c)) c.

Definition set_producers x (s : SessionState) : SessionState := mkSessionState (ss_info s) x (ss_consumers s).
Definition set_consumers x (s : SessionState) : SessionState := mkSessionState (ss_info s) (ss_producers s) x.

Definition addProducer (i : ProducerInfo) (s : SessionState) : SessionState :=
  set_producers (om_set producer_less (pi_producerId i) (mkProducerState i None) (ss_producers s)) s.
Definition addConsumer (i : ConsumerInfo) (s : SessionState) : SessionState :=
  set_consumers (om_set consumer_less (ki_consumerId i) (mkConsumerState i) (ss_consumers s)) s.
Definition removeConsumer (id : ConsumerId) (s : SessionState) : SessionState :=
  set_consumers (om_remove consumer_less id (ss_consumers s)) s.

(** ** TransactionState *)

Definition on_transaction (address : Z) (f : TransactionState -> TransactionState) : M Tracker unit := fun t =>
  match heap t !! address with
  | Some x => (Ok tt, set_heap (<[address := f x]> (heap t)) (nextAddress t) t)
  | None => (UB, t)
  end.
Definition addCommand (c : Command) (x : TransactionState) : TransactionState := mkTransactionState (ts_commands x ++ [c]) (ts_producers x).
Definition addProducerState (p : ProducerState) (x : TransactionState) : TransactionState :=
  mkTransactionState (ts_commands x) (om_set producer_less (pi_producerId (ps_info p)) p (ts_producers x)).
Definition clear_transaction (x : TransactionState) : TransactionState := mkTransactionState [] [].

(** The producer leaves its session for the transaction it sent in. *)
Definition removeProducer (id : ProducerId) (s : SessionState) : M Tracker SessionState :=
  let s' := set_producers (om_remove producer_less id (ss_producers s)) s in
  match om_find producer_less id (ss_producers s) with
  | Some p =>
      match ps_transactionState p with
      | Some address => on_transaction address (addProducerState (mkProducerState (ps_info p) None)) ;;; ret s'
      | None => ret s'
      end
  | None => ret s'
  end.

(** A null key, of an XA transaction, is compared with the others if there are any. *)
Definition null_compared (key : option LocalId) (m : list (option LocalId * Z)) : bool :=
  match m with [] => false | _ => bool_decide (key = None) || existsb (fun p => match p.1 with None => true | Some _ => false end) m end.

Definition addTransactionState (id : TransactionId) (c : ConnectionState) : M Tracker ConnectionState :=
  if null_compared (as_local id) (cs_transactions c) then undefined
  else
    t <- get ;;
    let address := nextAddress t in
    modify (fun t => set_heap (<[address := mkTransactionState [] []]> (heap t)) (address + 1) t) ;;;
    ret (set_transactions (om_set local_less (as_local id) address (cs_transactions c)) c).

Definition getTransactionState (id : TransactionId) (c : ConnectionState) : M Tracker Z :=
  if null_compared (as_local id) (cs_transactions c) then undefined else get_from local_less (as_local id) (cs_transactions c).

Definition removeTransactionState (id : TransactionId) (c : ConnectionState) : M Tracker (option Z * ConnectionState) :=
  if null_compared (as_local id) (cs_transactions c) then undefined
  else ret (om_find local_less (as_local id) (cs_transactions c), set_transactions (om_remove local_less (as_local id) (cs_transactions c)) c).

(** ** The message caches *)

(** [put], with the [removeEldestEntry] of MessageCache, which takes the size of what leaves
    from [currentCacheSize]. *)
Definition messageCache_put (key : MessageIdPtr) (value : Message) : M Tracker unit := fun t =>
  match lhm_putImpl mp_hash key value (messageCache t) with
  | (Ok _, m) =>
      match chain m with
      | [] => (UB, set_messageCache m (currentCacheSize t) t)
      | eldest :: _ =>
          if maxMessageCacheSize (settings t) <? currentCacheSize t then
            match value_of eldest m with
            | Some message =>
                let '(r, m') := lhm_remove mp_hash eldest m in
                (match r with Ok _ => Ok tt | Throw e => Throw e | UB => UB | Hang => Hang end,
                 set_messageCache m' (s32 (currentCacheSize t - getSize message)) t)
            | None => (UB, t)
            end
          else (Ok tt, set_messageCache m (currentCacheSize t) t)
      end
  | (r, m) => (match r with Throw e => Throw e | Hang => Hang | _ => UB end, set_messageCache m (currentCacheSize t) t)
  end.

Definition messagePullCache_put (key : list Z) (value : MessagePull) : M Tracker unit := fun t =>
  let '(r, m) := lhm_put string_hash (fun m => maxMessagePullCacheSize (settings t) <? zlen (chain m)) key value (messagePullCache t) in
  (match r with Ok _ => Ok tt | Throw e => Throw e | UB => UB | Hang => Hang end, set_messagePullCache m t).

(** ** The commands *)

(** What [track] gives of a command it keeps: a marker, or one that is to run when the
    response comes ([RemoveTransactionAction]). *)
Inductive Tracked : Type := Marker | Action (info : TransactionInfo).
Definition isWaitingForResponse (t : Tracked) : bool := match t with Marker => false | Action _ => true end.

Definition RemoveTransactionAction_run (info : TransactionInfo) : M Tracker unit :=
  match ti_connectionId info with
  | None => undefined
  | Some connectionId =>
      cs <- connection connectionId ;;
      removed <- removeTransactionState (ti_transactionId info) cs ;;
      set_connection connectionId removed.2 ;;;
      match removed.1 with Some address => on_transaction address clear_transaction | None => ret tt end
  end.

Definition processConnectionInfo (i : ConnectionInfo) : M Tracker (option Tracked) :=
  set_connection (cn_connectionId i) (ConnectionState_new i) ;;; ret (Some Marker).

Definition processRemoveConnection (id : ConnectionId) : M Tracker (option Tracked) :=
  modify (fun t => set_connectionStates (om_remove connection_less id (connectionStates t)) t) ;;; ret (Some Marker).

Definition processSessionInfo (i : SessionInfo) : M Tracker (option Tracked) :=
  let connectionId := session_parent (se_sessionId i) in
  cs <- connection connectionId ;; set_connection connectionId (addSession i cs) ;;; ret (Some Marker).

Definition processRemoveSession (id : SessionId) : M Tracker (option Tracked) :=
  let connectionId := session_parent id in
  cs <- connection connectionId ;; set_connection connectionId (removeSession id cs) ;;; ret (Some Marker).

(** The session a producer or a consumer belongs to, and what becomes of it. *)
Definition on_session (id : SessionId) (f : SessionState -> M Tracker SessionState) : M Tracker unit :=
  let connectionId := session_parent id in
  cs <- connection connectionId ;;
  ss <- getSessionState id cs ;;
  ss' <- f ss ;;
  set_connection connectionId (set_session id ss' cs).

Definition processProducerInfo (i : ProducerInfo) : M Tracker (option Tracked) :=
  on_session (producer_parent (pi_producerId i)) (fun ss => ret (addProducer i ss)) ;;; ret (Some Marker).
Definition processRemoveProducer (id : ProducerId) : M Tracker (option Tracked) :=
  on_session (producer_parent id) (removeProducer id) ;;; ret (Some Marker).
Definition processConsumerInfo (i : ConsumerInfo) : M Tracker (option Tracked) :=
  on_session (consumer_parent (ki_consumerId i)) (fun ss => ret (addConsumer i ss)) ;;; ret (Some Marker).

(** The StlMap of the recovering consumers throws where the key is not there, and that is
    caught. *)
Definition processRemoveConsumer (id : ConsumerId) : M Tracker (option Tracked) :=
  on_session (consumer_parent id) (fun ss => ret (removeConsumer id ss)) ;;;
  let connectionId := session_parent (consumer_parent id) in
  cs <- connection connectionId ;;
  set_connection connectionId (set_recovering (cs_interruptComplete cs) (om_remove consumer_less id (cs_recoveringPullConsumers cs)) cs) ;;;
  ret (Some Marker).

Definition processDestinationInfo (i : DestinationInfo) : M Tracker (option Tracked) :=
  cs <- connection (di_connectionId i) ;;
  (if dest_temporary (di_destination i) then set_connection (di_connectionId i) (addTempDestination i cs) else ret tt) ;;;
  ret (Some Marker).

(** No command leads here: DestinationInfo::visit calls [processDestinationInfo] whatever its
    operation is. *)
Definition processRemoveDestination (i : DestinationInfo) : M Tracker (option Tracked) :=
  cs <- connection (di_connectionId i) ;;
  (if dest_temporary (di_destination i) then set_connection (di_connectionId i) (removeTempDestination (di_destination i) cs) else ret tt) ;;;
  ret (Some Marker).

(** A message sent in a transaction is added to it, and its producer is told which one that
    is. *)
Definition processMessage (m : Message) : M Tracker (option Tracked) :=
  t <- get ;;
  match me_transactionId m with
  | Some tx =>
      if trackTransactions (settings t) then
        let sessionId := producer_parent (me_producerId m) in
        let connectionId := session_parent sessionId in
        cs <- connection connectionId ;;
        address <- getTransactionState tx cs ;;
        on_transaction address (addCommand (CMessage m)) ;;;
        (if trackTransactionProducers (settings t) then
           ss <- getSessionState sessionId cs ;;
           p <- get_from producer_less (me_producerId m) (ss_producers ss) ;;
           set_connection connectionId
             (set_session sessionId (set_producers (om_set producer_less (me_producerId m) (mkProducerState (ps_info p) (Some address)) (ss_producers ss)) ss) cs)
         else ret tt) ;;;
        ret (Some Marker)
      else if trackMessages (settings t) then messageCache_put (me_messageId m) m ;;; ret None else ret None
  | None => if trackMessages (settings t) then messageCache_put (me_messageId m) m ;;; ret None else ret None
  end.

Definition processBeginTransaction (i : TransactionInfo) : M Tracker (option Tracked) :=
  t <- get ;;
  if trackTransactions (settings t) then
    match ti_connectionId i with
    | Some connectionId =>
        cs <- connection connectionId ;;
        cs' <- addTransactionState (ti_transactionId i) cs ;;
        set_connection connectionId cs' ;;;
        address <- getTransactionState (ti_transactionId i) cs' ;;
        on_transaction address (addCommand (CTransactionInfo i))
    | None => ret tt
    end ;;;
    ret (Some Marker)
  else ret None.

(** [processPrepareTransaction] and [processEndTransaction] have the same body. *)
Definition processPrepareTransaction (i : TransactionInfo) : M Tracker (option Tracked) :=
  t <- get ;;
  if trackTransactions (settings t) then
    match ti_connectionId i with
    | Some connectionId =>
        cs <- connection connectionId ;;
        address <- getTransactionState (ti_transactionId i) cs ;;
        on_transaction address (addCommand (CTransactionInfo i))
    | None => ret tt
    end ;;;
    ret (Some Marker)
  else ret None.
Definition processEndTransaction : TransactionInfo -> M Tracker (option Tracked) := processPrepareTransaction.

(** The commits and the rollback, too. *)
Definition processCommitTransactionOnePhase (i : TransactionInfo) : M Tracker (option Tracked) :=
  t <- get ;;
  if trackTransactions (settings t) then
    match ti_connectionId i with
    | Some connectionId =>
        cs <- connection connectionId ;;
        address <- getTransactionState (ti_transactionId i) cs ;;
        on_transaction address (addCommand (CTransactionInfo i)) ;;;
        ret (Some (Action i))
    | None => ret None
    end
  else ret None.
Definition processCommitTransactionTwoPhase : TransactionInfo -> M Tracker (option Tracked) := processCommitTransactionOnePhase.
Definition processRollbackTransaction : TransactionInfo -> M Tracker (option Tracked) := processCommitTransactionOnePhase.

Definition processMessagePull (p : MessagePull) : M Tracker (option Tracked) :=
  match pull_destination p, pull_consumerId p with
  | Some d, Some c => messagePullCache_put (destination_toString d ++ [58; 58] ++ ConsumerId_toString c) p ;;; ret None
  | _, _ => ret None
  end.

Definition processTransactionInfo (i : TransactionInfo) : M Tracker (option Tracked) :=
  let type := ti_type i in
  if type =? TRANSACTION_STATE_BEGIN then processBeginTransaction i
  else if type =? TRANSACTION_STATE_COMMITONEPHASE then processCommitTransactionOnePhase i
  else if type =? TRANSACTION_STATE_COMMITTWOPHASE then processCommitTransactionTwoPhase i
  else if type =? TRANSACTION_STATE_END then processEndTransaction i
  else if type =? TRANSACTION_STATE_FORGET then ret None
  else if type =? TRANSACTION_STATE_PREPARE then processPrepareTransaction i
  else if type =? TRANSACTION_STATE_RECOVER then ret None
  else if type =? TRANSACTION_STATE_ROLLBACK then processRollbackTransaction i
  else throw ActiveMQException.

Definition processRemoveInfo (i : RemoveInfo) : M Tracker (option Tracked) :=
  match objectId i with
  | ConnectionObject id => processRemoveConnection id
  | SessionObject id => processRemoveSession id
  | ConsumerObject id => processRemoveConsumer id
  | ProducerObject id => processRemoveProducer id
  | OtherObject => throw ActiveMQException
  end.

(** [command->visit(this)] *)
Definition visit (c : Command) : M Tracker (option Tracked) :=
  match c with
  | CConnectionInfo i => catch_amq (processConnectionInfo i)
  | CSessionInfo i => catch_amq (processSessionInfo i)
  | CProducerInfo i => catch_amq (processProducerInfo i)
  | CConsumerInfo i => catch_amq (processConsumerInfo i)
  | CDestinationInfo i => catch_amq (processDestinationInfo i)
  | CRemoveInfo i => catch_amq (processRemoveInfo i)
  | CTransactionInfo i => catch_amq (processTransactionInfo i)
  | CMessage m => catch_amq (processMessage m)
  | CMessagePull p => catch_amq (processMessagePull p)
  | CMessageAck _ | CConsumerControl _ | CConnectionControl _ _ | CShutdownInfo _ | CTracked | COther _ => ret None
  end.

Definition track (c : Command) : M Tracker (option Tracked) := catch_io (visit c).

(** A message that went out counts for the cache. *)
Definition trackBack (c : Command) : M Tracker unit :=
  t <- get ;;
  match c with
  | CMessage m =>
      if trackMessages (settings t) then
        match me_transactionId m with
        | None => modify (fun t => set_messageCache (messageCache t) (s32 (currentCacheSize t + getSize m)) t)
        | Some _ => ret tt
        end
      else ret tt
  | _ => ret tt
  end.

Definition transportInterrupted : M Tracker unit :=
  modify (fun t => set_connectionStates (map (fun p => (p.1, set_recovering false (cs_recoveringPullConsumers p.2) p.2)) (connectionStates t)) t).

(** ** Telling a new broker *)

(** What the tracker uses of the transport it is told to restore: where the tracker itself
    is kept, [oneway], the version of the wire format, and the listener, which is handed the
    ExceptionResponse for a transaction that was rolled back. *)
Class TrackedTransport (W : Type) : Type := {
  on_tracker : forall {A}, M Tracker A -> M W A;
  transport_oneway : Command -> M W unit;
  wireFormat_version : M W Z;
  listener_onRolledBack : TransactionInfo -> M W unit;
}.

Section restore.
Context {W : Type} `{TrackedTransport W}.

Definition send_all (l : list Command) : M W unit := iter_m transport_oneway l.

(** The commands of a transaction, with the producers that are gone since. *)
Definition replay_transaction (x : TransactionState) : M W unit :=
  send_all (map (fun p => CProducerInfo (ps_info p.2)) (ts_producers x)) ;;;
  send_all (ts_commands x) ;;;
  send_all (map (fun p => CRemoveInfo (createRemoveCommand (ps_info p.2))) (ts_producers x)).

(** A transaction whose last command is its commit is in doubt. *)
Definition in_doubt (c : Command) : option TransactionInfo :=
  match c with CTransactionInfo i => if ti_type i =? TRANSACTION_STATE_COMMITONEPHASE then Some i else None | _ => None end.

Fixpoint restore_each (addresses : list Z) : M W (list TransactionInfo) :=
  match addresses with
  | [] => ret []
  | address :: rest =>
      t <- on_tracker get ;;
      match heap t !! address with
      | None => undefined
      | Some x =>
          match list.last (ts_commands x) with
          | None => throw NoSuchElementException
          | Some c =>
              match in_doubt c with
              | Some i => toRollback <- restore_each rest ;; ret (i :: toRollback)
              | None => replay_transaction x ;;; restore_each rest
              end
          end
      end
  end.

Definition doRestoreTransactions (cs : ConnectionState) : M W unit :=
  catch_io (toRollback <- restore_each (map snd (cs_transactions cs)) ;; iter_m listener_onRolledBack toRollback).

Definition set_prefetchSize n (i : ConsumerInfo) : ConsumerInfo := mkConsumerInfo (ki_base i) (ki_consumerId i) (ki_destination i) n.

Definition stall (id : ConnectionId) (i : ConsumerInfo) : M Tracker unit :=
  cs <- connection id ;;
  set_connection id (set_recovering (cs_interruptComplete cs) (om_set consumer_less (ki_consumerId i) i (cs_recoveringPullConsumers cs)) cs).

(** Until the client is through with the interruption, consumers only pull. *)
Definition restore_consumer (id : ConnectionId) (complete : bool) (i : ConsumerInfo) : M W unit :=
  version <- wireFormat_version ;;
  if negb complete && (0 <? prefetchSize i) && (5 <? version) then
    on_tracker (stall id i) ;;; transport_oneway (CConsumerInfo (set_prefetchSize 0 i))
  else transport_oneway (CConsumerInfo i).

Definition doRestoreConsumers (s : SessionState) : M W unit := catch_io (
  let id := session_parent (se_sessionId (ss_info s)) in
  cs <- on_tracker (connection id) ;;
  iter_m (fun k => restore_consumer id (cs_interruptComplete cs) (ks_info k.2)) (ss_consumers s)).

Definition doRestoreProducers (s : SessionState) : M W unit :=
  catch_io (send_all (map (fun p => CProducerInfo (ps_info p.2)) (ss_producers s))).

Definition restore_session (f : Settings) (s : SessionState) : M W unit :=
  transport_oneway (CSessionInfo (ss_info s)) ;;;
  (if restoreProducers f then doRestoreProducers s else ret tt) ;;;
  (if restoreConsumers f then doRestoreConsumers s else ret tt).

Definition doRestoreSessions (f : Settings) (cs : ConnectionState) : M W unit :=
  catch_io (iter_m (fun p => restore_session f p.2) (cs_sessions cs)).

Definition doRestoreTempDestinations (cs : ConnectionState) : M W unit :=
  catch_io (send_all (map CDestinationInfo (cs_tempDestinations cs))).

Definition set_failoverReconnect b (i : ConnectionInfo) : ConnectionInfo := mkConnectionInfo (cn_base i) (cn_connectionId i) (cn_clientId i) b.

Definition reconnected (cs : ConnectionState) : ConnectionState := set_cs_info (set_failoverReconnect true (cs_info cs)) cs.

Definition restore_connection (f : Settings) (id : ConnectionId) : M W unit :=
  cs <- on_tracker (connection id) ;;
  on_tracker (set_connection id (reconnected cs)) ;;;
  transport_oneway (CConnectionInfo (cs_info (reconnected cs))) ;;;
  doRestoreTempDestinations cs ;;;
  (if restoreSessions f then doRestoreSessions f cs else ret tt) ;;;
  (if restoreTransaction f then doRestoreTransactions cs else ret tt).

(** [values()] of a map in the order of its chain. *)
Definition chain_values {K V} `{EqDecision K} (m : LinkedHashMap K V) : list V := omap (fun k => value_of k m) (chain m).

Definition restore : M W unit := catch_io (
  t <- on_tracker get ;;
  iter_m (restore_connection (settings t)) (map fst (connectionStates t)) ;;;
  t <- on_tracker get ;;
  send_all (map CMessage (chain_values (messageCache t))) ;;;
  send_all (map CMessagePull (chain_values (messagePullCache t)))).

(** [send] is the [oneway] of the transport that the client sees; its exceptions are
    dropped. *)
Definition connectionInterruptProcessingComplete (send : Command -> M W unit) (id : ConnectionId) : M W unit :=
  cs <- on_tracker (connection id) ;;
  on_tracker (set_connection id (set_recovering true (cs_recoveringPullConsumers cs) cs)) ;;;
  iter_m (fun p =>
      try_catch is_decaf
        (send (CConsumerControl (mkConsumerControl new_base p.1 (ki_destination p.2) (prefetchSize p.2)))) (fun _ => ret tt))
    (cs_recoveringPullConsumers cs) ;;;
  on_tracker (cs <- connection id ;; set_connection id (set_recovering (cs_interruptComplete cs) [] cs)).
End restore.
