(* ===== verification/FailoverSpec.v ===== *)
(** * What a failover transport promises

    A broker keeps, of each connection, its sessions with their producers and consumers, its
    temporary destinations and its open transactions; [broker_step] is what a command makes of
    that, or [None] where a broker refuses it. [client_step] is the same for a broker that
    never fails, with the transactions whose end was not answered yet, and with the rules a
    client keeps to. *)
From stdpp Require Import gmap.
From S2P Require Import Prelude Commands StringUtils OrderedMap TrackedCommands StateTracker.

(** ** What a broker keeps *)

Abbreviation connection_name := (list token).
Abbreviation session_name := (list token * Z)%type.
Abbreviation member_name := (list token * (Z * Z))%type.
Abbreviation transaction_name := (option (Z * list token)).

Record Session : Type := mkSession {
  s_info : SessionInfo;
  s_producers : gmap member_name ProducerInfo;
  s_consumers : gmap member_name ConsumerInfo;
}.

(** [tx_request]: the number of the request that ended the transaction, until it is
    answered; a broker knows of no such transactions. *)
Record Transaction : Type := mkTransaction { tx_commands : list Command; tx_request : option Z }.

Record Connection : Type := mkConnection {
  c_info : ConnectionInfo;
  c_sessions : gmap session_name Session;
  c_temporary : list Destination;
  c_transactions : gmap transaction_name Transaction;
}.

Abbreviation Broker := (@gmap (list token) _ (@list_countable token _ token_countable) Connection).

Definition with_sessions x (c : Connection) : Connection := mkConnection (c_info c) x (c_temporary c) (c_transactions c).
Definition with_transactions x (c : Connection) : Connection := mkConnection (c_info c) (c_sessions c) (c_temporary c) x.
Definition with_producers x (s : Session) : Session := mkSession (s_info s) x (s_consumers s).
Definition with_consumers x (s : Session) : Session := mkSession (s_info s) (s_producers s) x.

(** The session of a producer or a consumer. *)
Definition producer_session (p : member_name) : session_name := (p.1, p.2.2).
Definition consumer_session (k : member_name) : session_name := (k.1, k.2.1).

Definition new_connection (i : ConnectionInfo) : Connection :=
  mkConnection (set_failoverReconnect false i)
    {[ session_key (mkSessionId (ci_value (cn_connectionId i)) (-1)) :=
         mkSession (mkSessionInfo new_base (mkSessionId (ci_value (cn_connectionId i)) (-1))) ∅ ∅ ]} [] ∅.

Definition DESTINATION_REMOVE_OPERATION : Z := 1.
Definition temporary_step (i : DestinationInfo) (l : list Destination) : list Destination :=
  if dest_temporary (di_destination i) then
    if operationType i =? DESTINATION_REMOVE_OPERATION then List.filter (fun d => negb (bool_decide (d = di_destination i))) l
    else l ++ [di_destination i]
  else l.

Definition on_session_of (k : session_name) (f : Session -> Session) (c : Connection) : option Connection :=
  s ← c_sessions c !! k; Some (with_sessions (<[k := f s]> (c_sessions c)) c).

Definition has_producer (c : Connection) (p : member_name) : bool :=
  match c_sessions c !! producer_session p with Some s => bool_decide (is_Some (s_producers s !! p)) | None => false end.

(** A message or a step of a transaction is recorded in it. *)
Definition record_in (k : transaction_name) (cmd : Command) (c : Connection) : option Connection :=
  x ← c_transactions c !! k; Some (with_transactions (<[k := mkTransaction (tx_commands x ++ [cmd]) (tx_request x)]> (c_transactions c)) c).

(** How a transaction ends: a broker forgets it. *)
Definition ending : Type := TransactionInfo -> Connection -> transaction_name -> Transaction -> Connection.
Definition forget : ending := fun _ c k _ => with_transactions (delete k (c_transactions c)) c.

Definition transaction_step (fin : ending) (i : TransactionInfo) (c : Connection) : option Connection :=
  match ti_transactionId i with
  | XA _ _ _ => None
  | Local t =>
      let k := local_key (Some t) in
      let type := ti_type i in
      if type =? TRANSACTION_STATE_BEGIN then
        match c_transactions c !! k with
        | Some _ => None
        | None => Some (with_transactions (<[k := mkTransaction [CTransactionInfo i] None]> (c_transactions c)) c)
        end
      else if (type =? TRANSACTION_STATE_PREPARE) || (type =? TRANSACTION_STATE_END) then record_in k (CTransactionInfo i) c
      else if (type =? TRANSACTION_STATE_COMMITONEPHASE) || (type =? TRANSACTION_STATE_COMMITTWOPHASE) || (type =? TRANSACTION_STATE_ROLLBACK) then
        x ← c_transactions c !! k; Some (fin i c k x)
      else None
  end.

Definition message_step (m : Message) (t : LocalId) (c : Connection) : option Connection :=
  if has_producer c (producer_key (me_producerId m)) then record_in (local_key (Some t)) (CMessage m) c else None.

Definition remove_step (o : ObjectId) (c : Connection) : option (option Connection) :=
  match o with
  | ConnectionObject _ => Some None
  | SessionObject s => Some (Some (with_sessions (delete (session_key s) (c_sessions c)) c))
  | ProducerObject p => Some <$> on_session_of (session_key (producer_parent p)) (fun s => with_producers (delete (producer_key p) (s_producers s)) s) c
  | ConsumerObject k => Some <$> on_session_of (session_key (consumer_parent k)) (fun s => with_consumers (delete (consumer_key k) (s_consumers s)) s) c
  | OtherObject => None
  end.

(** The prefetch of a consumer that is there. *)
Definition control_step (x : ConsumerControl) (c : Connection) : Connection :=
  let k := consumer_key (cc_consumerId x) in
  with_sessions (alter (fun s => with_consumers (alter (set_prefetchSize (cc_prefetch x)) k (s_consumers s)) s) (consumer_session k) (c_sessions c)) c.

(** The connection a command is about; the others change nothing. *)
Definition connection_of (cmd : Command) : option connection_name :=
  match cmd with
  | CConnectionInfo i => Some (connection_key (cn_connectionId i))
  | CSessionInfo i => Some (connection_key (session_parent (se_sessionId i)))
  | CProducerInfo i => Some (connection_key (session_parent (producer_parent (pi_producerId i))))
  | CConsumerInfo i => Some (connection_key (session_parent (consumer_parent (ki_consumerId i))))
  | CDestinationInfo i => Some (connection_key (di_connectionId i))
  | CRemoveInfo i =>
      match objectId i with
      | ConnectionObject c => Some (connection_key c)
      | SessionObject s => Some (connection_key (session_parent s))
      | ProducerObject p => Some (connection_key (session_parent (producer_parent p)))
      | ConsumerObject k => Some (connection_key (session_parent (consumer_parent k)))
      | OtherObject => None
      end
  | CTransactionInfo i => connection_key <$> ti_connectionId i
  | CMessage m => match me_transactionId m with Some _ => Some (connection_key (session_parent (producer_parent (me_producerId m)))) | None => None end
  | CConsumerControl x => Some (connection_key (session_parent (consumer_parent (cc_consumerId x))))
  | CMessagePull _ | CMessageAck _ | CConnectionControl _ _ | CShutdownInfo _ | CTracked | COther _ => None
  end.

(** The step of a connection that is there. *)
Definition live_step (fin : ending) (cmd : Command) (c : Connection) : option (option Connection) :=
  match cmd with
  | CConnectionInfo i => Some (Some (new_connection i))
  | CSessionInfo i => Some (Some (with_sessions (<[session_key (se_sessionId i) := mkSession i ∅ ∅]> (c_sessions c)) c))
  | CProducerInfo i =>
      Some <$> on_session_of (session_key (producer_parent (pi_producerId i))) (fun s => with_producers (<[producer_key (pi_producerId i) := i]> (s_producers s)) s) c
  | CConsumerInfo i =>
      Some <$> on_session_of (session_key (consumer_parent (ki_consumerId i))) (fun s => with_consumers (<[consumer_key (ki_consumerId i) := i]> (s_consumers s)) s) c
  | CDestinationInfo i => Some (Some (mkConnection (c_info c) (c_sessions c) (temporary_step i (c_temporary c)) (c_transactions c)))
  | CRemoveInfo i => remove_step (objectId i) c
  | CTransactionInfo i => Some <$> transaction_step fin i c
  | CMessage m => match me_transactionId m with Some (Local t) => Some <$> message_step m t c | _ => None end
  | CConsumerControl x => Some (Some (control_step x c))
  | _ => None
  end.

(** Only a connection is made, or removed, where there is none. *)
Definition connection_step (fin : ending) (cmd : Command) (oc : option Connection) : option (option Connection) :=
  match oc, cmd with
  | Some c, _ => live_step fin cmd c
  | None, CConnectionInfo i => Some (Some (new_connection i))
  | None, CConsumerControl _ => Some None
  | None, CRemoveInfo i => match objectId i with ConnectionObject _ => Some None | _ => None end
  | None, _ => None
  end.

Definition step_with (fin : ending) (cmd : Command) (b : Broker) : option Broker :=
  match connection_of cmd with
  | Some n => oc ← connection_step fin cmd (b !! n); Some (match oc with Some c => <[n := c]> b | None => delete n b end)
  | None => match cmd with
            | CTransactionInfo _ | CRemoveInfo _ => None
            | _ => Some b
            end
  end.

Definition broker_step : Command -> Broker -> option Broker := step_with forget.

Fixpoint run_broker (l : list Command) (b : Broker) : option Broker :=
  match l with [] => Some b | cmd :: l' => b' ← broker_step cmd b; run_broker l' b' end.

(** ** What a client does *)

(** A transaction that the client ended is there until that is answered. *)
Definition mark : ending := fun i c k x =>
  with_transactions (<[k := mkTransaction (tx_commands x ++ [CTransactionInfo i]) (Some (commandId (ti_base i)))]> (c_transactions c)) c.

Record Client : Type := mkClient {
  live : Broker;
  used_connections : gset connection_name;
  used_members : gset member_name;
  used_consumers : gset member_name;
  used_transactions : gset (connection_name * transaction_name);
  used_ids : gset Z;
}.

Definition sent_by (p : member_name) (cmd : Command) : bool :=
  match cmd with CMessage m => bool_decide (producer_key (me_producerId m) = p) | _ => false end.
Definition uses (p : member_name) (x : Transaction) : bool := existsb (sent_by p) (tx_commands x).

(** No producer of the session has sent in a transaction that is not done with. *)
Definition sends_in_session (k : session_name) (cmd : Command) : bool :=
  match cmd with CMessage m => bool_decide (session_key (producer_parent (me_producerId m)) = k) | _ => false end.
Definition quiet (k : session_name) (c : Connection) : Prop :=
  map_Forall (fun _ x => existsb (sends_in_session k) (tx_commands x) = false) (c_transactions c).

(** The rules. An identifier is not used again, other than that of a session that no
    transaction needs; a producer sends in one transaction at a time; sessions and connections
    go when the transactions that need them are done with. *)
Definition allowed (cmd : Command) (s : Client) (oc : option Connection) : Prop :=
  match cmd, oc with
  | CConnectionInfo i, _ => connection_key (cn_connectionId i) ∉ used_connections s
  | CSessionInfo i, Some c => quiet (session_key (se_sessionId i)) c
  | CProducerInfo i, _ => producer_key (pi_producerId i) ∉ used_members s
  | CConsumerInfo i, _ => consumer_key (ki_consumerId i) ∉ used_consumers s
  | CRemoveInfo i, Some c =>
      match objectId i with
      | ConnectionObject _ => map_Forall (fun _ x => tx_request x = None) (c_transactions c)
      | SessionObject k => quiet (session_key k) c /\ si_value k <> -1
      | _ => True
      end
  | CTransactionInfo i, Some c =>
      match ti_transactionId i, ti_connectionId i with
      | Local t, Some n =>
          if ti_type i =? TRANSACTION_STATE_BEGIN then (connection_key n, local_key (Some t)) ∉ used_transactions s
          else match c_transactions c !! local_key (Some t) with Some x => tx_request x = None | None => True end
      | _, _ => True
      end
  | CMessage m, Some c =>
      match me_transactionId m with
      | Some (Local t) =>
          map_Forall (fun k x => (if bool_decide (k = local_key (Some t)) then bool_decide (tx_request x = None) else negb (uses (producer_key (me_producerId m)) x)) = true) (c_transactions c)
      | _ => True
      end
  | (CConsumerControl _ | CShutdownInfo _), _ => False
  | _, _ => True
  end.

#[export] Instance allowed_dec cmd s oc : Decision (allowed cmd s oc).
Proof. unfold allowed, quiet. repeat case_match; apply _. Defined.

Definition note_use (cmd : Command) (s : Client) : Client :=
  let s := mkClient (live s) (used_connections s) (used_members s) (used_consumers s) (used_transactions s) ({[getCommandId cmd]} ∪ used_ids s) in
  match cmd with
  | CConnectionInfo i => mkClient (live s) ({[connection_key (cn_connectionId i)]} ∪ used_connections s) (used_members s) (used_consumers s) (used_transactions s) (used_ids s)
  | CProducerInfo i => mkClient (live s) (used_connections s) ({[producer_key (pi_producerId i)]} ∪ used_members s) (used_consumers s) (used_transactions s) (used_ids s)
  | CConsumerInfo i => mkClient (live s) (used_connections s) (used_members s) ({[consumer_key (ki_consumerId i)]} ∪ used_consumers s) (used_transactions s) (used_ids s)
  | CTransactionInfo i =>
      match ti_transactionId i, ti_connectionId i with
      | Local t, Some n => mkClient (live s) (used_connections s) (used_members s) (used_consumers s) ({[(connection_key n, local_key (Some t))]} ∪ used_transactions s) (used_ids s)
      | _, _ => s
      end
  | _ => s
  end.

Definition with_live b (s : Client) : Client :=
  mkClient b (used_connections s) (used_members s) (used_consumers s) (used_transactions s) (used_ids s).

Definition client_step (cmd : Command) (s : Client) : option Client :=
  if decide (allowed cmd s (n ← connection_of cmd; live s !! n) /\ getCommandId cmd ∉ used_ids s) then
    b ← step_with mark cmd (live s); Some (with_live b (note_use cmd s))
  else None.

(** The answer to the request that ended a transaction. *)
Definition answered (id : Z) (c : Connection) : Connection :=
  with_transactions (filter (fun kx : transaction_name * Transaction => tx_request kx.2 <> Some id) (c_transactions c)) c.
Definition client_answer (id : Z) (s : Client) : Client := with_live (answered id <$> live s) s.

Definition new_client : Client := mkClient ∅ ∅ ∅ ∅ ∅ ∅.

(** What the broker of such a client keeps: not the transactions that were ended. *)
Definition settle (c : Connection) : Connection :=
  with_transactions (filter (fun kx : transaction_name * Transaction => tx_request kx.2 = None) (c_transactions c)) c.
