(* ===== verification/FailoverSim.v ===== *)
(** * The state tracker knows what the client did: the relation of a tracker to a client
    (FailoverSpec.v), and that every command keeps it. *)
From stdpp Require Import gmap.
From S2P Require Import Prelude Commands StringUtils OrderedMap TrackedCommands HashMap StateTracker FailoverSpec.

(** ** The relation *)

(** Which transaction an object of the heap is for; an address is not used again. *)
Abbreviation owners := (gmap Z (connection_name * transaction_name)).

Record session_rel (sk : session_name) (ss : SessionState) (s : Session) : Prop := {
  sr_info : ss_info ss = s_info s;
  sr_key : session_key (se_sessionId (s_info s)) = sk;
  sr_psorted : om_sorted producer_less (ss_producers ss);
  sr_ksorted : om_sorted consumer_less (ss_consumers ss);
  sr_producers : ps_info <$> om_map producer_key (ss_producers ss) = s_producers s;
  sr_consumers : ks_info <$> om_map consumer_key (ss_consumers ss) = s_consumers s;
  sr_pkeys : forall p i, s_producers s !! p = Some i -> producer_key (pi_producerId i) = p /\ producer_session p = sk;
  sr_kkeys : forall k i, s_consumers s !! k = Some i -> consumer_key (ki_consumerId i) = k /\ consumer_session k = sk;
}.

(** The producer as the tracker has it. *)
Definition tracked_producer (cs : ConnectionState) (p : member_name) : option ProducerState :=
  ss ← om_map session_key (cs_sessions cs) !! producer_session p; om_map producer_key (ss_producers ss) !! p.

(** The commands of a transaction, with its producers there, bring a broker to have it, or to
    be done with it. *)
Definition replays (ck : connection_name) (tk : transaction_name) (tx : Transaction) : Prop :=
  forall (b : Broker) c, b !! ck = Some c -> c_transactions c !! tk = None ->
    (forall p, uses p tx = true -> has_producer c p = true) ->
    run_broker (tx_commands tx) b = Some (<[ck := match tx_request tx with
      | None => with_transactions (<[tk := tx]> (c_transactions c)) c | Some _ => c end]> b).

Record transaction_rel (ck : connection_name) (tk : transaction_name) (a : Z) (cs : ConnectionState) (c : Connection)
    (x : TransactionState) (tx : Transaction) : Prop := {
  tr_commands : ts_commands x = tx_commands tx;
  tr_sorted : om_sorted producer_less (ts_producers x);
  tr_gone : forall p ps, om_map producer_key (ts_producers x) !! p = Some ps ->
    producer_key (pi_producerId (ps_info ps)) = p /\ uses p tx = true /\ tracked_producer cs p = None;
  tr_producers : forall p, uses p tx = true ->
    (exists ps, tracked_producer cs p = Some ps /\ ps_transactionState ps = Some a) \/ is_Some (om_map producer_key (ts_producers x) !! p);
  tr_sessions : forall p, uses p tx = true -> is_Some (c_sessions c !! producer_session p) /\ p.1 = ck;
  tr_replays : replays ck tk tx;
  tr_doubt : exists cmd, list.last (tx_commands tx) = Some cmd /\ forall i, in_doubt cmd = Some i -> tx_request tx = Some (commandId (ti_base i));
}.

Record connection_rel (own : owners) (h : gmap Z TransactionState) (u : Client) (ck : connection_name)
    (cs : ConnectionState) (c : Connection) : Prop := {
  cr_key : connection_key (cn_connectionId (cs_info cs)) = ck;
  cr_used : ck ∈ used_connections u;
  cr_info : set_failoverReconnect false (cs_info cs) = c_info c;
  cr_ssorted : om_sorted session_less (cs_sessions cs);
  cr_tsorted : om_sorted local_less (cs_transactions cs);
  cr_rsorted : om_sorted consumer_less (cs_recoveringPullConsumers cs);
  cr_sessions : forall sk, option_Forall2 (session_rel sk) (om_map session_key (cs_sessions cs) !! sk) (c_sessions c !! sk);
  cr_skeys : forall sk, is_Some (c_sessions c !! sk) -> sk.1 = ck;
  cr_default : is_Some (c_sessions c !! (ck, -1));
  cr_temps : foldl (fun l i => temporary_step i l) [] (cs_tempDestinations cs) = c_temporary c;
  cr_tempkeys : Forall (fun i => connection_key (di_connectionId i) = ck) (cs_tempDestinations cs);
  cr_local : Forall (fun p => is_Some p.1) (cs_transactions cs);
  cr_owned : forall tk a, om_map local_key (cs_transactions cs) !! tk = Some a -> own !! a = Some (ck, tk);
  cr_transactions : forall tk,
    match om_map local_key (cs_transactions cs) !! tk, c_transactions c !! tk with
    | Some a, Some tx => exists x, h !! a = Some x /\ transaction_rel ck tk a cs c x tx
    | None, None => True
    | _, _ => False
    end;
  cr_links : forall p ps a, tracked_producer cs p = Some ps -> ps_transactionState ps = Some a ->
    exists tk, own !! a = Some (ck, tk) /\ forall tx, c_transactions c !! tk = Some tx -> uses p tx = true;
  cr_members : forall p, is_Some (tracked_producer cs p) \/ (exists tk tx, c_transactions c !! tk = Some tx /\ uses p tx = true) -> p ∈ used_members u;
  cr_consumers : forall k s, c_sessions c !! consumer_session k = Some s -> is_Some (s_consumers s !! k) -> k ∈ used_consumers u;
  cr_recovering : forall k i, om_map consumer_key (cs_recoveringPullConsumers cs) !! k = Some i ->
    consumer_key (ki_consumerId i) = k /\ k ∈ used_consumers u /\ k.1 = ck /\
    forall s j, c_sessions c !! consumer_session k = Some s -> s_consumers s !! k = Some j -> j = i;
}.

Definition restores (f : Settings) : Prop :=
  trackTransactions f = true /\ restoreSessions f = true /\ restoreConsumers f = true /\ restoreProducers f = true /\
  restoreTransaction f = true /\ trackTransactionProducers f = true.

(** With room for [n] more messages and pulls. *)
Record caches_ok (n : Z) (t : Tracker) : Prop := {
  ca_messages : lhm_ok mp_hash 29 (messageCache t);
  ca_messages_room : 4 * (zlen (chain (messageCache t)) + n) <= 3 * 2 ^ 29;
  ca_messages_plain : map_Forall (fun _ m => me_transactionId m = None) (abs (table (messageCache t)));
  ca_pulls : lhm_ok string_hash 29 (messagePullCache t);
  ca_pulls_room : 4 * (zlen (chain (messagePullCache t)) + n) <= 3 * 2 ^ 29;
}.

Record tracker_rel (own : owners) (n : Z) (t : Tracker) (u : Client) : Prop := {
  tk_settings : restores (settings t);
  tk_sorted : om_sorted connection_less (connectionStates t);
  tk_heap : forall a, is_Some (own !! a) -> is_Some (heap t !! a) /\ a < nextAddress t;
  tk_once : forall a a' x, own !! a = Some x -> own !! a' = Some x -> a = a';
  tk_used : forall a x, own !! a = Some x -> x ∈ used_transactions u;
  tk_connections : forall ck, option_Forall2 (connection_rel own (heap t) u ck) (om_map connection_key (connectionStates t) !! ck) (live u !! ck);
  tk_caches : caches_ok n t;
}.

(** ** What does not matter to the relation *)

Definition uses_grow (u u' : Client) : Prop :=
  used_connections u ⊆ used_connections u' /\ used_members u ⊆ used_members u' /\ used_consumers u ⊆ used_consumers u' /\
  used_transactions u ⊆ used_transactions u'.

#[export] Instance uses_grow_preorder : PreOrder uses_grow.
Proof. split; [by intros u|]. intros u v w (? & ? & ? & ?) (? & ? & ? & ?). split_and!; by etrans. Qed.

Lemma note_use_grows cmd u : uses_grow u (note_use cmd u).
Proof. unfold note_use. repeat case_match; split_and!; cbn; done || apply union_subseteq_r. Qed.

Lemma with_live_grows b u : uses_grow u (with_live b u).
Proof. done. Qed.

(** What a connection reads of the heap is its own. *)
Lemma connection_rel_frame own own' h h' u u' ck cs c :
  connection_rel own h u ck cs c -> own ⊆ own' -> uses_grow u u' ->
  (forall a tk, own !! a = Some (ck, tk) -> h' !! a = h !! a) -> connection_rel own' h' u' ck cs c.
Proof.
  intros [] Ho (U1 & U2 & U3 & U4) Hh. split; try done; [by apply U1| | | | | |].
  - intros tk a Ha. eapply lookup_weaken; eauto.
  - intros tk. specialize (cr_transactions0 tk). specialize (cr_owned0 tk). repeat case_match; try done.
    destruct cr_transactions0 as (x & Hx & Hrel). exists x. split; [|done]. rewrite <- Hx. by eapply Hh, cr_owned0.
  - intros p ps a Hp Ha. destruct (cr_links0 p ps a Hp Ha) as (tk & Hown & Hu). exists tk. split; [|done]. eapply lookup_weaken; eauto.
  - intros p Hp. by apply U2, cr_members0.
  - intros k s Hs Hk. by eapply U3, cr_consumers0.
  - intros k i Hk. destruct (cr_recovering0 k i Hk) as (? & ? & ? & ?). split_and!; try done. by apply U3.
Qed.

(** ** A connection's sessions change *)

Definition unused (p : member_name) (c : Connection) : Prop := forall tk tx, c_transactions c !! tk = Some tx -> uses p tx = false.

Definition used_in (p : member_name) (c : Connection) : Prop := exists tk tx, c_transactions c !! tk = Some tx /\ uses p tx = true.

(** The producers stay, but for new ones and those no transaction needs. *)
Record producers_kept (u : Client) (cs cs' : ConnectionState) (c : Connection) : Prop := {
  pk_new : forall p ps, tracked_producer cs' p = Some ps -> tracked_producer cs p = Some ps \/ (p ∉ used_members u /\ ps_transactionState ps = None);
  pk_old : forall p ps, tracked_producer cs p = Some ps -> tracked_producer cs' p = Some ps \/ unused p c;
}.

Lemma transaction_rel_sessions own h u ck tk a cs cs' c c' x tx :
  connection_rel own h u ck cs c -> c_transactions c !! tk = Some tx -> transaction_rel ck tk a cs c x tx ->
  producers_kept u cs cs' c -> (forall p, used_in p c -> is_Some (c_sessions c' !! producer_session p)) -> transaction_rel ck tk a cs' c' x tx.
Proof.
  intros Hc Htx [] [Hnew Hold] Hs. assert (forall p, uses p tx = true -> used_in p c) as Hused by (intros p Hp; by exists tk, tx).
  split; try done.
  - intros p ps Hp. destruct (tr_gone0 p ps Hp) as (? & Hu & Hnone). split_and!; try done.
    destruct (tracked_producer cs' p) as [ps'|] eqn:E; [|done]. destruct (Hnew _ _ E) as [?|[Hf _]]; [congruence|].
    exfalso. apply Hf, (cr_members _ _ _ _ _ _ Hc). right. by apply Hused.
  - intros p Hp. destruct (tr_producers0 p Hp) as [(ps & E & Ha)|?]; [left|by right]. destruct (Hold _ _ E) as [?|Hun]; [by exists ps|].
    by rewrite (Hun _ _ Htx) in Hp.
  - intros p Hp. split; [by apply Hs, Hused|by apply tr_sessions0].
Qed.

(** What is said of the sessions alone. *)
Record sessions_ok (u : Client) (ck : connection_name) (cs : ConnectionState) (c : Connection) : Prop := {
  so_sorted : om_sorted session_less (cs_sessions cs);
  so_sessions : forall sk, option_Forall2 (session_rel sk) (om_map session_key (cs_sessions cs) !! sk) (c_sessions c !! sk);
  so_keys : forall sk, is_Some (c_sessions c !! sk) -> sk.1 = ck;
  so_default : is_Some (c_sessions c !! (ck, -1));
  so_consumers : forall k s, c_sessions c !! consumer_session k = Some s -> is_Some (s_consumers s !! k) -> k ∈ used_consumers u;
}.

Definition recovering_ok (u : Client) (ck : connection_name) (cs : ConnectionState) (c : Connection) : Prop :=
  om_sorted consumer_less (cs_recoveringPullConsumers cs) /\
  forall k i, om_map consumer_key (cs_recoveringPullConsumers cs) !! k = Some i ->
    consumer_key (ki_consumerId i) = k /\ k ∈ used_consumers u /\ k.1 = ck /\
    forall s j, c_sessions c !! consumer_session k = Some s -> s_consumers s !! k = Some j -> j = i.

Lemma connection_rel_sessions own h u u' ck cs c cs' c' :
  connection_rel own h u ck cs c -> uses_grow u u' ->
  cs_info cs' = cs_info cs -> cs_transactions cs' = cs_transactions cs -> cs_tempDestinations cs' = cs_tempDestinations cs ->
  c_info c' = c_info c -> c_transactions c' = c_transactions c -> c_temporary c' = c_temporary c ->
  sessions_ok u' ck cs' c' -> recovering_ok u' ck cs' c' -> producers_kept u cs cs' c ->
  (forall p, is_Some (tracked_producer cs' p) -> p ∈ used_members u') ->
  (forall p, used_in p c -> is_Some (c_sessions c' !! producer_session p)) -> connection_rel own h u' ck cs' c'.
Proof.
  intros Hc (U1 & U2 & U3 & U4) Ei Et Ed Eci Ect Ecd [] [Hr1 Hr2] Hk Hm Hu. pose proof Hc as []. split; rewrite ?Ei, ?Et, ?Ed, ?Eci, ?Ect, ?Ecd; try done.
  - by apply U1.
  - intros tk. specialize (cr_transactions0 tk). destruct (om_map local_key (cs_transactions cs) !! tk), (c_transactions c !! tk) as [tx|] eqn:Etx; try done.
    destruct cr_transactions0 as (x & Hx & Hrel). exists x. split; [done|]. by eapply transaction_rel_sessions.
  - intros p ps a Hp Ha. destruct (pk_new _ _ _ _ Hk p ps Hp) as [Hp'|[_ ?]]; [|congruence]. by eapply cr_links0.
  - intros p [Hp|Hp]; [by apply Hm|]. apply U2, cr_members0. by right.
Qed.

(** ** Maps with one entry changed *)

Lemma tracked_producer_insert cs sk ss p : om_map session_key (cs_sessions cs) !! sk = Some ss ->
  producer_session p = sk -> tracked_producer cs p = om_map producer_key (ss_producers ss) !! p.
Proof. intros H <-. unfold tracked_producer. by rewrite H. Qed.

Lemma session_lookup own h u ck cs c sk : connection_rel own h u ck cs c ->
  match om_map session_key (cs_sessions cs) !! sk, c_sessions c !! sk with
  | Some ss, Some s => session_rel sk ss s | None, None => True | _, _ => False end.
Proof. intros Hc. pose proof (cr_sessions _ _ _ _ _ _ Hc sk) as H. inversion H; by simplify_eq. Qed.

Lemma sessions_forall2 sk (o : option SessionState) (o' : option Session) :
  match o, o' with Some ss, Some s => session_rel sk ss s | None, None => True | _, _ => False end -> option_Forall2 (session_rel sk) o o'.
Proof. destruct o, o'; try done; by constructor. Qed.

Lemma tracked_producer_set cs id ss p : om_sorted session_less (cs_sessions cs) ->
  tracked_producer (set_session id ss cs) p =
    if decide (producer_session p = session_key id) then om_map producer_key (ss_producers ss) !! p else tracked_producer cs p.
Proof.
  intros Hs. unfold tracked_producer, set_session. cbn [cs_sessions set_sessions]. rewrite (proj2 (om_set_ok id ss _ Hs)).
  case_decide as E; [by rewrite E, lookup_insert_eq|by rewrite lookup_insert_ne by congruence].
Qed.

Lemma tracked_producer_remove cs id p : om_sorted session_less (cs_sessions cs) ->
  tracked_producer (removeSession id cs) p = if decide (producer_session p = session_key id) then None else tracked_producer cs p.
Proof.
  intros Hs. unfold tracked_producer, removeSession. cbn [cs_sessions set_sessions]. rewrite (proj2 (om_remove_ok id _ Hs)).
  case_decide as E; [by rewrite E, lookup_delete_eq|by rewrite lookup_delete_ne by congruence].
Qed.

Section connection_sessions.
Context (own : owners) (h : gmap Z TransactionState) (u : Client) (ck : connection_name).
Implicit Types (cs : ConnectionState) (c : Connection) (s : Session).

Lemma sessions_ok_set u' cs c id ss s : connection_rel own h u ck cs c -> uses_grow u u' -> (session_key id).1 = ck ->
  session_rel (session_key id) ss s -> (forall k, is_Some (s_consumers s !! k) -> k ∈ used_consumers u') ->
  sessions_ok u' ck (set_session id ss cs) (with_sessions (<[session_key id := s]> (c_sessions c)) c).
Proof.
  intros Hc (_ & _ & U & _) Hk Hss Hks. pose proof Hc as []. destruct (om_set_ok id ss _ cr_ssorted0) as [Hs Hm].
  split; cbn [cs_sessions set_session set_sessions c_sessions with_sessions]; [done| | | |].
  - intros sk. rewrite Hm. destruct (decide (sk = session_key id)) as [->|Hne]; [rewrite !lookup_insert_eq; by constructor|by rewrite !lookup_insert_ne].
  - intros sk. destruct (decide (sk = session_key id)) as [->|Hne]; [done|rewrite lookup_insert_ne by done; apply cr_skeys0].
  - destruct (decide ((ck, -1) = session_key id)) as [E|Hne]; [by rewrite E, lookup_insert_eq|by rewrite lookup_insert_ne].
  - intros k s'. destruct (decide (consumer_session k = session_key id)) as [->|Hne]; [rewrite lookup_insert_eq; intros [= <-]; apply Hks|].
    rewrite lookup_insert_ne by done. intros Hs' Hk'. by eapply U, cr_consumers0.
Qed.

Lemma sessions_ok_remove cs c id : connection_rel own h u ck cs c -> si_value id <> -1 ->
  sessions_ok u ck (removeSession id cs) (with_sessions (delete (session_key id) (c_sessions c)) c).
Proof.
  intros Hc Hd. pose proof Hc as []. destruct (om_remove_ok id _ cr_ssorted0) as [Hs Hm].
  split; cbn [cs_sessions removeSession set_sessions c_sessions with_sessions]; [done| | | |].
  - intros sk. rewrite Hm. destruct (decide (sk = session_key id)) as [->|Hne]; [rewrite !lookup_delete_eq; by constructor|by rewrite !lookup_delete_ne].
  - intros sk [s E]. apply lookup_delete_Some in E as [_ E]. apply cr_skeys0. by eexists.
  - rewrite lookup_delete_ne; [done|]. intros E. by injection E as _ E.
  - intros k s' [_ Hs']%lookup_delete_Some. by eapply cr_consumers0.
Qed.

(** The session of a live producer or consumer. *)
Lemma recovering_ok_sessions u' cs cs' c c' : connection_rel own h u ck cs c -> uses_grow u u' ->
  cs_recoveringPullConsumers cs' = cs_recoveringPullConsumers cs ->
  (forall k i s j, om_map consumer_key (cs_recoveringPullConsumers cs) !! k = Some i -> c_sessions c' !! consumer_session k = Some s ->
     s_consumers s !! k = Some j -> (exists s0, c_sessions c !! consumer_session k = Some s0 /\ s_consumers s0 !! k = Some j)) ->
  recovering_ok u' ck cs' c'.
Proof.
  intros Hc (_ & _ & U & _) E Hk. pose proof Hc as []. unfold recovering_ok. rewrite E. split; [done|]. intros k i Hi.
  destruct (cr_recovering0 k i Hi) as (? & Hu & ? & Hj). split_and!; [done|by apply U|done|]. intros s j Hs Hj'.
  destruct (Hk k i s j Hi Hs Hj') as (s0 & Hs0 & Hj0). by eapply Hj.
Qed.

Lemma quiet_unused cs c sk p : connection_rel own h u ck cs c -> quiet sk c -> producer_session p = sk -> unused p c.
Proof.
  intros _ Hq <- tk tx Htx. specialize (Hq tk tx Htx). cbn in Hq. unfold uses.
  destruct (existsb (sent_by p) (tx_commands tx)) eqn:E; [|done]. apply existsb_exists in E as (cmd & Hin & Hsent).
  assert (existsb (sends_in_session (producer_session p)) (tx_commands tx) = true) as Hx; [|congruence]. apply existsb_exists. exists cmd. split; [done|].
  destruct cmd; try done. cbn in *. apply bool_decide_eq_true in Hsent. apply bool_decide_eq_true. by rewrite producer_parent_key, <- Hsent.
Qed.

Lemma used_session cs c p : connection_rel own h u ck cs c -> used_in p c -> is_Some (c_sessions c !! producer_session p).
Proof.
  intros Hc (tk & tx & Htx & Hu). pose proof (cr_transactions _ _ _ _ _ _ Hc tk) as H. rewrite Htx in H.
  destruct (om_map _ _ !! tk); [|done]. destruct H as (x & _ & Hrel). by apply (tr_sessions _ _ _ _ _ _ _ Hrel).
Qed.

Lemma connection_rel_addSession cs c i : connection_rel own h u ck cs c -> (session_key (se_sessionId i)).1 = ck -> quiet (session_key (se_sessionId i)) c ->
  connection_rel own h u ck (addSession i cs) (with_sessions (<[session_key (se_sessionId i) := mkSession i ∅ ∅]> (c_sessions c)) c).
Proof.
  intros Hc Hk Hq. pose proof (cr_ssorted _ _ _ _ _ _ Hc) as Hs. change (addSession i cs) with (set_session (se_sessionId i) (mkSessionState i [] []) cs).
  apply (connection_rel_sessions own h u u ck cs c); try done.
  - apply sessions_ok_set; try done; [|intros k [? E]; cbn in E; by rewrite lookup_empty in E]. split; cbn; try done; by constructor || (intros ?? E; by rewrite lookup_empty in E).
  - eapply recovering_ok_sessions; try done. intros k i' s j Hi. cbn. destruct (decide (consumer_session k = session_key (se_sessionId i))) as [->|Hne];
      [rewrite lookup_insert_eq; intros [= <-] E; cbn in E; by rewrite lookup_empty in E|]. rewrite lookup_insert_ne by done. intros Hs' Hj. by exists s.
  - split; intros p ps; rewrite (tracked_producer_set _ _ _ _ Hs); case_decide as E; cbn; [by unfold om_map; cbn; rewrite lookup_empty|by left| |by left].
    intros _. right. by eapply quiet_unused.
  - intros p. rewrite (tracked_producer_set _ _ _ _ Hs). case_decide; [intros [? E]; unfold om_map in E; cbn in E; by rewrite lookup_empty in E|].
    intros Hp. apply (cr_members _ _ _ _ _ _ Hc). by left.
  - intros p Hp. cbn. destruct (used_session _ _ _ Hc Hp) as [s Hs']. destruct (decide (producer_session p = session_key (se_sessionId i))) as [->|Hne];
      [by rewrite lookup_insert_eq|rewrite lookup_insert_ne by done; by eexists].
Qed.

Lemma connection_rel_removeSession cs c id : connection_rel own h u ck cs c -> quiet (session_key id) c -> si_value id <> -1 ->
  connection_rel own h u ck (removeSession id cs) (with_sessions (delete (session_key id) (c_sessions c)) c).
Proof.
  intros Hc Hq Hd. pose proof (cr_ssorted _ _ _ _ _ _ Hc) as Hs. apply (connection_rel_sessions own h u u ck cs c); try done.
  - by apply sessions_ok_remove.
  - eapply recovering_ok_sessions; try done. intros k i' s j Hi. cbn. intros [_ Hs']%lookup_delete_Some Hj. by exists s.
  - split; intros p ps; rewrite (tracked_producer_remove _ _ _ Hs); case_decide as E; [done|by left| |by left]. intros _. right. by eapply quiet_unused.
  - intros p. rewrite (tracked_producer_remove _ _ _ Hs). case_decide; [by intros [? ?]|]. intros Hp. apply (cr_members _ _ _ _ _ _ Hc). by left.
  - intros p Hp. cbn. destruct (used_session _ _ _ Hc Hp) as [s Hs']. rewrite lookup_delete_ne; [by eexists|]. intros E. destruct Hp as (tk & tx & Htx & Hu).
    by rewrite (quiet_unused cs c _ p Hc Hq (eq_sym E) tk tx Htx) in Hu.
Qed.
End connection_sessions.

(** ** Sessions' members *)

Lemma session_rel_addProducer sk ss s i : session_rel sk ss s -> producer_session (producer_key (pi_producerId i)) = sk ->
  session_rel sk (addProducer i ss) (with_producers (<[producer_key (pi_producerId i) := i]> (s_producers s)) s).
Proof.
  intros [] Hk. destruct (om_set_ok (pi_producerId i) (mkProducerState i None) _ sr_psorted0) as [Hs Hm]. split; try done; cbn [addProducer addConsumer removeConsumer set_producers set_consumers ss_producers ss_consumers s_producers s_consumers with_producers with_consumers].
  - by rewrite Hm, fmap_insert, sr_producers0.
  - intros p j [[<- <-]|[_ Hj]]%lookup_insert_Some; [done|by apply sr_pkeys0].
Qed.

Lemma session_rel_addConsumer sk ss s i : session_rel sk ss s -> consumer_session (consumer_key (ki_consumerId i)) = sk ->
  session_rel sk (addConsumer i ss) (with_consumers (<[consumer_key (ki_consumerId i) := i]> (s_consumers s)) s).
Proof.
  intros [] Hk. destruct (om_set_ok (ki_consumerId i) (mkConsumerState i) _ sr_ksorted0) as [Hs Hm]. split; try done; cbn [addProducer addConsumer removeConsumer set_producers set_consumers ss_producers ss_consumers s_producers s_consumers with_producers with_consumers].
  - by rewrite Hm, fmap_insert, sr_consumers0.
  - intros p j [[<- <-]|[_ Hj]]%lookup_insert_Some; [done|by apply sr_kkeys0].
Qed.

Lemma session_rel_removeConsumer sk ss s id : session_rel sk ss s ->
  session_rel sk (removeConsumer id ss) (with_consumers (delete (consumer_key id) (s_consumers s)) s).
Proof.
  intros []. destruct (om_remove_ok id _ sr_ksorted0) as [Hs Hm]. split; try done; cbn [addProducer addConsumer removeConsumer set_producers set_consumers ss_producers ss_consumers s_producers s_consumers with_producers with_consumers].
  - by rewrite Hm, fmap_delete, sr_consumers0.
  - intros p j [_ Hj]%lookup_delete_Some. by apply sr_kkeys0.
Qed.

Lemma session_rel_removeProducer sk ss s id : session_rel sk ss s ->
  session_rel sk (set_producers (om_remove producer_less id (ss_producers ss)) ss) (with_producers (delete (producer_key id) (s_producers s)) s).
Proof.
  intros []. destruct (om_remove_ok id _ sr_psorted0) as [Hs Hm]. split; try done; cbn [addProducer addConsumer removeConsumer set_producers set_consumers ss_producers ss_consumers s_producers s_consumers with_producers with_consumers].
  - by rewrite Hm, fmap_delete, sr_producers0.
  - intros p j [_ Hj]%lookup_delete_Some. by apply sr_pkeys0.
Qed.

(** A producer is given its transaction. *)
Lemma session_rel_setProducer sk ss s id ps a : session_rel sk ss s -> om_map producer_key (ss_producers ss) !! producer_key id = Some ps ->
  session_rel sk (set_producers (om_set producer_less id (mkProducerState (ps_info ps) (Some a)) (ss_producers ss)) ss) s.
Proof.
  intros [] Hp. destruct (om_set_ok id (mkProducerState (ps_info ps) (Some a)) _ sr_psorted0) as [Hs Hm]. split; try done; cbn [set_producers ss_producers].
  rewrite Hm, fmap_insert, sr_producers0. cbn. apply insert_id. by rewrite <- sr_producers0, lookup_fmap, Hp.
Qed.

Lemma tracked_some own h u ck cs c p ps : connection_rel own h u ck cs c -> tracked_producer cs p = Some ps ->
  exists ss s, om_map session_key (cs_sessions cs) !! producer_session p = Some ss /\ c_sessions c !! producer_session p = Some s /\
    session_rel (producer_session p) ss s /\ om_map producer_key (ss_producers ss) !! p = Some ps /\ s_producers s !! p = Some (ps_info ps).
Proof.
  intros Hc. unfold tracked_producer. pose proof (session_lookup _ _ _ _ _ _ (producer_session p) Hc) as H.
  destruct (om_map session_key (cs_sessions cs) !! producer_session p) as [ss|]; [|done]. destruct (c_sessions c !! producer_session p) as [s|] eqn:Es; [|done].
  cbn. intros Hp. exists ss, s. split_and!; try done. rewrite <- (sr_producers _ _ _ H), lookup_fmap, Hp. done.
Qed.

Lemma has_producer_tracked own h u ck cs c p : connection_rel own h u ck cs c ->
  has_producer c p = bool_decide (is_Some (tracked_producer cs p)).
Proof.
  intros Hc. unfold has_producer, tracked_producer. pose proof (session_lookup _ _ _ _ _ _ (producer_session p) Hc) as H.
  destruct (om_map session_key (cs_sessions cs) !! producer_session p) as [ss|], (c_sessions c !! producer_session p) as [s|]; try done; cbn.
  rewrite <- (sr_producers _ _ _ H), lookup_fmap. apply bool_decide_ext. by rewrite fmap_is_Some.
Qed.

Section connection_members.
Context (own : owners) (h : gmap Z TransactionState) (u : Client) (ck : connection_name).
Implicit Types (cs : ConnectionState) (c : Connection) (s : Session).

(** A session that keeps its producers. *)
Lemma connection_rel_session u' cs c id ss s ss' s' :
  connection_rel own h u ck cs c -> uses_grow u u' -> om_map session_key (cs_sessions cs) !! session_key id = Some ss -> c_sessions c !! session_key id = Some s ->
  session_rel (session_key id) ss' s' -> (forall k, is_Some (s_consumers s' !! k) -> k ∈ used_consumers u') ->
  recovering_ok u' ck (set_session id ss' cs) (with_sessions (<[session_key id := s']> (c_sessions c)) c) ->
  producers_kept u cs (set_session id ss' cs) c -> (forall p, is_Some (tracked_producer (set_session id ss' cs) p) -> p ∈ used_members u') ->
  connection_rel own h u' ck (set_session id ss' cs) (with_sessions (<[session_key id := s']> (c_sessions c)) c).
Proof.
  intros Hc Hg Hss Hs Hrel Hk Hr Hp Hm. eapply connection_rel_sessions; try done.
  - eapply sessions_ok_set; try done. eapply cr_skeys; [done|by eexists].
  - intros p Hu. cbn. destruct (used_session _ _ _ _ _ _ _ Hc Hu) as [s0 Hs0]. destruct (decide (producer_session p = session_key id)) as [->|Hne];
      [by rewrite lookup_insert_eq|rewrite lookup_insert_ne by done; by eexists].
Qed.

Lemma session_consumers cs c sk s k : connection_rel own h u ck cs c -> c_sessions c !! sk = Some s -> is_Some (s_consumers s !! k) -> k ∈ used_consumers u.
Proof.
  intros Hc Hs [i Hi]. pose proof (session_lookup _ _ _ _ _ _ sk Hc) as H. rewrite Hs in H. destruct (om_map _ _ !! sk); [|done].
  destruct (sr_kkeys _ _ _ H k i Hi) as [_ Hk]. eapply (cr_consumers _ _ _ _ _ _ Hc); [by rewrite Hk|by eexists].
Qed.

(** Recovering consumers where one session changes. *)
Lemma recovering_ok_set u' cs c id ss' s s' : connection_rel own h u ck cs c -> uses_grow u u' -> c_sessions c !! session_key id = Some s ->
  (forall k j, s_consumers s' !! k = Some j -> s_consumers s !! k = Some j \/ k ∉ used_consumers u) ->
  recovering_ok u' ck (set_session id ss' cs) (with_sessions (<[session_key id := s']> (c_sessions c)) c).
Proof.
  intros Hc Hg Hs Hk. apply (recovering_ok_sessions own h u ck u' cs _ c); try done. intros k i s0 j Hi. cbn.
  destruct (decide (consumer_session k = session_key id)) as [E|Hne]; [rewrite E, lookup_insert_eq; intros [= <-] Hj|rewrite lookup_insert_ne by done; intros; by exists s0].
  destruct (Hk k j Hj) as [?|Hf]; [by exists s|]. exfalso. apply Hf. by apply (cr_recovering _ _ _ _ _ _ Hc k i).
Qed.

Lemma connection_rel_addProducer cs c i ss s : connection_rel own h u ck cs c ->
  let id := producer_parent (pi_producerId i) in
  om_map session_key (cs_sessions cs) !! session_key id = Some ss -> c_sessions c !! session_key id = Some s ->
  producer_key (pi_producerId i) ∉ used_members u ->
  connection_rel own h (mkClient (live u) (used_connections u) ({[producer_key (pi_producerId i)]} ∪ used_members u) (used_consumers u) (used_transactions u) (used_ids u)) ck
    (set_session id (addProducer i ss) cs) (with_sessions (<[session_key id := with_producers (<[producer_key (pi_producerId i) := i]> (s_producers s)) s]> (c_sessions c)) c).
Proof.
  intros Hc id Hss Hs Hf. pose proof (cr_ssorted _ _ _ _ _ _ Hc) as Hsort. pose proof (session_lookup _ _ _ _ _ _ (session_key id) Hc) as Hrel. rewrite Hss, Hs in Hrel.
  assert (uses_grow u (mkClient (live u) (used_connections u) ({[producer_key (pi_producerId i)]} ∪ used_members u) (used_consumers u) (used_transactions u) (used_ids u))) as Hg
    by (split_and!; cbn; done || apply union_subseteq_r).
  assert (forall p, tracked_producer (set_session id (addProducer i ss) cs) p = if decide (p = producer_key (pi_producerId i)) then Some (mkProducerState i None) else tracked_producer cs p) as Ht.
  { intros p. rewrite (tracked_producer_set _ _ _ _ Hsort). cbn [addProducer set_producers ss_producers]. rewrite (proj2 (om_set_ok _ _ _ (sr_psorted _ _ _ Hrel))).
    destruct (decide (producer_session p = session_key id)) as [E|Hne].
    - destruct (decide (p = producer_key (pi_producerId i))) as [->|Hp]; [apply lookup_insert_eq|]. rewrite lookup_insert_ne by done. symmetry. by apply (tracked_producer_insert _ (session_key id)).
    - rewrite decide_False; [done|]. intros ->. by apply Hne. }
  eapply connection_rel_session; try done.
  - by apply session_rel_addProducer.
  - intros k Hk. cbn in *. by eapply session_consumers.
  - eapply recovering_ok_set; try done. intros k j Hk. by left.
  - split; intros p ps; rewrite Ht; case_decide as E; [intros [= <-]; right; by rewrite E|by left| |by left].
    intros Hp. exfalso. apply Hf. rewrite <- E. apply (cr_members _ _ _ _ _ _ Hc). left. by eexists.
  - intros p. rewrite Ht. cbn. case_decide; [set_solver|]. intros Hp. apply elem_of_union_r, (cr_members _ _ _ _ _ _ Hc). by left.
Qed.

(** A session whose consumers change. *)
Lemma producers_kept_same cs c id ss ss' : om_sorted session_less (cs_sessions cs) -> om_map session_key (cs_sessions cs) !! session_key id = Some ss ->
  ss_producers ss' = ss_producers ss -> producers_kept u cs (set_session id ss' cs) c /\ forall p, tracked_producer (set_session id ss' cs) p = tracked_producer cs p.
Proof.
  intros Hsort Hss E. assert (forall p, tracked_producer (set_session id ss' cs) p = tracked_producer cs p) as Ht; [|split; [|done]; split; intros p ps; rewrite Ht; by left].
  intros p. rewrite (tracked_producer_set _ _ _ _ Hsort), E. case_decide; [|done]. symmetry. by apply (tracked_producer_insert _ (session_key id)).
Qed.

Lemma connection_rel_addConsumer cs c i ss s : connection_rel own h u ck cs c ->
  let id := consumer_parent (ki_consumerId i) in
  om_map session_key (cs_sessions cs) !! session_key id = Some ss -> c_sessions c !! session_key id = Some s ->
  consumer_key (ki_consumerId i) ∉ used_consumers u ->
  connection_rel own h (mkClient (live u) (used_connections u) (used_members u) ({[consumer_key (ki_consumerId i)]} ∪ used_consumers u) (used_transactions u) (used_ids u)) ck
    (set_session id (addConsumer i ss) cs) (with_sessions (<[session_key id := with_consumers (<[consumer_key (ki_consumerId i) := i]> (s_consumers s)) s]> (c_sessions c)) c).
Proof.
  intros Hc id Hss Hs Hf. pose proof (cr_ssorted _ _ _ _ _ _ Hc) as Hsort. pose proof (session_lookup _ _ _ _ _ _ (session_key id) Hc) as Hrel. rewrite Hss, Hs in Hrel.
  destruct (producers_kept_same cs c id ss (addConsumer i ss) Hsort Hss eq_refl) as [Hk Ht].
  eapply connection_rel_session; try done.
  - split_and!; cbn; done || apply union_subseteq_r.
  - by apply session_rel_addConsumer.
  - intros k. cbn. destruct (decide (k = consumer_key (ki_consumerId i))) as [->|]; [set_solver|]. rewrite lookup_insert_ne by done. intros Hk'.
    apply elem_of_union_r. by eapply session_consumers.
  - eapply recovering_ok_set; try done; [split_and!; cbn; done || apply union_subseteq_r|]. intros k j. cbn. destruct (decide (k = consumer_key (ki_consumerId i))) as [->|]; [by right|].
    rewrite lookup_insert_ne by done. by left.
  - intros p. rewrite Ht. intros Hp. apply (cr_members _ _ _ _ _ _ Hc). by left.
Qed.

(** The consumer is not to recover any more. *)
Lemma connection_rel_removeConsumer cs c kid ss s : connection_rel own h u ck cs c ->
  let id := consumer_parent kid in
  om_map session_key (cs_sessions cs) !! session_key id = Some ss -> c_sessions c !! session_key id = Some s ->
  let cs' := set_session id (removeConsumer kid ss) cs in
  connection_rel own h u ck cs' (with_sessions (<[session_key id := with_consumers (delete (consumer_key kid) (s_consumers s)) s]> (c_sessions c)) c).
Proof.
  intros Hc id Hss Hs cs'. pose proof (cr_ssorted _ _ _ _ _ _ Hc) as Hsort. pose proof (session_lookup _ _ _ _ _ _ (session_key id) Hc) as Hrel. rewrite Hss, Hs in Hrel.
  destruct (producers_kept_same cs c id ss (removeConsumer kid ss) Hsort Hss eq_refl) as [Hk Ht].
  eapply connection_rel_session; try done.
  - by apply session_rel_removeConsumer.
  - intros k [j Hj]. cbn in Hj. apply lookup_delete_Some in Hj as [_ Hj]. eapply session_consumers; [done..|by eexists].
  - eapply recovering_ok_set; try done. intros k j. cbn. intros [_ Hj]%lookup_delete_Some. by left.
  - intros p. rewrite Ht. intros Hp. apply (cr_members _ _ _ _ _ _ Hc). by left.
Qed.

(** Whatever is dropped from the consumers that recover, and whether they do. *)
Lemma connection_rel_recovering cs c complete l : connection_rel own h u ck cs c -> om_sorted consumer_less l ->
  (forall k i, om_map consumer_key l !! k = Some i -> consumer_key (ki_consumerId i) = k /\ k ∈ used_consumers u /\ k.1 = ck /\
    forall s j, c_sessions c !! consumer_session k = Some s -> s_consumers s !! k = Some j -> j = i) ->
  connection_rel own h u ck (set_recovering complete l cs) c.
Proof.
  intros Hc Hl Hi. apply (connection_rel_sessions own h u u ck cs c); try done.
  - destruct Hc. by split.
  - split; intros p ps; by left.
  - intros p Hp. apply (cr_members _ _ _ _ _ _ Hc). by left.
  - intros p. by eapply used_session.
Qed.

Lemma connection_rel_subset cs c complete l : connection_rel own h u ck cs c -> om_sorted consumer_less l ->
  om_map consumer_key l ⊆ om_map consumer_key (cs_recoveringPullConsumers cs) -> connection_rel own h u ck (set_recovering complete l cs) c.
Proof. intros Hc Hl Hsub. apply connection_rel_recovering; [done..|]. intros k i Hi. eapply (cr_recovering _ _ _ _ _ _ Hc), lookup_weaken; eauto. Qed.
End connection_members.

(** ** A connection's transactions change *)

Lemma connection_transactions own h u ck cs c tk : connection_rel own h u ck cs c ->
  match om_map local_key (cs_transactions cs) !! tk, c_transactions c !! tk with
  | Some a, Some tx => exists x, h !! a = Some x /\ own !! a = Some (ck, tk) /\ transaction_rel ck tk a cs c x tx
  | None, None => True
  | _, _ => False
  end.
Proof.
  intros Hc. pose proof (cr_transactions _ _ _ _ _ _ Hc tk) as H. pose proof (cr_owned _ _ _ _ _ _ Hc tk) as Ho.
  destruct (om_map _ _ !! tk) as [a|]; [|done]. destruct (c_transactions c !! tk); [|done]. destruct H as (x & Hx & Hr). exists x. split_and!; auto.
Qed.

(** The transactions of the connection, and their objects. *)
Record transactions_ok (own : owners) (h : gmap Z TransactionState) (ck : connection_name) (cs : ConnectionState) (c : Connection) : Prop := {
  to_sorted : om_sorted local_less (cs_transactions cs);
  to_local : Forall (fun p => is_Some p.1) (cs_transactions cs);
  to_owned : forall tk a, om_map local_key (cs_transactions cs) !! tk = Some a -> own !! a = Some (ck, tk);
  to_transactions : forall tk,
    match om_map local_key (cs_transactions cs) !! tk, c_transactions c !! tk with
    | Some a, Some tx => exists x, h !! a = Some x /\ transaction_rel ck tk a cs c x tx
    | None, None => True
    | _, _ => False
    end;
  to_links : forall p ps a, tracked_producer cs p = Some ps -> ps_transactionState ps = Some a ->
    exists tk, own !! a = Some (ck, tk) /\ forall tx, c_transactions c !! tk = Some tx -> uses p tx = true;
}.

(** The rest of the connection is as it was; the producers may be others that the members
    used allow. *)
Lemma connection_rel_transactions own own' h h' u u' ck cs cs' c c' : connection_rel own h u ck cs c -> uses_grow u u' ->
  cs_info cs' = cs_info cs -> cs_tempDestinations cs' = cs_tempDestinations cs -> cs_recoveringPullConsumers cs' = cs_recoveringPullConsumers cs ->
  c_info c' = c_info c -> c_sessions c' = c_sessions c -> c_temporary c' = c_temporary c ->
  om_sorted session_less (cs_sessions cs') ->
  (forall sk, option_Forall2 (session_rel sk) (om_map session_key (cs_sessions cs') !! sk) (c_sessions c !! sk)) ->
  transactions_ok own' h' ck cs' c' ->
  (forall p, is_Some (tracked_producer cs' p) \/ used_in p c' -> is_Some (tracked_producer cs p) \/ used_in p c) ->
  connection_rel own' h' u' ck cs' c'.
Proof.
  intros Hc (U1 & U2 & U3 & U4) Ei Ed Er Eci Ecs Ecd Hs1 Hs2 [] Hm. pose proof Hc as []. split; rewrite ?Ei, ?Ed, ?Er, ?Eci, ?Ecs, ?Ecd; try done.
  - by apply U1.
  - intros p Hp. by apply U2, cr_members0, Hm.
  - intros k s Hk Hs. by eapply U3, cr_consumers0.
  - intros k i Hk. destruct (cr_recovering0 k i Hk) as (? & ? & ? & ?). split_and!; try done. by apply U3.
Qed.

(** *** What a broker makes of the commands of a transaction *)

Lemma run_broker_app l1 l2 b : run_broker (l1 ++ l2) b = b' ← run_broker l1 b; run_broker l2 b'.
Proof. revert b. induction l1 as [|x l1 IH]; intros b; [done|]. cbn [app run_broker]. destruct (broker_step x b); [apply IH|done]. Qed.

Lemma has_producer_transactions c x p : has_producer (with_transactions x c) p = has_producer c p.
Proof. done. Qed.

(** A step that is recorded. *)
Lemma replays_record ck tk tx cmd : replays ck tk tx -> tx_request tx = None -> connection_of cmd = Some ck ->
  (forall c, c_transactions c !! tk = Some tx -> (forall p, uses p (mkTransaction (tx_commands tx ++ [cmd]) None) = true -> has_producer c p = true) ->
     live_step forget cmd c = Some <$> record_in tk cmd c) ->
  replays ck tk (mkTransaction (tx_commands tx ++ [cmd]) None).
Proof.
  intros Hr Hn Hck Hstep b c Hb Ht Hp. cbn [tx_commands tx_request]. rewrite run_broker_app, (Hr b c Hb Ht), Hn; cycle 1.
  { intros p Hu. apply Hp. unfold uses in *. cbn [tx_commands]. by rewrite existsb_app, Hu. }
  cbn. unfold broker_step, step_with. rewrite Hck, lookup_insert_eq. cbn [connection_step]. rewrite Hstep; [|by cbn; rewrite lookup_insert_eq|exact Hp].
  unfold record_in. cbn. rewrite lookup_insert_eq. cbn. rewrite Hn. unfold with_transactions. cbn. by rewrite !insert_insert_eq.
Qed.

(** A step that ends it. *)
Lemma replays_end ck tk tx cmd id : replays ck tk tx -> tx_request tx = None -> connection_of cmd = Some ck ->
  (forall c, c_transactions c !! tk = Some tx -> live_step forget cmd c = Some (Some (with_transactions (delete tk (c_transactions c)) c))) ->
  (forall p, sent_by p cmd = false) -> replays ck tk (mkTransaction (tx_commands tx ++ [cmd]) (Some id)).
Proof.
  intros Hr Hn Hck Hstep Hsent b c Hb Ht Hp. cbn [tx_commands tx_request]. rewrite run_broker_app, (Hr b c Hb Ht), Hn; cycle 1.
  { intros p Hu. apply Hp. unfold uses in *. cbn [tx_commands]. by rewrite existsb_app, Hu. }
  cbn. unfold broker_step, step_with. rewrite Hck, lookup_insert_eq. cbn [connection_step]. rewrite Hstep by (cbn; by rewrite lookup_insert_eq).
  cbn. rewrite !insert_insert_eq. do 2 f_equal. destruct c. unfold with_transactions. cbn in *. by rewrite delete_insert_id.
Qed.

Lemma replays_begin ck tk i t : ti_transactionId i = Local t -> tk = local_key (Some t) -> connection_of (CTransactionInfo i) = Some ck ->
  ti_type i = TRANSACTION_STATE_BEGIN -> replays ck tk (mkTransaction [CTransactionInfo i] None).
Proof.
  intros Hi -> Hck Ht b c Hb Hn _. cbn [tx_commands tx_request run_broker]. unfold broker_step, step_with. rewrite Hck, Hb.
  cbn [connection_step live_step]. unfold transaction_step. rewrite Hi, Ht, Hn. done.
Qed.

Lemma transaction_rel_ext ck tk a cs cs' c c' x tx : (forall p, tracked_producer cs' p = tracked_producer cs p) -> c_sessions c' = c_sessions c ->
  transaction_rel ck tk a cs c x tx -> transaction_rel ck tk a cs' c' x tx.
Proof. intros Ht Es []. split; try done; rewrite ?Es; try done; intros p; [intros ps|]; rewrite Ht; auto. Qed.

Lemma uses_app p l cmd req req' : uses p (mkTransaction (l ++ [cmd]) req) = uses p (mkTransaction l req') || sent_by p cmd.
Proof. unfold uses. cbn [tx_commands]. rewrite existsb_app. cbn. by rewrite orb_false_r. Qed.

Section connection_transactions.
Context (own : owners) (h : gmap Z TransactionState) (u : Client) (ck : connection_name).
Implicit Types (cs : ConnectionState) (c : Connection).

Lemma connection_rel_begin u' cs c i t a : connection_rel own h u ck cs c -> uses_grow u u' ->
  let tk := local_key (Some t) in
  ti_transactionId i = Local t -> connection_of (CTransactionInfo i) = Some ck -> ti_type i = TRANSACTION_STATE_BEGIN ->
  c_transactions c !! tk = None -> own !! a = None -> (forall a, own !! a <> Some (ck, tk)) ->
  connection_rel (<[a := (ck, tk)]> own) (<[a := mkTransactionState [CTransactionInfo i] []]> h) u' ck
    (set_transactions (om_set local_less (Some t) a (cs_transactions cs)) cs) (with_transactions (<[tk := mkTransaction [CTransactionInfo i] None]> (c_transactions c)) c).
Proof.
  intros Hc Hg tk Hi Hck Ht Hn Ha Hfresh. destruct (om_set_ok (Some t) a _ (cr_tsorted _ _ _ _ _ _ Hc)) as [Hs Hm].
  apply (connection_rel_transactions own _ h _ u _ ck cs _ c); try done; [apply (cr_ssorted _ _ _ _ _ _ Hc)|apply (cr_sessions _ _ _ _ _ _ Hc)| |].
  - split; cbn [cs_transactions set_transactions c_transactions with_transactions]; [done| | | |].
    + apply (om_set_keys local_less is_Some); [by eexists|apply (cr_local _ _ _ _ _ _ Hc)].
    + intros tk' a'. rewrite Hm. intros [[<- <-]|[Hne Ha']]%lookup_insert_Some; [apply lookup_insert_eq|].
      apply (cr_owned _ _ _ _ _ _ Hc) in Ha'. rewrite lookup_insert_ne; [done|]. intros <-. congruence.
    + intros tk'. rewrite Hm. destruct (decide (tk' = tk)) as [->|Hne].
      * change (local_key (Some t)) with tk. rewrite !lookup_insert_eq. eexists. split; [reflexivity|]. split; cbn; try done; [apply om_sorted_nil|by eapply replays_begin|].
        eexists. split; [reflexivity|]. intros j. cbn. by rewrite Ht.
      * rewrite !lookup_insert_ne by done. pose proof (connection_transactions _ _ _ _ _ _ tk' Hc) as H.
        destruct (om_map local_key (cs_transactions cs) !! tk') as [a'|], (c_transactions c !! tk'); try done. destruct H as (x & Hx & Ho & Hr). exists x.
        rewrite lookup_insert_ne by (intros <-; congruence). split; [done|]. eapply (transaction_rel_ext _ _ _ cs _ c); [done..|exact Hr].
    + intros p ps a' Hp Ha'. destruct (cr_links _ _ _ _ _ _ Hc p ps a' Hp Ha') as (tk' & Ho & Hu). exists tk'.
      rewrite lookup_insert_ne by (intros <-; congruence). split; [done|]. intros tx. rewrite lookup_insert_ne; [apply Hu|]. intros <-. by apply (Hfresh a').
  - intros p [?|(tk' & tx & Htx & Hu)]; [by left|]. cbn in Htx. apply lookup_insert_Some in Htx as [[<- <-]|[_ Htx]]; [done|]. right. by exists tk', tx.
Qed.

(** One more command in a transaction; a message makes it the one its producer is in. *)
Record producers_sent (a : Z) (cmd : Command) (cs cs' : ConnectionState) : Prop := {
  ps_new : forall p ps, tracked_producer cs' p = Some ps -> exists ps0, tracked_producer cs p = Some ps0 /\
    (ps = ps0 /\ sent_by p cmd = false \/ sent_by p cmd = true /\ ps_transactionState ps = Some a);
  ps_old : forall p ps, tracked_producer cs p = Some ps -> exists ps', tracked_producer cs' p = Some ps' /\ (sent_by p cmd = false -> ps' = ps);
}.

Lemma producers_sent_same a cmd cs cs' : (forall p, tracked_producer cs' p = tracked_producer cs p) -> (forall p, sent_by p cmd = false) -> producers_sent a cmd cs cs'.
Proof. intros Ht Hs. split; intros p ps Hp; [rewrite Ht in Hp|]; exists ps; [|by rewrite Ht]. split; [done|]. by left. Qed.

Lemma connection_rel_append u' cs cs' c tk a x tx cmd req : connection_rel own h u ck cs c -> uses_grow u u' ->
  om_map local_key (cs_transactions cs) !! tk = Some a -> h !! a = Some x -> c_transactions c !! tk = Some tx ->
  cs_info cs' = cs_info cs -> cs_transactions cs' = cs_transactions cs -> cs_tempDestinations cs' = cs_tempDestinations cs ->
  cs_recoveringPullConsumers cs' = cs_recoveringPullConsumers cs -> om_sorted session_less (cs_sessions cs') ->
  (forall sk, option_Forall2 (session_rel sk) (om_map session_key (cs_sessions cs') !! sk) (c_sessions c !! sk)) ->
  producers_sent a cmd cs cs' ->
  (forall p, sent_by p cmd = true -> is_Some (tracked_producer cs p) /\ is_Some (c_sessions c !! producer_session p) /\ p.1 = ck /\
     forall tk' tx', c_transactions c !! tk' = Some tx' -> tk' <> tk -> uses p tx' = false) ->
  replays ck tk (mkTransaction (tx_commands tx ++ [cmd]) req) -> (forall i, in_doubt cmd = Some i -> req = Some (commandId (ti_base i))) ->
  connection_rel own (<[a := addCommand cmd x]> h) u' ck cs' (with_transactions (<[tk := mkTransaction (tx_commands tx ++ [cmd]) req]> (c_transactions c)) c).
Proof.
  intros Hc Hg Ha Hx Htx Ei Et Ed Er Hs1 Hs2 [Hnew Hold] Hsent Hrep Hdoubt.
  pose proof (connection_transactions _ _ _ _ _ _ tk Hc) as Hrel. rewrite Ha, Htx in Hrel. destruct Hrel as (x0 & Hx0 & Hown & Hrel). simplify_eq.
  apply (connection_rel_transactions own _ h _ u _ ck cs _ c); try done.
  - split; cbn [c_transactions with_transactions]; rewrite ?Et; [apply (cr_tsorted _ _ _ _ _ _ Hc)|apply (cr_local _ _ _ _ _ _ Hc)|apply (cr_owned _ _ _ _ _ _ Hc)| |].
    + intros tk'. destruct (decide (tk' = tk)) as [->|Hne].
      * rewrite Ha, !lookup_insert_eq. eexists. split; [reflexivity|]. destruct Hrel. split; cbn [ts_commands ts_producers addCommand tx_commands tx_request c_sessions with_transactions]; try done.
        -- by rewrite tr_commands0.
        -- intros p ps Hp. destruct (tr_gone0 p ps Hp) as (? & Hu & Hnone). split_and!; [done|rewrite (uses_app _ _ _ _ (tx_request tx)); apply orb_true_iff; by left|].
           destruct (tracked_producer cs' p) as [ps'|] eqn:E; [|done]. destruct (Hnew _ _ E) as (ps0 & ? & _). congruence.
        -- intros p. rewrite (uses_app _ _ _ _ (tx_request tx)), orb_true_iff. intros Hu. destruct (sent_by p cmd) eqn:Ep.
           ++ left. destruct (Hsent p Ep) as ([ps0 Hps0] & _). destruct (Hold _ _ Hps0) as (ps' & Hps' & _). exists ps'. split; [done|].
              destruct (Hnew _ _ Hps') as (? & _ & [[_ ?]|[_ ?]]); [congruence|done].
           ++ destruct Hu as [Hu|?]; [|done]. destruct (tr_producers0 p Hu) as [(ps & Hps & ?)|?]; [left|by right].
              destruct (Hold _ _ Hps) as (ps' & Hps' & E). exists ps'. split; [done|]. by rewrite E.
        -- intros p. rewrite (uses_app _ _ _ _ (tx_request tx)), orb_true_iff. intros [Hu|Hu]; [by apply tr_sessions0|]. destruct (Hsent p Hu) as (_ & ? & ? & _). done.
        -- eexists. split; [by apply last_snoc|done].
      * pose proof (connection_transactions _ _ _ _ _ _ tk' Hc) as H. rewrite lookup_insert_ne by done.
        destruct (om_map local_key (cs_transactions cs) !! tk') as [a'|], (c_transactions c !! tk') as [tx'|] eqn:Etx'; try done. destruct H as (x' & Hx' & Ho' & []). exists x'.
        rewrite lookup_insert_ne by (intros <-; congruence). split; [done|]. split; try done.
        -- intros p ps Hp. destruct (tr_gone0 p ps Hp) as (? & Hu & Hnone). split_and!; try done.
           destruct (tracked_producer cs' p) as [ps'|] eqn:E; [|done]. destruct (Hnew _ _ E) as (ps0 & ? & _). congruence.
        -- intros p Hu. destruct (tr_producers0 p Hu) as [(ps & Hps & ?)|?]; [left|by right]. destruct (Hold _ _ Hps) as (ps' & Hps' & E). exists ps'. split; [done|].
           destruct (sent_by p cmd) eqn:Ep; [|by rewrite E]. destruct (Hsent p Ep) as (_ & _ & _ & Hno). by rewrite (Hno tk' tx' Etx' Hne) in Hu.
    + intros p ps a' Hp Ha'. destruct (Hnew _ _ Hp) as (ps0 & Hp0 & [[-> Hns]|[Hps Ha'']]).
      * destruct (cr_links _ _ _ _ _ _ Hc p ps0 a' Hp0 Ha') as (tk' & Ho & Hu). exists tk'. split; [done|]. intros tx' [[<- <-]|[_ Htx']]%lookup_insert_Some; [|by apply Hu].
        rewrite (uses_app _ _ _ _ (tx_request tx)), orb_true_iff. left. exact (Hu _ Htx).
      * replace a' with a by congruence. exists tk. split; [done|]. intros tx'. rewrite lookup_insert_eq. intros [= <-]. rewrite (uses_app _ _ _ _ (tx_request tx)), Hps. apply orb_true_r.
  - intros p [[ps Hp]|(tk' & tx' & Htx' & Hu)]; [left; destruct (Hnew _ _ Hp) as (ps0 & ? & _); by eexists|].
    cbn in Htx'. apply lookup_insert_Some in Htx' as [[<- <-]|[_ Htx']]; [|right; by exists tk', tx'].
    rewrite (uses_app _ _ _ _ (tx_request tx)), orb_true_iff in Hu. destruct Hu as [Hu|Hu]; [right; exists tk, tx; by split|left; by apply Hsent].
Qed.
End connection_transactions.

Section connection_ends.
Context (own : owners) (h : gmap Z TransactionState) (u : Client) (ck : connection_name).
Implicit Types (cs : ConnectionState) (c : Connection).

(** A transaction that is done with. *)
Lemma connection_rel_done cs c t a : connection_rel own h u ck cs c -> om_map local_key (cs_transactions cs) !! local_key (Some t) = Some a ->
  connection_rel own (<[a := mkTransactionState [] []]> h) u ck
    (set_transactions (om_remove local_less (Some t) (cs_transactions cs)) cs) (with_transactions (delete (local_key (Some t)) (c_transactions c)) c).
Proof.
  intros Hc Ha. destruct (om_remove_ok (Some t) _ (cr_tsorted _ _ _ _ _ _ Hc)) as [Hs Hm]. pose proof (cr_owned _ _ _ _ _ _ Hc _ _ Ha) as Hown.
  apply (connection_rel_transactions own _ h _ u _ ck cs _ c); try done; [apply (cr_ssorted _ _ _ _ _ _ Hc)|apply (cr_sessions _ _ _ _ _ _ Hc)| |].
  - split; cbn [cs_transactions set_transactions c_transactions with_transactions]; [done| | | |].
    + apply (om_remove_keys local_less is_Some), (cr_local _ _ _ _ _ _ Hc).
    + intros tk' a'. rewrite Hm. intros [_ Ha']%lookup_delete_Some. by apply (cr_owned _ _ _ _ _ _ Hc).
    + intros tk'. rewrite Hm. destruct (decide (tk' = local_key (Some t))) as [->|Hne]; [by rewrite !lookup_delete_eq|].
      rewrite !lookup_delete_ne by done. pose proof (connection_transactions _ _ _ _ _ _ tk' Hc) as H.
      destruct (om_map local_key (cs_transactions cs) !! tk') as [a'|], (c_transactions c !! tk'); try done. destruct H as (x & Hx & Ho & Hr). exists x.
      rewrite lookup_insert_ne by (intros <-; congruence). split; [done|]. eapply (transaction_rel_ext _ _ _ cs _ c); [done..|exact Hr].
    + intros p ps a' Hp Ha'. destruct (cr_links _ _ _ _ _ _ Hc p ps a' Hp Ha') as (tk' & Ho & Hu). exists tk'. split; [done|].
      intros tx [_ Htx]%lookup_delete_Some. by apply Hu.
  - intros p [?|(tk' & tx & Htx & Hu)]; [by left|]. cbn in Htx. apply lookup_delete_Some in Htx as [_ Htx]. right. by exists tk', tx.
Qed.

(** A producer that goes is kept by the transaction it sent in. *)
Lemma connection_rel_removeProducer h' cs c pid ss s ps : connection_rel own h u ck cs c ->
  let id := producer_parent pid in
  om_map session_key (cs_sessions cs) !! session_key id = Some ss -> c_sessions c !! session_key id = Some s ->
  om_map producer_key (ss_producers ss) !! producer_key pid = Some ps ->
  (forall a, ps_transactionState ps = Some a -> exists x, h !! a = Some x /\ h' = <[a := addProducerState (mkProducerState (ps_info ps) None) x]> h) ->
  (ps_transactionState ps = None -> h' = h) ->
  connection_rel own h' u ck (set_session id (set_producers (om_remove producer_less pid (ss_producers ss)) ss) cs)
    (with_sessions (<[session_key id := with_producers (delete (producer_key pid) (s_producers s)) s]> (c_sessions c)) c).
Proof.
  intros Hc id Hss Hs Hps Hsome Hnone. pose proof (cr_ssorted _ _ _ _ _ _ Hc) as Hsort. pose proof (session_lookup _ _ _ _ _ _ (session_key id) Hc) as Hrel. rewrite Hss, Hs in Hrel.
  set (ss' := set_producers _ ss). set (s' := with_producers _ s). set (p := producer_key pid) in *.
  assert (tracked_producer cs p = Some ps) as Htp by (by rewrite (tracked_producer_insert _ (session_key id) ss)).
  assert (forall q, tracked_producer (set_session id ss' cs) q = if decide (q = p) then None else tracked_producer cs q) as Ht.
  { intros q. rewrite (tracked_producer_set _ _ _ _ Hsort). subst ss'. cbn [set_producers ss_producers]. rewrite (proj2 (om_remove_ok _ _ (sr_psorted _ _ _ Hrel))).
    destruct (decide (producer_session q = session_key id)) as [E|Hne].
    - destruct (decide (q = p)) as [->|Hq]; [apply lookup_delete_eq|]. rewrite lookup_delete_ne by done. symmetry. by apply (tracked_producer_insert _ (session_key id)).
    - rewrite decide_False; [done|]. intros ->. by apply Hne. }
  assert (session_rel (session_key id) ss' s') as Hrel' by by apply session_rel_removeProducer.
  assert (uses_grow u u) as Hg by done.
  assert (sessions_ok u ck (set_session id ss' cs) (with_sessions (<[session_key id := s']> (c_sessions c)) c)) as [So1 So2 So3 So4 So5].
  { apply (sessions_ok_set own h u); try done; [eapply cr_skeys; [done|by eexists]|]. intros k Hk. by eapply (session_consumers own h u ck cs c). }
  assert (recovering_ok u ck (set_session id ss' cs) (with_sessions (<[session_key id := s']> (c_sessions c)) c)) as [R1 R2].
  { eapply recovering_ok_set; try done. intros k j Hk. by left. }
  assert (forall a, ps_transactionState ps = Some a -> exists tk, own !! a = Some (ck, tk) /\ forall tx, c_transactions c !! tk = Some tx -> uses p tx = true) as Hlink.
  { intros a Ha. by apply (cr_links _ _ _ _ _ _ Hc p ps a Htp Ha). }
  assert (forall q, is_Some (tracked_producer (set_session id ss' cs) q) -> is_Some (tracked_producer cs q)) as Hless by (intros q; rewrite Ht; case_decide; [by intros []|done]).
  pose proof Hc as []. split; try done.
  - intros tk'. specialize (cr_transactions0 tk'). specialize (cr_owned0 tk').
    change (cs_transactions (set_session id ss' cs)) with (cs_transactions cs). change (c_transactions (with_sessions (<[session_key id := s']> (c_sessions c)) c)) with (c_transactions c).
    destruct (om_map local_key (cs_transactions cs) !! tk') as [a'|], (c_transactions c !! tk') as [tx'|] eqn:Etx'; try done.
    specialize (cr_owned0 a' eq_refl). destruct cr_transactions0 as (x' & Hx' & []).
    assert (forall q, uses q tx' = true -> is_Some (<[session_key id := s']> (c_sessions c) !! producer_session q) /\ q.1 = ck) as Hsess.
    { intros q Hq. destruct (tr_sessions0 q Hq) as [[s0 Hs0] Hq1]. split; [|done]. destruct (decide (producer_session q = session_key id)) as [->|Hne];
        [by rewrite lookup_insert_eq|rewrite lookup_insert_ne by done; by eexists]. }
    destruct (decide (ps_transactionState ps = Some a')) as [Ea|Ea].
    + destruct (Hsome a' Ea) as (x & Hx & ->). destruct (Hlink a' Ea) as (tk & Ho & Hu). simplify_eq. rewrite lookup_insert_eq. eexists. split; [reflexivity|].
      assert (producer_key (pi_producerId (ps_info ps)) = p) as Hkey.
      { apply (sr_pkeys _ _ _ Hrel). by rewrite <- (sr_producers _ _ _ Hrel), lookup_fmap, Hps. }
      destruct (om_set_ok (pi_producerId (ps_info ps)) (mkProducerState (ps_info ps) None) _ tr_sorted0) as [Hsp Hmp]. rewrite Hkey in Hmp.
      split; cbn [ts_commands ts_producers addProducerState ps_info]; try done.
      * intros q psq. rewrite Hmp, Ht. intros [[<- <-]|[Hne Hq]]%lookup_insert_Some; [cbn; rewrite decide_True by done; split_and!; [done|by apply Hu|done]|].
        destruct (tr_gone0 q psq Hq) as (? & ? & Hn). split_and!; [done..|]. by case_decide.
      * intros q Hq. rewrite Hmp, Ht. destruct (decide (q = p)) as [->|Hne]; [right; by rewrite lookup_insert_eq|]. rewrite lookup_insert_ne by done. by apply tr_producers0.
    + assert (h' !! a' = Some x') as Hh'.
      { destruct (ps_transactionState ps) as [a|] eqn:Eps; [|by rewrite Hnone]. destruct (Hsome a eq_refl) as (x & Hx & ->). rewrite lookup_insert_ne by congruence. done. }
      exists x'. split; [exact Hh'|]. split; try done.
      * intros q psq Hq. destruct (tr_gone0 q psq Hq) as (? & ? & Hn). split_and!; [done..|]. rewrite Ht. by case_decide.
      * intros q Hq. destruct (tr_producers0 q Hq) as [(psq & Hpsq & Eq)|Hgone]; [left|by right]. exists psq. rewrite Ht, decide_False; [done|]. intros ->. congruence.
  - intros q psq a. rewrite Ht. case_decide; [done|]. apply cr_links0.
  - intros q [Hq|Hq]; apply cr_members0; [left; by apply Hless|by right].
Qed.
End connection_ends.

(** ** A connection is made *)

Lemma connection_rel_new own h u i : connection_key (cn_connectionId i) ∈ used_connections u ->
  connection_rel own h u (connection_key (cn_connectionId i)) (ConnectionState_new i) (new_connection i).
Proof.
  intros Hu. set (id := mkSessionId (ci_value (cn_connectionId i)) (-1)).
  assert (session_key id = (connection_key (cn_connectionId i), -1)) as Ek by done.
  destruct (om_set_ok (norm := session_key) id (mkSessionState (mkSessionInfo new_base id) [] []) [] (om_sorted_nil _)) as [Hs Hm].
  assert (cs_sessions (ConnectionState_new i) = om_set session_less id (mkSessionState (mkSessionInfo new_base id) [] []) []) as E by done.
  assert (forall p, tracked_producer (ConnectionState_new i) p = None) as Ht.
  { intros p. unfold tracked_producer. rewrite E, Hm. destruct (decide (producer_session p = session_key id)) as [->|Hne];
      [rewrite lookup_insert_eq; apply lookup_empty|rewrite lookup_insert_ne by done]. done. }
  split; rewrite ?E; try done; try apply om_sorted_nil.
  - intros sk. rewrite Hm. cbn [new_connection c_sessions]. fold id. destruct (decide (sk = session_key id)) as [->|Hne].
    + rewrite lookup_insert_eq, lookup_singleton_eq. constructor. split; try done; try apply om_sorted_nil; intros p j; by rewrite lookup_empty.
    + rewrite lookup_insert_ne, lookup_singleton_ne by done. constructor.
  - intros sk. cbn [new_connection c_sessions]. intros [s [<- _]%lookup_singleton_Some]. done.
  - cbn [new_connection c_sessions]. fold id. rewrite Ek, lookup_singleton_eq. by eexists.
  - intros p ps a. by rewrite Ht.
  - intros p [[ps Hp]|(tk & tx & Htx & _)]; [by rewrite Ht in Hp|]. cbn in Htx. by rewrite lookup_empty in Htx.
  - intros k s. cbn. intros [_ <-]%lookup_singleton_Some [? Hk]. cbn in Hk. by rewrite lookup_empty in Hk.
Qed.

Lemma connection_rel_temporary own h u ck cs c i : connection_rel own h u ck cs c -> connection_key (di_connectionId i) = ck ->
  connection_rel own h u ck (if dest_temporary (di_destination i) then addTempDestination i cs else cs)
    (mkConnection (c_info c) (c_sessions c) (temporary_step i (c_temporary c)) (c_transactions c)).
Proof.
  intros Hc Hk. destruct (dest_temporary (di_destination i)) eqn:Ed; [|unfold temporary_step; rewrite Ed; by destruct c].
  pose proof Hc as []. split; try done; cbn [addTempDestination set_tempDestinations cs_tempDestinations c_temporary cs_transactions c_transactions].
  - by rewrite foldl_app, cr_temps0.
  - apply List.Forall_app. split; [done|by repeat constructor].
  - intros tk. specialize (cr_transactions0 tk). destruct (om_map local_key (cs_transactions cs) !! tk), (c_transactions c !! tk); try done.
    destruct cr_transactions0 as (x & Hx & Hr). exists x. split; [done|]. eapply (transaction_rel_ext _ _ _ cs _ c); [done..|exact Hr].
Qed.
