(* ===== verification/FailoverTrack.v ===== *)
(** * Every command a client may send keeps the tracker and the client together: [track]
    refines [client_step] (FailoverSpec.v). *)
From stdpp Require Import gmap.
From S2P Require Import Prelude Commands StringUtils OrderedMap TrackedCommands HashMap StateTracker FailoverSpec FailoverSim.

(** ** The tracker with one connection changed *)

Definition change (id : ConnectionId) (cs : ConnectionState) (h : gmap Z TransactionState) (next : Z) (t : Tracker) : Tracker :=
  set_heap h next (set_connectionStates (om_set connection_less id cs (connectionStates t)) t).

(** Objects are only added, and each for a transaction of its own. *)
Record owners_ok (own : owners) (h : gmap Z TransactionState) (next : Z) (u : Client) : Prop := {
  oo_heap : forall a, is_Some (own !! a) -> is_Some (h !! a) /\ a < next;
  oo_once : forall a a' x, own !! a = Some x -> own !! a' = Some x -> a = a';
  oo_used : forall a x, own !! a = Some x -> x ∈ used_transactions u;
}.

Lemma tracker_owners own n t u : tracker_rel own n t u -> owners_ok own (heap t) (nextAddress t) u.
Proof. intros []. by split. Qed.

Lemma owners_grow own h next u u' : owners_ok own h next u -> uses_grow u u' -> owners_ok own h next u'.
Proof. intros [] (_ & _ & _ & U). split; try done. intros a x Hx. by eapply U, oo_used0. Qed.

Lemma owners_insert own h next u a x : owners_ok own h next u -> is_Some (h !! a) -> owners_ok own (<[a := x]> h) next u.
Proof.
  intros [] Ha. split; try done. intros a' Ho. destruct (oo_heap0 a' Ho) as [Hh ?]. split; [|done].
  destruct (decide (a' = a)) as [->|]; [by rewrite lookup_insert_eq|by rewrite lookup_insert_ne].
Qed.

Lemma connection_lookup own n t u ck : tracker_rel own n t u ->
  match om_map connection_key (connectionStates t) !! ck, live u !! ck with
  | Some cs, Some c => connection_rel own (heap t) u ck cs c | None, None => True | _, _ => False end.
Proof. intros Ht. pose proof (tk_connections _ _ _ _ Ht ck) as H. inversion H; by simplify_eq. Qed.

Lemma tracker_rel_change own own' n t u u' id cs c h next : tracker_rel own n t u -> own ⊆ own' -> uses_grow u u' ->
  (forall a x, own !! a = Some x -> x.1 <> connection_key id -> h !! a = heap t !! a) -> owners_ok own' h next u' ->
  connection_rel own' h u' (connection_key id) cs c -> live u' = <[connection_key id := c]> (live u) ->
  tracker_rel own' n (change id cs h next t) u'.
Proof.
  intros Ht Ho Hg Hh [] Hc El. pose proof Ht as []. destruct (om_set_ok id cs _ tk_sorted) as [Hs Hm].
  split; cbn [change set_heap set_connectionStates settings connectionStates heap nextAddress]; try done.
  - intros ck. rewrite Hm, El. destruct (decide (ck = connection_key id)) as [->|Hne]; [rewrite !lookup_insert_eq; by constructor|].
    rewrite !lookup_insert_ne by done. specialize (tk_connections ck). destruct tk_connections as [cs0 c0 H0|]; constructor.
    eapply connection_rel_frame; try done. intros a tk Ha. by apply (Hh a (ck, tk)).
  - destruct tk_caches. by split.
Qed.

(** Where no object changes. *)
Lemma tracker_rel_put own n t u u' id cs c : tracker_rel own n t u -> uses_grow u u' ->
  connection_rel own (heap t) u' (connection_key id) cs c -> live u' = <[connection_key id := c]> (live u) ->
  tracker_rel own n (set_connectionStates (om_set connection_less id cs (connectionStates t)) t) u'.
Proof.
  intros Ht Hg Hc El. pose proof (tracker_rel_change own own n t u u' id cs c (heap t) (nextAddress t) Ht (reflexivity own) Hg (fun _ _ _ _ => eq_refl)
    (owners_grow _ _ _ _ _ (tracker_owners _ _ _ _ Ht) Hg) Hc El) as H. by destruct t.
Qed.

(** ** The steps of [track] *)

Lemma connection_ok own n t u id c : tracker_rel own n t u -> live u !! connection_key id = Some c ->
  exists cs, connection id t = (Ok cs, t) /\ om_map connection_key (connectionStates t) !! connection_key id = Some cs /\
    connection_rel own (heap t) u (connection_key id) cs c.
Proof.
  intros Ht El. pose proof (connection_lookup _ _ _ _ (connection_key id) Ht) as H. rewrite El in H.
  destruct (om_map connection_key (connectionStates t) !! connection_key id) as [cs|] eqn:E; [|done]. exists cs. split_and!; [|done..].
  unfold connection, get_from. rewrite bind_get, (om_find_ok _ _ (tk_sorted _ _ _ _ Ht)), E. done.
Qed.

Lemma getSessionState_ok own h u ck cs c id s (t : Tracker) : connection_rel own h u ck cs c -> c_sessions c !! session_key id = Some s ->
  exists ss, getSessionState id cs t = (Ok ss, t) /\ om_map session_key (cs_sessions cs) !! session_key id = Some ss /\ session_rel (session_key id) ss s.
Proof.
  intros Hc Hs. pose proof (session_lookup _ _ _ _ _ _ (session_key id) Hc) as H. rewrite Hs in H.
  destruct (om_map session_key (cs_sessions cs) !! session_key id) as [ss|] eqn:E; [|done]. exists ss. split_and!; [|done..].
  unfold getSessionState, get_from. by rewrite (om_find_ok _ _ (cr_ssorted _ _ _ _ _ _ Hc)), E.
Qed.

Lemma not_null own h u ck cs c t : connection_rel own h u ck cs c -> null_compared (Some t) (cs_transactions cs) = false.
Proof.
  intros Hc. pose proof (cr_local _ _ _ _ _ _ Hc) as H. unfold null_compared. destruct (cs_transactions cs) as [|x l]; [done|].
  rewrite bool_decide_false by done. cbn [orb]. destruct (existsb _ (x :: l)) eqn:E; [|done]. apply existsb_exists in E as (p & Hin & Hp).
  rewrite List.Forall_forall in H. destruct (H p Hin) as [k Hk]. by rewrite Hk in Hp.
Qed.

Lemma getTransactionState_ok own h u ck cs c t tx (s : Tracker) : connection_rel own h u ck cs c -> c_transactions c !! local_key (Some t) = Some tx ->
  exists a x, getTransactionState (Local t) cs s = (Ok a, s) /\ om_map local_key (cs_transactions cs) !! local_key (Some t) = Some a /\
    h !! a = Some x /\ own !! a = Some (ck, local_key (Some t)) /\ transaction_rel ck (local_key (Some t)) a cs c x tx.
Proof.
  intros Hc Htx. pose proof (connection_transactions _ _ _ _ _ _ (local_key (Some t)) Hc) as H. rewrite Htx in H.
  destruct (om_map local_key (cs_transactions cs) !! local_key (Some t)) as [a|] eqn:E; [|done]. destruct H as (x & Hx & Ho & Hr). exists a, x. split_and!; try done.
  unfold getTransactionState, get_from. cbn [as_local]. rewrite (not_null _ _ _ _ _ _ t Hc), (om_find_ok _ _ (cr_tsorted _ _ _ _ _ _ Hc)), E. done.
Qed.

Lemma on_transaction_ok a f x (t : Tracker) : heap t !! a = Some x ->
  on_transaction a f t = (Ok tt, set_heap (<[a := f x]> (heap t)) (nextAddress t) t).
Proof. intros E. unfold on_transaction. by rewrite E. Qed.

Lemma catch_amq_ok {S A} (m : M S A) s a s' : m s = (Ok a, s') -> catch_amq m s = (Ok a, s').
Proof. apply rethrow_ok. Qed.

(** ** Commands that are not kept *)

Definition untracked (cmd : Command) : bool :=
  match cmd with
  | CMessage m => match me_transactionId m with None => true | Some _ => false end
  | CMessagePull _ | CMessageAck _ | CConsumerControl _ | CConnectionControl _ _ | CShutdownInfo _ | CTracked | COther _ => true
  | _ => false
  end.

Lemma small29 : (29 <= 29)%nat.
Proof. lia. Qed.

(** What leaves a full cache is its eldest entry. *)
Lemma lhm_evict {K V} `{Countable K} (hash : K -> Z) (m : LinkedHashMap K V) eldest l : lhm_ok hash 29 m -> chain m = eldest :: l ->
  exists v m', value_of eldest m = Some v /\ lhm_remove hash eldest m = (Ok v, m') /\ lhm_ok hash 29 m' /\ zlen (chain m') <= zlen (chain m) /\
    abs (table m') = delete eldest (abs (table m)).
Proof.
  intros Hm El. pose proof (lhm_remove_ok hash 29 m eldest Hm) as Hr. assert (is_Some (abs (table m) !! eldest)) as [v Hv] by (apply (ok_chain _ _ _ Hm); rewrite El; left).
  rewrite Hv in Hr. destruct Hr as (m' & E & Hm' & Ha & Hc & _). exists v, m'. split_and!; [by rewrite value_of_abs|done..| |done].
  rewrite Hc. unfold without, zlen. pose proof (filter_length_le (fun k => negb (bool_decide (k = eldest))) (chain m)). lia.
Qed.

Lemma lhm_put_grows {K V} `{Countable K} (hash : K -> Z) rem (m : LinkedHashMap K V) key v : lhm_ok hash 29 m -> 4 * (zlen (chain m) + 1) <= 3 * 2 ^ 29 ->
  exists r m', lhm_put hash rem key v m = (Ok r, m') /\ lhm_ok hash 29 m' /\ zlen (chain m') <= zlen (chain m) + 1.
Proof.
  intros Hm Hr. destruct (lhm_putImpl_ok hash 29 small29 m key v Hm Hr) as (m1 & E & Hl & _ & Hc & _).
  destruct (inserted_length (accessOrder m) key _ (ok_chain_nodup _ _ _ Hm)) as [Hlen Hne]. rewrite <- Hc in Hlen, Hne.
  unfold lhm_put. rewrite (bind_ok _ _ _ _ _ E), bind_get. destruct (chain m1) as [|eldest l] eqn:El; [done|]. destruct (rem m1).
  - destruct (lhm_evict hash m1 eldest l Hl El) as (x & m2 & _ & E2 & Hl2 & Hc2 & _). rewrite (bind_ok _ _ _ _ _ E2). eexists _, m2. split; [reflexivity|]. split; [done|]. rewrite El in Hc2. lia.
  - eexists _, m1. split; [reflexivity|]. split; [done|]. rewrite El. lia.
Qed.

Lemma messageCache_put_ok n t key m : caches_ok (n + 1) t -> 0 <= n -> me_transactionId m = None ->
  exists m' size, messageCache_put key m t = (Ok tt, set_messageCache m' size t) /\ caches_ok n (set_messageCache m' size t).
Proof.
  intros [Hm Hr Hpl Hp Hpr] Hn Htx. destruct (lhm_putImpl_ok mp_hash 29 small29 (messageCache t) key m Hm) as (m1 & E & Hl & Ha & Hc & _); [lia|].
  destruct (inserted_length (accessOrder (messageCache t)) key _ (ok_chain_nodup _ _ _ Hm)) as [Hlen Hne]. rewrite <- Hc in Hlen, Hne.
  assert (map_Forall (fun _ m => me_transactionId m = None) (abs (table m1))) as Hpl1 by (rewrite Ha; by apply map_Forall_insert_2).
  assert (forall m' size, lhm_ok mp_hash 29 m' -> zlen (chain m') <= zlen (chain (messageCache t)) + 1 ->
    map_Forall (fun _ m => me_transactionId m = None) (abs (table m')) -> caches_ok n (set_messageCache m' size t)) as Hsame
    by (intros m' size Hm' Hc' Hpl'; split; cbn; try done; lia).
  unfold messageCache_put. rewrite E. destruct (chain m1) as [|eldest l] eqn:El; [done|].
  destruct (maxMessageCacheSize (settings t) <? currentCacheSize t).
  - destruct (lhm_evict mp_hash m1 eldest l Hl El) as (x & m2 & Ev & E2 & Hl2 & Hc2 & Ha2). rewrite Ev, E2. eexists m2, _. split; [reflexivity|]. apply Hsame; [done| |].
    + rewrite El in Hc2. lia.
    + rewrite Ha2. by apply map_Forall_delete.
  - eexists m1, _. split; [reflexivity|]. apply Hsame; [done| |done]. rewrite El. lia.
Qed.

Lemma messagePullCache_put_ok n t key p : caches_ok (n + 1) t -> 0 <= n ->
  exists m', messagePullCache_put key p t = (Ok tt, set_messagePullCache m' t) /\ caches_ok n (set_messagePullCache m' t).
Proof.
  intros [Hm Hr Hpl Hp Hpr] Hn. destruct (lhm_put_grows string_hash (fun m => maxMessagePullCacheSize (settings t) <? zlen (chain m)) (messagePullCache t) key p Hp) as (r & m' & E & Hm' & Hc); [lia|].
  unfold messagePullCache_put. rewrite E. exists m'. split; [done|]. split; cbn; try done; lia.
Qed.

(** Trackers that differ in their caches only. *)
Definition same_tracked (t t' : Tracker) : Prop :=
  settings t' = settings t /\ connectionStates t' = connectionStates t /\ heap t' = heap t /\ nextAddress t' = nextAddress t.

Lemma tracker_rel_caches own n n' t t' u : tracker_rel own n t u -> same_tracked t t' -> caches_ok n' t' -> tracker_rel own n' t' u.
Proof. intros [] (E1 & E2 & E3 & E4) Hc. split; rewrite ?E1, ?E2, ?E3, ?E4; done. Qed.

Lemma caches_weaken n n' t : caches_ok n t -> n' <= n -> caches_ok n' t.
Proof. intros [] ?. split; try done; lia. Qed.

Lemma track_untracked own n t u cmd : tracker_rel own (n + 1) t u -> 0 <= n -> untracked cmd = true ->
  exists t', track cmd t = (Ok None, t') /\ same_tracked t t' /\ tracker_rel own n t' u.
Proof.
  intros Ht Hn Hu. assert (tracker_rel own n t u) as Hsame by (eapply tracker_rel_caches; [done|done|]; eapply caches_weaken; [apply (tk_caches _ _ _ _ Ht)|lia]).
  unfold track. destruct cmd; try done; cbn [untracked] in Hu; try (exists t; split; [done|by split]).
  - destruct (me_transactionId m) eqn:Em; [done|]. cbn [visit]. unfold processMessage. destruct (trackMessages (settings t)) eqn:Es.
    + destruct (messageCache_put_ok n t (me_messageId m) m (tk_caches _ _ _ _ Ht) Hn Em) as (m' & size & E & Hc). exists (set_messageCache m' size t).
      split; [|split; [done|by eapply tracker_rel_caches]]. apply catch_io_ok, catch_amq_ok. rewrite bind_get, Em, Es. by rewrite (bind_ok _ _ _ _ _ E).
    + exists t. split; [|by split]. apply catch_io_ok, catch_amq_ok. by rewrite bind_get, Em, Es.
  - cbn [visit]. unfold processMessagePull. destruct (pull_destination p) as [d|]; [|by exists t]. destruct (pull_consumerId p) as [c|]; [|by exists t].
    destruct (messagePullCache_put_ok n t (destination_toString d ++ [58; 58] ++ ConsumerId_toString c) p (tk_caches _ _ _ _ Ht) Hn) as (m' & E & Hc).
    exists (set_messagePullCache m' t). split; [|split; [done|by eapply tracker_rel_caches]]. apply catch_io_ok, catch_amq_ok. by rewrite (bind_ok _ _ _ _ _ E).
Qed.

(** ** Commands that are kept *)

Lemma connection_rel_grow own h u u' ck cs c : connection_rel own h u ck cs c -> uses_grow u u' -> connection_rel own h u' ck cs c.
Proof. intros Hc Hg. by apply (connection_rel_frame own own h h u u'). Qed.

(** A step that only the connection's own state takes part in. *)
Lemma put_ok own n t u u' v id cs c : tracker_rel own n t u -> uses_grow u u' -> connection_rel own (heap t) v (connection_key id) cs c -> uses_grow v u' ->
  live u' = <[connection_key id := c]> (live u) ->
  exists t', (set_connection id cs ;;; ret (Some Marker)) t = (Ok (Some Marker), t') /\ tracker_rel own n t' u'.
Proof. intros Ht Hg Hc Hv El. eexists. split; [reflexivity|]. eapply tracker_rel_put; try done. by eapply connection_rel_grow. Qed.

Section tracked.
Context (own : owners) (n : Z) (t : Tracker) (u : Client) (Ht : tracker_rel own n t u).
Implicit Types (c : Connection).

Lemma grow_step b cmd : uses_grow u (with_live b (note_use cmd u)).
Proof. etrans; [apply note_use_grows|apply with_live_grows]. Qed.

Lemma processConnectionInfo_ok i : connection_key (cn_connectionId i) ∉ used_connections u ->
  exists t', processConnectionInfo i t = (Ok (Some Marker), t') /\
    tracker_rel own n t' (with_live (<[connection_key (cn_connectionId i) := new_connection i]> (live u)) (note_use (CConnectionInfo i) u)).
Proof.
  intros Hf. eapply put_ok; [done|apply grow_step| |reflexivity|done]. apply connection_rel_new. cbn. by apply elem_of_union_l, elem_of_singleton.
Qed.

Lemma processSessionInfo_ok i c : let ck := connection_key (session_parent (se_sessionId i)) in
  live u !! ck = Some c -> quiet (session_key (se_sessionId i)) c ->
  exists t', processSessionInfo i t = (Ok (Some Marker), t') /\
    tracker_rel own n t' (with_live (<[ck := with_sessions (<[session_key (se_sessionId i) := mkSession i ∅ ∅]> (c_sessions c)) c]> (live u)) (note_use (CSessionInfo i) u)).
Proof.
  intros ck El Hq. destruct (connection_ok _ _ _ _ _ _ Ht El) as (cs & E & _ & Hc). unfold processSessionInfo. rewrite (bind_ok _ _ _ _ _ E).
  eapply (put_ok _ _ _ _ _ u); [done|apply grow_step| |apply grow_step|done]. by apply connection_rel_addSession.
Qed.

Lemma processRemoveSession_ok i id c : objectId i = SessionObject id -> let ck := connection_key (session_parent id) in
  live u !! ck = Some c -> quiet (session_key id) c -> si_value id <> -1 ->
  exists t', processRemoveSession id t = (Ok (Some Marker), t') /\
    tracker_rel own n t' (with_live (<[ck := with_sessions (delete (session_key id) (c_sessions c)) c]> (live u)) (note_use (CRemoveInfo i) u)).
Proof.
  intros Hi ck El Hq Hd. destruct (connection_ok _ _ _ _ _ _ Ht El) as (cs & E & _ & Hc). unfold processRemoveSession. rewrite (bind_ok _ _ _ _ _ E).
  eapply (put_ok _ _ _ _ _ u); [done|apply grow_step| |apply grow_step|done]. by apply connection_rel_removeSession.
Qed.

Lemma processDestinationInfo_ok i c : let ck := connection_key (di_connectionId i) in live u !! ck = Some c ->
  exists t', processDestinationInfo i t = (Ok (Some Marker), t') /\
    tracker_rel own n t' (with_live (<[ck := mkConnection (c_info c) (c_sessions c) (temporary_step i (c_temporary c)) (c_transactions c)]> (live u)) (note_use (CDestinationInfo i) u)).
Proof.
  intros ck El. destruct (connection_ok _ _ _ _ _ _ Ht El) as (cs & E & Em & Hc). unfold processDestinationInfo. rewrite (bind_ok _ _ _ _ _ E).
  pose proof (connection_rel_temporary _ _ _ _ _ _ i Hc eq_refl) as Hc'. destruct (dest_temporary (di_destination i)) eqn:Ed.
  - eapply (put_ok _ _ _ _ _ u); [done|apply grow_step|exact Hc'|apply grow_step|done].
  - exists t. split; [done|]. assert (om_map connection_key (connectionStates t) = <[ck := cs]> (om_map connection_key (connectionStates t))) as Eid by (symmetry; by apply insert_id).
    pose proof Ht as []. split; try done. intros ck'. rewrite Eid. cbn [live with_live].
    destruct (decide (ck' = ck)) as [->|Hne]; [rewrite !lookup_insert_eq; constructor; eapply connection_rel_grow; [exact Hc'|apply grow_step]|].
    rewrite !lookup_insert_ne by done. specialize (tk_connections ck'). destruct tk_connections as [cs0 c0 H0|]; constructor. eapply connection_rel_grow; [exact H0|apply grow_step].
Qed.

(** The session of a member. *)
Lemma on_session_ok id c s f ss' : live u !! connection_key (session_parent id) = Some c -> c_sessions c !! session_key id = Some s ->
  (forall ss, f ss t = (Ok (ss' ss), t)) ->
  exists cs ss, om_map session_key (cs_sessions cs) !! session_key id = Some ss /\ connection_rel own (heap t) u (connection_key (session_parent id)) cs c /\
    on_session id f t = (Ok tt, set_connectionStates (om_set connection_less (session_parent id) (set_session id (ss' ss) cs) (connectionStates t)) t).
Proof.
  intros El Es Ef. destruct (connection_ok _ _ _ _ _ _ Ht El) as (cs & E & _ & Hc). destruct (getSessionState_ok _ _ _ _ _ _ _ _ t Hc Es) as (ss & Ess & Hss & _).
  exists cs, ss. split_and!; [done..|]. unfold on_session. by rewrite (bind_ok _ _ _ _ _ E), (bind_ok _ _ _ _ _ Ess), (bind_ok _ _ _ _ _ (Ef ss)).
Qed.

Lemma processProducerInfo_ok i c s : let id := producer_parent (pi_producerId i) in let ck := connection_key (session_parent id) in
  live u !! ck = Some c -> c_sessions c !! session_key id = Some s -> producer_key (pi_producerId i) ∉ used_members u ->
  exists t', processProducerInfo i t = (Ok (Some Marker), t') /\
    tracker_rel own n t' (with_live (<[ck := with_sessions (<[session_key id := with_producers (<[producer_key (pi_producerId i) := i]> (s_producers s)) s]> (c_sessions c)) c]> (live u)) (note_use (CProducerInfo i) u)).
Proof.
  intros id ck El Es Hf. destruct (on_session_ok id c s (fun ss => ret (addProducer i ss)) (addProducer i) El Es) as (cs & ss & Hss & Hc & E); [done|].
  unfold processProducerInfo. rewrite (bind_ok _ _ _ _ _ E). eexists. split; [reflexivity|]. eapply tracker_rel_put; [done|apply grow_step| |done].
  eapply connection_rel_grow; [by eapply connection_rel_addProducer|done].
Qed.

Lemma processConsumerInfo_ok i c s : let id := consumer_parent (ki_consumerId i) in let ck := connection_key (session_parent id) in
  live u !! ck = Some c -> c_sessions c !! session_key id = Some s -> consumer_key (ki_consumerId i) ∉ used_consumers u ->
  exists t', processConsumerInfo i t = (Ok (Some Marker), t') /\
    tracker_rel own n t' (with_live (<[ck := with_sessions (<[session_key id := with_consumers (<[consumer_key (ki_consumerId i) := i]> (s_consumers s)) s]> (c_sessions c)) c]> (live u)) (note_use (CConsumerInfo i) u)).
Proof.
  intros id ck El Es Hf. destruct (on_session_ok id c s (fun ss => ret (addConsumer i ss)) (addConsumer i) El Es) as (cs & ss & Hss & Hc & E); [done|].
  unfold processConsumerInfo. rewrite (bind_ok _ _ _ _ _ E). eexists. split; [reflexivity|]. eapply tracker_rel_put; [done|apply grow_step| |done].
  eapply connection_rel_grow; [by eapply connection_rel_addConsumer|done].
Qed.

Lemma processRemoveConnection_ok i id : objectId i = ConnectionObject id ->
  exists t', processRemoveConnection id t = (Ok (Some Marker), t') /\
    tracker_rel own n t' (with_live (delete (connection_key id) (live u)) (note_use (CRemoveInfo i) u)).
Proof.
  intros Hi. eexists. split; [reflexivity|]. pose proof Ht as []. destruct (om_remove_ok id _ tk_sorted) as [Hs Hm].
  split; cbn [set_connectionStates settings connectionStates heap nextAddress live with_live]; try done.
  - intros ck. rewrite Hm. destruct (decide (ck = connection_key id)) as [->|Hne]; [rewrite !lookup_delete_eq; constructor|].
    rewrite !lookup_delete_ne by done. specialize (tk_connections ck). destruct tk_connections as [cs0 c0 H0|]; constructor. eapply connection_rel_grow; [exact H0|apply grow_step].
  - destruct tk_caches. by split.
Qed.

Lemma processRemoveConsumer_ok i id c s : objectId i = ConsumerObject id -> let sid := consumer_parent id in let ck := connection_key (session_parent sid) in
  live u !! ck = Some c -> c_sessions c !! session_key sid = Some s ->
  exists t', processRemoveConsumer id t = (Ok (Some Marker), t') /\
    tracker_rel own n t' (with_live (<[ck := with_sessions (<[session_key sid := with_consumers (delete (consumer_key id) (s_consumers s)) s]> (c_sessions c)) c]> (live u)) (note_use (CRemoveInfo i) u)).
Proof.
  intros Hi sid ck El Es. destruct (on_session_ok sid c s (fun ss => ret (removeConsumer id ss)) (removeConsumer id) El Es) as (cs & ss & Hss & Hc & E); [done|].
  unfold processRemoveConsumer. rewrite (bind_ok _ _ _ _ _ E). set (t1 := set_connectionStates _ t) in *. set (c' := with_sessions _ c). set (u' := with_live _ _).
  assert (tracker_rel own n t1 u') as Ht1.
  { eapply tracker_rel_put; [done|apply grow_step| |done]. eapply connection_rel_grow; [by apply (connection_rel_removeConsumer own (heap t) u ck cs c id ss s)|apply grow_step]. }
  destruct (connection_ok own n t1 u' (session_parent sid) c' Ht1) as (cs1 & E1 & _ & Hc1); [apply lookup_insert_eq|].
  cbv zeta. rewrite (bind_ok _ _ _ _ _ E1). eexists. split; [reflexivity|]. pose proof (cr_rsorted _ _ _ _ _ _ Hc1) as Hr. destruct (om_remove_ok id _ Hr) as [Hr1 Hr2].
  eapply (tracker_rel_put own n t1 u' u' _ _ c'); [done..| |].
  - apply connection_rel_subset; [done|done|]. rewrite Hr2. apply delete_subseteq.
  - cbn [live with_live u']. by rewrite insert_insert_eq.
Qed.

(** A producer that goes is handed to its transaction. *)
Lemma processRemoveProducer_ok i id c s : objectId i = ProducerObject id -> let sid := producer_parent id in let ck := connection_key (session_parent sid) in
  live u !! ck = Some c -> c_sessions c !! session_key sid = Some s ->
  exists t', processRemoveProducer id t = (Ok (Some Marker), t') /\
    tracker_rel own n t' (with_live (<[ck := with_sessions (<[session_key sid := with_producers (delete (producer_key id) (s_producers s)) s]> (c_sessions c)) c]> (live u)) (note_use (CRemoveInfo i) u)).
Proof.
  intros Hi sid ck El Es. destruct (connection_ok _ _ _ _ _ _ Ht El) as (cs & E & _ & Hc). destruct (getSessionState_ok _ _ _ _ _ _ _ _ t Hc Es) as (ss & Ess & Hss & Hrel).
  unfold processRemoveProducer, on_session. fold sid. set (ss' := set_producers (om_remove producer_less id (ss_producers ss)) ss). set (u' := with_live _ _).
  assert (forall h', removeProducer id ss t = (Ok ss', set_heap h' (nextAddress t) t) ->
    (forall a x, own !! a = Some x -> x.1 <> ck -> h' !! a = heap t !! a) -> owners_ok own h' (nextAddress t) u ->
    connection_rel own h' u ck (set_session sid ss' cs) (with_sessions (<[session_key sid := with_producers (delete (producer_key id) (s_producers s)) s]> (c_sessions c)) c) ->
    exists t', ((cs0 <- connection (session_parent sid) ;; ss0 <- getSessionState sid cs0 ;; ss1 <- removeProducer id ss0 ;; set_connection (session_parent sid) (set_session sid ss1 cs0)) ;;;
      ret (Some Marker)) t = (Ok (Some Marker), t') /\ tracker_rel own n t' u') as Hfin.
  { intros h' Er Hh Ho Hc'. eexists. rewrite bind_assoc, (bind_ok _ _ _ _ _ E), bind_assoc, (bind_ok _ _ _ _ _ Ess), bind_assoc, (bind_ok _ _ _ _ _ Er). split; [reflexivity|].
    apply (tracker_rel_change own own n t u u' (session_parent sid) (set_session sid ss' cs)
      (with_sessions (<[session_key sid := with_producers (delete (producer_key id) (s_producers s)) s]> (c_sessions c)) c) h' (nextAddress t) Ht);
      [done|apply grow_step|done|eapply owners_grow; [exact Ho|apply grow_step]| |reflexivity].
    eapply connection_rel_grow; [exact Hc'|apply grow_step]. }
  unfold removeProducer in *. rewrite (om_find_ok _ _ (sr_psorted _ _ _ Hrel)) in Hfin. fold ss' in Hfin.
  destruct (om_map producer_key (ss_producers ss) !! producer_key id) as [ps|] eqn:Eps.
  - destruct (ps_transactionState ps) as [a|] eqn:Ea.
    + assert (tracked_producer cs (producer_key id) = Some ps) as Htp by (by rewrite (tracked_producer_insert _ (session_key sid) ss)).
      destruct (cr_links _ _ _ _ _ _ Hc _ ps a Htp Ea) as (tk & Ho & _). destruct (tk_heap _ _ _ _ Ht a) as [[x Hx] _]; [by eexists|].
      apply (Hfin (<[a := addProducerState (mkProducerState (ps_info ps) None) x]> (heap t))).
      * by rewrite (bind_ok _ _ _ _ _ (on_transaction_ok a _ x t Hx)).
      * intros a' x' Ho' Hne. rewrite lookup_insert_ne; [done|]. intros <-. rewrite Ho in Ho'. by injection Ho' as <-.
      * apply owners_insert; [by eapply tracker_owners|by eexists].
      * eapply connection_rel_removeProducer; try done; [|by rewrite Ea]. rewrite Ea. intros ? [= <-]. by exists x.
    + apply (Hfin (heap t)); [by destruct t|done|by eapply tracker_owners|]. eapply connection_rel_removeProducer; try done; by rewrite Ea.
  - apply (Hfin (heap t)); [by destruct t|done|by eapply tracker_owners|].
    assert (forall p, tracked_producer (set_session sid ss' cs) p = tracked_producer cs p) as Htp.
    { intros p. rewrite (tracked_producer_set _ _ _ _ (cr_ssorted _ _ _ _ _ _ Hc)). case_decide as Ep; [|done]. rewrite (tracked_producer_insert _ _ _ _ Hss Ep).
      subst ss'. cbn [set_producers ss_producers]. by rewrite (proj2 (om_remove_ok _ _ (sr_psorted _ _ _ Hrel))), delete_id. }
    eapply connection_rel_session; try done.
    + by apply session_rel_removeProducer.
    + intros k Hk. by eapply (session_consumers own (heap t) u ck cs c).
    + eapply recovering_ok_set; try done. intros k j Hk. by left.
    + split; intros p ps; rewrite Htp; by left.
    + intros p. rewrite Htp. intros Hp. apply (cr_members _ _ _ _ _ _ Hc). by left.
Qed.

(** *** Transactions *)

Lemma tracks_transactions : trackTransactions (settings t) = true.
Proof. apply (tk_settings _ _ _ _ Ht). Qed.

Lemma processBeginTransaction_ok i cid tid c : ti_connectionId i = Some cid -> ti_transactionId i = Local tid -> ti_type i = TRANSACTION_STATE_BEGIN ->
  let ck := connection_key cid in let tk := local_key (Some tid) in
  live u !! ck = Some c -> c_transactions c !! tk = None -> (ck, tk) ∉ used_transactions u ->
  exists own' t', own ⊆ own' /\ processBeginTransaction i t = (Ok (Some Marker), t') /\
    tracker_rel own' n t' (with_live (<[ck := with_transactions (<[tk := mkTransaction [CTransactionInfo i] None]> (c_transactions c)) c]> (live u)) (note_use (CTransactionInfo i) u)).
Proof.
  intros Hcid Htid Hty ck tk El Hn Hf. destruct (connection_ok _ _ _ _ _ _ Ht El) as (cs & E & _ & Hc). set (a := nextAddress t). set (u' := with_live _ _).
  destruct (om_set_ok (Some tid) a _ (cr_tsorted _ _ _ _ _ _ Hc)) as [Hs Hm].
  assert (own !! a = None) as Ha.
  { destruct (own !! a) as [x|] eqn:Eo; [|done]. destruct (tk_heap _ _ _ _ Ht a) as [_ Hlt]; [by eexists|]. unfold a in Hlt. lia. }
  assert (forall b, own !! b <> Some (ck, tk)) as Hfresh by (intros b Hb; by apply Hf, (tk_used _ _ _ _ Ht b)).
  assert (uses_grow u u') as Hg by apply grow_step.
  set (cs' := set_transactions (om_set local_less (Some tid) a (cs_transactions cs)) cs).
  pose proof (connection_rel_begin own (heap t) u ck u' cs c i tid a Hc Hg Htid ltac:(cbn; by rewrite Hcid) Hty Hn Ha Hfresh) as Hc'.
  exists (<[a := (ck, tk)]> own), (change cid cs' (<[a := mkTransactionState [CTransactionInfo i] []]> (heap t)) (a + 1) t).
  split; [by apply insert_subseteq|]. split.
  - unfold processBeginTransaction. rewrite bind_get, tracks_transactions, Hcid. unfold bind at 1. rewrite (bind_ok _ _ _ _ _ E).
    unfold addTransactionState. rewrite Htid. cbn [as_local]. rewrite (not_null _ _ _ _ _ _ tid Hc). unfold bind at 1. rewrite bind_get, bind_modify. cbn [ret].
    fold a. fold cs'. unfold set_connection. rewrite bind_modify. unfold getTransactionState. cbn [as_local].
    rewrite (not_null _ _ _ _ cs' _ tid Hc'). unfold get_from, bind at 1. cbn [cs' set_transactions cs_transactions].
    rewrite (om_find_ok _ _ Hs), Hm. unfold local_key at 1 2. rewrite lookup_insert_eq. cbn [ret].
    erewrite on_transaction_ok by (cbn; apply lookup_insert_eq). cbn. rewrite insert_insert_eq. done.
  - eapply tracker_rel_change; [done|by apply insert_subseteq|done| | |exact Hc'|reflexivity].
    + intros b x Hb _. rewrite lookup_insert_ne; [done|]. intros <-. congruence.
    + pose proof (tracker_owners _ _ _ _ Ht) as []. split.
      * intros b Hb. destruct (decide (b = a)) as [->|Hne]; [rewrite lookup_insert_eq; split; [by eexists|lia]|]. rewrite !lookup_insert_ne in * by done.
        destruct (oo_heap0 b Hb). split; [done|]. unfold a. lia.
      * intros b b' x Hb Hb'. apply lookup_insert_Some in Hb as [[<- <-]|[? Hb]]; apply lookup_insert_Some in Hb' as [[<- E']|[? Hb']]; try done; [by apply Hfresh in Hb'|subst x; by apply Hfresh in Hb|by eapply oo_once0].
      * intros b x [[<- <-]|[_ Hb]]%lookup_insert_Some; [|destruct Hg as (_ & _ & _ & U); by eapply U, oo_used0]. cbn. rewrite Htid, Hcid. cbn. by apply elem_of_union_l, elem_of_singleton.
Qed.

(** The object of a transaction with one more command. *)
Lemma append_ok cid tid c tx i req : ti_connectionId i = Some cid -> ti_transactionId i = Local tid -> let ck := connection_key cid in let tk := local_key (Some tid) in
  live u !! ck = Some c -> c_transactions c !! tk = Some tx ->
  replays ck tk (mkTransaction (tx_commands tx ++ [CTransactionInfo i]) req) -> (forall j, in_doubt (CTransactionInfo i) = Some j -> req = Some (commandId (ti_base j))) ->
  exists t', tracker_rel own n t' (with_live (<[ck := with_transactions (<[tk := mkTransaction (tx_commands tx ++ [CTransactionInfo i]) req]> (c_transactions c)) c]> (live u)) (note_use (CTransactionInfo i) u)) /\
    (cs <- connection cid ;; address <- getTransactionState (ti_transactionId i) cs ;; on_transaction address (addCommand (CTransactionInfo i))) t = (Ok tt, t') /\
    forall {A} (k : M Tracker A), (cs <- connection cid ;; address <- getTransactionState (ti_transactionId i) cs ;; on_transaction address (addCommand (CTransactionInfo i)) ;;; k) t = k t'.
Proof.
  intros Hcid Htid ck tk El Htx Hrep Hd. destruct (connection_ok _ _ _ _ _ _ Ht El) as (cs & E & Em & Hc).
  destruct (getTransactionState_ok _ _ _ _ _ _ tid tx t Hc Htx) as (a & x & Ea & Hma & Hx & Ho & Hr). set (u' := with_live _ _).
  set (h' := <[a := addCommand (CTransactionInfo i) x]> (heap t)). exists (set_heap h' (nextAddress t) t). split; [|split].
  - assert (connection_rel own h' u' ck cs (with_transactions (<[tk := mkTransaction (tx_commands tx ++ [CTransactionInfo i]) req]> (c_transactions c)) c)) as Hc'.
    { eapply connection_rel_append; try done; [apply grow_step|apply (cr_ssorted _ _ _ _ _ _ Hc)|apply (cr_sessions _ _ _ _ _ _ Hc)|by apply producers_sent_same]. }
    pose proof Ht as []. pose proof (owners_insert own (heap t) (nextAddress t) u a (addCommand (CTransactionInfo i) x) (tracker_owners _ _ _ _ Ht) ltac:(by eexists)) as Hoo.
    pose proof (owners_grow _ _ _ _ u' Hoo (grow_step _ _)) as [].
    split; cbn [set_heap settings connectionStates heap nextAddress]; try done; [|by destruct tk_caches; split].
    intros ck'. destruct (decide (ck' = ck)) as [->|Hne].
    + rewrite (Em : om_map connection_key (connectionStates t) !! ck = _). cbn [u' live with_live]. rewrite lookup_insert_eq. by constructor.
    + cbn [u' live with_live]. rewrite lookup_insert_ne by done. specialize (tk_connections ck'). destruct tk_connections as [cs0 c0 H0|]; constructor.
      eapply connection_rel_frame; [exact H0|done|apply grow_step|]. intros b tk' Hb. unfold h'. rewrite lookup_insert_ne; [done|]. intros <-. rewrite Ho in Hb. by injection Hb as <- _.
  - rewrite (bind_ok _ _ _ _ _ E), Htid, (bind_ok _ _ _ _ _ Ea). apply (on_transaction_ok a _ x t Hx).
  - intros A k. rewrite (bind_ok _ _ _ _ _ E), Htid, (bind_ok _ _ _ _ _ Ea). by rewrite (bind_ok _ _ _ _ _ (on_transaction_ok a _ x t Hx)).
Qed.

Lemma transaction_replays cid tid c tx : let ck := connection_key cid in let tk := local_key (Some tid) in
  live u !! ck = Some c -> c_transactions c !! tk = Some tx -> replays ck tk tx.
Proof.
  intros ck tk El Htx. destruct (connection_ok _ _ _ _ _ _ Ht El) as (cs & _ & _ & Hc).
  destruct (getTransactionState_ok _ _ _ _ _ _ tid tx t Hc Htx) as (a & x & _ & _ & _ & _ & Hr). apply (tr_replays _ _ _ _ _ _ _ Hr).
Qed.

Definition recorded (i : TransactionInfo) : Prop := ti_type i = TRANSACTION_STATE_PREPARE \/ ti_type i = TRANSACTION_STATE_END.
Definition ends (i : TransactionInfo) : Prop :=
  ti_type i = TRANSACTION_STATE_COMMITONEPHASE \/ ti_type i = TRANSACTION_STATE_COMMITTWOPHASE \/ ti_type i = TRANSACTION_STATE_ROLLBACK.

Lemma processPrepareTransaction_ok i cid tid c tx : ti_connectionId i = Some cid -> ti_transactionId i = Local tid -> recorded i ->
  let ck := connection_key cid in let tk := local_key (Some tid) in
  live u !! ck = Some c -> c_transactions c !! tk = Some tx -> tx_request tx = None ->
  exists t', processPrepareTransaction i t = (Ok (Some Marker), t') /\
    tracker_rel own n t' (with_live (<[ck := with_transactions (<[tk := mkTransaction (tx_commands tx ++ [CTransactionInfo i]) None]> (c_transactions c)) c]> (live u)) (note_use (CTransactionInfo i) u)).
Proof.
  intros Hcid Htid Hty ck tk El Htx Hn. destruct (append_ok cid tid c tx i None Hcid Htid El Htx) as (t' & Hrel & Hk & _).
  - apply replays_record; [by eapply transaction_replays|done|cbn; by rewrite Hcid|]. intros c0 _ _. cbn [live_step]. unfold transaction_step. rewrite Htid. by destruct Hty as [-> | ->].
  - intros j. cbn. by destruct Hty as [-> | ->].
  - exists t'. split; [|done]. unfold processPrepareTransaction. rewrite bind_get, tracks_transactions, Hcid.
    by rewrite (bind_ok _ _ _ _ _ Hk).
Qed.

Lemma processCommitTransaction_ok i cid tid c tx : ti_connectionId i = Some cid -> ti_transactionId i = Local tid -> ends i ->
  let ck := connection_key cid in let tk := local_key (Some tid) in
  live u !! ck = Some c -> c_transactions c !! tk = Some tx -> tx_request tx = None ->
  exists t', processCommitTransactionOnePhase i t = (Ok (Some (Action i)), t') /\
    tracker_rel own n t' (with_live (<[ck := with_transactions (<[tk := mkTransaction (tx_commands tx ++ [CTransactionInfo i]) (Some (commandId (ti_base i)))]> (c_transactions c)) c]> (live u)) (note_use (CTransactionInfo i) u)).
Proof.
  intros Hcid Htid Hty ck tk El Htx Hn. destruct (append_ok cid tid c tx i (Some (commandId (ti_base i))) Hcid Htid El Htx) as (t' & Hrel & _ & Hk).
  - apply replays_end; [by eapply transaction_replays|done|cbn; by rewrite Hcid| |done]. intros c0 Hc0. cbn [live_step]. unfold transaction_step, forget. rewrite Htid.
    cbv zeta. by destruct Hty as [-> |[-> | ->]]; rewrite Hc0.
  - intros j. cbn. destruct Hty as [-> |[-> | ->]]; cbn; congruence.
  - exists t'. split; [|done]. unfold processCommitTransactionOnePhase. rewrite bind_get, tracks_transactions, Hcid. apply Hk.
Qed.

Lemma processMessage_ok m tid c tx : me_transactionId m = Some (Local tid) -> let sid := producer_parent (me_producerId m) in
  let ck := connection_key (session_parent sid) in let tk := local_key (Some tid) in let pk := producer_key (me_producerId m) in
  live u !! ck = Some c -> has_producer c pk = true -> c_transactions c !! tk = Some tx -> tx_request tx = None ->
  (forall tk' tx', c_transactions c !! tk' = Some tx' -> tk' <> tk -> uses pk tx' = false) ->
  exists t', processMessage m t = (Ok (Some Marker), t') /\
    tracker_rel own n t' (with_live (<[ck := with_transactions (<[tk := mkTransaction (tx_commands tx ++ [CMessage m]) None]> (c_transactions c)) c]> (live u)) (note_use (CMessage m) u)).
Proof.
  intros Hm sid ck tk pk El Hp Htx Hn Hother. destruct (connection_ok _ _ _ _ _ _ Ht El) as (cs & E & Em & Hc). fold ck in Em, Hc.
  destruct (getTransactionState_ok _ _ _ _ _ _ tid tx t Hc Htx) as (a & x & Ea & Hma & Hx & Ho & Hr). set (u' := with_live _ _).
  set (h' := <[a := addCommand (CMessage m) x]> (heap t)).
  pose proof (has_producer_tracked _ _ _ _ _ _ pk Hc) as Htr. rewrite Hp in Htr. symmetry in Htr. apply bool_decide_eq_true in Htr as [ps Hps].
  destruct (tracked_some _ _ _ _ _ _ _ _ Hc Hps) as (ss & s & Hss & Hs & Hrel & Hpp & _). change (producer_session pk) with (session_key sid) in *.
  pose proof (cr_ssorted _ _ _ _ _ _ Hc) as Hsort. set (ps' := mkProducerState (ps_info ps) (Some a)).
  set (ss' := set_producers (om_set producer_less (me_producerId m) ps' (ss_producers ss)) ss). set (cs' := set_session sid ss' cs).
  assert (forall q, tracked_producer cs' q = if decide (q = pk) then Some ps' else tracked_producer cs q) as Htq.
  { intros q. subst cs'. rewrite (tracked_producer_set _ _ _ _ Hsort). subst ss'. cbn [set_producers ss_producers]. rewrite (proj2 (om_set_ok _ _ _ (sr_psorted _ _ _ Hrel))).
    destruct (decide (producer_session q = session_key sid)) as [Eq|Hne].
    - destruct (decide (q = pk)) as [->|Hq]; [apply lookup_insert_eq|]. rewrite lookup_insert_ne by done. symmetry. by apply (tracked_producer_insert _ (session_key sid)).
    - rewrite decide_False; [done|]. intros ->. by apply Hne. }
  exists (change (session_parent sid) cs' h' (nextAddress t) t). split.
  - unfold processMessage. rewrite bind_get, Hm, tracks_transactions. fold sid. rewrite (bind_ok _ _ _ _ _ E), (bind_ok _ _ _ _ _ Ea).
    rewrite (bind_ok _ _ _ _ _ (on_transaction_ok a _ x t Hx)). rewrite (proj2 (proj2 (proj2 (proj2 (proj2 (tk_settings _ _ _ _ Ht)))))).
    unfold getSessionState, get_from. rewrite (om_find_ok _ _ Hsort), Hss. rewrite bind_assoc. unfold bind at 1, ret at 1.
    rewrite (om_find_ok _ _ (sr_psorted _ _ _ Hrel)). fold pk. rewrite Hpp. done.
  - assert (connection_rel own h' u' ck cs' (with_transactions (<[tk := mkTransaction (tx_commands tx ++ [CMessage m]) None]> (c_transactions c)) c)) as Hc'.
    { assert (session_rel (session_key sid) ss' s) as Hrel' by by apply session_rel_setProducer.
      eapply connection_rel_append; try done.
      - apply (om_set_ok sid ss' _ Hsort).
      - intros sk. subst cs'. cbn [set_session cs_sessions set_sessions]. rewrite (proj2 (om_set_ok _ _ _ Hsort)). destruct (decide (sk = session_key sid)) as [->|Hne].
        + rewrite lookup_insert_eq, Hs. by constructor.
        + rewrite lookup_insert_ne by done. apply (cr_sessions _ _ _ _ _ _ Hc).
      - split; intros q psq Hq; cbn [sent_by].
        + rewrite Htq in Hq. destruct (decide (q = pk)) as [->|Hne]; [injection Hq as <-; exists ps; split; [done|]; right; by rewrite bool_decide_true|].
          exists psq. split; [done|]. left. split; [done|]. apply bool_decide_eq_false. by intros <-.
        + rewrite Htq. destruct (decide (q = pk)) as [->|Hne]; [|by exists psq]. exists ps'. split; [done|]. by rewrite bool_decide_true.
      - intros q Hq. cbn [sent_by] in Hq. apply bool_decide_eq_true in Hq as <-. fold pk. split_and!; [by eexists|change (producer_session pk) with (session_key sid); by eexists|done|].
        intros tk' tx' Htx' Hne. by eapply Hother.
      - apply replays_record; [by eapply transaction_replays|done|cbn; by rewrite Hm|]. intros c0 Hc0 Hpc. cbn [live_step]. rewrite Hm. unfold message_step. fold pk.
        rewrite (Hpc pk); [done|]. unfold uses. cbn [tx_commands]. rewrite existsb_app. cbn. rewrite bool_decide_true by done. apply orb_true_r. }
    eapply tracker_rel_change; [done|done|apply grow_step| | |exact Hc'|reflexivity].
    + intros b y Hb Hne. unfold h'. rewrite lookup_insert_ne; [done|]. intros <-. rewrite Ho in Hb. by injection Hb as <-.
    + eapply owners_grow; [|apply grow_step]. apply owners_insert; [by eapply tracker_owners|by eexists].
Qed.
End tracked.

(** ** The refinement *)

Lemma client_step_inv cmd u u' : client_step cmd u = Some u' ->
  allowed cmd u (n ← connection_of cmd; live u !! n) /\ getCommandId cmd ∉ used_ids u /\
  exists b, step_with mark cmd (live u) = Some b /\ u' = with_live b (note_use cmd u).
Proof.
  unfold client_step. case_decide as H; [|done]. destruct H as [Ha Hi]. destruct (step_with mark cmd (live u)) as [b|]; [|done].
  cbn. intros [= <-]. split_and!; try done. by exists b.
Qed.

(** A command about a connection, and the step of that connection. *)
Lemma step_with_inv fin cmd b b' ck : connection_of cmd = Some ck -> step_with fin cmd b = Some b' ->
  exists oc, connection_step fin cmd (b !! ck) = Some oc /\ b' = match oc with Some c => <[ck := c]> b | None => delete ck b end.
Proof.
  intros Hck. unfold step_with. rewrite Hck. destruct (connection_step fin cmd (b !! ck)) as [oc|]; [|done]. cbn. intros [= <-]. by exists oc.
Qed.

Definition ends_transaction (i : TransactionInfo) : bool :=
  (ti_type i =? TRANSACTION_STATE_COMMITONEPHASE) || (ti_type i =? TRANSACTION_STATE_COMMITTWOPHASE) || (ti_type i =? TRANSACTION_STATE_ROLLBACK).
Definition tracked_as (cmd : Command) : Tracked :=
  match cmd with CTransactionInfo i => if ends_transaction i then Action i else Marker | _ => Marker end.

Lemma on_session_of_inv k f c c' : on_session_of k f c = Some c' -> exists s, c_sessions c !! k = Some s /\ c' = with_sessions (<[k := f s]> (c_sessions c)) c.
Proof. unfold on_session_of. destruct (c_sessions c !! k) as [s|]; [|done]. cbn. intros [= <-]. by exists s. Qed.

Lemma record_in_inv k cmd c c' : record_in k cmd c = Some c' ->
  exists tx, c_transactions c !! k = Some tx /\ c' = with_transactions (<[k := mkTransaction (tx_commands tx ++ [cmd]) (tx_request tx)]> (c_transactions c)) c.
Proof. unfold record_in. destruct (c_transactions c !! k) as [tx|]; [|done]. cbn. intros [= <-]. by exists tx. Qed.

Definition result (cmd : Command) own n t u' : Prop :=
  exists own' t', own ⊆ own' /\ visit cmd t = (Ok (Some (tracked_as cmd)), t') /\ tracker_rel own' n t' u'.

Lemma result_same cmd own n t u' (m : M Tracker (option Tracked)) : visit cmd = catch_amq m ->
  (exists t', m t = (Ok (Some (tracked_as cmd)), t') /\ tracker_rel own n t' u') -> result cmd own n t u'.
Proof. intros Ev (t' & E & Hr). exists own, t'. split; [done|]. split; [|done]. rewrite Ev. by apply catch_amq_ok. Qed.

Lemma track_remove own n t u u' i : tracker_rel own n t u -> client_step (CRemoveInfo i) u = Some u' -> result (CRemoveInfo i) own n t u'.
Proof.
  intros Ht (Ha & _ & b & Hs & ->)%client_step_inv. eapply result_same; [reflexivity|]. unfold processRemoveInfo. cbn [connection_of] in Ha.
  destruct (objectId i) as [c|s|p|k|] eqn:Ei; [| | | |by unfold step_with in Hs; cbn in Hs; rewrite Ei in Hs].
  - assert (b = delete (connection_key c) (live u)) as ->; [|by eapply processRemoveConnection_ok].
    apply (step_with_inv _ _ _ _ (connection_key c)) in Hs as (oc & Hoc & ->); [|by cbn; rewrite Ei]. unfold connection_step in Hoc. cbn in Hoc. rewrite Ei in Hoc.
    destruct (live u !! connection_key c); cbn in Hoc; by injection Hoc as <-.
  - apply (step_with_inv _ _ _ _ (connection_key (session_parent s))) in Hs as (oc & Hoc & ->); [|by cbn; rewrite Ei]. cbn [mbind option_bind] in Ha.
    destruct (live u !! connection_key (session_parent s)) as [c|] eqn:El; [|cbn in Hoc; rewrite Ei in Hoc; discriminate].
    cbn in Hoc. rewrite Ei in Hoc. injection Hoc as <-. cbn in Ha. rewrite Ei in Ha. destruct Ha as [Hq Hd]. by eapply processRemoveSession_ok.
  - apply (step_with_inv _ _ _ _ (connection_key (session_parent (producer_parent p)))) in Hs as (oc & Hoc & ->); [|by cbn; rewrite Ei].
    destruct (live u !! connection_key (session_parent (producer_parent p))) as [c|] eqn:El; [|cbn in Hoc; rewrite Ei in Hoc; discriminate].
    cbn [connection_step live_step] in Hoc. rewrite Ei in Hoc. cbn [remove_step] in Hoc. destruct (on_session_of _ _ c) as [c'|] eqn:Eo; [|done]. injection Hoc as <-.
    apply on_session_of_inv in Eo as (s & Es & ->). by eapply processRemoveProducer_ok.
  - apply (step_with_inv _ _ _ _ (connection_key (session_parent (consumer_parent k)))) in Hs as (oc & Hoc & ->); [|by cbn; rewrite Ei].
    destruct (live u !! connection_key (session_parent (consumer_parent k))) as [c|] eqn:El; [|cbn in Hoc; rewrite Ei in Hoc; discriminate].
    cbn [connection_step live_step] in Hoc. rewrite Ei in Hoc. cbn [remove_step] in Hoc. destruct (on_session_of _ _ c) as [c'|] eqn:Eo; [|done]. injection Hoc as <-.
    apply on_session_of_inv in Eo as (s & Es & ->). by eapply processRemoveConsumer_ok.
Qed.

Lemma track_transaction own n t u u' i : tracker_rel own n t u -> client_step (CTransactionInfo i) u = Some u' -> result (CTransactionInfo i) own n t u'.
Proof.
  intros Ht (Ha & _ & b & Hs & ->)%client_step_inv. cbn [connection_of] in Ha. destruct (ti_connectionId i) as [cid|] eqn:Ecid; [|by unfold step_with in Hs; cbn in Hs; rewrite Ecid in Hs].
  apply (step_with_inv _ _ _ _ (connection_key cid)) in Hs as (oc & Hoc & ->); [|by cbn; rewrite Ecid]. cbn [fmap option_fmap option_map mbind option_bind] in Ha.
  destruct (live u !! connection_key cid) as [c|] eqn:El; [|done]. cbn [connection_step live_step] in Hoc.
  destruct (transaction_step mark i c) as [c'|] eqn:Et; [|done]. injection Hoc as <-. unfold transaction_step in Et. cbn [allowed] in Ha. rewrite Ecid in Ha.
  destruct (ti_transactionId i) as [tid|] eqn:Etid; [|done].
  destruct (Z.eqb_spec (ti_type i) TRANSACTION_STATE_BEGIN) as [Hty|Hty].
  { destruct (c_transactions c !! local_key (Some tid)) eqn:Etx; [done|]. injection Et as <-.
    destruct (processBeginTransaction_ok own n t u Ht i cid tid c Ecid Etid Hty El Etx Ha) as (own' & t' & Ho & E & Hr).
    exists own', t'. split; [done|]. split; [|done]. cbn [visit]. apply catch_amq_ok. unfold processTransactionInfo, tracked_as, ends_transaction. rewrite Hty. exact E. }
  eapply result_same; [reflexivity|]. unfold processTransactionInfo, tracked_as, ends_transaction.
  destruct ((ti_type i =? TRANSACTION_STATE_PREPARE) || (ti_type i =? TRANSACTION_STATE_END)) eqn:Er.
  - apply record_in_inv in Et as (tx & Etx & ->). rewrite Etx in Ha. rewrite Ha.
    assert (recorded i) as Hrec by (apply orb_true_iff in Er as [E|E]; apply Z.eqb_eq in E; [by left|by right]).
    destruct (processPrepareTransaction_ok own n t u Ht i cid tid c tx Ecid Etid Hrec El Etx Ha) as (t' & E & Hr). exists t'. split; [|exact Hr]. by destruct Hrec as [-> | ->].
  - destruct ((ti_type i =? TRANSACTION_STATE_COMMITONEPHASE) || (ti_type i =? TRANSACTION_STATE_COMMITTWOPHASE) || (ti_type i =? TRANSACTION_STATE_ROLLBACK)) eqn:Ee; [|done].
    destruct (c_transactions c !! local_key (Some tid)) as [tx|] eqn:Etx; [|done]. cbn [mbind option_bind] in Et. injection Et as <-.
    assert (ends i) as Hends by (apply orb_true_iff in Ee as [Ee|Ee]; [apply orb_true_iff in Ee as [Ee|Ee]|]; apply Z.eqb_eq in Ee; [left|right;left|right;right]; done).
    destruct (processCommitTransaction_ok own n t u Ht i cid tid c tx Ecid Etid Hends El Etx Ha) as (t' & E & Hr). exists t'. split; [|exact Hr].
    by destruct Hends as [Hty' |[Hty' | Hty']]; rewrite Hty'.
Qed.

(** A command that is tracked, sent by a client that keeps to the rules, keeps the tracker in
    step with the client; the number of the request is left to be answered. *)
Lemma track_tracked own n t u u' cmd : tracker_rel own n t u -> untracked cmd = false -> client_step cmd u = Some u' ->
  exists own' t', own ⊆ own' /\ track cmd t = (Ok (Some (tracked_as cmd)), t') /\ tracker_rel own' n t' u'.
Proof.
  intros Ht Hu Hstep. assert (result cmd own n t u') as (own' & t' & Ho & E & Hr); [|exists own', t'; split; [done|]; split; [|done]; by apply catch_io_ok].
  destruct cmd; try done; [| | | | |by eapply track_remove|by eapply track_transaction|];
    apply client_step_inv in Hstep as (Ha & _ & b & Hs & ->); (eapply result_same; [reflexivity|]); cbn [connection_of mbind option_bind] in Ha.
  - eapply step_with_inv in Hs as (oc & Hoc & ->); [|done]. assert (oc = Some (new_connection i)) as ->.
    { unfold connection_step in Hoc. destruct (live u !! _); cbn in Hoc; by injection Hoc as <-. }
    apply processConnectionInfo_ok; [done|]. by destruct (live u !! _).
  - eapply step_with_inv in Hs as (oc & Hoc & ->); [|done]. destruct (live u !! connection_key _) as [c|] eqn:El; [|done]. injection Hoc as <-. by eapply processSessionInfo_ok.
  - eapply step_with_inv in Hs as (oc & Hoc & ->); [|done]. destruct (live u !! connection_key _) as [c|] eqn:El; [|done]. cbn [connection_step live_step] in Hoc.
    destruct (on_session_of _ _ c) as [c'|] eqn:Eo; [|done]. injection Hoc as <-. apply on_session_of_inv in Eo as (s & Es & ->). by eapply processProducerInfo_ok.
  - eapply step_with_inv in Hs as (oc & Hoc & ->); [|done]. destruct (live u !! connection_key _) as [c|] eqn:El; [|done]. cbn [connection_step live_step] in Hoc.
    destruct (on_session_of _ _ c) as [c'|] eqn:Eo; [|done]. injection Hoc as <-. apply on_session_of_inv in Eo as (s & Es & ->). by eapply processConsumerInfo_ok.
  - eapply step_with_inv in Hs as (oc & Hoc & ->); [|done]. destruct (live u !! connection_key _) as [c|] eqn:El; [|done]. injection Hoc as <-. by eapply processDestinationInfo_ok.
  - cbn [untracked] in Hu. destruct (me_transactionId m) as [tx|] eqn:Em; [|done]. apply (step_with_inv _ _ _ _ (connection_key (session_parent (producer_parent (me_producerId m))))) in Hs as (oc & Hoc & ->); [|by cbn; rewrite Em].
    cbn [mbind option_bind] in Ha. destruct (live u !! connection_key _) as [c|] eqn:El; [|done]. cbn [connection_step live_step] in Hoc. rewrite Em in Hoc.
    destruct tx as [tid|]; [|done]. destruct (message_step m tid c) as [c'|] eqn:Es; [|done]. injection Hoc as <-. unfold message_step in Es.
    destruct (has_producer c (producer_key (me_producerId m))) eqn:Ep; [|done]. apply record_in_inv in Es as (tx & Etx & ->). cbn [allowed] in Ha. rewrite Em in Ha.
    pose proof (Ha _ _ Etx) as Hn. cbn beta in Hn. rewrite bool_decide_true in Hn by done. apply bool_decide_eq_true in Hn. rewrite Hn.
    eapply processMessage_ok; try done. intros tk' tx' Htx' Hne. pose proof (Ha _ _ Htx') as Hn'. cbn beta in Hn'. rewrite bool_decide_false in Hn' by done.
    by apply negb_true_iff in Hn'.
Qed.
