(* ===== verification/Failover.v ===== *)
(** * FailoverTransport (activemq/transport/failover): a transport that outlives its
    connections.

    What a send does, what a response does, what becomes of a connection that failed and how
    the next one is brought to where the last one was. The threads take turns under
    [reconnectMutex]: where one waits, others run, which is what the [waits] of [oneway] stand
    for. The choice of the address to connect to is in Reconnect.v; there are no backup
    transports. *)
From stdpp Require Import gmap.
From S2P Require Import Prelude Commands StringUtils OrderedMap TrackedCommands URIPool HashMap StateTracker.

(** ** The state *)

(** A transport to one broker: what it has sent, and which of the next sends fail. *)
Record Link : Type := mkLink { link_uri : URI; wire : list Command; failures : list bool; link_version : Z }.

(** What [requestMap] holds: a command to send again, or a marker that waits. *)
Inductive Request : Type := Held (c : Command) | Waiting (info : TransactionInfo).

(** What comes from a broker, or is made up for it. *)
Inductive Incoming : Type :=
  | OnResponse (correlationId : Z)
  | OnRolledBack (correlationId : Z) (id : TransactionId)
  | OnDispatch (consumerId : option ConsumerId) (destination : option Destination)
  | OnCommand.

(** What the listener of the transport is told. *)
Inductive Notice : Type := ACommand (c : Incoming) | Interrupted | Resumed | AnException (e : exn).

Record Limits : Type := mkLimits { timeout : Z; maxReconnectAttempts : Z; startupMaxReconnectAttempts : Z }.

Record Life : Type := mkLife {
  started : bool;
  closed : bool;
  shutdown : bool;
  initialized : bool;
  firstConnection : bool;
  connectionFailure : option exn;
}.

Record Failover : Type := mkFailover {
  tracker : Tracker;
  connectedTransport : option Link;
  requestMap : list (Z * Request);
  limits : Limits;
  life : Life;
  uris : URIPool;
  updated : URIPool;
  notices : list Notice;
}.

Definition set_tracker x (s : Failover) := mkFailover x (connectedTransport s) (requestMap s) (limits s) (life s) (uris s) (updated s) (notices s).
Definition set_connected x (s : Failover) := mkFailover (tracker s) x (requestMap s) (limits s) (life s) (uris s) (updated s) (notices s).
Definition set_requestMap x (s : Failover) := mkFailover (tracker s) (connectedTransport s) x (limits s) (life s) (uris s) (updated s) (notices s).
Definition set_life x (s : Failover) := mkFailover (tracker s) (connectedTransport s) (requestMap s) (limits s) x (uris s) (updated s) (notices s).
Definition set_pools x y (s : Failover) := mkFailover (tracker s) (connectedTransport s) (requestMap s) (limits s) (life s) x y (notices s).
Definition notify (n : Notice) : M Failover unit :=
  modify (fun s => mkFailover (tracker s) (connectedTransport s) (requestMap s) (limits s) (life s) (uris s) (updated s) (notices s ++ [n])).

Definition set_started x (l : Life) := mkLife x (closed l) (shutdown l) (initialized l) (firstConnection l) (connectionFailure l).
Definition set_closed x (l : Life) := mkLife (started l) x (shutdown l) (initialized l) (firstConnection l) (connectionFailure l).
Definition set_shutdown x (l : Life) := mkLife (started l) (closed l) x (initialized l) (firstConnection l) (connectionFailure l).
Definition set_initialized x (l : Life) := mkLife (started l) (closed l) (shutdown l) x (firstConnection l) (connectionFailure l).
Definition set_firstConnection x (l : Life) := mkLife (started l) (closed l) (shutdown l) (initialized l) x (connectionFailure l).
Definition set_connectionFailure x (l : Life) := mkLife (started l) (closed l) (shutdown l) (initialized l) (firstConnection l) x.
Definition on_life (f : Life -> Life) : M Failover unit := modify (fun s => set_life (f (life s)) s).

Definition in_tracker {A} (m : M Tracker A) : M Failover A := fun s => let '(r, t) := m (tracker s) in (r, set_tracker t s).
Definition in_uris {A} (m : M URIPool A) : M Failover A := fun s => let '(r, p) := m (uris s) in (r, set_pools p (updated s) s).
Definition in_updated {A} (m : M URIPool A) : M Failover A := fun s => let '(r, p) := m (updated s) in (r, set_pools (uris s) p s).

Definition link_oneway (c : Command) : M Link unit := fun l =>
  match failures l with
  | true :: rest => (Throw IOException, mkLink (link_uri l) (wire l) rest (link_version l))
  | bs => (Ok tt, mkLink (link_uri l) (wire l ++ [c]) (List.tl bs) (link_version l))
  end.

Definition INFINITE_WAIT : Z := -1.

Definition calculateReconnectAttemptLimit (s : Failover) : Z :=
  if firstConnection (life s) && negb (startupMaxReconnectAttempts (limits s) =? INFINITE_WAIT)
  then startupMaxReconnectAttempts (limits s) else maxReconnectAttempts (limits s).
Definition canReconnect (s : Failover) : bool := started (life s) && negb (0 =? calculateReconnectAttemptLimit s).
Definition willReconnect (s : Failover) : bool := firstConnection (life s) || negb (0 =? calculateReconnectAttemptLimit s).
Definition isClosedOrFailed (s : Failover) : bool := closed (life s) || match connectionFailure (life s) with Some _ => true | None => false end.

(** ** Responses *)

Definition request_put (id : Z) (r : Request) : M Failover unit := modify (fun s => set_requestMap (om_set Z.ltb id r (requestMap s)) s).
Definition request_remove (id : Z) : M Failover (option Request) :=
  s <- get ;; modify (set_requestMap (om_remove Z.ltb id (requestMap s))) ;;; ret (om_find Z.ltb id (requestMap s)).

(** [Tracked::onResponse] *)
Definition onResponse (i : TransactionInfo) : M Tracker unit := catch_amq (RemoveTransactionAction_run i).

Definition processResponse (correlationId : Z) : M Failover unit :=
  object <- request_remove correlationId ;;
  match object with
  | Some (Waiting i) => in_tracker (onResponse i)
  | Some (Held _) | None => ret tt
  end.

Definition onCommand (c : Incoming) : M Failover unit :=
  match c with
  | OnResponse id | OnRolledBack id _ => processResponse id
  | OnDispatch _ _ | OnCommand => ret tt
  end ;;;
  on_life (set_initialized true) ;;;
  notify (ACommand c).

(** ** Bringing a connection to where the last one was *)

#[export] Instance restoring : TrackedTransport (Failover * Link) := {
  on_tracker A m := on_fst (in_tracker m);
  transport_oneway c := on_snd (link_oneway c);
  wireFormat_version := s <- get ;; ret (link_version s.2);
  listener_onRolledBack i := on_fst (onCommand (OnRolledBack (commandId (ti_base i)) (ti_transactionId i)));
}.

(** A marker that waits is sent as what it is, a Response. *)
Definition request_command (r : Request) : Command := match r with Held c => c | Waiting _ => CTracked end.

(** [start()] of the transport is in [connect]. *)
Definition restoreTransport : M (Failover * Link) unit := catch_io (
  transport_oneway (CConnectionControl new_base true) ;;;
  restore ;;;
  s <- get ;;
  send_all (map (fun p => request_command p.2) (requestMap s.1))).

(** What [iterate] does with a transport that has started: only when it is restored it
    becomes the connected one. *)
Definition connect (l : Link) : M Failover unit := fun s =>
  let '(r, (s', l')) := (if started (life s) && negb (firstConnection (life s)) then restoreTransport else ret tt) (s, l) in
  match r with
  | Ok _ =>
      (modify (set_connected (Some l')) ;;; on_life (set_firstConnection false) ;;; notify Resumed) s'
  | r => (r, s')
  end.

(** ** The loss of a connection *)

(** The listener is told of an IOException, whatever failed. *)
Definition propagateFailureToExceptionListener : M Failover unit :=
  s <- get ;;
  match connectionFailure (life s) with
  | Some e => notify (AnException (if is_io e then e else IOException))
  | None => undefined
  end.

Definition handleTransportFailure (e : exn) : M Failover unit :=
  s <- get ;;
  if shutdown (life s) then ret tt
  else match connectedTransport s with
  | None => ret tt
  | Some l =>
      modify (set_connected None) ;;;
      let reconnectOk := canReconnect s in
      on_life (set_initialized false) ;;;
      in_uris (addURI (link_uri l)) ;;;
      in_tracker transportInterrupted ;;;
      if reconnectOk then
        notify Interrupted ;;; in_updated (removeURI (link_uri l)) ;;; ret tt
      else if negb (closed (life s)) then
        on_life (set_connectionFailure (Some e)) ;;; propagateFailureToExceptionListener
      else ret tt
  end.

Definition onException (e : exn) : M Failover unit := handleTransportFailure e.

(** ** Sending *)

Definition isMessage (c : Command) : bool := match c with CMessage _ => true | _ => false end.
Definition isShutdownInfo (c : Command) : bool := match c with CShutdownInfo _ => true | _ => false end.
Definition isRemoveInfo (c : Command) : bool := match c with CRemoveInfo _ => true | _ => false end.
Definition isMessageAck (c : Command) : bool := match c with CMessageAck _ => true | _ => false end.

Definition on_link (m : M Link unit) : M Failover unit := fun s =>
  match connectedTransport s with
  | Some l => let '(r, l') := m l in (r, set_connected (Some l') s)
  | None => (UB, s)
  end.

(** How one round of the loop ends. *)
Inductive round : Type := Sent | Again | Broken (e : exn).

(** Track the command, hold it if its response has to be waited for, and send it. A command
    that is not tracked is sent again after a failure, others are left to [restore]. *)
Definition send_once (c : Command) : M Failover round := fun s0 =>
  match in_tracker (track c) s0 with
  | (Throw e, s) => if is_decaf e then (Ok (Broken e), s) else (Throw e, s)
  | (UB, s) => (UB, s)
  | (Hang, s) => (Hang, s)
  | (Ok tracked, s) =>
      (match tracked with
       | Some (Action i) => request_put (getCommandId c) (Waiting i)
       | Some Marker => ret tt
       | None => if isResponseRequired c then request_put (getCommandId c) (Held c) else ret tt
       end ;;;
       try_catch is_io
         (on_link (link_oneway c) ;;; in_tracker (trackBack c) ;;;
          (if isShutdownInfo c then on_life (set_shutdown true) else ret tt) ;;; ret Sent)
         (fun e =>
            s <- get ;;
            if negb (bool_decide (is_Some tracked)) && canReconnect s then
              (if isResponseRequired c then request_remove (getCommandId c) ;;; ret tt else ret tt) ;;;
              handleTransportFailure e ;;; ret Again
            else handleTransportFailure e ;;; ret Sent)) s
  end.

(** While this thread waits others take their turns; [reconnectMutex.wait(100)] ends after
    some time. *)
Definition other_thread (m : M Failover unit) : M Failover unit := fun s => (Ok tt, (m s).2).

Definition waiting (s : Failover) : bool :=
  match connectedTransport s with Some _ => false | None => true end && negb (isClosedOrFailed s) && willReconnect s.

Fixpoint await (isMsg : bool) (elapsed : Z) (waits : list (Z * M Failover unit)) : M Failover (bool * list (Z * M Failover unit)) :=
  s <- get ;;
  if waiting s then
    if isMsg && (0 <? timeout (limits s)) && (timeout (limits s) <? elapsed) then ret (true, waits)
    else match waits with
    | [] => hang
    | (time, step) :: rest => other_thread step ;;; await isMsg (elapsed + time) rest
    end
  else ret (false, waits).

(** The error the loop was left with is thrown unless the transport is closed. *)
Definition leave (e : exn) : M Failover unit := s <- get ;; if closed (life s) then ret tt else throw IOException.

Fixpoint send_loop (fuel : nat) (c : Command) (waits : list (Z * M Failover unit)) : M Failover unit :=
  match fuel with
  | O => hang
  | S fuel' =>
      s <- get ;;
      if closed (life s) then ret tt
      else
        waited <- await (isMessage c) 0 waits ;;
        s <- get ;;
        match connectedTransport s with
        | None => leave IOException
        | Some _ =>
            r <- send_once c ;;
            match r with
            | Sent => ret tt
            | Again => send_loop fuel' c waited.2
            | Broken e => leave e
            end
        end
  end.

(** Without a connection some commands are answered here. *)
Definition answered_here (c : Command) : bool :=
  match c with CShutdownInfo _ | CRemoveInfo _ | CMessageAck _ | CMessagePull _ => true | _ => false end.

Definition answer_here (c : Command) : M Failover unit :=
  match c with
  | CRemoveInfo _ | CMessageAck _ =>
      in_tracker (track c) ;;;
      if isResponseRequired c then onCommand (OnResponse (getCommandId c)) else ret tt
  | CMessagePull p => if negb (pull_timeout p =? 0) then onCommand (OnDispatch (pull_consumerId p) (pull_destination p)) else ret tt
  | _ => ret tt
  end.

(** [AMQ_CATCHALL_NOTHROW] *)
Definition nothrow (m : M Failover unit) : M Failover unit := try_catch (fun _ => true) m (fun _ => ret tt).

Definition oneway (fuel : nat) (waits : list (Z * M Failover unit)) (c : Command) : M Failover unit :=
  s <- get ;;
  match connectedTransport s with
  | None => if answered_here c then nothrow (answer_here c) else send_loop fuel c waits
  | Some _ => send_loop fuel c waits
  end.

(** The tracker of a transport that is told to go on where it was interrupted. *)
Definition sending (fuel : nat) (waits : list (Z * M Failover unit)) : TrackedTransport Failover := {|
  on_tracker A m := in_tracker m;
  transport_oneway c := oneway fuel waits c;
  wireFormat_version := s <- get ;; match connectedTransport s with Some l => ret (link_version l) | None => undefined end;
  listener_onRolledBack i := onCommand (OnRolledBack (commandId (ti_base i)) (ti_transactionId i));
|}.

Definition setConnectionInterruptProcessingComplete (fuel : nat) (waits : list (Z * M Failover unit)) (id : ConnectionId) : M Failover unit :=
  connectionInterruptProcessingComplete (H := sending fuel waits) (oneway fuel waits) id.

(** A transport that was started, and has not connected yet: [start()] hands its settings to
    the tracker. *)
Definition opened (f : Settings) (lim : Limits) : outcome Failover :=
  match Tracker_new f with
  | Ok t => Ok (mkFailover t None [] lim (mkLife true false false false true None) URIPool_new URIPool_new [])
  | Throw e => Throw e | UB => UB | Hang => Hang
  end.
