(* ===== verification/FailoverReplay.v ===== *)
(** * What a broker makes of the commands that restore a connection. *)
From stdpp Require Import gmap.
From S2P Require Import Prelude Commands StringUtils OrderedMap TrackedCommands StateTracker FailoverSpec FailoverSim FailoverTrack.

Implicit Types (cmd : Command) (ck : connection_name) (sk : session_name) (c : Connection) (s : Session) (p : member_name) (slows : bool) (ss : SessionState)
  (tk : transaction_name) (a : Z) (cs : ConnectionState) (tx : Transaction) (bc : Connection).

(** ** Maps filled entry by entry *)

Lemma union_insert {K V} `{Countable K} (m m0 : gmap K V) k v : m !! k = None -> m ∪ <[k := v]> m0 = <[k := v]> m ∪ m0.
Proof. intros Hk. by rewrite <- insert_union_r, insert_union_l. Qed.

Lemma union_total {K V} `{Countable K} (m m0 : gmap K V) : (forall k, is_Some (m0 !! k) -> is_Some (m !! k)) -> m ∪ m0 = m.
Proof.
  intros Hd. apply map_eq. intros k. destruct (m !! k) as [v|] eqn:E; [by apply lookup_union_Some_l|]. apply lookup_union_None. split; [done|].
  destruct (m0 !! k) eqn:E0; [|done]. destruct (Hd k) as [? ?]; [by eexists|congruence].
Qed.

(** ** Steps of one connection *)

Lemma run_step cmd l b b' : broker_step cmd b = Some b' -> run_broker (cmd :: l) b = run_broker l b'.
Proof. intros E. cbn [run_broker]. by rewrite E. Qed.

Lemma step_connection cmd ck (b : Broker) c c' : connection_of cmd = Some ck -> b !! ck = Some c -> live_step forget cmd c = Some (Some c') ->
  broker_step cmd b = Some (<[ck := c']> b).
Proof. intros Hck Hb Hs. unfold broker_step, step_with. rewrite Hck, Hb. cbn [connection_step]. by rewrite Hs. Qed.

Definition with_temporary x (c : Connection) : Connection := mkConnection (c_info c) (c_sessions c) x (c_transactions c).

Lemma with_temporary_id c : with_temporary (c_temporary c) c = c.
Proof. by destruct c. Qed.
Lemma with_sessions_id c : with_sessions (c_sessions c) c = c.
Proof. by destruct c. Qed.
Lemma with_producers_id s : with_producers (s_producers s) s = s.
Proof. by destruct s. Qed.
Lemma with_consumers_id s : with_consumers (s_consumers s) s = s.
Proof. by destruct s. Qed.

Lemma run_temporaries ck (l : list DestinationInfo) (b : Broker) c : Forall (fun i => connection_key (di_connectionId i) = ck) l -> b !! ck = Some c ->
  run_broker (map CDestinationInfo l) b = Some (<[ck := with_temporary (foldl (fun l i => temporary_step i l) (c_temporary c) l) c]> b).
Proof.
  intros Hl. revert b c. induction Hl as [|i l Hi _ IH]; intros b c Hb; cbn [map foldl].
  - cbn. by rewrite with_temporary_id, insert_id.
  - erewrite run_step; [|eapply step_connection; [cbn; by rewrite Hi|exact Hb|reflexivity]]. rewrite (IH _ (with_temporary (temporary_step i (c_temporary c)) c)) by apply lookup_insert_eq.
    by rewrite insert_insert_eq.
Qed.

(** ** The producers of a session *)

Definition of_session (sk : session_name) (p : ProducerId * ProducerState) : Prop :=
  producer_key (pi_producerId (ps_info p.2)) = producer_key p.1 /\ producer_session (producer_key p.1) = sk.

Lemma on_session_some k f c s : c_sessions c !! k = Some s -> on_session_of k f c = Some (with_sessions (<[k := f s]> (c_sessions c)) c).
Proof. intros E. unfold on_session_of. by rewrite E. Qed.

Lemma run_producers ck sk (l : list (ProducerId * ProducerState)) (b : Broker) c s : om_sorted producer_less l -> Forall (of_session sk) l -> sk.1 = ck ->
  b !! ck = Some c -> c_sessions c !! sk = Some s ->
  run_broker (map (fun y => CProducerInfo (ps_info y.2)) l) b =
    Some (<[ck := with_sessions (<[sk := with_producers ((ps_info <$> om_map producer_key l) ∪ s_producers s) s]> (c_sessions c)) c]> b).
Proof.
  intros Hs Hl Hck. revert b c s. induction Hl as [|[k p] l [Hk Hsk] _ IH]; intros b c s Hb Hss.
  - cbn. rewrite om_map_nil, fmap_empty, (left_id_L ∅ (∪)), with_producers_id, (insert_id (c_sessions c)) by done. by rewrite with_sessions_id, insert_id.
  - apply om_sorted_cons in Hs as [Ha Hs]. cbn [map fst snd] in *.
    assert (session_key (producer_parent (pi_producerId (ps_info p))) = sk) as Esk by (rewrite <- Hsk, <- Hk; done).
    erewrite run_step; [|eapply step_connection; [|exact Hb|]]; cycle 1.
    + cbn. f_equal. rewrite <- Hck, <- Esk. done.
    + cbn [live_step]. rewrite Esk, (on_session_some _ _ _ _ Hss). reflexivity.
    + rewrite (IH Hs _ _ _ (lookup_insert_eq _ _ _) (lookup_insert_eq _ _ _)). rewrite insert_insert_eq. cbn [c_sessions with_sessions s_producers with_producers s_info s_consumers].
      rewrite insert_insert_eq, om_map_cons, fmap_insert, <- union_insert; [by rewrite Hk|]. cbn [fst].
      by rewrite lookup_fmap, (om_map_above k l Ha).
Qed.

(** ** Its consumers, which may be told to pull *)

Definition told_prefetch (slows : bool) (i : ConsumerInfo) : ConsumerInfo := if slows && (0 <? prefetchSize i) then set_prefetchSize 0 i else i.

Lemma told_prefetch_id slows i : ki_consumerId (told_prefetch slows i) = ki_consumerId i.
Proof. unfold told_prefetch. by destruct (_ && _). Qed.

Definition in_session (sk : session_name) (y : ConsumerId * ConsumerState) : Prop :=
  consumer_key (ki_consumerId (ks_info y.2)) = consumer_key y.1 /\ consumer_session (consumer_key y.1) = sk.

Definition told_consumers (slows : bool) (l : list (ConsumerId * ConsumerState)) : gmap member_name ConsumerInfo :=
  (fun k => told_prefetch slows (ks_info k)) <$> om_map consumer_key l.

Lemma run_consumers slows ck sk (l : list (ConsumerId * ConsumerState)) (b : Broker) c s : om_sorted consumer_less l -> Forall (in_session sk) l -> sk.1 = ck ->
  b !! ck = Some c -> c_sessions c !! sk = Some s ->
  run_broker (map (fun y => CConsumerInfo (told_prefetch slows (ks_info y.2))) l) b =
    Some (<[ck := with_sessions (<[sk := with_consumers (told_consumers slows l ∪ s_consumers s) s]> (c_sessions c)) c]> b).
Proof.
  intros Hs Hl Hck. revert b c s. induction Hl as [|[k p] l [Hk Hsk] _ IH]; intros b c s Hb Hss; unfold told_consumers in *.
  - cbn. rewrite om_map_nil, fmap_empty, (left_id_L ∅ (∪)), with_consumers_id, (insert_id (c_sessions c)) by done. by rewrite with_sessions_id, insert_id.
  - apply om_sorted_cons in Hs as [Ha Hs]. cbn [map fst snd] in *.
    assert (session_key (consumer_parent (ki_consumerId (ks_info p))) = sk) as Esk by (rewrite <- Hsk, <- Hk; done).
    erewrite run_step; [|eapply step_connection; [|exact Hb|]]; cycle 1.
    + cbn [connection_of]. rewrite told_prefetch_id. f_equal. rewrite <- Hck, <- Esk. done.
    + cbn [live_step]. rewrite told_prefetch_id, Esk, (on_session_some _ _ _ _ Hss). reflexivity.
    + rewrite (IH Hs _ _ _ (lookup_insert_eq _ _ _) (lookup_insert_eq _ _ _)). rewrite insert_insert_eq. cbn [c_sessions with_sessions s_consumers with_consumers s_info s_producers].
      rewrite insert_insert_eq, om_map_cons, fmap_insert, <- union_insert; [by rewrite Hk|]. cbn [fst].
      by rewrite lookup_fmap, (om_map_above k l Ha).
Qed.

(** ** The sessions of a connection *)

Definition session_commands (slows : bool) (ss : SessionState) : list Command :=
  CSessionInfo (ss_info ss) :: map (fun y => CProducerInfo (ps_info y.2)) (ss_producers ss) ++
  map (fun y => CConsumerInfo (told_prefetch slows (ks_info y.2))) (ss_consumers ss).

Definition told_session (slows : bool) (ss : SessionState) : Session :=
  mkSession (ss_info ss) (ps_info <$> om_map producer_key (ss_producers ss)) (told_consumers slows (ss_consumers ss)).

Definition session_ok (sk : session_name) (ss : SessionState) : Prop :=
  session_key (se_sessionId (ss_info ss)) = sk /\ om_sorted producer_less (ss_producers ss) /\ om_sorted consumer_less (ss_consumers ss) /\
  Forall (of_session sk) (ss_producers ss) /\ Forall (in_session sk) (ss_consumers ss).

Lemma run_session slows ck sk ss (b : Broker) c : session_ok sk ss -> sk.1 = ck -> b !! ck = Some c ->
  run_broker (session_commands slows ss) b = Some (<[ck := with_sessions (<[sk := told_session slows ss]> (c_sessions c)) c]> b).
Proof.
  intros (Hk & Hps & Hks & Hp & Hc) Hck Hb. unfold session_commands. erewrite run_step; cycle 1.
  { eapply step_connection; [|exact Hb|reflexivity]. cbn. f_equal. by rewrite <- Hck, <- Hk. }
  rewrite Hk, run_broker_app, (run_producers ck sk _ _ _ _ Hps Hp Hck (lookup_insert_eq _ _ _) (lookup_insert_eq _ _ _)). cbn [mbind option_bind].
  rewrite (run_consumers slows ck sk _ _ _ _ Hks Hc Hck (lookup_insert_eq _ _ _) (lookup_insert_eq _ _ _)). rewrite !insert_insert_eq.
  cbn [c_sessions with_sessions]. rewrite !insert_insert_eq. unfold told_session, with_consumers, with_producers, with_sessions. cbn [s_info s_producers s_consumers c_info c_temporary c_transactions].
  by rewrite !(right_id_L ∅ (∪)).
Qed.

Definition sessions_commands (slows : bool) (l : list (SessionId * SessionState)) : list Command := concat (map (fun y => session_commands slows y.2) l).

Lemma run_sessions slows ck (l : list (SessionId * SessionState)) (b : Broker) c : om_sorted session_less l ->
  Forall (fun y => session_ok (session_key y.1) y.2 /\ (session_key y.1).1 = ck) l -> b !! ck = Some c ->
  run_broker (sessions_commands slows l) b = Some (<[ck := with_sessions ((told_session slows <$> om_map session_key l) ∪ c_sessions c) c]> b).
Proof.
  intros Hs Hl. revert b c. induction Hl as [|[k ss] l [Hok Hk] _ IH]; intros b c Hb.
  - cbn. by rewrite om_map_nil, fmap_empty, (left_id_L ∅ (∪)), with_sessions_id, insert_id.
  - apply om_sorted_cons in Hs as [Ha Hs]. unfold sessions_commands in *. cbn [map concat fst snd] in *. rewrite run_broker_app, (run_session slows ck _ _ _ _ Hok Hk Hb). cbn [mbind option_bind].
    rewrite (IH Hs _ _ (lookup_insert_eq _ _ _)), insert_insert_eq. cbn [c_sessions with_sessions]. rewrite om_map_cons, fmap_insert, <- union_insert; [done|].
    by rewrite lookup_fmap, (om_map_above k l Ha).
Qed.

(** ** Producers that are gone, for the time of a replay *)

Abbreviation gone := (list (ProducerId * ProducerState)) (only parsing).

Definition add_producer (i : ProducerInfo) (m : gmap session_name Session) : gmap session_name Session :=
  alter (fun s => with_producers (<[producer_key (pi_producerId i) := i]> (s_producers s)) s) (producer_session (producer_key (pi_producerId i))) m.
Definition delete_producer (i : ProducerInfo) (m : gmap session_name Session) : gmap session_name Session :=
  alter (fun s => with_producers (delete (producer_key (pi_producerId i)) (s_producers s)) s) (producer_session (producer_key (pi_producerId i))) m.

Definition there (p : member_name) (m : gmap session_name Session) : Prop := is_Some (m !! producer_session p).

Lemma add_there p i m : there p m -> there p (add_producer i m).
Proof. unfold there, add_producer. by rewrite lookup_alter_is_Some. Qed.
Lemma delete_there p i m : there p m -> there p (delete_producer i m).
Proof. unfold there, delete_producer. by rewrite lookup_alter_is_Some. Qed.

Lemma on_session_alter k f c : is_Some (c_sessions c !! k) -> on_session_of k f c = Some (with_sessions (alter f k (c_sessions c)) c).
Proof. intros [s Hs]. rewrite (on_session_some _ _ _ _ Hs). do 2 f_equal. rewrite <- (insert_id _ _ _ Hs) at 2. by rewrite alter_insert_eq. Qed.

Lemma producer_connection i ck : (producer_key (pi_producerId i)).1 = ck -> connection_key (session_parent (producer_parent (pi_producerId i))) = ck.
Proof. by intros <-. Qed.

(** A producer that is gone is of this connection, and its session is there. *)
Definition gone_ok (ck : connection_name) (m : gmap session_name Session) (i : ProducerInfo) : Prop :=
  (producer_key (pi_producerId i)).1 = ck /\ there (producer_key (pi_producerId i)) m.

Lemma step_add ck (b : Broker) c i : gone_ok ck (c_sessions c) i -> b !! ck = Some c ->
  broker_step (CProducerInfo i) b = Some (<[ck := with_sessions (add_producer i (c_sessions c)) c]> b).
Proof.
  intros [Hk Ht] Hb. apply (step_connection _ _ _ c); [by apply (f_equal Some), producer_connection|done|]. cbn [live_step]. by rewrite on_session_alter.
Qed.

Lemma step_delete ck (b : Broker) c i : gone_ok ck (c_sessions c) i -> b !! ck = Some c ->
  broker_step (CRemoveInfo (createRemoveCommand i)) b = Some (<[ck := with_sessions (delete_producer i (c_sessions c)) c]> b).
Proof.
  intros [Hk Ht] Hb. apply (step_connection _ _ _ c); [by apply (f_equal Some), producer_connection|done|]. cbn [live_step createRemoveCommand objectId remove_step]. by rewrite on_session_alter.
Qed.

Lemma run_adds ck (l : list ProducerInfo) (b : Broker) c : Forall (gone_ok ck (c_sessions c)) l -> b !! ck = Some c ->
  run_broker (map CProducerInfo l) b = Some (<[ck := with_sessions (foldl (fun m i => add_producer i m) (c_sessions c) l) c]> b).
Proof.
  revert b c. induction l as [|i l IH]; intros b c Hl Hb; cbn [map foldl]; [cbn; by rewrite with_sessions_id, insert_id|].
  apply List.Forall_cons_iff in Hl as [Hi Hl]. rewrite (run_step _ _ _ _ (step_add _ _ _ _ Hi Hb)). rewrite (IH _ (with_sessions (add_producer i (c_sessions c)) c)).
  - by rewrite insert_insert_eq.
  - eapply Forall_impl; [|exact Hl]. intros j [? ?]. split; [done|by apply add_there].
  - apply lookup_insert_eq.
Qed.

Lemma run_deletes ck (l : list ProducerInfo) (b : Broker) c : Forall (gone_ok ck (c_sessions c)) l -> b !! ck = Some c ->
  run_broker (map (fun i => CRemoveInfo (createRemoveCommand i)) l) b = Some (<[ck := with_sessions (foldl (fun m i => delete_producer i m) (c_sessions c) l) c]> b).
Proof.
  revert b c. induction l as [|i l IH]; intros b c Hl Hb; cbn [map foldl]; [cbn; by rewrite with_sessions_id, insert_id|].
  apply List.Forall_cons_iff in Hl as [Hi Hl]. rewrite (run_step _ _ _ _ (step_delete _ _ _ _ Hi Hb)). rewrite (IH _ (with_sessions (delete_producer i (c_sessions c)) c)).
  - by rewrite insert_insert_eq.
  - eapply Forall_impl; [|exact Hl]. intros j [? ?]. split; [done|by apply delete_there].
  - apply lookup_insert_eq.
Qed.

Lemma delete_add_ne i j m : producer_key (pi_producerId i) <> producer_key (pi_producerId j) ->
  delete_producer i (add_producer j m) = add_producer j (delete_producer i m).
Proof.
  intros Hne. unfold delete_producer, add_producer. destruct (decide (producer_session (producer_key (pi_producerId i)) = producer_session (producer_key (pi_producerId j)))) as [E|E].
  - rewrite E, !alter_alter_eq. apply alter_ext. intros s _. unfold compose, with_producers. cbn. by rewrite delete_insert_ne by done.
  - by apply alter_alter_ne.
Qed.

Definition absent (m : gmap session_name Session) p : Prop := forall s, m !! producer_session p = Some s -> s_producers s !! p = None.

Lemma delete_add_eq i m : absent m (producer_key (pi_producerId i)) -> delete_producer i (add_producer i m) = m.
Proof.
  intros Ha. unfold delete_producer, add_producer. rewrite alter_alter_eq. apply alter_id. intros s Hs. specialize (Ha _ Hs). destruct s. unfold compose, with_producers. cbn in *.
  by rewrite delete_insert_id.
Qed.

Lemma deletes_adds (l : list ProducerInfo) m : base.NoDup (map (fun i => producer_key (pi_producerId i)) l) -> Forall (fun i => absent m (producer_key (pi_producerId i))) l ->
  foldl (fun m i => delete_producer i m) (foldl (fun m i => add_producer i m) m l) l = m.
Proof.
  intros Hn Ha. induction l as [|i l IH]; [done|]. cbn [map foldl] in *. apply list.NoDup_cons in Hn as [Hi Hn]. apply List.Forall_cons_iff in Ha as [Hai Ha].
  assert (forall m', absent m' (producer_key (pi_producerId i)) -> delete_producer i (foldl (fun m i => add_producer i m) (add_producer i m') l) = foldl (fun m i => add_producer i m) m' l) as Hone.
  { clear IH Ha. intros m' Hm'. rewrite <- (delete_add_eq i m' Hm') at 2. generalize (add_producer i m'). clear Hm'. induction l as [|j l IH]; intros m''; [done|]. cbn [foldl map] in *.
    apply not_elem_of_cons in Hi as [Hij Hi]. apply list.NoDup_cons in Hn as [_ Hn]. rewrite (IH Hi Hn). by rewrite delete_add_ne. }
  rewrite Hone by done. by apply IH.
Qed.

Definition has (m : gmap session_name Session) p : Prop := exists s, m !! producer_session p = Some s /\ is_Some (s_producers s !! p).

Lemma has_producer_has c p : has_producer c p = true <-> has (c_sessions c) p.
Proof.
  unfold has_producer, has. destruct (c_sessions c !! producer_session p) as [s|].
  - rewrite bool_decide_eq_true. split; [by intros ?; exists s|by intros (? & [= <-] & ?)].
  - split; [done|by intros (? & ? & _)].
Qed.

Lemma add_has i m p : has m p -> has (add_producer i m) p.
Proof.
  intros (s & Hs & Hp). unfold has, add_producer. rewrite lookup_alter. case_decide as E; [|by exists s]. rewrite E, Hs. eexists. split; [done|]. cbn. by apply lookup_insert_is_Some'; right.
Qed.
Lemma add_has_eq i m : there (producer_key (pi_producerId i)) m -> has (add_producer i m) (producer_key (pi_producerId i)).
Proof. intros [s Hs]. unfold has, add_producer. rewrite lookup_alter_eq, Hs. eexists. split; [done|]. cbn. rewrite lookup_insert_eq. by eexists. Qed.

Lemma adds_has (l : list ProducerInfo) m p : has m p \/ (exists i, i ∈ l /\ producer_key (pi_producerId i) = p) /\ there p m ->
  has (foldl (fun m i => add_producer i m) m l) p.
Proof.
  revert m. induction l as [|i l IH]; intros m Hp; cbn [foldl].
  - destruct Hp as [Hp|[(i & Hi & _) _]]; [done|]. by apply not_elem_of_nil in Hi.
  - apply IH. destruct Hp as [Hp|[(j & Hj & <-) Ht]]; [left; by apply add_has|]. apply elem_of_cons in Hj as [->|Hj]; [left; by apply add_has_eq|].
    right. split; [by exists j|by apply add_there].
Qed.

(** ** The transactions of a connection *)

Definition transaction_commands (x : TransactionState) : list Command :=
  map CProducerInfo (map (fun q => ps_info q.2) (ts_producers x)) ++ ts_commands x ++
  map (fun i => CRemoveInfo (createRemoveCommand i)) (map (fun q => ps_info q.2) (ts_producers x)).

(** One in doubt is not sent again. *)
Definition replayed (x : TransactionState) : list Command :=
  match list.last (ts_commands x) with
  | Some cmd => match in_doubt cmd with Some _ => [] | None => transaction_commands x end
  | None => []
  end.

(** The sessions a broker was told are those of the tracker. *)
Definition sessions_told (cs : ConnectionState) (c bc : Connection) : Prop :=
  (forall p, is_Some (c_sessions c !! producer_session p) -> there p (c_sessions bc)) /\
  (forall p, is_Some (tracked_producer cs p) -> has (c_sessions bc) p) /\
  (forall p, tracked_producer cs p = None -> absent (c_sessions bc) p).

Lemma gone_entries ck tk a cs c x tx q : transaction_rel ck tk a cs c x tx -> q ∈ ts_producers x ->
  producer_key (pi_producerId (ps_info q.2)) = producer_key q.1 /\ uses (producer_key q.1) tx = true /\ tracked_producer cs (producer_key q.1) = None.
Proof. intros Hr Hq. destruct q as [k ps]. apply (tr_gone _ _ _ _ _ _ _ Hr). by apply om_map_elem; [apply (tr_sorted _ _ _ _ _ _ _ Hr)|]. Qed.

Lemma run_transaction ck tk a cs c (x : TransactionState) tx (b : Broker) bc : transaction_rel ck tk a cs c x tx -> sessions_told cs c bc -> b !! ck = Some bc ->
  c_transactions bc !! tk = None ->
  run_broker (transaction_commands x) b =
    Some (<[ck := match tx_request tx with None => with_transactions (<[tk := tx]> (c_transactions bc)) bc | Some _ => bc end]> b).
Proof.
  intros Hr (Ht & Hh & Ha) Hb Htk. unfold transaction_commands. set (l := map (fun q => ps_info q.2) (ts_producers x)).
  assert (forall i, i ∈ l -> exists q, q ∈ ts_producers x /\ i = ps_info q.2) as Hl by (intros i (q & -> & Hq)%list_elem_of_fmap; by exists q).
  assert (Forall (gone_ok ck (c_sessions bc)) l) as Hg.
  { apply List.Forall_forall. intros i Hi. destruct (Hl i) as (q & Hq & ->); [by apply list_elem_of_In|]. destruct (gone_entries _ _ _ _ _ _ _ _ Hr Hq) as (E & Hu & _).
    destruct (tr_sessions _ _ _ _ _ _ _ Hr _ Hu) as [Hs Hk]. rewrite <- E in Hs, Hk. split; [done|by apply Ht]. }
  assert (Forall (fun i => absent (c_sessions bc) (producer_key (pi_producerId i))) l) as Hab.
  { apply List.Forall_forall. intros i Hi. destruct (Hl i) as (q & Hq & ->); [by apply list_elem_of_In|]. destruct (gone_entries _ _ _ _ _ _ _ _ Hr Hq) as (E & _ & Hn).
    rewrite E. by apply Ha. }
  assert (base.NoDup (map (fun i => producer_key (pi_producerId i)) l)) as Hn.
  { unfold l. rewrite map_map. pose proof (om_sorted_NoDup _ (tr_sorted _ _ _ _ _ _ _ Hr)) as H. erewrite List.map_ext_in; [exact H|].
    intros q Hq. cbn. by apply (gone_entries _ _ _ _ _ _ _ q Hr), list_elem_of_In. }
  rewrite run_broker_app, (run_adds _ _ _ _ Hg Hb). cbn [mbind option_bind]. set (bc1 := with_sessions (foldl _ _ l) bc). rewrite run_broker_app, (tr_commands _ _ _ _ _ _ _ Hr).
  rewrite (tr_replays _ _ _ _ _ _ _ Hr _ bc1 (lookup_insert_eq _ _ _) Htk); cycle 1.
  { intros p Hp. apply has_producer_has. subst bc1. cbn [c_sessions with_sessions]. apply adds_has. destruct (tr_producers _ _ _ _ _ _ _ Hr p Hp) as [(ps & Hps & _)|[ps Hps]].
    - left. apply Hh. by eexists.
    - right. split; [|apply Ht; by apply (tr_sessions _ _ _ _ _ _ _ Hr)]. apply om_map_elem_of in Hps as (k & Hk & <-). exists (ps_info ps). split.
      + apply list_elem_of_fmap. by exists (k, ps).
      + by apply (gone_entries _ _ _ _ _ _ _ (k, ps) Hr). }
  cbn [mbind option_bind]. rewrite insert_insert_eq. set (bc2 := match tx_request tx with None => _ | Some _ => bc1 end).
  assert (c_sessions bc2 = c_sessions bc1) as E2 by (subst bc2; by destruct (tx_request tx)).
  rewrite (run_deletes ck l _ bc2); [|rewrite E2|apply lookup_insert_eq].
  - rewrite insert_insert_eq, E2. subst bc1. cbn [c_sessions with_sessions] in *. rewrite (deletes_adds _ _ Hn Hab). do 2 f_equal. subst bc2. destruct bc. by destruct (tx_request tx).
  - eapply Forall_impl; [|exact Hg]. intros i [Hk Hi]. split; [done|]. subst bc1. cbn [c_sessions with_sessions]. clear -Hi. revert Hi. generalize (c_sessions bc).
    induction l as [|j l IH]; intros m Hm; [done|]. cbn [foldl]. by apply IH, add_there.
Qed.

Definition transactions_commands (h : gmap Z TransactionState) (l : list Z) : list Command :=
  concat (map (fun a => match h !! a with Some x => replayed x | None => [] end) l).

Lemma settle_transactions c tk tx : c_transactions c !! tk = Some tx ->
  c_transactions (settle c) !! tk = match tx_request tx with None => Some tx | Some _ => None end.
Proof.
  intros Htx. cbn [settle c_transactions with_transactions]. rewrite map_lookup_filter, Htx. cbn. destruct (tx_request tx) eqn:E; [by rewrite option_guard_False by naive_solver|by rewrite option_guard_True].
Qed.

(** The objects of some transactions of a connection. *)
Definition transactions_there (h : gmap Z TransactionState) ck cs c (l : list (option LocalId * Z)) : Prop :=
  forall tk a, om_map local_key l !! tk = Some a -> exists x tx, h !! a = Some x /\ c_transactions c !! tk = Some tx /\ transaction_rel ck tk a cs c x tx.

Lemma run_transactions (h : gmap Z TransactionState) ck cs c (l : list (option LocalId * Z)) (b : Broker) bc : om_sorted local_less l -> transactions_there h ck cs c l -> sessions_told cs c bc ->
  b !! ck = Some bc -> (forall tk, is_Some (om_map local_key l !! tk) -> c_transactions bc !! tk = None) ->
  exists m, run_broker (transactions_commands h (map snd l)) b = Some (<[ck := with_transactions m bc]> b) /\
    forall tk, m !! tk = if decide (is_Some (om_map local_key l !! tk)) then c_transactions (settle c) !! tk else c_transactions bc !! tk.
Proof.
  intros Hs. revert b bc. induction l as [|[k a] l IH]; intros b bc Ht Hst Hb Hn.
  - exists (c_transactions bc). cbn. split; [by destruct bc; cbn in *; rewrite insert_id|]. intros tk. rewrite om_map_nil, lookup_empty, decide_False; [done|]. by intros [].
  - apply om_sorted_cons in Hs as [Ha Hs]. pose proof (om_map_above k l Ha) as Hk. set (tk := local_key k) in *.
    destruct (Ht tk a) as (x & tx & Hx & Htx & Hr); [rewrite om_map_cons; apply lookup_insert_eq|]. pose proof (settle_transactions _ _ _ Htx) as Hset.
    assert (c_transactions bc !! tk = None) as Hbk by (apply Hn; rewrite om_map_cons, lookup_insert_eq; by eexists).
    set (bc1 := with_transactions (match c_transactions (settle c) !! tk with Some tx => <[tk := tx]> (c_transactions bc) | None => c_transactions bc end) bc).
    assert (run_broker (replayed x) b = Some (<[ck := bc1]> b)) as Hrun.
    { unfold replayed. rewrite (tr_commands _ _ _ _ _ _ _ Hr). destruct (tr_doubt _ _ _ _ _ _ _ Hr) as (cmd & Hl & Hd). rewrite Hl. destruct (in_doubt cmd) as [i|] eqn:Ei.
      - subst bc1. rewrite Hset, (Hd _ eq_refl). cbn. destruct bc. by rewrite insert_id.
      - rewrite (run_transaction _ _ _ _ _ _ _ _ _ Hr Hst Hb Hbk). subst bc1. rewrite Hset. do 2 f_equal. destruct bc. by destruct (tx_request tx). }
    unfold transactions_commands. cbn [map snd concat]. rewrite Hx, run_broker_app, Hrun. cbn [mbind option_bind].
    destruct (IH Hs (<[ck := bc1]> b) bc1) as (m & Em & Hm); [| |apply lookup_insert_eq| |].
    + intros tk' a' Ha'. apply (Ht tk'). rewrite om_map_cons, lookup_insert_ne; [done|]. intros E. change (tk = tk') in E. by rewrite <- E, Hk in Ha'.
    + done.
    + intros tk' Ha'. subst bc1. cbn [c_transactions with_transactions]. assert (tk <> tk') as Hne by (intros <-; destruct Ha'; congruence).
      assert (c_transactions bc !! tk' = None) as E by (apply Hn; by rewrite om_map_cons, lookup_insert_ne). destruct (c_transactions (settle c) !! tk); by rewrite ?lookup_insert_ne.
    + exists m. split; [unfold transactions_commands in Em; by rewrite Em, insert_insert_eq|]. intros tk'. rewrite Hm, om_map_cons.
      destruct (decide (tk' = tk)) as [->|Hne].
      * rewrite decide_False by (rewrite Hk; by intros []). rewrite decide_True by (rewrite lookup_insert_eq; by eexists). subst bc1. cbn [c_transactions with_transactions].
        destruct (c_transactions (settle c) !! tk); [apply lookup_insert_eq|done].
      * rewrite (lookup_insert_ne _ tk tk') by done. case_decide; [done|]. subst bc1. cbn [c_transactions with_transactions].
        destruct (c_transactions (settle c) !! tk); by rewrite ?lookup_insert_ne.
Qed.

(** ** The whole connection *)

Definition connection_commands slows (h : gmap Z TransactionState) cs : list Command :=
  CConnectionInfo (cs_info (reconnected cs)) :: map CDestinationInfo (cs_tempDestinations cs) ++ sessions_commands slows (cs_sessions cs) ++
  transactions_commands h (map snd (cs_transactions cs)).

Lemma sessions_all own h u ck cs c : connection_rel own h u ck cs c ->
  Forall (fun y => session_ok (session_key y.1) y.2 /\ (session_key y.1).1 = ck) (cs_sessions cs).
Proof.
  intros Hc. apply List.Forall_forall. intros [k ss] Hin%list_elem_of_In. pose proof (om_map_elem _ _ _ (cr_ssorted _ _ _ _ _ _ Hc) Hin) as Hss. cbn [fst snd].
  pose proof (session_lookup _ _ _ _ _ _ (session_key k) Hc) as H. rewrite Hss in H. destruct (c_sessions c !! session_key k) as [s|] eqn:Es; [|done].
  split; [|apply (cr_skeys _ _ _ _ _ _ Hc); by eexists]. destruct H. split_and!; try done; [by rewrite sr_info| |].
  - apply List.Forall_forall. intros [p ps] Hp%list_elem_of_In. pose proof (om_map_elem _ _ _ sr_psorted Hp) as Hl. apply (sr_pkeys (producer_key p)). by rewrite <- sr_producers, lookup_fmap, Hl.
  - apply List.Forall_forall. intros [p ps] Hp%list_elem_of_In. pose proof (om_map_elem _ _ _ sr_ksorted Hp) as Hl. apply (sr_kkeys (consumer_key p)). by rewrite <- sr_consumers, lookup_fmap, Hl.
Qed.

(** What a broker has of the sessions that were told it. *)
Lemma sessions_told_ok own h u ck cs c slows bc : connection_rel own h u ck cs c -> c_sessions bc = told_session slows <$> om_map session_key (cs_sessions cs) ->
  sessions_told cs c bc.
Proof.
  intros Hc E. unfold sessions_told, there, has, absent, tracked_producer. rewrite E. split_and!; intros p.
  - rewrite lookup_fmap. pose proof (session_lookup _ _ _ _ _ _ (producer_session p) Hc) as H. intros [s Hs]. rewrite Hs in H. destruct (om_map _ _ !! _); [by eexists|done].
  - rewrite lookup_fmap. destruct (om_map session_key (cs_sessions cs) !! _) as [ss|]; [|by intros []]. cbn. intros [ps Hps]. eexists. split; [done|]. cbn. rewrite lookup_fmap, Hps. by eexists.
  - setoid_rewrite lookup_fmap. destruct (om_map session_key (cs_sessions cs) !! _) as [ss|]; [|done]. cbn. intros Hn s [= <-]. cbn. by rewrite lookup_fmap, Hn.
Qed.

Lemma run_connection slows (own : owners) (h : gmap Z TransactionState) (u : Client) ck cs c (b : Broker) : connection_rel own h u ck cs c -> b !! ck = None ->
  exists bc, run_broker (connection_commands slows h cs) b = Some (<[ck := bc]> b) /\ c_info bc = c_info c /\ c_temporary bc = c_temporary c /\
    c_transactions bc = c_transactions (settle c) /\ c_sessions bc = told_session slows <$> om_map session_key (cs_sessions cs).
Proof.
  intros Hc Hb. unfold connection_commands. set (i := cs_info (reconnected cs)).
  assert (connection_key (cn_connectionId i) = ck) as Hck by apply (cr_key _ _ _ _ _ _ Hc).
  assert (broker_step (CConnectionInfo i) b = Some (<[ck := new_connection i]> b)) as E1.
  { unfold broker_step, step_with. cbn [connection_of]. rewrite Hck, Hb. done. }
  rewrite (run_step _ _ _ _ E1), run_broker_app, (run_temporaries _ _ _ _ (cr_tempkeys _ _ _ _ _ _ Hc) (lookup_insert_eq _ _ _)). cbn [mbind option_bind].
  rewrite insert_insert_eq, run_broker_app, (run_sessions slows ck _ _ _ (cr_ssorted _ _ _ _ _ _ Hc) (sessions_all _ _ _ _ _ _ Hc) (lookup_insert_eq _ _ _)). cbn [mbind option_bind].
  rewrite insert_insert_eq. cbn [c_sessions with_temporary]. rewrite union_total; cycle 1.
  { intros k [s Hs]. cbn [new_connection c_sessions] in Hs. apply lookup_singleton_Some in Hs as [<- _].
    pose proof (session_lookup _ _ _ _ _ _ (ck, -1) Hc) as H. destruct (cr_default _ _ _ _ _ _ Hc) as [s' Hs']. rewrite Hs' in H. rewrite lookup_fmap.
    change (session_key (mkSessionId (ci_value (cn_connectionId i)) (-1))) with (connection_key (cn_connectionId i), -1). rewrite Hck. destruct (om_map _ _ !! _); [by eexists|done]. }
  set (bc := with_sessions _ _). destruct (run_transactions h ck cs c (cs_transactions cs) (<[ck := bc]> b) bc (cr_tsorted _ _ _ _ _ _ Hc)) as (m & Em & Hm).
  - intros tk a Ha. pose proof (connection_transactions _ _ _ _ _ _ tk Hc) as H. rewrite Ha in H. destruct (c_transactions c !! tk) as [tx|]; [|done].
    destruct H as (x & Hx & _ & Hr). by exists x, tx.
  - by eapply (sessions_told_ok _ _ _ _ _ _ slows).
  - apply lookup_insert_eq.
  - done.
  - exists (with_transactions m bc). rewrite Em, insert_insert_eq. split; [done|]. subst bc. cbn. split_and!; try done.
    + by rewrite <- (cr_info _ _ _ _ _ _ Hc).
    + apply (cr_temps _ _ _ _ _ _ Hc).
    + apply map_eq. intros tk. rewrite Hm. case_decide as Hd; [done|]. cbn. rewrite lookup_empty. symmetry. apply map_lookup_filter_None. left.
      pose proof (connection_transactions _ _ _ _ _ _ tk Hc) as H. destruct (om_map _ _ !! tk); [by destruct Hd|]. by destruct (c_transactions c !! tk).
Qed.
