(* ===== verification/FailoverBroker.v ===== *)
(** * What the broker at the other end knows, next to what the client did: every command of
    the client brings both on, and the answers to the client change nothing of it. *)
From stdpp Require Import gmap.
From S2P Require Import Prelude Commands StringUtils OrderedMap TrackedCommands HashMap StateTracker FailoverSpec FailoverSim FailoverTrack Failover FailoverReplay.

(** ** The relation: consumers that [slow] names may have been told to pull *)

Definition consumer_seen (slow : member_name -> Prop) (k : member_name) (bi i : ConsumerInfo) : Prop :=
  bi = i \/ slow k /\ bi = set_prefetchSize 0 i.

Record session_seen (slow : member_name -> Prop) (sk : session_name) (bs s : Session) : Prop := {
  sn_info : s_info bs = s_info s;
  sn_producers : s_producers bs = s_producers s;
  sn_consumers : map_Forall2 (consumer_seen slow) (s_consumers bs) (s_consumers s);
}.

Record connection_seen (slow : member_name -> Prop) (bc c : Connection) : Prop := {
  cn_info : c_info bc = c_info c;
  cn_sessions : map_Forall2 (session_seen slow) (c_sessions bc) (c_sessions c);
  cn_temporary : c_temporary bc = c_temporary c;
  cn_transactions : c_transactions bc = c_transactions (settle c);
}.

Definition broker_seen (slow : connection_name -> member_name -> Prop) (b u : Broker) : Prop :=
  map_Forall2 (fun ck => connection_seen (slow ck)) b u.

(** A consumer that the client has. *)
Definition consumes (u : Broker) (ck : connection_name) (k : member_name) : Prop :=
  exists c sk s, u !! ck = Some c /\ c_sessions c !! sk = Some s /\ is_Some (s_consumers s !! k).

Lemma map_Forall2_right {K A B} `{Countable K} (R : K -> A -> B -> Prop) (m : gmap K A) (m' : gmap K B) k y :
  map_Forall2 R m m' -> m' !! k = Some y -> exists x, m !! k = Some x /\ R k x y.
Proof. intros Hm Hk. specialize (Hm k). rewrite Hk in Hm. inversion Hm; subst. by eexists. Qed.

Lemma map_Forall2_weaken {K A B} `{Countable K} (R R' : K -> A -> B -> Prop) (m : gmap K A) (m' : gmap K B) :
  map_Forall2 R m m' -> (forall k x y, m' !! k = Some y -> R k x y -> R' k x y) -> map_Forall2 R' m m'.
Proof. intros Hm HR k. pose proof (Hm k) as H'. destruct (m' !! k) eqn:E; inversion H'; subst; constructor. by eapply HR. Qed.

(** Consumers that are not there need not be named. *)
Lemma broker_seen_weaken (slow slow' : connection_name -> member_name -> Prop) b u : broker_seen slow b u ->
  (forall ck k, slow ck k -> consumes u ck k -> slow' ck k) -> broker_seen slow' b u.
Proof.
  intros Hb Hs. eapply map_Forall2_weaken; [exact Hb|]. intros ck bc c Hc []. split; try done. eapply map_Forall2_weaken; [done|]. intros sk bs s Hsk [].
  split; try done. eapply map_Forall2_weaken; [done|]. intros k bi i Hi [->|[Hk ->]]; [by left|right]. split; [|done]. apply Hs; [done|]. exists c, sk, s. by split_and!.
Qed.

(** With no such consumer the broker has what the client has. *)
Lemma broker_seen_exact slow b u : broker_seen slow b u -> (forall ck k, slow ck k -> ~ consumes u ck k) -> b = settle <$> u.
Proof.
  intros Hb Hs. apply (broker_seen_weaken _ (fun _ _ => False)) in Hb; [|by intros ck k Hk Hc; eapply Hs].
  apply map_eq. intros ck. rewrite lookup_fmap. destruct (Hb ck) as [bc c []|]; [|done]. cbn. f_equal. destruct bc, c; cbn in *; subst. unfold settle, with_transactions. cbn.
  f_equal. apply map_eq. intros sk. specialize (cn_sessions0 sk). destruct cn_sessions0 as [bs s []|]; [|done]. f_equal. destruct bs, s; cbn in *; subst. f_equal.
  apply map_eq. intros k. specialize (sn_consumers0 k). by destruct sn_consumers0 as [bi i [->|[[] _]]|].
Qed.

(** ** A step of the client is a step of the broker *)

Section step.
Context (slow : member_name -> Prop).

Lemma seen_on_session bc c k f g c' : connection_seen slow bc c -> on_session_of k f c = Some c' ->
  (forall bs s, session_seen slow k bs s -> session_seen slow k (g bs) (f s)) ->
  exists bc', on_session_of k g bc = Some bc' /\ connection_seen slow bc' c'.
Proof.
  intros [] Hc Hf. apply on_session_of_inv in Hc as (s & Hs & ->). destruct (map_Forall2_right _ _ _ _ _ cn_sessions0 Hs) as (bs & Hbs & Hrel).
  unfold on_session_of. rewrite Hbs. eexists. split; [reflexivity|]. split; try done. apply map_Forall2_insert_2; [by apply Hf|done].
Qed.

Lemma seen_has_producer bc c p : connection_seen slow bc c -> has_producer bc p = has_producer c p.
Proof.
  intros []. unfold has_producer. specialize (cn_sessions0 (producer_session p)). destruct cn_sessions0 as [bs s []|]; [|done]. by rewrite sn_producers0.
Qed.

Lemma settle_lookup c tk tx : c_transactions c !! tk = Some tx -> tx_request tx = None -> c_transactions (settle c) !! tk = Some tx.
Proof. intros Htx Hn. apply map_lookup_filter_Some. by split. Qed.

Lemma seen_record bc c tk cmd c' tx : connection_seen slow bc c -> record_in tk cmd c = Some c' -> c_transactions c !! tk = Some tx -> tx_request tx = None ->
  exists bc', record_in tk cmd bc = Some bc' /\ connection_seen slow bc' c'.
Proof.
  intros [] Hc Htx Hn. unfold record_in in *. rewrite Htx in Hc. injection Hc as <-. rewrite cn_transactions0, (settle_lookup _ _ _ Htx Hn). eexists. split; [reflexivity|].
  split; try done. cbn [c_transactions with_transactions settle]. by rewrite map_filter_insert_True.
Qed.

Lemma seen_transaction bc c i c' : connection_seen slow bc c -> transaction_step mark i c = Some c' ->
  (forall t, ti_transactionId i = Local t -> ti_type i <> TRANSACTION_STATE_BEGIN -> match c_transactions c !! local_key (Some t) with Some x => tx_request x = None | None => True end) ->
  exists bc', transaction_step forget i bc = Some bc' /\ connection_seen slow bc' c'.
Proof.
  intros Hb Hc Ha. unfold transaction_step in *. destruct (ti_transactionId i) as [t|]; [|done]. specialize (Ha t eq_refl). cbv zeta in *.
  destruct (Z.eqb_spec (ti_type i) TRANSACTION_STATE_BEGIN) as [Hty|Hty].
  - destruct (c_transactions c !! local_key (Some t)) eqn:E; [done|]. injection Hc as <-. destruct Hb. rewrite cn_transactions0.
    assert (c_transactions (settle c) !! local_key (Some t) = None) as -> by (apply map_lookup_filter_None; by left). eexists. split; [reflexivity|].
    split; try done. cbn [c_transactions with_transactions settle]. by rewrite map_filter_insert_True.
  - specialize (Ha Hty). destruct (_ || _).
    + pose proof Hc as (tx & Htx & _)%record_in_inv. rewrite Htx in Ha. by eapply seen_record.
    + destruct (_ || _); [|done]. destruct (c_transactions c !! local_key (Some t)) as [tx|] eqn:Htx; [|done]. injection Hc as <-. destruct Hb.
      rewrite cn_transactions0, (settle_lookup _ _ _ Htx Ha). eexists. split; [reflexivity|]. split; try done. cbn [c_transactions with_transactions settle forget mark].
      rewrite cn_transactions0, map_filter_insert_False by done. symmetry. apply map_filter_delete.
Qed.

Lemma seen_new i : connection_seen slow (new_connection i) (new_connection i).
Proof.
  split; try done. cbn [new_connection c_sessions]. apply map_Forall2_singleton. split; try done. apply map_Forall2_empty.
Qed.

Lemma seen_live_step bc c cmd u ck oc' : connection_seen slow bc c -> connection_of cmd = Some ck -> live_step mark cmd c = Some oc' -> allowed cmd u (Some c) ->
  exists obc', live_step forget cmd bc = Some obc' /\ option_Forall2 (connection_seen slow) obc' oc'.
Proof.
  intros Hb Hck Hc Ha. destruct cmd; cbn [live_step connection_of] in *; try done.
  - injection Hc as <-. eexists. split; [done|]. constructor. apply seen_new.
  - injection Hc as <-. eexists. split; [done|]. constructor. destruct Hb. split; try done. apply map_Forall2_insert_2; [|done]. split; try done. apply map_Forall2_empty.
  - destruct (on_session_of _ _ c) as [c'|] eqn:E; [|done]. injection Hc as <-.
    destruct (seen_on_session _ _ _ _ (fun s => with_producers (<[producer_key (pi_producerId i) := i]> (s_producers s)) s) _ Hb E) as (bc' & -> & Hs);
      [|eexists; split; [done|by constructor]]. intros bs s []. split; cbn; try done. by rewrite sn_producers0.
  - destruct (on_session_of _ _ c) as [c'|] eqn:E; [|done]. injection Hc as <-.
    destruct (seen_on_session _ _ _ _ (fun s => with_consumers (<[consumer_key (ki_consumerId i) := i]> (s_consumers s)) s) _ Hb E) as (bc' & -> & Hs);
      [|eexists; split; [done|by constructor]]. intros bs s []. split; cbn; try done. apply map_Forall2_insert_2; [by left|done].
  - injection Hc as <-. eexists. split; [done|]. constructor. destruct Hb. split; try done. cbn. by rewrite cn_temporary0.
  - destruct (objectId i) as [id|id|id|id|]; cbn [remove_step] in *; [by injection Hc as <-; eexists; split; [done|constructor]| | | |done].
    + injection Hc as <-. eexists. split; [done|]. constructor. destruct Hb. split; try done. by apply map_Forall2_delete.
    + destruct (on_session_of _ _ c) as [c'|] eqn:E; [|done]. injection Hc as <-.
      destruct (seen_on_session _ _ _ _ (fun s => with_producers (delete (producer_key id) (s_producers s)) s) _ Hb E) as (bc' & -> & Hs);
        [|eexists; split; [done|by constructor]]. intros bs s []. split; cbn; try done. by rewrite sn_producers0.
    + destruct (on_session_of _ _ c) as [c'|] eqn:E; [|done]. injection Hc as <-.
      destruct (seen_on_session _ _ _ _ (fun s => with_consumers (delete (consumer_key id) (s_consumers s)) s) _ Hb E) as (bc' & -> & Hs);
        [|eexists; split; [done|by constructor]]. intros bs s []. split; cbn; try done. by apply map_Forall2_delete.
  - destruct (transaction_step mark i c) as [c'|] eqn:E; [|done]. injection Hc as <-.
    destruct (seen_transaction _ _ _ _ Hb E) as (bc' & -> & Hs); [|eexists; split; [done|by constructor]].
    intros t Ht Hty. cbn [allowed] in Ha. rewrite Ht in Ha. destruct (ti_connectionId i); [|done]. apply Z.eqb_neq in Hty. by rewrite Hty in Ha.
  - destruct (me_transactionId m) as [[t|]|] eqn:Em; [|done..]. unfold message_step in *. rewrite (seen_has_producer _ _ _ Hb).
    destruct (has_producer c (producer_key (me_producerId m))); [|done]. destruct (record_in _ _ c) as [c'|] eqn:E; [|done]. injection Hc as <-.
    pose proof E as (tx & Htx & _)%record_in_inv. cbn [allowed] in Ha. rewrite Em in Ha. pose proof (Ha _ _ Htx) as Hn. cbn beta in Hn. rewrite bool_decide_true in Hn by done.
    apply bool_decide_eq_true in Hn. destruct (seen_record _ _ _ _ _ _ Hb E Htx Hn) as (bc' & -> & Hs). eexists. split; [done|by constructor].
Qed.
End step.

Lemma step_with_none fin cmd b b' : connection_of cmd = None -> step_with fin cmd b = Some b' -> b' = b /\ forall fin' x, step_with fin' cmd x = Some x.
Proof. intros Hn. unfold step_with. rewrite Hn. destruct cmd; try done; by intros [= ->]. Qed.

Lemma seen_lookup slow b u ck c : broker_seen slow b u -> u !! ck = Some c -> exists bc, b !! ck = Some bc /\ connection_seen (slow ck) bc c.
Proof. apply (map_Forall2_right (fun ck => connection_seen (slow ck))). Qed.

Lemma seen_step slow b u u' cmd : broker_seen slow b (live u) -> client_step cmd u = Some u' ->
  exists b', broker_step cmd b = Some b' /\ broker_seen slow b' (live u').
Proof.
  intros Hb (Ha & _ & b1 & Hs & ->)%client_step_inv. cbn [live with_live]. unfold broker_step. destruct (connection_of cmd) as [ck|] eqn:Hck.
  - destruct (step_with_inv _ _ _ _ _ Hck Hs) as (oc & Hoc & ->). cbn [mbind option_bind] in Ha.
    assert (exists obc, connection_step forget cmd (b !! ck) = Some obc /\ option_Forall2 (connection_seen (slow ck)) obc oc) as (obc & Hobc & Hrel).
    { destruct (live u !! ck) as [c|] eqn:El.
      - destruct (seen_lookup _ _ _ _ _ Hb El) as (bc & -> & Hbc). by eapply seen_live_step.
      - pose proof (Hb ck) as Hn. rewrite El in Hn. inversion Hn as [|E1 E2]. destruct cmd; cbn [connection_step] in *; try done.
        + injection Hoc as <-. eexists. split; [done|]. constructor. apply seen_new.
        + destruct (objectId i); try done. injection Hoc as <-. eexists. split; [done|]. constructor. }
    unfold step_with. rewrite Hck, Hobc. eexists. split; [reflexivity|]. destruct Hrel; [by apply map_Forall2_insert_2|by apply map_Forall2_delete].
  - destruct (step_with_none _ _ _ _ Hck Hs) as [-> Hall]. exists b. split; [apply Hall|done].
Qed.

(** ** Commands that tell a broker nothing to keep *)

Definition inert (cmd : Command) : bool := untracked cmd && match cmd with CConsumerControl _ => false | _ => true end.

Lemma inert_step cmd b : inert cmd = true -> broker_step cmd b = Some b.
Proof. unfold inert, broker_step, step_with. destruct cmd; try done. cbn. by destruct (me_transactionId m). Qed.

Lemma inert_run l b : Forall (fun cmd => inert cmd = true) l -> run_broker l b = Some b.
Proof. induction 1 as [|cmd l Hc _ IH]; [done|]. cbn [run_broker]. by rewrite (inert_step _ _ Hc). Qed.

(** ** Answers *)

Lemma settle_answered id c : settle (answered id c) = settle c.
Proof.
  unfold settle, answered. destruct c. unfold with_transactions. cbn. f_equal. rewrite map_filter_filter. apply map_filter_ext. intros tk tx _. cbn. split; [tauto|]. intros E. rewrite E. done.
Qed.

Lemma seen_answer slow b u id : broker_seen slow b (live u) -> broker_seen slow b (live (client_answer id u)).
Proof.
  intros Hb ck. specialize (Hb ck). cbn [live client_answer with_live]. rewrite lookup_fmap. destruct Hb as [bc c []|]; constructor. split; try done.
  by rewrite settle_answered.
Qed.

Lemma quiet_answered id k c : quiet k c -> quiet k (answered id c).
Proof. intros Hq tk tx [Htx _]%map_lookup_filter_Some. by eapply Hq. Qed.

Lemma answered_lookup id c tk : c_transactions (answered id c) !! tk = tx ← c_transactions c !! tk; if decide (tx_request tx = Some id) then None else Some tx.
Proof.
  cbn [answered c_transactions with_transactions]. rewrite map_lookup_filter. destruct (c_transactions c !! tk) as [tx|]; [|done]. cbn.
  destruct (decide (tx_request tx = Some id)); [by rewrite option_guard_False by naive_solver|by rewrite option_guard_True].
Qed.

Lemma allowed_answered id cmd u oc : allowed cmd u oc -> allowed cmd (client_answer id u) (answered id <$> oc).
Proof.
  destruct cmd, oc as [con|]; cbn [allowed fmap option_fmap option_map]; try done.
  - apply quiet_answered.
  - destruct (objectId i); try done; [|intros [? ?]; split; [by apply quiet_answered|done]]. intros Hn tk tx [Htx _]%map_lookup_filter_Some. by eapply Hn.
  - destruct (ti_transactionId i), (ti_connectionId i); try done. destruct (ti_type i =? TRANSACTION_STATE_BEGIN); [done|]. rewrite answered_lookup.
    destruct (c_transactions con !! _); [|done]. cbn. by case_decide.
  - destruct (me_transactionId m) as [[t|]|]; try done. intros Hn tk tx [Htx _]%map_lookup_filter_Some. by apply Hn in Htx.
Qed.

Lemma record_in_answered id tk cmd c c' : record_in tk cmd c = Some c' -> (forall tx, c_transactions c !! tk = Some tx -> tx_request tx = None) ->
  record_in tk cmd (answered id c) = Some (answered id c').
Proof.
  intros (tx & Htx & ->)%record_in_inv Hn. specialize (Hn _ Htx). unfold record_in. rewrite answered_lookup, Htx. cbn. rewrite decide_False by congruence. cbn.
  unfold answered, with_transactions. cbn. by rewrite map_filter_insert_True by (cbn; congruence).
Qed.

Lemma live_step_answered id cmd u ck c oc : connection_of cmd = Some ck -> live_step mark cmd c = Some oc -> allowed cmd u (Some c) -> id <> getCommandId cmd ->
  live_step mark cmd (answered id c) = Some (answered id <$> oc).
Proof.
  intros Hck Hc Ha Hid. destruct cmd; cbn [live_step connection_of] in *; try done.
  - injection Hc as <-. cbn. unfold answered, new_connection, with_transactions. cbn. by rewrite map_filter_empty.
  - by injection Hc as <-.
  - unfold on_session_of in *. cbn [answered c_sessions with_transactions]. destruct (c_sessions c !! _); [|done]. cbn in *. by injection Hc as <-.
  - unfold on_session_of in *. cbn [answered c_sessions with_transactions]. destruct (c_sessions c !! _); [|done]. cbn in *. by injection Hc as <-.
  - by injection Hc as <-.
  - unfold remove_step, on_session_of in *. destruct (objectId i) as [k|k|k|k|]; [by injection Hc as <-|by injection Hc as <-| | |done];
      cbn [answered c_sessions with_transactions]; (destruct (c_sessions c !! _); [|done]); cbn in *; by injection Hc as <-.
  - cbn [allowed] in Ha. unfold transaction_step in *. destruct (ti_transactionId i) as [t|]; [|done]. destruct (ti_connectionId i) as [cid|]; [|done]. cbv zeta in *.
    destruct (ti_type i =? TRANSACTION_STATE_BEGIN).
    + rewrite answered_lookup. destruct (c_transactions c !! local_key (Some t)); [done|]. injection Hc as <-. cbn. unfold answered, with_transactions. cbn.
      by rewrite map_filter_insert_True.
    + destruct (_ || _).
      * destruct (record_in _ _ c) as [c'|] eqn:E; [|done]. injection Hc as <-. erewrite record_in_answered; [done|exact E|]. intros tx Htx. by rewrite Htx in Ha.
      * destruct (_ || _); [|done]. rewrite answered_lookup. destruct (c_transactions c !! local_key (Some t)) as [tx|]; [|done]. injection Hc as <-. cbn.
        rewrite decide_False by congruence. cbn. unfold answered, mark, with_transactions. cbn. rewrite map_filter_insert_True; [done|]. cbn. intros [= <-]. by apply Hid.
  - destruct (me_transactionId m) as [[t|]|] eqn:Em; [|done..]. unfold message_step in *. change (has_producer (answered id c) ?p) with (has_producer c p).
    destruct (has_producer c (producer_key (me_producerId m))); [|done]. destruct (record_in _ _ c) as [c'|] eqn:E; [|done]. injection Hc as <-.
    erewrite record_in_answered; [done|exact E|]. intros tx Htx. cbn [allowed] in Ha. rewrite Em in Ha. pose proof (Ha _ _ Htx) as Hn. cbn beta in Hn.
    rewrite bool_decide_true in Hn by done. by apply bool_decide_eq_true in Hn.
Qed.

Lemma client_step_answer id cmd u u' : client_step cmd u = Some u' -> id <> getCommandId cmd ->
  client_step cmd (client_answer id u) = Some (client_answer id u').
Proof.
  intros H Hid. pose proof H as (Ha & Hi & b & Hs & ->)%client_step_inv. unfold client_step. change (used_ids (client_answer id u)) with (used_ids u).
  assert ((n ← connection_of cmd; live (client_answer id u) !! n) = answered id <$> (n ← connection_of cmd; live u !! n)) as ->.
  { destruct (connection_of cmd); [|done]. cbn. by rewrite lookup_fmap. }
  rewrite decide_True by (split; [by apply allowed_answered|done]). cbn [live client_answer with_live].
  assert (step_with mark cmd (answered id <$> live u) = Some (answered id <$> b)) as ->.
  { destruct (connection_of cmd) as [ck|] eqn:Hck.
    - destruct (step_with_inv _ _ _ _ _ Hck Hs) as (oc & Hoc & ->). unfold step_with. rewrite Hck, lookup_fmap. cbn [mbind option_bind] in Ha.
      assert (connection_step mark cmd (answered id <$> live u !! ck) = Some (answered id <$> oc)) as ->.
      { destruct (live u !! ck) as [c|]; cbn [fmap option_fmap option_map connection_step] in *; [by eapply live_step_answered|].
        destruct cmd; try done; cbn in *.
        - injection Hoc as <-. cbn. unfold answered, new_connection, with_transactions. cbn. by rewrite map_filter_empty.
        - destruct (objectId i); try done. by injection Hoc as <-. }
      cbn. destruct oc as [c|]; cbn; [by rewrite fmap_insert|by rewrite fmap_delete].
    - destruct (step_with_none _ _ _ _ Hck Hs) as [-> Hall]. apply Hall. }
  cbn. f_equal. unfold client_answer, with_live. cbn. destruct cmd; try done. cbn. repeat case_match; done.
Qed.

(** ** Who is recovering *)

Definition recovers (t : Tracker) (ck : connection_name) (k : member_name) : Prop :=
  exists cs, om_map connection_key (connectionStates t) !! ck = Some cs /\ is_Some (om_map consumer_key (cs_recoveringPullConsumers cs) !! k).

Definition recovering_are (R : gmap connection_name (list (ConsumerId * ConsumerInfo))) (t : Tracker) : Prop :=
  om_sorted connection_less (connectionStates t) /\ cs_recoveringPullConsumers <$> om_map connection_key (connectionStates t) = R.

Lemma recovers_are R t ck k : recovering_are R t -> recovers t ck k <-> exists l, R !! ck = Some l /\ is_Some (om_map consumer_key l !! k).
Proof.
  intros [_ <-]. unfold recovers. setoid_rewrite lookup_fmap. destruct (om_map connection_key (connectionStates t) !! ck) as [cs|]; cbn; split.
  - intros (cs' & [= <-] & Hk). by eexists.
  - intros (l & [= <-] & Hk). by eexists.
  - by intros (cs' & ? & _).
  - by intros (l & ? & _).
Qed.

Section recovering.
Context (R : gmap connection_name (list (ConsumerId * ConsumerInfo))).
Abbreviation P := (recovering_are R).

Lemma keeps_connection {A} id (k : ConnectionState -> M Tracker A) :
  (forall cs, R !! connection_key id = Some (cs_recoveringPullConsumers cs) -> keeps P (k cs)) -> keeps P (bind (connection id) k).
Proof.
  intros Hk t Ht. pose proof Ht as [Hs Hm]. unfold connection. rewrite bind_assoc, bind_get. unfold get_from. rewrite (om_find_ok _ _ Hs).
  destruct (om_map connection_key (connectionStates t) !! connection_key id) as [cs|] eqn:E; [|done]. apply Hk; [|done]. by rewrite <- Hm, lookup_fmap, E.
Qed.

Lemma keeps_set_connection id cs : R !! connection_key id = Some (cs_recoveringPullConsumers cs) -> keeps P (set_connection id cs).
Proof.
  intros Hl t [Hs Hm]. destruct (om_set_ok id cs _ Hs) as [Hs' Hm']. split; [done|]. cbn [set_connection modify fst snd connectionStates set_connectionStates].
  rewrite Hm', fmap_insert, Hm. by apply insert_id.
Qed.

Lemma keeps_on_transaction a f : keeps P (on_transaction a f).
Proof. intros t Ht. unfold on_transaction. by destruct (heap t !! a). Qed.

Lemma keeps_messageCache_put key m : keeps P (messageCache_put key m).
Proof. intros t Ht. unfold messageCache_put. repeat case_match; done. Qed.

Lemma keeps_messagePullCache_put key p : keeps P (messagePullCache_put key p).
Proof. intros t Ht. unfold messagePullCache_put. by destruct (lhm_put _ _ _ _ _). Qed.

Lemma keeps_heap f : (forall t, connectionStates (f t) = connectionStates t) -> keeps P (modify f).
Proof. intros Hf. apply keeps_modify. intros t Ht. unfold recovering_are. by rewrite Hf. Qed.

Lemma keeps_get_from {K V} less (key : K) (m : list (K * V)) : keeps P (get_from less key m).
Proof. unfold get_from. destruct (om_find _ _ _); keeps. Qed.

Lemma keeps_null {A} b (m : M Tracker A) : keeps P m -> keeps P (if b : bool then undefined else m).
Proof. intros Hm. destruct b; [apply keeps_undefined|done]. Qed.

Lemma keeps_addTransactionState {A} id cs (k : ConnectionState -> M Tracker A) :
  (forall cs', cs_recoveringPullConsumers cs' = cs_recoveringPullConsumers cs -> keeps P (k cs')) -> keeps P (bind (addTransactionState id cs) k).
Proof.
  intros Hk t Ht. unfold addTransactionState. destruct (null_compared _ _); [done|]. rewrite bind_assoc, bind_get, bind_assoc, bind_modify. by apply Hk.
Qed.

Lemma keeps_removeTransactionState {A} id cs (k : option Z * ConnectionState -> M Tracker A) :
  (forall r, cs_recoveringPullConsumers r.2 = cs_recoveringPullConsumers cs -> keeps P (k r)) -> keeps P (bind (removeTransactionState id cs) k).
Proof. intros Hk t Ht. unfold removeTransactionState. destruct (null_compared _ _); [done|]. by apply Hk. Qed.

Ltac kept := repeat first
  [ progress intros
  | apply keeps_connection | apply keeps_addTransactionState | apply keeps_removeTransactionState
  | apply keeps_on_transaction | apply keeps_messageCache_put | apply keeps_messagePullCache_put | apply keeps_get_from
  | apply keeps_set_connection; solve [assumption|congruence]
  | apply keeps_null | apply keeps_bind
  | match goal with |- keeps _ (if ?b then _ else _) => destruct b eqn:? end
  | match goal with |- keeps _ (match ?x with _ => _ end) => destruct x eqn:? end
  | solve [auto with keeps nocore] ].

(** The recovering consumers of a connection stay, but for one that is removed. *)
Definition forgets (cmd : Command) : bool :=
  match cmd with
  | CConnectionInfo _ => true
  | CRemoveInfo i => match objectId i with ConnectionObject _ | ConsumerObject _ => true | _ => false end
  | _ => false
  end.

Lemma keeps_on_session id f : (forall ss, keeps P (f ss)) -> keeps P (on_session id f).
Proof. intros Hf. unfold on_session, getSessionState. kept. Qed.

Lemma keeps_visit cmd : forgets cmd = false -> keeps P (visit cmd).
Proof.
  intros Hf. destruct cmd; try done; cbn [visit forgets] in *; try apply keeps_ret; apply keeps_rethrow.
  - unfold processSessionInfo. kept.
  - apply keeps_bind; [|intros; apply keeps_ret]. apply keeps_on_session. kept.
  - apply keeps_bind; [|intros; apply keeps_ret]. apply keeps_on_session. kept.
  - unfold processDestinationInfo. kept.
  - unfold processRemoveInfo. destruct (objectId i); try done; [unfold processRemoveSession; kept| |kept].
    apply keeps_bind; [|intros; apply keeps_ret]. apply keeps_on_session. unfold removeProducer. kept.
  - unfold processTransactionInfo, processBeginTransaction, processEndTransaction, processCommitTransactionTwoPhase, processRollbackTransaction,
      processCommitTransactionOnePhase, processPrepareTransaction, getTransactionState. kept.
  - unfold processMessage, getTransactionState, getSessionState. kept.
  - unfold processMessagePull. kept.
Qed.

Lemma keeps_onResponse i : keeps P (onResponse i).
Proof. apply keeps_rethrow. unfold RemoveTransactionAction_run. kept. Qed.

Lemma keeps_trackBack cmd : keeps P (trackBack cmd).
Proof. unfold trackBack. kept. by apply keeps_modify. Qed.

Lemma keeps_transportInterrupted : keeps P transportInterrupted.
Proof.
  apply keeps_modify. intros t [Hs <-]. split; cbn [connectionStates set_connectionStates].
  - by apply (om_sorted_fmap connection_less (fun c => set_recovering false (cs_recoveringPullConsumers c) c)).
  - change (map _ _) with (map (fun p => (p.1, set_recovering false (cs_recoveringPullConsumers p.2) p.2)) (connectionStates t)).
    pose proof (om_map_fmap connection_key (fun c => set_recovering false (cs_recoveringPullConsumers c) c) (connectionStates t)) as E. cbn beta in E. rewrite E, <- map_fmap_compose. done.
Qed.
End recovering.

Lemma rethrow_inv {S A} keep to (m : M S A) s a s' : rethrow keep to m s = (Ok a, s') -> m s = (Ok a, s').
Proof. unfold rethrow. destruct (m s) as [[]]; congruence. Qed.

Lemma bind_inv {S A B} (m : M S A) (k : A -> M S B) s b s' : bind m k s = (Ok b, s') -> exists a s1, m s = (Ok a, s1) /\ k a s1 = (Ok b, s').
Proof. unfold bind. destruct (m s) as [[a| | |] s1]; try done. intros H. by exists a, s1. Qed.

(** A consumer is in its own session. *)
Lemma consumes_session own n t u ck k : tracker_rel own n t u -> consumes (live u) ck k ->
  exists c s, live u !! ck = Some c /\ c_sessions c !! consumer_session k = Some s /\ is_Some (s_consumers s !! k).
Proof.
  intros Ht (c & sk & s & Hc & Hs & [i Hk]). pose proof (connection_lookup _ _ _ _ ck Ht) as H. rewrite Hc in H. destruct (om_map _ _ !! ck) as [cs|]; [|done].
  pose proof (session_lookup _ _ _ _ _ _ sk H) as H'. rewrite Hs in H'. destruct (om_map _ _ !! sk) as [ss|]; [|done].
  destruct (sr_kkeys _ _ _ H' _ _ Hk) as [_ <-]. exists c, s. by split_and!.
Qed.

Lemma recovers_put t id cs ck k : om_sorted connection_less (connectionStates t) ->
  recovers (set_connectionStates (om_set connection_less id cs (connectionStates t)) t) ck k <->
  if decide (ck = connection_key id) then is_Some (om_map consumer_key (cs_recoveringPullConsumers cs) !! k) else recovers t ck k.
Proof.
  intros Hs. unfold recovers. cbn [connectionStates set_connectionStates]. rewrite (proj2 (om_set_ok id cs _ Hs)). case_decide as Hk.
  - subst ck. rewrite lookup_insert_eq. split; [by intros (? & [= <-] & ?)|by intros ?; eexists].
  - by rewrite lookup_insert_ne.
Qed.

Lemma recovers_track own own' n n' t t' u u' cmd r ck k : tracker_rel own n t u -> client_step cmd u = Some u' -> track cmd t = (Ok r, t') ->
  tracker_rel own' n' t' u' -> recovers t ck k -> consumes (live u') ck k -> recovers t' ck k.
Proof.
  intros Ht Hstep Etr Ht' Hr Hc. pose proof (tk_sorted _ _ _ _ Ht) as Hsort.
  assert (visit cmd t = (Ok r, t')) as Ev by by apply rethrow_inv in Etr. clear Etr.
  pose (R := cs_recoveringPullConsumers <$> om_map connection_key (connectionStates t)). assert (recovering_are R t) as HR by done.
  destruct (forgets cmd) eqn:Ef.
  2: { pose proof (keeps_visit R cmd Ef t HR) as HR'. rewrite Ev in HR'. apply (recovers_are _ _ _ _ HR'). by apply (recovers_are _ _ _ _ HR). }
  apply client_step_inv in Hstep as (Ha & _ & b & Hs & ->). destruct cmd; try done; cbn [forgets] in Ef.
  - cbn [visit] in Ev. injection Ev as <- <-. apply (recovers_put _ _ _ _ _ Hsort). case_decide as E; [|done]. exfalso. subst ck.
    destruct Hc as (c & sk & s & Hc & Hsk & Hk). apply (step_with_inv _ _ _ _ (connection_key (cn_connectionId i))) in Hs as (oc & Hoc & ->); [|done].
    assert (oc = Some (new_connection i)) as -> by (unfold connection_step in Hoc; destruct (live u !! _); cbn in Hoc; by injection Hoc as <-).
    cbn [live with_live] in Hc. rewrite lookup_insert_eq in Hc. injection Hc as <-. cbn in Hsk. apply lookup_singleton_Some in Hsk as [_ <-]. cbn in Hk. by rewrite lookup_empty in Hk; destruct Hk.
  - destruct (objectId i) as [id|id|id|id|] eqn:Ei; try done.
    + assert (live (with_live b (note_use (CRemoveInfo i) u)) !! connection_key id = None) as Hn.
      { apply (step_with_inv _ _ _ _ (connection_key id)) in Hs as (oc & Hoc & ->); [|by cbn; rewrite Ei]. unfold connection_step in Hoc. cbn in Hoc. rewrite Ei in Hoc.
        destruct (live u !! connection_key id); cbn in Hoc; injection Hoc as <-; apply lookup_delete_eq. }
      cbn [visit] in Ev. unfold processRemoveInfo, processRemoveConnection in Ev. rewrite Ei in Ev. injection Ev as <- <-. destruct Hr as (cs & Hcs & Hk).
      exists cs. split; [|done]. cbn [connectionStates set_connectionStates]. rewrite (proj2 (om_remove_ok id _ Hsort)), lookup_delete_ne; [done|]. intros <-.
      destruct Hc as (c & sk & s & Hc & _). congruence.
    + cbn [visit] in Ev. unfold processRemoveInfo in Ev. rewrite Ei in Ev. apply rethrow_inv in Ev. 
      apply bind_inv in Ev as ([] & t1 & E1 & Ev). pose proof (keeps_on_session R (consumer_parent id) (fun ss => ret (removeConsumer id ss)) (fun ss => keeps_ret _ _) t HR) as HR1.
      rewrite E1 in HR1. pose proof HR1 as [Hs1 _]. cbn [snd] in *. cbv zeta in Ev. apply bind_inv in Ev as (cs & t2 & E2 & Ev).
      assert (t2 = t1 /\ om_map connection_key (connectionStates t1) !! connection_key (session_parent (consumer_parent id)) = Some cs) as [-> Hcs].
      { unfold connection, get_from in E2. rewrite bind_get, (om_find_ok _ _ Hs1) in E2. destruct (_ !! _); [|done]. by injection E2 as -> ->. }
      injection Ev as <- <-. apply (recovers_put _ _ _ _ _ Hs1). assert (recovers t1 ck k) as Hr1 by by apply (recovers_are _ _ _ _ HR1), (recovers_are _ _ _ _ HR).
      case_decide as Eck; [|done]. subst ck. destruct Hr1 as (cs1 & Hcs1 & Hk). rewrite Hcs in Hcs1. injection Hcs1 as <-. cbn [cs_recoveringPullConsumers set_recovering].
      destruct (decide (k = consumer_key id)) as [->|Hne].
      * exfalso. destruct (consumes_session _ _ _ _ _ _ Ht' Hc) as (c & s & Hl & Hss & Hks).
        assert (connection_of (CRemoveInfo i) = Some (connection_key (session_parent (consumer_parent id)))) as Hof by (cbn; by rewrite Ei).
        destruct (step_with_inv _ _ _ _ _ Hof Hs) as (oc & Hoc & Eb). subst b.
        cbn [live with_live] in Hl. destruct (live u !! connection_key _) as [c0|]; [|by cbn in Hoc; rewrite Ei in Hoc]. cbn [connection_step live_step] in Hoc. rewrite Ei in Hoc.
        cbn [remove_step] in Hoc. destruct (on_session_of _ _ c0) as [c1|] eqn:Eo; [|done]. injection Hoc as <-. rewrite lookup_insert_eq in Hl. injection Hl as <-.
        apply on_session_of_inv in Eo as (s0 & Es0 & ->). change (consumer_session (consumer_key id)) with (session_key (consumer_parent id)) in Hss.
        cbn in Hss. rewrite lookup_insert_eq in Hss. injection Hss as <-. cbn in Hks. rewrite lookup_delete_eq in Hks. by destruct Hks.
      * assert (om_sorted consumer_less (cs_recoveringPullConsumers cs)) as Hrs.
        { pose proof (proj2 HR1) as E. rewrite <- (proj2 HR) in E. apply (f_equal (lookup (connection_key (session_parent (consumer_parent id))))) in E.
          rewrite !lookup_fmap, Hcs in E. pose proof (connection_lookup _ _ _ _ (connection_key (session_parent (consumer_parent id))) Ht) as Hl.
          destruct (om_map connection_key (connectionStates t) !! _) as [cs0|]; [|done]. destruct (live u !! _); [|done]. injection E as ->. apply (cr_rsorted _ _ _ _ _ _ Hl). }
        by rewrite (proj2 (om_remove_ok id _ Hrs)), lookup_delete_ne.
Qed.

(** What a broker was told of a connection is what the client has, but for the consumers that
    were told to pull. *)
Lemma told_seen own h u ck cs c bc slows (slow : member_name -> Prop) : connection_rel own h u ck cs c ->
  c_info bc = c_info c -> c_temporary bc = c_temporary c -> c_transactions bc = c_transactions (settle c) ->
  c_sessions bc = told_session slows <$> om_map session_key (cs_sessions cs) ->
  (forall sk ss k i, om_map session_key (cs_sessions cs) !! sk = Some ss -> om_map consumer_key (ss_consumers ss) !! k = Some i ->
     slows && (0 <? prefetchSize (ks_info i)) = true -> slow k) ->
  connection_seen slow bc c.
Proof.
  intros Hc E1 E2 E3 E4 Hslow. split; try done. rewrite E4. intros sk. rewrite lookup_fmap. pose proof (session_lookup _ _ _ _ _ _ sk Hc) as H.
  destruct (om_map session_key (cs_sessions cs) !! sk) as [ss|] eqn:Ess, (c_sessions c !! sk) as [s|]; try done; [|constructor]. constructor. destruct H. split; [done|done|].
  intros k. cbn [told_session s_consumers]. unfold told_consumers. rewrite <- sr_consumers, !lookup_fmap. destruct (om_map consumer_key (ss_consumers ss) !! k) as [i|] eqn:Ei; [|constructor].
  cbn. constructor. unfold told_prefetch. destruct (slows && (0 <? prefetchSize (ks_info i))) eqn:E; [right|by left]. split; [|done]. by eapply Hslow.
Qed.
