(* ===== verification/FailoverRestore.v ===== *)
(** * Restoring a connection: a new broker is brought to what the last one knew, or the
    attempt fails and nothing is lost.

    [runs] is what a computation that throws nothing but IOException ends in. *)
From stdpp Require Import gmap.
From S2P Require Import Prelude Commands StringUtils OrderedMap TrackedCommands URIPool HashMap StateTracker FailoverSpec FailoverSim FailoverTrack Failover FailoverReplay FailoverBroker.

(** ** Computations that end, well or in IOException *)

Definition runs {S A} (m : M S A) (Q : A -> S -> Prop) (E : S -> Prop) (s : S) : Prop :=
  match m s with (Ok a, s') => Q a s' | (Throw e, s') => e = IOException /\ E s' | _ => False end.

Section runs.
Context {S : Type}.
Implicit Types (E : S -> Prop).

Lemma runs_ret {A} (a : A) Q E s : Q a s -> runs (ret a) Q E s.
Proof. done. Qed.

Lemma runs_bind {A B} (m : M S A) (k : A -> M S B) (Q : B -> S -> Prop) E s : runs m (fun a s' => runs (k a) Q E s') E s -> runs (bind m k) Q E s.
Proof. unfold runs, bind. by destruct (m s) as [[a|e| |] s']. Qed.

Lemma runs_bind_get {B} (k : S -> M S B) (Q : B -> S -> Prop) E s : runs (k s) Q E s -> runs (bind get k) Q E s.
Proof. done. Qed.

Lemma runs_mono {A} (m : M S A) (Q Q' : A -> S -> Prop) E E' s : runs m Q E s -> (forall a s', Q a s' -> Q' a s') -> (forall s', E s' -> E' s') -> runs m Q' E' s.
Proof. unfold runs. destruct (m s) as [[a|e| |] s']; intros H HQ HE; [by apply HQ|destruct H; split; [done|by apply HE]|done..]. Qed.

Lemma runs_ok {A} (m : M S A) (Q : A -> S -> Prop) E s a s' : m s = (Ok a, s') -> Q a s' -> runs m Q E s.
Proof. unfold runs. by intros ->. Qed.

Lemma runs_catch_io {A} (m : M S A) (Q : A -> S -> Prop) E s : runs m Q E s -> runs (catch_io m) Q E s.
Proof. unfold runs, catch_io, rethrow. destruct (m s) as [[a|e| |] s']; try done. intros [-> H]. cbn. by split. Qed.

(** A loop, by an invariant of what is done and what is left. *)
Lemma runs_iter {A} (f : A -> M S unit) (I : list A -> list A -> S -> Prop) E l s : I [] l s ->
  (forall done x rest s, l = done ++ x :: rest -> I done (x :: rest) s -> runs (f x) (fun _ s' => I (done ++ [x]) rest s') E s) ->
  runs (iter_m f l) (fun _ s' => I l [] s') E s.
Proof.
  intros H0 Hf. assert (forall d r s, l = d ++ r -> I d r s -> runs (iter_m f r) (fun _ s' => I l [] s') E s) as H; [|by apply (H [] l)].
  clear s H0. intros d r. revert d. induction r as [|x r IH]; intros d s El Hi; [rewrite app_nil_r in El; by subst|]. cbn [iter_m]. apply runs_bind.
  eapply runs_mono; [by apply Hf| |done]. intros [] s' Hs'. apply (IH (d ++ [x])); [by rewrite <- app_assoc|done].
Qed.
End runs.

(** ** What the listener is told is what the client knows of its answers *)

Definition hear1 (u : Client) (n : Notice) : Client :=
  match n with ACommand (OnResponse id) | ACommand (OnRolledBack id _) => client_answer id u | _ => u end.
Definition hear (ns : list Notice) (u : Client) : Client := foldl hear1 u ns.

Definition about_used (u : Client) (n : Notice) : Prop :=
  match n with ACommand (OnResponse id) | ACommand (OnRolledBack id _) => id ∈ used_ids u | _ => True end.

Lemma hear1_used n u : used_ids (hear1 u n) = used_ids u.
Proof. by destruct n as [[]| | |]. Qed.
Lemma hear_used ns u : used_ids (hear ns u) = used_ids u.
Proof. revert u. induction ns as [|n ns IH]; intros u; [done|]. cbn. rewrite <- (hear1_used n u). apply IH. Qed.

(** From [s0] to [s] the client learned what makes its state [u] of [u0]. *)
Definition told (s0 : Failover) (u0 : Client) (s : Failover) (u : Client) : Prop :=
  exists ns, notices s = notices s0 ++ ns /\ Forall (about_used u0) ns /\ u = hear ns u0.

Lemma told_refl s u : told s u s u.
Proof. exists []. by rewrite app_nil_r. Qed.

Lemma told_trans s0 u0 s1 u1 s2 u2 : told s0 u0 s1 u1 -> told s1 u1 s2 u2 -> told s0 u0 s2 u2.
Proof.
  intros (n1 & E1 & F1 & ->) (n2 & E2 & F2 & ->). exists (n1 ++ n2). split_and!; [by rewrite E2, E1, app_assoc| |by unfold hear; rewrite foldl_app].
  apply List.Forall_app. split; [done|]. eapply Forall_impl; [|exact F2]. intros [[]| | |]; cbn; by rewrite ?hear_used.
Qed.

Lemma told_step s u s' n : notices s' = notices s ++ [n] -> about_used u n -> told s u s' (hear1 u n).
Proof. intros E Hu. exists [n]. split_and!; [done|by constructor|done]. Qed.

Lemma told_same s u s' : notices s' = notices s -> told s u s' u.
Proof. intros E. exists []. by rewrite app_nil_r. Qed.

(** What a client may do next it may do when more of its requests were answered. *)
Lemma client_step_hear ns cmd u u' : client_step cmd u = Some u' -> Forall (about_used u) ns -> client_step cmd (hear ns u) = Some (hear ns u').
Proof.
  revert u u'. induction ns as [|n ns IH]; intros u u' Hs Hn; [done|]. apply List.Forall_cons_iff in Hn as [Hn Hns].
  assert (Forall (about_used (hear1 u n)) ns) as Hns' by (eapply Forall_impl; [|exact Hns]; intros [[]| | |]; cbn; by rewrite ?hear1_used).
  cbn. apply IH; [|done]. pose proof Hs as (_ & Hf & _)%client_step_inv. destruct n as [[]| | |]; cbn in *; try done; (apply client_step_answer; [done|congruence]).
Qed.

(** ** The requests that wait for a response *)

#[export] Instance z_sorts : Sorts Z.ltb (fun z : Z => z).
Proof. refine {| sorts_linear := linear_Z |}. intros a b. by rewrite Z.ltb_lt, Z.compare_lt_iff. Defined.

Definition requested (rm : list (Z * Request)) : gmap Z Request := om_map (fun z : Z => z) rm.

(** The transaction a request is the end of. *)
Definition ends_in (u : Client) (i : TransactionInfo) (id : Z) (ck : connection_name) (tk : transaction_name) : Prop :=
  exists cid t c tx, ti_connectionId i = Some cid /\ ti_transactionId i = Local t /\ ck = connection_key cid /\ tk = local_key (Some t) /\
    live u !! ck = Some c /\ c_transactions c !! tk = Some tx /\ tx_request tx = Some id.

Record requests_rel (rm : list (Z * Request)) (u : Client) : Prop := {
  rq_sorted : om_sorted Z.ltb rm;
  rq_used : forall id, is_Some (requested rm !! id) -> id ∈ used_ids u;
  rq_held : forall id c, requested rm !! id = Some (Held c) -> inert c = true;
  rq_waiting : forall id i, requested rm !! id = Some (Waiting i) -> exists ck tk, ends_in u i id ck tk;
  rq_pending : forall ck c tk tx id, live u !! ck = Some c -> c_transactions c !! tk = Some tx -> tx_request tx = Some id ->
    exists i, requested rm !! id = Some (Waiting i) /\ ends_in u i id ck tk;
}.

Lemma ends_in_unique u i id ck tk ck' tk' : ends_in u i id ck tk -> ends_in u i id ck' tk' -> ck = ck' /\ tk = tk'.
Proof. intros (cid & t & _ & _ & E1 & E2 & -> & -> & _) (cid' & t' & _ & _ & E1' & E2' & -> & -> & _). rewrite E1 in E1'. rewrite E2 in E2'. injection E1' as ->. by injection E2' as ->. Qed.

(** Nothing waits for the answer. *)
Lemma answer_nothing rm u id : requests_rel rm u -> (forall i, requested rm !! id <> Some (Waiting i)) -> client_answer id u = u.
Proof.
  intros Hr Hn. unfold client_answer. assert (answered id <$> live u = live u) as ->; [|by destruct u].
  apply map_eq. intros ck. rewrite lookup_fmap. destruct (live u !! ck) as [c|] eqn:Hc; [|done]. cbn. f_equal. destruct c. unfold answered, with_transactions. cbn. f_equal.
  apply map_filter_id. intros tk tx Htx. cbn. intros Hid. destruct (rq_pending _ _ Hr _ _ _ _ _ Hc Htx Hid) as (i & Hi & _). by apply (Hn i).
Qed.

(** The transaction it is the end of is all that an answer ends. *)
Lemma answer_one rm u id i ck tk c : requests_rel rm u -> requested rm !! id = Some (Waiting i) -> ends_in u i id ck tk -> live u !! ck = Some c ->
  live (client_answer id u) = <[ck := with_transactions (delete tk (c_transactions c)) c]> (live u).
Proof.
  intros Hr Hi He Hc. cbn [live client_answer with_live].
  assert (forall ck' c' tk' tx, live u !! ck' = Some c' -> c_transactions c' !! tk' = Some tx -> tx_request tx = Some id -> ck' = ck /\ tk' = tk) as Hu.
  { intros ck' c' tk' tx Hc' Htx Hid. destruct (rq_pending _ _ Hr _ _ _ _ _ Hc' Htx Hid) as (i' & Hi' & He'). rewrite Hi in Hi'. injection Hi' as <-. by eapply ends_in_unique. }
  apply map_eq. intros ck'. rewrite lookup_fmap. destruct (decide (ck' = ck)) as [->|Hne].
  - rewrite lookup_insert_eq, Hc. cbn. f_equal. unfold answered. f_equal. apply map_eq. intros tk'. destruct (decide (tk' = tk)) as [->|Hnt].
    + rewrite lookup_delete_eq. apply map_lookup_filter_None. right. cbn. intros tx Htx Hnot. apply Hnot.
      destruct He as (cid & t & c0 & tx0 & _ & _ & _ & _ & Hc0 & Htx0 & Hid). rewrite Hc in Hc0. injection Hc0 as <-. rewrite Htx in Htx0. by injection Htx0 as <-.
    + rewrite lookup_delete_ne, map_lookup_filter by done. destruct (c_transactions c !! tk') as [tx|] eqn:Htx; [|done]. cbn. rewrite option_guard_True; [done|].
      intros Hid. by destruct (Hu _ _ _ _ Hc Htx Hid).
  - rewrite lookup_insert_ne by done. destruct (live u !! ck') as [c'|] eqn:Hc'; [|done]. cbn. f_equal. destruct c'. unfold answered, with_transactions. cbn. f_equal.
    apply map_filter_id. intros tk' tx Htx. cbn. intros Hid. by destruct (Hu _ _ _ _ Hc' Htx Hid).
Qed.

Lemma answered_ends u i id id' ck tk : ends_in (client_answer id u) i id' ck tk <-> ends_in u i id' ck tk /\ id' <> id.
Proof.
  unfold ends_in. cbn [live client_answer with_live]. setoid_rewrite lookup_fmap. split.
  - intros (cid & t & c & tx & ? & ? & -> & -> & Hc & Htx & Hid). destruct (live u !! connection_key cid) as [c0|]; [|done]. injection Hc as <-. rewrite answered_lookup in Htx.
    destruct (c_transactions c0 !! local_key (Some t)) as [tx0|] eqn:E; [|done]. cbn in Htx. case_decide; [done|]. injection Htx as ->. split; [|congruence].
    exists cid, t, c0, tx. by split_and!.
  - intros [(cid & t & c & tx & ? & ? & -> & -> & Hc & Htx & Hid) Hne]. exists cid, t, (answered id c), tx. rewrite Hc, answered_lookup, Htx. cbn. rewrite decide_False by congruence. by split_and!.
Qed.

Lemma requests_answer rm u id : requests_rel rm u -> requests_rel (om_remove Z.ltb id rm) (client_answer id u).
Proof.
  intros Hr. pose proof Hr as [Hs Hu Hh Hw Hp]. destruct (om_remove_ok id _ Hs) as [Hs' Hm].
  assert (forall id', requested (om_remove Z.ltb id rm) !! id' = if decide (id' = id) then None else requested rm !! id') as Hl.
  { intros id'. unfold requested. rewrite Hm. case_decide as E; [subst; apply lookup_delete_eq|by apply lookup_delete_ne]. }
  split; [done| | | |].
  - intros id'. rewrite Hl. case_decide; [intros []; done|apply Hu].
  - intros id' c. rewrite Hl. case_decide; [done|apply Hh].
  - intros id' i. rewrite Hl. case_decide as E; [done|]. intros Hi. destruct (Hw _ _ Hi) as (ck & tk & He). exists ck, tk. by apply answered_ends.
  - intros ck c tk tx id' Hc Htx Hid. cbn [live client_answer with_live] in Hc. rewrite lookup_fmap in Hc. destruct (live u !! ck) as [c0|] eqn:Hc0; [|done]. injection Hc as <-.
    rewrite answered_lookup in Htx. destruct (c_transactions c0 !! tk) as [tx0|] eqn:Htx0; [|done]. cbn in Htx. case_decide as Hne; [done|]. injection Htx as ->.
    destruct (Hp _ _ _ _ _ Hc0 Htx0 Hid) as (i & Hi & He). exists i. rewrite Hl, decide_False by congruence. split; [done|]. apply answered_ends. split; [done|congruence].
Qed.

(** *** The tracker forgets the transaction *)

Lemma onResponse_ok own n t u rm id i : tracker_rel own n t u -> requests_rel rm u -> requested rm !! id = Some (Waiting i) ->
  exists t', onResponse i t = (Ok tt, t') /\ tracker_rel own n t' (client_answer id u) /\ forall ck k, recovers t' ck k <-> recovers t ck k.
Proof.
  intros Ht Hr Hi. destruct (rq_waiting _ _ Hr _ _ Hi) as (ck & tk & He). pose proof He as (cid & tid & c & tx & Hcid & Htid & -> & -> & Hc & Htx & Hid).
  destruct (connection_ok _ _ _ _ _ _ Ht Hc) as (cs & Ec & Hcs & Hrel). pose proof (connection_transactions _ _ _ _ _ _ (local_key (Some tid)) Hrel) as Hx. rewrite Htx in Hx.
  destruct (om_map local_key (cs_transactions cs) !! local_key (Some tid)) as [a|] eqn:Ea; [|done]. destruct Hx as (x & Hx & Ho & _).
  set (cs' := set_transactions (om_remove local_less (Some tid) (cs_transactions cs)) cs).
  exists (change cid cs' (<[a := mkTransactionState [] []]> (heap t)) (nextAddress t) t). split_and!.
  - apply catch_amq_ok. unfold RemoveTransactionAction_run. rewrite Hcid, (bind_ok _ _ _ _ _ Ec). unfold removeTransactionState. rewrite Htid. cbn [as_local].
    rewrite (not_null _ _ _ _ _ _ tid Hrel), (om_find_ok _ _ (cr_tsorted _ _ _ _ _ _ Hrel)), Ea. unfold bind at 1, ret at 1. cbn [fst snd].
    unfold bind, set_connection, modify. apply (on_transaction_ok a clear_transaction x (set_connectionStates _ t) Hx).
  - eapply tracker_rel_change; [done|done|done| | |eapply connection_rel_grow; [by eapply connection_rel_done|done]|by eapply answer_one].
    + intros b y Hb Hne. rewrite lookup_insert_ne; [done|]. intros <-. rewrite Ho in Hb. by injection Hb as <-.
    + apply owners_insert; [by apply (owners_grow _ _ _ u); [by eapply tracker_owners|]|by eexists].
  - intros ck k. transitivity (recovers (set_connectionStates (om_set connection_less cid cs' (connectionStates t)) t) ck k); [done|].
    rewrite (recovers_put _ _ _ _ _ (tk_sorted _ _ _ _ Ht)). case_decide as E; [|done]. subst ck. cbn [cs' cs_recoveringPullConsumers set_transactions].
    unfold recovers. rewrite Hcs. split; [by intros ?; eexists|by intros (? & [= <-] & ?)].
Qed.

(** ** A transport and the client it serves *)

Record core (n : Z) (s : Failover) (u : Client) : Prop := {
  co_tracker : exists own, tracker_rel own n (tracker s) u;
  co_requests : requests_rel (requestMap s) u;
}.

(** What responses and restoring leave as it is. *)
Definition steady (s0 s : Failover) : Prop :=
  connectedTransport s = connectedTransport s0 /\ limits s = limits s0 /\ started (life s) = started (life s0) /\ closed (life s) = closed (life s0) /\
  shutdown (life s) = shutdown (life s0) /\ firstConnection (life s) = firstConnection (life s0) /\ connectionFailure (life s) = connectionFailure (life s0) /\
  uris s = uris s0 /\ updated s = updated s0.

#[export] Instance steady_preorder : PreOrder steady.
Proof. split; [by intros s|]. intros s1 s2 s3 (?&?&?&?&?&?&?&?&?) (?&?&?&?&?&?&?&?&?). split_and!; congruence. Qed.

Lemma processResponse_ok n s u id : core n s u ->
  exists s', processResponse id s = (Ok tt, s') /\ core n s' (client_answer id u) /\ steady s s' /\ notices s' = notices s /\
    forall ck k, recovers (tracker s') ck k <-> recovers (tracker s) ck k.
Proof.
  intros [[own Ht] Hr]. pose proof (requests_answer _ _ id Hr) as Hr'. unfold processResponse, request_remove. rewrite bind_assoc, bind_get, bind_assoc, bind_modify.
  set (s1 := set_requestMap _ s). unfold bind at 1, ret at 1. rewrite (om_find_ok _ _ (rq_sorted _ _ Hr)). fold (requested (requestMap s)).
  destruct (requested (requestMap s) !! id) as [[c|i]|] eqn:E.
  - exists s1. split; [done|]. rewrite (answer_nothing _ _ _ Hr) in * by (intros i; congruence). split_and!; try done. by split; [exists own|].
  - destruct (onResponse_ok _ _ _ _ _ _ _ Ht Hr E) as (t' & Et & Ht' & Hrec). exists (set_tracker t' s1). split; [unfold in_tracker; change (tracker s1) with (tracker s); by rewrite Et|].
    split_and!; try done. by split; [exists own|].
  - exists s1. split; [done|]. rewrite (answer_nothing _ _ _ Hr) in * by (intros i; congruence). split_and!; try done. by split; [exists own|].
Qed.

Lemma onCommand_ok n s u c : core n s u -> about_used u (ACommand c) ->
  exists s', onCommand c s = (Ok tt, s') /\ core n s' (hear1 u (ACommand c)) /\ steady s s' /\ notices s' = notices s ++ [ACommand c] /\
    forall ck k, recovers (tracker s') ck k <-> recovers (tracker s) ck k.
Proof.
  intros Hs Hu. assert (exists s1, (match c with OnResponse id | OnRolledBack id _ => processResponse id | OnDispatch _ _ | OnCommand => ret tt end) s = (Ok tt, s1) /\
    core n s1 (hear1 u (ACommand c)) /\ steady s s1 /\ notices s1 = notices s /\ forall ck k, recovers (tracker s1) ck k <-> recovers (tracker s) ck k) as (s1 & E & Hc & Hst & Hn & Hrec).
  { destruct c; [by apply processResponse_ok|by apply processResponse_ok|exists s..]; by split_and!. }
  unfold onCommand. rewrite (bind_ok _ _ _ _ _ E). eexists. split; [reflexivity|]. destruct Hc. split_and!; [by split| |cbn; by rewrite Hn|done].
  destruct Hst as (?&?&?&?&?&?&?&?&?). split_and!; cbn; congruence.
Qed.

(** ** One connection *)

(** Only a link with failures to come can fail. *)
Definition failed n (fl : list bool) (s0 : Failover) (u : Client) (w : Failover * Link) : Prop :=
  fl <> [] /\ exists u', core n w.1 u' /\ told s0 u w.1 u' /\ steady s0 w.1.

(** Where the restoring of the connection [ck], which was [cs], has got to: what was sent and
    who must be told to push again. *)
Record stage n (s0 : Failover) (u : Client) (ck : connection_name) (cs : ConnectionState) (version : Z) (fl : list bool) (sent : list Command) (slowed : member_name -> Prop) (w : Failover * Link) : Prop := {
  st_core : core n w.1 u;
  st_steady : steady s0 w.1;
  st_notices : notices w.1 = notices s0;
  st_version : link_version w.2 = version;
  st_failures : fl = [] -> failures w.2 = [];
  st_wire : wire w.2 = sent;
  st_here : exists r, om_map connection_key (connectionStates (tracker w.1)) !! ck = Some (set_recovering (cs_interruptComplete cs) r cs);
  st_heap : heap (tracker w.1) = heap (tracker s0);
  st_mono : forall ck k, recovers (tracker s0) ck k -> recovers (tracker w.1) ck k;
  st_slowed : forall k, slowed k -> recovers (tracker w.1) ck k;
}.

Section one_connection.
Context (n : Z) (s0 : Failover) (u : Client) (ck : connection_name) (cs : ConnectionState) (c : Connection) (version : Z) (fl : list bool).
Context (Hc : live u !! ck = Some c).
Abbreviation at_stage := (stage n s0 u ck cs version fl).
Abbreviation lost := (failed n fl s0 u).

Lemma stage_lost sent slowed w l : at_stage sent slowed w -> fl <> [] -> lost (w.1, l).
Proof. intros [] Hfl. split; [done|]. exists u. split_and!; [done|by apply told_same|done]. Qed.

Lemma stage_link sent slowed w l : at_stage sent slowed w -> link_version l = version -> (fl = [] -> failures l = []) -> at_stage (wire l) slowed (w.1, l).
Proof. intros [] Hv Hfl. by split. Qed.

Lemma stage_send cmd sent slowed w : at_stage sent slowed w -> runs (transport_oneway cmd) (fun _ w' => at_stage (sent ++ [cmd]) slowed w') lost w.
Proof.
  intros Hst. pose proof (st_wire _ _ _ _ _ _ _ _ _ _ Hst) as Hw. pose proof (st_version _ _ _ _ _ _ _ _ _ _ Hst) as Hv. pose proof (st_failures _ _ _ _ _ _ _ _ _ _ Hst) as Hfl.
  destruct w as [s l]. unfold runs. cbn -[failed]. unfold on_snd, link_oneway. cbn -[failed] in *. destruct (failures l) as [|[] rest] eqn:Ef.
  - rewrite <- Hw. by apply (stage_link sent slowed (s, l) (mkLink (link_uri l) (wire l ++ [cmd]) (List.tl []) (link_version l))).
  - split; [done|]. apply (stage_lost sent slowed (s, l)); [done|]. intros E. by specialize (Hfl E).
  - rewrite <- Hw. apply (stage_link sent slowed (s, l) (mkLink (link_uri l) (wire l ++ [cmd]) rest (link_version l))); [done|done|]. intros E. by specialize (Hfl E).
Qed.

Lemma stage_send_all cmds sent slowed w : at_stage sent slowed w -> runs (send_all cmds) (fun _ w' => at_stage (sent ++ cmds) slowed w') lost w.
Proof.
  intros Hst. eapply runs_mono; [|intros ? ? H; exact H|done]. unfold send_all.
  apply (runs_iter transport_oneway (fun d _ w => at_stage (sent ++ d) slowed w)); [by rewrite app_nil_r|]. intros d x rest w' _ Hw'. rewrite app_assoc. by apply stage_send.
Qed.

Lemma stage_connection id sent slowed w : connection_key id = ck -> at_stage sent slowed w ->
  exists own r, on_tracker (connection id) w = (Ok (set_recovering (cs_interruptComplete cs) r cs), w) /\
    tracker_rel own n (tracker w.1) u /\ connection_rel own (heap (tracker w.1)) u ck (set_recovering (cs_interruptComplete cs) r cs) c /\
    om_map connection_key (connectionStates (tracker w.1)) !! ck = Some (set_recovering (cs_interruptComplete cs) r cs).
Proof.
  intros Hk Hst. destruct (co_tracker _ _ _ (st_core _ _ _ _ _ _ _ _ _ _ Hst)) as [own Ht]. destruct (st_here _ _ _ _ _ _ _ _ _ _ Hst) as [r Hr]. subst ck.
  destruct (connection_ok _ _ _ _ _ _ Ht Hc) as (cs' & E & Hcs & Hrel). rewrite Hr in Hcs. injection Hcs as <-. exists own, r. split_and!; try done.
  destruct w as [s l]. cbn [on_tracker restoring]. unfold on_fst, in_tracker. cbn [fst snd] in *. rewrite E. by destruct s.
Qed.

(** Who is recovering is only added to. *)
Lemma stage_stall id i sent slowed w s : connection_key id = ck -> at_stage sent slowed w -> let k := consumer_key (ki_consumerId i) in
  c_sessions c !! consumer_session k = Some s -> s_consumers s !! k = Some i ->
  exists w', on_tracker (stall id i) w = (Ok tt, w') /\ at_stage sent (fun k' => slowed k' \/ k' = k) w'.
Proof.
  intros Hk Hst k Hs Hi. destruct (stage_connection _ _ _ _ Hk Hst) as (own & r & E & Ht & Hrel & Hcs). set (cs1 := set_recovering _ r cs) in *.
  pose proof (cr_rsorted _ _ _ _ _ _ Hrel) as Hrs. destruct (om_set_ok (ki_consumerId i) i r Hrs) as [Hrs' Hrm]. set (r' := om_set consumer_less (ki_consumerId i) i r) in *.
  assert (k ∈ used_consumers u) as Hused by (eapply (cr_consumers _ _ _ _ _ _ Hrel); [exact Hs|by eexists]).
  set (t' := set_connectionStates (om_set connection_less id (set_recovering (cs_interruptComplete cs) r' cs) (connectionStates (tracker w.1))) (tracker w.1)).
  assert (tracker_rel own n t' u) as Ht'.
  { eapply tracker_rel_put; [done|reflexivity| |]; rewrite Hk; [|by rewrite insert_id].
    apply (connection_rel_recovering _ _ _ _ cs1 c (cs_interruptComplete cs) r' Hrel); [done|]. intros k' i'. fold k in Hrm. rewrite Hrm. destruct (decide (k' = k)) as [->|Hne].
    - rewrite lookup_insert_eq. intros [= <-]. split_and!; [done|done| |].
      + change k.1 with (consumer_session k).1. eapply (cr_skeys _ _ _ _ _ _ Hrel). by eexists.
      + intros s' j Hs'. rewrite Hs in Hs'. injection Hs' as <-. rewrite Hi. by intros [= <-].
    - rewrite lookup_insert_ne by done. apply (cr_recovering _ _ _ _ _ _ Hrel). }
  assert (forall ck' k', recovers (tracker w.1) ck' k' \/ (ck' = ck /\ k' = k) -> recovers t' ck' k') as Hrec.
  { intros ck' k' H. apply (recovers_put _ _ _ _ _ (tk_sorted _ _ _ _ Ht)). rewrite Hk. case_decide as E'; [|destruct H as [H|[H _]]; [done|congruence]].
    cbn [cs_recoveringPullConsumers set_recovering]. fold k in Hrm. rewrite Hrm, lookup_insert_is_Some'. destruct H as [(cs2 & H & Hk2)|[_ ->]]; [right|by left].
    rewrite E', Hcs in H. by injection H as <-. }
  destruct w as [sf l]. exists (set_tracker t' sf, l). split.
  - cbn [on_tracker restoring] in *. unfold on_fst, in_tracker in *. cbn [fst snd] in *. destruct (connection id (tracker sf)) as [r0 t0] eqn:E0. injection E as -> E. destruct sf. cbn in E. injection E as ->.
    unfold stall. by rewrite (bind_ok _ _ _ _ _ E0).
  - destruct Hst as [Hco ? ? ? ? ? ? Hh Hmono Hsl]. cbn [fst snd] in *. split; cbn [fst snd]; try done.
    + split; [exists own; done|apply (co_requests _ _ _ Hco)].
    + exists r'. cbn [tracker set_tracker t' connectionStates set_connectionStates]. rewrite (proj2 (om_set_ok id _ _ (tk_sorted _ _ _ _ Ht))), Hk. apply lookup_insert_eq.
    + intros ck' k' H. apply Hrec. left. by apply Hmono.
    + intros k' [H| ->]; apply Hrec; [left; by apply Hsl|by right].
Qed.

Lemma stage_weaken sent slowed slowed' w : at_stage sent slowed w -> (forall k, slowed' k -> slowed k) -> at_stage sent slowed' w.
Proof. intros [] Hs. split; try done. intros k Hk. by apply st_slowed0, Hs. Qed.

(** *** Its sessions *)

Context (own0 : owners) (Hrel0 : connection_rel own0 (heap (tracker s0)) u ck cs c).
Definition slows : bool := negb (cs_interruptComplete cs) && (5 <? version).
Definition slow_in (l : list (ConsumerId * ConsumerState)) (k : member_name) : Prop :=
  exists x, x ∈ l /\ consumer_key (ki_consumerId (ks_info x.2)) = k /\ slows && (0 <? prefetchSize (ks_info x.2)) = true.

(** A consumer of the client. *)
Definition live_consumer (i : ConsumerInfo) : Prop :=
  exists s, c_sessions c !! consumer_session (consumer_key (ki_consumerId i)) = Some s /\ s_consumers s !! consumer_key (ki_consumerId i) = Some i.

Lemma stage_consumer id i sent slowed w : connection_key id = ck -> live_consumer i -> at_stage sent slowed w ->
  runs (restore_consumer id (cs_interruptComplete cs) i)
    (fun _ w' => at_stage (sent ++ [CConsumerInfo (told_prefetch slows i)])
       (fun k => slowed k \/ consumer_key (ki_consumerId i) = k /\ slows && (0 <? prefetchSize i) = true) w') lost w.
Proof.
  intros Hk (s & Hs & Hi) Hst. unfold restore_consumer. apply runs_bind. eapply runs_ok; [reflexivity|]. rewrite (st_version _ _ _ _ _ _ _ _ _ _ Hst).
  replace (negb (cs_interruptComplete cs) && (0 <? prefetchSize i) && (5 <? version)) with (slows && (0 <? prefetchSize i))
    by (unfold slows; destruct (cs_interruptComplete cs), (0 <? prefetchSize i), (5 <? version); done).
  unfold told_prefetch. destruct (slows && (0 <? prefetchSize i)) eqn:E.
  - destruct (stage_stall id i _ _ _ _ Hk Hst Hs Hi) as (w' & E' & Hst'). apply runs_bind. eapply runs_ok; [exact E'|]. eapply runs_mono; [by apply stage_send| |done].
    intros [] w2 H2. eapply stage_weaken; [exact H2|]. intros k [?|[<- _]]; [by left|by right].
  - eapply runs_mono; [by apply stage_send| |done]. intros [] w2 H2. eapply stage_weaken; [exact H2|]. by intros k [?|[_ ?]].
Qed.

Lemma stage_consumers ss sent slowed w : connection_key (session_parent (se_sessionId (ss_info ss))) = ck ->
  Forall (fun x => live_consumer (ks_info x.2)) (ss_consumers ss) -> at_stage sent slowed w ->
  runs (doRestoreConsumers ss)
    (fun _ w' => at_stage (sent ++ map (fun x => CConsumerInfo (told_prefetch slows (ks_info x.2))) (ss_consumers ss)) (fun k => slowed k \/ slow_in (ss_consumers ss) k) w') lost w.
Proof.
  intros Hk Hl Hst. unfold doRestoreConsumers. apply runs_catch_io, runs_bind. destruct (stage_connection _ _ _ _ Hk Hst) as (own & r & E & _). eapply runs_ok; [exact E|].
  cbn [cs_interruptComplete set_recovering]. eapply runs_mono; [|intros ? ? H; exact H|done].
  apply (runs_iter _ (fun d _ w => at_stage (sent ++ map (fun x => CConsumerInfo (told_prefetch slows (ks_info x.2))) d) (fun k => slowed k \/ slow_in d k) w)).
  - cbn. rewrite app_nil_r. eapply stage_weaken; [exact Hst|]. intros k [?|(x & Hx & _)]; [done|by apply not_elem_of_nil in Hx].
  - intros d x rest w' El Hw'. assert (live_consumer (ks_info x.2)) as Hx by (rewrite List.Forall_forall in Hl; apply Hl; rewrite El; apply in_elt).
    eapply runs_mono; [by apply (stage_consumer _ _ _ _ _ Hk Hx Hw')| |done]. intros [] w2 H2. rewrite map_app, app_assoc. eapply stage_weaken; [exact H2|].
    intros k [?|(y & [Hy|Hy%list_elem_of_singleton]%elem_of_app & Hy')]; [left; by left|left; right; by exists y|right; subst y; done].
Qed.

Lemma session_live sk ss : om_map session_key (cs_sessions cs) !! sk = Some ss ->
  connection_key (session_parent (se_sessionId (ss_info ss))) = ck /\ Forall (fun x => live_consumer (ks_info x.2)) (ss_consumers ss).
Proof.
  intros Hss. pose proof (session_lookup _ _ _ _ _ _ sk Hrel0) as H. rewrite Hss in H. destruct (c_sessions c !! sk) as [s|] eqn:Es; [|done]. destruct H. split.
  - rewrite sr_info. change (connection_key (session_parent (se_sessionId (s_info s)))) with (session_key (se_sessionId (s_info s))).1. rewrite sr_key.
    apply (cr_skeys _ _ _ _ _ _ Hrel0). by eexists.
  - apply List.Forall_forall. intros [k x] Hx%list_elem_of_In. pose proof (om_map_elem _ _ _ sr_ksorted Hx) as Hl. cbn [snd].
    assert (s_consumers s !! consumer_key k = Some (ks_info x)) as Hi by (by rewrite <- sr_consumers, lookup_fmap, Hl). destruct (sr_kkeys _ _ Hi) as [E1 E2].
    exists s. by rewrite E1, E2.
Qed.

Lemma stage_session f ss sk sent slowed w : restores f -> om_map session_key (cs_sessions cs) !! sk = Some ss -> at_stage sent slowed w ->
  runs (restore_session f ss) (fun _ w' => at_stage (sent ++ session_commands slows ss) (fun k => slowed k \/ slow_in (ss_consumers ss) k) w') lost w.
Proof.
  intros (_ & _ & Hf1 & Hf2 & _) Hss Hst. destruct (session_live _ _ Hss) as [Hk Hl]. unfold restore_session, session_commands. rewrite Hf1, Hf2.
  apply runs_bind. eapply runs_mono; [by apply stage_send| |done]. intros [] w1 H1. apply runs_bind. eapply runs_mono; [apply runs_catch_io; by apply stage_send_all| |done].
  intros [] w2 H2. eapply runs_mono; [by apply stage_consumers| |done]. intros [] w3 H3. by rewrite <- !app_assoc in H3.
Qed.

Lemma stage_sessions f sent slowed w : restores f -> at_stage sent slowed w ->
  runs (doRestoreSessions f cs)
    (fun _ w' => at_stage (sent ++ sessions_commands slows (cs_sessions cs)) (fun k => slowed k \/ exists x, x ∈ cs_sessions cs /\ slow_in (ss_consumers x.2) k) w') lost w.
Proof.
  intros Hf Hst. unfold doRestoreSessions. apply runs_catch_io. eapply runs_mono; [|intros ? ? H; exact H|done].
  apply (runs_iter _ (fun d _ w => at_stage (sent ++ sessions_commands slows d) (fun k => slowed k \/ exists x, x ∈ d /\ slow_in (ss_consumers x.2) k) w)).
  - cbn. rewrite app_nil_r. eapply stage_weaken; [exact Hst|]. intros k [?|(x & Hx & _)]; [done|by apply not_elem_of_nil in Hx].
  - intros d [k ss] rest w' El Hw'. assert (om_map session_key (cs_sessions cs) !! session_key k = Some ss) as Hss.
    { apply om_map_elem; [apply (cr_ssorted _ _ _ _ _ _ Hrel0)|]. rewrite El. apply elem_of_app. right. left. }
    eapply runs_mono; [by apply (stage_session f ss _ _ _ _ Hf Hss Hw')| |done]. intros [] w2 H2. unfold sessions_commands. rewrite map_app, concat_app. cbn [map concat snd].
    rewrite app_nil_r, app_assoc. eapply stage_weaken; [exact H2|].
    intros k' [?|(y & [Hy|Hy%list_elem_of_singleton]%elem_of_app & Hy')]; [left; by left|left; right; by exists y|right; subst y; done].
Qed.

(** *** Its transactions *)

Definition doubt (h : gmap Z TransactionState) (a : Z) : option TransactionInfo := x ← h !! a; cmd ← list.last (ts_commands x); in_doubt cmd.
Definition known (h : gmap Z TransactionState) (a : Z) : Prop :=
  exists tk tx x, h !! a = Some x /\ c_transactions c !! tk = Some tx /\ transaction_rel ck tk a cs c x tx.

Lemma doubt_used a i : known (heap (tracker s0)) a -> doubt (heap (tracker s0)) a = Some i -> forall sent slowed w, at_stage sent slowed w -> commandId (ti_base i) ∈ used_ids u.
Proof.
  intros (tk & tx & x & Hx & Htx & Hr) Hd sent slowed w Hst. unfold doubt in Hd. rewrite Hx in Hd. cbn in Hd. rewrite (tr_commands _ _ _ _ _ _ _ Hr) in Hd.
  destruct (tr_doubt _ _ _ _ _ _ _ Hr) as (cmd & E & Hi). rewrite E in Hd. cbn in Hd. pose proof (co_requests _ _ _ (st_core _ _ _ _ _ _ _ _ _ _ Hst)) as Hreq.
  destruct (rq_pending _ _ Hreq _ _ _ _ _ Hc Htx (Hi _ Hd)) as (j & Hj & _). apply (rq_used _ _ Hreq). by eexists.
Qed.

Lemma stage_replay x sent slowed w : at_stage sent slowed w -> runs (replay_transaction x) (fun _ w' => at_stage (sent ++ transaction_commands x) slowed w') lost w.
Proof.
  intros Hst. unfold replay_transaction, transaction_commands. rewrite !map_map. apply runs_bind. eapply runs_mono; [by apply stage_send_all| |done]. intros [] w1 H1.
  apply runs_bind. eapply runs_mono; [by apply stage_send_all| |done]. intros [] w2 H2. eapply runs_mono; [by apply stage_send_all| |done]. intros [] w3 H3. by rewrite <- !app_assoc in H3.
Qed.

Lemma stage_each l sent slowed w : Forall (known (heap (tracker s0))) l -> at_stage sent slowed w ->
  runs (restore_each l) (fun rb w' => at_stage (sent ++ transactions_commands (heap (tracker s0)) l) slowed w' /\ rb = omap (doubt (heap (tracker s0))) l) lost w.
Proof.
  intros Hl. revert sent w. induction Hl as [|a l Hk Hl IH]; intros sent w Hst; [split; [by rewrite app_nil_r|done]|]. cbn [restore_each].
  apply runs_bind. eapply (runs_ok _ _ _ _ (tracker w.1) w).
  { destruct w as [[] l']. cbn. unfold on_fst, in_tracker. cbn. by unfold get. }
  rewrite (st_heap _ _ _ _ _ _ _ _ _ _ Hst). destruct Hk as (tk & tx & x & Hx & Htx & Hr). rewrite Hx. unfold transactions_commands. cbn [map concat omap list_omap].
  unfold doubt at 1. rewrite Hx. cbn [mbind option_bind]. unfold replayed. rewrite !(tr_commands _ _ _ _ _ _ _ Hr). destruct (tr_doubt _ _ _ _ _ _ _ Hr) as (cmd & E & _). rewrite E. cbn [mbind option_bind].
  destruct (in_doubt cmd) as [i|].
  - apply runs_bind. eapply runs_mono; [by apply IH| |done]. intros rb w' [Hw' ->]. by split.
  - apply runs_bind. eapply runs_mono; [by apply stage_replay| |done]. intros [] w1 H1. eapply runs_mono; [by apply IH| |done]. intros rb w' [Hw' ->]. split; [|done].
    by rewrite <- app_assoc in Hw'.
Qed.

Definition rolled_back (i : TransactionInfo) : Notice := ACommand (OnRolledBack (commandId (ti_base i)) (ti_transactionId i)).

(** The connection is restored: the client heard of the transactions in doubt. *)
Record restored (sent : list Command) (slowed : member_name -> Prop) (rb : list TransactionInfo) (w : Failover * Link) : Prop := {
  rs_core : core n w.1 (hear (map rolled_back rb) u);
  rs_steady : steady s0 w.1;
  rs_notices : notices w.1 = notices s0 ++ map rolled_back rb;
  rs_used : Forall (fun i => commandId (ti_base i) ∈ used_ids u) rb;
  rs_version : link_version w.2 = version;
  rs_failures : fl = [] -> failures w.2 = [];
  rs_wire : wire w.2 = sent;
  rs_mono : forall ck k, recovers (tracker s0) ck k -> recovers (tracker w.1) ck k;
  rs_slowed : forall k, slowed k -> recovers (tracker w.1) ck k;
}.

Lemma stage_transactions sent slowed w : Forall (known (heap (tracker s0))) (map snd (cs_transactions cs)) -> at_stage sent slowed w ->
  runs (doRestoreTransactions cs)
    (fun _ w' => restored (sent ++ transactions_commands (heap (tracker s0)) (map snd (cs_transactions cs))) slowed (omap (doubt (heap (tracker s0))) (map snd (cs_transactions cs))) w') lost w.
Proof.
  intros Hl Hst. set (l := map snd (cs_transactions cs)) in *. unfold doRestoreTransactions. apply runs_catch_io, runs_bind. fold l. eapply runs_mono; [by apply stage_each| |done].
  intros rb w1 [H1 Erb]. assert (Forall (fun i => commandId (ti_base i) ∈ used_ids u) rb) as Hu.
  { apply List.Forall_forall. intros i Hi%list_elem_of_In. rewrite Erb in Hi. apply list_elem_of_omap in Hi as (a & Ha & Hd). rewrite List.Forall_forall in Hl.
    eapply (doubt_used a i); [apply Hl; by apply list_elem_of_In|done|exact Hst]. }
  rewrite <- Erb. eapply runs_mono; [|intros ? ? H; exact H|done].
  apply (runs_iter _ (fun d _ w => restored (sent ++ transactions_commands (heap (tracker s0)) l) slowed d w)).
  - destruct H1. split; try done. cbn. by rewrite app_nil_r.
  - intros d i rest w2 El []. assert (commandId (ti_base i) ∈ used_ids u) as Hi by (rewrite List.Forall_forall in Hu; apply Hu; rewrite El; apply in_elt).
    destruct (onCommand_ok n w2.1 _ (OnRolledBack (commandId (ti_base i)) (ti_transactionId i)) rs_core0) as (s' & E & Hco & Hs & Hn & Hrec); [cbn; by rewrite hear_used|].
    destruct w2 as [s2 l2]. cbn [fst snd] in *. eapply (runs_ok _ _ _ _ tt (s', l2)); [cbn [listener_onRolledBack restoring]; unfold on_fst; cbn [fst snd]; by rewrite E|].
    split; cbn [fst snd]; rewrite ?map_app; try done.
    + unfold hear. rewrite foldl_app. exact Hco.
    + by etrans.
    + rewrite Hn, rs_notices0, <- app_assoc. done.
    + apply List.Forall_app. split; [done|by constructor].
    + intros ck' k Hk. apply Hrec. by apply rs_mono0.
    + intros k Hk. apply Hrec. by apply rs_slowed0.
Qed.
End one_connection.

(** ** All connections *)

Lemma connection_rel_reconnected own h u ck cs c : connection_rel own h u ck cs c -> connection_rel own h u ck (reconnected cs) c.
Proof.
  intros Hc. pose proof Hc as []. split; try done. intros tk. pose proof (connection_transactions _ _ _ _ _ _ tk Hc) as H. cbn [reconnected set_cs_info cs_transactions].
  destruct (om_map _ _ !! tk), (c_transactions c !! tk) as [tx|]; try done. destruct H as (x & Hx & _ & Hr). exists x. split; [done|]. by apply (transaction_rel_ext ck tk _ cs _ c c).
Qed.

Lemma seen_answered slow bc c id : connection_seen slow bc c -> connection_seen slow bc (answered id c).
Proof. intros []. split; try done. by rewrite settle_answered. Qed.

Lemma seen_hear slow obc ns ck u : option_Forall2 (connection_seen slow) obc (live u !! ck) -> option_Forall2 (connection_seen slow) obc (live (hear ns u) !! ck).
Proof.
  revert u. induction ns as [|x ns IH]; intros u H; [done|]. cbn. apply IH. destruct x as [[]| | |]; try done; cbn; rewrite lookup_fmap;
    destruct H as [bc c H|]; constructor; by apply seen_answered.
Qed.

Lemma seen_mono (slow slow' : member_name -> Prop) bc c : connection_seen slow bc c -> (forall k, slow k -> slow' k) -> connection_seen slow' bc c.
Proof.
  intros [] Hs. split; try done. eapply map_Forall2_impl; [exact cn_sessions|]. intros sk bs s []. split; try done. eapply map_Forall2_impl; [exact sn_consumers|].
  intros k bi i [->|[? ->]]; [by left|right]. split; [by apply Hs|done].
Qed.

(** No commit of the client is in doubt. *)
Definition undoubted (c : Connection) : Prop :=
  forall tk tx cmd, c_transactions c !! tk = Some tx -> list.last (tx_commands tx) = Some cmd -> in_doubt cmd = None.

Lemma undoubted_answered id c : undoubted c -> undoubted (answered id c).
Proof. intros Hu tk tx cmd [Htx _]%map_lookup_filter_Some. by eapply Hu. Qed.

Lemma hear_live ns u ck : is_Some (live (hear ns u) !! ck) <-> is_Some (live u !! ck).
Proof. revert u. induction ns as [|x ns IH]; intros u; [done|]. change (hear (x :: ns) u) with (hear ns (hear1 u x)). rewrite IH. destruct x as [[]| | |]; try done; cbn; by rewrite lookup_fmap, fmap_is_Some. Qed.

Lemma hear_inv ns u ck c' : live (hear ns u) !! ck = Some c' ->
  exists c, live u !! ck = Some c /\ (undoubted c -> undoubted c') /\ (forall tk tx, c_transactions c' !! tk = Some tx -> c_transactions c !! tk = Some tx).
Proof.
  revert u. induction ns as [|x ns IH]; intros u Hc; [by exists c'|]. cbn in Hc. apply IH in Hc as (c & Hc & Hu & Ht).
  assert (forall id, live (client_answer id u) !! ck = Some c ->
    exists c, live u !! ck = Some c /\ (undoubted c -> undoubted c') /\ (forall tk tx, c_transactions c' !! tk = Some tx -> c_transactions c !! tk = Some tx)) as Hid.
  { intros id Hl. cbn [live client_answer with_live] in Hl. rewrite lookup_fmap in Hl. destruct (live u !! ck) as [c0|]; [|done]. injection Hl as <-. exists c0. split; [done|]. split.
    - intros H. by apply Hu, undoubted_answered.
    - intros tk tx Htx. by apply Ht, map_lookup_filter_Some in Htx as [? _]. }
  destruct x as [[]| | |]; first [by exists c|exact (Hid _ Hc)].
Qed.

(** A request that was heard of is no longer there. *)
Lemma hear_gone ns u ck c' tk tx id : live (hear ns u) !! ck = Some c' -> c_transactions c' !! tk = Some tx -> tx_request tx = Some id ->
  ACommand (OnResponse id) ∉ ns /\ forall t, ACommand (OnRolledBack id t) ∉ ns.
Proof.
  revert u. induction ns as [|x ns IH]; intros u Hc Htx Hid; [split; [|intros t]; by intros ?%not_elem_of_nil|]. cbn in Hc. pose proof (IH _ Hc Htx Hid) as [H1 H2].
  assert (live (client_answer id u) !! ck = live (hear1 u x) !! ck -> False) as Hx.
  { intros E. apply hear_inv in Hc as (c & Hc & _ & Ht). rewrite <- E in Hc. cbn [live client_answer with_live] in Hc. rewrite lookup_fmap in Hc.
    destruct (live u !! ck) as [c0|]; [|done]. injection Hc as <-. apply Ht, map_lookup_filter_Some in Htx as [_ Hn]. by apply Hn. }
  split; [|intros t]; (intros [<-|?]%elem_of_cons; [by apply Hx|]); [done|by destruct (H2 t)].
Qed.

(** The listener was told of transactions that were rolled back, and of nothing else. *)
Definition told_rolled (s0 s : Failover) : Prop := exists rb, notices s = notices s0 ++ map rolled_back rb.

Lemma told_rolled_trans s0 s1 s2 : told_rolled s0 s1 -> told_rolled s1 s2 -> told_rolled s0 s2.
Proof. intros [r1 E1] [r2 E2]. exists (r1 ++ r2). by rewrite E2, E1, map_app, app_assoc. Qed.

Record brought (n : Z) (s0 : Failover) (u0 : Client) (version : Z) (fl : list bool) (ck : connection_name) (c : Connection) (b : Broker) (w : Failover * Link) : Prop := {
  br_client : exists ns, core n w.1 (hear ns u0) /\ notices w.1 = notices s0 ++ ns /\ Forall (about_used u0) ns /\
    (forall c', live (hear ns u0) !! ck = Some c' -> undoubted c');
  br_rolled : told_rolled s0 w.1;
  br_steady : steady s0 w.1;
  br_version : link_version w.2 = version;
  br_failures : fl = [] -> failures w.2 = [];
  br_mono : forall ck k, recovers (tracker s0) ck k -> recovers (tracker w.1) ck k;
  br_broker : exists bc, run_broker (wire w.2) ∅ = Some (<[ck := bc]> b) /\ connection_seen (recovers (tracker w.1) ck) bc c;
}.

Lemma restore_connection_ok n s u id (c : Connection) (b : Broker) f l fl : restores f -> (fl = [] -> failures l = []) -> core n s u -> live u !! connection_key id = Some c -> run_broker (wire l) ∅ = Some b -> b !! connection_key id = None ->
  runs (restore_connection f id) (fun _ w' => brought n s u (link_version l) fl (connection_key id) c b w') (failed n fl s u) (s, l).
Proof.
  intros Hf Hfl Hco Hc Hb Hbk. pose proof Hf as (_ & Hf1 & _ & _ & Hf2 & _). destruct (co_tracker _ _ _ Hco) as [own Ht]. set (ck := connection_key id) in *.
  destruct (connection_ok _ _ _ _ _ _ Ht Hc) as (cs0 & E & Hcs & Hrel0). fold ck in Hcs, Hrel0. set (cs := reconnected cs0).
  assert (connection_rel own (heap (tracker s)) u ck cs c) as Hrel by by apply connection_rel_reconnected.
  unfold restore_connection. apply runs_bind. eapply (runs_ok _ _ _ _ cs0 (s, l)).
  { cbn [on_tracker restoring]. unfold on_fst, in_tracker. cbn [fst snd]. rewrite E. by destruct s. }
  apply runs_bind. set (t1 := set_connectionStates (om_set connection_less id cs (connectionStates (tracker s))) (tracker s)). eapply (runs_ok _ _ _ _ tt (set_tracker t1 s, l)); [done|].
  pose proof (om_set_ok id cs _ (tk_sorted _ _ _ _ Ht)) as [_ Hm].
  assert (stage n s u ck cs (link_version l) fl (wire l) (fun _ => False) (set_tracker t1 s, l)) as H0.
  { split; try done.
    - split; [exists own|apply (co_requests _ _ _ Hco)]. eapply tracker_rel_put; [done|reflexivity|exact Hrel|]. fold ck. by rewrite insert_id.
    - exists (cs_recoveringPullConsumers cs). cbn. rewrite Hm. fold ck. rewrite lookup_insert_eq. unfold cs. by destruct cs0.
    - intros ck' k Hk. apply (recovers_put _ _ _ _ _ (tk_sorted _ _ _ _ Ht)). fold ck. case_decide as Ek; [|done]. subst ck'. destruct Hk as (cs' & Hcs' & Hk).
      rewrite Hcs in Hcs'. by injection Hcs' as <-. }
  apply runs_bind. eapply runs_mono; [by apply stage_send| |done]. intros [] w1 H1.
  apply runs_bind. eapply runs_mono; [apply runs_catch_io; by apply stage_send_all| |done]. intros [] w2 H2. rewrite Hf1, Hf2.
  apply runs_bind. eapply runs_mono; [by apply (stage_sessions n s u ck cs c (link_version l) fl Hc own Hrel f _ _ _ Hf H2)| |done]. intros [] w3 H3.
  assert (Forall (known ck cs c (heap (tracker s))) (map snd (cs_transactions cs))) as Hkn.
  { apply List.Forall_forall. intros a ((k & a') & -> & Ha)%list_elem_of_In%list_elem_of_fmap. pose proof (om_map_elem _ _ _ (cr_tsorted _ _ _ _ _ _ Hrel) Ha) as Hl. cbn [snd].
    pose proof (connection_transactions _ _ _ _ _ _ (local_key k) Hrel) as H. rewrite Hl in H. destruct (c_transactions c !! local_key k) as [tx|] eqn:Etx; [|done].
    destruct H as (x & Hx & _ & Hr). by exists (local_key k), tx, x. }
  eapply runs_mono; [by apply (stage_transactions n s u ck cs c (link_version l) fl Hc _ _ _ Hkn H3)| |done]. intros [] w4 [].
  destruct (run_connection (negb (cs_interruptComplete cs) && (5 <? link_version l)) own (heap (tracker s)) u ck cs0 c b Hrel0 Hbk) as (bc & Erun & E1 & E2 & E3 & E4).
  split; try done.
  - eexists. split_and!; [exact rs_core0|exact rs_notices0|apply List.Forall_map; by eapply Forall_impl; [|exact rs_used0]|].
    intros c' Hc' tk tx cmd Htx Hlast. destruct (in_doubt cmd) as [i|] eqn:Ei; [exfalso|done]. pose proof (hear_inv _ _ _ _ Hc') as (c0 & Hc0 & _ & Hsub). rewrite Hc in Hc0. injection Hc0 as <-.
    pose proof (connection_transactions _ _ _ _ _ _ tk Hrel) as H. rewrite (Hsub _ _ Htx) in H. destruct (om_map local_key (cs_transactions cs) !! tk) as [a|] eqn:Ea; [|done].
    destruct H as (x & Hx & _ & Hr). destruct (tr_doubt _ _ _ _ _ _ _ Hr) as (cmd' & Hl' & Hd). rewrite Hlast in Hl'. injection Hl' as <-. specialize (Hd _ Ei).
    destruct (hear_gone _ _ _ _ _ _ _ Hc' Htx Hd) as [_ Hgone]. apply (Hgone (ti_transactionId i)). change (ACommand _) with (rolled_back i). apply list_elem_of_fmap. exists i. split; [done|].
    apply list_elem_of_omap. apply om_map_elem_of in Ea as (k & Hk & _). exists a. split; [apply list_elem_of_fmap; by exists (k, a)|].
    unfold doubt. rewrite Hx. cbn. by rewrite (tr_commands _ _ _ _ _ _ _ Hr), Hlast.
  - by eexists.
  - exists bc. split.
    + rewrite rs_wire0, <- !app_assoc. rewrite run_broker_app, Hb. exact Erun.
    + eapply (told_seen _ _ _ _ _ _ _ _ _ Hrel0); try done. intros sk ss k i Hss Hi Hsl. apply rs_slowed0. right.
      apply om_map_elem_of in Hss as Hss'. destruct Hss' as (ks & Hin & <-). exists (ks, ss). split; [done|]. apply om_map_elem_of in Hi as Hi'. destruct Hi' as (kk & Hin' & <-). exists (kk, i).
      split_and!; [done| |done]. cbn [snd]. pose proof (session_lookup _ _ _ _ _ _ (session_key ks) Hrel0) as H. rewrite Hss in H. destruct (c_sessions c !! session_key ks) as [sx|]; [|done].
      destruct H. apply (sr_kkeys (consumer_key kk)). by rewrite <- sr_consumers, lookup_fmap, Hi.
Qed.
