(* ===== verification/FailoverConnect.v ===== *)
(** * A new connection: all that the client has is restored on it, the messages and the
    requests that wait are sent again, and only then it is the connected one. *)
From stdpp Require Import gmap.
From S2P Require Import Prelude Commands StringUtils OrderedMap TrackedCommands URIPool HashMap StateTracker FailoverSpec FailoverSim FailoverTrack Failover FailoverReplay FailoverBroker FailoverRestore.

(** ** Every connection of the tracker *)

Section restore.
Context (n : Z) (s0 : Failover) (u0 : Client) (version : Z) (fl : list bool) (Hco : core n s0 u0).
Abbreviation keys l := (map connection_key l).

(** With the connections [d] done. *)
Record restored_to (d : list ConnectionId) (w : Failover * Link) : Prop := {
  rt_client : exists u, core n w.1 u /\ told s0 u0 w.1 u /\
    (forall ck c, ck ∈ keys d -> live u !! ck = Some c -> undoubted c) /\
    exists b, run_broker (wire w.2) ∅ = Some b /\ forall ck,
      if decide (ck ∈ keys d) then option_Forall2 (connection_seen (recovers (tracker w.1) ck)) (b !! ck) (live u !! ck) else b !! ck = None;
  rt_rolled : told_rolled s0 w.1;
  rt_steady : steady s0 w.1;
  rt_version : link_version w.2 = version;
  rt_failures : fl = [] -> failures w.2 = [];
  rt_mono : forall ck k, recovers (tracker s0) ck k -> recovers (tracker w.1) ck k;
}.

Lemma told_live s u ck : told s0 u0 s u -> is_Some (live u !! ck) <-> is_Some (live u0 !! ck).
Proof. intros (ns & _ & _ & ->). apply hear_live. Qed.

Lemma failed_trans s1 u1 w : told s0 u0 s1 u1 -> steady s0 s1 -> failed n fl s1 u1 w -> failed n fl s0 u0 w.
Proof. intros Ht Hs (Hfl & u' & Hc & Ht' & Hs'). split; [done|]. exists u'. split_and!; [done|by eapply told_trans|by etrans]. Qed.

Lemma restore_next f d id rest w : restores f -> map fst (connectionStates (tracker s0)) = d ++ id :: rest -> restored_to d w ->
  runs (restore_connection f id) (fun _ w' => restored_to (d ++ [id]) w') (failed n fl s0 u0) w.
Proof.
  intros Hf El [(u & Hu & Ht & Hun & b & Hb & Hseen) Hroll Hs Hv Hfl Hm]. destruct w as [s l]. cbn [fst snd] in *.
  destruct (co_tracker _ _ _ Hco) as [own Htr]. pose proof (tk_sorted _ _ _ _ Htr) as Hsort. pose proof (om_sorted_NoDup _ Hsort) as Hnd.
  assert (map (fun p => connection_key p.1) (connectionStates (tracker s0)) = keys d ++ connection_key id :: keys rest) as Ek
    by (rewrite <- (map_map fst connection_key), El, map_app; done).
  rewrite Ek in Hnd. apply list.NoDup_app in Hnd as (_ & Hnd & _).
  assert (connection_key id ∉ keys d) as Hnew by (intros Hin; apply (Hnd _ Hin); left).
  assert (is_Some (live u !! connection_key id)) as [c Hc].
  { apply (told_live _ _ _ Ht). pose proof (connection_lookup _ _ _ _ (connection_key id) Htr) as H.
    assert (is_Some (om_map connection_key (connectionStates (tracker s0)) !! connection_key id)) as [cs Hcs].
    { assert (id ∈ map fst (connectionStates (tracker s0))) as ((k & cs) & -> & Hin)%list_elem_of_fmap by (rewrite El; apply elem_of_app; right; left).
      exists cs. by apply om_map_elem. }
    rewrite Hcs in H. destruct (live u0 !! _); [by eexists|done]. }
  pose proof (Hseen (connection_key id)) as Hnone. rewrite decide_False in Hnone by done.
  eapply runs_mono; [by apply (restore_connection_ok n s u id c b f l fl Hf Hfl Hu Hc Hb Hnone)| |intros w'; by apply failed_trans].
  intros [] w' [(ns & Hco' & Hns & Hus & Hund) Hroll' Hs' Hv' Hfl' Hm' (bc & Hb' & Hbc)]. split; [|by eapply told_rolled_trans|by etrans|congruence|done|intros ck k Hk; by apply Hm', Hm].
  assert (told s u w'.1 (hear ns u)) as Ht' by by exists ns.
  exists (hear ns u). split_and!; [done|by eapply told_trans| |].
  - intros ck c' Hin Hc'. rewrite map_app in Hin. apply elem_of_app in Hin as [Hin|Hin].
    + apply hear_inv in Hc' as (c0 & Hc0 & Hu0 & _). apply Hu0. by eapply Hun.
    + cbn in Hin. apply list_elem_of_singleton in Hin as ->. by apply Hund.
  - exists (<[connection_key id := bc]> b). split; [done|]. intros ck. specialize (Hseen ck). rewrite map_app. cbn [map].
    destruct (decide (ck = connection_key id)) as [->|Hne].
    + rewrite decide_True by (apply elem_of_app; right; left). rewrite lookup_insert_eq. apply seen_hear. rewrite Hc. by constructor.
    + rewrite lookup_insert_ne by done. destruct (decide (ck ∈ keys d)) as [Hin|Hin].
      * rewrite decide_True by (apply elem_of_app; by left). apply seen_hear. destruct Hseen as [bc' c' Hx|]; constructor. eapply seen_mono; [exact Hx|]. intros k. by apply Hm'.
      * rewrite decide_False; [done|]. intros [?|[?|[]%not_elem_of_nil]%elem_of_cons]%elem_of_app; done.
Qed.

(** The whole: what the broker was told is what the client has. *)
Record told_all (w : Failover * Link) : Prop := {
  ta_client : exists u, core n w.1 u /\ told s0 u0 w.1 u /\ (forall ck c, live u !! ck = Some c -> undoubted c) /\
    exists b, run_broker (wire w.2) ∅ = Some b /\ broker_seen (recovers (tracker w.1)) b (live u);
  ta_rolled : told_rolled s0 w.1;
  ta_steady : steady s0 w.1;
  ta_failures : fl = [] -> failures w.2 = [];
}.

Lemma told_all_keys d w : keys d = map (fun p => connection_key p.1) (connectionStates (tracker s0)) -> restored_to d w -> told_all w.
Proof.
  intros Ek [(u & Hu & Ht & Hun & b & Hb & Hseen) Hroll Hs _ Hfl _]. split; [|done..]. exists u. destruct (co_tracker _ _ _ Hco) as [own Htr].
  assert (forall ck, is_Some (live u !! ck) <-> ck ∈ keys d) as Hk.
  { intros ck. rewrite (told_live _ _ _ Ht), Ek. pose proof (connection_lookup _ _ _ _ ck Htr) as H. split.
    - intros [c Hc]. rewrite Hc in H. destruct (om_map connection_key (connectionStates (tracker s0)) !! ck) as [cs|] eqn:E; [|done].
      apply om_map_elem_of in E as (k & Hin & <-). apply list_elem_of_fmap. by exists (k, cs).
    - intros ((k & cs) & -> & Hin)%list_elem_of_fmap. cbn [fst] in *. rewrite (om_map_elem _ _ _ (tk_sorted _ _ _ _ Htr) Hin) in H. by destruct (live u0 !! _). }
  split_and!; try done.
  - intros ck c Hc. eapply Hun; [|exact Hc]. apply Hk. by eexists.
  - exists b. split; [done|]. intros ck. specialize (Hseen ck). case_decide as Hd; [done|]. rewrite Hseen. destruct (live u !! ck) eqn:E; [|constructor]. exfalso. apply Hd, Hk. by eexists.
Qed.

(** Commands that a broker keeps nothing of may follow. *)
Lemma told_all_send cmd w : inert cmd = true -> told_all w -> runs (transport_oneway cmd) (fun _ w' => told_all w' /\ wire w'.2 = wire w.2 ++ [cmd] /\ w'.1 = w.1) (failed n fl s0 u0) w.
Proof.
  intros Hi [(u & Hu & Ht & Hun & b & Hb & Hseen) Hroll Hs Hfl]. destruct w as [s l]. cbn [fst snd] in *.
  assert (forall l', wire l' = wire l ++ [cmd] -> (fl = [] -> failures l' = []) -> told_all (s, l') /\ wire (s, l').2 = wire l ++ [cmd] /\ (s, l').1 = s) as Hok.
  { intros l' El Hfl'. split_and!; [|done..]. split; [|done..]. exists u. split_and!; try done. exists b. split; [|done]. cbn [snd]. rewrite El, run_broker_app, Hb. cbn. by rewrite (inert_step _ _ Hi). }
  unfold runs. cbn -[failed]. unfold on_snd, link_oneway. cbn -[failed]. destruct (failures l) as [|[] r]; [by apply Hok| |apply Hok; [done|]; intros E; by specialize (Hfl E)].
  split; [done|]. split; [intros E; by specialize (Hfl E)|]. by exists u.
Qed.

Lemma told_all_sends cmds w : Forall (fun cmd => inert cmd = true) cmds -> told_all w ->
  runs (send_all cmds) (fun _ w' => told_all w' /\ wire w'.2 = wire w.2 ++ cmds /\ w'.1 = w.1) (failed n fl s0 u0) w.
Proof.
  intros Hi Hw. eapply runs_mono; [|intros ? ? H; exact H|done].
  apply (runs_iter transport_oneway (fun d _ w' => told_all w' /\ wire w'.2 = wire w.2 ++ d /\ w'.1 = w.1)); [by rewrite app_nil_r|].
  intros d x rest w' El (Hw' & Ew & E1). assert (inert x = true) as Hx by (rewrite List.Forall_forall in Hi; apply Hi; rewrite El; apply in_elt).
  eapply runs_mono; [by apply told_all_send| |done]. intros [] w2 (H2 & Ew2 & E2). split_and!; [done|by rewrite Ew2, Ew, app_assoc|congruence].
Qed.

Lemma cached_inert t : caches_ok n t -> Forall (fun cmd => inert cmd = true) (map CMessage (chain_values (messageCache t))).
Proof.
  intros Hc. apply List.Forall_map, List.Forall_forall. intros m Hm%list_elem_of_In. apply list_elem_of_omap in Hm as (k & _ & Hk). rewrite value_of_abs in Hk.
  unfold inert. cbn. by rewrite (ca_messages_plain _ _ Hc _ _ Hk).
Qed.

Lemma pulls_inert (l : list MessagePull) : Forall (fun cmd => inert cmd = true) (map CMessagePull l).
Proof. apply List.Forall_map, List.Forall_forall. done. Qed.

Lemma restore_ok l : wire l = [CConnectionControl new_base true] -> link_version l = version -> (fl = [] -> failures l = []) -> runs restore (fun _ w => told_all w) (failed n fl s0 u0) (s0, l).
Proof.
  intros El Hv Hfl. unfold restore. apply runs_catch_io, runs_bind. eapply (runs_ok _ _ _ _ (tracker s0) (s0, l)).
  { cbn [on_tracker restoring]. unfold on_fst, in_tracker, get. cbn [fst snd]. by destruct s0. }
  destruct (co_tracker _ _ _ Hco) as [own Htr]. pose proof (tk_settings _ _ _ _ Htr) as Hf. set (ids := map fst (connectionStates (tracker s0))) in *.
  apply runs_bind. eapply runs_mono; [apply (runs_iter _ (fun d _ w => restored_to d w) (failed n fl s0 u0) ids)| |done].
  - split; [|exists []; by rewrite app_nil_r|reflexivity|done|done|done]. exists u0. split_and!; [done|apply told_refl|by intros ck c ?%not_elem_of_nil|]. exists ∅. split; [cbn [snd]; by rewrite El|]. intros ck. rewrite decide_False by apply not_elem_of_nil. apply lookup_empty.
  - intros d x rest w Ed Hw. by eapply restore_next.
  - intros [] w Hw. apply (told_all_keys ids) in Hw; [|unfold ids; by rewrite map_map]. pose proof Hw as [(u & Hu & _) _ _ _]. destruct (co_tracker _ _ _ Hu) as [own' Htr']. pose proof (tk_caches _ _ _ _ Htr') as Hca.
    apply runs_bind. eapply (runs_ok _ _ _ _ (tracker w.1) w); [destruct w as [[] ?]; cbn; unfold on_fst, in_tracker, get; done|].
    apply runs_bind. eapply runs_mono; [by apply told_all_sends; [apply cached_inert|]| |done]. intros [] w2 (H2 & _ & _).
    eapply runs_mono; [apply told_all_sends; [apply pulls_inert|done]| |done]. by intros [] w3 (H3 & _).
Qed.

Lemma requests_inert rm u : requests_rel rm u -> Forall (fun cmd => inert cmd = true) (map (fun p => request_command p.2) rm).
Proof.
  intros Hr. apply List.Forall_map, List.Forall_forall. intros [id r] Hin%list_elem_of_In. cbn [snd]. destruct r as [c|i]; [|done]. cbn [request_command].
  apply (rq_held _ _ Hr id). by apply (om_map_elem (norm := fun z : Z => z)); [apply (rq_sorted _ _ Hr)|].
Qed.

(** The requests that wait are sent again last. *)
Lemma restoreTransport_ok l : wire l = [] -> link_version l = version -> (fl = [] -> failures l = []) ->
  runs restoreTransport (fun _ w => told_all w /\ exists sent, wire w.2 = sent ++ map (fun p => request_command p.2) (requestMap w.1)) (failed n fl s0 u0) (s0, l).
Proof.
  intros El Hv Hfl. unfold restoreTransport. apply runs_catch_io, runs_bind.
  eapply (runs_mono _ (fun _ w => w.1 = s0 /\ wire w.2 = [CConnectionControl new_base true] /\ link_version w.2 = version /\ (fl = [] -> failures w.2 = []))); [| |intros w; exact id].
  - unfold runs. cbn -[failed]. unfold on_snd, link_oneway. cbn -[failed]. destruct (failures l) as [|[] r]; cbn -[failed]; rewrite ?El; try done.
    + split; [done|]. split; [intros E; by specialize (Hfl E)|]. exists u0. split_and!; [done|apply told_refl|done].
    + split_and!; try done. intros E. by specialize (Hfl E).
  - intros [] [s' l'] (Es & Ew & Ev & Hfl'). cbn [fst snd] in *. subst s'. apply runs_bind. eapply runs_mono; [by apply restore_ok| |done]. intros [] w Hw. apply runs_bind_get.
    pose proof Hw as [(u & Hu & _) _ _ _]. eapply runs_mono; [apply told_all_sends; [by eapply requests_inert, (co_requests _ _ _ Hu)|done]| |done].
    intros [] w2 (H2 & Ew2 & E2). split; [done|]. exists (wire w.2). by rewrite E2.
Qed.
End restore.
