(* ===== verification/FailoverRun.v ===== *)
(** * A failover transport in use: sends, responses, failures and reconnections keep it, the
    client it serves and the broker it is connected to together. *)
From stdpp Require Import gmap.
From S2P Require Import Prelude Commands StringUtils OrderedMap TrackedCommands URIPool HashMap StateTracker FailoverSpec FailoverSim FailoverTrack Failover FailoverReplay FailoverBroker FailoverRestore FailoverConnect.

(** ** The invariant *)

(** Open, and with attempts to make. *)
Definition open (s : Failover) : Prop :=
  started (life s) = true /\ closed (life s) = false /\ shutdown (life s) = false /\ connectionFailure (life s) = None /\
  maxReconnectAttempts (limits s) <> 0 /\ startupMaxReconnectAttempts (limits s) <> 0.

Definition in_step (s : Failover) (u : Client) : Prop :=
  forall l, connectedTransport s = Some l -> exists b, run_broker (wire l) ∅ = Some b /\ broker_seen (recovers (tracker s)) b (live u).

Record sim (n : Z) (s : Failover) (u : Client) : Prop := {
  si_core : core n s u;
  si_open : open s;
  si_first : firstConnection (life s) = true -> live u = ∅ /\ connectedTransport s = None;
  si_link : in_step s u;
}.

Lemma core_weaken n n' s u : core n s u -> n' <= n -> core n' s u.
Proof.
  intros [[own Ht] Hr] Hn. split; [|done]. exists own. eapply tracker_rel_caches; [exact Ht|done|]. eapply caches_weaken; [apply (tk_caches _ _ _ _ Ht)|done].
Qed.
Lemma sim_weaken n n' s u : sim n s u -> n' <= n -> sim n' s u.
Proof. intros [] Hn. split; try done. by eapply core_weaken. Qed.

Lemma open_steady s s' : open s -> steady s s' -> open s'.
Proof. intros (?&?&?&?&?&?) (Ec&El&Es&Ecl&Esh&Ef&Efa&_). unfold open. rewrite El, Es, Ecl, Esh, Efa. done. Qed.

Lemma open_canReconnect s : open s -> canReconnect s = true.
Proof.
  intros (Hs & _ & _ & _ & H1 & H2). unfold canReconnect, calculateReconnectAttemptLimit. rewrite Hs. cbn [andb]. apply negb_true_iff, Z.eqb_neq. destruct (_ && _); congruence.
Qed.

Lemma open_waiting s : open s -> connectedTransport s = None -> waiting s = true.
Proof.
  intros Ho Hn. pose proof (open_canReconnect _ Ho) as Hc. destruct Ho as (Hs & Hcl & _ & Hf & _). unfold waiting, isClosedOrFailed, willReconnect, canReconnect in *.
  rewrite Hn, Hcl, Hf. rewrite Hs in Hc. cbn [andb] in Hc. rewrite Hc. apply orb_true_r.
Qed.

Lemma empty_hear ns u : live u = ∅ -> live (hear ns u) = ∅.
Proof. intros Hu. apply map_empty. intros ck. destruct (live (hear ns u) !! ck) eqn:E; [|done]. assert (is_Some (live u !! ck)) as [? H] by (apply (hear_live ns); by eexists). by rewrite Hu, lookup_empty in H. Qed.

(** ** Responses *)

Lemma sim_command n s u c : sim n s u -> about_used u (ACommand c) ->
  exists s', onCommand c s = (Ok tt, s') /\ sim n s' (hear1 u (ACommand c)) /\ told s u s' (hear1 u (ACommand c)) /\ connectedTransport s' = connectedTransport s.
Proof.
  intros [Hco Ho Hf Hl] Hu. destruct (onCommand_ok n s u c Hco Hu) as (s' & E & Hco' & Hs & Hn & Hrec). exists s'. split_and!; [done| |by apply told_step|apply Hs].
  pose proof Hs as (Ec & _ & _ & _ & _ & Ef & _). split; [done|by eapply open_steady| |].
  - rewrite Ef, Ec. intros H. destruct (Hf H) as [He ?]. split; [|done]. by apply (empty_hear [ACommand c]).
  - intros l. rewrite Ec. intros Hc. destruct (Hl l Hc) as (b & Hb & Hseen). exists b. split; [done|].
    apply (broker_seen_weaken (recovers (tracker s))); [|intros ck k Hk _; by apply Hrec]. destruct c; try done; by apply seen_answer.
Qed.

(** ** The loss of the connection *)

Lemma transportInterrupted_ok own n t u : tracker_rel own n t u -> exists t', transportInterrupted t = (Ok tt, t') /\ tracker_rel own n t' u.
Proof.
  intros Ht. eexists. split; [reflexivity|]. set (f := fun c => set_recovering false (cs_recoveringPullConsumers c) c).
  pose proof (om_sorted_fmap connection_less f _ (tk_sorted _ _ _ _ Ht)) as Hs. pose proof (om_map_fmap connection_key f (connectionStates t)) as Em.
  pose proof Ht as []. split; try done.
  - intros ck. cbn [set_connectionStates connectionStates heap]. change (map _ (connectionStates t)) with (map (fun p => (p.1, f p.2)) (connectionStates t)). rewrite Em, lookup_fmap.
    pose proof (connection_lookup _ _ _ _ ck Ht) as H. destruct (om_map connection_key (connectionStates t) !! ck) as [cs|], (live u !! ck) as [c|]; try done; [|constructor]. constructor.
    apply connection_rel_subset; [done|apply (cr_rsorted _ _ _ _ _ _ H)|done].
  - destruct tk_caches. by split.
Qed.

Lemma core_failure n s u e : core n s u -> open s -> (firstConnection (life s) = true -> live u = ∅ /\ connectedTransport s = None) ->
  exists s', handleTransportFailure e s = (Ok tt, s') /\ sim n s' u /\ (forall v, told s v s' v) /\ connectedTransport s' = None /\ limits s' = limits s /\
    firstConnection (life s') = firstConnection (life s) /\ requestMap s' = requestMap s.
Proof.
  intros Hco Ho Hf. pose proof Ho as (Hst & Hcl & Hsh & Hfa & Hm & Hsm). unfold handleTransportFailure. rewrite bind_get, Hsh.
  destruct (connectedTransport s) as [l|] eqn:Ec.
  2: { exists s. split_and!; try done; [|intros v; by apply told_same]. split; try done; [by rewrite Ec|]. intros l. by rewrite Ec. }
  rewrite bind_modify. rewrite (open_canReconnect _ Ho). destruct (co_tracker _ _ _ Hco) as [own Ht]. destruct (transportInterrupted_ok _ _ _ _ Ht) as (t' & Et & Ht').
  set (s1 := set_life (set_initialized false (life s)) (set_connected None s)).
  assert (exists p, addURI (link_uri l) (uris s1) = (Ok p.1, p.2)) as ((a & p) & Ea).
  { unfold addURI. rewrite bind_modify, bind_get. destruct (pool_contains _ _); [by eexists (_, _)|]. rewrite bind_modify. by eexists (_, _). }
  assert (forall q, exists p, removeURI (link_uri l) q = (Ok p.1, p.2)) as Hrem.
  { intros q. unfold removeURI. rewrite bind_get. destruct (pool_contains _ _); [rewrite bind_modify|]; by eexists (_, _). }
  set (s2 := set_pools p (updated s1) s1). set (s3 := set_tracker t' s2). set (s4 := mkFailover t' None (requestMap s3) (limits s3) (life s3) (uris s3) (updated s3) (notices s3 ++ [Interrupted])).
  destruct (Hrem (updated s4)) as ((a' & p') & Er). exists (set_pools (uris s4) p' s4). split.
  - rewrite (bind_ok _ _ _ tt s1) by done. rewrite (bind_ok _ _ _ a s2) by (unfold in_uris; by rewrite Ea). rewrite (bind_ok _ _ _ tt s3) by (unfold in_tracker; change (tracker s2) with (tracker s); by rewrite Et).
    rewrite (bind_ok _ _ _ tt s4) by done. rewrite (bind_ok _ _ _ a' (set_pools (uris s4) p' s4)) by (unfold in_updated; by rewrite Er). done.
  - split_and!; try done; [|intros v; by apply (told_step s v _ Interrupted)]. split; try done; [split; [by exists own|apply (co_requests _ _ _ Hco)]|]. intros H. by destruct (Hf H).
Qed.

(** ** A connection *)

Definition connects_ok n s u (fl : list bool) (s' : Failover) : Prop :=
  exists u', sim n s' u' /\ told s u s' u' /\ limits s' = limits s /\ firstConnection (life s') = false /\
    (forall ck c, live u' !! ck = Some c -> undoubted c) /\ (exists rb, notices s' = notices s ++ map rolled_back rb ++ [Resumed]) /\
    exists l', connectedTransport s' = Some l' /\ (fl = [] -> failures l' = []) /\
      (firstConnection (life s) = false -> exists sent, wire l' = sent ++ map (fun p => request_command p.2) (requestMap s')).

Lemma sim_connect n s u l : sim n s u -> connectedTransport s = None -> wire l = [] ->
  runs (connect l) (fun _ s' => connects_ok n s u (failures l) s') (fun s' => failures l <> [] /\ exists u', sim n s' u' /\ told s u s' u' /\ connectedTransport s' = None /\ limits s' = limits s /\ steady s s') s.
Proof.
  intros [Hco Ho Hf Hl] Hnc Hw. pose proof Ho as (Hst & _). unfold runs, connect. rewrite Hst. cbn [andb].
  destruct (firstConnection (life s)) eqn:Ef; cbn [negb].
  - destruct (Hf eq_refl) as [He _]. cbn. exists u. split_and!; try done; [|by apply (told_step s u _ Resumed)|by intros ck c; rewrite He, lookup_empty|by exists []|exists l; split_and!; [done|done|intros; congruence]].
    split; try done; [by destruct Hco|]. intros l' [= <-]. exists ∅. rewrite Hw. split; [done|]. rewrite He. apply map_Forall2_empty.
  - pose proof (restoreTransport_ok n s u (link_version l) (failures l) Hco l Hw eq_refl id) as Hr. unfold runs in Hr. destruct (restoreTransport (s, l)) as [[[]|e| |] [s1 l1]]; try done.
    + destruct Hr as [[(u' & Hu & Ht & Hun & b & Hb & Hseen) [rb Hroll] Hs Hfl] [sent Hsent]]. cbn [fst snd] in *. cbn. exists u'. pose proof (open_steady _ _ Ho Hs) as Ho'.
      pose proof Hs as (_ & Elim & _ & _ & _ & Ef' & _). split_and!; try done.
      * split; [by destruct Hu|done|done|]. intros l' [= <-]. by exists b.
      * destruct Ht as (ns & En & Fn & ->). exists (ns ++ [Resumed]). split_and!; [cbn; by rewrite En, app_assoc|apply List.Forall_app; by split; [|repeat constructor]|].
        unfold hear. by rewrite foldl_app.
      * exists rb. cbn. by rewrite Hroll, app_assoc.
      * exists l1. split_and!; [done|done|]. intros _. by exists sent.
    + destruct Hr as [-> (Hfl & u' & Hu & Ht & Hs)]. cbn [fst snd] in *. split; [done|]. split; [done|]. exists u'. pose proof Hs as (Ec & Elim & _ & _ & _ & Ef' & _). rewrite Ec.
      split_and!; try done. split; [done|by eapply open_steady|by rewrite Ef', Ef|]. intros l'. by rewrite Ec, Hnc.
Qed.

(** ** Requests: what a command of the client leaves to wait for *)

(** The request that ended a transaction. *)
Definition pend (c : Connection) (tk : transaction_name) : option Z := x ← c_transactions c !! tk; tx_request x.
Definition pending (u : Client) (ck : connection_name) (tk : transaction_name) : option Z := c ← live u !! ck; pend c tk.

Definition ended (cmd : Command) (tk : transaction_name) : option Z :=
  match cmd with
  | CTransactionInfo i => if ends_transaction i && bool_decide (local_key (as_local (ti_transactionId i)) = tk) then Some (commandId (ti_base i)) else None
  | _ => None
  end.

Lemma pend_record tk cmd c c' tk' : record_in tk cmd c = Some c' -> pend c' tk' = pend c tk'.
Proof.
  intros (x & Hx & ->)%record_in_inv. unfold pend. cbn [c_transactions with_transactions]. destruct (decide (tk' = tk)) as [->|Hne]; [|by rewrite lookup_insert_ne].
  by rewrite lookup_insert_eq, Hx.
Qed.

Lemma pend_transaction i c c' tk : transaction_step mark i c = Some c' -> pend c' tk = match ended (CTransactionInfo i) tk with Some id => Some id | None => pend c tk end.
Proof.
  unfold transaction_step, ended, ends_transaction. destruct (ti_transactionId i) as [t|]; [|done]. cbv zeta. cbn [as_local]. destruct (Z.eqb_spec (ti_type i) TRANSACTION_STATE_BEGIN) as [->|Hb].
  - destruct (c_transactions c !! local_key (Some t)) eqn:E; [done|]. intros [= <-]. cbn [andb orb]. unfold pend. cbn [c_transactions with_transactions].
    destruct (decide (tk = local_key (Some t))) as [->|Hne]; [by rewrite lookup_insert_eq, E|by rewrite lookup_insert_ne].
  - destruct ((ti_type i =? TRANSACTION_STATE_PREPARE) || (ti_type i =? TRANSACTION_STATE_END)) eqn:Er.
    + intros H. rewrite (pend_record _ _ _ _ tk H). by apply orb_true_iff in Er as [Er|Er]; apply Z.eqb_eq in Er; rewrite Er.
    + destruct ((ti_type i =? TRANSACTION_STATE_COMMITONEPHASE) || (ti_type i =? TRANSACTION_STATE_COMMITTWOPHASE) || (ti_type i =? TRANSACTION_STATE_ROLLBACK)); [|done]. cbn [andb].
      destruct (c_transactions c !! local_key (Some t)) as [x|] eqn:E; [|done]. intros [= <-]. unfold pend, mark. cbn [c_transactions with_transactions].
      destruct (decide (tk = local_key (Some t))) as [->|Hne]; [by rewrite lookup_insert_eq, bool_decide_true|]. rewrite bool_decide_false by congruence. by rewrite lookup_insert_ne.
Qed.

Lemma pend_step cmd u c oc tk : live_step mark cmd c = Some oc -> allowed cmd u (Some c) -> (forall i, cmd <> CConnectionInfo i) ->
  match oc with Some c' => pend c' tk = match ended cmd tk with Some id => Some id | None => pend c tk end | None => pend c tk = None /\ ended cmd tk = None end.
Proof.
  intros Hs Ha Hn. destruct cmd; try done; cbn [live_step] in Hs; try (by injection Hs as <-).
  - by destruct (Hn i).
  - destruct (on_session_of _ _ c) as [c'|] eqn:E; [|done]. injection Hs as <-. by apply on_session_of_inv in E as (s & _ & ->).
  - destruct (on_session_of _ _ c) as [c'|] eqn:E; [|done]. injection Hs as <-. by apply on_session_of_inv in E as (s & _ & ->).
  - cbn [allowed] in Ha. destruct (objectId i); cbn [remove_step] in Hs; [|by injection Hs as <-| | |done].
    + injection Hs as <-. split; [|done]. unfold pend. destruct (c_transactions c !! tk) as [x|] eqn:E; [|done]. by apply (Ha tk).
    + destruct (on_session_of _ _ c) as [c'|] eqn:E; [|done]. injection Hs as <-. by apply on_session_of_inv in E as (s & _ & ->).
    + destruct (on_session_of _ _ c) as [c'|] eqn:E; [|done]. injection Hs as <-. by apply on_session_of_inv in E as (s & _ & ->).
  - destruct (transaction_step mark i c) as [c'|] eqn:E; [|done]. injection Hs as <-. by apply pend_transaction.
  - destruct (me_transactionId m) as [[t|]|]; [|done..]. unfold message_step in Hs. destruct (has_producer _ _); [|done]. destruct (record_in _ _ c) as [c'|] eqn:E; [|done].
    injection Hs as <-. by eapply pend_record.
Qed.

(** A new connection is one that was not there. *)
Lemma pending_step own n t u u' cmd ck tk : tracker_rel own n t u -> client_step cmd u = Some u' ->
  pending u' ck tk = match (if decide (connection_of cmd = Some ck) then ended cmd tk else None) with Some id => Some id | None => pending u ck tk end.
Proof.
  intros Ht (Ha & _ & b & Hs & ->)%client_step_inv. unfold pending. cbn [live with_live]. destruct (connection_of cmd) as [ck'|] eqn:Hck; cycle 1.
  - destruct (step_with_none _ _ _ _ Hck Hs) as [-> _]. by rewrite decide_False.
  - destruct (step_with_inv _ _ _ _ _ Hck Hs) as (oc & Hoc & ->). cbn [mbind option_bind] in Ha. destruct (decide (ck' = ck)) as [->|Hne].
    2: { rewrite decide_False by congruence. destruct oc; by rewrite ?lookup_insert_ne, ?lookup_delete_ne by done. }
    rewrite decide_True by done. assert (match oc with Some c => <[ck := c]> (live u) | None => delete ck (live u) end !! ck = oc) as -> by (destruct oc; [apply lookup_insert_eq|apply lookup_delete_eq]).
    destruct (live u !! ck) as [c|] eqn:El; cbn [connection_step mbind option_bind] in *.
    + assert ((exists i, cmd = CConnectionInfo i) \/ forall i, cmd <> CConnectionInfo i) as [[i ->]|Hn] by (destruct cmd; [left; by eexists|by right..]).
      * exfalso. injection Hck as Hck. cbn [allowed] in Ha. apply Ha. rewrite Hck. pose proof (connection_lookup _ _ _ _ ck Ht) as H. rewrite El in H.
        destruct (om_map _ _ !! ck) as [cs|]; [|done]. apply (cr_used _ _ _ _ _ _ H).
      * pose proof (fun tk => pend_step cmd u c oc tk Hoc Ha) as H. destruct oc as [c'|]; [by apply H|]. destruct (H tk Hn) as [H1 H2]. by rewrite H1, H2.
    + destruct cmd; try done; cbn in *.
      * by injection Hoc as <-.
      * destruct (objectId i); try done. by injection Hoc as <-.
Qed.

Lemma ends_pending u i id ck tk : ends_in u i id ck tk <->
  (exists cid t, ti_connectionId i = Some cid /\ ti_transactionId i = Local t /\ ck = connection_key cid /\ tk = local_key (Some t)) /\ pending u ck tk = Some id.
Proof.
  unfold ends_in, pending, pend. split.
  - intros (cid & t & c & x & E1 & E2 & -> & -> & Hc & Hx & Hid). split; [by exists cid, t|]. rewrite Hc. cbn [mbind option_bind]. by rewrite Hx.
  - intros [(cid & t & E1 & E2 & -> & ->) Hp]. destruct (live u !! connection_key cid) as [c|] eqn:Hc; [|done]. cbn [mbind option_bind] in Hp. destruct (c_transactions c !! local_key (Some t)) as [x|] eqn:Hx; [|done].
    exists cid, t, c, x. by split_and!.
Qed.

(** What waits for the response of a command. *)
Definition request_of (cmd : Command) : option Request :=
  if untracked cmd then if isResponseRequired cmd then Some (Held cmd) else None
  else match tracked_as cmd with Action i => Some (Waiting i) | Marker => None end.
Definition put_request (cmd : Command) (rm : list (Z * Request)) : list (Z * Request) :=
  match request_of cmd with Some r => om_set Z.ltb (getCommandId cmd) r rm | None => rm end.

Lemma client_step_used cmd u u' : client_step cmd u = Some u' -> used_ids u' = {[getCommandId cmd]} ∪ used_ids u.
Proof. intros (_ & _ & b & _ & ->)%client_step_inv. cbn [used_ids with_live]. unfold note_use. by repeat case_match. Qed.

Lemma requested_put cmd rm id : om_sorted Z.ltb rm ->
  requested (put_request cmd rm) !! id = if decide (id = getCommandId cmd) then match request_of cmd with Some r => Some r | None => requested rm !! id end else requested rm !! id.
Proof.
  intros Hs. unfold put_request. destruct (request_of cmd) as [r|]; [|by case_decide]. unfold requested. rewrite (proj2 (om_set_ok (norm := fun z : Z => z) _ _ _ Hs)).
  case_decide as E; [subst id; apply lookup_insert_eq|by apply lookup_insert_ne].
Qed.

Lemma put_sorted cmd rm : om_sorted Z.ltb rm -> om_sorted Z.ltb (put_request cmd rm).
Proof. intros Hs. unfold put_request. destruct (request_of cmd); [by apply (om_set_ok (norm := fun z : Z => z))|done]. Qed.

(** A transaction that is ended was not ended before. *)
Lemma client_transaction i u u' : client_step (CTransactionInfo i) u = Some u' ->
  exists cid t, ti_connectionId i = Some cid /\ ti_transactionId i = Local t /\
    (ends_transaction i = true -> pending u (connection_key cid) (local_key (Some t)) = None).
Proof.
  intros (Ha & _ & b & Hs & _)%client_step_inv. destruct (ti_connectionId i) as [cid|] eqn:Ec; [|by unfold step_with in Hs; cbn in Hs; rewrite Ec in Hs].
  assert (connection_of (CTransactionInfo i) = Some (connection_key cid)) as Hck by (cbn; by rewrite Ec). destruct (step_with_inv _ _ _ _ _ Hck Hs) as (oc & Hoc & _).
  rewrite Hck in Ha. cbn [mbind option_bind] in Ha. destruct (live u !! connection_key cid) as [c|] eqn:El; [|done]. cbn [connection_step live_step] in Hoc.
  destruct (transaction_step mark i c) as [c'|] eqn:Et; [|done]. unfold transaction_step in Et. cbn [allowed] in Ha. destruct (ti_transactionId i) as [t|]; [|done]. rewrite Ec in Ha.
  exists cid, t. split_and!; [done..|]. intros Hends. assert (ti_type i =? TRANSACTION_STATE_BEGIN = false) as Hb.
  { destruct (Z.eqb_spec (ti_type i) TRANSACTION_STATE_BEGIN) as [E|]; [|done]. unfold ends_transaction in Hends. by rewrite E in Hends. }
  rewrite Hb in Ha. unfold pending, pend. rewrite El. cbn [mbind option_bind]. by destruct (c_transactions c !! local_key (Some t)).
Qed.

(** The command that waits for the end of a transaction. *)
Lemma waiting_request cmd i : request_of cmd = Some (Waiting i) -> cmd = CTransactionInfo i /\ ends_transaction i = true.
Proof.
  unfold request_of. destruct (untracked cmd) eqn:Eu; [by destruct (isResponseRequired cmd)|]. destruct cmd; try done. cbn [tracked_as]. destruct (ends_transaction i0) eqn:E; [|done].
  intros [= ->]. done.
Qed.

Definition names_transaction (i : TransactionInfo) (ck : connection_name) (tk : transaction_name) : Prop :=
  exists cid t, ti_connectionId i = Some cid /\ ti_transactionId i = Local t /\ ck = connection_key cid /\ tk = local_key (Some t).

Lemma ended_request cmd u u' ck tk id : client_step cmd u = Some u' -> connection_of cmd = Some ck -> ended cmd tk = Some id ->
  id = getCommandId cmd /\ pending u ck tk = None /\ exists i, request_of cmd = Some (Waiting i) /\ names_transaction i ck tk.
Proof.
  intros Hs Hck He. destruct cmd; try done. cbn [ended] in He. destruct (ends_transaction i) eqn:Ee; [|done]. cbn [andb] in He.
  destruct (bool_decide _) eqn:Ed; [|done]. apply bool_decide_eq_true in Ed. injection He as <-. destruct (client_transaction _ _ _ Hs) as (cid & t & Ec & Et & Hp).
  cbn [connection_of] in Hck. rewrite Ec in Hck. injection Hck as <-. rewrite Et in Ed. cbn [as_local] in Ed. subst tk. split_and!; [done|by apply Hp|]. exists i.
  split; [unfold request_of; cbn; by rewrite Ee|by exists cid, t].
Qed.

Lemma request_ended cmd u u' i : client_step cmd u = Some u' -> request_of cmd = Some (Waiting i) ->
  exists ck tk, names_transaction i ck tk /\ connection_of cmd = Some ck /\ ended cmd tk = Some (getCommandId cmd).
Proof.
  intros Hs [-> Ee]%waiting_request. destruct (client_transaction _ _ _ Hs) as (cid & t & Ec & Et & _). exists (connection_key cid), (local_key (Some t)). split_and!.
  - by exists cid, t.
  - cbn. by rewrite Ec.
  - cbn [ended]. by rewrite Ee, Et, bool_decide_true.
Qed.

Lemma requests_step own n t rm u u' cmd : tracker_rel own n t u -> requests_rel rm u -> client_step cmd u = Some u' -> requests_rel (put_request cmd rm) u'.
Proof.
  intros Ht Hr Hs. pose proof Hr as []. pose proof (fun ck tk => pending_step _ _ _ _ _ _ ck tk Ht Hs) as Hp. pose proof Hs as (Ha & Hf & _)%client_step_inv.
  pose proof (client_step_used _ _ _ Hs) as Eu. assert (forall id, id ∈ used_ids u -> id <> getCommandId cmd) as Hne by (intros id Hid ->; done).
  split; [by apply put_sorted| | | |].
  - intros id. rewrite (requested_put _ _ _ rq_sorted), Eu. case_decide as E; [intros _; subst id; by apply elem_of_union_l, elem_of_singleton|]. intros Hid. apply elem_of_union_r. by apply rq_used.
  - intros id c. rewrite (requested_put _ _ _ rq_sorted). case_decide as E; [|by apply rq_held]. destruct (request_of cmd) as [r|] eqn:Er; [|by apply rq_held]. intros [= ->].
    unfold request_of in Er. destruct (untracked cmd) eqn:Eun; [|by destruct (tracked_as cmd)]. destruct (isResponseRequired cmd); [|done]. injection Er as <-. unfold inert. rewrite Eun. by destruct cmd.
  - intros id i. rewrite (requested_put _ _ _ rq_sorted). intros Hi. assert (id = getCommandId cmd /\ request_of cmd = Some (Waiting i) \/ requested rm !! id = Some (Waiting i)) as [[-> Er]|Hold].
    { case_decide; [|by right]. destruct (request_of cmd); [left; by injection Hi as ->|by right]. }
    + destruct (request_ended _ _ _ _ Hs Er) as (ck & tk & Hk & Hck & He). exists ck, tk. apply ends_pending. split; [done|]. by rewrite Hp, decide_True, He.
    + destruct (rq_waiting _ _ Hold) as (ck & tk & [Hk Hpe]%ends_pending). exists ck, tk. apply ends_pending. split; [done|]. rewrite Hp. destruct (decide (connection_of cmd = Some ck)) as [Hck|]; [|done].
      destruct (ended cmd tk) as [id'|] eqn:Ee; [|done]. destruct (ended_request _ _ _ _ _ _ Hs Hck Ee) as (_ & Hn & _). congruence.
  - intros ck c tk tx id Hc Htx Hid. assert (pending u' ck tk = Some id) as Hpe by (unfold pending, pend; rewrite Hc; cbn [mbind option_bind]; by rewrite Htx).
    pose proof (Hp ck tk) as E. rewrite Hpe in E. assert (pending u ck tk = Some id \/ connection_of cmd = Some ck /\ ended cmd tk = Some id) as [Hold|[Hck He]].
    { destruct (decide (connection_of cmd = Some ck)); [|by left]. destruct (ended cmd tk); [right; split; [done|congruence]|by left]. }
    + assert (exists i, requested rm !! id = Some (Waiting i) /\ ends_in u i id ck tk) as (i & Hi & [Hk _]%ends_pending).
      { unfold pending, pend in Hold. destruct (live u !! ck) as [c0|] eqn:Ec0; [|done]. cbn [mbind option_bind] in Hold. destruct (c_transactions c0 !! tk) as [x|] eqn:Ex; [|done]. by eapply rq_pending. }
      exists i. rewrite (requested_put _ _ _ rq_sorted), decide_False by (apply Hne, rq_used; by eexists). split; [done|]. by apply ends_pending.
    + destruct (ended_request _ _ _ _ _ _ Hs Hck He) as (-> & _ & i & Er & Hk). exists i. rewrite (requested_put _ _ _ rq_sorted), decide_True, Er by done. split; [done|]. by apply ends_pending.
Qed.

(** ** Tracking a command *)

Lemma tracker_rel_grow own n t u u' : tracker_rel own n t u -> uses_grow u u' -> live u' = live u -> tracker_rel own n t u'.
Proof.
  intros [] Hg El. split; try done.
  - intros a x Hx. apply Hg. by eapply tk_used.
  - intros ck. rewrite El. destruct (tk_connections ck) as [cs c Hc|]; constructor. by eapply connection_rel_grow.
Qed.

Lemma untracked_step cmd u u' : untracked cmd = true -> client_step cmd u = Some u' -> live u' = live u /\ uses_grow u u' /\ inert cmd = true.
Proof.
  intros Hu (Ha & _ & b & Hs & ->)%client_step_inv. assert (connection_of cmd = None /\ inert cmd = true) as [Hn Hi].
  { unfold inert. rewrite Hu. destruct cmd; try done; cbn in *; by destruct (me_transactionId m). }
  destruct (step_with_none _ _ _ _ Hn Hs) as [-> _]. split_and!; [done| |done]. etrans; [apply note_use_grows|apply with_live_grows].
Qed.

Definition tracked_result (cmd : Command) : option Tracked := if untracked cmd then None else Some (tracked_as cmd).

Lemma track_ok own n t u u' cmd : tracker_rel own (n + 1) t u -> 0 <= n -> client_step cmd u = Some u' ->
  exists own' t', track cmd t = (Ok (tracked_result cmd), t') /\ tracker_rel own' n t' u' /\
    forall ck k, recovers t ck k -> consumes (live u') ck k -> recovers t' ck k.
Proof.
  intros Ht Hn Hs. unfold tracked_result. destruct (untracked cmd) eqn:Eu.
  - destruct (track_untracked _ _ _ _ _ Ht Hn Eu) as (t' & E & (_ & Ec & _) & Ht'). destruct (untracked_step _ _ _ Eu Hs) as (El & Hg & _). exists own, t'. split_and!; [done|by eapply tracker_rel_grow|].
    intros ck k Hr _. unfold recovers. by rewrite Ec.
  - destruct (track_tracked _ _ _ _ _ _ Ht Eu Hs) as (own' & t' & _ & E & Ht'). exists own', t'. split_and!; [done| |].
    + eapply tracker_rel_caches; [exact Ht'|done|]. eapply caches_weaken; [apply (tk_caches _ _ _ _ Ht')|lia].
    + intros ck k. by eapply recovers_track.
Qed.

(** The state when the command was tracked and what waits for it was put down. *)
Definition tracked_state (cmd : Command) (t : Tracker) (s : Failover) : Failover := set_requestMap (put_request cmd (requestMap s)) (set_tracker t s).

Definition attempt (cmd : Command) : M Failover round :=
  on_link (link_oneway cmd) ;;; in_tracker (trackBack cmd) ;;; (if isShutdownInfo cmd then on_life (set_shutdown true) else ret tt) ;;; ret Sent.
Definition recover (cmd : Command) (e : exn) : M Failover round :=
  s <- get ;;
  if untracked cmd && canReconnect s then
    (if isResponseRequired cmd then request_remove (getCommandId cmd) ;;; ret tt else ret tt) ;;; handleTransportFailure e ;;; ret Again
  else handleTransportFailure e ;;; ret Sent.

Lemma send_once_unfold n s u u' cmd : core (n + 1) s u -> 0 <= n -> client_step cmd u = Some u' ->
  exists t', let s1 := tracked_state cmd t' s in core n s1 u' /\ (untracked cmd = true -> exists own, tracker_rel own n t' u) /\
    (forall ck k, recovers (tracker s) ck k -> consumes (live u') ck k -> recovers t' ck k) /\
    track cmd (tracker s) = (Ok (tracked_result cmd), t') /\ send_once cmd s = try_catch is_io (attempt cmd) (recover cmd) s1.
Proof.
  intros [[own Ht] Hr] Hn Hs. destruct (track_ok _ _ _ _ _ _ Ht Hn Hs) as (own' & t' & E & Ht' & Hrec). exists t'. cbv zeta. split_and!; try done.
  - split; [by exists own'|]. exact (requests_step _ _ _ _ _ _ _ Ht Hr Hs).
  - intros Hu. destruct (track_untracked _ _ _ _ _ Ht Hn Hu) as (t2 & E2 & _ & Ht2). rewrite E in E2. injection E2 as _ <-. by exists own.
  - unfold send_once, in_tracker. rewrite E. unfold tracked_state, put_request, request_of, tracked_result. destruct (untracked cmd) eqn:Eu; unfold attempt, recover; rewrite Eu.
    + by destruct (isResponseRequired cmd), s.
    + destruct (tracked_as cmd); by destruct s.
Qed.

Lemma requests_ext rm rm' u : requests_rel rm u -> om_sorted Z.ltb rm' -> requested rm' = requested rm -> requests_rel rm' u.
Proof. intros [] Hs E. split; rewrite ?E; done. Qed.

Lemma trackBack_ok own n t u cmd : tracker_rel own n t u -> exists t', trackBack cmd t = (Ok tt, t') /\ tracker_rel own n t' u /\ connectionStates t' = connectionStates t.
Proof.
  intros Ht. assert (forall size, tracker_rel own n (set_messageCache (messageCache t) size t) u) as Hsame.
  { intros size. eapply tracker_rel_caches; [exact Ht|done|]. destruct (tk_caches _ _ _ _ Ht). by split. }
  unfold trackBack. rewrite bind_get. destruct cmd; try by exists t. destruct (trackMessages (settings t)); [|by exists t]. destruct (me_transactionId m); [by exists t|]. eexists. split; [reflexivity|]. by split.
Qed.

(** The link takes the command: the broker, too, knows what the client did. *)
Lemma attempt_sent n s u' s1 l l' b' cmd : core n s1 u' -> open s1 -> firstConnection (life s1) = false -> isShutdownInfo cmd = false ->
  connectedTransport s1 = Some l -> link_oneway cmd l = (Ok tt, l') -> run_broker (wire l') ∅ = Some b' -> broker_seen (recovers (tracker s1)) b' (live u') ->
  limits s1 = limits s -> notices s1 = notices s ->
  exists s', attempt cmd s1 = (Ok Sent, s') /\ sim n s' u' /\ limits s' = limits s /\ (forall v, told s v s' v) /\ connectedTransport s' = Some l'.
Proof.
  intros Hco Ho Hf Hsh El Ew Hb Hseen Elim Enot. destruct (co_tracker _ _ _ Hco) as [own Ht]. destruct (trackBack_ok _ _ _ _ cmd Ht) as (t2 & E2 & Ht2 & Ec2).
  exists (set_tracker t2 (set_connected (Some l') s1)). split_and!; try done; [| |intros v; by apply told_same].
  - unfold attempt. rewrite (bind_ok _ _ _ tt (set_connected (Some l') s1)) by (unfold on_link; by rewrite El, Ew).
    rewrite (bind_ok _ _ _ tt (set_tracker t2 (set_connected (Some l') s1))) by (unfold in_tracker; change (tracker (set_connected (Some l') s1)) with (tracker s1); by rewrite E2). by rewrite Hsh.
  - split; [split; [by exists own|apply (co_requests _ _ _ Hco)]|done|cbn; by rewrite Hf|]. intros l2 [= <-]. exists b'. split; [done|]. eapply broker_seen_weaken; [exact Hseen|].
    intros ck k Hk _. unfold recovers. cbn [tracker set_tracker]. by rewrite Ec2.
Qed.

(** The link fails: what is not tracked is to be sent again, and nothing waits for it. *)
Lemma recover_ok n s s1 u u' cmd e : core n s1 u' -> open s1 -> firstConnection (life s1) = false -> requests_rel (requestMap s) u ->
  requestMap s1 = put_request cmd (requestMap s) -> getCommandId cmd ∉ used_ids u -> (untracked cmd = true -> exists own, tracker_rel own n (tracker s1) u) ->
  limits s1 = limits s -> notices s1 = notices s ->
  exists r s', recover cmd e s1 = (Ok r, s') /\ limits s' = limits s /\ (forall v, told s v s' v) /\ connectedTransport s' = None /\
    match r with Sent => untracked cmd = false /\ sim n s' u' | Again => untracked cmd = true /\ sim n s' u | Broken _ => False end.
Proof.
  intros Hco Ho Hf Hr Er Hid Hun Elim Enot. unfold recover. rewrite bind_get, (open_canReconnect _ Ho), andb_true_r.
  assert (forall s2 v s', notices s2 = notices s -> told s2 v s' v -> told s v s' v) as Htold by (intros s2 v s' E (ns & H1 & H2 & H3); exists ns; by rewrite <- E).
  destruct (untracked cmd) eqn:Eu.
  - assert (exists s2, (if isResponseRequired cmd then request_remove (getCommandId cmd) ;;; ret tt else ret tt) s1 = (Ok tt, s2) /\ core n s2 u /\ steady s1 s2 /\ notices s2 = notices s1)
      as (s2 & E2 & Hco2 & Hst & Hn2).
    { destruct (Hun eq_refl) as [own Ht]. unfold put_request, request_of in Er. rewrite Eu in Er. destruct (isResponseRequired cmd).
      - eexists. split; [reflexivity|]. split_and!; try done. split; [by exists own|]. cbn [requestMap set_requestMap]. rewrite Er.
        destruct (om_set_ok (norm := fun z : Z => z) (getCommandId cmd) (Held cmd) _ (rq_sorted _ _ Hr)) as [Hs1 Hm1]. destruct (om_remove_ok (norm := fun z : Z => z) (getCommandId cmd) _ Hs1) as [Hs2 Hm2].
        eapply requests_ext; [exact Hr|done|]. unfold requested. rewrite Hm2, Hm1. apply delete_insert_id. destruct (requested (requestMap s) !! getCommandId cmd) eqn:E; [|done].
        exfalso. apply Hid, (rq_used _ _ Hr). by eexists.
      - exists s1. split_and!; try done. split; [by exists own|by rewrite Er]. }
    rewrite (bind_ok _ _ _ _ _ E2). pose proof Hst as (_ & Elim2 & _ & _ & _ & Ef2 & _).
    destruct (core_failure n s2 u e Hco2 (open_steady _ _ Ho Hst)) as (s' & E' & Hs' & Ht' & Hc' & Hl' & _); [by rewrite Ef2, Hf|].
    rewrite (bind_ok _ _ _ _ _ E'). exists Again, s'. split_and!; try done; [congruence|]. intros v. apply (Htold s2); [congruence|done].
  - destruct (core_failure n s1 u' e Hco Ho) as (s' & E' & Hs' & Ht' & Hc' & Hl' & _); [by rewrite Hf|].
    rewrite (bind_ok _ _ _ _ _ E'). exists Sent, s'. split_and!; try done; [congruence|]. intros v. by apply (Htold s1).
Qed.

(** A send ends with the command sent, or tracked with the connection lost, or is to be tried again
    on the next connection. *)
Lemma sim_send_once n s u u' cmd l : sim (n + 1) s u -> 0 <= n -> client_step cmd u = Some u' -> connectedTransport s = Some l ->
  exists r s', send_once cmd s = (Ok r, s') /\ limits s' = limits s /\ (forall v, told s v s' v) /\
    match r with
    | Sent => sim n s' u' /\ match connectedTransport s' with Some l' => wire l' = wire l ++ [cmd] | None => untracked cmd = false end
    | Again => sim n s' u /\ untracked cmd = true /\ connectedTransport s' = None
    | Broken _ => False
    end /\ (failures l = [] -> r = Sent /\ exists l', connectedTransport s' = Some l').
Proof.
  intros [Hco Ho Hf Hl] Hn Hs El. destruct (send_once_unfold _ _ _ _ _ Hco Hn Hs) as (t' & Hco1 & Hun & Hrec & Et & ->). set (s1 := tracked_state cmd t' s) in *.
  assert (firstConnection (life s) = false) as Ef by (destruct (firstConnection (life s)); [destruct (Hf eq_refl); congruence|done]).
  destruct (Hl l El) as (b & Hb & Hseen). destruct (seen_step _ _ _ _ _ Hseen Hs) as (b' & Hb' & Hseen'). pose proof Hs as (Ha & Hid & _)%client_step_inv.
  assert (isShutdownInfo cmd = false) as Esh by (by destruct cmd).
  assert (broker_seen (recovers (tracker s1)) b' (live u')) as Hseen1 by (eapply broker_seen_weaken; [exact Hseen'|exact Hrec]).
  assert (forall l', link_oneway cmd l = (Ok tt, l') -> wire l' = wire l ++ [cmd] ->
    exists r s', try_catch is_io (attempt cmd) (recover cmd) s1 = (Ok r, s') /\ limits s' = limits s /\ (forall v, told s v s' v) /\
    match r with
    | Sent => sim n s' u' /\ match connectedTransport s' with Some l' => wire l' = wire l ++ [cmd] | None => untracked cmd = false end
    | Again => sim n s' u /\ untracked cmd = true /\ connectedTransport s' = None
    | Broken _ => False
    end /\ (failures l = [] -> r = Sent /\ exists l', connectedTransport s' = Some l')) as Hsent.
  { intros l' E' Ew. destruct (attempt_sent n s u' s1 l l' b' cmd Hco1 Ho Ef Esh El E') as (s' & Eat & Hs' & ? & ? & Ec'); try done; [by rewrite Ew, run_broker_app, Hb; cbn; rewrite Hb'|].
    exists Sent, s'. split_and!; try done; [unfold try_catch; by rewrite Eat|by rewrite Ec'|intros _; by split; [|exists l']]. }
  destruct (link_oneway cmd l) as [[[]|e| |] l'] eqn:E'; unfold link_oneway in E'.
  - apply (Hsent l' eq_refl). by destruct (failures l) as [|[] ?]; inversion E'.
  - destruct (failures l) as [|[] rest] eqn:Efl; [done| |done]. injection E' as <- <-. clear Hsent.
    assert (try_catch is_io (attempt cmd) (recover cmd) s1 = recover cmd IOException (set_connected (Some (mkLink (link_uri l) (wire l) rest (link_version l))) s1)) as ->.
    { unfold try_catch, attempt. erewrite bind_throw; [|unfold on_link; change (connectedTransport s1) with (connectedTransport s); rewrite El; unfold link_oneway; rewrite Efl; reflexivity]. done. }
    destruct (recover_ok n s (set_connected (Some (mkLink (link_uri l) (wire l) rest (link_version l))) s1) u u' cmd IOException) as (r & s' & Er & ? & ? & Ec' & Hr); try done.
    + by destruct Hco1.
    + apply (co_requests _ _ _ Hco).
    + exists r, s'. rewrite Ec'. split_and!; try done. destruct r; [by destruct Hr as [? ?]|by destruct Hr as [? ?]|done].
  - by destruct (failures l) as [|[] ?].
  - by destruct (failures l) as [|[] ?].
Qed.
