(* ===== verification/FailoverComplete.v ===== *)
(** * The client is through with the interruption: the consumers that were told to pull are
    told to push again. *)
From stdpp Require Import gmap.
From S2P Require Import Prelude Commands StringUtils OrderedMap TrackedCommands URIPool HashMap StateTracker FailoverSpec FailoverSim FailoverTrack Failover FailoverReplay FailoverBroker FailoverRestore FailoverConnect FailoverRun.

(** ** What a broker makes of the prefetch of a consumer *)

Lemma control_seen own h u (ck : connection_name) cs c (slow : member_name -> Prop) bc x : connection_rel own h u ck cs c -> connection_seen slow bc c ->
  let k := consumer_key (cc_consumerId x) in
  (forall s j, c_sessions c !! consumer_session k = Some s -> s_consumers s !! k = Some j -> prefetchSize j = cc_prefetch x) ->
  connection_seen (fun k' => slow k' /\ k' <> k) (control_step x bc) c.
Proof.
  intros Hc [] k Hj. split; try done. intros sk. unfold control_step. fold k. cbn [c_sessions with_sessions]. specialize (cn_sessions sk).
  pose proof (session_lookup _ _ _ _ _ _ sk Hc) as Hs. destruct (decide (consumer_session k = sk)) as [Esk|Hne].
  - rewrite Esk, lookup_alter_eq. destruct (c_sessions bc !! sk) as [bs|], (c_sessions c !! sk) as [s|] eqn:Es; try (by inversion cn_sessions); [|constructor].
    constructor. inversion cn_sessions as [? ? []|]; subst. split; [done|done|]. intros k'. cbn [s_consumers with_consumers]. specialize (sn_consumers k').
    destruct (decide (k = k')) as [Ek|Hnk]; [subst k'; rewrite lookup_alter_eq|rewrite lookup_alter_ne by done];
      destruct (s_consumers bs !! _) as [bi|], (s_consumers s !! _) as [i|] eqn:Ei; try (by inversion sn_consumers); try constructor; inversion sn_consumers as [? ? Hbi|]; subst.
    + left. specialize (Hj s i Es Ei). rewrite <- Hj. destruct Hbi as [->|[_ ->]]; by destruct i.
    + destruct Hbi as [->|[? ->]]; [by left|right; split; [by split|done]].
  - rewrite lookup_alter_ne by done. destruct cn_sessions as [bs s []|]; constructor. destruct (om_map _ _ !! sk) as [ss|]; [|done].
    split; [done|done|]. eapply map_Forall2_weaken; [done|]. intros k' bi i Hi [->|[Hk ->]]; [by left|right]. split; [|done]. split; [done|]. intros ->.
    destruct (sr_kkeys _ _ _ Hs _ _ Hi) as [_ Hk']. congruence.
Qed.

(** ** The commands that are sent *)

Definition control_of (p : ConsumerId * ConsumerInfo) : ConsumerControl := mkConsumerControl new_base p.1 (ki_destination p.2) (prefetchSize p.2).
Definition sent_on (l : Link) (cmds : list Command) : Link := mkLink (link_uri l) (wire l ++ cmds) [] (link_version l).

Lemma send_control fuel s l p : open s -> connectedTransport s = Some l -> failures l = [] ->
  oneway (S fuel) [] (CConsumerControl (control_of p)) s = (Ok tt, set_connected (Some (sent_on l [CConsumerControl (control_of p)])) s).
Proof.
  intros (_ & Hcl & _) Hc Hf. destruct s as [t ct rm lim lf ur up no]. cbn in Hc, Hcl. subst ct. unfold oneway. rewrite bind_get. cbn [connectedTransport send_loop]. rewrite bind_get. cbn [life]. rewrite Hcl.
  cbn [isMessage await]. unfold bind at 1. unfold bind at 1. cbn [get waiting connectedTransport andb]. cbn [ret]. rewrite bind_get. cbn [connectedTransport].
  unfold send_once, in_tracker. cbn [tracker track visit]. unfold track, catch_io, rethrow. cbn. unfold bind, ret, try_catch, on_link, link_oneway, in_tracker, trackBack, bind, get. cbn. rewrite Hf. done.
Qed.

Lemma sent_on_app l c d : sent_on (sent_on l c) d = sent_on l (c ++ d).
Proof. unfold sent_on. cbn. by rewrite <- app_assoc. Qed.

Lemma send_controls fuel r s l : open s -> connectedTransport s = Some l -> failures l = [] ->
  iter_m (fun p => try_catch is_decaf (oneway (S fuel) [] (CConsumerControl (control_of p))) (fun _ => ret tt)) r s =
    (Ok tt, set_connected (Some (sent_on l (map (fun p => CConsumerControl (control_of p)) r))) s).
Proof.
  revert s l. induction r as [|p r IH]; intros s l Ho Hc Hf; cbn [iter_m map].
  - unfold sent_on. rewrite app_nil_r, <- Hf. destruct s, l. cbn in *. by subst.
  - rewrite (bind_ok _ _ _ tt (set_connected (Some (sent_on l [CConsumerControl (control_of p)])) s)) by (unfold try_catch; by rewrite (send_control _ _ _ _ Ho Hc Hf)).
    rewrite (IH _ (sent_on l [CConsumerControl (control_of p)])) by done. by rewrite sent_on_app.
Qed.

(** What the broker makes of them. *)
Lemma run_controls own h u (ck : connection_name) cs c (slow : member_name -> Prop) r (b : Broker) bc : connection_rel own h u ck cs c ->
  (forall p, p ∈ r -> om_map consumer_key (cs_recoveringPullConsumers cs) !! consumer_key p.1 = Some p.2) ->
  b !! ck = Some bc -> connection_seen slow bc c ->
  exists bc', run_broker (map (fun p => CConsumerControl (control_of p)) r) b = Some (<[ck := bc']> b) /\ connection_seen (fun k => slow k /\ k ∉ map (fun p => consumer_key p.1) r) bc' c.
Proof.
  intros Hc. revert b bc slow. induction r as [|p r IH]; intros b bc slow Hr Hb Hs.
  - exists bc. split; [cbn; by rewrite insert_id|]. eapply seen_mono; [exact Hs|]. intros k Hk. split; [done|apply not_elem_of_nil].
  - assert (p ∈ p :: r) as Hp by left. specialize (Hr p) as Hrp. specialize (Hrp Hp). destruct (cr_recovering _ _ _ _ _ _ Hc _ _ Hrp) as (_ & _ & Hk & Hj).
    assert (broker_step (CConsumerControl (control_of p)) b = Some (<[ck := control_step (control_of p) bc]> b)) as E.
    { unfold broker_step, step_with. cbn [connection_of control_of cc_consumerId]. change (connection_key (session_parent (consumer_parent p.1))) with (consumer_key p.1).1. rewrite Hk, Hb. done. }
    assert (connection_seen (fun k' => slow k' /\ k' <> consumer_key p.1) (control_step (control_of p) bc) c) as Hs1.
    { apply (control_seen _ _ _ _ _ _ _ _ (control_of p) Hc Hs). cbn [control_of cc_consumerId cc_prefetch]. intros s j Hss Hsj. by rewrite (Hj s j Hss Hsj). }
    destruct (IH (<[ck := control_step (control_of p) bc]> b) _ _ (fun q Hq => Hr q (list_elem_of_further _ _ _ Hq)) (lookup_insert_eq _ _ _) Hs1) as (bc' & E' & Hs').
    exists bc'. cbn [map run_broker]. rewrite E. cbn [mbind option_bind]. rewrite E', insert_insert_eq. split; [done|]. eapply seen_mono; [exact Hs'|].
    intros k [[? ?] ?]. split; [done|]. by intros [?|?]%elem_of_cons.
Qed.

(** ** The operation *)

(** What is new on the wire: one command for each consumer of the connection that was stalled,
    with the prefetch it was created with, and nothing else. *)
Definition told_again (t : Tracker) (ck : connection_name) (c : Connection) (before after : list Command) : Prop :=
  exists r, after = before ++ map (fun p => CConsumerControl (control_of p)) r /\ base.NoDup (map (fun p => consumer_key p.1) r) /\
    (forall k, k ∈ map (fun p => consumer_key p.1) r <-> recovers t ck k) /\
    forall p, p ∈ r -> let k := consumer_key p.1 in
      k.1 = ck /\ forall s j, c_sessions c !! consumer_session k = Some s -> s_consumers s !! k = Some j -> cc_prefetch (control_of p) = prefetchSize j.

Lemma controls_told own n u id cs c t w : tracker_rel own n t u -> om_map connection_key (connectionStates t) !! connection_key id = Some cs ->
  connection_rel own (heap t) u (connection_key id) cs c ->
  told_again t (connection_key id) c w (w ++ map (fun p => CConsumerControl (control_of p)) (cs_recoveringPullConsumers cs)).
Proof.
  intros Ht Hcs Hrel. set (r := cs_recoveringPullConsumers cs). pose proof (cr_rsorted _ _ _ _ _ _ Hrel) as Hrs. exists r. split; [done|]. split; [by apply om_sorted_NoDup|]. split.
  - intros k. rewrite list_elem_of_fmap. split.
    + intros ([k' i] & -> & Hin). exists cs. split; [done|]. exists i. by apply om_map_elem.
    + intros (cs' & Hcs' & [i Hi]). rewrite Hcs in Hcs'. injection Hcs' as <-. apply om_map_elem_of in Hi as (kk & Hin & <-). by exists (kk, i).
  - intros [k i] Hin. apply om_map_elem in Hin; [|done]. destruct (cr_recovering _ _ _ _ _ _ Hrel _ _ Hin) as (_ & _ & Hk & Hj). split; [done|]. intros s j Hs Hsj. by rewrite (Hj s j Hs Hsj).
Qed.

Lemma sim_complete fuel n s u id c l : sim n s u -> live u !! connection_key id = Some c -> connectedTransport s = Some l -> failures l = [] ->
  exists s', setConnectionInterruptProcessingComplete (S fuel) [] id s = (Ok tt, s') /\ sim n s' u /\ notices s' = notices s /\ limits s' = limits s /\
    (exists l', connectedTransport s' = Some l' /\ failures l' = [] /\ told_again (tracker s) (connection_key id) c (wire l) (wire l')) /\
    forall ck k, recovers (tracker s') ck k <-> ck <> connection_key id /\ recovers (tracker s) ck k.
Proof.
  intros [Hco Ho Hf Hl] Hlive Hc Hfl. destruct (co_tracker _ _ _ Hco) as [own Ht]. destruct (connection_ok _ _ _ _ _ _ Ht Hlive) as (cs & E & Hcs & Hrel).
  set (ck := connection_key id) in *. set (r := cs_recoveringPullConsumers cs). set (cs1 := set_recovering true r cs). set (t1 := set_connectionStates (om_set connection_less id cs1 (connectionStates (tracker s))) (tracker s)).
  pose proof (cr_rsorted _ _ _ _ _ _ Hrel) as Hrs. assert (connection_rel own (heap (tracker s)) u ck cs1 c) as Hrel1 by by apply (connection_rel_subset own (heap (tracker s)) u ck cs c true r).
  assert (tracker_rel own n t1 u) as Ht1 by (eapply tracker_rel_put; [done|reflexivity|exact Hrel1|by rewrite insert_id]).
  destruct (connection_ok _ _ _ _ _ _ Ht1 Hlive) as (cs1' & E1 & Hcs1 & _).
  assert (cs1' = cs1) as ->. { subst t1. cbn in Hcs1. rewrite (proj2 (om_set_ok id cs1 _ (tk_sorted _ _ _ _ Ht))), lookup_insert_eq in Hcs1. by injection Hcs1. }
  set (cs2 := set_recovering true [] cs1). set (t2 := set_connectionStates (om_set connection_less id cs2 (connectionStates t1)) t1).
  assert (tracker_rel own n t2 u) as Ht2.
  { eapply tracker_rel_put; [exact Ht1|reflexivity| |by rewrite insert_id]. apply (connection_rel_subset own (heap t1) u ck cs1 c true []); [exact Hrel1|apply om_sorted_nil|apply map_empty_subseteq]. }
  set (l' := sent_on l (map (fun p => CConsumerControl (control_of p)) r)).
  assert (forall ck' k, recovers t2 ck' k <-> ck' <> ck /\ recovers (tracker s) ck' k) as Hrec.
  { intros ck' k. unfold t2. rewrite (recovers_put _ _ _ _ _ (tk_sorted _ _ _ _ Ht1)). fold ck. case_decide as Ek; [cbn; rewrite om_map_nil; split; [by intros []|by intros []]|].
    unfold t1. rewrite (recovers_put _ _ _ _ _ (tk_sorted _ _ _ _ Ht)). fold ck. rewrite decide_False by done. naive_solver. }
  exists (set_tracker t2 (set_connected (Some l') (set_tracker t1 s))). split_and!; try done; [| |exists l'; split; [done|]; split; [done|]; by apply (controls_told own n u id cs)].
  - unfold setConnectionInterruptProcessingComplete, connectionInterruptProcessingComplete. cbn [on_tracker sending].
    rewrite (bind_ok _ _ _ cs s) by (unfold in_tracker; rewrite E; by destruct s). fold r. rewrite (bind_ok _ _ _ tt (set_tracker t1 s)) by done.
    pose proof (send_controls fuel r (set_tracker t1 s) l Ho Hc Hfl) as Es. unfold control_of in Es. rewrite (bind_ok _ _ _ _ _ Es).
    unfold in_tracker. cbn [tracker set_connected set_tracker]. rewrite (bind_ok _ _ _ _ _ E1). done.
  - split; [split; [by exists own|apply (co_requests _ _ _ Hco)]|done|intros H; destruct (Hf H); congruence|]. intros l2 [= <-]. destruct (Hl l Hc) as (b & Hb & Hseen).
    destruct (seen_lookup _ _ _ _ _ Hseen Hlive) as (bc & Hbc & Hsbc).
    destruct (run_controls own (heap (tracker s)) u ck cs c (recovers (tracker s) ck) r b bc Hrel) as (bc' & Erun & Hs'); [|done|done|].
    { intros [k i] Hp. by apply om_map_elem. }
    exists (<[ck := bc']> b). split; [cbn [wire l' sent_on]; by rewrite run_broker_app, Hb|]. intros ck'. cbn [tracker set_tracker]. destruct (decide (ck' = ck)) as [->|Hne].
    + rewrite lookup_insert_eq, Hlive. constructor. eapply seen_mono; [exact Hs'|]. intros k [(cs0 & Hcs0 & [i Hi]) Hk]. exfalso. apply Hk. rewrite Hcs in Hcs0. injection Hcs0 as <-.
      apply om_map_elem_of in Hi as (kk & Hin & <-). apply list_elem_of_fmap. by exists (kk, i).
    + rewrite lookup_insert_ne by done. specialize (Hseen ck'). destruct Hseen as [x y H|]; constructor. eapply seen_mono; [exact H|]. intros k Hk. by apply Hrec.
Qed.
