(* ===== verification/FailoverTheorems.v ===== *)
(** * What a failover transport promises, proved: whatever fails, the broker at the other end
    knows what one that never failed would know. *)
From stdpp Require Import gmap.
From S2P Require Import Prelude Commands StringUtils OrderedMap TrackedCommands URIPool HashMap StateTracker FailoverSpec FailoverSim FailoverTrack Failover FailoverReplay FailoverBroker FailoverRestore FailoverConnect FailoverRun FailoverComplete.

(** ** What other threads do while one waits *)

(** A connection is made, or lost, or given up for a better one; the addresses change; the
    start is given up, which is told, and connections are restored from then on. *)
Inductive turn : Type :=
  | Connects (l : Link)
  | Fails (e : exn)
  | Drops
  | Addresses (p q : URIPool)
  | GivesUpStart (e : exn).

(** [iterate] connects only where there is no connection. *)
Definition take (t : turn) : M Failover unit :=
  match t with
  | Connects l => s <- get ;; match connectedTransport s with None => connect l | Some _ => ret tt end
  | Fails e => onException e
  | Drops => s <- get ;; match connectedTransport s with Some _ => modify (set_connected None) ;;; notify Interrupted | None => ret tt end
  | Addresses p q => modify (set_pools p q)
  | GivesUpStart e => s <- get ;; match connectedTransport s with None => on_life (set_firstConnection false) ;;; notify (AnException e) | Some _ => ret tt end
  end.
Definition taken (waits : list (Z * turn)) : list (Z * M Failover unit) := map (fun p => (p.1, take p.2)) waits.

(** A connection is new. *)
Definition turn_ok (t : turn) : Prop := match t with Connects l => wire l = [] | _ => True end.

Section use.
Context (n : Z).

Lemma sim_take s u t : sim n s u -> turn_ok t -> exists u', sim n (take t s).2 u' /\ told s u (take t s).2 u' /\ limits (take t s).2 = limits s.
Proof.
  intros Hs Ht. destruct t as [l|e| |p q|e]; cbn [take turn_ok] in *.
  - rewrite bind_get. destruct (connectedTransport s) eqn:Ec; [by exists u; split_and!; [|by apply told_same|]|].
    pose proof (sim_connect n s u l Hs Ec Ht) as H. unfold runs in H. destruct (connect l s) as [[[]|e| |] s']; try done.
    + destruct H as (u' & ? & ? & ? & _). by exists u'.
    + destruct H as (_ & _ & u' & ? & ? & ? & ? & _). by exists u'.
  - destruct Hs as [Hco Ho Hf _]. destruct (core_failure n s u e Hco Ho Hf) as (s' & E & ? & ? & ? & ? & _). unfold onException. rewrite E. by exists u.
  - rewrite bind_get. destruct (connectedTransport s) eqn:Ec; cbn; exists u; [|by split_and!; [|by apply told_same|]]. destruct Hs as [[] Ho Hf Hl].
    split_and!; [split; try done|by apply (told_step s u _ Interrupted)|done]. intros H. by destruct (Hf H).
  - destruct Hs as [[] Ho Hf Hl]. exists u. split_and!; [by split|by apply told_same|done].
  - rewrite bind_get. destruct (connectedTransport s) eqn:Ec; cbn; exists u; [by split_and!; [|by apply told_same|]|]. destruct Hs as [[] Ho Hf Hl].
    split_and!; [split; done|by apply (told_step s u _ (AnException e))|done].
Qed.

(** Waiting ends with a connection, or with the timeout of a message. *)
Lemma sim_await isMsg elapsed waits s u : sim n s u -> Forall (fun p => turn_ok p.2) waits ->
  match await isMsg elapsed (taken waits) s with
  | (Ok (expired, rest), s') => exists u' rest', rest = taken rest' /\ Forall (fun p => turn_ok p.2) rest' /\ sim n s' u' /\ told s u s' u' /\ limits s' = limits s /\
      (connectedTransport s' = None -> expired = true /\ isMsg = true /\ 0 < timeout (limits s')) /\
      (length rest' <= length waits)%nat /\ (connectedTransport s = None -> connectedTransport s' <> None -> (length rest' < length waits)%nat)
  | (Hang, s') => waiting s' = true
  | _ => False
  end.
Proof.
  intros Hs Hw. revert elapsed s u Hs. induction Hw as [|[time t] waits Ht Hw IH]; intros elapsed s u Hs; cbn [taken map await]; rewrite bind_get.
  - destruct (waiting s) eqn:Ew.
    + destruct (isMsg && (0 <? timeout (limits s)) && (timeout (limits s) <? elapsed)) eqn:Et; [|done]. cbn. exists u, []. split_and!; try done; [by apply told_same|].
      intros _. apply andb_true_iff in Et as [Et _]. apply andb_true_iff in Et as [? ?%Z.ltb_lt]. done.
    + cbn. exists u, []. split_and!; try done; [by apply told_same|]. intros Hn. by rewrite (open_waiting _ (si_open _ _ _ Hs) Hn) in Ew.
  - destruct (waiting s) eqn:Ew.
    + destruct (isMsg && (0 <? timeout (limits s)) && (timeout (limits s) <? elapsed)) eqn:Et.
      * cbn. exists u, ((time, t) :: waits). split_and!; try done; [by constructor|by apply told_same|]. intros _. apply andb_true_iff in Et as [Et _]. apply andb_true_iff in Et as [? ?%Z.ltb_lt]. done.
      * rewrite (bind_ok _ _ _ _ _ (eq_refl : other_thread (take t) s = (Ok tt, (take t s).2))). destruct (sim_take _ _ _ Hs Ht) as (u1 & Hs1 & Ht1 & El). cbn [snd] in *.
        specialize (IH (elapsed + time) _ _ Hs1). fold (taken waits). cbn [fst]. destruct (await isMsg (elapsed + time) (taken waits) (take t s).2) as [[[expired rest]|e| |] s']; try done.
        destruct IH as (u' & rest' & ? & ? & ? & ? & ? & ? & ? & _). exists u', rest'. cbn [length]. split_and!; try done; [by eapply told_trans|congruence|lia|intros; lia].
    + cbn. exists u, ((time, t) :: waits). split_and!; try done; [by constructor|by apply told_same|]; intros Hn; by rewrite (open_waiting _ (si_open _ _ _ Hs) Hn) in Ew.
Qed.
End use.

(** What a client knows of a command it sent while it learned of answers. *)
Lemma told_step_client s u s' u1 cmd u' : told s u s' u1 -> client_step cmd u = Some u' -> exists u1', client_step cmd u1 = Some u1' /\ told s u' s' u1'.
Proof.
  intros (ns & En & Fn & ->) Hs. exists (hear ns u'). split; [by apply client_step_hear|]. exists ns. split_and!; [done| |done].
  eapply Forall_impl; [|exact Fn]. intros [[]| | |]; try done; cbn; rewrite (client_step_used _ _ _ Hs); intros ?; by apply elem_of_union_r.
Qed.

(** A command is tried again after its link failed, and every time but the first others have
    to connect before; so it is not tried more often than they take turns. *)
Lemma sim_send_loop fuel : forall n s u u' waits cmd, sim (n + Z.of_nat fuel) s u -> 0 <= n -> client_step cmd u = Some u' -> Forall (fun p => turn_ok p.2) waits ->
  match send_loop fuel cmd (taken waits) s with
  | (Ok _, s') => exists v, sim n s' v /\ told s u' s' v /\ limits s' = limits s /\
      (connectedTransport s' = None -> untracked cmd = false) /\ (forall l, connectedTransport s' = Some l -> exists sent, wire l = sent ++ [cmd])
  | (Throw e, s') => e = IOException /\ (exists v, sim n s' v /\ told s u s' v /\ limits s' = limits s) /\ isMessage cmd = true /\ 0 < timeout (limits s) /\ connectedTransport s' = None
  | (Hang, s') => waiting s' = true \/ (fuel + (match connectedTransport s with None => 1 | Some _ => 0 end) <= length waits + 1)%nat
  | (UB, _) => False
  end.
Proof.
  induction fuel as [|fuel IH]; intros n s u u' waits cmd Hs Hn Hstep Hw; cbn [send_loop]; [right; destruct (connectedTransport s); lia|]. rewrite bind_get. pose proof (si_open _ _ _ Hs) as (_ & -> & _).
  assert (sim (n + Z.of_nat fuel + 1) s u) as Hs0 by (eapply sim_weaken; [exact Hs|lia]).
  pose proof (sim_await _ (isMessage cmd) 0 waits s u Hs0 Hw) as Ha. unfold bind at 1. destruct (await (isMessage cmd) 0 (taken waits) s) as [[[expired rest]|e| |] s1]; try done; [|by left].
  destruct Ha as (u1 & rest' & -> & Hrest & Hs1 & Ht1 & El1 & Hexp & Hle & Hlt). rewrite bind_get. destruct (connectedTransport s1) as [l1|] eqn:Ec1.
  - destruct (told_step_client _ _ _ _ _ _ Ht1 Hstep) as (u1' & Hstep1 & Ht1').
    destruct (sim_send_once (n + Z.of_nat fuel) s1 u1 u1' cmd l1 Hs1 ltac:(lia) Hstep1 Ec1) as (r & s2 & E & El2 & Hq & Hr & _).
    rewrite (bind_ok _ _ _ _ _ E). destruct r as [| |e]; [| |done].
    + destruct Hr as [Hs2 Hc2]. cbn. exists u1'. split_and!; [by eapply sim_weaken; [exact Hs2|lia]|by eapply told_trans|congruence| |].
      * intros Hn2. by rewrite Hn2 in Hc2.
      * intros l2 Hl2. rewrite Hl2 in Hc2. by eexists.
    + destruct Hr as (Hs2 & Hun & Hc2). cbn [snd]. specialize (IH n s2 u1 u1' rest' cmd Hs2 Hn Hstep1 Hrest). rewrite Hc2 in IH. destruct (send_loop fuel cmd (taken rest') s2) as [[[]|e| |] s3]; try done.
      * destruct IH as (v & Hs3 & Ht3 & El3 & H3). exists v. split_and!; try apply H3; [done| |congruence]. eapply told_trans; [exact Ht1'|]. by eapply told_trans; [apply Hq|].
      * destruct IH as (-> & (v & Hs3 & Ht3 & El3) & Hm & Hto & Hc3). split_and!; [done| |done|congruence|done]. exists v. split_and!; [done| |congruence].
        eapply told_trans; [exact Ht1|]. by eapply told_trans; [apply Hq|].
      * destruct IH as [?|IH]; [by left|right]. destruct (connectedTransport s); [lia|]. specialize (Hlt eq_refl ltac:(done)). lia.
  - destruct (Hexp eq_refl) as (-> & Hm & Hto). unfold leave. rewrite bind_get. pose proof (si_open _ _ _ Hs1) as (_ & -> & _). cbn. split_and!; [done| |done|congruence|done].
    exists u1. split_and!; try done. eapply sim_weaken; [exact Hs1|lia].
Qed.

(** ** A send, connected or not *)

Lemma requests_grow rm u u' : requests_rel rm u -> live u' = live u -> used_ids u ⊆ used_ids u' -> requests_rel rm u'.
Proof.
  intros [] El Eu. split; try done.
  - intros id Hid. by apply Eu, rq_used.
  - intros id i Hi. destruct (rq_waiting _ _ Hi) as (ck & tk & He). exists ck, tk. unfold ends_in in *. by rewrite El.
  - intros ck c tk tx id. rewrite El. intros Hc Htx Hid. destruct (rq_pending _ _ _ _ _ Hc Htx Hid) as (i & Hi & He). exists i. split; [done|]. unfold ends_in in *. by rewrite El.
Qed.

Lemma used_step cmd u u' : client_step cmd u = Some u' -> used_ids u ⊆ used_ids u'.
Proof. intros Hs. rewrite (client_step_used _ _ _ Hs). apply union_subseteq_r. Qed.

(** A command that leaves nothing to remember. *)
Lemma sim_untracked n s u u' cmd : sim n s u -> untracked cmd = true -> client_step cmd u = Some u' -> sim n s u'.
Proof.
  intros [[[own Ht] Hr] Ho Hf Hl] Hu Hs. destruct (untracked_step _ _ _ Hu Hs) as (El & Hg & _). split; [split| | |].
  - exists own. by eapply tracker_rel_grow.
  - eapply requests_grow; [exact Hr|done|by eapply used_step].
  - done.
  - by rewrite El.
  - intros l. rewrite El. apply Hl.
Qed.

(** A command that is tracked while there is no connection, and nothing waits for. *)
Lemma sim_tracked n s u u' cmd : sim (n + 1) s u -> 0 <= n -> client_step cmd u = Some u' -> connectedTransport s = None ->
  tracked_result cmd = None \/ tracked_result cmd = Some Marker -> (firstConnection (life s) = true -> live u' = ∅) ->
  exists t', in_tracker (track cmd) s = (Ok (tracked_result cmd), set_tracker t' s) /\ sim n (set_tracker t' s) u'.
Proof.
  intros [[[own Ht] Hr] Ho Hf Hl] Hn Hs Hc Hres Hfirst. destruct (track_ok _ _ _ _ _ _ Ht Hn Hs) as (own' & t' & E & Ht' & _). exists t'. split; [unfold in_tracker; by rewrite E|].
  split; [split; [by exists own'|]|done| |intros l; cbn; by rewrite Hc].
  - cbn [requestMap set_tracker]. unfold tracked_result in Hres. destruct (untracked cmd) eqn:Eu.
    + destruct (untracked_step _ _ _ Eu Hs) as (El & _ & _). eapply requests_grow; [exact Hr|done|by eapply used_step].
    + pose proof (requests_step _ _ _ _ _ _ _ Ht Hr Hs) as H. unfold put_request, request_of in H. rewrite Eu in H. destruct Hres as [|[= Hm]]; [done|]. by rewrite Hm in H.
  - intros H. split; [by apply Hfirst|done].
Qed.

Lemma remove_empty i u u' : client_step (CRemoveInfo i) u = Some u' -> live u = ∅ -> live u' = ∅.
Proof.
  intros (_ & _ & b & Hs & ->)%client_step_inv El. cbn [live with_live]. unfold step_with in Hs. destruct (connection_of (CRemoveInfo i)) as [ck|] eqn:Hck; [|done].
  rewrite El, lookup_empty in Hs. cbn [connection_step] in Hs. destruct (objectId i); try done. injection Hs as <-. apply delete_empty.
Qed.

Lemma sim_answer_here n s u u' cmd : sim (n + 1) s u -> 0 <= n -> client_step cmd u = Some u' -> connectedTransport s = None -> answered_here cmd = true ->
  exists s' v, nothrow (answer_here cmd) s = (Ok tt, s') /\ sim n s' v /\ told s u' s' v /\ connectedTransport s' = None.
Proof.
  intros Hs Hn Hstep Hc Ha. assert (getCommandId cmd ∈ used_ids u') as Hid by (rewrite (client_step_used _ _ _ Hstep); by apply elem_of_union_l, elem_of_singleton).
  assert (forall s1, tracked_result cmd = None \/ tracked_result cmd = Some Marker -> in_tracker (track cmd) s = (Ok (tracked_result cmd), s1) -> sim n s1 u' -> notices s1 = notices s ->
    connectedTransport s1 = None -> exists s' v, nothrow (in_tracker (track cmd) ;;; if isResponseRequired cmd then onCommand (OnResponse (getCommandId cmd)) else ret tt) s = (Ok tt, s') /\
      sim n s' v /\ told s u' s' v /\ connectedTransport s' = None) as Hans.
  { intros s1 _ E Hs1 En Ec1. destruct (isResponseRequired cmd).
    - destruct (sim_command n s1 u' (OnResponse (getCommandId cmd)) Hs1 Hid) as (s' & E' & Hs' & Ht' & Ec'). exists s', (client_answer (getCommandId cmd) u').
      split_and!; [unfold nothrow, try_catch; by rewrite (bind_ok _ _ _ _ _ E), E'|done| |congruence]. destruct Ht' as (ns & H1 & H2 & H3). exists ns. by rewrite <- En.
    - exists s1, u'. split_and!; [unfold nothrow, try_catch; by rewrite (bind_ok _ _ _ _ _ E)|done|by apply told_same|done]. }
  destruct cmd; try done; cbn [answer_here].
  - destruct (sim_tracked n s u u' (CRemoveInfo i) Hs Hn Hstep Hc) as (t' & E & Hs'); [by right| |].
    + intros H. apply (remove_empty _ _ _ Hstep), (si_first _ _ _ Hs H).
    + by apply (Hans (set_tracker t' s)); [right|..].
  - assert (sim n s u') as Hs' by (eapply sim_weaken; [by apply (sim_untracked _ _ _ _ (CMessagePull p) Hs eq_refl Hstep)|lia]). destruct (negb (pull_timeout p =? 0)).
    + destruct (sim_command n s u' (OnDispatch (pull_consumerId p) (pull_destination p)) Hs' I) as (s1 & E & Hs1 & Ht1 & Ec). exists s1, u'.
      split_and!; [unfold nothrow, try_catch; by rewrite E|done|done|congruence].
    + exists s, u'. split_and!; [done|done|by apply told_same|done].
  - destruct (sim_tracked n s u u' (CMessageAck b) Hs Hn Hstep Hc) as (t' & E & Hs'); [by left| |].
    + intros H. destruct (untracked_step (CMessageAck b) _ _ eq_refl Hstep) as (-> & _). by apply (si_first _ _ _ Hs H).
    + by apply (Hans (set_tracker t' s)); [left|..].
Qed.

(** Where a command is whose send returned: the last one on the wire; or kept by the tracker,
    for the next connection, when this one was lost; or it was answered here. *)
Definition disposed (s : Failover) (cmd : Command) (s' : Failover) : Prop :=
  match connectedTransport s' with
  | Some l => exists before, wire l = before ++ [cmd]
  | None => untracked cmd = false \/ connectedTransport s = None /\ answered_here cmd = true
  end.

(** The send of the transport: it returns with the command sent or kept, or throws and the
    client may take it that nothing was done. *)
Lemma sim_oneway fuel n s u u' waits cmd : sim (n + Z.of_nat fuel + 1) s u -> 0 <= n -> client_step cmd u = Some u' -> Forall (fun p => turn_ok p.2) waits ->
  match oneway fuel (taken waits) cmd s with
  | (Ok _, s') => disposed s cmd s' /\ exists v, sim n s' v /\ told s u' s' v
  | (Throw e, s') => e = IOException /\ (exists v, sim n s' v /\ told s u s' v) /\ isMessage cmd = true /\ 0 < timeout (limits s) /\ connectedTransport s' = None
  | (Hang, s') => waiting s' = true \/ (fuel <= length waits + 1)%nat
  | (UB, _) => False
  end.
Proof.
  intros Hs Hn Hstep Hw. unfold oneway. rewrite bind_get.
  assert (match send_loop fuel cmd (taken waits) s with
    | (Ok _, s') => disposed s cmd s' /\ exists v, sim n s' v /\ told s u' s' v
    | (Throw e, s') => e = IOException /\ (exists v, sim n s' v /\ told s u s' v) /\ isMessage cmd = true /\ 0 < timeout (limits s) /\ connectedTransport s' = None
    | (Hang, s') => waiting s' = true \/ (fuel <= length waits + 1)%nat | (UB, _) => False end) as Hloop.
  { assert (sim (n + Z.of_nat fuel) s u) as Hs' by (eapply sim_weaken; [exact Hs|lia]). pose proof (sim_send_loop fuel n s u u' waits cmd Hs' Hn Hstep Hw) as H.
    destruct (send_loop fuel cmd (taken waits) s) as [[[]|e| |] s1]; try done.
    - destruct H as (v & ? & ? & _ & Hkept & Hsent). split; [|by exists v]. unfold disposed. destruct (connectedTransport s1); [by apply Hsent|left; by apply Hkept].
    - destruct H as (? & (v & ? & ? & _) & ? & ? & ?). split_and!; try done. by exists v.
    - destruct H as [?|H]; [by left|right]. destruct (connectedTransport s); lia. }
  destruct (connectedTransport s) eqn:Ec; [done|]. destruct (answered_here cmd) eqn:Ea; [|done].
  assert (sim (n + 1) s u) as Hs' by (eapply sim_weaken; [exact Hs|lia]). destruct (sim_answer_here n s u u' cmd Hs' Hn Hstep Ec Ea) as (s' & v & -> & ? & ? & Ec'). split; [|by exists v].
  unfold disposed. rewrite Ec', Ec. by right.
Qed.

(** ** Histories *)

(** What the client heard between two states. *)
Definition heard (s s' : Failover) (u : Client) : Client := hear (skipn (length (notices s)) (notices s')) u.

Lemma told_heard s u s' v : told s u s' v -> v = heard s s' u.
Proof. intros (ns & E & _ & ->). unfold heard. by rewrite E, skipn_app, skipn_all, Nat.sub_diag. Qed.

(** A transport in use: the commands whose send returned, in their order, the transport, and
    what the client knows. [tries] bounds how often a command was tried. *)
Inductive reaches (f : Settings) (lim : Limits) : Z -> list Command -> Failover -> Client -> Prop :=
  | reach_open s : opened f lim = Ok s -> reaches f lim 0 [] s new_client
  | reach_send tries sent s u u' fuel waits cmd s' : reaches f lim tries sent s u ->
      client_step cmd u = Some u' -> Forall (fun p => turn_ok p.2) waits ->
      oneway fuel (taken waits) cmd s = (Ok tt, s') -> reaches f lim (tries + Z.of_nat fuel + 1) (sent ++ [cmd]) s' (heard s s' u')
  | reach_refused tries sent s u u' fuel waits cmd e s' : reaches f lim tries sent s u ->
      client_step cmd u = Some u' -> Forall (fun p => turn_ok p.2) waits ->
      oneway fuel (taken waits) cmd s = (Throw e, s') -> reaches f lim (tries + Z.of_nat fuel + 1) sent s' (heard s s' u)
  | reach_turn tries sent s u t : reaches f lim tries sent s u -> turn_ok t -> reaches f lim tries sent (take t s).2 (heard s (take t s).2 u)
  | reach_response tries sent s u id s' : reaches f lim tries sent s u -> id ∈ used_ids u ->
      onCommand (OnResponse id) s = (Ok tt, s') -> reaches f lim tries sent s' (heard s s' u)
  | reach_complete tries sent s u id fuel l s' : reaches f lim tries sent s u -> is_Some (live u !! connection_key id) ->
      connectedTransport s = Some l -> failures l = [] ->
      setConnectionInterruptProcessingComplete (S fuel) [] id s = (Ok tt, s') -> reaches f lim tries sent s' u.

(** Room in the caches of the tracker, of 2^29 entries each. *)
Definition ROOM : Z := 402653184.

Lemma new_cache {K V} `{Countable K} (hash : K -> Z) : exists m, LinkedHashMap_new (K := K) (V := V) 12 DEFAULT_LOAD false = Ok m /\ lhm_ok hash 29 m /\ chain m = [] /\ abs (table m) = ∅.
Proof.
  destruct (new_table_ok (K := K) (V := V) hash 12) as (t & E & Ht & Ha & _); [done..|]. unfold LinkedHashMap_new. rewrite E. eexists. split; [reflexivity|]. split_and!; [|done|done].
  split; cbn; [done|constructor|]. intros k. rewrite Ha, lookup_empty. split; [by intros ?%not_elem_of_nil|by intros []].
Qed.

Lemma new_sim f lim : restores f -> maxReconnectAttempts lim <> 0 -> startupMaxReconnectAttempts lim <> 0 -> exists s, opened f lim = Ok s /\ sim ROOM s new_client.
Proof.
  intros Hf H1 H2. destruct (new_cache (V := Message) mp_hash) as (m & Em & Hm & Cm & Am). destruct (new_cache (V := MessagePull) string_hash) as (p & Ep & Hp & Cp & Ap).
  unfold opened, Tracker_new. rewrite Em, Ep. clear Em Ep. eexists. split; [reflexivity|]. split; try done. split.
  - exists ∅. split; try done; [by apply om_sorted_nil|by intros a [x Hx]|intros ck; cbn; rewrite om_map_nil, !lookup_empty; constructor|].
    split; cbn; [done|by rewrite Cm|by rewrite Am|done|by rewrite Cp].
  - split; try done; [by apply om_sorted_nil|by intros id []].
Qed.

(** *** What holds after every history *)

Record good (tries : Z) (sent : list Command) (s : Failover) (u : Client) : Prop := {
  gd_sim : sim (ROOM - tries) s u;
  gd_sent : exists b, run_broker sent ∅ = Some b /\ broker_seen (fun _ _ => False) b (live u);
}.

Lemma sent_hear sent u ns : (exists b, run_broker sent ∅ = Some b /\ broker_seen (fun _ _ => False) b (live u)) ->
  exists b, run_broker sent ∅ = Some b /\ broker_seen (fun _ _ => False) b (live (hear ns u)).
Proof. intros (b & Hb & Hs). exists b. split; [done|]. intros ck. apply seen_hear, Hs. Qed.

Lemma good_told tries tries' sent s u s' v : good tries sent s u -> told s u s' v -> sim (ROOM - tries') s' v -> good tries' sent s' (heard s s' u).
Proof.
  intros [_ Hb] Ht Hs. rewrite <- (told_heard _ _ _ _ Ht). split; [done|]. destruct Ht as (ns & _ & _ & ->). by apply sent_hear.
Qed.

Lemma reaches_tries f lim tries sent s u : reaches f lim tries sent s u -> 0 <= tries.
Proof. induction 1; lia. Qed.

Lemma reaches_good f lim tries sent s u : restores f -> maxReconnectAttempts lim <> 0 -> startupMaxReconnectAttempts lim <> 0 ->
  reaches f lim tries sent s u -> tries <= ROOM -> good tries sent s u.
Proof.
  intros Hf H1 H2. induction 1 as [s E|tries sent s u u' fuel waits cmd s' Hr IH Hstep Hw E|tries sent s u u' fuel waits cmd e s' Hr IH Hstep Hw E|tries sent s u t Hr IH Ht|tries sent s u id s' Hr IH Hid E
    |tries sent s u id fuel l s' Hr IH Hlive Hc Hfl E]; intros Hroom.
  - destruct (new_sim f lim Hf H1 H2) as (s0 & E0 & Hs0). rewrite E in E0. injection E0 as <-. split; [done|]. exists ∅. split; [done|apply map_Forall2_empty].
  - destruct IH as [Hs Hb]; [lia|]. assert (sim (ROOM - (tries + Z.of_nat fuel + 1) + Z.of_nat fuel + 1) s u) as Hs' by (eapply sim_weaken; [exact Hs|lia]).
    pose proof (sim_oneway fuel _ s u u' waits cmd Hs' ltac:(lia) Hstep Hw) as H. rewrite E in H. destruct H as (_ & v & Hv & Ht). destruct Hb as (b & Hb & Hseen).
    destruct (seen_step _ _ _ _ _ Hseen Hstep) as (b' & Hb' & Hseen'). rewrite <- (told_heard _ _ _ _ Ht). split; [done|]. destruct Ht as (ns & _ & _ & ->). apply sent_hear.
    exists b'. split; [|done]. rewrite run_broker_app, Hb. cbn. by rewrite Hb'.
  - assert (good tries sent s u) as Hg by (apply IH; lia). pose proof Hg as [Hs _]. assert (sim (ROOM - (tries + Z.of_nat fuel + 1) + Z.of_nat fuel + 1) s u) as Hs' by (eapply sim_weaken; [exact Hs|lia]).
    pose proof (sim_oneway fuel _ s u u' waits cmd Hs' ltac:(lia) Hstep Hw) as H. rewrite E in H. destruct H as (_ & (v & Hv & Ht) & _). by eapply good_told.
  - specialize (IH Hroom). destruct (sim_take _ _ _ _ (gd_sim _ _ _ _ IH) Ht) as (v & Hv & Htold & _). by eapply good_told.
  - specialize (IH Hroom). destruct (sim_command _ _ _ (OnResponse id) (gd_sim _ _ _ _ IH) Hid) as (s2 & E2 & Hs2 & Ht2 & _). rewrite E in E2. injection E2 as <-. by eapply good_told.
  - specialize (IH Hroom). destruct Hlive as [c Hlive]. destruct (sim_complete fuel _ _ _ _ _ _ (gd_sim _ _ _ _ IH) Hlive Hc Hfl) as (s2 & E2 & Hs2 & _). rewrite E in E2. injection E2 as <-.
    split; [done|apply (gd_sent _ _ _ _ IH)].
Qed.

(** *** Histories that are played *)

Inductive event : Type :=
  | Sends (fuel : nat) (waits : list (Z * turn)) (cmd : Command)
  | Takes (t : turn)
  | Answers (id : Z)
  | Completes (id : ConnectionId).

Definition new_link (t : turn) : bool := match t with Connects l => match wire l with [] => true | _ => false end | _ => true end.
Lemma new_link_ok t : new_link t = true -> turn_ok t.
Proof. destruct t as [l|e| |p q|e]; [|done..]. cbn. by destruct (wire l). Qed.

Record played : Type := mkPlayed { pl_tries : Z; pl_sent : list Command; pl_transport : Failover; pl_client : Client }.

Definition play1 (e : event) (p : played) : option played :=
  let s := pl_transport p in
  let u := pl_client p in
  match e with
  | Sends fuel waits cmd =>
      if forallb (fun x => new_link x.2) waits then
        match client_step cmd u, oneway fuel (taken waits) cmd s with
        | Some u', (Ok _, s') => Some (mkPlayed (pl_tries p + Z.of_nat fuel + 1) (pl_sent p ++ [cmd]) s' (heard s s' u'))
        | Some _, (Throw _, s') => Some (mkPlayed (pl_tries p + Z.of_nat fuel + 1) (pl_sent p) s' (heard s s' u))
        | _, _ => None
        end
      else None
  | Takes t => if new_link t then let s' := (take t s).2 in Some (mkPlayed (pl_tries p) (pl_sent p) s' (heard s s' u)) else None
  | Answers id =>
      if bool_decide (id ∈ used_ids u) then
        match onCommand (OnResponse id) s with (Ok _, s') => Some (mkPlayed (pl_tries p) (pl_sent p) s' (heard s s' u)) | _ => None end
      else None
  | Completes id =>
      match connectedTransport s, live u !! connection_key id with
      | Some l, Some _ =>
          match failures l, setConnectionInterruptProcessingComplete 1 [] id s with
          | [], (Ok _, s') => Some (mkPlayed (pl_tries p) (pl_sent p) s' u)
          | _, _ => None
          end
      | _, _ => None
      end
  end.

Fixpoint play (es : list event) (p : played) : option played := match es with [] => Some p | e :: es' => p' ← play1 e p; play es' p' end.

Lemma play_reaches f lim es p p' : reaches f lim (pl_tries p) (pl_sent p) (pl_transport p) (pl_client p) -> play es p = Some p' ->
  reaches f lim (pl_tries p') (pl_sent p') (pl_transport p') (pl_client p').
Proof.
  revert p. induction es as [|e es IH]; intros p Hp; [by intros [= <-]|]. cbn [play]. destruct (play1 e p) as [p1|] eqn:E; [|done]. cbn [mbind option_bind]. apply IH. clear IH.
  destruct p as [tries sent s u]. cbn [pl_tries pl_sent pl_transport pl_client] in *. destruct e as [fuel waits cmd|t|id|id]; cbn [play1 pl_tries pl_sent pl_transport pl_client] in E.
  - destruct (forallb _ waits) eqn:Ew; [|done]. destruct (client_step cmd u) as [u'|] eqn:Es; [|done].
    assert (Forall (fun x => turn_ok x.2) waits) as Hw by (apply List.Forall_forall; intros x Hx; apply new_link_ok; rewrite forallb_forall in Ew; by apply Ew).
    destruct (oneway fuel (taken waits) cmd s) as [[[]|e| |] s'] eqn:Eo; try done; injection E as <-; [by eapply reach_send|by eapply reach_refused].
  - destruct (new_link t) eqn:Et; [|done]. injection E as <-. by apply reach_turn; [|apply new_link_ok].
  - case_bool_decide as Hid; [|done]. destruct (onCommand (OnResponse id) s) as [[[]|e| |] s'] eqn:Eo; try done. injection E as <-. by eapply reach_response.
  - destruct (connectedTransport s) as [l|] eqn:Ec; [|done]. destruct (live u !! connection_key id) as [c|] eqn:El; [|done]. destruct (failures l) eqn:Ef; [|done].
    destruct (setConnectionInterruptProcessingComplete 1 [] id s) as [[[]|e| |] s'] eqn:Eo; try done. injection E as <-. by eapply reach_complete.
Qed.

Definition start (f : Settings) (lim : Limits) : option played := match opened f lim with Ok s => Some (mkPlayed 0 [] s new_client) | _ => None end.

Lemma start_reaches f lim es p : (start f lim ≫= play es) = Some p -> reaches f lim (pl_tries p) (pl_sent p) (pl_transport p) (pl_client p).
Proof. unfold start. destruct (opened f lim) eqn:E; try done. cbn. apply play_reaches. cbn. by apply reach_open. Qed.

(** *** A history in which a connection fails twice *)

Definition fresh_link (scheme : list Z) (fails : list bool) : Link := mkLink (mkURI scheme false [] [] [] [] (-1) [] [] [] []) [] fails 12.

Definition conn : ConnectionId := mkConnectionId ([99; 49]).
Definition sess : SessionId := mkSessionId ([99; 49]) 1.
Definition prod : ProducerId := mkProducerId ([99; 49]) 1 1.
Definition cons1 : ConsumerId := mkConsumerId ([99; 49]) 1 1.
Definition tx (n : Z) : LocalId := mkLocalId n conn.
Definition queue : Destination := mkDest false false ([113]).
Definition message (id : Z) (t : option TransactionId) : Command := CMessage (mkMessage (mkBaseCommand false id) (mkMessageIdPtr id id) prod t ([104; 101; 108; 108; 111]) []).
Definition transaction (id : Z) (n type : Z) : Command := CTransactionInfo (mkTransactionInfo (mkBaseCommand true id) (Some conn) (Local (tx n)) type).

(** A connection with a session, a producer and a consumer, and a message in a transaction. *)
Definition begun : list event := map (Sends 1 [])
  [CConnectionInfo (mkConnectionInfo (mkBaseCommand true 1) conn ([99; 108; 105; 101; 110; 116]) false); CSessionInfo (mkSessionInfo (mkBaseCommand false 2) sess);
   CProducerInfo (mkProducerInfo (mkBaseCommand false 3) prod (Some queue)); CConsumerInfo (mkConsumerInfo (mkBaseCommand true 4) cons1 (Some queue) 1000);
   transaction 5 1 TRANSACTION_STATE_BEGIN; message 6 (Some (Local (tx 1)))].
Definition sample : list event :=
  Takes (Connects (fresh_link ([116; 99; 112]) [])) :: begun ++
  [ (* the producer goes, and the connection fails under the next message *)
    Sends 1 [] (CRemoveInfo (mkRemoveInfo (mkBaseCommand true 7) (ProducerObject prod))); Takes (Fails IOException);
    Takes (Connects (fresh_link ([115; 115; 108]) [false; false; true]));
    Sends 2 [(0, Connects (fresh_link ([110; 105; 111]) []))] (message 8 None);
    (* the commit is sent on a link that fails with it, then it is in doubt *)
    Completes conn; Sends 1 [] (transaction 9 1 TRANSACTION_STATE_COMMITONEPHASE); Takes (Fails IOException)].
Definition restored_sample : list event := sample ++ [Takes (Connects (fresh_link ([116; 99; 112]) [])); Completes conn].

Definition sample_settings : Settings := DefaultSettings true.
Definition sample_limits : Limits := mkLimits 30000 20 20.
Definition sampled (es : list event) : option played := start sample_settings sample_limits ≫= play es.

Lemma sampled_reaches es p : sampled es = Some p -> reaches sample_settings sample_limits (pl_tries p) (pl_sent p) (pl_transport p) (pl_client p).
Proof. apply start_reaches. Qed.

(** A fact that a history shows when it is played. *)
Definition shows (es : list event) (f : played -> bool) : bool := match sampled es with Some p => f p | None => false end.

Example sample_plays : shows sample (fun p => match connectedTransport (pl_transport p) with None => (length (pl_sent p) =? 9)%nat | Some _ => false end) = true.
Proof. vm_compute. reflexivity. Qed.

(** ** What is promised *)

(** The broker is told the prefetch of a consumer that recovers later. *)
Definition nobody_recovers (t : Tracker) : bool := forallb (fun p => match cs_recoveringPullConsumers p.2 with [] => true | _ => false end) (connectionStates t).

Lemma nobody_recovers_ok t ck k : om_sorted connection_less (connectionStates t) -> nobody_recovers t = true -> ~ recovers t ck k.
Proof.
  intros Hs Hn (cs & Hcs & Hk). apply om_map_elem_of in Hcs as (id & Hin & _). unfold nobody_recovers in Hn. rewrite forallb_forall in Hn.
  apply list_elem_of_In in Hin. specialize (Hn _ Hin). cbn in Hn. destruct (cs_recoveringPullConsumers cs); [|done]. rewrite om_map_nil, lookup_empty in Hk. by destruct Hk.
Qed.

(** C1: whatever the sends, the failures, the new connections and the answers were, a
    transport that is connected and has no consumer to speed up has told the broker what a
    connection that never failed would have: the commands on the wire of the last connection
    make a broker that knew nothing the broker that all the commands of the client make. *)
Theorem failover_transparent f lim tries sent s u l : restores f -> maxReconnectAttempts lim <> 0 -> startupMaxReconnectAttempts lim <> 0 ->
  reaches f lim tries sent s u -> tries <= ROOM -> connectedTransport s = Some l -> nobody_recovers (tracker s) = true ->
  exists b, run_broker (wire l) ∅ = Some b /\ run_broker sent ∅ = Some b.
Proof.
  intros Hf H1 H2 Hr Hroom Hc Hn. destruct (reaches_good _ _ _ _ _ _ Hf H1 H2 Hr Hroom) as [Hs (b & Hb & Hseen)].
  destruct (si_link _ _ _ Hs l Hc) as (b' & Hb' & Hseen'). apply broker_seen_exact in Hseen; [|by intros ck k []].
  destruct (co_tracker _ _ _ (si_core _ _ _ Hs)) as [own Ht]. apply broker_seen_exact in Hseen'; [|intros ck k Hk; by eapply nobody_recovers_ok in Hk; [|apply (tk_sorted _ _ _ _ Ht)|]].
  exists b'. by rewrite Hb', Hb, Hseen, Hseen'.
Qed.

Lemma failover_transparent_witness : match sampled restored_sample with
  | Some p => match connectedTransport (pl_transport p) with
              | Some l => wire l <> pl_sent p /\ exists b, run_broker (wire l) ∅ = Some b /\ run_broker (pl_sent p) ∅ = Some b
              | None => False
              end
  | None => False
  end.
Proof.
  assert (shows restored_sample (fun p => match connectedTransport (pl_transport p) with
    | Some l => negb (length (wire l) =? length (pl_sent p))%nat && nobody_recovers (tracker (pl_transport p)) && (pl_tries p <=? ROOM) | None => false end) = true) as H by (vm_compute; reflexivity).
  unfold shows in H. destruct (sampled restored_sample) as [p|] eqn:E; [|done]. apply sampled_reaches in E. destruct (connectedTransport (pl_transport p)) as [l|] eqn:Ec; [|done].
  apply andb_true_iff in H as [[Hl Hn]%andb_true_iff Ht%Z.leb_le]. split.
  - intros Hw. by rewrite Hw, Nat.eqb_refl in Hl.
  - by eapply (failover_transparent sample_settings sample_limits); [..|exact E|exact Ht|exact Ec|exact Hn].
Defined.

(** What a client heard of took what it says from the transactions that waited. *)
Lemma hear_settles ns u ck c c' tk tx id : live u !! ck = Some c -> c_transactions c !! tk = Some tx -> tx_request tx = Some id ->
  live (hear ns u) !! ck = Some c' -> c_transactions c' !! tk <> Some tx -> ACommand (OnResponse id) ∈ ns \/ exists t, ACommand (OnRolledBack id t) ∈ ns.
Proof.
  revert u c. induction ns as [|x ns IH]; intros u c Hc Htx Hid Hc' Hno; [cbn in Hc'; by simplify_eq|]. change (hear (x :: ns) u) with (hear ns (hear1 u x)) in Hc'.
  assert (forall id', live (client_answer id' u) !! ck = Some (answered id' c)) as Ha by (intros id'; cbn; by rewrite lookup_fmap, Hc).
  assert (forall id', id' <> id -> c_transactions (answered id' c) !! tk = Some tx) as Hk by (intros id' Hne; apply map_lookup_filter_Some; split; [done|cbn; congruence]).
  assert (forall id', hear1 u x = client_answer id' u -> id' <> id -> ACommand (OnResponse id) ∈ x :: ns \/ exists t, ACommand (OnRolledBack id t) ∈ x :: ns) as Hother.
  { intros id' E Hne. rewrite E in Hc'. destruct (IH _ _ (Ha id') (Hk id' Hne) Hid Hc' Hno) as [H|[t Ht]]; [left|right; exists t]; by right. }
  assert (hear1 u x = u -> ACommand (OnResponse id) ∈ x :: ns \/ exists t, ACommand (OnRolledBack id t) ∈ x :: ns) as Hsame.
  { intros E. rewrite E in Hc'. destruct (IH _ _ Hc Htx Hid Hc' Hno) as [H|[t Ht]]; [left|right; exists t]; by right. }
  destruct x as [[id'|id' t'|d1 d2|]| | |e]; try by apply Hsame.
  - destruct (decide (id' = id)) as [->|Hne]; [|by apply (Hother id')]. left. left.
  - destruct (decide (id' = id)) as [->|Hne]; [|by apply (Hother id')]. right. exists t'. left.
Qed.

(** C7: a commit whose answer had not come when the connection was lost is answered when
    there is a connection again: its client is told that the transaction was rolled back. *)
Theorem commit_in_doubt f lim tries sent s u l s' ck c tk tx i id : restores f -> maxReconnectAttempts lim <> 0 -> startupMaxReconnectAttempts lim <> 0 ->
  reaches f lim tries sent s u -> tries <= ROOM -> connectedTransport s = None -> wire l = [] ->
  live u !! ck = Some c -> c_transactions c !! tk = Some tx -> tx_request tx = Some id ->
  list.last (tx_commands tx) = Some (CTransactionInfo i) -> ti_type i = TRANSACTION_STATE_COMMITONEPHASE ->
  connect l s = (Ok tt, s') -> exists t ns, notices s' = notices s ++ ns /\ ACommand (OnRolledBack id t) ∈ ns.
Proof.
  intros Hf H1 H2 Hr Hroom Hc Hw Hlive Htx Hid Hlast Hty E. destruct (reaches_good _ _ _ _ _ _ Hf H1 H2 Hr Hroom) as [Hs _].
  pose proof (sim_connect _ _ _ _ Hs Hc Hw) as Hok. unfold runs in Hok. rewrite E in Hok. destruct Hok as (u' & _ & (ns & En & _ & ->) & _ & _ & Hun & (rb & Erb) & _).
  assert (is_Some (live (hear ns u) !! ck)) as [c' Hc'] by (apply hear_live; by exists c).
  assert (c_transactions c' !! tk <> Some tx) as Hno.
  { intros Htx'. specialize (Hun _ _ Hc' _ _ _ Htx' Hlast). cbn in Hun. by rewrite Hty in Hun. }
  pose proof (hear_settles _ _ _ _ _ _ _ _ Hlive Htx Hid Hc' Hno) as Ht. rewrite En in Erb. apply app_inv_head in Erb. subst ns.
  assert (exists t, ACommand (OnRolledBack id t) ∈ map rolled_back rb ++ [Resumed]) as [t' Ht'].
  { destruct Ht as [Ht|Ht]; [|done]. apply elem_of_app in Ht as [(x & Hx & _)%list_elem_of_fmap|Ht%list_elem_of_singleton]; [by destruct x|done]. }
  by exists t', (map rolled_back rb ++ [Resumed]).
Qed.

Lemma commit_in_doubt_witness : match sampled sample with
  | Some p => exists t ns s', connect (fresh_link [116; 99; 112] []) (pl_transport p) = (Ok tt, s') /\ notices s' = notices (pl_transport p) ++ ns /\ ACommand (OnRolledBack 9 t) ∈ ns
  | None => False
  end.
Proof.
  assert (shows sample (fun p => match connectedTransport (pl_transport p), connect (fresh_link [116; 99; 112] []) (pl_transport p) with None, (Ok _, _) => true | _, _ => false end &&
    match live (pl_client p) !! connection_key conn with
    | Some c => match c_transactions c !! local_key (Some (tx 1)) with
                | Some x => bool_decide (tx_request x = Some 9) && match list.last (tx_commands x) with Some (CTransactionInfo i) => ti_type i =? TRANSACTION_STATE_COMMITONEPHASE | _ => false end
                | None => false
                end
    | None => false
    end && (pl_tries p <=? ROOM)) = true) as H by (vm_compute; reflexivity).
  unfold shows in H. destruct (sampled sample) as [p|] eqn:E; [|done]. apply sampled_reaches in E. destruct (connectedTransport (pl_transport p)) as [l|] eqn:Ec; [done|].
  destruct (connect _ (pl_transport p)) as [[[]|e| |] s'] eqn:Es; try done. destruct (live (pl_client p) !! connection_key conn) as [c|] eqn:El; [|done].
  destruct (c_transactions c !! local_key (Some (tx 1))) as [x|] eqn:Ex; [|done]. apply andb_true_iff in H as [[_ [Hid%bool_decide_eq_true Hl]%andb_true_iff]%andb_true_iff Ht%Z.leb_le].
  destruct (list.last (tx_commands x)) as [[]|] eqn:Elast; try done. apply Z.eqb_eq in Hl.
  assert (restores sample_settings) as Hr by done. assert (maxReconnectAttempts sample_limits <> 0) as H1 by done. assert (startupMaxReconnectAttempts sample_limits <> 0) as H2 by done.
  assert (wire (fresh_link [116; 99; 112] []) = []) as Hw by done.
  destruct (commit_in_doubt _ _ _ _ _ _ _ _ _ _ _ _ _ _ Hr H1 H2 E Ht Ec Hw El Ex Hid Elast Hl Es) as (t & ns & ? & ?). by exists t, ns, s'.
Defined.


(** C14: on a new connection every request that waits for its answer is sent again, in the
    order of their numbers and after everything that brings the broker to where it was; the
    broker refuses none of it. *)
Theorem requests_resent f lim tries sent s u l : restores f -> maxReconnectAttempts lim <> 0 -> startupMaxReconnectAttempts lim <> 0 ->
  reaches f lim tries sent s u -> tries <= ROOM -> connectedTransport s = None -> firstConnection (life s) = false -> wire l = [] -> failures l = [] ->
  exists s' l' before b, connect l s = (Ok tt, s') /\ connectedTransport s' = Some l' /\
    wire l' = before ++ map (fun p => request_command p.2) (requestMap s') /\ run_broker (wire l') ∅ = Some b.
Proof.
  intros Hf H1 H2 Hr Hroom Hc Hfirst Hw Hfl. destruct (reaches_good _ _ _ _ _ _ Hf H1 H2 Hr Hroom) as [Hs _].
  pose proof (sim_connect _ _ _ _ Hs Hc Hw) as Hok. unfold runs in Hok. destruct (connect l s) as [[[]|e| |] s']; [|by destruct Hok as (_ & ? & _)|done..].
  destruct Hok as (u' & Hs' & _ & _ & _ & _ & _ & l' & Hc' & _ & Hsent). destruct (Hsent Hfirst) as [before Hb]. destruct (si_link _ _ _ Hs' l' Hc') as (b & Hrun & _). by exists s', l', before, b.
Qed.

Lemma requests_resent_witness : match sampled sample with
  | Some p => exists s' l' before b, connect (fresh_link [116; 99; 112] []) (pl_transport p) = (Ok tt, s') /\ connectedTransport s' = Some l' /\
      wire l' = before ++ map (fun p => request_command p.2) (requestMap s') /\ run_broker (wire l') ∅ = Some b
  | None => False
  end.
Proof.
  assert (shows sample (fun p => match connectedTransport (pl_transport p) with None => true | _ => false end && negb (firstConnection (life (pl_transport p))) && (pl_tries p <=? ROOM)) = true) as H by (vm_compute; reflexivity).
  unfold shows in H. destruct (sampled sample) as [p|] eqn:E; [|done]. apply sampled_reaches in E. destruct (connectedTransport (pl_transport p)) as [l|] eqn:Ec; [done|].
  apply andb_true_iff in H as [H%negb_true_iff Ht%Z.leb_le].
  by eapply (requests_resent sample_settings sample_limits); [..|exact E|exact Ht|exact Ec|exact H|done|done].
Defined.

(** C21: when the consumer says that it has done with what was dispatched before the
    interruption, the broker is sent one command for every consumer of the connection that was
    stalled, with the prefetch of that consumer, and nothing else; then it knows the consumers of
    the connection as they are, and the other connections stay as they were. *)
Theorem failover_completes f lim tries sent s u l id c fuel : restores f -> maxReconnectAttempts lim <> 0 -> startupMaxReconnectAttempts lim <> 0 ->
  reaches f lim tries sent s u -> tries <= ROOM -> connectedTransport s = Some l -> failures l = [] -> live u !! connection_key id = Some c ->
  exists s' l' b, setConnectionInterruptProcessingComplete (S fuel) [] id s = (Ok tt, s') /\ notices s' = notices s /\
    connectedTransport s' = Some l' /\ told_again (tracker s) (connection_key id) c (wire l) (wire l') /\
    run_broker (wire l') ∅ = Some b /\ broker_seen (recovers (tracker s')) b (live u) /\
    forall ck k, recovers (tracker s') ck k <-> ck <> connection_key id /\ recovers (tracker s) ck k.
Proof.
  intros Hf H1 H2 Hr Hroom Hc Hfl Hlive. destruct (reaches_good _ _ _ _ _ _ Hf H1 H2 Hr Hroom) as [Hs _].
  destruct (sim_complete fuel _ _ _ _ _ _ Hs Hlive Hc Hfl) as (s' & E & Hs' & En & _ & (l' & Hc' & _ & Ht) & Hrec). destruct (si_link _ _ _ Hs' l' Hc') as (b & Hrun & Hseen). by exists s', l', b.
Qed.

Lemma failover_completes_witness : match sampled (sample ++ [Takes (Connects (fresh_link [116; 99; 112] []))]) with
  | Some p => exists l c s' l', connectedTransport (pl_transport p) = Some l /\ setConnectionInterruptProcessingComplete 1 [] conn (pl_transport p) = (Ok tt, s') /\
      connectedTransport s' = Some l' /\ told_again (tracker (pl_transport p)) (connection_key conn) c (wire l) (wire l') /\
      forall ck k, recovers (tracker s') ck k <-> ck <> connection_key conn /\ recovers (tracker (pl_transport p)) ck k
  | None => False
  end.
Proof.
  assert (shows (sample ++ [Takes (Connects (fresh_link [116; 99; 112] []))]) (fun p => match connectedTransport (pl_transport p) with Some l => match failures l with [] => true | _ => false end | _ => false end &&
    negb (nobody_recovers (tracker (pl_transport p))) && bool_decide (is_Some (live (pl_client p) !! connection_key conn)) && (pl_tries p <=? ROOM)) = true) as H by (vm_compute; reflexivity).
  unfold shows in H. destruct (sampled _) as [p|] eqn:E; [|done]. apply sampled_reaches in E. destruct (connectedTransport (pl_transport p)) as [l|] eqn:Ec; [|done]. destruct (failures l) eqn:El; [|done].
  apply andb_true_iff in H as [[_ Hlive%bool_decide_eq_true]%andb_true_iff Ht%Z.leb_le]. destruct Hlive as [c Hlive].
  destruct (failover_completes sample_settings sample_limits _ _ _ _ l conn c 0 ltac:(done) ltac:(done) ltac:(done) E Ht Ec El Hlive) as (s' & l' & b & H1 & _ & H2 & H3 & _ & _ & H4).
  exact (ex_intro _ l (ex_intro _ c (ex_intro _ s' (ex_intro _ l' (conj eq_refl (conj H1 (conj H2 (conj H3 H4)))))))).
Defined.

(** C22: a send that finds no connection waits for one, and when one comes that holds, the
    command is on its wire when the send returns. *)
Theorem failover_send_returns f lim tries sent s u u' l t cmd : restores f -> maxReconnectAttempts lim <> 0 -> startupMaxReconnectAttempts lim <> 0 ->
  reaches f lim tries sent s u -> tries < ROOM -> connectedTransport s = None -> wire l = [] -> failures l = [] -> answered_here cmd = false -> client_step cmd u = Some u' ->
  exists s' l' before, oneway 1 (taken [(t, Connects l)]) cmd s = (Ok tt, s') /\ connectedTransport s' = Some l' /\ wire l' = before ++ [cmd].
Proof.
  intros Hf H1 H2 Hr Hroom Hc Hw Hfl Ha Hstep. destruct (reaches_good _ _ _ _ _ _ Hf H1 H2 Hr ltac:(lia)) as [Hs _].
  pose proof (open_waiting _ (si_open _ _ _ Hs) Hc) as Hwait. pose proof (si_open _ _ _ Hs) as (_ & Hcl & _).
  pose proof (sim_connect _ _ _ _ Hs Hc Hw) as Hok. unfold runs in Hok. destruct (connect l s) as [[[]|e| |] s1] eqn:E; [|by destruct Hok as (_ & ? & _)|done..].
  destruct Hok as (u1 & Hs1 & Ht1 & _ & _ & _ & _ & l1 & Hc1 & Hfl1 & _).
  destruct (told_step_client _ _ _ _ _ _ Ht1 Hstep) as (u1' & Hstep1 & _). pose proof (si_open _ _ _ Hs1) as (_ & Hcl1 & _).
  assert (sim (ROOM - tries - 1 + 1) s1 u1) as Hs1' by (eapply sim_weaken; [exact Hs1|lia]).
  destruct (sim_send_once _ _ _ _ _ _ Hs1' ltac:(lia) Hstep1 Hc1) as (r & s2 & E2 & _ & _ & Hr2 & Hsent). destruct (Hsent (Hfl1 Hfl)) as (-> & l2 & Hc2).
  exists s2, l2, (wire l1). destruct Hr2 as [_ Hw2]. rewrite Hc2 in Hw2. split; [|done].
  unfold oneway. rewrite bind_get, Hc, Ha. cbn [send_loop]. rewrite bind_get, Hcl. cbn [taken map await fst snd]. unfold bind at 1. rewrite bind_get, Hwait.
  assert (forall x, (0 <? timeout x) && (timeout x <? 0) = false) as Hto by (intros x; lia).
  assert (take (Connects l) s = (Ok tt, s1)) as Htake by (cbn [take]; by rewrite bind_get, Hc).
  rewrite <- andb_assoc, Hto, andb_false_r. rewrite (bind_ok _ _ s tt s1) by (unfold other_thread; by rewrite Htake). rewrite bind_get. unfold waiting. rewrite Hc1. cbn [andb]. cbn -[send_once].
  rewrite Hc1. unfold bind. by rewrite E2.
Qed.

Lemma failover_send_returns_witness : match sampled sample with
  | Some p => exists s' l' before, oneway 1 (taken [(5, Connects (fresh_link [116; 99; 112] []))]) (message 10 None) (pl_transport p) = (Ok tt, s') /\
      connectedTransport s' = Some l' /\ wire l' = before ++ [message 10 None]
  | None => False
  end.
Proof.
  assert (shows sample (fun p => match connectedTransport (pl_transport p) with None => true | _ => false end && match client_step (message 10 None) (pl_client p) with Some _ => true | None => false end && (pl_tries p <? ROOM)) = true) as H by (vm_compute; reflexivity).
  unfold shows in H. destruct (sampled sample) as [p|] eqn:E; [|done]. apply sampled_reaches in E. destruct (connectedTransport (pl_transport p)) as [l|] eqn:Ec; [done|].
  destruct (client_step (message 10 None) (pl_client p)) as [u'|] eqn:Es; [|done]. apply andb_true_iff in H as [_ Ht%Z.ltb_lt].
  by eapply (failover_send_returns sample_settings sample_limits); [..|exact E|exact Ht|exact Ec|done|done|done|exact Es].
Defined.

(** C3: whatever the other threads do while a send waits: when it returns, the command is the last
    one on the wire, or the connection was lost and the tracker keeps it for the next one, or
    there was no connection and it was answered here; and the client and the brokers it is
    connected to from then on know of it. It throws nothing but the IOException of a message that
    found no connection within the timeout, which then is on no wire and is not kept. It does
    neither only as long as there is no connection and it may wait for one: it is tried no more
    often than others take turns, and once. *)
Theorem failover_send_errors f lim tries sent s u u' fuel waits cmd r s' : restores f -> maxReconnectAttempts lim <> 0 -> startupMaxReconnectAttempts lim <> 0 ->
  reaches f lim tries sent s u -> tries + Z.of_nat fuel + 1 <= ROOM -> client_step cmd u = Some u' -> Forall (fun p => turn_ok p.2) waits ->
  oneway fuel (taken waits) cmd s = (r, s') ->
  match r with
  | Ok _ => disposed s cmd s' /\ good (tries + Z.of_nat fuel + 1) (sent ++ [cmd]) s' (heard s s' u')
  | Throw e => e = IOException /\ isMessage cmd = true /\ 0 < timeout (limits s) /\ connectedTransport s' = None /\ good (tries + Z.of_nat fuel + 1) sent s' (heard s s' u)
  | UB => False
  | Hang => (length waits + 1 < fuel)%nat -> waiting s' = true
  end.
Proof.
  intros Hf H1 H2 Hr Hroom Hstep Hw E. pose proof (reaches_tries _ _ _ _ _ _ Hr) as Hpos.
  destruct (reaches_good _ _ _ _ _ _ Hf H1 H2 Hr ltac:(lia)) as [Hs _].
  assert (sim (ROOM - (tries + Z.of_nat fuel + 1) + Z.of_nat fuel + 1) s u) as Hs' by (eapply sim_weaken; [exact Hs|lia]).
  pose proof (sim_oneway fuel _ s u u' waits cmd Hs' ltac:(lia) Hstep Hw) as H. rewrite E in H. destruct r as [[]|e| |]; [|destruct H as (? & _ & ? & ? & ?); split_and!; try done|done|destruct H as [?|?]; [done|lia]].
  - split; [apply H|]. apply (reaches_good f lim); try done. by eapply reach_send.
  - apply (reaches_good f lim); try done. by eapply reach_refused.
Qed.

Lemma failover_send_errors_witness : match sampled sample with
  | Some p => exists s', oneway 1 (taken [(20, Fails IOException); (20000, Fails IOException); (20000, Fails IOException)]) (message 10 None) (pl_transport p) = (Throw IOException, s') /\
      good (pl_tries p + 1 + 1) (pl_sent p) s' (heard (pl_transport p) s' (pl_client p))
  | None => False
  end.
Proof.
  assert (shows sample (fun p => match oneway 1 (taken [(20, Fails IOException); (20000, Fails IOException); (20000, Fails IOException)]) (message 10 None) (pl_transport p) with (Throw IOException, _) => true | _ => false end &&
    match client_step (message 10 None) (pl_client p) with Some _ => true | None => false end && (pl_tries p + 1 + 1 <=? ROOM)) = true) as H by (vm_compute; reflexivity).
  unfold shows in H. destruct (sampled sample) as [p|] eqn:E; [|done]. apply sampled_reaches in E. destruct (oneway _ _ _ _) as [[|e| |] s'] eqn:Eo; try done. destruct e; try done.
  destruct (client_step (message 10 None) (pl_client p)) as [u'|] eqn:Es; [|done]. apply andb_true_iff in H as [_ Ht%Z.leb_le]. exists s'. split; [done|].
  assert (restores sample_settings) as Hr by done. assert (maxReconnectAttempts sample_limits <> 0) as H1 by done. assert (startupMaxReconnectAttempts sample_limits <> 0) as H2 by done.
  assert (Forall (fun x : Z * turn => turn_ok x.2) [(20, Fails IOException); (20000, Fails IOException); (20000, Fails IOException)]) as Hw by (repeat constructor).
  apply (failover_send_errors sample_settings sample_limits _ _ _ _ _ _ _ _ _ _ Hr H1 H2 E (Ht : pl_tries p + Z.of_nat 1 + 1 <= ROOM) Es Hw Eo).
Defined.
