(* ===== verification/Reconnect.v ===== *)
(** * FailoverTransport (activemq/transport/failover): which broker a transport connects to,
    and when it gives up.

    [iterate] is the task that runs while there is no connection. The state of each broker is
    kept by the text of its address. Without backup transports: neither [backupsEnabled] nor
    [priorityBackup] is set, so no address is preferred and no connection is ready. *)
From stdpp Require Import gmap.
From S2P Require Import Prelude StlMap StringUtils OrderedMap URIPool HashMap StateTracker Failover.

(** ** The state *)

Inductive BrokerStatus : Type := AVAILABLE | CONNECTING | CONNECTED | FAILED | EXHAUSTED.
#[export] Instance BrokerStatus_eq_dec : EqDecision BrokerStatus.
Proof. solve_decision. Defined.

Record BrokerState : Type := mkBrokerState {
  status : BrokerStatus;
  failureCount : Z;
  lastAttemptTime : Z;
  lastSuccessTime : Z;
  lastError : option exn;
}.
Definition BrokerState_new : BrokerState := mkBrokerState AVAILABLE 0 0 0 None.

Record Delays : Type := mkDelays {
  initialReconnectDelay : Z;
  maxReconnectDelay : Z;
  backOffMultiplier : Z;
  useExponentialBackOff : bool;
}.

Record Reconnect : Type := mkReconnect {
  fo : Failover;
  brokerStates : std_map BrokerState;
  reconnectDelay : Z;
  connectFailures : Z;
  doRebalance : bool;
  delays : Delays;
  updateURIsSupported : bool;
}.

Definition set_fo x (r : Reconnect) := mkReconnect x (brokerStates r) (reconnectDelay r) (connectFailures r) (doRebalance r) (delays r) (updateURIsSupported r).
Definition set_brokers x (r : Reconnect) := mkReconnect (fo r) x (reconnectDelay r) (connectFailures r) (doRebalance r) (delays r) (updateURIsSupported r).
Definition set_reconnectDelay x (r : Reconnect) := mkReconnect (fo r) (brokerStates r) x (connectFailures r) (doRebalance r) (delays r) (updateURIsSupported r).
Definition set_connectFailures x (r : Reconnect) := mkReconnect (fo r) (brokerStates r) (reconnectDelay r) x (doRebalance r) (delays r) (updateURIsSupported r).
Definition set_doRebalance x (r : Reconnect) := mkReconnect (fo r) (brokerStates r) (reconnectDelay r) (connectFailures r) x (delays r) (updateURIsSupported r).

Definition on_fo {A} (m : M Failover A) : M Reconnect A := fun r => let '(x, s) := m (fo r) in (x, set_fo s r).

(** ** The state of a broker *)

Definition getBrokerState (uri : URI) (r : Reconnect) : BrokerState :=
  match map_find (uri_toString uri) (brokerStates r) with Some b => b | None => BrokerState_new end.
Definition on_broker (uri : URI) (f : BrokerState -> BrokerState) : M Reconnect unit :=
  modify (fun r => set_brokers (map_set (uri_toString uri) (f (getBrokerState uri r)) (brokerStates r)) r).

Definition markBrokerConnecting (uri : URI) (now : Z) : M Reconnect unit :=
  on_broker uri (fun b => mkBrokerState CONNECTING (failureCount b) now (lastSuccessTime b) (lastError b)).
Definition markBrokerConnected (uri : URI) (now : Z) : M Reconnect unit :=
  on_broker uri (fun b => mkBrokerState CONNECTED 0 (lastAttemptTime b) now None).
Definition markBrokerFailed (uri : URI) (error : exn) (maxAttempts : Z) : M Reconnect unit :=
  on_broker uri (fun b =>
    let count := s32 (failureCount b + 1) in
    mkBrokerState (if (0 <=? maxAttempts) && (maxAttempts <=? count) then EXHAUSTED else FAILED) count (lastAttemptTime b) (lastSuccessTime b) (Some error)).

Definition getUriFailureCount (uri : URI) (r : Reconnect) : Z := failureCount (getBrokerState uri r).
Definition isUriExhausted (uri : URI) (maxAttempts : Z) (r : Reconnect) : bool :=
  if maxAttempts <? 0 then false
  else bool_decide (status (getBrokerState uri r) = EXHAUSTED) || (maxAttempts <=? failureCount (getBrokerState uri r)).
Definition allUrisExhausted (uris : list URI) (maxAttempts : Z) (r : Reconnect) : bool :=
  if maxAttempts <? 0 then false else forallb (fun uri => isUriExhausted uri maxAttempts r) uris.

Definition made_available (b : BrokerState) : BrokerState := mkBrokerState AVAILABLE 0 (lastAttemptTime b) (lastSuccessTime b) (lastError b).
Definition on_brokers (f : BrokerState -> BrokerState) : M Reconnect unit :=
  modify (fun r => set_brokers (map (fun p => (p.1, f p.2)) (brokerStates r)) r).

Definition resetAllUriFailureCounts : M Reconnect unit :=
  on_brokers (fun b => if bool_decide (status b = CONNECTED) then b else made_available b).

Definition RECOVERY_COOLDOWN : Z := 300000.
Definition recoverExhaustedBrokers (now : Z) : M Reconnect unit :=
  on_brokers (fun b => if bool_decide (status b = EXHAUSTED) && (RECOVERY_COOLDOWN <? now - lastAttemptTime b) then made_available b else b).

(** ** Addresses and delays *)

(** [getConnectList]: the pool that the broker has sent, if there is anything in it. The
    pool is shared, so what follows is told which of the two it is. *)
Definition getConnectList (r : Reconnect) : bool := updateURIsSupported r && negb (pool_isEmpty (updated (fo r))).
Definition connectList (sent : bool) (r : Reconnect) : URIPool := if sent then updated (fo r) else uris (fo r).
Definition on_connectList {A} (sent : bool) (m : M URIPool A) : M Reconnect A := on_fo (if sent then in_updated m else in_uris m).

Definition DEFAULT_INITIAL_RECONNECT_DELAY : Z := 10.

Definition resetReconnectDelay : M Reconnect unit :=
  modify (fun r =>
    if negb (useExponentialBackOff (delays r)) || (reconnectDelay r =? DEFAULT_INITIAL_RECONNECT_DELAY)
    then set_reconnectDelay (initialReconnectDelay (delays r)) r else r).

Definition backOff (d : Delays) (delay : Z) : Z :=
  if useExponentialBackOff d then
    let delay' := s64 (delay * backOffMultiplier d) in
    if maxReconnectDelay d <? delay' then maxReconnectDelay d else delay'
  else delay.

(** What other threads do while this one sleeps or waits for the mutex. *)
Definition others (m : M Reconnect unit) : M Reconnect unit := fun r => (Ok tt, (m r).2).

Definition doDelay (nap : M Reconnect unit) : M Reconnect unit :=
  others nap ;;; modify (fun r => set_reconnectDelay (backOff (delays r) (reconnectDelay r)) r).

Definition isConnectionStateValid (r : Reconnect) : bool :=
  match connectedTransport (fo r) with Some _ => negb (doRebalance r) | None => false end.

(** A connection is given up for another one. *)
Definition disconnect : M Reconnect unit :=
  r <- get ;;
  match connectedTransport (fo r) with
  | Some l => on_fo (modify (set_connected None) ;;; in_uris (addURI (link_uri l)) ;;; notify Interrupted)
  | None => ret tt
  end.

(** ** Connecting *)

(** One round of the loop: what the generator of a randomized pool draws, the time, and what
    creating and starting a transport to an address gives. *)
Record Attempt : Type := mkAttempt { drawn : Z; at_time : Z; answer : URI -> exn + Link }.

Definition draw (sent : bool) (a : Attempt) : M Reconnect URI :=
  r <- get ;; on_connectList sent (getURI (drawn a mod zlen (uriPool (connectList sent r)))).

Definition at_uri (uri : URI) (l : Link) : Link := mkLink uri (wire l) (failures l) (link_version l).

(** A transport that has started is restored and becomes the connected one. *)
Definition establish (sent : bool) (uri : URI) (now : Z) (skipped : list URI) (l : Link) : M Reconnect unit :=
  on_fo (connect (at_uri uri l)) ;;;
  modify (fun r => set_connectFailures 0 (set_reconnectDelay (initialReconnectDelay (delays r)) r)) ;;;
  resetAllUriFailureCounts ;;;
  markBrokerConnected uri now ;;;
  on_connectList sent (addURIs skipped) ;;; ret tt.

Definition try_connect (sent : bool) (uri : URI) (a : Attempt) (skipped : list URI) : M Reconnect unit :=
  match answer a uri with
  | inl e => throw e
  | inr l => establish sent uri (at_time a) skipped l
  end.

(** How the loop ends: connected, or with the addresses that failed or were passed over, and
    the last failure. *)
Inductive loop_end : Type := Established | Nowhere (failures : list URI) (failure : option exn).

Fixpoint connect_loop (fuel : nat) (sent : bool) (failures : list URI) (failure : option exn) (attempts : list Attempt) : M Reconnect loop_end :=
  match fuel, attempts with
  | S fuel', a :: attempts' =>
      r <- get ;;
      if pool_isEmpty (connectList sent r) || bool_decide (is_Some (connectedTransport (fo r))) || closed (life (fo r)) then ret (Nowhere failures failure)
      else
        uri <- draw sent a ;;
        r <- get ;;
        if negb (firstConnection (life (fo r))) && isUriExhausted uri (calculateReconnectAttemptLimit (fo r)) r
        then connect_loop fuel' sent (failures ++ [uri]) failure attempts'
        else
          markBrokerConnecting uri (at_time a) ;;;
          result <- try_catch is_decaf (try_connect sent uri a failures ;;; ret None) (fun e => ret (Some e)) ;;
          match result with
          | None => ret Established
          | Some e =>
              r <- get ;;
              markBrokerFailed uri e (calculateReconnectAttemptLimit (fo r)) ;;;
              connect_loop fuel' sent (failures ++ [uri]) (Some e) attempts'
          end
  | _, _ => r <- get ;; if pool_isEmpty (connectList sent r) then ret (Nowhere failures failure) else hang
  end.

(** ** Giving up *)

Definition on_limits : M Reconnect Limits := r <- get ;; ret (limits (fo r)).

(** From the limit of the start to that of reconnecting. *)
Definition leave_startup : M Reconnect unit :=
  on_fo (on_life (set_firstConnection false)) ;;;
  modify (set_connectFailures 0) ;;;
  resetAllUriFailureCounts ;;;
  resetReconnectDelay.

(** What is left of an iteration that did not connect. *)
Definition iterate_failed (failure : option exn) (nap : M Reconnect unit) : M Reconnect bool :=
  r <- get ;;
  let reconnectAttempts := calculateReconnectAttemptLimit (fo r) in
  let allExhausted := (0 <=? reconnectAttempts) && allUrisExhausted (uriPool (connectList (getConnectList r) r)) reconnectAttempts r in
  modify (fun r => set_connectFailures (s32 (connectFailures r + 1)) r) ;;;
  if allExhausted then
    on_fo (on_life (set_connectionFailure failure)) ;;;
    let wasFirstConnection := firstConnection (life (fo r)) in
    (if wasFirstConnection then leave_startup else ret tt) ;;;
    on_fo propagateFailureToExceptionListener ;;;
    lim <- on_limits ;;
    let transitioningToDifferentLimit :=
      wasFirstConnection && (0 <? startupMaxReconnectAttempts lim) && negb (maxReconnectAttempts lim =? 0) &&
      negb (startupMaxReconnectAttempts lim =? maxReconnectAttempts lim) in
    (if transitioningToDifferentLimit then on_fo (on_life (set_connectionFailure None)) else ret tt) ;;;
    ret transitioningToDifferentLimit
  else
    (if closed (life (fo r)) then ret tt else doDelay nap) ;;;
    r <- get ;;
    ret (negb (closed (life (fo r)))).

(** Whether a rebalance has anything to do: not when the connection is to the address with
    priority. *)
Definition rebalance (sent : bool) : M Reconnect bool :=
  r <- get ;;
  if doRebalance r then
    match connectedTransport (fo r) with
    | Some l =>
        match URI_equals (priorityURI (connectList sent r)) (link_uri l) with
        | Ok true => modify (set_doRebalance false) ;;; ret false
        | Ok false => disconnect ;;; modify (set_doRebalance false) ;;; ret true
        | Throw e => throw e
        | UB => undefined
        | Hang => hang
        end
    | None => modify (set_doRebalance false) ;;; ret true
    end
  else ret true.

Definition search (sent : bool) (attempts : list Attempt) (nap : M Reconnect unit) : M Reconnect bool :=
  r <- get ;;
  if isClosedOrFailed (fo r) then ret false
  else if isConnectionStateValid r then ret false
  else
    e <- connect_loop (S (length (uriPool (connectList sent r)))) sent [] None attempts ;;
    match e with
    | Established => ret false
    | Nowhere failures failure => on_connectList sent (addURIs failures) ;;; iterate_failed failure nap
    end.

Definition choose (nap : M Reconnect unit) (attempts : list Attempt) (nap' : M Reconnect unit) : M Reconnect bool :=
  r <- get ;;
  let sent := getConnectList r in
  if pool_isEmpty (connectList sent r) then iterate_failed (Some IOException) nap'
  else
    go <- rebalance sent ;;
    if negb go then ret false
    else resetReconnectDelay ;;; others nap ;;; search sent attempts nap'.

(** [now] is the time at the start; [nap] is what others do during the first sleep, [nap']
    during the second. *)
Definition iterate (now : Z) (nap : M Reconnect unit) (attempts : list Attempt) (nap' : M Reconnect unit) : M Reconnect bool :=
  r <- get ;;
  if isConnectionStateValid r || isClosedOrFailed (fo r) then ret false
  else recoverExhaustedBrokers now ;;; choose nap attempts nap'.

(** ** What others tell the transport *)

Definition reconnect (rebalance : bool) : M Reconnect unit :=
  modify (fun r => if started (life (fo r)) && rebalance then set_doRebalance true r else r).

Definition FailoverTransport_addURI (rebalance : bool) (us : list URI) : M Reconnect unit :=
  new <- on_fo (in_uris (addURIs us)) ;; if (new : bool) then reconnect rebalance else ret tt.

Fixpoint removeURIs (us : list URI) : M URIPool bool :=
  match us with
  | [] => ret false
  | u :: us' => gone <- removeURI u ;; rest <- removeURIs us' ;; ret (gone || rest)
  end.
Definition FailoverTransport_removeURI (rebalance : bool) (us : list URI) : M Reconnect unit :=
  changed <- on_fo (in_uris (removeURIs us)) ;; if (changed : bool) then reconnect rebalance else ret tt.

(** The set that the addresses of a broker go through: in their order, each once. *)
Definition uri_less (a b : URI) : bool := match URI_compareTo a b with Ok n => n <? 0 | _ => false end.
Fixpoint uri_insert (u : URI) (l : list URI) : list URI :=
  match l with
  | [] => [u]
  | v :: l' => if uri_less u v then u :: l else if uri_less v u then v :: uri_insert u l' else l
  end.

Definition updateURIs (rebalance : bool) (us : list URI) : M Reconnect unit :=
  r <- get ;;
  if updateURIsSupported r then
    let copy := pool_copy (updated (fo r)) in
    on_fo (in_updated pool_clear) ;;;
    match us with
    | [] => ret tt
    | _ =>
        on_fo (in_updated (addURIs (foldl (fun l u => uri_insert u l) [] us))) ;;;
        r <- get ;;
        if negb (pool_isEmpty copy && pool_isEmpty (updated (fo r))) && negb (pool_equals copy (updated (fo r)))
        then reconnect rebalance else ret tt
    end
  else ret tt.

Definition isPending (r : Reconnect) : bool :=
  if negb (isConnectionStateValid r) && started (life (fo r)) && negb (isClosedOrFailed (fo r)) then
    let limit := calculateReconnectAttemptLimit (fo r) in
    if firstConnection (life (fo r)) && (connectFailures r =? 0) then true
    else negb (negb (limit =? -1) && (limit <? connectFailures r))
  else false.

(** The requests that wait are dropped with the connection. *)
Definition FailoverTransport_close : M Reconnect unit :=
  r <- get ;;
  if closed (life (fo r)) then ret tt
  else on_fo (on_life (fun x => set_closed true (set_started false x)) ;;; modify (set_requestMap []) ;;; modify (set_connected None)).
