(* ===== verification/ReconnectTheorems.v ===== *)
(** * What the reconnection of a failover transport does: it makes, loses and restores
    connections as the transport may expect of other threads, waits longer and longer, finds
    a broker that is there, and gives up after as many attempts as it is set to. *)
From stdpp Require Import gmap.
From S2P Require Import Prelude StlMap StringUtils OrderedMap TrackedCommands URIPool HashMap StateTracker FailoverSpec FailoverSim FailoverTrack Failover FailoverReplay FailoverBroker FailoverRestore FailoverConnect FailoverRun FailoverComplete FailoverTheorems Reconnect.

(** ** An iteration is a sequence of turns *)

Definition run_turns (ts : list turn) (s : Failover) : Failover := foldl (fun s t => (take t s).2) s ts.
Definition moves (s s' : Failover) : Prop := exists ts, Forall turn_ok ts /\ s' = run_turns ts s.
Definition stays (m : M Reconnect unit) : Prop := forall r, moves (fo r) (fo (m r).2).

#[export] Instance moves_preorder : PreOrder moves.
Proof.
  split; [intros s; by exists []|]. intros s1 s2 s3 (t1 & H1 & ->) (t2 & H2 & ->). exists (t1 ++ t2). split; [by apply List.Forall_app|].
  unfold run_turns. by rewrite foldl_app.
Qed.

Lemma moves_turn t s : turn_ok t -> moves s (take t s).2.
Proof. intros Ht. exists [t]. by split; [repeat constructor|]. Qed.

Lemma moves_pools p q s : moves s (set_pools p q s).
Proof. by apply (moves_turn (Addresses p q)). Qed.

Lemma sim_moves n s u s' : sim n s u -> moves s s' -> exists u', sim n s' u' /\ told s u s' u'.
Proof.
  intros Hs (ts & Ht & ->). revert s u Hs. induction Ht as [|t ts Ht _ IH]; intros s u Hs; [exists u; split; [done|apply told_refl]|].
  destruct (sim_take n s u t Hs Ht) as (u1 & H1 & T1 & _). destruct (IH _ _ H1) as (u2 & H2 & T2). exists u2. split; [done|]. by eapply told_trans.
Qed.

(** The parts that do not touch the transport, or only its addresses. *)
Definition stepping {A} (m : M Reconnect A) : Prop := forall r, moves (fo r) (fo (m r).2).

Lemma stepping_bind {A B} (m : M Reconnect A) (k : A -> M Reconnect B) : stepping m -> (forall a, stepping (k a)) -> stepping (x <- m ;; k x).
Proof.
  intros Hm Hk r. unfold bind. pose proof (Hm r) as H. destruct (m r) as [[a|e| |] r']; [|done..]. etrans; [exact H|apply Hk].
Qed.
Lemma stepping_ret {A} (a : A) : stepping (ret a).
Proof. by intros r. Qed.
Lemma stepping_get : stepping get.
Proof. by intros r. Qed.
Lemma stepping_hang {A} : stepping (@hang Reconnect A).
Proof. by intros r. Qed.
Lemma stepping_throw {A} e : stepping (@throw Reconnect A e).
Proof. by intros r. Qed.
Lemma stepping_undefined {A} : stepping (@undefined Reconnect A).
Proof. by intros r. Qed.
Lemma stepping_modify f : (forall r, moves (fo r) (fo (f r))) -> stepping (modify f).
Proof. intros Hf r. apply Hf. Qed.
Lemma stepping_uris {A} (m : M URIPool A) : stepping (on_fo (in_uris m)).
Proof. intros r. unfold on_fo, in_uris. destruct (m (uris (fo r))) as [o p]. apply moves_pools. Qed.
Lemma stepping_updated {A} (m : M URIPool A) : stepping (on_fo (in_updated m)).
Proof. intros r. unfold on_fo, in_updated. destruct (m (updated (fo r))) as [o p]. apply moves_pools. Qed.
Lemma stepping_connectList {A} sent (m : M URIPool A) : stepping (on_connectList sent m).
Proof. destruct sent; [apply stepping_updated|apply stepping_uris]. Qed.
Lemma stepping_on_broker uri f : stepping (on_broker uri f).
Proof. by intros r. Qed.
Lemma stepping_on_brokers f : stepping (on_brokers f).
Proof. by intros r. Qed.
Lemma stepping_others m : stays m -> stepping (others m).
Proof. intros Hm r. apply Hm. Qed.
Lemma stepping_resetDelay : stepping resetReconnectDelay.
Proof. intros r. unfold resetReconnectDelay, modify. cbn. by case_match. Qed.

Create HintDb stepping.
#[export] Hint Resolve stepping_bind stepping_ret stepping_get stepping_hang stepping_throw stepping_undefined stepping_uris stepping_updated
  stepping_connectList stepping_on_broker stepping_on_brokers stepping_others stepping_resetDelay : stepping.

Lemma stepping_set_brokers_only f : (forall r, fo (f r) = fo r) -> stepping (modify f).
Proof. intros Hf r. unfold modify. cbn. by rewrite Hf. Qed.

Lemma stepping_disconnect : stepping disconnect.
Proof.
  intros r. unfold disconnect. rewrite bind_get. destruct (connectedTransport (fo r)) as [l|] eqn:E; [|done].
  etrans; [by apply (moves_turn Drops)|]. cbn [take]. rewrite bind_get, E.
  set (s := ((modify (set_connected None);;; notify Interrupted) (fo r)).2). etrans; [by apply (moves_pools (addURI (link_uri l) (uris (fo r))).2 (updated (fo r)) s)|].
  subst s. unfold on_fo, in_uris, bind, modify, notify. cbn. destruct (addURI (link_uri l) (uris (fo r))) as [[b|e| |] p] eqn:Ea; try (unfold addURI, bind, modify, get, ret in Ea; cbn in Ea; by case_match).
Qed.

Definition new_links (a : Attempt) : Prop := forall uri l, answer a uri = inr l -> wire l = [].

Lemma connect_moves l s : connectedTransport s = None -> wire l = [] -> moves s (connect l s).2.
Proof. intros Hc Hw. pose proof (moves_turn (Connects l) s Hw) as H. cbn [take] in H. by rewrite bind_get, Hc in H. Qed.

Lemma stepping_addURIs sent us : stepping (on_connectList sent (addURIs us) ;;; ret tt).
Proof. eauto with stepping. Qed.

Lemma try_connect_moves sent uri a skipped r : connectedTransport (fo r) = None -> new_links a -> moves (fo r) (fo (try_connect sent uri a skipped r).2).
Proof.
  intros Hc Ha. unfold try_connect. destruct (answer a uri) as [e|l] eqn:El; [done|]. apply Ha in El. unfold establish.
  assert (moves (fo r) (fo (on_fo (connect (at_uri uri l)) r).2)) as H1.
  { unfold on_fo. pose proof (connect_moves (at_uri uri l) (fo r) Hc El). by destruct (connect (at_uri uri l) (fo r)). }
  unfold bind at 1. destruct (on_fo (connect (at_uri uri l)) r) as [[[]|e| |] r1]; [|done..]. etrans; [exact H1|].
  assert (stepping (modify (fun r => set_connectFailures 0 (set_reconnectDelay (initialReconnectDelay (delays r)) r)) ;;; resetAllUriFailureCounts ;;;
    markBrokerConnected uri (at_time a) ;;; on_connectList sent (addURIs skipped) ;;; ret tt)) as Hs; [|apply Hs].
  apply stepping_bind; [by apply stepping_set_brokers_only|intros _]. apply stepping_bind; [apply stepping_on_brokers|intros _].
  apply stepping_bind; [apply stepping_on_broker|intros _; apply stepping_addURIs].
Qed.

Lemma connect_loop_moves fuel sent failures failure attempts r : Forall new_links attempts -> moves (fo r) (fo (connect_loop fuel sent failures failure attempts r).2).
Proof.
  intros Ha. revert fuel failures failure r. induction Ha as [|a attempts Ha _ IH]; intros fuel failures failure r.
  { destruct fuel; cbn [connect_loop]; rewrite bind_get; by case_match. }
  destruct fuel as [|fuel]; cbn [connect_loop]; rewrite bind_get; [by case_match|]. destruct (_ || closed (life (fo r))) eqn:Eg; [done|].
  apply orb_false_iff in Eg as [[_ Hc]%orb_false_iff _]. apply bool_decide_eq_false in Hc. apply eq_None_not_Some in Hc.
  assert (moves (fo r) (fo (draw sent a r).2) /\ connectedTransport (fo (draw sent a r).2) = None) as [Hd Hc1].
  { unfold draw. rewrite bind_get. split; [apply stepping_connectList|]. unfold on_connectList, on_fo, in_updated, in_uris. destruct sent; by destruct (getURI _ _). }
  unfold bind at 1. destruct (draw sent a r) as [[uri|e| |] r1]; [|done..]. etrans; [exact Hd|]. cbn [snd] in *. rewrite bind_get. case_match; [apply IH|].
  set (r2 := (markBrokerConnecting uri (at_time a) r1).2). rewrite (bind_ok _ _ r1 tt r2) by done. change (fo r1) with (fo r2) in *.
  pose proof (try_connect_moves sent uri a failures r2 Hc1 Ha) as Ht. unfold bind at 1, try_catch.
  assert ((try_connect sent uri a failures ;;; ret (None : option exn)) r2 =
    match try_connect sent uri a failures r2 with (Ok _, r3) => (Ok None, r3) | (Throw e, r3) => (Throw e, r3) | (UB, r3) => (UB, r3) | (Hang, r3) => (Hang, r3) end) as ->
    by (unfold bind; by destruct (try_connect sent uri a failures r2) as [[]]).
  destruct (try_connect sent uri a failures r2) as [[[]|e| |] r3]; cbn [snd] in Ht; try done.
  destruct (is_decaf e); [|done]. cbn. etrans; [exact Ht|].
  match goal with |- context [connect_loop _ _ _ _ _ ?r4] => apply (IH fuel (failures ++ [uri]) (Some e) r4) end.
Qed.

Lemma stepping_doDelay nap : stays nap -> stepping (doDelay nap).
Proof. intros Hn. apply stepping_bind; [by apply stepping_others|]. intros _. by apply stepping_set_brokers_only. Qed.

Lemma leave_startup_ok r : exists r', leave_startup r = (Ok tt, r') /\ fo r' = set_life (set_firstConnection false (life (fo r))) (fo r).
Proof.
  unfold leave_startup. set (r1 := set_connectFailures 0 (set_fo (set_life (set_firstConnection false (life (fo r))) (fo r)) r)).
  set (r2 := (resetAllUriFailureCounts r1).2). exists (resetReconnectDelay r2).2. split; [reflexivity|].
  unfold resetReconnectDelay, modify. cbn. by case_match.
Qed.

(** An iteration that failed gives up, gives up the start, or goes on. *)
Lemma iterate_failed_moves failure nap r : stays nap -> connectionFailure (life (fo r)) = None -> (firstConnection (life (fo r)) = true -> connectedTransport (fo r) = None) ->
  match iterate_failed failure nap r with
  | (Ok _, r') => connectionFailure (life (fo r')) <> None \/ moves (fo r) (fo r')
  | (UB, _) => failure = None /\ 0 <= calculateReconnectAttemptLimit (fo r)
  | _ => False
  end.
Proof.
  intros Hn Hf Hc. unfold iterate_failed. rewrite bind_get. cbv zeta. set (limit := calculateReconnectAttemptLimit (fo r)).
  destruct ((0 <=? limit) && allUrisExhausted _ limit r) eqn:Ex; rewrite bind_modify.
  - apply andb_true_iff in Ex as [Hlim%Z.leb_le _]. set (r1 := set_connectFailures _ r).
    set (r2 := set_fo (set_life (set_connectionFailure failure (life (fo r))) (fo r)) r1). rewrite (bind_ok _ _ r1 tt r2) by done.
    assert (exists r3, (if firstConnection (life (fo r)) then leave_startup else ret tt) r2 = (Ok tt, r3) /\
      fo r3 = set_life (set_connectionFailure failure (set_firstConnection false (life (fo r)))) (fo r)) as (r3 & E3 & Ef3).
    { destruct (firstConnection (life (fo r))) eqn:Ef; [destruct (leave_startup_ok r2) as (r3 & E & E'); exists r3; split; [exact E|by rewrite E']|].
      exists r2. split; [done|]. cbn. unfold set_connectionFailure, set_firstConnection, set_life. cbn. by rewrite <- Ef. }
    rewrite (bind_ok _ _ _ _ _ E3). destruct failure as [e|].
    2: { unfold bind at 1, on_fo, propagateFailureToExceptionListener. rewrite bind_get, Ef3. cbn. done. }
    set (e' := if is_io e then e else IOException).
    set (r4 := set_fo ((notify (AnException e') (fo r3)).2) r3). rewrite (bind_ok _ _ r3 tt r4).
    2: { subst r4. unfold on_fo, propagateFailureToExceptionListener. by rewrite bind_get, Ef3. }
    unfold on_limits. rewrite bind_assoc, bind_get. unfold bind at 1, ret at 1.
    match goal with |- context [if ?b then on_fo (on_life (set_connectionFailure None)) else ret tt] => destruct b eqn:Et end.
    + right. etrans; [|reflexivity]. pose proof (moves_turn (GivesUpStart e') (fo r) I) as H. cbn [take] in H. rewrite bind_get, Hc in H by (by apply andb_true_iff in Et as [[[? _]%andb_true_iff _]%andb_true_iff _]). cbn in H |- *. rewrite Ef3.
      unfold set_life, set_connectionFailure, set_firstConnection in *. cbn in H |- *. by rewrite Hf in H.
    + left. cbn. by rewrite Ef3.
  - destruct (closed (life (fo r))); [by right|]. right. set (r1 := set_connectFailures _ r).
    pose proof (stepping_doDelay nap Hn r1) as H. exact H.
Qed.

(** ** The iteration *)

Lemma rebalance_moves sent : stepping (rebalance sent).
Proof.
  unfold rebalance. apply stepping_bind; [apply stepping_get|]. intros r. destruct (doRebalance r); [|apply stepping_ret].
  destruct (connectedTransport (fo r)) as [l|].
  - destruct (URI_equals _ _) as [[]|e| |]; eauto using stepping_bind, stepping_ret, stepping_throw, stepping_undefined, stepping_hang, stepping_disconnect, stepping_set_brokers_only.
  - eauto using stepping_bind, stepping_ret, stepping_set_brokers_only.
Qed.

(** The only undefined behaviour is the failure that is not there. *)
Lemma draw_ok sent a r : pool_isEmpty (connectList sent r) = false -> exists uri r', draw sent a r = (Ok uri, r').
Proof.
  intros Hp. unfold draw. rewrite bind_get. assert (forall p, pool_isEmpty p = false -> exists uri p', getURI (drawn a mod zlen (uriPool p)) p = (Ok uri, p')) as Hget.
  { intros p Hne. unfold getURI. rewrite bind_get. unfold pool_isEmpty in Hne. destruct (uriPool p) as [|x l] eqn:E; [done|].
    set (i := if randomize p then _ else _). assert (i < length (x :: l))%nat as Hi.
    { subst i. destruct (randomize p); [|cbn; lia]. pose proof (Z.mod_pos_bound (drawn a) (zlen (x :: l))). unfold zlen in *. cbn [length] in *. lia. }
    destruct (List.nth_error (x :: l) i) as [u|] eqn:En; [|apply List.nth_error_None in En; lia]. cbn. by eexists _, _. }
  unfold on_connectList, connectList in *. destruct sent; unfold on_fo, in_updated, in_uris;
    [destruct (Hget (updated (fo r)) Hp) as (uri & p' & ->)|destruct (Hget (uris (fo r)) Hp) as (uri & p' & ->)]; by eexists _, _.
Qed.

Lemma on_connectList_fo {A} sent (m : M URIPool A) r : exists p q, fo (on_connectList sent m r).2 = set_pools p q (fo r) /\ brokerStates (on_connectList sent m r).2 = brokerStates r /\
  delays (on_connectList sent m r).2 = delays r.
Proof. unfold on_connectList, on_fo, in_updated, in_uris. destruct sent; (destruct (m _) as [o p]; eexists _, _; done). Qed.

Lemma connect_safe n s u l : sim n s u -> connectedTransport s = None -> wire l = [] -> match connect l s with (UB, _) | (Hang, _) => False | _ => True end.
Proof. intros Hs Hc Hw. pose proof (sim_connect n s u l Hs Hc Hw) as H. unfold runs in H. by destruct (connect l s) as [[]]. Qed.

Lemma addURIs_ok us p : exists b p', addURIs us p = (Ok b, p').
Proof.
  revert p. induction us as [|x us IH]; intros p; [by eexists _, _|]. cbn [addURIs]. unfold addURI at 1.
  rewrite bind_assoc, bind_modify, bind_assoc, bind_get. destruct (pool_contains x _).
  - unfold bind at 1, ret at 1. destruct (IH (set_priority x p)) as (b & p' & E). rewrite (bind_ok _ _ _ _ _ E). by eexists _, _.
  - rewrite bind_assoc, bind_modify. unfold bind at 1, ret at 1. destruct (IH (set_uriPool (uriPool (set_priority x p) ++ [x]) (set_priority x p))) as (b & p' & E). rewrite (bind_ok _ _ _ _ _ E). by eexists _, _.
Qed.

Lemma on_connectList_ok {A} sent (m : M URIPool A) r : (forall p, exists a p', m p = (Ok a, p')) -> exists a r', on_connectList sent m r = (Ok a, r').
Proof. intros Hm. unfold on_connectList, on_fo, in_updated, in_uris. destruct sent; [destruct (Hm (updated (fo r))) as (a & p & ->)|destruct (Hm (uris (fo r))) as (a & p & ->)]; by eexists _, _. Qed.

(** A transport that is connected: the state after, and the transport it is. *)
Definition connected_state (sent : bool) (uri : URI) (now : Z) (s : Failover) (r : Reconnect) : Reconnect :=
  (markBrokerConnected uri now (resetAllUriFailureCounts (set_connectFailures 0 (set_reconnectDelay (initialReconnectDelay (delays r)) (set_fo s r)))).2).2.

Lemma establish_eq sent uri now skipped l r : exists p q,
  establish sent uri now skipped l r =
  match connect (at_uri uri l) (fo r) with
  | (Ok _, s) => (Ok tt, set_fo (set_pools p q s) (connected_state sent uri now s r))
  | (Throw e, s) => (Throw e, set_fo s r)
  | (UB, s) => (UB, set_fo s r)
  | (Hang, s) => (Hang, set_fo s r)
  end.
Proof.
  unfold establish. unfold bind at 1, on_fo at 1. destruct (connect (at_uri uri l) (fo r)) as [[[]|e| |] s]; try (exists (uris s), (updated s); reflexivity).
  set (r1 := connected_state sent uri now s r). change (exists p q, (on_connectList sent (addURIs skipped);;; ret tt) r1 = (Ok tt, set_fo (set_pools p q s) r1)).
  unfold on_connectList, on_fo, in_updated, in_uris. destruct sent; unfold bind at 1.
  - destruct (addURIs_ok skipped (updated (fo r1))) as (b & p' & ->). by exists (uris (fo r1)), p'.
  - destruct (addURIs_ok skipped (uris (fo r1))) as (b & p' & ->). by exists p', (updated (fo r1)).
Qed.

(** One round of the loop: it ends, or goes on with one address less. *)
Inductive rounds_on (sent : bool) (a : Attempt) (uri : URI) (r : Reconnect) : option exn -> Reconnect -> Prop :=
  | round_skipped r1 : draw sent a r = (Ok uri, r1) -> firstConnection (life (fo r1)) = false ->
      isUriExhausted uri (calculateReconnectAttemptLimit (fo r1)) r1 = true -> rounds_on sent a uri r None r1
  | round_failed r1 r2 e : draw sent a r = (Ok uri, r1) ->
      (firstConnection (life (fo r1)) = true \/ isUriExhausted uri (calculateReconnectAttemptLimit (fo r1)) r1 = false) ->
      is_decaf e = true -> try_connect sent uri a [] (markBrokerConnecting uri (at_time a) r1).2 = (Throw e, r2) ->
      rounds_on sent a uri r (Some e) (markBrokerFailed uri e (calculateReconnectAttemptLimit (fo r2)) r2).2.

Lemma try_connect_throws sent uri a skipped skipped' r e r' : try_connect sent uri a skipped r = (Throw e, r') -> try_connect sent uri a skipped' r = (Throw e, r').
Proof.
  unfold try_connect. destruct (answer a uri) as [|l]; [done|]. destruct (establish_eq sent uri (at_time a) skipped l r) as (p & q & ->).
  destruct (establish_eq sent uri (at_time a) skipped' l r) as (p' & q' & ->). by destruct (connect _ _) as [[[]|e'| |] s].
Qed.

Lemma connect_loop_step n u fuel sent failures failure a attempts r : sim n (fo r) u -> new_links a ->
  pool_isEmpty (connectList sent r) = false -> connectedTransport (fo r) = None ->
  (exists uri o r', rounds_on sent a uri r o r' /\
    connect_loop (S fuel) sent failures failure (a :: attempts) r = connect_loop fuel sent (failures ++ [uri]) (match o with Some e => Some e | None => failure end) attempts r') \/
  (exists uri r1 r', draw sent a r = (Ok uri, r1) /\ try_connect sent uri a failures (markBrokerConnecting uri (at_time a) r1).2 = (Ok tt, r') /\
    connect_loop (S fuel) sent failures failure (a :: attempts) r = (Ok Established, r')) \/
  (exists uri r1 e r', draw sent a r = (Ok uri, r1) /\ is_decaf e = false /\ answer a uri = inl e /\ connect_loop (S fuel) sent failures failure (a :: attempts) r = (Throw e, r')).
Proof.
  intros Hs Ha Hp Hc. pose proof (si_open _ _ _ Hs) as (_ & Hcl & _). remember (connect_loop (S fuel) sent failures failure (a :: attempts) r) as X eqn:EX.
  cbn [connect_loop] in EX. rewrite bind_get, Hp, Hc, Hcl in EX. rewrite bool_decide_false in EX by (intros []; done). cbn [orb] in EX.
  destruct (draw_ok sent a r Hp) as (uri & r1 & Ed). rewrite (bind_ok _ _ _ _ _ Ed), bind_get in EX.
  assert (exists p q, fo r1 = set_pools p q (fo r)) as (p & q & Efo).
  { pose proof (on_connectList_fo sent (getURI (drawn a mod zlen (uriPool (connectList sent r)))) r) as (p & q & E & _). unfold draw in Ed. rewrite bind_get in Ed. rewrite Ed in E. by exists p, q. }
  destruct (negb (firstConnection (life (fo r1))) && _) eqn:Esk.
  { left. apply andb_true_iff in Esk as [Hf%negb_true_iff Hex]. exists uri, None, r1. split; [by eapply round_skipped|exact EX]. }
  set (r2 := (markBrokerConnecting uri (at_time a) r1).2). rewrite (bind_ok _ _ r1 tt r2) in EX by done. unfold bind at 1, try_catch in EX.
  assert ((try_connect sent uri a failures ;;; ret (None : option exn)) r2 =
    match try_connect sent uri a failures r2 with (Ok _, r3) => (Ok None, r3) | (Throw e, r3) => (Throw e, r3) | (UB, r3) => (UB, r3) | (Hang, r3) => (Hang, r3) end) as Ea
    by (unfold bind; by destruct (try_connect sent uri a failures r2) as [[]]).
  rewrite Ea in EX. clear Ea.
  assert (sim n (fo r2) u) as Hs2. { destruct Hs as [[] Ho Hf Hl]. change (fo r2) with (fo r1). rewrite Efo. by split. }
  assert (connectedTransport (fo r2) = None) as Hc2 by (change (fo r2) with (fo r1); by rewrite Efo).
  destruct (try_connect sent uri a failures r2) as [[[]|e| |] r3] eqn:Et; [| |exfalso; clear EX|exfalso; clear EX].
  - right. left. exists uri, r1, r3. split; [exact Ed|]. split; [exact Et|exact EX].
  - destruct (is_decaf e) eqn:Ede.
    + left. exists uri, (Some e). eexists. split; [eapply round_failed; [exact Ed| |exact Ede|by eapply try_connect_throws]|].
      * destruct (firstConnection (life (fo r1))); [by left|by right].
      * exact EX.
    + right. right. exists uri, r1, e, r3. split; [done|]. split; [done|]. split; [|done]. unfold try_connect in Et. destruct (answer a uri) as [e'|l] eqn:El; [by injection Et as -> ->|].
      destruct (establish_eq sent uri (at_time a) failures l r2) as (p' & q' & E). rewrite E in Et. pose proof (sim_connect _ _ _ (at_uri uri l) Hs2 Hc2 (Ha _ _ El)) as H. unfold runs in H.
      destruct (connect _ _) as [[[]|e'| |] s]; try done. injection Et as -> _. by destruct H as [-> _].
  - unfold try_connect in Et. destruct (answer a uri) as [e'|l] eqn:El; [done|]. destruct (establish_eq sent uri (at_time a) failures l r2) as (p' & q' & E). rewrite E in Et.
    pose proof (connect_safe _ _ _ (at_uri uri l) Hs2 Hc2 (Ha _ _ El)) as H. by destruct (connect _ _) as [[[]|e'| |] s].
  - unfold try_connect in Et. destruct (answer a uri) as [e'|l] eqn:El; [done|]. destruct (establish_eq sent uri (at_time a) failures l r2) as (p' & q' & E). rewrite E in Et.
    pose proof (connect_safe _ _ _ (at_uri uri l) Hs2 Hc2 (Ha _ _ El)) as H. by destruct (connect _ _) as [[[]|e'| |] s].
Qed.

Lemma draw_moves sent a r uri r1 : draw sent a r = (Ok uri, r1) -> moves (fo r) (fo r1) /\ connectedTransport (fo r1) = connectedTransport (fo r) /\
  life (fo r1) = life (fo r) /\ limits (fo r1) = limits (fo r) /\ notices (fo r1) = notices (fo r) /\ brokerStates r1 = brokerStates r /\ delays r1 = delays r.
Proof.
  unfold draw. rewrite bind_get. intros E. destruct (on_connectList_fo sent (getURI (drawn a mod zlen (uriPool (connectList sent r)))) r) as (p & q & Efo & Eb & Ed).
  rewrite E in Efo, Eb, Ed. cbn [snd] in *. rewrite Efo. split_and!; try done. apply moves_pools.
Qed.

Lemma rounds_on_moves sent a uri r o r' : new_links a -> connectedTransport (fo r) = None -> rounds_on sent a uri r o r' -> moves (fo r) (fo r').
Proof.
  intros Ha Hc [r1 Ed _ _|r1 r2 e Ed _ _ Et]; destruct (draw_moves _ _ _ _ _ Ed) as (Hm & Hc1 & _); [done|]. etrans; [exact Hm|]. rewrite Hc in Hc1.
  pose proof (try_connect_moves sent uri a [] (markBrokerConnecting uri (at_time a) r1).2 Hc1 Ha) as H. by rewrite Et in H.
Qed.

Lemma connect_loop_safe n u fuel sent failures failure attempts r : sim n (fo r) u -> Forall new_links attempts ->
  match connect_loop fuel sent failures failure attempts r with (UB, _) => False | (Throw e, _) => is_decaf e = false | _ => True end.
Proof.
  intros Hs Ha. revert fuel failures failure r u Hs. induction Ha as [|a attempts Ha _ IH]; intros fuel failures failure r u Hs.
  { destruct fuel; cbn [connect_loop]; rewrite bind_get; by destruct (pool_isEmpty _). }
  destruct fuel as [|fuel]; [cbn [connect_loop]; rewrite bind_get; by destruct (pool_isEmpty _)|].
  destruct (pool_isEmpty (connectList sent r)) eqn:Hp; [cbn [connect_loop]; by rewrite bind_get, Hp|].
  destruct (connectedTransport (fo r)) as [l|] eqn:Hc; [cbn [connect_loop]; rewrite bind_get, Hc, bool_decide_true by done; by rewrite orb_true_r|].
  destruct (connect_loop_step n u fuel sent failures failure a attempts r Hs Ha Hp Hc) as [(uri & o & r' & Hr & ->)|[(uri & r1 & r' & _ & _ & ->)|(uri & r1 & e & r' & _ & ? & _ & ->)]]; [|done|done].
  destruct (sim_moves n _ _ _ Hs (rounds_on_moves _ _ _ _ _ _ Ha Hc Hr)) as (u' & Hs' & _). by eapply IH.
Qed.

Lemma equals_escaped_ends fuel a b : (length a < fuel)%nat -> match equals_escaped fuel a b with Ok _ => True | Throw e => e = StdException | _ => False end.
Proof.
  revert a b. induction fuel as [|fuel IH]; intros a b Hl; [lia|]. cbn [equals_escaped]. destruct (find_percent a) as [i|]; [|done]. destruct (find_percent b) as [j|]; [|done].
  destruct (i =? j)%nat; [|done]. destruct (bool_decide _); [|done]. unfold compareIgnoreCase. rewrite compare_chars_natural.
  destruct (sign _) as [|p|p]; try done. destruct ((i + 3 <=? length a)%nat && _) eqn:El; [|done]. apply andb_true_iff in El as [?%Nat.leb_le _]. apply IH. rewrite length_skipn. lia.
Qed.
Lemma hex_ends a b : match equalsHexCaseInsensitive a b with Ok _ => True | Throw e => e = StdException | _ => False end.
Proof.
  unfold equalsHexCaseInsensitive. destruct (bool_decide _); [apply equals_escaped_ends; lia|]. unfold compare. by rewrite compare_chars_natural.
Qed.
Lemma ignoring_ends a b : match equals_ignoring_case a b with Ok _ => True | Throw e => e = StdException | _ => False end.
Proof. unfold equals_ignoring_case, compareIgnoreCase. by rewrite compare_chars_natural. Qed.
Lemma same_part_ends cmp a b next : (match cmp a b with Ok _ => True | Throw e => e = StdException | _ => False end) ->
  (match next with Ok _ => True | Throw e => e = StdException | _ => False end) -> match same_part cmp a b next with Ok _ => True | Throw e => e = StdException | _ => False end.
Proof. unfold same_part. intros H1 H2. repeat case_match; try done; by simplify_eq. Qed.

(** The comparison of two addresses always ends. *)
Lemma URI_equals_ends a b : match URI_equals a b with Ok _ => True | Throw e => e = StdException | _ => False end.
Proof.
  unfold URI_equals. apply same_part_ends; [apply hex_ends|]. apply same_part_ends; [apply ignoring_ends|]. destruct (_ && _); [apply hex_ends|]. destruct (_ || _); [done|].
  pose proof (hex_ends (uri_path a) (uri_path b)) as H. destruct (equalsHexCaseInsensitive (uri_path a) (uri_path b)) as [[]| | |]; try done.
  apply same_part_ends; [apply hex_ends|]. destruct (_ && _); [done|]. destruct (_ || _); [done|]. destruct (_ && _); [apply hex_ends|].
  apply same_part_ends; [apply ignoring_ends|]. destruct (_ =? _); [|done]. by apply same_part_ends; [apply hex_ends|].
Qed.

Lemma sim_moves_limits n s u s' : sim n s u -> moves s s' -> limits s' = limits s.
Proof.
  intros Hs (ts & Ht & ->). revert s u Hs. induction Ht as [|t ts Ht _ IH]; intros s u Hs; [done|]. destruct (sim_take n s u t Hs Ht) as (u1 & H1 & _ & E). rewrite <- E. by eapply IH.
Qed.

Lemma limit_cases s : calculateReconnectAttemptLimit s = startupMaxReconnectAttempts (limits s) \/ calculateReconnectAttemptLimit s = maxReconnectAttempts (limits s).
Proof. unfold calculateReconnectAttemptLimit. case_match; [by left|by right]. Qed.

(** What an iteration may leave of the transport. *)
Definition moved_or_gave_up (r : Reconnect) (x : outcome bool * Reconnect) : Prop :=
  match x with
  | (Ok _, r') => connectionFailure (life (fo r')) <> None \/ moves (fo r) (fo r')
  | (Throw _, r') => moves (fo r) (fo r')
  | (UB, _) => 0 <= maxReconnectAttempts (limits (fo r)) \/ 0 <= startupMaxReconnectAttempts (limits (fo r))
  | (Hang, _) => True
  end.

Lemma moved_after n u r r1 x : sim n (fo r) u -> moves (fo r) (fo r1) -> moved_or_gave_up r1 x -> moved_or_gave_up r x.
Proof.
  intros Hs Hm. pose proof (sim_moves_limits _ _ _ _ Hs Hm) as El. destruct x as [[b|e| |] r']; cbn; [intros [?|?]; [by left|right; by etrans]|intros ?; by etrans|by rewrite El|done].
Qed.

Lemma failed_moved n u failure nap r : sim n (fo r) u -> stays nap -> moved_or_gave_up r (iterate_failed failure nap r).
Proof.
  intros Hs Hn. destruct (si_open _ _ _ Hs) as (_ & _ & _ & Hf & _).
  pose proof (iterate_failed_moves failure nap r Hn Hf (fun H => proj2 (si_first _ _ _ Hs H))) as H. destruct (iterate_failed failure nap r) as [[b|e| |] r']; cbn; try done.
  destruct H as [_ H]. destruct (limit_cases (fo r)) as [E|E]; rewrite E in H; [by right|by left].
Qed.

Lemma search_moved n u sent attempts nap r : sim n (fo r) u -> stays nap -> Forall new_links attempts -> moved_or_gave_up r (search sent attempts nap r).
Proof.
  intros Hs Hn Ha. unfold search. rewrite bind_get. destruct (isClosedOrFailed _); [by right|]. destruct (isConnectionStateValid _); [by right|]. set (fuel := S (length _)).
  pose proof (connect_loop_moves fuel sent [] None attempts r Ha) as Hm. pose proof (connect_loop_safe n u fuel sent [] None attempts r Hs Ha) as Hsafe.
  unfold bind at 1. destruct (connect_loop fuel sent [] None attempts r) as [[[|failures failure]|e| |] r1]; [by right| |done..]. cbn [snd] in Hm.
  eapply moved_after; [exact Hs|exact Hm|]. destruct (sim_moves _ _ _ _ Hs Hm) as (u1 & Hs1 & _).
  destruct (on_connectList_ok sent (addURIs failures) r1 (addURIs_ok failures)) as (b & r2 & E2). rewrite (bind_ok _ _ _ _ _ E2).
  pose proof (stepping_connectList sent (addURIs failures) r1) as Hm2. rewrite E2 in Hm2. eapply moved_after; [exact Hs1|exact Hm2|].
  destruct (sim_moves _ _ _ _ Hs1 Hm2) as (u2 & Hs2 & _). by eapply failed_moved.
Qed.

Lemma rebalance_ends sent r : match rebalance sent r with (UB, _) | (Hang, _) => False | _ => True end.
Proof.
  unfold rebalance. rewrite bind_get. destruct (doRebalance r); [|done]. destruct (connectedTransport (fo r)) as [l|] eqn:Ec; [|done].
  pose proof (URI_equals_ends (priorityURI (connectList sent r)) (link_uri l)) as H. destruct (URI_equals _ _) as [[]| | |]; try done.
  unfold disconnect. rewrite bind_assoc, bind_get, Ec. unfold bind at 1, on_fo. rewrite bind_modify. unfold bind at 1, in_uris. cbn [uris set_connected].
  unfold addURI. rewrite bind_modify, bind_get. by destruct (pool_contains _ _).
Qed.

Lemma choose_moved n u nap attempts nap' r : sim n (fo r) u -> stays nap -> stays nap' -> Forall new_links attempts -> moved_or_gave_up r (choose nap attempts nap' r).
Proof.
  intros Hs Hn Hn' Ha. unfold choose. rewrite bind_get. cbv zeta. set (sent := getConnectList r). destruct (pool_isEmpty _); [by eapply failed_moved|].
  pose proof (rebalance_ends sent r) as Hreb. pose proof (rebalance_moves sent r) as Hm. unfold bind at 1. destruct (rebalance sent r) as [[go|e| |] r1]; [|done..]. cbn [snd] in Hm.
  eapply moved_after; [exact Hs|exact Hm|]. destruct (sim_moves _ _ _ _ Hs Hm) as (u1 & Hs1 & _). destruct go; [|by right]. cbn [negb].
  set (r2 := (resetReconnectDelay r1).2). rewrite (bind_ok _ _ r1 tt r2) by done. pose proof (stepping_resetDelay r1) as Hm2. fold r2 in Hm2.
  eapply moved_after; [exact Hs1|exact Hm2|]. destruct (sim_moves _ _ _ _ Hs1 Hm2) as (u2 & Hs2 & _). clearbody r2.
  set (r3 := (nap r2).2). rewrite (bind_ok _ _ r2 tt r3) by done. pose proof (Hn r2) as Hm3. fold r3 in Hm3.
  eapply moved_after; [exact Hs2|exact Hm3|]. destruct (sim_moves _ _ _ _ Hs2 Hm3) as (u3 & Hs3 & _). by eapply search_moved.
Qed.

Lemma iterate_moved n u now nap attempts nap' r : sim n (fo r) u -> stays nap -> stays nap' -> Forall new_links attempts -> moved_or_gave_up r (iterate now nap attempts nap' r).
Proof.
  intros Hs Hn Hn' Ha. unfold iterate. rewrite bind_get. destruct (_ || _); [by right|].
  set (r1 := (recoverExhaustedBrokers now r).2). rewrite (bind_ok _ _ r tt r1) by done. by apply (choose_moved n u nap attempts nap' r1).
Qed.

(** ** Histories of a transport that reconnects by itself *)

Lemma heard_trans s s' s'' u v w : told s u s' v -> told s' v s'' w -> heard s s'' u = heard s' s'' v.
Proof. intros H1 H2. by rewrite <- (told_heard _ _ _ _ H2), <- (told_heard _ _ _ _ (told_trans _ _ _ _ _ _ H1 H2)). Qed.

Lemma reaches_moves f lim tries sent s u s' : restores f -> maxReconnectAttempts lim <> 0 -> startupMaxReconnectAttempts lim <> 0 -> tries <= ROOM ->
  reaches f lim tries sent s u -> moves s s' -> reaches f lim tries sent s' (heard s s' u).
Proof.
  intros Hf H1 H2 Hroom Hr (ts & Ht & ->). revert s u Hr. induction Ht as [|t ts Ht Hts IH]; intros s u Hr.
  - cbn. unfold heard. by rewrite skipn_all.
  - pose proof (gd_sim _ _ _ _ (reaches_good _ _ _ _ _ _ Hf H1 H2 Hr Hroom)) as Hs. destruct (sim_take _ _ _ _ Hs Ht) as (u1 & Hs1 & Ht1 & _).
    pose proof (reach_turn _ _ _ _ _ _ _ Hr Ht) as Hr1. apply IH in Hr1. change (run_turns (t :: ts) s) with (run_turns ts (take t s).2).
    rewrite <- (told_heard _ _ _ _ Ht1) in Hr1. assert (moves (take t s).2 (run_turns ts (take t s).2)) as Hm by (by exists ts).
    destruct (sim_moves _ _ _ _ Hs1 Hm) as (w & _ & Ht2). by rewrite (heard_trans _ _ _ _ _ _ Ht1 Ht2).
Qed.

(** *** A transport that has lost its connection and has three addresses *)

Definition address (scheme : list Z) : URI := mkURI scheme false [] [] [] [] (-1) [] [] [] [].
Definition addresses : URIPool := mkURIPool [address [116; 99; 112]; address [115; 115; 108]; address [110; 105; 111]] empty_URI false.
Definition offline : list event := sample ++ [Takes (Addresses addresses addresses)].
Definition sample_delays : Delays := mkDelays 10 30000 2 true.
Definition over (s : Failover) : Reconnect := mkReconnect s [] 10 0 false sample_delays true.

(** Only the broker of the second scheme answers. *)
Definition only_ssl (t : Z) : Attempt := mkAttempt 0 t (fun x => if decide (uri_scheme x = [115; 115; 108]) then inr (fresh_link [115; 115; 108] []) else inl IOException).

Lemma only_ssl_new t : new_links (only_ssl t).
Proof. intros x l. cbn. by case_decide; intros [= <-]. Qed.

(** C17: the task that reconnects does nothing to a transport but what the transport is ready
    for from other threads: whatever brokers answer, whatever others do while it sleeps, the
    transport has given up after it, or is one whose broker will know what it should. *)
Theorem reconnection_transparent f lim tries sent r u now nap attempts nap' b r' : restores f -> maxReconnectAttempts lim <> 0 -> startupMaxReconnectAttempts lim <> 0 ->
  reaches f lim tries sent (fo r) u -> tries <= ROOM -> stays nap -> stays nap' -> Forall new_links attempts ->
  iterate now nap attempts nap' r = (Ok b, r') ->
  connectionFailure (life (fo r')) <> None \/ reaches f lim tries sent (fo r') (heard (fo r) (fo r') u).
Proof.
  intros Hf H1 H2 Hr Hroom Hn Hn' Ha E. pose proof (iterate_moved _ _ now nap attempts nap' r (gd_sim _ _ _ _ (reaches_good _ _ _ _ _ _ Hf H1 H2 Hr Hroom)) Hn Hn' Ha) as H.
  rewrite E in H. destruct H as [?|Hm]; [by left|]. right. by eapply reaches_moves.
Qed.

Lemma reconnection_transparent_witness : match sampled offline with
  | Some p => let r' := (iterate 5000 (ret tt) [only_ssl 5000; only_ssl 5001] (ret tt) (over (pl_transport p))).2 in
              is_Some (connectedTransport (fo r')) /\
              (connectionFailure (life (fo r')) <> None \/
               reaches sample_settings sample_limits (pl_tries p) (pl_sent p) (fo r') (heard (pl_transport p) (fo r') (pl_client p)))
  | None => False
  end.
Proof.
  assert (shows offline (fun p => (pl_tries p <=? ROOM) && match iterate 5000 (ret tt) [only_ssl 5000; only_ssl 5001] (ret tt) (over (pl_transport p)) with
    | (Ok false, r') => match connectedTransport (fo r') with Some _ => true | None => false end | _ => false end) = true) as H by (vm_compute; reflexivity).
  unfold shows in H. destruct (sampled offline) as [p|] eqn:E; [|done]. apply sampled_reaches in E. apply andb_true_iff in H as [Ht%Z.leb_le H].
  destruct (iterate _ _ _ _ _) as [[[|]| | |] r'] eqn:Ei; try done. cbv zeta. cbn [snd]. split; [by destruct (connectedTransport (fo r'))|].
  eapply (reconnection_transparent sample_settings sample_limits _ _ (over (pl_transport p))); [..|exact Ei]; try done.
  - intros r. exists []. by split.
  - intros r. exists []. by split.
  - repeat constructor; apply only_ssl_new.
Defined.
