(* ===== verification/ReconnectOutcome.v ===== *)
(** * What comes of reconnecting: a broker that is there is found, one that is not is given up
    after as many attempts as the limit says, and the delays grow up to their maximum. *)
From stdpp Require Import gmap sorting.
From S2P Require Import Prelude StlMap StringUtils OrderedMap TrackedCommands URIPool HashMap StateTracker FailoverSpec FailoverSim FailoverTrack Failover FailoverReplay FailoverBroker FailoverRestore FailoverConnect FailoverRun FailoverComplete FailoverTheorems Reconnect ReconnectTheorems.

(** ** The states of the brokers *)

Record brokers_ok (r : Reconnect) : Prop := {
  bo_wf : map_wf (brokerStates r);
  bo_connected : Forall (fun p => status p.2 = CONNECTED -> failureCount p.2 = 0) (brokerStates r);
}.

Definition text (uri : URI) : list Z := uri_toString uri.

Lemma getBrokerState_on uri f r x :
  getBrokerState x (on_broker uri f r).2 = if decide (text x = text uri) then f (getBrokerState uri r) else getBrokerState x r.
Proof.
  unfold getBrokerState at 1, on_broker, modify. cbn [snd brokerStates set_brokers]. rewrite map_find_abs, abs_map_set. fold (text x) (text uri).
  case_decide as E; [by rewrite E, lookup_insert_eq|]. rewrite lookup_insert_ne by done. unfold getBrokerState. by rewrite map_find_abs.
Qed.

Lemma on_broker_ok uri f r : brokers_ok r -> (status (f (getBrokerState uri r)) = CONNECTED -> failureCount (f (getBrokerState uri r)) = 0) -> brokers_ok (on_broker uri f r).2.
Proof. intros [Hw Hc] Hf. split; cbn; [by apply map_set_wf|]. by apply Forall_map_set. Qed.

Lemma map_find_map {V} (f : V -> V) k (m : std_map V) : map_find k (map (fun p => (p.1, f p.2)) m) = option_map f (map_find k m).
Proof. induction m as [|[k' v] m IH]; [done|]. cbn. by case_decide. Qed.

Lemma map_wf_map {V} (f : V -> V) (m : std_map V) : map_wf m -> map_wf (map (fun p => (p.1, f p.2)) m).
Proof. induction 1 as [|p m Hm IH Hp]; cbn; constructor; [done|]. by apply List.Forall_map. Qed.

Lemma on_brokers_ok f r : brokers_ok r -> (forall b, (status b = CONNECTED -> failureCount b = 0) -> status (f b) = CONNECTED -> failureCount (f b) = 0) -> brokers_ok (on_brokers f r).2.
Proof. intros [Hw Hc] Hf. split; cbn; [by apply map_wf_map|]. apply List.Forall_map. eapply Forall_impl; [|exact Hc]. intros p. apply Hf. Qed.

Lemma getBrokerState_brokers f r x : f BrokerState_new = BrokerState_new -> getBrokerState x (on_brokers f r).2 = f (getBrokerState x r).
Proof. intros Hf. unfold getBrokerState, on_brokers, modify. cbn. rewrite map_find_map. by destruct (map_find _ _). Qed.

Lemma connected_none r x : brokers_ok r -> status (getBrokerState x r) = CONNECTED -> failureCount (getBrokerState x r) = 0.
Proof.
  intros [Hw Hc]. unfold getBrokerState. destruct (map_find _ _) as [b|] eqn:E; [|done]. rewrite map_find_abs in E. apply elem_of_list_to_map_2, list_elem_of_In in E.
  rewrite List.Forall_forall in Hc. by apply (Hc _ E).
Qed.

(** After a success no failure is counted. *)
Lemma reset_counts r x : brokers_ok r -> getUriFailureCount x (resetAllUriFailureCounts r).2 = 0.
Proof.
  intros Hb. unfold getUriFailureCount, resetAllUriFailureCounts. rewrite getBrokerState_brokers by done. case_bool_decide; [by apply connected_none|done].
Qed.

(** ** One round *)

Lemma draw_pool sent a r uri r1 : draw sent a r = (Ok uri, r1) -> exists l1 l2, uriPool (connectList sent r) = l1 ++ uri :: l2 /\ uriPool (connectList sent r1) = l1 ++ l2.
Proof.
  assert (forall i p x p', getURI i p = (Ok x, p') -> exists l1 l2, uriPool p = l1 ++ x :: l2 /\ uriPool p' = l1 ++ l2) as Hget.
  { intros i p x p'. unfold getURI. rewrite bind_get. destruct (uriPool p) as [|y l] eqn:El; [done|]. set (k := if randomize p then _ else _).
    destruct (List.nth_error (y :: l) k) as [v|] eqn:En; [|done]. cbn. intros [= -> <-]. cbn [uriPool]. exists (firstn k (y :: l)), (skipn (S k) (y :: l)). split; [|by destruct k].
    clear El. clearbody k. revert k En. induction (y :: l) as [|z l' IH]; intros [|k] En; cbn in *; try done; [by injection En as ->|]. f_equal. by apply IH. }
  unfold draw. rewrite bind_get. unfold on_connectList, connectList, on_fo, in_updated, in_uris. destruct sent;
    (destruct (getURI _ _) as [[x|e| |] p] eqn:E; [|done..]; intros [= -> <-]; by apply Hget in E).
Qed.

Lemma try_connect_failed sent uri a skipped r e r' : try_connect sent uri a skipped r = (Throw e, r') ->
  (answer a uri = inl e /\ r' = r) \/ exists l s, answer a uri = inr l /\ connect (at_uri uri l) (fo r) = (Throw e, s) /\ r' = set_fo s r.
Proof.
  unfold try_connect. destruct (answer a uri) as [e'|l]; [intros [= -> ->]; by left|]. destruct (establish_eq sent uri (at_time a) skipped l r) as (p & q & ->).
  destruct (connect _ _) as [[[]|e'| |] s] eqn:Ec; try done. intros [= -> <-]. right. by exists l, s.
Qed.

(** What a round that goes on leaves as it was. *)
Record same_search (uri : URI) (sent : bool) (r r' : Reconnect) : Prop := {
  sm_connected : connectedTransport (fo r') = None;
  sm_first : firstConnection (life (fo r')) = firstConnection (life (fo r));
  sm_limits : limits (fo r') = limits (fo r);
  sm_delays : delays r' = delays r;
  sm_pool : exists l1 l2, uriPool (connectList sent r) = l1 ++ uri :: l2 /\ uriPool (connectList sent r') = l1 ++ l2;
  sm_others : forall x, text x <> text uri -> getBrokerState x r' = getBrokerState x r;
}.

Lemma round_same n u sent a uri r o r' : sim n (fo r) u -> connectedTransport (fo r) = None -> new_links a -> rounds_on sent a uri r o r' ->
  same_search uri sent r r' /\ (brokers_ok r -> brokers_ok r').
Proof.
  intros Hs Hc Ha [r1 Ed _ _|r1 r2 e Ed _ _ Et]; destruct (draw_moves _ _ _ _ _ Ed) as (Hm & Hc1 & El & Elim & _ & Eb & Edl); rewrite Hc in Hc1; pose proof (draw_pool _ _ _ _ _ Ed) as Hp.
  { split; [split; try done; [by rewrite El|intros x _; unfold getBrokerState; by rewrite Eb]|]. intros []. by split; rewrite Eb. }
  set (r1c := (markBrokerConnecting uri (at_time a) r1).2) in *. destruct (sim_moves _ _ _ _ Hs Hm) as (u1 & Hs1 & _).
  assert (steady (fo r1c) (fo r2) /\ brokerStates r2 = brokerStates r1c /\ delays r2 = delays r1c) as (Hst & Eb2 & Ed2).
  { apply try_connect_failed in Et as [[_ ->]|(l & s & Ea & Ec & ->)]; [by split; [reflexivity|]|]. split; [|done].
    pose proof (sim_connect _ _ _ (at_uri uri l) Hs1 Hc1 (Ha _ _ Ea)) as H. unfold runs in H. change (fo r1c) with (fo r1) in Ec. rewrite Ec in H. by destruct H as (_ & _ & u' & _ & _ & _ & _ & H). }
  destruct Hst as (Hst1 & Hst2 & _ & _ & _ & Hst3 & _ & Hst4 & Hst5). change (fo r1c) with (fo r1) in *. split.
  - split.
    + cbn. by rewrite Hst1.
    + cbn. by rewrite Hst3, El.
    + cbn. by rewrite Hst2.
    + cbn. by rewrite Ed2.
    + destruct Hp as (l1 & l2 & H1 & H2). exists l1, l2. split; [done|]. rewrite <- H2. unfold connectList. cbn. by rewrite Hst4, Hst5.
    + intros x Hx. unfold markBrokerFailed. rewrite getBrokerState_on, decide_False by done. transitivity (getBrokerState x r1c); [unfold getBrokerState; by rewrite Eb2|].
      unfold r1c, markBrokerConnecting. rewrite getBrokerState_on, decide_False by done. unfold getBrokerState. by rewrite Eb.
  - intros Hb. apply on_broker_ok; [|cbn; by case_match]. assert (brokers_ok r1c) as [? ?]; [|by split; rewrite Eb2]. apply on_broker_ok; [|done]. destruct Hb. by split; rewrite Eb.
Qed.

Lemma limit_same s s' : firstConnection (life s') = firstConnection (life s) -> limits s' = limits s -> calculateReconnectAttemptLimit s' = calculateReconnectAttemptLimit s.
Proof. unfold calculateReconnectAttemptLimit. by intros -> ->. Qed.

Lemma exhausted_same uri limit r r' : getBrokerState uri r' = getBrokerState uri r -> isUriExhausted uri limit r' = isUriExhausted uri limit r.
Proof. unfold isUriExhausted. by intros ->. Qed.

(** ** A broker that is there is found *)

(** An address that may be tried. *)
Definition may_try (uri : URI) (r : Reconnect) : Prop :=
  firstConnection (life (fo r)) = true \/ isUriExhausted uri (calculateReconnectAttemptLimit (fo r)) r = false.

Definition answers (uri : URI) (a : Attempt) : Prop :=
  new_links a /\ (forall x e, answer a x = inl e -> is_decaf e = true) /\ exists l, answer a uri = inr l /\ failures l = [].

(** What a connection leaves of the states and the delay. *)
Definition settled (r r' : Reconnect) : Prop :=
  is_Some (connectedTransport (fo r')) /\ reconnectDelay r' = initialReconnectDelay (delays r) /\ connectFailures r' = 0 /\ (brokers_ok r -> forall x, getUriFailureCount x r' = 0).

Lemma settled_after r r1 r' : delays r1 = delays r -> (brokers_ok r -> brokers_ok r1) -> settled r1 r' -> settled r r'.
Proof. intros Ed Hb (H1 & H2 & H3 & H4). rewrite Ed in H2. split_and!; try done. intros H. by apply H4, Hb. Qed.

Lemma settled_state sent uri now s r p q l : connectedTransport s = Some l -> settled r (set_fo (set_pools p q s) (connected_state sent uri now s r)).
Proof.
  intros Hc. split_and!; [by exists l|done|done|]. intros Hb x. unfold getUriFailureCount.
  set (r1 := set_connectFailures 0 (set_reconnectDelay (initialReconnectDelay (delays r)) (set_fo s r))).
  change (getBrokerState x (set_fo (set_pools p q s) (connected_state sent uri now s r))) with (getBrokerState x (markBrokerConnected uri now (resetAllUriFailureCounts r1).2).2).
  unfold markBrokerConnected. rewrite getBrokerState_on. case_decide; [done|]. apply (reset_counts r1). by destruct Hb.
Qed.

Lemma established sent uri a skipped r n u l : sim n (fo r) u -> connectedTransport (fo r) = None -> answer a uri = inr l -> wire l = [] -> failures l = [] ->
  exists r', try_connect sent uri a skipped r = (Ok tt, r') /\ settled r r'.
Proof.
  intros Hs Hc Ha Hw Hf. unfold try_connect. rewrite Ha. destruct (establish_eq sent uri (at_time a) skipped l r) as (p & q & ->).
  pose proof (sim_connect n (fo r) u (at_uri uri l) Hs Hc Hw) as H. unfold runs in H. destruct (connect _ _) as [[[]|e| |] s]; [|by destruct H as (_ & ? & _)|done..].
  destruct H as (u' & _ & _ & _ & _ & _ & _ & l' & Hc' & _). eexists. split; [reflexivity|]. by eapply settled_state.
Qed.

Lemma loop_connects n uri sent attempts : Forall (answers uri) attempts -> forall fuel failures failure r u, sim n (fo r) u -> connectedTransport (fo r) = None ->
  base.NoDup (map text (uriPool (connectList sent r))) -> uri ∈ uriPool (connectList sent r) -> may_try uri r ->
  (length (uriPool (connectList sent r)) <= length attempts)%nat -> (length (uriPool (connectList sent r)) <= fuel)%nat ->
  exists r', connect_loop fuel sent failures failure attempts r = (Ok Established, r') /\ settled r r'.
Proof.
  induction 1 as [|a attempts Ha _ IH]; intros fuel failures failure r u Hs Hc Hnd Hin Htry Hl Hfuel.
  { destruct (uriPool _); [by apply not_elem_of_nil in Hin|cbn in Hl; lia]. }
  destruct fuel as [|fuel]; [destruct (uriPool _); [by apply not_elem_of_nil in Hin|cbn in Hfuel; lia]|]. pose proof Ha as (Hnew & Hdecaf & l & Hans & Hfl).
  assert (pool_isEmpty (connectList sent r) = false) as Hp by (unfold pool_isEmpty; destruct (uriPool _); [by apply not_elem_of_nil in Hin|done]).
  destruct (connect_loop_step n u fuel sent failures failure a attempts r Hs Hnew Hp Hc) as [(uri0 & o & r1 & Hr & ->)|[(uri0 & r1 & r' & Ed & Et & ->)|(uri0 & r1 & e & r' & _ & He & Ea & _)]].
  - destruct (round_same _ _ _ _ _ _ _ _ Hs Hc Hnew Hr) as [[Hc1 Hf1 Hl1 Hd1 (l1 & l2 & E1 & E2) Ho1] Hb1].
    destruct (sim_moves _ _ _ _ Hs (rounds_on_moves _ _ _ _ _ _ Hnew Hc Hr)) as (u1 & Hs1 & _). rewrite E1 in *. rewrite map_app in Hnd. cbn [map] in Hnd.
    assert (uri <> uri0) as Hne.
    { intros ->. destruct Hr as [r1 Ed Hff Hex|r1 r2 e Ed Hok He Et]; destruct (draw_moves _ _ _ _ _ Ed) as (Hm & Hcc & El & Elim & _ & Eb & _); rewrite Hc in Hcc.
      - destruct Htry as [Htry|Htry]; [congruence|]. rewrite (exhausted_same _ _ r r1) in Hex by (unfold getBrokerState; by rewrite Eb).
        rewrite (limit_same (fo r) (fo r1)) in Hex by (done || by rewrite El). congruence.
      - destruct (sim_moves _ _ _ _ Hs Hm) as (u2 & Hs2 & _). destruct (established sent uri0 a [] (markBrokerConnecting uri0 (at_time a) r1).2 n u2 l Hs2 Hcc Hans (Hnew _ _ Hans) Hfl) as (r' & E & _). congruence. }
    assert (uri ∈ l1 ++ l2) as Hin' by (apply elem_of_app in Hin as [?|[?|?]%elem_of_cons]; [by apply elem_of_app; left|done|by apply elem_of_app; right]).
    assert (text uri <> text uri0) as Htext.
    { intros E. apply list.NoDup_app in Hnd as (_ & Hd & [Hn _]%list.NoDup_cons). apply elem_of_app in Hin' as [Hi|Hi].
      - apply (Hd (text uri)); [by apply list_elem_of_fmap_2|]. rewrite E. left.
      - apply Hn. rewrite <- E. by apply list_elem_of_fmap_2. }
    destruct (IH fuel (failures ++ [uri0]) (match o with Some e => Some e | None => failure end) r1 u1 Hs1 Hc1) as (r' & E & Hset); try (rewrite E2; done || (rewrite length_app in *; cbn in *; rewrite ?length_app in *; lia)).
    + rewrite E2, map_app. apply list.NoDup_app in Hnd as (H1 & Hd & [Hn H2]%list.NoDup_cons). apply list.NoDup_app. split_and!; [done| |done]. intros x Hx Hx2. apply (Hd x Hx). by right.
    + unfold may_try in *. rewrite Hf1, (limit_same (fo r) (fo r1)) by done. by rewrite (exhausted_same uri _ r r1) by (by apply Ho1).
    + exists r'. split; [exact E|]. by eapply settled_after.
  - exists r'. split; [done|]. destruct (draw_moves _ _ _ _ _ Ed) as (Hm & Hcc & _ & _ & _ & Eb & Edl). rewrite Hc in Hcc. destruct (sim_moves _ _ _ _ Hs Hm) as (u2 & Hs2 & _).
    set (r1c := (markBrokerConnecting uri0 (at_time a) r1).2) in *. assert (brokers_ok r -> brokers_ok r1c) as Hb by (intros [? ?]; apply on_broker_ok; [by split; rewrite Eb|done]).
    unfold try_connect in Et. destruct (answer a uri0) as [e|l0] eqn:Ea; [done|].
    assert (settled r1c r') as Hset; [|by eapply (settled_after r r1c)].
    destruct (establish_eq sent uri0 (at_time a) failures l0 r1c) as (p & q & E). rewrite E in Et.
    pose proof (sim_connect n (fo r1c) u2 (at_uri uri0 l0) Hs2 Hcc (Hnew _ _ Ea)) as H. unfold runs in H. destruct (connect _ _) as [[[]|e| |] s]; try done. injection Et as <-.
    destruct H as (u' & _ & _ & _ & _ & _ & _ & l' & Hc' & _). by eapply settled_state.
  - by rewrite (Hdecaf _ _ Ea) in He.
Qed.

Lemma recover_may_try now uri r : may_try uri r -> may_try uri (recoverExhaustedBrokers now r).2.
Proof.
  intros [?|H]; [by left|right]. unfold isUriExhausted in *. unfold recoverExhaustedBrokers. cbn [fo]. rewrite getBrokerState_brokers by (by rewrite andb_false_l || done).
  change (fo (on_brokers _ r).2) with (fo r). destruct (_ <? 0); [done|]. apply orb_false_iff in H as [Hs Hn]. rewrite Hs. cbn [andb]. by rewrite Hs, Hn.
Qed.

Lemma recover_brokers_ok now r : brokers_ok r -> brokers_ok (recoverExhaustedBrokers now r).2.
Proof. intros Hb. apply on_brokers_ok; [done|]. intros b Hi. by case_match. Qed.

Lemma others_nothing r : others (ret tt) r = (Ok tt, r).
Proof. done. Qed.

Lemma rebalance_nothing sent r : connectedTransport (fo r) = None -> exists r', rebalance sent r = (Ok true, r') /\ r' = set_doRebalance false r \/ rebalance sent r = (Ok true, r).
Proof. intros Hc. unfold rebalance. rewrite bind_get, Hc. destruct (doRebalance r); [exists (set_doRebalance false r); by left|exists r; by right]. Qed.

(** A change that the search does not see. *)
Definition unseen (r r' : Reconnect) : Prop :=
  fo r' = fo r /\ brokerStates r' = brokerStates r /\ delays r' = delays r /\ updateURIsSupported r' = updateURIsSupported r /\ connectFailures r' = connectFailures r.

Lemma rebalance_unseen sent r : connectedTransport (fo r) = None -> exists r', rebalance sent r = (Ok true, r') /\ unseen r r' /\ doRebalance r' = false /\ reconnectDelay r' = reconnectDelay r.
Proof. intros Hc. unfold rebalance. rewrite bind_get, Hc. destruct (doRebalance r) eqn:E; [exists (set_doRebalance false r)|exists r]; by split_and!. Qed.

(** The delay that the search starts with. *)
Definition reset_delay (r : Reconnect) : Z :=
  if negb (useExponentialBackOff (delays r)) || (reconnectDelay r =? DEFAULT_INITIAL_RECONNECT_DELAY) then initialReconnectDelay (delays r) else reconnectDelay r.

Lemma resetDelay_unseen r : unseen r (resetReconnectDelay r).2 /\ reconnectDelay (resetReconnectDelay r).2 = reset_delay r /\ resetReconnectDelay r = (Ok tt, (resetReconnectDelay r).2).
Proof. unfold resetReconnectDelay, modify, reset_delay. cbn. by case_match. Qed.

(** With no connection and somewhere to look, an iteration is a search. *)
Lemma iterate_searches now attempts nap' r : closed (life (fo r)) = false -> connectionFailure (life (fo r)) = None -> connectedTransport (fo r) = None ->
  pool_isEmpty (connectList (getConnectList r) r) = false ->
  exists r', iterate now (ret tt) attempts nap' r = search (getConnectList r) attempts nap' r' /\ unseen (recoverExhaustedBrokers now r).2 r' /\ reconnectDelay r' = reset_delay r.
Proof.
  intros Hcl Hf Hc Hp. unfold iterate. rewrite bind_get. unfold isConnectionStateValid, isClosedOrFailed. rewrite Hc, Hcl, Hf. cbn [orb].
  set (r1 := (recoverExhaustedBrokers now r).2). rewrite (bind_ok _ _ r tt r1) by done. unfold choose. rewrite bind_get. cbv zeta.
  change (getConnectList r1) with (getConnectList r). change (connectList (getConnectList r) r1) with (connectList (getConnectList r) r). rewrite Hp.
  destruct (rebalance_unseen (getConnectList r) r1 Hc) as (r2 & E2 & (H1 & H2 & H3 & H4 & H0) & _ & Hd2). rewrite (bind_ok _ _ _ _ _ E2). cbn [negb].
  destruct (resetDelay_unseen r2) as [(H5 & H6 & H7 & H8 & H9) [Hd E3]]. rewrite (bind_ok _ _ _ _ _ E3). rewrite (bind_ok _ _ _ _ _ (others_nothing _)).
  eexists. split; [reflexivity|]. split; [split_and!; congruence|]. rewrite Hd. unfold reset_delay. by rewrite H3, Hd2.
Qed.

(** With nothing there, the search is a loop. *)
Lemma search_loops sent attempts nap r : closed (life (fo r)) = false -> connectionFailure (life (fo r)) = None -> connectedTransport (fo r) = None ->
  search sent attempts nap r = (e <- connect_loop (S (length (uriPool (connectList sent r)))) sent [] None attempts ;;
    match e with Established => ret false | Nowhere failures failure => on_connectList sent (addURIs failures) ;;; iterate_failed failure nap end) r.
Proof. intros Hcl Hf Hc. unfold search at 1. rewrite bind_get. unfold isClosedOrFailed, isConnectionStateValid. by rewrite Hcl, Hf, Hc. Qed.

(** C18: a broker that is there is found: when one of the addresses that may be tried answers
    with a connection that holds, the iteration ends with a connection, whatever the others
    answer, the delay is the first one again and no failure is counted. *)
Theorem reconnects f lim tries sent r u uri now attempts nap' : restores f -> maxReconnectAttempts lim <> 0 -> startupMaxReconnectAttempts lim <> 0 ->
  reaches f lim tries sent (fo r) u -> tries <= ROOM -> connectedTransport (fo r) = None -> brokers_ok r ->
  base.NoDup (map text (uriPool (connectList (getConnectList r) r))) -> uri ∈ uriPool (connectList (getConnectList r) r) -> may_try uri r ->
  Forall (answers uri) attempts -> (length (uriPool (connectList (getConnectList r) r)) <= length attempts)%nat ->
  exists r' l, iterate now (ret tt) attempts nap' r = (Ok false, r') /\ connectedTransport (fo r') = Some l /\
    reconnectDelay r' = initialReconnectDelay (delays r) /\ connectFailures r' = 0 /\ forall x, getUriFailureCount x r' = 0.
Proof.
  intros Hf H1 H2 Hr Hroom Hc Hb Hnd Hin Htry Ha Hl. pose proof (gd_sim _ _ _ _ (reaches_good _ _ _ _ _ _ Hf H1 H2 Hr Hroom)) as Hs.
  assert (pool_isEmpty (connectList (getConnectList r) r) = false) as Hp by (unfold pool_isEmpty; destruct (uriPool _); [by apply not_elem_of_nil in Hin|done]).
  pose proof (si_open _ _ _ Hs) as (_ & Hcl & _ & Hcf & _). destruct (iterate_searches now attempts nap' r Hcl Hcf Hc Hp) as (r1 & -> & Eu & _). set (s := getConnectList r) in *. pose proof (recover_may_try now uri r Htry) as Htry1. pose proof (recover_brokers_ok now r Hb) as Hb1.
  set (r0 := (recoverExhaustedBrokers now r).2) in *. destruct Eu as (Efo & Eb & Ed & Eup & _).
  assert (uriPool (connectList s r1) = uriPool (connectList s r)) as Epool by (unfold connectList; by rewrite Efo).
  assert (may_try uri r1) as Htry' by (unfold may_try in *; rewrite Efo; by rewrite (exhausted_same uri _ r0 r1) by (unfold getBrokerState; by rewrite Eb)).
  rewrite search_loops by (by rewrite Efo).
  destruct (loop_connects (ROOM - tries) uri s attempts Ha (S (length (uriPool (connectList s r1)))) [] None r1 u) as (r' & E & (l & Hc') & Hd & Hcf' & Hz); try (by rewrite ?Epool, ?Efo); [lia|].
  rewrite (bind_ok _ _ _ _ _ E). exists r', l. split_and!; try done; [by rewrite Hd, Ed|]. apply Hz. destruct Hb1. by split; rewrite Eb.
Qed.

Lemma reconnects_witness : match sampled offline with
  | Some p => exists r' l, iterate 5000 (ret tt) [only_ssl 5000; only_ssl 5001; only_ssl 5002] (ret tt) (over (pl_transport p)) = (Ok false, r') /\
      connectedTransport (fo r') = Some l /\ reconnectDelay r' = 10 /\ connectFailures r' = 0 /\ forall x, getUriFailureCount x r' = 0
  | None => False
  end.
Proof.
  assert (shows offline (fun p => (pl_tries p <=? ROOM) && match connectedTransport (pl_transport p) with None => true | Some _ => false end &&
    bool_decide (uris (pl_transport p) = addresses) && bool_decide (updated (pl_transport p) = addresses) && (calculateReconnectAttemptLimit (pl_transport p) =? 20)) = true) as H by (vm_compute; reflexivity).
  unfold shows in H. destruct (sampled offline) as [p|] eqn:E; [|done]. apply sampled_reaches in E.
  apply andb_true_iff in H as [[[[Ht%Z.leb_le Hc]%andb_true_iff H1%bool_decide_eq_true]%andb_true_iff H2%bool_decide_eq_true]%andb_true_iff Hlim%Z.eqb_eq].
  destruct (connectedTransport (pl_transport p)) eqn:Ec; [done|].
  assert (connectList (getConnectList (over (pl_transport p))) (over (pl_transport p)) = addresses) as Ep by (unfold connectList; cbn [fo over]; by case_match).
  eapply (reconnects sample_settings sample_limits _ _ (over (pl_transport p)) _ (address [115; 115; 108])); rewrite ?Ep; try done.
  - by vm_compute; split; constructor.
  - vm_compute. repeat constructor; set_solver.
  - right. left.
  - right. unfold isUriExhausted, getBrokerState. cbn [brokerStates over map_find fo]. by rewrite Hlim.
  - repeat constructor; try apply only_ssl_new; try (intros x e; cbn; case_decide; intros; by simplify_eq); exists (fresh_link [115; 115; 108] []); done.
Defined.
