(* ===== verification/ReconnectLimits.v ===== *)
(** * Where no broker is: how long a transport tries, what it waits between, and how it
    gives up. *)
From stdpp Require Import gmap sorting.
From S2P Require Import Prelude StlMap StringUtils OrderedMap TrackedCommands URIPool HashMap StateTracker Failover FailoverTheorems Reconnect ReconnectTheorems ReconnectOutcome.

(** ** A search that fails *)

Definition pool (r : Reconnect) : list URI := uriPool (connectList (getConnectList r) r).
Definition limit (r : Reconnect) : Z := calculateReconnectAttemptLimit (fo r).
Definition refuses (a : Attempt) : Prop := forall uri, exists e, answer a uri = inl e /\ is_decaf e = true.

(** Another search may come: there is no connection and no end. *)
Definition lost (r : Reconnect) : Prop :=
  connectedTransport (fo r) = None /\ closed (life (fo r)) = false /\ connectionFailure (life (fo r)) = None.
Definition failed_times (c : Z) (r : Reconnect) (uri : URI) : Prop := getUriFailureCount uri r = c /\ status (getBrokerState uri r) <> EXHAUSTED.
Definition spent (c : Z) (r : Reconnect) (uri : URI) : Prop := getUriFailureCount uri r = c /\ (status (getBrokerState uri r) = EXHAUSTED <-> 0 <= limit r <= c).

(** The same transport but for its pools and what it knows of the brokers. *)
Record searched (sent : bool) (r r' : Reconnect) : Prop := {
  sd_fo : exists p, fo r' = if sent then set_pools (uris (fo r)) p (fo r) else set_pools p (updated (fo r)) (fo r);
  sd_delay : reconnectDelay r' = reconnectDelay r;
  sd_failures : connectFailures r' = connectFailures r;
  sd_delays : delays r' = delays r;
  sd_updates : updateURIsSupported r' = updateURIsSupported r;
}.

Lemma searched_refl sent r : searched sent r r.
Proof. split; [|done..]. exists (if sent then updated (fo r) else uris (fo r)). by destruct r as [[] ? ? ? ? ? ?], sent. Qed.

Lemma searched_trans sent r r1 r2 : searched sent r r1 -> searched sent r1 r2 -> searched sent r r2.
Proof. intros [(p & E) ? ? ? ?] [(p' & E') ? ? ? ?]. split; [|congruence..]. exists p'. rewrite E', E. by destruct sent. Qed.

Lemma searched_lost sent r r' : searched sent r r' -> lost r -> lost r'.
Proof. intros [(p & E) _ _ _ _]. unfold lost. rewrite E. by destruct sent. Qed.

Lemma searched_limit sent r r' : searched sent r r' -> limit r' = limit r.
Proof. intros [(p & E) _ _ _ _]. unfold limit. rewrite E. by destruct sent. Qed.

Lemma on_connectList_searched {A} sent (m : M URIPool A) r : searched sent r (on_connectList sent m r).2.
Proof. unfold on_connectList, on_fo, in_updated, in_uris. destruct sent; (destruct (m _) as [o p]; split; [by eexists _|done..]). Qed.

Lemma on_broker_searched sent uri f r : searched sent r (on_broker uri f r).2.
Proof. split; [|done..]. apply (sd_fo _ _ _ (searched_refl sent r)). Qed.

Lemma not_exhausted c r uri : failed_times c r uri -> limit r < 0 \/ c < limit r -> isUriExhausted uri (limit r) r = false.
Proof.
  intros [Hc Hs] Hl. unfold isUriExhausted. destruct (limit r <? 0) eqn:E; [done|]. apply Z.ltb_ge in E. rewrite bool_decide_eq_false_2 by done.
  unfold getUriFailureCount in Hc. rewrite Hc. cbn. apply Z.leb_gt. lia.
Qed.

Lemma all_exhausted r uris : Forall (fun u => isUriExhausted u (limit r) r = true) uris -> 0 <= limit r -> allUrisExhausted uris (limit r) r = true.
Proof. intros H Hl. unfold allUrisExhausted. rewrite (proj2 (Z.ltb_ge _ _)) by done. by apply forallb_forall, List.Forall_forall. Qed.

Lemma spent_exhausted c r uri : spent c r uri -> 0 <= limit r -> isUriExhausted uri (limit r) r = bool_decide (limit r <= c).
Proof.
  intros [Hc Hs] Hl. unfold isUriExhausted. rewrite (proj2 (Z.ltb_ge _ _)) by done. unfold getUriFailureCount in Hc. rewrite Hc.
  apply eq_true_iff_eq. rewrite orb_true_iff, !bool_decide_eq_true, Z.leb_le. rewrite Hs. naive_solver lia.
Qed.

(** One address is tried, and refuses. *)
Lemma loop_refused c fuel sent fs failure a attempts r uri r1 : lost r -> refuses a -> pool_isEmpty (connectList sent r) = false ->
  draw sent a r = (Ok uri, r1) -> failed_times c r uri -> 0 <= c < 2 ^ 31 - 1 -> limit r < 0 \/ c < limit r ->
  exists e r2, connect_loop (S fuel) sent fs failure (a :: attempts) r = connect_loop fuel sent (fs ++ [uri]) (Some e) attempts r2 /\
    is_decaf e = true /\ searched sent r r2 /\ connectList sent r2 = connectList sent r1 /\ spent (c + 1) r2 uri /\
    forall x, text x <> text uri -> getBrokerState x r2 = getBrokerState x r.
Proof.
  intros (Hc & Hcl & Hf) Ha Hp Ed Hu Hr Hlim. destruct (Ha uri) as (e & Ea & He). cbn [connect_loop]. rewrite bind_get, Hp, Hcl. rewrite bool_decide_eq_false_2 by (rewrite Hc; intros [? ?]; done).
  cbn [orb]. rewrite (bind_ok _ _ _ _ _ Ed), bind_get. assert (searched sent r r1 /\ brokerStates r1 = brokerStates r) as [Hs1 Eb].
  { unfold draw in Ed. rewrite bind_get in Ed. match type of Ed with on_connectList ?s ?m _ = _ => pose proof (on_connectList_searched s m r) as H; destruct (on_connectList_fo s m r) as (_ & _ & _ & H' & _) end. by rewrite Ed in H, H'. }
  assert (forall x, getBrokerState x r1 = getBrokerState x r) as Est by (intros; unfold getBrokerState; by rewrite Eb).
  assert (failed_times c r1 uri) as Hu1 by (unfold failed_times, getUriFailureCount in *; by rewrite Est). pose proof (searched_limit _ _ _ Hs1) as El. rewrite <- El in Hlim.
  change (calculateReconnectAttemptLimit (fo r1)) with (limit r1). rewrite (not_exhausted _ _ _ Hu1 Hlim), andb_false_r.
  set (r1c := (markBrokerConnecting uri (at_time a) r1).2). rewrite (bind_ok _ _ r1 tt r1c) by done. rewrite (bind_ok _ _ r1c (Some e) r1c).
  2: { unfold try_catch, try_connect. rewrite Ea. unfold bind, throw. by rewrite He. }
  cbv beta iota. rewrite bind_get. set (r2 := (markBrokerFailed uri e (limit r1) r1c).2). rewrite (bind_ok _ _ r1c tt r2) by done. exists e, r2. split; [done|]. split; [done|].
  assert (searched sent r1 r2) as Hs2 by (eapply searched_trans; [apply on_broker_searched|apply on_broker_searched]). split; [by eapply searched_trans|].
  destruct Hu1 as [Hn Hst]. unfold getUriFailureCount in Hn. assert (s32 (c + 1) = c + 1) as E32 by (apply wraps_id; unfold in_s; lia).
  split; [done|]. split.
  - unfold spent, getUriFailureCount. rewrite (searched_limit _ _ _ Hs2). unfold r2, markBrokerFailed. rewrite getBrokerState_on, decide_True by done. unfold r1c, markBrokerConnecting.
    rewrite getBrokerState_on, decide_True by done. cbn [failureCount status]. rewrite Hn, E32. split; [done|].
    destruct (0 <=? limit r1) eqn:E1, (limit r1 <=? c + 1) eqn:E2; cbn; split; try done; lia.
  - intros x Hx. unfold r2, r1c, markBrokerFailed, markBrokerConnecting. by rewrite !getBrokerState_on, !decide_False, Est.
Qed.

(** Every address is tried once, and the pool is empty after that. *)
Lemma loop_fails c sent attempts : Forall refuses attempts -> 0 <= c < 2 ^ 31 - 1 -> forall fuel fs failure r, lost r -> limit r < 0 \/ c < limit r ->
  base.NoDup (map text (uriPool (connectList sent r))) -> Forall (failed_times c r) (uriPool (connectList sent r)) ->
  (length (uriPool (connectList sent r)) <= length attempts)%nat -> (length (uriPool (connectList sent r)) <= fuel)%nat ->
  exists tried failure' r', connect_loop fuel sent fs failure attempts r = (Ok (Nowhere (fs ++ tried) failure'), r') /\ tried ≡ₚ uriPool (connectList sent r) /\
    (tried = [] -> failure' = failure) /\ (tried <> [] -> exists e, failure' = Some e /\ is_decaf e = true) /\
    searched sent r r' /\ uriPool (connectList sent r') = [] /\ Forall (spent (c + 1) r') tried /\ (forall x, text x ∉ map text tried -> getBrokerState x r' = getBrokerState x r).
Proof.
  intros Ha Hr. induction Ha as [|a attempts Ha _ IH]; intros fuel fs failure r Hlost Hlim Hnd Hpool Hlen Hfuel.
  - destruct (uriPool (connectList sent r)) eqn:Ep; [|cbn in Hlen; lia]. exists [], failure, r. rewrite app_nil_r. split_and!; try done; [|apply searched_refl].
    unfold connect_loop, pool_isEmpty. destruct fuel; by rewrite bind_get, Ep.
  - destruct (uriPool (connectList sent r)) as [|y l] eqn:Ep.
    { exists [], failure, r. rewrite app_nil_r. split_and!; try done; [|apply searched_refl]. destruct fuel; cbn [connect_loop]; by rewrite bind_get; unfold pool_isEmpty; rewrite Ep. }
    destruct fuel as [|fuel]; [cbn in Hfuel; lia|]. assert (pool_isEmpty (connectList sent r) = false) as Hp by (unfold pool_isEmpty; by rewrite Ep).
    destruct (draw_ok sent a r Hp) as (uri & r1 & Ed). destruct (draw_pool _ _ _ _ _ Ed) as (l1 & l2 & E1 & E2). rewrite Ep in E1. rewrite E1 in *. clear E1 y l.
    apply List.Forall_app in Hpool as [Hp1 [Hp0 Hp2]%List.Forall_cons_iff].
    destruct (loop_refused c fuel sent fs failure a attempts r uri r1 Hlost Ha Hp Ed Hp0 Hr Hlim) as (e & r2 & -> & He & Hs & El & Hsp & Hoth).
    rewrite map_app in Hnd. cbn [map] in Hnd. assert (text uri ∉ map text (l1 ++ l2)) as Hfresh.
    { rewrite map_app. apply list.NoDup_app in Hnd as (_ & Hd & [Hn _]%list.NoDup_cons). intros [Hi|Hi]%elem_of_app; [|done]. apply (Hd _ Hi). left. }
    assert (forall x, x ∈ l1 ++ l2 -> text x <> text uri) as Hne by (intros x Hx E; apply Hfresh; rewrite <- E; by apply list_elem_of_fmap_2).
    destruct (IH fuel (fs ++ [uri]) (Some e) r2) as (tried & f' & r' & E & Hperm & Hnil & Hcons & Hs' & Hempty & Hall & Hrest); rewrite ?El, ?E2.
    + by eapply searched_lost.
    + by rewrite (searched_limit _ _ _ Hs).
    + rewrite map_app. apply list.NoDup_app in Hnd as (H1 & Hd & [_ H2]%list.NoDup_cons). apply list.NoDup_app. split_and!; [done| |done]. intros x Hx Hx2. apply (Hd x Hx). by right.
    + apply List.Forall_forall. intros x Hx%list_elem_of_In. unfold failed_times, getUriFailureCount. rewrite Hoth by by apply Hne.
      apply list_elem_of_In in Hx. apply in_app_or in Hx. rewrite List.Forall_forall in Hp1, Hp2. destruct Hx as [Hx|Hx]; [by apply Hp1|by apply Hp2].
    + rewrite length_app in *. cbn in *. lia.
    + rewrite length_app in *. cbn in *. lia.
    + rewrite El, E2 in Hperm. exists (uri :: tried), f', r'. rewrite <- app_assoc in E. split; [exact E|]. split; [rewrite Hperm; apply Permutation_middle|]. split; [done|].
      split; [intros _; destruct tried; [exists e; split; [by apply Hnil|done]|by apply Hcons]|]. split; [by eapply searched_trans|]. split; [done|]. split.
      * constructor; [|done]. unfold spent, getUriFailureCount. rewrite Hrest, (searched_limit _ _ _ Hs'); [exact Hsp|]. by rewrite Hperm.
      * intros x Hx. cbn [map] in Hx. apply not_elem_of_cons in Hx as [Hx1 Hx2]. by rewrite Hrest, Hoth.
Qed.

(** Addresses go back to the pool they came from, all but those that are there already. *)
Lemma addURIs_pool us : forall p, exists b p', addURIs us p = (Ok b, p') /\ uriPool p' ⊆+ uriPool p ++ us /\ (uriPool p <> [] \/ us <> [] -> uriPool p' <> []).
Proof.
  induction us as [|u us IH]; intros p; cbn [addURIs].
  { eexists _, p. split; [reflexivity|]. rewrite app_nil_r. split; [done|]. by intros [?|?]. }
  unfold addURI at 1. rewrite bind_assoc, bind_modify, bind_assoc, bind_get. assert (forall q, uriPool (set_priority q p) = uriPool p) as Eq by (intros q; unfold set_priority; by case_match).
  destruct (pool_contains u (set_priority u p)) eqn:Ec.
  - unfold bind at 1, ret at 1. destruct (IH (set_priority u p)) as (b & p' & E & Hsub & Hne). rewrite (bind_ok _ _ _ _ _ E). eexists _, p'. split; [reflexivity|]. rewrite Eq in *. split.
    + etrans; [exact Hsub|]. apply submseteq_skips_l. by apply submseteq_cons.
    + intros _. apply Hne. left. intros Hn. unfold pool_contains in Ec. by rewrite Eq, Hn in Ec.
  - rewrite bind_assoc, bind_modify. unfold bind at 1, ret at 1. destruct (IH (set_uriPool (uriPool (set_priority u p) ++ [u]) (set_priority u p))) as (b & p' & E & Hsub & Hne).
    rewrite (bind_ok _ _ _ _ _ E). eexists _, p'. split; [reflexivity|]. cbn [uriPool set_uriPool] in *. rewrite Eq in *. split; [by rewrite <- app_assoc in Hsub|].
    intros _. apply Hne. left. by destruct (uriPool p).
Qed.

(** ** An iteration that fails *)

Record searching (c : Z) (r : Reconnect) : Prop := {
  sg_lost : lost r;
  sg_some : pool r <> [];
  sg_distinct : base.NoDup (map text (pool r));
  sg_failed : Forall (failed_times c r) (pool r);
}.

Lemma pool_nonempty r : pool r <> [] -> pool_isEmpty (connectList (getConnectList r) r) = false.
Proof. unfold pool, pool_isEmpty. by case_match. Qed.

Lemma recover_same now r uri : status (getBrokerState uri r) <> EXHAUSTED -> getBrokerState uri (recoverExhaustedBrokers now r).2 = getBrokerState uri r.
Proof. intros Hs. unfold recoverExhaustedBrokers. rewrite getBrokerState_brokers by done. by rewrite bool_decide_eq_false_2. Qed.

(** The pool that was searched gets its addresses back, and is the one that is searched. *)
Lemma refilled r r' us : pool r <> [] -> searched (getConnectList r) r r' -> uriPool (connectList (getConnectList r) r') = [] -> us <> [] ->
  exists b r1, on_connectList (getConnectList r) (addURIs us) r' = (Ok b, r1) /\ searched (getConnectList r) r r1 /\ pool r1 ⊆+ us /\ pool r1 <> [] /\ brokerStates r1 = brokerStates r'.
Proof.
  intros Hp Hs He Hus. set (sent := getConnectList r) in *. pose proof (on_connectList_searched sent (addURIs us) r') as Hs1.
  destruct (addURIs_pool us (connectList sent r')) as (b & q & E & Hsub & Hne). rewrite He in *.
  assert (exists r1, on_connectList sent (addURIs us) r' = (Ok b, r1) /\ connectList sent r1 = q /\ brokerStates r1 = brokerStates r') as (r1 & E1 & Eq & Eb).
  { unfold on_connectList, on_fo, in_updated, in_uris, connectList in *. destruct sent; rewrite E; by eexists. }
  rewrite E1 in Hs1. pose proof (searched_trans _ _ _ _ Hs Hs1) as Hs2. exists b, r1. split; [done|]. split; [done|]. specialize (Hne (or_intror Hus)).
  assert (getConnectList r1 = sent) as Es.
  { destruct Hs2 as [(p' & Ef) _ _ _ Hu]. cbn [snd] in *. unfold getConnectList. rewrite Hu. destruct sent eqn:Es; unfold sent, getConnectList in Es; [|rewrite Ef; exact Es].
    apply andb_true_iff in Es as [-> _]. unfold connectList in Eq. rewrite Eq. unfold pool_isEmpty. by destruct (uriPool q). }
  unfold pool. by rewrite Es, Eq.
Qed.

Lemma iterate_fails c now attempts r : searching c r -> 0 <= c < 2 ^ 31 - 1 -> limit r < 0 \/ c < limit r -> Forall refuses attempts -> (length (pool r) <= length attempts)%nat ->
  exists e r1, iterate now (ret tt) attempts (ret tt) r = iterate_failed (Some e) (ret tt) r1 /\ is_decaf e = true /\ (exists p q, fo r1 = set_pools p q (fo r)) /\
    pool r1 ⊆+ pool r /\ pool r1 <> [] /\ Forall (spent (c + 1) r1) (pool r1) /\
    reconnectDelay r1 = reset_delay r /\ delays r1 = delays r /\ connectFailures r1 = connectFailures r.
Proof.
  intros [(Hc & Hcl & Hf) Hsome Hnd Hfail] Hr Hlim Ha Hlen.
  destruct (iterate_searches now attempts (ret tt) r Hcl Hf Hc (pool_nonempty r Hsome)) as (r0 & -> & (Efo & Eb & Ed & Eup & Ecf) & Edl). set (rr := (recoverExhaustedBrokers now r).2) in *.
  change (fo rr) with (fo r) in Efo. change (delays rr) with (delays r) in Ed. change (updateURIsSupported rr) with (updateURIsSupported r) in Eup. change (connectFailures rr) with (connectFailures r) in Ecf.
  assert (getConnectList r0 = getConnectList r) as Egc by (unfold getConnectList; by rewrite Eup, Efo). assert (pool r0 = pool r) as Epool by (unfold pool, connectList; by rewrite Egc, Efo).
  rewrite <- Egc. assert (Forall (failed_times c r0) (pool r0)) as Hfail0.
  { rewrite Epool. eapply Forall_impl; [|exact Hfail]. intros x [Hn Hst]. unfold failed_times, getUriFailureCount in *. assert (getBrokerState x r0 = getBrokerState x r) as ->; [|done].
    transitivity (getBrokerState x rr); [unfold getBrokerState; by rewrite Eb|by apply recover_same]. }
  assert (limit r0 = limit r) as El by (unfold limit; by rewrite Efo). rewrite <- El in Hlim. rewrite <- Epool in *. rewrite search_loops by (by rewrite Efo). assert (lost r0) as Hlost by (unfold lost; by rewrite Efo).
  destruct (loop_fails c (getConnectList r0) attempts Ha Hr (S (length (pool r0))) [] None r0 Hlost Hlim Hnd Hfail0 Hlen) as (tried & f & r' & E & Hperm & _ & Hex & Hs & He & Hall & _); [fold (pool r0); lia|].
  rewrite (bind_ok _ _ _ _ _ E). cbn [app]. fold (pool r0) in Hperm. assert (tried <> []) as Ht by (intros ->; by apply Permutation_nil_l in Hperm).
  destruct (Hex Ht) as (e & -> & Hde). destruct (refilled r0 r' tried Hsome Hs He Ht) as (b & r1 & E1 & Hs1 & Hsub & Hne & Eb1). rewrite (bind_ok _ _ _ _ _ E1).
  exists e, r1. split; [done|]. split; [done|]. destruct Hs1 as [(p & Ef) Hd1 Hc1 Hdl1 _]. rewrite Efo in Ef.
  assert (exists p q, fo r1 = set_pools p q (fo r)) as Hpq by (destruct (getConnectList r0); by eexists _, _). split_and!; try done; try congruence.
  - by rewrite <- Hperm.
  - apply List.Forall_forall. intros x Hx. apply list_elem_of_In in Hx. apply (elem_of_submseteq _ _ _ Hx) in Hsub. apply list_elem_of_In in Hsub. rewrite List.Forall_forall in Hall. specialize (Hall _ Hsub).
    unfold spent, getUriFailureCount, getBrokerState, limit in *. rewrite Eb1. destruct Hpq as (p' & q' & ->). destruct Hs as [(p2 & E2) _ _ _ _]. rewrite E2, Efo in Hall. by destruct (getConnectList r0).
Qed.

(** ** Iterations one after the other *)

(** What the task runner does with a task: it runs again while it returns true. *)
Fixpoint iterations (rounds : list (Z * list Attempt)) : M Reconnect bool :=
  match rounds with
  | [] => ret true
  | (now, attempts) :: rounds' => more <- iterate now (ret tt) attempts (ret tt) ;; if (more : bool) then iterations rounds' else ret false
  end.

(** In every round every address refuses. *)
Definition round_ok (r : Reconnect) (round : Z * list Attempt) : Prop := Forall refuses round.2 /\ (length (pool r) <= length round.2)%nat.

Definition following_delay (d : Delays) (delay : Z) : Z :=
  backOff d (if negb (useExponentialBackOff d) || (delay =? DEFAULT_INITIAL_RECONNECT_DELAY) then initialReconnectDelay d else delay).

Lemma iterations_app a b r r' : iterations a r = (Ok true, r') -> iterations (a ++ b) r = iterations b r'.
Proof.
  revert r. induction a as [|[now attempts] a IH]; intros r E; cbn [iterations app] in *; [by injection E as <-|].
  unfold bind at 1. unfold bind at 1 in E. destruct (iterate _ _ _ _ _) as [[[]|e| |] r1]; [by apply IH|done..].
Qed.

Lemma some_left c r : pool r <> [] -> Forall (spent c r) (pool r) -> 0 <= limit r -> allUrisExhausted (pool r) (limit r) r = bool_decide (limit r <= c).
Proof.
  intros Hp Hs Hl. unfold allUrisExhausted. rewrite (proj2 (Z.ltb_ge _ _)) by done. case_bool_decide.
  - apply forallb_forall. intros x Hx. rewrite List.Forall_forall in Hs. rewrite (spent_exhausted c) by auto. by apply bool_decide_eq_true.
  - destruct (pool r) as [|x l]; [done|]. cbn. apply List.Forall_cons_iff in Hs as [Hx _]. rewrite (spent_exhausted c) by done. by rewrite bool_decide_eq_false_2.
Qed.

Lemma failed_goes_on c e r : closed (life (fo r)) = false -> pool r <> [] -> Forall (spent c r) (pool r) -> limit r < 0 \/ c < limit r ->
  iterate_failed (Some e) (ret tt) r = (Ok true, set_reconnectDelay (backOff (delays r) (reconnectDelay r)) (set_connectFailures (s32 (connectFailures r + 1)) r)).
Proof.
  intros Hc Hp Hs Hl. unfold iterate_failed. rewrite bind_get. cbv zeta. fold (limit r) (pool r).
  assert ((0 <=? limit r) && allUrisExhausted (pool r) (limit r) r = false) as ->.
  { destruct (0 <=? limit r) eqn:E; [|done]. apply Z.leb_le in E. cbn. rewrite (some_left c) by done. apply bool_decide_eq_false_2. lia. }
  rewrite bind_modify, Hc. set (r1 := set_connectFailures _ r). rewrite (bind_ok _ _ r1 tt (set_reconnectDelay (backOff (delays r) (reconnectDelay r)) r1)).
  - rewrite bind_get. unfold ret. f_equal. f_equal. cbn. by rewrite Hc.
  - by destruct r.
Qed.

Lemma failed_gives_up e r : firstConnection (life (fo r)) = false -> 0 <= limit r -> allUrisExhausted (pool r) (limit r) r = true ->
  exists r', iterate_failed (Some e) (ret tt) r = (Ok false, r') /\ connectionFailure (life (fo r')) = Some e /\ firstConnection (life (fo r')) = false /\
    notices (fo r') = notices (fo r) ++ [AnException (if is_io e then e else IOException)].
Proof.
  intros Hf Hl Hall. unfold iterate_failed. rewrite bind_get. cbv zeta. fold (limit r) (pool r). rewrite Hall, (proj2 (Z.leb_le _ _)) by done. cbn [andb]. rewrite bind_modify, Hf.
  eexists. split; [reflexivity|]. by split_and!.
Qed.

(** When the limit of the start is reached, the one of reconnecting is next. *)
Lemma failed_start c e r : lost r -> firstConnection (life (fo r)) = true -> 0 < c -> pool r <> [] -> Forall (spent c r) (pool r) -> limit r = c ->
  startupMaxReconnectAttempts (limits (fo r)) = c -> maxReconnectAttempts (limits (fo r)) <> 0 -> maxReconnectAttempts (limits (fo r)) <> c ->
  exists r', iterate_failed (Some e) (ret tt) r = (Ok true, r') /\ lost r' /\ firstConnection (life (fo r')) = false /\ limits (fo r') = limits (fo r) /\
    pool r' = pool r /\ Forall (failed_times 0 r') (pool r') /\ notices (fo r') = notices (fo r) ++ [AnException (if is_io e then e else IOException)].
Proof.
  intros (Hc & Hcl & Hcf) Hf H0 Hp Hs El Hst Hm0 Hm. unfold iterate_failed. rewrite bind_get. cbv zeta. fold (limit r) (pool r).
  rewrite (some_left c), bool_decide_eq_true_2, (proj2 (Z.leb_le _ _)) by (done || lia). cbn [andb]. rewrite bind_modify, Hf.
  set (r1 := set_fo (set_life (set_connectionFailure (Some e) (life (fo r))) (fo r)) (set_connectFailures (s32 (connectFailures r + 1)) r)).
  set (r2 := set_connectFailures 0 (set_fo (set_life (set_firstConnection false (life (fo r1))) (fo r1)) r1)). set (r3 := (resetReconnectDelay (resetAllUriFailureCounts r2).2).2).
  assert (fo r3 = fo r2 /\ brokerStates r3 = brokerStates (resetAllUriFailureCounts r2).2 /\ updateURIsSupported r3 = updateURIsSupported r) as (E1 & E2 & E3) by (subst r3; unfold resetReconnectDelay, modify; cbn; by case_match).
  rewrite (bind_ok _ _ _ tt r1) by done. rewrite (bind_ok _ _ r1 tt r3) by (transitivity (resetReconnectDelay (resetAllUriFailureCounts r2).2); [done|by destruct (resetDelay_unseen (resetAllUriFailureCounts r2).2) as [_ [_ ->]]]).
  clearbody r3. set (r4 := set_fo (notify (AnException (if is_io e then e else IOException)) (fo r3)).2 r3). rewrite (bind_ok _ _ r3 tt r4) by (subst r4; unfold on_fo, propagateFailureToExceptionListener; rewrite bind_get, E1; reflexivity).
  unfold on_limits. rewrite bind_assoc, bind_get. unfold bind at 1, ret at 1. assert (limits (fo r4) = limits (fo r)) as -> by (transitivity (limits (fo r3)); [done|by rewrite E1]).
  rewrite Hst, (proj2 (Z.ltb_lt _ _)), (proj2 (Z.eqb_neq (maxReconnectAttempts _) 0)), (proj2 (Z.eqb_neq c _)) by (done || lia). cbn [andb negb].
  eexists. split; [reflexivity|]. unfold lost, r4. cbn. rewrite E1. cbn. split; [done|]. split; [done|]. split; [done|]. unfold pool, connectList, getConnectList. cbn. rewrite E3. split; [done|]. split; [|done].
  apply List.Forall_forall. intros x Hx. rewrite List.Forall_forall in Hs. destruct (Hs x Hx) as [_ Hex]. unfold failed_times, getUriFailureCount.
  match goal with |- context [getBrokerState x ?rr] => assert (getBrokerState x rr = made_available (getBrokerState x r)) as -> end; [|done].
  unfold getBrokerState at 1. cbn. rewrite E2. change (getBrokerState x (resetAllUriFailureCounts r2).2 = made_available (getBrokerState x r)). unfold resetAllUriFailureCounts. rewrite getBrokerState_brokers by done.
  change (getBrokerState x r2) with (getBrokerState x r). rewrite (proj2 Hex) by lia. done.
Qed.

Lemma submseteq_texts l l' : l ⊆+ l' -> base.NoDup (map text l') -> base.NoDup (map text l).
Proof. intros H. apply submseteq_Permutation in H as [k ->]. rewrite map_app. intros Hn. by apply list.NoDup_app in Hn as [? _]. Qed.

(** Rounds that do not reach the limit change nothing that the client sees. *)
Lemma rounds_go_on rounds : forall c r, searching c r -> 0 <= c -> c + zlen rounds < 2 ^ 31 -> limit r < 0 \/ c + zlen rounds < limit r -> Forall (round_ok r) rounds ->
  exists r', iterations rounds r = (Ok true, r') /\ searching (c + zlen rounds) r' /\ (exists p q, fo r' = set_pools p q (fo r)) /\ pool r' ⊆+ pool r /\
    delays r' = delays r /\ reconnectDelay r' = Nat.iter (length rounds) (following_delay (delays r)) (reconnectDelay r).
Proof.
  induction rounds as [|[now attempts] rounds IH]; intros c r Hs Hc Hr Hlim Hrs; unfold zlen in *; cbn [length] in *.
  { exists r. rewrite Z.add_0_r. split_and!; try done. exists (uris (fo r)), (updated (fo r)). by destruct r as [[] ? ? ? ? ? ?]. }
  apply List.Forall_cons_iff in Hrs as [[Ha Hlen] Hrs]. cbn [fst snd] in *.
  destruct (iterate_fails c now attempts r Hs ltac:(lia) ltac:(lia) Ha Hlen) as (e & r1 & E & _ & (p & q & Ef) & Hsub & Hne & Hsp & Hd & Hdl & _).
  assert (limit r1 = limit r) as El by (unfold limit; by rewrite Ef). pose proof (sg_lost _ _ Hs) as (Hc0 & Hcl & Hcf).
  pose proof (failed_goes_on (c + 1) e r1 ltac:(by rewrite Ef) Hne Hsp ltac:(lia)) as E1. rewrite <- E in E1. set (r2 := set_reconnectDelay _ _) in E1. cbn [iterations]. rewrite (bind_ok _ _ _ _ _ E1).
  destruct (IH (c + 1) r2) as (r' & E2 & Hs' & (p' & q' & Ef') & Hsub' & Hdl' & Hd').
  - split; [unfold lost; cbn; by rewrite Ef|done|eapply submseteq_texts; [exact Hsub|by destruct Hs]|]. eapply Forall_impl; [|exact Hsp]. intros x [Hn Hx]. split; [done|]. intros Hst. apply Hx in Hst. lia.
  - lia.
  - lia.
  - change (limit r2) with (limit r1). lia.
  - eapply Forall_impl; [|exact Hrs]. intros rd [Hrd Hl]. split; [done|]. change (pool r2) with (pool r1). apply submseteq_length in Hsub. lia.
  - exists r'. split; [done|]. replace (c + Z.of_nat (S (length rounds))) with (c + 1 + Z.of_nat (length rounds)) by lia. split; [done|]. split; [exists p', q'; by rewrite Ef'; cbn; rewrite Ef|].
    split; [etrans; [exact Hsub'|exact Hsub]|]. split; [by rewrite Hdl'|]. rewrite Hd', Nat.iter_succ_r. cbn [delays reconnectDelay set_reconnectDelay set_connectFailures r2]. by rewrite Hdl, Hd.
Qed.

Lemma round_ok_less r r' rounds : pool r' ⊆+ pool r -> Forall (round_ok r) rounds -> Forall (round_ok r') rounds.
Proof. intros Hs%submseteq_length. apply Forall_impl. intros rd [? ?]. split; [done|lia]. Qed.

(** The last round of those that the limit allows. *)
Lemma last_round c round r : searching c r -> 0 <= c < 2 ^ 31 - 1 -> limit r = c + 1 -> round_ok r round ->
  exists e r1, iterations [round] r = (b <- iterate_failed (Some e) (ret tt) ;; if (b : bool) then ret true else ret false) r1 /\ is_decaf e = true /\ (exists p q, fo r1 = set_pools p q (fo r)) /\
    pool r1 ⊆+ pool r /\ pool r1 <> [] /\ Forall (spent (c + 1) r1) (pool r1).
Proof.
  intros Hs Hc El [Ha Hlen]. destruct round as [now attempts]. cbn [fst snd] in *. destruct (iterate_fails c now attempts r Hs Hc ltac:(lia) Ha Hlen) as (e & r1 & E & He & Hf & Hsub & Hne & Hsp & _).
  exists e, r1. split; [|done]. cbn [iterations]. unfold bind at 1. rewrite E. unfold bind at 1. by destruct (iterate_failed _ _ r1) as [[[]|?| |] ?].
Qed.

Lemma zlen_last {A} (l : list A) n : zlen l = n -> 0 < n -> exists l0 x, l = l0 ++ [x] /\ zlen l0 = n - 1.
Proof.
  intros Hl Hn. destruct (exists_last (l := l)) as (l0 & x & ->); [intros ->; unfold zlen in *; cbn in *; lia|]. exists l0, x. split; [done|].
  unfold zlen in *. rewrite length_app in Hl. cbn in Hl. lia.
Qed.

(** As many rounds as the limit says: what the last one starts from. *)
Lemma limit_rounds r rounds : searching 0 r -> 0 < limit r < 2 ^ 31 -> Forall (round_ok r) rounds -> zlen rounds = limit r ->
  exists e r1, iterations rounds r = (b <- iterate_failed (Some e) (ret tt) ;; if (b : bool) then ret true else ret false) r1 /\ (exists p q, fo r1 = set_pools p q (fo r)) /\
    pool r1 ⊆+ pool r /\ pool r1 <> [] /\ Forall (spent (limit r) r1) (pool r1).
Proof.
  intros Hs Hlim Hrs Hlen. destruct (zlen_last rounds (limit r) Hlen) as (rounds0 & round & -> & Hl0); [lia|]. apply List.Forall_app in Hrs as [Hrs [Hr _]%List.Forall_cons_iff].
  destruct (rounds_go_on rounds0 0 r Hs ltac:(lia) ltac:(lia) ltac:(lia) Hrs) as (r0 & E & Hs0 & (p & q & Ef) & Hsub & _). rewrite (iterations_app _ _ _ _ E).
  assert (limit r0 = limit r) as El by (unfold limit; by rewrite Ef).
  destruct (last_round (0 + zlen rounds0) round r0 Hs0 ltac:(lia) ltac:(lia)) as (e & r1 & E1 & _ & (p' & q' & Ef1) & Hsub1 & Hne & Hsp); [destruct Hr as [? ?]; split; [done|apply submseteq_length in Hsub; lia]|].
  exists e, r1. split; [exact E1|]. split; [exists p', q'; by rewrite Ef1, Ef|]. split; [by etrans|]. split; [done|]. by replace (limit r) with (0 + zlen rounds0 + 1) by lia.
Qed.

Lemma stops r rounds : searching 0 r -> firstConnection (life (fo r)) = false -> 0 < limit r < 2 ^ 31 -> Forall (round_ok r) rounds -> zlen rounds = limit r ->
  exists e r', iterations rounds r = (Ok false, r') /\ connectionFailure (life (fo r')) = Some e /\ firstConnection (life (fo r')) = false /\ notices (fo r') = notices (fo r) ++ [AnException (if is_io e then e else IOException)].
Proof.
  intros Hs Hf Hlim Hrs Hlen. destruct (limit_rounds r rounds Hs Hlim Hrs Hlen) as (e & r1 & -> & (p & q & Ef) & _ & Hne & Hsp). assert (limit r1 = limit r) as El by (unfold limit; by rewrite Ef).
  destruct (failed_gives_up e r1) as (r' & E' & Hcf & Hf' & Hn); [by rewrite Ef|lia|rewrite (some_left _ _ Hne Hsp) by lia; apply bool_decide_eq_true_2; lia|].
  exists e, r'. rewrite (bind_ok _ _ _ _ _ E'). split; [done|]. split; [done|]. split; [done|]. by rewrite Hn, Ef.
Qed.

(** C19: where every address refuses, a transport that was connected before tries as often as
    the limit says: after fewer rounds it is asked for another and the client has heard
    nothing, and with the last round it stops, keeps the failure, and has told the client of
    an exception, once. *)
Theorem gives_up r rounds : searching 0 r -> firstConnection (life (fo r)) = false -> 0 < limit r < 2 ^ 31 -> Forall (round_ok r) rounds -> zlen rounds <= limit r ->
  exists r', iterations rounds r = (Ok (zlen rounds <? limit r), r') /\
    if zlen rounds <? limit r then connectionFailure (life (fo r')) = None /\ notices (fo r') = notices (fo r)
    else exists e, connectionFailure (life (fo r')) = Some e /\ notices (fo r') = notices (fo r) ++ [AnException (if is_io e then e else IOException)].
Proof.
  intros Hs Hf Hlim Hrs Hlen. destruct (zlen rounds <? limit r) eqn:Ek.
  - apply Z.ltb_lt in Ek. destruct (rounds_go_on rounds 0 r Hs ltac:(lia) ltac:(lia) ltac:(lia) Hrs) as (r' & E & Hs' & (p & q & Ef) & _). exists r'. split; [done|]. split; [apply Hs'|by rewrite Ef].
  - apply Z.ltb_ge in Ek. destruct (stops r rounds Hs Hf Hlim Hrs ltac:(lia)) as (e & r' & E & Hcf & _ & Hn). exists r'. split; [done|]. by exists e.
Qed.

(** a transport that never was connected tries as often as the limit of the start says,
    tells the client of an exception, and goes on, with every count at zero, until the limit
    of reconnecting is reached as well: the client hears of two exceptions in all. *)
Theorem start_gives_up r starts rounds : searching 0 r -> firstConnection (life (fo r)) = true ->
  zlen starts = startupMaxReconnectAttempts (limits (fo r)) -> zlen rounds = maxReconnectAttempts (limits (fo r)) ->
  0 < zlen starts < 2 ^ 31 -> 0 < zlen rounds < 2 ^ 31 -> zlen starts <> zlen rounds -> Forall (round_ok r) (starts ++ rounds) ->
  exists e e' r', iterations (starts ++ rounds) r = (Ok false, r') /\ connectionFailure (life (fo r')) = Some e' /\ firstConnection (life (fo r')) = false /\
    notices (fo r') = notices (fo r) ++ [AnException (if is_io e then e else IOException); AnException (if is_io e' then e' else IOException)].
Proof.
  intros Hs Hf Es Em Hls Hlr Hne [Hrs Hrr]%List.Forall_app.
  assert (limit r = zlen starts) as El by (unfold limit, calculateReconnectAttemptLimit; rewrite Hf, (proj2 (Z.eqb_neq _ _)); [done|unfold INFINITE_WAIT; lia]).
  destruct (limit_rounds r starts Hs ltac:(lia) Hrs ltac:(lia)) as (e & r1 & E1 & (p & q & Ef) & Hsub & Hp & Hsp). assert (limit r1 = limit r) as El1 by (unfold limit; by rewrite Ef). pose proof (sg_lost _ _ Hs) as Hlost.
  destruct (failed_start (limit r) e r1) as (r2 & E2 & Hlost2 & Hf2 & Elim2 & Ep2 & Hfr2 & Hn2); try (rewrite Ef; cbn; done || lia); [by unfold lost in *; rewrite Ef|lia|done..|].
  rewrite (bind_ok _ _ _ _ _ E2) in E1. rewrite (iterations_app _ _ _ _ E1).
  assert (limit r2 = zlen rounds) as El2 by (unfold limit, calculateReconnectAttemptLimit; by rewrite Hf2, Elim2, Ef).
  destruct (stops r2 rounds) as (e' & r' & E' & Hcf & Hf' & Hn); try done; [|lia|eapply round_ok_less; [|exact Hrr]; by rewrite Ep2|].
  { split; [done|by rewrite Ep2|rewrite Ep2; eapply submseteq_texts; [exact Hsub|by destruct Hs]|done]. }
  exists e, e', r'. split; [done|]. split; [done|]. split; [done|]. by rewrite Hn, Hn2, Ef, <- app_assoc.
Qed.

(** ** The delays between the rounds *)

Lemma next_delay_min d x : useExponentialBackOff d = true -> 0 <= x <= maxReconnectDelay d -> 1 <= backOffMultiplier d -> maxReconnectDelay d * backOffMultiplier d < 2 ^ 63 ->
  (x = DEFAULT_INITIAL_RECONNECT_DELAY -> initialReconnectDelay d = DEFAULT_INITIAL_RECONNECT_DELAY) -> following_delay d x = Z.min (maxReconnectDelay d) (x * backOffMultiplier d).
Proof.
  intros He Hx Hm Ho H10. unfold following_delay, backOff. rewrite He. cbn [negb orb].
  assert ((if x =? DEFAULT_INITIAL_RECONNECT_DELAY then initialReconnectDelay d else x) = x) as -> by (destruct (x =? _) eqn:E; [apply Z.eqb_eq in E; by rewrite (H10 E)|done]).
  rewrite wraps_id by (unfold in_s; nia). destruct (_ <? _) eqn:E; [apply Z.ltb_lt in E|apply Z.ltb_ge in E]; lia.
Qed.

(** No delay of the sequence is the one that is taken for the first. *)
Definition no_false_start (d : Delays) : Prop := forall n : nat,
  Z.min (maxReconnectDelay d) (initialReconnectDelay d * backOffMultiplier d ^ Z.of_nat n) = DEFAULT_INITIAL_RECONNECT_DELAY -> initialReconnectDelay d = DEFAULT_INITIAL_RECONNECT_DELAY.

Lemma delays_closed d n : useExponentialBackOff d = true -> 0 <= initialReconnectDelay d <= maxReconnectDelay d -> 1 <= backOffMultiplier d ->
  maxReconnectDelay d * backOffMultiplier d < 2 ^ 63 -> no_false_start d ->
  Nat.iter n (following_delay d) (initialReconnectDelay d) = Z.min (maxReconnectDelay d) (initialReconnectDelay d * backOffMultiplier d ^ Z.of_nat n).
Proof.
  intros He Hi Hm Ho Hf. induction n as [|n IH]; [cbn; lia|]. rewrite Nat.iter_succ, IH. pose proof (Z.pow_pos_nonneg (backOffMultiplier d) (Z.of_nat n) ltac:(lia) ltac:(lia)) as Hp.
  rewrite next_delay_min; [|done|nia|done|done|apply Hf]. rewrite Nat2Z.inj_succ, Z.pow_succ_r by lia. nia.
Qed.

Lemma delays_constant d n : useExponentialBackOff d = false -> Nat.iter n (following_delay d) (initialReconnectDelay d) = initialReconnectDelay d.
Proof. intros He. induction n as [|n IH]; [done|]. rewrite Nat.iter_succ, IH. unfold following_delay, backOff. by rewrite He. Qed.

(** C20: while no address answers, the delay before the next round is, with exponential back-off,
    the first one times a power of the multiplier, up to the maximum; without it, the first one.
    With back-off this is for a first delay within the maximum, a multiplier that does not
    shrink it and a row of delays in which none but the first is 10 ms ([no_false_start]): the
    code takes a delay of 10 for one that is not set, and starts over with the first
    ([back_off_stuck]). *)
Theorem delays_grow c r rounds d : searching c r -> delays r = d -> reconnectDelay r = initialReconnectDelay d -> 0 <= c -> c + zlen rounds < 2 ^ 31 ->
  limit r < 0 \/ c + zlen rounds < limit r -> Forall (round_ok r) rounds ->
  (useExponentialBackOff d = true -> 0 <= initialReconnectDelay d <= maxReconnectDelay d /\ 1 <= backOffMultiplier d /\ maxReconnectDelay d * backOffMultiplier d < 2 ^ 63 /\ no_false_start d) ->
  exists r', iterations rounds r = (Ok true, r') /\
    reconnectDelay r' = if useExponentialBackOff d then Z.min (maxReconnectDelay d) (initialReconnectDelay d * backOffMultiplier d ^ zlen rounds) else initialReconnectDelay d.
Proof.
  intros Hs <- Hd Hc Hr Hl Hrs He. destruct (rounds_go_on rounds c r Hs Hc Hr Hl Hrs) as (r' & E & _ & _ & _ & _ & Hd'). exists r'. split; [done|].
  rewrite Hd', Hd. destruct (useExponentialBackOff (delays r)) eqn:Ee; [|by apply delays_constant]. destruct (He eq_refl) as (Hi & Hm & Ho & Hf). by apply delays_closed.
Qed.

(** A first delay of five doubles to ten, which is taken for the first delay, so that it is
    five again: the back-off does not grow. *)
Example back_off_stuck : map (fun n : nat => Nat.iter n (following_delay (mkDelays 5 30000 2 true)) 5) [1; 2; 3; 20]%nat = [10; 10; 10; 10] /\
  map (fun n : nat => Nat.iter n (following_delay (mkDelays 6 30000 2 true)) 6) [1; 2; 3; 20]%nat = [12; 24; 48; 30000].
Proof. split; reflexivity. Qed.

(** *** A transport whose addresses all refuse *)

Definition silence (t : Z) : Z * list Attempt := (t, map (fun n => mkAttempt n t (fun _ => inl IOException)) [7; 5; 3]).
Definition idle (connected : bool) : option Reconnect :=
  match opened sample_settings (mkLimits 30000 3 2) with
  | Ok s => Some (over (set_pools addresses URIPool_new (set_life (set_started true (set_firstConnection (negb connected) (life s))) s)))
  | _ => None
  end.

Lemma idle_searching connected r : idle connected = Some r -> searching 0 r /\ firstConnection (life (fo r)) = negb connected /\ limits (fo r) = mkLimits 30000 3 2 /\ delays r = sample_delays /\
  reconnectDelay r = 10 /\ forall n, Forall (round_ok r) (replicate n (silence 5000)).
Proof.
  intros [= <-]. split_and!; try done.
  - split; [done|done|vm_compute; repeat constructor; set_solver|by repeat constructor].
  - intros n. apply Forall_replicate. split; [|vm_compute; lia]. repeat constructor; intros ?; by exists IOException.
Qed.

Lemma gives_up_witness : match idle true with
  | Some r => exists r' e, iterations (replicate 3 (silence 5000)) r = (Ok false, r') /\ connectionFailure (life (fo r')) = Some e
  | None => False
  end.
Proof.
  destruct (idle true) as [r|] eqn:E; [|by vm_compute in E]. destruct (idle_searching _ _ E) as (Hs & Hf & Hl & _ & _ & Hr).
  assert (limit r = 3) as El by (unfold limit, calculateReconnectAttemptLimit; by rewrite Hf, Hl).
  destruct (gives_up r (replicate 3 (silence 5000)) Hs Hf) as (r' & E' & H); [by rewrite El|apply Hr|by rewrite El|]. rewrite El in *. destruct H as (e & Hc & _). by exists r', e.
Defined.

Lemma start_gives_up_witness : match idle false with
  | Some r => exists r', iterations (replicate 2 (silence 5000) ++ replicate 3 (silence 5000)) r = (Ok false, r') /\ length (notices (fo r')) = (length (notices (fo r)) + 2)%nat
  | None => False
  end.
Proof.
  destruct (idle false) as [r|] eqn:E; [|by vm_compute in E]. destruct (idle_searching _ _ E) as (Hs & Hf & Hl & _ & _ & Hr).
  destruct (start_gives_up r (replicate 2 (silence 5000)) (replicate 3 (silence 5000)) Hs Hf) as (e & e' & r' & E' & _ & _ & Hn); rewrite ?Hl; try done.
  - apply List.Forall_app. split; apply Hr.
  - exists r'. split; [exact E'|]. by rewrite Hn, length_app.
Defined.

Lemma delays_grow_witness : match idle true with
  | Some r => exists r', iterations (replicate 2 (silence 5000)) r = (Ok true, r') /\ reconnectDelay r' = 40
  | None => False
  end.
Proof.
  destruct (idle true) as [r|] eqn:E; [|by vm_compute in E]. destruct (idle_searching _ _ E) as (Hs & Hf & Hl & Hd & H10 & Hr).
  assert (limit r = 3) as El by (unfold limit, calculateReconnectAttemptLimit; by rewrite Hf, Hl).
  destruct (delays_grow 0 r (replicate 2 (silence 5000)) sample_delays Hs Hd H10) as (r' & E' & H); try done; [right; by rewrite El|]. exists r'. by split.
Defined.

(** *** The failure that is not there

    A rebalance with no attempts allowed: the connection is given up for another address,
    each of which counts as exhausted, no attempt is made, and what the listener should be
    told is a null pointer. *)
Definition rebalanced (attempts : Z) : option Reconnect :=
  match opened sample_settings (mkLimits 30000 attempts (-1)) with
  | Ok s =>
      let s := set_pools addresses URIPool_new (set_life (set_started true (set_firstConnection false (life s))) s) in
      Some (set_doRebalance true (over (set_connected (Some (fresh_link [119; 115] [])) s)))
  | _ => None
  end.

Example rebalance_without_attempts : forall attempts, attempts = 0 \/ attempts = 1 ->
  match rebalanced attempts with
  | Some r => match iterate 5000 (ret tt) (replicate 4 (mkAttempt 0 5000 (fun _ => inr (fresh_link [119; 115] [])))) (ret tt) r with
              | (UB, _) => attempts = 0 | (Ok _, _) => attempts = 1 | _ => False end
  | None => False
  end.
Proof. intros attempts [->| ->]; vm_compute; reflexivity. Qed.

(** A rebalance when every address but that of the connection was removed, and that one too:
    the connection holds, and the transport gives it up all the same. *)
Example rebalance_without_addresses :
  match rebalanced 3 with
  | Some r => match iterate 5000 (ret tt) [] (ret tt) (set_fo (set_pools URIPool_new URIPool_new (fo r)) r) with
              | (Ok false, r') => connectionFailure (life (fo r')) = Some IOException /\ is_Some (connectedTransport (fo r'))
              | _ => False end
  | None => False
  end.
Proof. vm_compute. split; [reflexivity|by eexists]. Qed.
