(* ===== verification/ResponseCorrelator.v ===== *)
(** * ResponseCorrelator and FutureResponse (activemq/transport): requests, the threads that
    wait for their answers, and the connection that fails under them.

    Many threads are in the correlator at once. A thread is where it has come to in one of
    the calls; between two of its steps any other thread may take any number. A step is what
    the code does while it holds [mapMutex], an atomic operation, a call of the transport
    below, or a wait that is over. *)
From stdpp Require Import gmap.
From S2P Require Import Prelude.

(** ** Replies and futures *)

(** What an ExceptionResponse carries: an error of the broker, or one made here. *)
Inductive Cause : Type := Remote (n : Z) | Local (e : exn).
Inductive Body : Type := Plain (data : list Z) | Error (cause : option Cause).
Record Reply : Type := mkReply { correlationId : Z; body : Body }.
Inductive Incoming : Type := Information (tag : Z) | AReply (r : Reply).

Record FutureResponse : Type := mkFuture {
  response : option Reply;
  responseLatch : Z;
  responseCallback : bool;
  completed : list Reply;  (* what [onComplete] of the callback was given *)
}.
Definition FutureResponse_new (callback : bool) : FutureResponse := mkFuture None 1 callback [].
Definition countDown (count : Z) : Z := if count =? 0 then 0 else count - 1.
Definition setResponse (r : Reply) (f : FutureResponse) : FutureResponse :=
  mkFuture (Some r) (countDown (responseLatch f)) (responseCallback f) (if responseCallback f then completed f ++ [r] else completed f).

(** [getResponse] waits for the latch; with a timeout it returns what is there when that is
    over. *)
Definition getResponse (timed timeup : bool) (f : FutureResponse) : option (option Reply) :=
  if (responseLatch f =? 0) || (timed && timeup) then Some (response f) else None.

(** ** The correlator *)

Inductive Told : Type := ToldCommand (m : Incoming) | ToldException (e : exn).

Record Correlator : Type := mkCorrelator {
  nextCommandId : Z;
  requestMap : gmap Z nat;
  priorError : option exn;
  started : bool;
  closed : bool;
  futures : list FutureResponse;
  sent : list (Z * bool);  (* the commands given to the next transport: id, response required *)
  told : list Told;        (* what the listener was told *)
}.
Definition Correlator_new : Correlator := mkCorrelator 1 ∅ None false false [] [] [].

Definition set_next x (s : Correlator) := mkCorrelator x (requestMap s) (priorError s) (started s) (closed s) (futures s) (sent s) (told s).
Definition set_map x (s : Correlator) := mkCorrelator (nextCommandId s) x (priorError s) (started s) (closed s) (futures s) (sent s) (told s).
Definition set_prior x (s : Correlator) := mkCorrelator (nextCommandId s) (requestMap s) x (started s) (closed s) (futures s) (sent s) (told s).
Definition set_filter x y (s : Correlator) := mkCorrelator (nextCommandId s) (requestMap s) (priorError s) x y (futures s) (sent s) (told s).
Definition set_futures x (s : Correlator) := mkCorrelator (nextCommandId s) (requestMap s) (priorError s) (started s) (closed s) x (sent s) (told s).
Definition add_sent x (s : Correlator) := mkCorrelator (nextCommandId s) (requestMap s) (priorError s) (started s) (closed s) (futures s) (sent s ++ [x]) (told s).
Definition add_told x (s : Correlator) := mkCorrelator (nextCommandId s) (requestMap s) (priorError s) (started s) (closed s) (futures s) (sent s) (told s ++ [x]).

(** [setResponse] on a future. *)
Definition complete (f : nat) (r : Reply) (s : Correlator) : Correlator := set_futures (alter (setResponse r) f (futures s)) s.

(** [TransportFilter::onCommand] and [onException]. *)
Definition tell (x : Told) (s : Correlator) : Correlator := if negb (started s) || closed s then s else add_told x s.

(** ** Calls and where a thread is in them *)

Inductive Kind : Type := Request (timed : bool) | AsyncRequest (callback : bool).
Inductive Call : Type := Oneway | Asks (k : Kind).
Inductive Result : Type := Done | Answer (r : Reply) | Future (f : nat) | Thrown (e : exn).

Inductive Thread : Type :=
  | Entering (c : Call)                               (* before checkClosed *)
  | Checked (c : Call)                                (* before the command gets its id *)
  | Numbered (k : Kind) (id : Z)                      (* before the request map *)
  | Refused (id : Z) (f : nat)                        (* there was an error: before the callback *)
  | SendingOneway (id : Z)
  | Sending (k : Kind) (id : Z) (f : nat)             (* before oneway of the next transport *)
  | Waiting (timed : bool) (id : Z) (f : nat)         (* in getResponse *)
  | Leaving (id : Z) (f : nat) (r : Result)           (* in the finalizer *)
  | Stopping | Shutting                               (* in close *)
  | Failing (e : exn) (tells : bool)                  (* before the lock of dispose *)
  | Disposing (pending : list (Z * nat)) (e : exn) (tells : bool)
  | Ended (id : option Z) (r : Result).

(** [AMQ_CATCH_...] around every call. *)
Definition converted (e : exn) : exn := if is_io e || bool_decide (e = UnsupportedOperationException) then e else IOException.

Definition callback_of (k : Kind) : bool := match k with AsyncRequest b => b | Request _ => false end.

(** A request is put into the map unless an error came before; the future is made first. *)
Definition put_request (k : Kind) (id : Z) (s : Correlator) : Thread * Correlator :=
  let f := length (futures s) in
  let s := set_futures (futures s ++ [FutureResponse_new (callback_of k)]) s in
  match priorError s with
  | None => (Sending k id f, set_map (<[u32 id := f]> (requestMap s)) s)
  | Some _ => match k with AsyncRequest _ => (Refused id f, s) | Request _ => (Ended (Some id) (Thrown IOException), s) end
  end.

Definition remove_request (id : Z) (s : Correlator) : Correlator := set_map (delete (u32 id) (requestMap s)) s.

(** The locked part of [dispose]: what is in the map is taken out, once. *)
Definition take_requests (e : exn) (s : Correlator) : list (Z * nat) * Correlator :=
  match priorError s with
  | None => (map_to_list (requestMap s), set_map ∅ (set_prior (Some e) s))
  | Some _ => ([], s)
  end.

Definition answered_by (r : option Reply) : Result := match r with Some r => Answer r | None => Thrown IOException end.

(** The next step of a thread, if it has one. [outcome] is what the transport below does with
    a command, or an interruption of a wait, which is an IOException; [timeup] whether the
    timeout of a wait is over. *)
Definition advance (outcome : option exn) (timeup : bool) (t : Thread) (s : Correlator) : option (Thread * Correlator) :=
  match t with
  | Entering c => Some (if closed s then Ended None (Thrown IOException) else Checked c, s)
  | Checked c =>
      let id := nextCommandId s in
      Some (match c with Oneway => SendingOneway id | Asks k => Numbered k id end, set_next (s32 (id + 1)) s)
  | Numbered k id => Some (put_request k id s)
  | Refused id f => Some (Ended (Some id) (Thrown IOException), complete f (mkReply 0 (Error (option_map Local (priorError s)))) s)
  | SendingOneway id =>
      Some (Ended (Some id) (match outcome with None => Done | Some e => Thrown (converted e) end), add_sent (id, false) s)
  | Sending k id f =>
      Some (match outcome, k with
            | None, Request timed => Waiting timed id f
            | None, AsyncRequest _ => Ended (Some id) (Future f)
            | Some e, Request _ => Leaving id f (Thrown (converted e))
            | Some e, AsyncRequest _ => if is_decaf e then Leaving id f (Thrown (converted e)) else Ended (Some id) (Thrown (converted e))
            end, add_sent (id, true) s)
  | Waiting timed id f =>
      match outcome with
      | Some _ => Some (Leaving id f (Thrown IOException), s)
      | None =>
          match futures s !! f with
          | Some x => option_map (fun r => (Leaving id f (answered_by r), s)) (getResponse timed timeup x)
          | None => None
          end
      end
  | Leaving id f r => Some (Ended (Some id) r, remove_request id s)
  | Stopping => Some (if closed s then Ended None Done else Shutting, if closed s then s else set_filter false (closed s) s)
  | Shutting => Some (if closed s then Ended None Done else Failing IOException false, if closed s then s else set_filter (started s) true s)
  | Failing e tells => Some (let '(pending, s) := take_requests e s in (Disposing pending e tells, s))
  | Disposing ((k, f) :: pending) e tells => Some (Disposing pending e tells, complete f (mkReply (s32 k) (Error (Some (Local e)))) s)
  | Disposing [] e tells => Some (Ended None Done, if tells then tell (ToldException e) s else s)
  | Ended _ _ => None
  end.

(** [onCommand], under the lock. An error that answers no request is kept as the error that
    came before, and told to the listener. *)
Definition onCommand (m : Incoming) (s : Correlator) : Correlator :=
  match m with
  | Information _ => tell (ToldCommand m) s
  | AReply r =>
      match requestMap s !! u32 (correlationId r) with
      | Some f => complete f r (remove_request (correlationId r) s)
      | None =>
          match body r with
          | Error (Some _) => tell (ToldCommand m) (match priorError s with None => set_prior (Some IOException) s | Some _ => s end)
          | _ => s
          end
      end
  end.

(** ** Histories *)

Record World : Type := mkWorld { correlator : Correlator; threads : list Thread }.
Definition World_new : World := mkWorld Correlator_new [].

Inductive event : Type :=
  | Calls (c : Call)
  | Steps (i : nat) (outcome : option exn) (timeup : bool)
  | Receives (m : Incoming)
  | Excepts (e : exn)
  | Closes
  | Starts.

Definition step (ev : event) (w : World) : option World :=
  match ev with
  | Calls c => Some (mkWorld (correlator w) (threads w ++ [Entering c]))
  | Steps i outcome timeup =>
      match threads w !! i with
      | Some t => match advance outcome timeup t (correlator w) with Some (t', s) => Some (mkWorld s (<[i := t']> (threads w))) | None => None end
      | None => None
      end
  | Receives m => Some (mkWorld (onCommand m (correlator w)) (threads w))
  | Excepts e => Some (mkWorld (correlator w) (threads w ++ [Failing e true]))
  | Closes => Some (mkWorld (correlator w) (threads w ++ [Stopping]))
  | Starts => Some (mkWorld (if closed (correlator w) then correlator w else set_filter true false (correlator w)) (threads w))
  end.

(** The histories of events that [ok] allows, the last one first, and where they lead. *)
Inductive reached (ok : World -> event -> Prop) : list event -> World -> Prop :=
  | reached_new : reached ok [] World_new
  | reached_step evs w ev w' : reached ok evs w -> ok w ev -> step ev w = Some w' -> reached ok (ev :: evs) w'.

Fixpoint run (evs : list event) (w : World) : option World :=
  match evs with [] => Some w | ev :: evs' => match step ev w with Some w' => run evs' w' | None => None end end.

(** What the events of a history may be: fewer calls than there are ids, and ids that are ints. *)
Definition sane (w : World) (ev : event) : Prop :=
  Z.of_nat (length (threads w)) < 2 ^ 32 /\ match ev with Receives (AReply r) => in_s 32 (correlationId r) | _ => True end.

(** An error of the broker that answers nothing. *)
Definition stray (s : Correlator) (m : Incoming) : bool :=
  match m with
  | AReply (mkReply id (Error (Some _))) => match requestMap s !! u32 id with Some _ => false | None => true end
  | _ => false
  end.
Definition no_stray (w : World) (ev : event) : Prop := sane w ev /\ match ev with Receives m => stray (correlator w) m = false | _ => True end.
