(* ===== verification/CorrelatorTheorems.v ===== *)
(** * What the response correlator promises: a reply goes to the request with its id, and no
    request waits when the connection is gone, unless an error came that answers nothing. *)
From stdpp Require Import gmap.
From S2P Require Import Prelude ResponseCorrelator.

(** ** Who has what *)

Definition thread_id (t : Thread) : option Z :=
  match t with
  | Numbered _ id | Refused id _ | SendingOneway id | Sending _ id _ | Waiting _ id _ | Leaving id _ _ | Ended (Some id) _ => Some id
  | _ => None
  end.

(** Its request has been put into the map. *)
Definition asked (t : Thread) : option Z := match t with Numbered _ _ => None | _ => thread_id t end.

(** The future that a request looks at, with the id of its command. *)
Definition claim (t : Thread) : option (Z * nat) :=
  match t with
  | Sending _ id f | Waiting _ id f | Leaving id f _ | Ended (Some id) (Future f) => Some (id, f)
  | _ => None
  end.
Definition refused_of (t : Thread) : option nat := match t with Refused _ f => Some f | _ => None end.
Definition owns (t : Thread) : option nat := match refused_of t with Some f => Some f | None => snd <$> claim t end.
Definition pending_of (t : Thread) : list (Z * nat) := match t with Disposing l _ _ => l | _ => [] end.

(** The requests that have no answer: those in the map, and those that were taken out of it. *)
Definition outstanding (s : Correlator) (ts : list Thread) : list (Z * nat) := map_to_list (requestMap s) ++ (ts ≫= pending_of).
Definition open_futures (s : Correlator) (ts : list Thread) : list nat := (outstanding s ts).*2 ++ omap refused_of ts.

Definition unanswered (x : FutureResponse) : Prop := response x = None /\ responseLatch x = 1 /\ completed x = [].
Definition answered (x : FutureResponse) : Prop :=
  exists r, response x = Some r /\ responseLatch x = 0 /\ completed x = if responseCallback x then [r] else [].

(** What a thread ends with is what its future holds. *)
Definition result_ok (fs : list FutureResponse) (t : Thread) : Prop :=
  match t with
  | Leaving id f (Answer r) => exists x, fs !! f = Some x /\ response x = Some r
  | Leaving _ _ (Thrown _) => True
  | Leaving _ _ _ => False
  | Ended (Some id) (Answer r) => correlationId r = id
  | Ended None (Answer _ | Future _) => False
  | _ => True
  end.

Record inv (s : Correlator) (ts : list Thread) : Prop := {
  i_ids : exists n : nat, (n <= length (omap thread_id ts))%nat /\ nextCommandId s = s32 (1 + Z.of_nat n) /\
    Forall (fun id => exists k : nat, (k < n)%nat /\ id = s32 (1 + Z.of_nat k)) (omap thread_id ts);
  i_distinct : base.NoDup (map (wrapu 32) (omap thread_id ts));
  i_futures : Forall (fun x => unanswered x \/ answered x) (futures s);
  i_owner : base.NoDup (omap owns ts);
  i_owned : Forall (fun f => (f < length (futures s))%nat) (omap owns ts);
  i_open : base.NoDup (open_futures s ts);
  i_unanswered : Forall (fun f => exists x, futures s !! f = Some x /\ unanswered x) (open_futures s ts);
  i_reply : Forall (fun c => forall x r, futures s !! c.2 = Some x -> response x = Some r -> correlationId r = c.1) (omap claim ts);
  i_key : Forall (fun c => forall k, (k, c.2) ∈ outstanding s ts -> k = u32 c.1) (omap claim ts);
  i_keys : Forall (fun e => exists id, id ∈ omap asked ts /\ e.1 = u32 id) (outstanding s ts);
  i_served : Forall (fun c => (exists x, futures s !! c.2 = Some x /\ answered x) \/ (u32 c.1, c.2) ∈ outstanding s ts) (omap claim ts);
  i_results : Forall (result_ok (futures s)) ts;
}.

#[export] Instance outstanding_perm s : Proper ((≡ₚ) ==> (≡ₚ)) (outstanding s).
Proof. intros l l' H. unfold outstanding. by rewrite H. Qed.
#[export] Instance open_futures_perm s : Proper ((≡ₚ) ==> (≡ₚ)) (open_futures s).
Proof. intros l l' H. unfold open_futures. by rewrite H. Qed.

Lemma inv_perm s l l' : l ≡ₚ l' -> inv s l -> inv s l'.
Proof.
  intros H [(n & H1 & H2 & H3) ? ? ? ? ? ? ? Hk Hks Hs ?]. split; try (by rewrite <- H); try done.
  - exists n. by rewrite <- H.
  - rewrite <- H. eapply Forall_impl; [|exact Hk]. intros c Hc k. by rewrite <- H; auto.
  - rewrite <- H. eapply Forall_impl; [|exact Hks]. intros e (id & Hid & E). exists id. by rewrite <- H.
  - rewrite <- H. eapply Forall_impl; [|exact Hs]. intros c [?|?]; [by left|right]. by rewrite <- H.
Qed.

(** The thread that takes a step may be thought of as the first one. *)
Lemma inv_at s ts i t s' t' : ts !! i = Some t -> inv s ts -> (forall rest, (length rest < length ts)%nat -> inv s (t :: rest) -> inv s' (t' :: rest)) -> inv s' (<[i := t']> ts).
Proof.
  intros Hi Hinv H. rewrite <- (take_drop_middle _ _ _ Hi) in Hinv. pose proof (lookup_lt_Some _ _ _ Hi) as Hlt.
  rewrite insert_take_drop by done. eapply inv_perm; [apply Permutation_middle|]. apply H.
  - pose proof (f_equal length (take_drop_middle _ _ _ Hi)) as E. rewrite length_app in *. cbn in E. lia.
  - eapply inv_perm; [symmetry; apply Permutation_middle|]. done.
Qed.

(** ** Steps that no request sees *)

Lemma inv_same s s' ts : nextCommandId s' = nextCommandId s -> requestMap s' = requestMap s -> futures s' = futures s -> inv s ts -> inv s' ts.
Proof.
  intros H1 H2 H3 []. assert (outstanding s' ts = outstanding s ts) as E by (unfold outstanding; by rewrite H2).
  split; unfold open_futures in *; rewrite ?E, ?H1, ?H3; done.
Qed.

Lemma inv_new s ts t : thread_id t = None -> owns t = None -> pending_of t = [] -> result_ok (futures s) t -> inv s ts -> inv s (t :: ts).
Proof.
  intros Ht Ho Hp Hr []. assert (refused_of t = None /\ claim t = None) as [Hf Hc] by (unfold owns in Ho; destruct (refused_of t), (claim t); done).
  assert (asked t = None) as Ha by (unfold asked; by destruct t).
  assert (outstanding s (t :: ts) = outstanding s ts) as E by (unfold outstanding; cbn; by rewrite Hp).
  split; unfold open_futures in *; cbn [omap list_omap]; rewrite ?E, ?Ht, ?Ho, ?Hf, ?Hc, ?Ha; try done. by constructor.
Qed.

Lemma inv_quiet s t t' rest : thread_id t' = thread_id t -> asked t' = asked t \/ asked t = None -> refused_of t = None -> refused_of t' = None -> pending_of t = [] -> pending_of t' = [] ->
  claim t' = claim t \/ claim t' = None -> result_ok (futures s) t' -> inv s (t :: rest) -> inv s (t' :: rest).
Proof.
  intros Ht Ha Hf Hf' Hp Hp' Hc Hr []. assert (outstanding s (t' :: rest) = outstanding s (t :: rest)) as E by (unfold outstanding; cbn; by rewrite Hp, Hp').
  assert (open_futures s (t' :: rest) = open_futures s (t :: rest)) as E' by (unfold open_futures; rewrite E; cbn; by rewrite Hf, Hf').
  apply List.Forall_cons_iff in i_results0 as [_ Hrs]. split; rewrite ?E, ?E'; try done; try by constructor.
  1,2: cbn in *; by rewrite Ht.
  all: lazymatch goal with |- context [asked] => cbn in *; destruct Ha as [->|Ha]; [done|]; rewrite Ha in i_keys0; eapply Forall_impl; [|exact i_keys0];
    intros e (id & Hid & He); exists id; (split; [|done]); destruct (asked t'); [by right|done] | _ => idtac end.
  all: cbn in *; unfold owns in *; rewrite ?Hf, ?Hf' in *; destruct Hc as [Hc|Hc]; rewrite Hc; try done; destruct (claim t); cbn in *; try done.
  - by apply list.NoDup_cons in i_owner0 as [_ ?].
  - by apply List.Forall_cons_iff in i_owned0 as [_ ?].
  - by apply List.Forall_cons_iff in i_reply0 as [_ ?].
  - by apply List.Forall_cons_iff in i_key0 as [_ ?].
  - by apply List.Forall_cons_iff in i_served0 as [_ ?].
Qed.

(** *** An id of its own *)

Lemma length_omap_le {A B} (g : A -> option B) l : (length (omap g l) <= length l)%nat.
Proof. induction l as [|x l IH]; [done|]. cbn. destruct (g x); cbn in *; lia. Qed.

Lemma wraps_succ z : s32 (s32 z + 1) = s32 (z + 1).
Proof. unfold wraps. change (2 ^ 32) with 4294967296. change (2 ^ (32 - 1)) with 2147483648. Z.to_euclidean_division_equations. lia. Qed.

Lemma wrapped_apart k n : (k < n)%nat -> Z.of_nat n < 2 ^ 32 -> u32 (s32 (1 + Z.of_nat n)) <> u32 (s32 (1 + Z.of_nat k)).
Proof. intros H Hn. rewrite !wrapu_wraps by lia. unfold wrapu. intros E. Z.to_euclidean_division_equations. lia. Qed.

Lemma inv_take_id s t t' rest : Z.of_nat (length rest) < 2 ^ 32 -> thread_id t = None -> owns t = None -> pending_of t = [] ->
  thread_id t' = Some (nextCommandId s) -> asked t' = None \/ asked t' = thread_id t' -> owns t' = None -> pending_of t' = [] -> result_ok (futures s) t' -> inv s (t :: rest) ->
  inv (set_next (s32 (nextCommandId s + 1)) s) (t' :: rest).
Proof.
  intros Hlen Ht Ho Hp Ht' Ha Ho' Hp' Hr [(n & H1 & H2 & H3)]. assert (forall t, owns t = None -> refused_of t = None /\ claim t = None) as Hno by (intros x Hx; unfold owns in Hx; destruct (refused_of x), (claim x); done).
  destruct (Hno t Ho) as [Hf Hc], (Hno t' Ho') as [Hf' Hc']. set (s' := set_next _ s). assert (outstanding s' (t' :: rest) = outstanding s (t :: rest)) as E by (unfold outstanding; cbn; by rewrite Hp, Hp').
  assert (asked t = None) as Ha0 by (unfold asked; by destruct t). cbn [omap list_omap] in *. rewrite Ht in *.
  assert (Z.of_nat n < 2 ^ 32) as Hn by (pose proof (length_omap_le thread_id rest); lia).
  split; unfold open_futures in *; rewrite ?E; cbn [omap list_omap] in *; rewrite ?Hc, ?Hc', ?Hf, ?Hf', ?Ho, ?Ho', ?Ht', ?Ha0 in *; try done.
  - exists (S n). split; [cbn; lia|]. split; [cbn [nextCommandId set_next s']; rewrite H2, wraps_succ; f_equal; lia|]. constructor; [exists n; split; [lia|done]|].
    eapply Forall_impl; [|exact H3]. intros id (k & Hk & ->). exists k. split; [lia|done].
  - cbn [map]. apply list.NoDup_cons. split; [|done]. intros Hin. apply list_elem_of_fmap in Hin as (id & Eid & Hin). rewrite List.Forall_forall in H3.
    apply list_elem_of_In in Hin. destruct (H3 _ Hin) as (k & Hk & ->). rewrite H2 in Eid. by eapply wrapped_apart.
  - destruct Ha as [Ha|Ha]; rewrite Ha; [done|]. rewrite ?Ht'. eapply Forall_impl; [|done]. intros e (id & Hid & He). exists id. split; [by right|done].
  - apply List.Forall_cons_iff in i_results0 as [_ ?]. by constructor.
Qed.

(** *** A future of its own *)

Lemma claimed_owned (ts : list Thread) id f : (id, f) ∈ omap claim ts -> f ∈ omap owns ts.
Proof. intros (t & Ht & Hc)%list_elem_of_omap. apply list_elem_of_omap. exists t. split; [done|]. unfold owns. rewrite Hc. by destruct t. Qed.

Lemma inv_extend s ts x : unanswered x -> inv s ts -> inv (set_futures (futures s ++ [x]) s) ts.
Proof.
  intros Hx []. split; try done; cbn [futures set_futures] in *.
  - apply List.Forall_app. split; [done|]. constructor; [by left|constructor].
  - eapply Forall_impl; [|exact i_owned0]. intros f Hf. rewrite length_app. cbn in *. lia.
  - eapply Forall_impl; [|exact i_unanswered0]. intros f (y & Hy & Hu). exists y. split; [by apply lookup_app_l_Some|done].
  - apply List.Forall_forall. intros [id f] Hin y r Hy. rewrite List.Forall_forall in i_reply0. apply (i_reply0 _ Hin). rewrite lookup_app_l in Hy; [done|].
    rewrite List.Forall_forall in i_owned0. apply i_owned0. apply list_elem_of_In in Hin. apply list_elem_of_In. by eapply claimed_owned.
  - eapply Forall_impl; [|exact i_served0]. intros c [(y & Hy & Ha)|?]; [left|by right]. exists y. split; [by apply lookup_app_l_Some|done].
  - eapply Forall_impl; [|exact i_results0]. intros t. destruct t as [| | | | | | |? ? []| | | | |[] []]; cbn; try done. intros (y & Hy & Hr). exists y. split; [by apply lookup_app_l_Some|done].
Qed.

Lemma open_lt s ts : inv s ts -> Forall (fun f => (f < length (futures s))%nat) (open_futures s ts).
Proof. intros []. eapply Forall_impl; [|exact i_unanswered0]. intros f (x & Hx & _). by eapply lookup_lt_Some. Qed.

Lemma inv_refused s rest k id f x : inv s (Numbered k id :: rest) -> f ∉ omap owns rest -> f ∉ open_futures s rest -> futures s !! f = Some x -> unanswered x -> inv s (Refused id f :: rest).
Proof.
  intros [] Ho Hopen Hx Hu. assert (outstanding s (Refused id f :: rest) = outstanding s (Numbered k id :: rest)) as E by done. assert (open_futures s (Refused id f :: rest) ≡ₚ f :: open_futures s rest) as E' by (unfold open_futures; cbn [omap list_omap refused_of]; symmetry; apply Permutation_middle).
  split; rewrite ?E, ?E'; try done.
  - by apply list.NoDup_cons.
  - constructor; [|done]. by eapply lookup_lt_Some.
  - by apply list.NoDup_cons.
  - constructor; [by exists x|done].
  - eapply Forall_impl; [|exact i_keys0]. intros e (id' & Hid & He). exists id'. split; [by right|done].
  - by apply List.Forall_cons_iff in i_results0 as [_ ?]; constructor.
Qed.

Lemma inv_sending s rest k id f x : inv s (Numbered k id :: rest) -> f ∉ omap owns rest -> f ∉ open_futures s rest -> futures s !! f = Some x -> unanswered x ->
  inv (set_map (<[u32 id := f]> (requestMap s)) s) (Sending k id f :: rest).
Proof.
  intros [] Ho Hopen Hx Hu. set (s' := set_map _ s).
  assert (requestMap s !! u32 id = None) as Hnone.
  { destruct (requestMap s !! u32 id) as [f'|] eqn:E; [|done]. rewrite List.Forall_forall in i_keys0. destruct (i_keys0 (u32 id, f')) as (id' & Hid & He).
    - apply list_elem_of_In. unfold outstanding. apply elem_of_app. left. by apply elem_of_map_to_list.
    - cbn in *. apply list.NoDup_cons in i_distinct0 as [Hn _]. exfalso. apply Hn. rewrite He. apply list_elem_of_fmap_2. apply list_elem_of_omap in Hid as (t & Ht & Ha).
      apply list_elem_of_omap. exists t. split; [done|]. by destruct t. }
  assert (outstanding s' (Sending k id f :: rest) ≡ₚ (u32 id, f) :: outstanding s rest) as E by (unfold outstanding; cbn; by rewrite map_to_list_insert).
  assert (open_futures s' (Sending k id f :: rest) ≡ₚ f :: open_futures s rest) as E' by (unfold open_futures; rewrite E; done).
  assert (outstanding s (Numbered k id :: rest) = outstanding s rest) as E0 by done. assert (open_futures s (Numbered k id :: rest) = open_futures s rest) as E0' by done.
  rewrite E0, ?E0' in *. split; rewrite ?E'; try done.
  - by apply list.NoDup_cons.
  - constructor; [|done]. by eapply lookup_lt_Some.
  - by apply list.NoDup_cons.
  - constructor; [by exists x|done].
  - constructor; [|done]. intros y r Hy. cbn in Hy. rewrite Hx in Hy. injection Hy as <-. destruct Hu as (Hu & _). by rewrite Hu.
  - constructor.
    + intros k' Hk. rewrite E in Hk. apply elem_of_cons in Hk as [[= ->]|Hk]; [done|]. exfalso. apply Hopen. unfold open_futures. apply elem_of_app. left. by apply (list_elem_of_fmap_2 snd) in Hk.
    + apply List.Forall_forall. intros c Hc k' Hk. rewrite E in Hk. rewrite List.Forall_forall in i_key0. apply elem_of_cons in Hk as [[= -> Ef]|Hk]; [|by apply (i_key0 _ Hc)].
      exfalso. apply Ho. apply list_elem_of_In in Hc. destruct c as [id' f']. cbn in Ef. rewrite <- Ef. by eapply claimed_owned.
  - rewrite E. constructor; [exists id; split; [left|done]|]. eapply Forall_impl; [|exact i_keys0]. intros e (id' & Hid & He). exists id'. split; [by right|done].
  - constructor; [right; rewrite E; left|]. eapply Forall_impl; [|exact i_served0]. intros c [?|?]; [by left|right; rewrite E; by right].
  - by apply List.Forall_cons_iff in i_results0 as [_ ?]; constructor.
Qed.

Lemma fresh_lt {A} (l : list A) js : Forall (fun f => (f < length l)%nat) js -> length l ∉ js.
Proof. intros H Hin. rewrite List.Forall_forall in H. apply list_elem_of_In in Hin. specialize (H _ Hin). cbn in H. lia. Qed.

Lemma inv_put k id s rest : inv s (Numbered k id :: rest) -> inv (put_request k id s).2 ((put_request k id s).1 :: rest).
Proof.
  intros H. unfold put_request. set (x := FutureResponse_new _). assert (unanswered x) as Hu by done. pose proof (fresh_lt _ _ (i_owned _ _ H)) as Ho. pose proof (fresh_lt _ _ (open_lt _ _ H)) as Hopen.
  pose proof (inv_extend _ _ _ Hu H) as H'. set (s1 := set_futures _ s) in *. assert (futures s1 !! length (futures s) = Some x) as Hx by (cbn; rewrite lookup_app_r, Nat.sub_diag; done).
  destruct (priorError s) eqn:Ep; cbn [priorError set_futures s1]; rewrite ?Ep; [destruct k|].
  - eapply inv_quiet; [..|exact H']; try done; first [by left|by right].
  - by eapply inv_refused.
  - by eapply inv_sending.
Qed.

(** *** A future gets its answer *)

Lemma setResponse_answers r x : unanswered x -> answered (setResponse r x) /\ response (setResponse r x) = Some r.
Proof. intros (H1 & H2 & H3). split; [|done]. exists r. unfold setResponse. cbn. rewrite H2, H3. by destruct (responseCallback x). Qed.

Lemma alter_other {A} (g : A -> A) f i (l : list A) : i <> f -> alter g f l !! i = l !! i.
Proof. intros H. by rewrite list_lookup_alter_ne. Qed.

Lemma inv_complete s ts s' ts' f r : inv s ts -> futures s' = alter (setResponse r) f (futures s) -> nextCommandId s' = nextCommandId s ->
  omap thread_id ts' = omap thread_id ts -> omap asked ts' = omap asked ts -> omap claim ts' = omap claim ts -> sublist (omap owns ts') (omap owns ts) ->
  open_futures s ts ≡ₚ f :: open_futures s' ts' -> (forall e, e ∈ outstanding s' ts' -> e ∈ outstanding s ts) -> (forall e, e ∈ outstanding s ts -> e.2 <> f -> e ∈ outstanding s' ts') ->
  (forall id, (id, f) ∈ omap claim ts -> correlationId r = id) -> Forall (result_ok (futures s)) ts' -> inv s' ts'.
Proof.
  intros [] Ef En Et Ea Ec Eo Hopen Hless Hmore Hr Hres. rewrite Hopen in i_open0, i_unanswered0. apply list.NoDup_cons in i_open0 as [Hfresh Hnd]. apply List.Forall_cons_iff in i_unanswered0 as [(x & Hx & Hu) Hun].
  destruct (setResponse_answers r x Hu) as [Hans Hresp]. assert (alter (setResponse r) f (futures s) !! f = Some (setResponse r x)) as Hxf by (by rewrite list_lookup_alter_eq, Hx).
  split; rewrite ?Ef, ?En, ?Et, ?Ea, ?Ec; try done.
  - apply Forall_alter; [done|]. intros y Hy _. right. rewrite Hx in Hy. by injection Hy as <-.
  - by eapply sublist_NoDup; [exact i_owner0|].
  - rewrite length_alter. apply List.Forall_forall. intros g Hg. rewrite List.Forall_forall in i_owned0. apply i_owned0. apply list_elem_of_In. apply list_elem_of_In in Hg. eapply elem_of_submseteq; [exact Hg|by apply sublist_submseteq].
  - apply List.Forall_forall. intros g Hg. rewrite List.Forall_forall in Hun. destruct (Hun g Hg) as (y & Hy & Huy). exists y. split; [|done]. rewrite alter_other; [done|]. intros ->. by apply Hfresh, list_elem_of_In.
  - apply List.Forall_forall. intros [id g] Hin y r0 Hy Hy0. cbn in *. destruct (decide (g = f)) as [->|Hne].
    + rewrite Hxf in Hy. injection Hy as <-. cbn in Hy0. injection Hy0 as <-. apply Hr. by apply list_elem_of_In.
    + rewrite alter_other in Hy by done. rewrite List.Forall_forall in i_reply0. by apply (i_reply0 _ Hin _ _ Hy).
  - eapply Forall_impl; [|exact i_key0]. intros c Hc k Hk. by apply Hc, Hless.
  - apply List.Forall_forall. intros e He. rewrite List.Forall_forall in i_keys0. apply i_keys0. apply list_elem_of_In. apply Hless. by apply list_elem_of_In.
  - eapply Forall_impl; [|exact i_served0]. intros [id g] Hc. cbn in *. destruct (decide (g = f)) as [->|Hne]; [left; by eexists|].
    destruct Hc as [(y & Hy & Hya)|Hc]; [left; exists y; by rewrite alter_other|right; by apply Hmore].
  - eapply Forall_impl; [|exact Hres]. intros t. destruct t as [| | | | | | |? g []| | | | |[] []]; cbn; try done. intros (y & Hy & Hyr). exists y. split; [|done]. rewrite alter_other; [done|].
    intros ->. rewrite Hx in Hy. injection Hy as <-. destruct Hu as (Hu & _). by rewrite Hu in Hyr.
Qed.

Lemma key_id id id' : in_s 32 id -> in_s 32 id' -> u32 id = u32 id' -> id = id'.
Proof. intros H H' E. rewrite <- (wraps_id 32 id), <- (wraps_id 32 id') by (done || lia). rewrite <- (wraps_wrapu 32 id), <- (wraps_wrapu 32 id') by lia. by rewrite E. Qed.

Lemma ids_range s ts : inv s ts -> Forall (in_s 32) (omap thread_id ts).
Proof. intros [(n & _ & _ & H)]. eapply Forall_impl; [|exact H]. intros id (k & _ & ->). by apply wraps_range. Qed.

Lemma claimed_id (ts : list Thread) id f : (id, f) ∈ omap claim ts -> id ∈ omap thread_id ts.
Proof. intros (t & Ht & Hc)%list_elem_of_omap. apply list_elem_of_omap. exists t. split; [done|]. by destruct t as [| | | | | | | | | | | |[] []]; simplify_eq/=. Qed.

Lemma claim_range s ts id f : inv s ts -> (id, f) ∈ omap claim ts -> in_s 32 id.
Proof. intros H Hc%claimed_id. pose proof (ids_range _ _ H) as Hr. rewrite List.Forall_forall in Hr. by apply Hr, list_elem_of_In. Qed.

(** Where the future is open, the request with the key has the id. *)
Lemma outstanding_open s ts k f : (k, f) ∈ outstanding s ts -> f ∈ open_futures s ts.
Proof. intros H. unfold open_futures. apply elem_of_app. left. by apply (list_elem_of_fmap_2 snd) in H. Qed.

Lemma inv_receive s ts m : match m with AReply r => in_s 32 (correlationId r) | Information _ => True end -> inv s ts -> inv (onCommand m s) ts.
Proof.
  intros Hm H. assert (forall s x, inv s ts -> inv (tell x s) ts) as Htell by (intros s0 x H0; unfold tell; destruct (_ || _); [done|by eapply inv_same; [..|exact H0]]).
  destruct m as [tag|r]; [by apply Htell|]. cbn [onCommand]. destruct (requestMap s !! u32 (correlationId r)) as [f|] eqn:Ek.
  2: { destruct (body r) as [|[]]; try done. apply Htell. destruct (priorError s); [done|]. by eapply inv_same; [..|exact H]. }
  assert (map_to_list (requestMap s) ≡ₚ (u32 (correlationId r), f) :: map_to_list (delete (u32 (correlationId r)) (requestMap s))) as E by (by rewrite map_to_list_delete).
  assert (outstanding s ts ≡ₚ (u32 (correlationId r), f) :: outstanding (remove_request (correlationId r) s) ts) as Eout by (unfold outstanding; cbn; by rewrite E).
  assert ((u32 (correlationId r), f) ∈ outstanding s ts) as Hin by (rewrite Eout; left).
  eapply (inv_complete s ts _ ts f r); try done.
  - unfold open_futures. by rewrite Eout.
  - intros e He. rewrite Eout. by right.
  - intros e He Hne. rewrite Eout in He. apply elem_of_cons in He as [->|He]; [done|exact He].
  - intros id Hc. pose proof (i_key _ _ H) as Hkey. rewrite List.Forall_forall in Hkey. pose proof Hc as Hc'. apply list_elem_of_In in Hc'. specialize (Hkey _ Hc' _ Hin). cbn in Hkey.
    apply key_id; [done|by eapply claim_range|done].
  - apply H.
Qed.

(** *** A request leaves, a map is emptied *)

Lemma inv_leave id f r s rest : inv s (Leaving id f r :: rest) -> inv (remove_request id s) (Ended (Some id) r :: rest).
Proof.
  intros H. pose proof H as []. set (s' := remove_request id s). set (out := outstanding s (Leaving id f r :: rest)) in *.
  assert (exists l, out ≡ₚ l ++ outstanding s' (Ended (Some id) r :: rest) /\ forall e, e ∈ l -> e.1 = u32 id) as (l & E & Hl).
  { unfold out, outstanding. cbn. destruct (requestMap s !! u32 id) as [f'|] eqn:Ek; [exists [(u32 id, f')]|exists []].
    - split; [by rewrite <- (map_to_list_delete _ _ _ Ek)|]. by intros e ->%list_elem_of_singleton.
    - split; [by rewrite delete_id|]. by intros e ?%elem_of_nil. }
  assert (forall e, e ∈ outstanding s' (Ended (Some id) r :: rest) -> e ∈ out) as Hless by (intros e He; rewrite E; apply elem_of_app; by right).
  assert (open_futures s (Leaving id f r :: rest) ≡ₚ l.*2 ++ open_futures s' (Ended (Some id) r :: rest)) as Eo by (unfold open_futures; fold out; by rewrite E, fmap_app, <- app_assoc).
  rewrite Eo in i_open0, i_unanswered0. apply list.NoDup_app in i_open0 as (_ & _ & Hnd). apply List.Forall_app in i_unanswered0 as [_ Hun].
  assert (result_ok (futures s) (Ended (Some id) r)) as Hres.
  { apply List.Forall_cons_iff in i_results0 as [Hr _], i_reply0 as [Hrep _]. destruct r as [|r| |]; cbn in *; try done. destruct Hr as (x & Hx & Hxr). by eapply Hrep. }
  assert (claim (Ended (Some id) r) = None) as Hc by (apply List.Forall_cons_iff in i_results0 as [Hr _]; by destruct r). cbn [omap list_omap] in *. cbn in i_owner0, i_owned0.
  split; cbn [omap list_omap]; unfold owns; cbn [refused_of]; rewrite ?Hc; try done.
  - by apply list.NoDup_cons in i_owner0 as [_ ?].
  - by apply List.Forall_cons_iff in i_owned0 as [_ ?].
  - by apply List.Forall_cons_iff in i_reply0 as [_ ?].
  - apply List.Forall_cons_iff in i_key0 as [_ Hk]. eapply Forall_impl; [|exact Hk]. intros c Hkc k Hin. by apply Hkc, Hless.
  - apply List.Forall_forall. intros e He. rewrite List.Forall_forall in i_keys0. apply i_keys0, list_elem_of_In, Hless. by apply list_elem_of_In.
  - apply List.Forall_cons_iff in i_served0 as [_ Hs]. apply List.Forall_forall. intros [id' g] Hin. rewrite List.Forall_forall in Hs. destruct (Hs _ Hin) as [?|Ho]; [by left|right].
    fold out in Ho. rewrite E in Ho. apply elem_of_app in Ho as [Ho|?]; [|done]. apply Hl in Ho. cbn in Ho. exfalso. cbn in i_distinct0. apply list.NoDup_cons in i_distinct0 as [Hn _]. apply Hn.
    rewrite <- Ho. apply list_elem_of_fmap_2. apply list_elem_of_In in Hin. by eapply claimed_id.
  - apply List.Forall_cons_iff in i_results0 as [_ ?]. by constructor.
Qed.

Lemma inv_take e b s rest : inv s (Failing e b :: rest) -> inv (take_requests e s).2 (Disposing (take_requests e s).1 e b :: rest).
Proof.
  intros H. unfold take_requests. destruct (priorError s); cbn [fst snd].
  - eapply inv_quiet; [..|exact H]; try done; by left.
  - set (s' := set_map _ _). assert (outstanding s' (Disposing (map_to_list (requestMap s)) e b :: rest) = outstanding s (Failing e b :: rest)) as E by (unfold outstanding; cbn; by rewrite map_to_list_empty).
    assert (open_futures s' (Disposing (map_to_list (requestMap s)) e b :: rest) = open_futures s (Failing e b :: rest)) as E' by (unfold open_futures; by rewrite E).
    destruct H. split; rewrite ?E, ?E'; try done. apply List.Forall_cons_iff in i_results0 as [_ ?]. by constructor.
Qed.

Lemma inv_dispose k f l e b s rest : inv s (Disposing ((k, f) :: l) e b :: rest) -> inv (complete f (mkReply (s32 k) (Error (Some (Local e)))) s) (Disposing l e b :: rest).
Proof.
  intros H. set (s' := complete _ _ _). assert (outstanding s (Disposing ((k, f) :: l) e b :: rest) ≡ₚ (k, f) :: outstanding s' (Disposing l e b :: rest)) as E by (unfold outstanding; cbn; symmetry; apply Permutation_middle).
  assert ((k, f) ∈ outstanding s (Disposing ((k, f) :: l) e b :: rest)) as Hin by (rewrite E; left).
  eapply inv_complete; [exact H|done..| | | | |].
  - unfold open_futures. by rewrite E.
  - intros x Hx. rewrite E. by right.
  - intros x Hx Hne. rewrite E in Hx. by apply elem_of_cons in Hx as [->|?].
  - intros id Hc. pose proof (i_key _ _ H) as Hkey. rewrite List.Forall_forall in Hkey. pose proof Hc as Hc'. apply list_elem_of_In in Hc'. pose proof (Hkey _ Hc' k Hin) as Ek. cbn in Ek |- *.
    rewrite Ek, wraps_wrapu by lia. apply wraps_id; [lia|by eapply claim_range].
  - pose proof (i_results _ _ H) as Hr. apply List.Forall_cons_iff in Hr as [_ ?]. by constructor.
Qed.

Lemma inv_refuse id f r s rest : inv s (Refused id f :: rest) -> inv (complete f r s) (Ended (Some id) (Thrown IOException) :: rest).
Proof.
  intros H. eapply (inv_complete s (Refused id f :: rest) _ _ f r); [exact H|done..| | |done|done| |].
  - cbn. by apply sublist_cons.
  - unfold open_futures, outstanding. cbn. symmetry. apply Permutation_middle.
  - intros id' Hc. pose proof (i_owner _ _ H) as Ho. change (omap claim (Refused id f :: rest)) with (omap claim rest) in Hc. apply claimed_owned in Hc. by apply list.NoDup_cons in Ho as [? _].
  - pose proof (i_results _ _ H) as Hr. apply List.Forall_cons_iff in Hr as [_ ?]. by constructor.
Qed.

(** ** Every step keeps it *)

Lemma inv_advance o up t s t' s' rest : Z.of_nat (length rest) < 2 ^ 32 -> advance o up t s = Some (t', s') -> inv s (t :: rest) -> inv s' (t' :: rest).
Proof.
  intros Hlen E H. pose proof (fun t' => inv_quiet s t t' rest) as Hq. assert (forall x, tell x s = s \/ tell x s = add_told x s) as Ht by (intros x; unfold tell; destruct (_ || _); first [by left|by right]).
  destruct t as [c|c|k id|id f|id|k id f|timed id f|id f r| | |e b|[|[k f] l] e b|]; cbn [advance] in E.
  - injection E as <- <-. destruct (closed s); (eapply inv_quiet; [..|exact H]); first [done|by left].
  - injection E as <- <-. eapply inv_take_id; try exact H; try done; destruct c; try done; first [by left|by right].
  - injection E as E. pose proof (inv_put k id s rest H) as Hp. by rewrite E in Hp.
  - injection E as <- <-. by apply inv_refuse.
  - injection E as <- <-. eapply inv_same; [..|eapply Hq; [..|exact H]]; try done; try (by left); destruct o; first [done|by left].
  - injection E as <- <-. eapply inv_same; [..|eapply Hq; [..|exact H]]; try done; destruct o, k; try destruct (is_decaf _); first [done|by left|by right].
  - destruct o as [e|]; [injection E as <- <-; eapply Hq; [..|exact H]; first [done|by left]|]. destruct (futures s !! f) as [x|] eqn:Ex; [|done]. destruct (getResponse timed up x) as [a|] eqn:Ea; [|done]. injection E as <- <-. eapply Hq; [..|exact H]; try done; try (by left).
    unfold getResponse in Ea. case_match; [|done]. injection Ea as <-. destruct (response x) eqn:Er; [|done]. by exists x.
  - injection E as <- <-. by apply (inv_leave _ _ _ _ _ H).
  - injection E as <- <-. destruct (closed s); (eapply inv_same; [..|eapply Hq; [..|exact H]]); first [done|by left].
  - injection E as <- <-. destruct (closed s); (eapply inv_same; [..|eapply Hq; [..|exact H]]); first [done|by left].
  - pose proof (inv_take e b s rest H) as Hp. destruct (take_requests e s). by injection E as <- <-.
  - injection E as <- <-. destruct b; [destruct (Ht (ToldException e)) as [->| ->]|]; (eapply inv_same; [..|eapply Hq; [..|exact H]]); first [done|by left].
  - injection E as <- <-. by apply inv_dispose.
  - done.
Qed.

Lemma inv_step w ev w' : sane w ev -> step ev w = Some w' -> inv (correlator w) (threads w) -> inv (correlator w') (threads w').
Proof.
  intros [Hfew Hm] E H. assert (forall t, thread_id t = None -> owns t = None -> pending_of t = [] -> result_ok (futures (correlator w)) t -> inv (correlator w) (threads w ++ [t])) as Hnew.
  { intros t Ht Ho Hp Hr. eapply inv_perm; [apply Permutation_cons_append|]. by apply inv_new. }
  destruct ev as [c|i o up|m|e| |]; cbn [step] in E.
  - injection E as <-. by apply Hnew.
  - destruct (threads w !! i) as [t|] eqn:Ei; [|done]. destruct (advance o up t (correlator w)) as [[t' s']|] eqn:Ea; [|done]. injection E as <-.
    eapply inv_at; [exact Ei|exact H|]. intros rest Hl Hi. eapply inv_advance; [|exact Ea|exact Hi]. lia.
  - injection E as <-. by apply inv_receive.
  - injection E as <-. by apply Hnew.
  - injection E as <-. by apply Hnew.
  - injection E as <-. cbn. destruct (closed _); [done|]. by eapply inv_same; [..|exact H].
Qed.

Lemma inv_reached ok evs w : (forall w ev, ok w ev -> sane w ev) -> reached ok evs w -> inv (correlator w) (threads w).
Proof.
  intros Hok. induction 1 as [|evs w ev w' Hr IH He E]; [|by eapply inv_step; [apply Hok|..]].
  split; try done; try constructor. exists O. split; [done|]. split; [reflexivity|constructor].
Qed.

(** ** A reply goes where it belongs *)

(** Where a reply may come from: the broker, or an error that is the correlator's own. *)
Definition came (evs : list event) (r : Reply) : Prop := Receives (AReply r) ∈ evs \/ exists c, body r = Error (option_map Local c).
Definition result_came (evs : list event) (t : Thread) : Prop := match t with Leaving _ _ (Answer r) | Ended _ (Answer r) => came evs r | _ => True end.
Definition all_came (evs : list event) (w : World) : Prop :=
  Forall (fun x => forall r, response x = Some r -> came evs r) (futures (correlator w)) /\ Forall (result_came evs) (threads w).

Lemma came_more ev evs r : came evs r -> came (ev :: evs) r.
Proof. intros [?|?]; [left; by right|by right]. Qed.

Lemma all_came_more ev evs w : all_came evs w -> all_came (ev :: evs) w.
Proof.
  intros [Hf Ht]. split; [eapply Forall_impl; [|exact Hf]; intros x Hx r Hr; by apply came_more, Hx|eapply Forall_impl; [|exact Ht]].
  intros [| | | | | | |? ? []| | | | |? []]; cbn; try done; apply came_more.
Qed.

Lemma complete_came evs f r fs : came evs r -> Forall (fun x => forall r, response x = Some r -> came evs r) fs -> Forall (fun x => forall r, response x = Some r -> came evs r) (alter (setResponse r) f fs).
Proof. intros Hr H. apply Forall_alter; [done|]. intros x _ _ r' [= <-]. done. Qed.

Lemma advance_came evs o up t s t' s' : advance o up t s = Some (t', s') -> Forall (fun x => forall r, response x = Some r -> came evs r) (futures s) -> result_came evs t ->
  Forall (fun x => forall r, response x = Some r -> came evs r) (futures s') /\ result_came evs t'.
Proof.
  intros E Hf Ht. assert (forall x s, futures (tell x s) = futures s) as Htell by (intros x s0; unfold tell; by destruct (_ || _)).
  destruct t as [c|c|k id|id f|id|k id f|timed id f|id f r| | |e b|[|[k f] l] e b|]; cbn [advance] in E; try done.
  - injection E as <- <-. by destruct (closed s).
  - injection E as <- <-. by destruct c.
  - injection E as E. unfold put_request in E. assert (Forall (fun x => forall r, response x = Some r -> came evs r) (futures s ++ [FutureResponse_new (callback_of k)])) as Hf' by (apply List.Forall_app; split; [done|by repeat constructor]).
    cbn in E. destruct (priorError s); [destruct k|]; by injection E as <- <-.
  - injection E as <- <-. split; [|done]. apply complete_came; [|done]. right. by exists (priorError s).
  - injection E as <- <-. by destruct o.
  - injection E as <- <-. split; [done|]. destruct o, k; try done. by destruct (is_decaf _).
  - destruct o as [e|]; [injection E as <- <-; by split|]. destruct (futures s !! f) as [x|] eqn:Ex; [|done]. destruct (getResponse timed up x) as [a|] eqn:Ea; [|done]. injection E as <- <-. split; [done|].
    unfold getResponse in Ea. destruct (_ || _); [|done]. injection Ea as <-. destruct (response x) eqn:Er; [|done]. rewrite List.Forall_forall in Hf. apply (Hf x); [|done]. apply list_elem_of_In. by eapply list_elem_of_lookup_2.
  - injection E as <- <-. by destruct r.
  - injection E as <- <-. by destruct (closed s).
  - injection E as <- <-. by destruct (closed s).
  - unfold take_requests in E. destruct (priorError s); by injection E as <- <-.
  - injection E as <- <-. destruct b; [|done]. by rewrite Htell.
  - injection E as <- <-. split; [|done]. apply complete_came; [|done]. right. by exists (Some e).
Qed.

Lemma reached_came ok evs w : reached ok evs w -> all_came evs w.
Proof.
  induction 1 as [|evs w ev w' Hr IH He E]; [split; constructor|]. apply (all_came_more ev) in IH. destruct IH as [Hf Ht].
  assert (forall x s, futures (tell x s) = futures s) as Htell by (intros x s0; unfold tell; by destruct (_ || _)).
  destruct ev as [c|i o up|m|e| |]; cbn [step] in E; try (injection E as <-; split; [done|cbn; apply List.Forall_app; split; [done|by repeat constructor]]).
  - destruct (threads w !! i) as [t|] eqn:Ei; [|done]. destruct (advance o up t (correlator w)) as [[t' s']|] eqn:Ea; [|done]. injection E as <-.
    destruct (advance_came (Steps i o up :: evs) _ _ _ _ _ _ Ea Hf) as [Hf' Ht']; [rewrite List.Forall_forall in Ht; apply Ht; apply list_elem_of_In; by eapply list_elem_of_lookup_2|].
    split; [done|]. cbn. by apply Forall_insert.
  - injection E as <-. split; [|done]. cbn. destruct m as [tag|r]; cbn [onCommand]; [by rewrite Htell|]. destruct (requestMap (correlator w) !! u32 (correlationId r)).
    + apply complete_came; [left; left|done].
    + destruct (body r) as [|[]]; try done. rewrite Htell. by destruct (priorError _).
  - injection E as <-. split; [|done]. cbn. by destruct (closed _).
Qed.

Lemma reply_of_own ok evs w i id r : (forall w ev, ok w ev -> sane w ev) -> reached ok evs w -> threads w !! i = Some (Ended (Some id) (Answer r)) -> correlationId r = id /\ came evs r.
Proof.
  intros Hok Hr Hi. pose proof (i_results _ _ (inv_reached _ _ _ Hok Hr)) as H. destruct (reached_came _ _ _ Hr) as [_ Hc]. rewrite List.Forall_forall in H, Hc.
  assert (In (Ended (Some id) (Answer r)) (threads w)) as Hin by (apply list_elem_of_In; by eapply list_elem_of_lookup_2). split; [apply (H _ Hin)|apply (Hc _ Hin)].
Qed.

Lemma omap_once {A B} `{EqDecision B} (g : A -> option B) l i j x y b : base.NoDup (omap g l) -> l !! i = Some x -> l !! j = Some y -> g x = Some b -> g y = Some b -> i = j.
Proof.
  revert i j. induction l as [|z l IH]; intros i j Hnd Hi Hj Hx Hy; [done|]. cbn in Hnd.
  assert (forall k w, l !! k = Some w -> g w = Some b -> g z <> Some b) as Hout.
  { intros k w Hk Hw Hz. rewrite Hz in Hnd. apply list.NoDup_cons in Hnd as [Hn _]. apply Hn, list_elem_of_omap. exists w. split; [by eapply list_elem_of_lookup_2|done]. }
  destruct i as [|i], j as [|j]; cbn in Hi, Hj; simplify_eq; [done|by exfalso; eapply Hout|by exfalso; eapply Hout|]. f_equal. eapply IH; try done. destruct (g z); [by apply list.NoDup_cons in Hnd as [_ ?]|done].
Qed.

(** C15: however the threads of a connection interleave, a request that returns a reply returns
    one with the id of its command, which is no other command's; the reply came from the
    broker, or says that the connection is gone; and no future is completed twice. *)
Theorem replies_correlate evs w i id r : reached sane evs w -> threads w !! i = Some (Ended (Some id) (Answer r)) ->
  correlationId r = id /\ (Receives (AReply r) ∈ evs \/ exists c, body r = Error (option_map Local c)) /\
  (forall j t, threads w !! j = Some t -> thread_id t = Some id -> j = i) /\ Forall (fun x => (length (completed x) <= 1)%nat) (futures (correlator w)).
Proof.
  intros Hr Hi. destruct (reply_of_own _ _ _ _ _ _ (fun _ _ H => H) Hr Hi) as [Hid Hc]. pose proof (inv_reached _ _ _ (fun _ _ H => H) Hr) as Hinv. split_and!; try done.
  - intros j t Hj Ht. eapply (omap_once thread_id (threads w)); [apply (NoDup_fmap_1 (wrapu 32)), Hinv|exact Hj|exact Hi|exact Ht|done].
  - eapply Forall_impl; [|apply (i_futures _ _ Hinv)]. intros x [(_ & _ & ->)|(r' & _ & _ & ->)]; [cbn; lia|case_match; cbn; lia].
Qed.

(** ** Nobody waits for a connection that is gone *)

(** The map is empty after an error, if no error came that answers nothing. *)
Lemma clean_map evs w : reached no_stray evs w -> priorError (correlator w) <> None -> requestMap (correlator w) = ∅.
Proof.
  induction 1 as [|evs w ev w' Hr IH [_ He] E]; [done|]. assert (forall x s, requestMap (tell x s) = requestMap s /\ priorError (tell x s) = priorError s) as Htell by (intros x s0; unfold tell; by destruct (_ || _)).
  destruct ev as [c|i o up|m|e| |]; cbn [step] in E; try (injection E as <-; exact IH).
  - destruct (threads w !! i) as [t|]; [|done]. destruct (advance o up t (correlator w)) as [[t' s']|] eqn:Ea; [|done]. injection E as <-. cbn.
    destruct t as [c|c|k id|id f|id|k id f|timed id f|id f r| | |e b|[|[k f] l] e b|]; cbn [advance] in Ea; try done; try (injection Ea as <- <-; done).
    + injection Ea as Ea. unfold put_request in Ea. cbn in Ea. destruct (priorError (correlator w)) eqn:Ep; [destruct k; injection Ea as <- <-; by rewrite <- Ep in IH|]. injection Ea as <- <-. cbn. by rewrite Ep.
    + destruct o as [e|]; [by injection Ea as <- <-|]. destruct (futures (correlator w) !! f) as [x|]; [|done]. destruct (getResponse timed up x); [by injection Ea as <- <-|done].
    + injection Ea as <- <-. cbn. intros Hp. by rewrite IH, delete_empty.
    + injection Ea as <- <-. by destruct (closed _).
    + injection Ea as <- <-. by destruct (closed _).
    + unfold take_requests in Ea. destruct (priorError (correlator w)) eqn:Ep; injection Ea as <- <-; [by rewrite <- Ep in IH|done].
    + injection Ea as <- <-. destruct b; [|done]. by destruct (Htell (ToldException e) (correlator w)) as [-> ->].
  - injection E as <-. cbn. destruct m as [tag|r]; cbn [onCommand]; [by destruct (Htell (ToldCommand (Information tag)) (correlator w)) as [-> ->]|].
    destruct (requestMap (correlator w) !! u32 (correlationId r)) eqn:Ek; cbn; [intros Hp; rewrite IH in Ek by done; done|].
    destruct r as [id [|[|]]]; cbn in *; try done. by rewrite Ek in He.
  - injection E as <-. cbn. by destruct (closed _).
Qed.

Lemma waiting_answered s id timed f x : futures s !! f = Some x -> answered x ->
  exists r, response x = Some r /\ advance None false (Waiting timed id f) s = Some (Leaving id f (Answer r), s).
Proof. intros Hx (r & Hr & Hl & _). exists r. split; [done|]. cbn. rewrite Hx. unfold getResponse. by rewrite Hl, Hr. Qed.

(** C16: a request that waits is not forgotten, as long as no error came that answers nothing. While
    no error was kept and nobody clears up it has its answer, or is in the map, so that the reply
    with its id wakes it. When an error was kept and those who clear up are through it can
    return, with an answer of its own id: the reply that the broker sent, if one came, and
    otherwise an error made here. *)
Theorem requests_answered evs w i timed id f : reached no_stray evs w -> threads w !! i = Some (Waiting timed id f) ->
  (priorError (correlator w) = None -> (forall t, t ∈ threads w -> pending_of t = []) ->
     (exists x, futures (correlator w) !! f = Some x /\ answered x) \/
     forall b, exists s, onCommand (AReply (mkReply id b)) (correlator w) = s /\ advance None false (Waiting timed id f) s = Some (Leaving id f (Answer (mkReply id b)), s)) /\
  (priorError (correlator w) <> None -> (forall t, t ∈ threads w -> pending_of t = []) ->
     exists r, advance None false (Waiting timed id f) (correlator w) = Some (Leaving id f (Answer r), correlator w) /\ correlationId r = id /\
       (Receives (AReply r) ∈ evs \/ exists c, body r = Error (option_map Local c))).
Proof.
  intros Hr Hi. assert (inv (correlator w) (threads w)) as Hinv by (eapply inv_reached; [|exact Hr]; by intros ? ? []).
  assert ((id, f) ∈ omap claim (threads w)) as Hc by (apply list_elem_of_omap; exists (Waiting timed id f); split; [by eapply list_elem_of_lookup_2|done]).
  assert ((forall t, t ∈ threads w -> pending_of t = []) -> outstanding (correlator w) (threads w) = map_to_list (requestMap (correlator w))) as Hout.
  { intros Hp. unfold outstanding. assert (threads w ≫= pending_of = []) as ->; [|by rewrite app_nil_r]. revert Hp. generalize (threads w). induction l as [|t l IH]; intros Hp; [done|]. cbn. rewrite Hp by left. cbn. apply IH. intros t' Ht'. apply Hp. by right. }
  pose proof (i_served _ _ Hinv) as Hs. rewrite List.Forall_forall in Hs. apply list_elem_of_In in Hc as Hin. specialize (Hs _ Hin). cbn in Hs. split; intros Hp Hnone; rewrite Hout in Hs by done.
  - destruct Hs as [?|Hk]; [by left|right]. intros b. eexists. split; [reflexivity|]. apply elem_of_map_to_list in Hk. cbn [onCommand correlationId]. rewrite Hk.
    pose proof (i_unanswered _ _ Hinv) as Hu. rewrite List.Forall_forall in Hu. destruct (Hu f) as (x & Hx & Hxu).
    { apply list_elem_of_In, (outstanding_open _ _ (u32 id)). rewrite Hout by done. by apply elem_of_map_to_list. }
    destruct (setResponse_answers (mkReply id b) x Hxu) as [Ha _]. destruct (waiting_answered (complete f (mkReply id b) (remove_request id (correlator w))) id timed f (setResponse (mkReply id b) x)) as (r & Er & Ea); [cbn; by rewrite list_lookup_alter_eq, Hx|done|].
    rewrite Ea. cbn in Er. by injection Er as <-.
  - rewrite (clean_map _ _ Hr Hp), map_to_list_empty in Hs. destruct Hs as [(x & Hx & Ha)|Hs]; [|by apply elem_of_nil in Hs].
    destruct (waiting_answered _ id timed f x Hx Ha) as (r & Hr' & E). exists r. split; [exact E|]. pose proof (i_reply _ _ Hinv) as Hrep. rewrite List.Forall_forall in Hrep. split; [by apply (Hrep _ Hin x)|].
    destruct (reached_came _ _ _ Hr) as [Hf _]. rewrite List.Forall_forall in Hf. apply (Hf x); [|done]. apply list_elem_of_In. by eapply list_elem_of_lookup_2.
Qed.

(** ** Nothing is left in the map *)

Lemma claims_kept (ts : list Thread) i t t' c : ts !! i = Some t -> (claim t = Some c -> claim t' = Some c) -> c ∈ omap claim ts -> c ∈ omap claim (<[i := t']> ts).
Proof.
  intros Hi Hk (u & Hu & Hc)%list_elem_of_omap. apply list_elem_of_lookup in Hu as (j & Hj). apply list_elem_of_omap. destruct (decide (i = j)) as [->|Hne].
  - rewrite Hi in Hj. injection Hj as ->. exists t'. split; [|by apply Hk]. apply (list_elem_of_lookup_2 _ j). rewrite list_lookup_insert_eq; [done|]. by eapply lookup_lt_Some.
  - exists u. split; [|done]. apply (list_elem_of_lookup_2 _ j). by rewrite list_lookup_insert_ne.
Qed.

(** An asynchronous request that the transport below ended by an exception that is not of decaf. *)
Definition leaked (evs : list event) (ts : list Thread) (id : Z) : Prop :=
  exists i e up, Steps i (Some e) up ∈ evs /\ is_decaf e = false /\ ts !! i = Some (Ended (Some id) (Thrown (converted e))).
Definition held (evs : list event) (s : Correlator) (ts : list Thread) : Prop :=
  forall k f, requestMap s !! k = Some f -> exists id, k = u32 id /\ ((id, f) ∈ omap claim ts \/ leaked evs ts id).

Lemma leaked_kept evs ts i t t' id : ts !! i = Some t -> (forall r, t <> Ended (Some id) r) -> leaked evs ts id -> leaked evs (<[i := t']> ts) id.
Proof.
  intros Hi Hn (j & e & up & Hin & He & Hj). exists j, e, up. split; [done|]. split; [done|]. rewrite list_lookup_insert_ne; [done|]. intros ->. rewrite Hi in Hj. injection Hj as ->. by eapply Hn.
Qed.
Lemma leaked_more ev evs ts id : leaked evs ts id -> leaked (ev :: evs) ts id.
Proof. intros (j & e & up & Hin & H). exists j, e, up. split; [by right|done]. Qed.
Lemma leaked_app evs ts ts' id : leaked evs ts id -> leaked evs (ts ++ ts') id.
Proof. intros (j & e & up & Hin & He & Hj). exists j, e, up. split_and!; try done. by apply lookup_app_l_Some. Qed.

Lemma held_kept evs s s' ts i t t' : ts !! i = Some t -> (forall id r, t <> Ended id r) -> held evs s ts ->
  (forall k f, requestMap s' !! k = Some f -> requestMap s !! k = Some f /\ forall id, claim t = Some (id, f) -> k = u32 id -> claim t' = Some (id, f) \/ leaked evs (<[i := t']> ts) id) ->
  held evs s' (<[i := t']> ts).
Proof.
  intros Hi Hn H Hk k f Hf. destruct (Hk _ _ Hf) as [Hf0 Hc]. destruct (H _ _ Hf0) as (id & -> & [Hin|Hl]); exists id; (split; [done|]); [|right; by eapply leaked_kept].
  apply list_elem_of_omap in Hin as (u & Hu & Hcu). apply list_elem_of_lookup in Hu as (j & Hj). destruct (decide (i = j)) as [<-|Hne].
  - rewrite Hi in Hj. injection Hj as <-. destruct (Hc id Hcu eq_refl) as [Hc'|?]; [left|by right]. apply list_elem_of_omap. exists t'. split; [|done]. apply (list_elem_of_lookup_2 _ i), list_lookup_insert_eq. by eapply lookup_lt_Some.
  - left. apply list_elem_of_omap. exists u. split; [|done]. apply (list_elem_of_lookup_2 _ j). by rewrite list_lookup_insert_ne.
Qed.
(** Where the map and the claim are as they were. *)
Lemma held_same evs s s' ts i t t' : ts !! i = Some t -> (forall id r, t <> Ended id r) -> held evs s ts -> requestMap s' = requestMap s -> (forall c, claim t = Some c -> claim t' = Some c) -> held evs s' (<[i := t']> ts).
Proof. intros Hi Hn H Hm Hc. eapply held_kept; [exact Hi|exact Hn|exact H|]. intros k f Hk. rewrite Hm in Hk. split; [done|]. intros id Hcl _. left. by apply Hc. Qed.

Lemma held_advance evs o up t t' s s' ts i : ts !! i = Some t -> (forall e, o = Some e -> Steps i (Some e) up ∈ evs) -> advance o up t s = Some (t', s') -> held evs s ts -> held evs s' (<[i := t']> ts).
Proof.
  intros Hi Ho E H. assert (forall x s, requestMap (tell x s) = requestMap s) as Htell by (intros x s0; unfold tell; by destruct (_ || _)).
  assert (forall id r, t <> Ended id r) as Hn by (by intros id r ->). assert (i < length ts)%nat as Hlt by (by eapply lookup_lt_Some).
  destruct t as [c|c|k id|id f|id|k id f|timed id f|id f r| | |e b|[|[k f] l] e b|]; cbn [advance] in E; try done.
  - injection E as <- <-. by eapply held_same.
  - injection E as <- <-. by eapply held_same.
  - injection E as E. unfold put_request in E. cbn in E. destruct (priorError s); [destruct k; injection E as <- <-; by eapply held_same|]. injection E as <- <-. intros k' f Hk. cbn in Hk.
    apply lookup_insert_Some in Hk as [[<- <-]|[Hne Hk]].
    + exists id. split; [done|]. left. apply list_elem_of_omap. eexists. split; [by apply (list_elem_of_lookup_2 _ i), list_lookup_insert_eq|done].
    + destruct (H _ _ Hk) as (id' & -> & [Hin|Hl]); exists id'; (split; [done|]); [left; by eapply claims_kept|right; by eapply leaked_kept].
  - injection E as <- <-. by eapply held_same.
  - injection E as <- <-. by eapply held_same.
  - injection E as <- <-. destruct (match o, k with Some e, AsyncRequest _ => negb (is_decaf e) | _, _ => false end) eqn:El; [|eapply held_same; [exact Hi|done|exact H|done|]; intros c [= <-]; destruct o as [e|], k; try done; by destruct (is_decaf e)].
    destruct o as [e|], k as [|b]; try done. apply negb_true_iff in El. rewrite El. eapply held_kept; [exact Hi|done|exact H|]. intros k' f' Hk. split; [done|]. intros id' [= <- <-] _. right.
    exists i, e, up. split_and!; [by apply Ho|done|by apply list_lookup_insert_eq].
  - destruct o as [e|]; [injection E as <- <-; by eapply held_same|]. destruct (futures s !! f); [|done]. destruct (getResponse timed up _); [|done]. injection E as <- <-. by eapply held_same.
  - injection E as <- <-. eapply held_kept; [exact Hi|done|exact H|]. intros k f' Hk. cbn in Hk. apply lookup_delete_Some in Hk as [Hne Hk]. split; [done|]. by intros id' [= <- <-] ->.
  - injection E as <- <-. eapply held_same; [exact Hi|done|exact H|by destruct (closed s)|done].
  - injection E as <- <-. eapply held_same; [exact Hi|done|exact H|by destruct (closed s)|done].
  - unfold take_requests in E. destruct (priorError s); injection E as <- <-; (eapply held_kept; [exact Hi|done|exact H|]); [by intros k f Hk|intros k f Hk; cbn in Hk; by rewrite lookup_empty in Hk].
  - injection E as <- <-. eapply held_same; [exact Hi|done|exact H|destruct b; [apply Htell|done]|done].
  - injection E as <- <-. by eapply held_same.
Qed.

Lemma held_reached evs w : reached sane evs w -> held evs (correlator w) (threads w).
Proof.
  induction 1 as [|evs w ev w' Hr IH _ E]; [done|]. assert (forall x s, requestMap (tell x s) = requestMap s) as Htell by (intros x s0; unfold tell; by destruct (_ || _)).
  assert (held (ev :: evs) (correlator w) (threads w)) as Hmore.
  { intros k f Hk. destruct (IH _ _ Hk) as (id & -> & H). exists id. split; [done|]. destruct H as [?|?]; [by left|right; by apply leaked_more]. }
  assert (forall t, held (ev :: evs) (correlator w) (threads w ++ [t])) as Hnew.
  { intros t k f Hk. destruct (Hmore _ _ Hk) as (id & -> & H). exists id. split; [done|]. destruct H as [?|?]; [left|right; by apply leaked_app]. rewrite omap_app. apply elem_of_app. by left. }
  destruct ev as [c|i o up|m|e| |]; cbn [step] in E; try (injection E as <-; apply Hnew).
  - destruct (threads w !! i) as [t|] eqn:Ei; [|done]. destruct (advance o up t (correlator w)) as [[t' s']|] eqn:Ea; [|done]. injection E as <-. cbn.
    eapply held_advance; [exact Ei| |exact Ea|exact Hmore]. intros e ->. by left.
  - injection E as <-. cbn. destruct m as [tag|r]; cbn [onCommand]; [intros k f; by rewrite Htell; apply Hmore|]. destruct (requestMap (correlator w) !! u32 (correlationId r)) eqn:Ek.
    + intros k f Hk. cbn in Hk. apply lookup_delete_Some in Hk as [_ Hk]. by apply Hmore.
    + destruct (body r) as [|[]]; try done. intros k f. rewrite Htell. by destruct (priorError _); apply Hmore.
  - injection E as <-. cbn. by destruct (closed _).
Qed.

(** C32: what requests leave behind: every entry of the map is of a request that is still in its
    call, or of an asynchronous one that has no answer yet; or of an asynchronous one, in whose
    call the transport below threw what is no exception of decaf: the caller has no future, and
    the entry stays. *)
Theorem requests_leave_nothing evs w k f : reached sane evs w -> requestMap (correlator w) !! k = Some f ->
  exists i t id, threads w !! i = Some t /\ k = u32 id /\
    ((exists kind, t = Sending kind id f) \/ (exists timed, t = Waiting timed id f) \/ (exists r, t = Leaving id f r) \/
     t = Ended (Some id) (Future f) /\ (exists x, futures (correlator w) !! f = Some x /\ response x = None) \/
     exists e up, t = Ended (Some id) (Thrown (converted e)) /\ is_decaf e = false /\ Steps i (Some e) up ∈ evs).
Proof.
  intros Hr Hk. destruct (held_reached _ _ Hr _ _ Hk) as (id & -> & [Hc|(i & e & up & Hin & He & Hi)]).
  - apply list_elem_of_omap in Hc as (t & Ht & Hc). apply list_elem_of_lookup in Ht as (i & Hi). exists i, t, id. split; [done|]. split; [done|].
    assert (inv (correlator w) (threads w)) as Hinv by (eapply inv_reached; [|exact Hr]; done). pose proof (i_unanswered _ _ Hinv) as Hu. rewrite List.Forall_forall in Hu.
    destruct (Hu f) as (x & Hx & Hxu & _); [apply list_elem_of_In, (outstanding_open _ _ (u32 id)); unfold outstanding; apply elem_of_app; left; by apply elem_of_map_to_list|].
    destruct t as [| | | | |kind| | | | | | |[] []]; try done; simplify_eq/=; eauto 10.
  - exists i, (Ended (Some id) (Thrown (converted e))), id. split; [done|]. split; [done|]. eauto 10.
Qed.

(** ** The error that strands a request *)

Lemma reached_once ok evs w w' : reached ok evs w -> reached ok evs w' -> w = w'.
Proof.
  intros H. revert w'. induction H as [|evs w ev w1 Hr IH He E]; intros w'; [by inversion 1|]. inversion 1 as [|? w2 ? ? Hr2 _ E2]; subst. apply IH in Hr2 as ->. congruence.
Qed.

(** An event that does not bring the reply, or interrupt the thread. *)
Definition other_than (i : nat) (id : Z) (ev : event) : Prop :=
  match ev with Receives (AReply r) => u32 (correlationId r) <> u32 id | Steps j (Some _) _ => j <> i | _ => True end.

Record stranded (i : nat) (id : Z) (f : nat) (w : World) : Prop := {
  sr_inv : inv (correlator w) (threads w);
  sr_prior : priorError (correlator w) <> None;
  sr_map : requestMap (correlator w) !! u32 id = Some f;
  sr_waits : threads w !! i = Some (Waiting false id f);
}.

Lemma stranded_blocked up i id f w : stranded i id f w -> advance None up (Waiting false id f) (correlator w) = None.
Proof.
  intros [Hinv _ Hm _]. pose proof (i_unanswered _ _ Hinv) as Hu. rewrite List.Forall_forall in Hu. destruct (Hu f) as (x & Hx & _ & Hl & _).
  { apply list_elem_of_In, (outstanding_open _ _ (u32 id)). unfold outstanding. apply elem_of_app. left. by apply elem_of_map_to_list. }
  cbn. rewrite Hx. unfold getResponse. by rewrite Hl.
Qed.

Lemma stranded_advance o up i j id f t t' s' w : stranded i id f w -> threads w !! j = Some t -> j <> i -> advance o up t (correlator w) = Some (t', s') ->
  priorError s' <> None /\ requestMap s' !! u32 id = Some f.
Proof.
  intros [Hinv Hp Hm Hi] Hj Hne E. assert (forall x s, requestMap (tell x s) = requestMap s /\ priorError (tell x s) = priorError s) as Htell by (intros x s0; unfold tell; by destruct (_ || _)).
  destruct t as [c|c|k id'|id' f'|id'|k id' f'|timed id' f'|id' f' r| | |e b|[|[k f'] l] e b|]; cbn [advance] in E; try done; try (by injection E as <- <-).
  - injection E as E. unfold put_request in E. cbn in E. destruct (priorError (correlator w)) eqn:Ep; [|done]. destruct k; injection E as <- <-; by rewrite <- Ep in Hp.
  - destruct o as [e|]; [injection E as <- <-; done|]. destruct (futures (correlator w) !! f'); [|done]. destruct (getResponse timed up _); [|done]. by injection E as <- <-.
  - injection E as <- <-. split; [done|]. cbn. rewrite lookup_delete_ne; [done|]. intros Ek. apply Hne. symmetry.
    eapply (omap_once (fun t => wrapu 32 <$> thread_id t) (threads w)); [|exact Hi|exact Hj|reflexivity|cbn; by rewrite Ek].
    pose proof (i_distinct _ _ Hinv) as Hd. by rewrite list_fmap_omap in Hd.
  - injection E as <- <-. by destruct (closed _).
  - injection E as <- <-. by destruct (closed _).
  - unfold take_requests in E. destruct (priorError (correlator w)) eqn:Ep; [|done]. injection E as <- <-. by rewrite Ep.
  - injection E as <- <-. destruct b; [|done]. by destruct (Htell (ToldException e) (correlator w)) as [-> ->].
Qed.

Lemma stranded_step i id f w ev w' : sane w ev -> other_than i id ev -> step ev w = Some w' -> stranded i id f w -> stranded i id f w'.
Proof.
  intros Hs Ho E H. pose proof (inv_step _ _ _ Hs E (sr_inv _ _ _ _ H)) as Hinv. pose proof H as [_ Hp Hm Hi]. assert (forall x s, requestMap (tell x s) = requestMap s /\ priorError (tell x s) = priorError s) as Htell by (intros x s0; unfold tell; by destruct (_ || _)).
  destruct ev as [c|j o up|m|e| |]; cbn [step] in E.
  - injection E as <-. split; [done..|]. by apply lookup_app_l_Some.
  - destruct (threads w !! j) as [t|] eqn:Hj; [|done]. destruct (advance o up t (correlator w)) as [[t' s']|] eqn:Ea; [|done]. injection E as <-. destruct (decide (j = i)) as [->|Hne].
    + rewrite Hi in Hj. injection Hj as <-. destruct o as [e|]; [by cbn in Ho|]. by rewrite (stranded_blocked _ _ _ _ _ H) in Ea.
    + destruct (stranded_advance _ _ _ _ _ _ _ _ _ _ H Hj Hne Ea) as [Hp' Hm']. split; try done. cbn. by rewrite list_lookup_insert_ne.
  - injection E as <-. split; try done; (destruct m as [tag|r]; cbn [onCommand correlator]; [destruct (Htell (ToldCommand (Information tag)) (correlator w)) as [E1 E2]; by rewrite ?E1, ?E2|]).
    + destruct (requestMap (correlator w) !! u32 (correlationId r)); [done|]. destruct (body r) as [|[]]; try done. destruct (priorError (correlator w)) eqn:Ep; [|done].
      match goal with |- context [tell ?x ?s] => destruct (Htell x s) as [_ ->] end. by rewrite Ep.
    + destruct (requestMap (correlator w) !! u32 (correlationId r)) eqn:Ek; [cbn; by rewrite lookup_delete_ne|]. destruct (body r) as [|[]]; try done.
      match goal with |- context [tell ?x ?s] => destruct (Htell x s) as [-> _] end. by destruct (priorError _).
  - injection E as <-. split; [done..|]. by apply lookup_app_l_Some.
  - injection E as <-. split; [done..|]. by apply lookup_app_l_Some.
  - injection E as <-. split; try done; cbn; by destruct (closed _).
Qed.

(** C33: once an error is kept, a request without a timeout that waits and is still in the map, as
    it is when the error was a reply that answered nothing, waits on whatever happens, the loss
    and the closing of the connection included: only the reply with its id, or an interruption of
    its thread, can wake it. *)
Theorem stray_error_strands evs w i id f evs' w' : reached sane evs w -> priorError (correlator w) <> None -> requestMap (correlator w) !! u32 id = Some f ->
  threads w !! i = Some (Waiting false id f) -> reached sane (evs' ++ evs) w' -> Forall (other_than i id) evs' -> threads w' !! i = Some (Waiting false id f).
Proof.
  intros Hr Hp Hm Hi Hr' Ho. assert (stranded i id f w') as [_ _ _ ?]; [|done]. revert w' Hr'. induction Ho as [|ev evs' Hev _ IH]; intros w' Hr'.
  - rewrite <- (reached_once _ _ _ _ Hr Hr'). split; [|done..]. eapply inv_reached; [|exact Hr]. done.
  - inversion Hr' as [|? w1 ? ? Hr1 Hs E]; subst. eapply stranded_step; [exact Hs|exact Hev|exact E|by apply IH].
Qed.

(** ** Histories *)

Fixpoint steps (n i : nat) : list event := match n with O => [] | S n' => Steps i None false :: steps n' i end.

(** As a check that can be run. *)
Definition run_ok (ok : World -> event -> bool) : list event -> World -> bool :=
  fix go evs w := match evs with [] => true | ev :: evs' => ok w ev && match step ev w with Some w' => go evs' w' | None => false end end.
Definition sane_b (w : World) (ev : event) : bool :=
  (Z.of_nat (length (threads w)) <? 2 ^ 32) && match ev with Receives (AReply r) => bool_decide (in_s 32 (correlationId r)) | _ => true end.

Lemma run_ok_reached (ok : World -> event -> Prop) (okb : World -> event -> bool) : (forall w ev, okb w ev = true -> ok w ev) ->
  forall evs evs0 w w', reached ok evs0 w -> run_ok okb evs w = true -> run evs w = Some w' -> reached ok (rev evs ++ evs0) w'.
Proof.
  intros Hok. induction evs as [|ev evs IH]; intros evs0 w w' Hr Hb E; cbn in *; [by injection E as <-|]. apply andb_true_iff in Hb as [Hb Hgo].
  destruct (step ev w) as [w1|] eqn:E1; [|done]. rewrite <- app_assoc. apply (IH _ w1); [|done|done]. eapply reached_step; [exact Hr|by apply Hok|exact E1].
Qed.

Definition no_stray_b (w : World) (ev : event) : bool := sane_b w ev && match ev with Receives m => negb (stray (correlator w) m) | _ => true end.

Lemma sane_b_ok w ev : sane_b w ev = true -> sane w ev.
Proof. intros [H1%Z.ltb_lt H2]%andb_true_iff. split; [done|]. destruct ev as [| |[|r]| | |]; try done. by apply bool_decide_eq_true in H2. Qed.
Lemma no_stray_b_ok w ev : no_stray_b w ev = true -> no_stray w ev.
Proof. intros [H1%sane_b_ok H2]%andb_true_iff. split; [done|]. destruct ev; try done. by apply negb_true_iff. Qed.

Lemma run_from_new ok okb evs w : (forall w ev, okb w ev = true -> ok w ev) -> run_ok okb evs World_new = true -> run evs World_new = Some w -> reached ok (rev evs) w.
Proof. intros H1 H2 H3. rewrite <- (app_nil_r (rev evs)). by apply (run_ok_reached ok okb H1 evs [] World_new); [constructor|..]. Qed.

(** Two requests are under way; the second one is answered first, then the connection fails. *)
Definition two_requests : list event :=
  Starts :: Calls (Asks (Request false)) :: Calls (Asks (Request false)) :: steps 4 0 ++ steps 4 1 ++ [Receives (AReply (mkReply 2 (Plain [42]))); Excepts IOException] ++ steps 3 2.
(** A request that timed out is answered with an error while another one waits, and then the
    connection fails and is closed. *)
Definition late_error : list event :=
  Starts :: Calls (Asks (Request true)) :: steps 4 0 ++ [Steps 0 None true; Steps 0 None false; Calls (Asks (Request false))] ++ steps 4 1 ++ [Receives (AReply (mkReply 1 (Error (Some (Remote 7)))))].
Definition after_late_error : list event := [Excepts IOException; Closes] ++ steps 2 2 ++ steps 4 3.

Lemma replies_correlate_witness : match run (two_requests ++ steps 2 1) World_new with
  | Some w => threads w !! 1%nat = Some (Ended (Some 2) (Answer (mkReply 2 (Plain [42])))) /\ forall j t, threads w !! j = Some t -> thread_id t = Some 2 -> j = 1%nat
  | None => False
  end.
Proof.
  destruct (run (two_requests ++ steps 2 1) World_new) as [w|] eqn:E; [|by vm_compute in E].
  assert (threads w !! 1%nat = Some (Ended (Some 2) (Answer (mkReply 2 (Plain [42]))))) as Hi by (vm_compute in E; injection E as <-; reflexivity). split; [done|].
  destruct (replies_correlate (rev (two_requests ++ steps 2 1)) w 1 2 (mkReply 2 (Plain [42]))) as (_ & _ & H & _); [|exact Hi|exact H].
  apply (run_from_new _ _ _ _ sane_b_ok); [vm_compute; reflexivity|exact E].
Defined.

Lemma requests_answered_witness : match run two_requests World_new with
  | Some w => threads w !! 0%nat = Some (Waiting false 1 0) /\ exists r, advance None false (Waiting false 1 0) (correlator w) = Some (Leaving 1 0 (Answer r), correlator w) /\ correlationId r = 1 /\
      (Receives (AReply r) ∈ rev two_requests \/ exists c, body r = Error (option_map Local c))
  | None => False
  end.
Proof.
  destruct (run two_requests World_new) as [w|] eqn:E; [|by vm_compute in E]. assert (threads w !! 0%nat = Some (Waiting false 1 0)) as Hi by (vm_compute in E; injection E as <-; reflexivity). split; [done|].
  destruct (requests_answered (rev two_requests) w 0 false 1 0) as [_ H]; [|exact Hi|].
  - apply (run_from_new _ _ _ _ no_stray_b_ok); [vm_compute; reflexivity|exact E].
  - apply H; vm_compute in E; injection E as <-; [done|]. intros t Ht. repeat (apply elem_of_cons in Ht as [->|Ht]; [done|]). by apply elem_of_nil in Ht.
Defined.

Lemma requests_leave_nothing_witness : match run (take 11 two_requests) World_new with
  | Some w => requestMap (correlator w) !! 1 = Some 0%nat /\ exists i t, threads w !! i = Some t /\ thread_id t = Some 1
  | None => False
  end.
Proof.
  destruct (run (take 11 two_requests) World_new) as [w|] eqn:E; [|by vm_compute in E]. assert (requestMap (correlator w) !! 1 = Some 0%nat) as Hk by (vm_compute in E; injection E as <-; reflexivity). split; [done|].
  destruct (requests_leave_nothing (rev (take 11 two_requests)) w 1 0) as (i & t & id & Hi & Ek & Ht); [|exact Hk|].
  - apply (run_from_new _ _ _ _ sane_b_ok); [vm_compute; reflexivity|exact E].
  - exists i, t. split; [done|]. assert (thread_id t = Some id) as Hid by (destruct Ht as [(kind & ->)|[(timed & ->)|[(r & ->)|[[-> _]|(e & up & -> & _)]]]]; done). rewrite Hid. f_equal.
    vm_compute in E. injection E as <-. destruct i as [|[|i]]; cbn in Hi; [..|done]; injection Hi as <-; injection Hid as <-; [done|by vm_compute in Ek].
Defined.

Lemma stray_error_strands_witness : match run late_error World_new, run (late_error ++ after_late_error) World_new with
  | Some w, Some w' => threads w !! 1%nat = Some (Waiting false 2 1) /\ closed (correlator w') = true /\ threads w' !! 1%nat = Some (Waiting false 2 1)
  | _, _ => False
  end.
Proof.
  destruct (run late_error World_new) as [w|] eqn:E; [|by vm_compute in E]. destruct (run (late_error ++ after_late_error) World_new) as [w'|] eqn:E'; [|by vm_compute in E'].
  assert (threads w !! 1%nat = Some (Waiting false 2 1) /\ priorError (correlator w) <> None /\ requestMap (correlator w) !! u32 2 = Some 1%nat) as (Hi & Hp & Hm) by (vm_compute in E; injection E as <-; split_and!; done).
  split; [done|]. split; [vm_compute in E'; by injection E' as <-|].
  apply (stray_error_strands (rev late_error) w 1 2 1 (rev after_late_error) w'); [|exact Hp|exact Hm|exact Hi| |].
  - apply (run_from_new _ _ _ _ sane_b_ok); [vm_compute; reflexivity|exact E].
  - rewrite <- rev_app_distr. apply (run_from_new _ _ _ _ sane_b_ok); [vm_compute; reflexivity|exact E'].
  - repeat constructor.
Defined.

(** After the late error every new request is refused, on a connection that works. *)
Example late_error_refuses : match run (late_error ++ [Calls (Asks (Request false))] ++ steps 3 2) World_new with
  | Some w => threads w !! 2%nat = Some (Ended (Some 3) (Thrown IOException)) /\ closed (correlator w) = false /\ (sent (correlator w)) = [(1, true); (2, true)]
  | None => False
  end.
Proof. vm_compute. done. Qed.

(** An asynchronous request, in whose call the transport throws what is no exception of decaf. *)
Example async_leaks : match run ([Starts; Calls (Asks (AsyncRequest false))] ++ steps 3 0 ++ [Steps 0 (Some StdException) false]) World_new with
  | Some w => threads w !! 0%nat = Some (Ended (Some 1) (Thrown IOException)) /\ requestMap (correlator w) !! 1 = Some 0%nat
  | None => False
  end.
Proof. vm_compute. done. Qed.
