(* ===== verification/InactivityMonitor.v ===== *)
(** * InactivityMonitor, ReadChecker and WriteChecker (activemq/transport/inactivity): a
    connection on which nothing comes is given up, one on which nothing goes is kept alive.

    Two timers run the checkers, a task runner what the checkers ask for. What takes time, a
    command on its way to the listener or to the transport below, is two events, so that the
    timers may run in between. *)
From S2P Require Import Prelude.

(** ** The state *)

(** What a WireFormatInfo says of inactivity. *)
Record Info : Type := mkInfo { maxInactivityDuration : Z; maxInactivityDurationInitalDelay : Z }.
Inductive Traffic : Type := WireFormatInfo (i : Info) | KeepAliveInfo (responseRequired : bool) | Other (tag : Z).
Inductive Heard : Type := HeardCommand (c : Traffic) | HeardException (e : exn).

Record InactivityMonitor : Type := mkMonitor {
  localWireFormatInfo : option Info;
  remoteWireFormatInfo : option Info;
  monitorStarted : bool;
  commandSent : bool;
  commandReceived : bool;
  failed : bool;
  inRead : bool;
  inWrite : bool;
  readCheckTime : Z;
  writeCheckTime : Z;
  initialDelayTime : Z;
  keepAliveResponseRequired : bool;
  lastRunTime : Z;       (* of the ReadChecker *)
  readFailed : bool;     (* AsyncSignalReadErrorkTask::failed *)
  writeWanted : bool;    (* AsyncWriteTask::write *)
  timersLive : bool;     (* neither timer was cancelled *)
  filterOpen : bool;     (* the transport filter is started and not closed *)
  wire : list Traffic;   (* what the next transport was given *)
  heard : list Heard;    (* what the listener was told *)
}.

Definition InactivityMonitor_new (responseRequired : bool) : InactivityMonitor :=
  mkMonitor None None false false true false false false 0 0 0 responseRequired 0 false false true false [] [].

Definition set_infos x y (s : InactivityMonitor) := mkMonitor x y (monitorStarted s) (commandSent s) (commandReceived s) (failed s) (inRead s) (inWrite s) (readCheckTime s) (writeCheckTime s) (initialDelayTime s) (keepAliveResponseRequired s) (lastRunTime s) (readFailed s) (writeWanted s) (timersLive s) (filterOpen s) (wire s) (heard s).
Definition set_monitorStarted x (s : InactivityMonitor) := mkMonitor (localWireFormatInfo s) (remoteWireFormatInfo s) x (commandSent s) (commandReceived s) (failed s) (inRead s) (inWrite s) (readCheckTime s) (writeCheckTime s) (initialDelayTime s) (keepAliveResponseRequired s) (lastRunTime s) (readFailed s) (writeWanted s) (timersLive s) (filterOpen s) (wire s) (heard s).
Definition set_commandSent x (s : InactivityMonitor) := mkMonitor (localWireFormatInfo s) (remoteWireFormatInfo s) (monitorStarted s) x (commandReceived s) (failed s) (inRead s) (inWrite s) (readCheckTime s) (writeCheckTime s) (initialDelayTime s) (keepAliveResponseRequired s) (lastRunTime s) (readFailed s) (writeWanted s) (timersLive s) (filterOpen s) (wire s) (heard s).
Definition set_commandReceived x (s : InactivityMonitor) := mkMonitor (localWireFormatInfo s) (remoteWireFormatInfo s) (monitorStarted s) (commandSent s) x (failed s) (inRead s) (inWrite s) (readCheckTime s) (writeCheckTime s) (initialDelayTime s) (keepAliveResponseRequired s) (lastRunTime s) (readFailed s) (writeWanted s) (timersLive s) (filterOpen s) (wire s) (heard s).
Definition set_failed x (s : InactivityMonitor) := mkMonitor (localWireFormatInfo s) (remoteWireFormatInfo s) (monitorStarted s) (commandSent s) (commandReceived s) x (inRead s) (inWrite s) (readCheckTime s) (writeCheckTime s) (initialDelayTime s) (keepAliveResponseRequired s) (lastRunTime s) (readFailed s) (writeWanted s) (timersLive s) (filterOpen s) (wire s) (heard s).
Definition set_inRead x (s : InactivityMonitor) := mkMonitor (localWireFormatInfo s) (remoteWireFormatInfo s) (monitorStarted s) (commandSent s) (commandReceived s) (failed s) x (inWrite s) (readCheckTime s) (writeCheckTime s) (initialDelayTime s) (keepAliveResponseRequired s) (lastRunTime s) (readFailed s) (writeWanted s) (timersLive s) (filterOpen s) (wire s) (heard s).
Definition set_inWrite x (s : InactivityMonitor) := mkMonitor (localWireFormatInfo s) (remoteWireFormatInfo s) (monitorStarted s) (commandSent s) (commandReceived s) (failed s) (inRead s) x (readCheckTime s) (writeCheckTime s) (initialDelayTime s) (keepAliveResponseRequired s) (lastRunTime s) (readFailed s) (writeWanted s) (timersLive s) (filterOpen s) (wire s) (heard s).
Definition set_times r w i (s : InactivityMonitor) := mkMonitor (localWireFormatInfo s) (remoteWireFormatInfo s) (monitorStarted s) (commandSent s) (commandReceived s) (failed s) (inRead s) (inWrite s) r w i (keepAliveResponseRequired s) (lastRunTime s) (readFailed s) (writeWanted s) (timersLive s) (filterOpen s) (wire s) (heard s).
Definition set_lastRunTime x (s : InactivityMonitor) := mkMonitor (localWireFormatInfo s) (remoteWireFormatInfo s) (monitorStarted s) (commandSent s) (commandReceived s) (failed s) (inRead s) (inWrite s) (readCheckTime s) (writeCheckTime s) (initialDelayTime s) (keepAliveResponseRequired s) x (readFailed s) (writeWanted s) (timersLive s) (filterOpen s) (wire s) (heard s).
Definition set_tasks x y (s : InactivityMonitor) := mkMonitor (localWireFormatInfo s) (remoteWireFormatInfo s) (monitorStarted s) (commandSent s) (commandReceived s) (failed s) (inRead s) (inWrite s) (readCheckTime s) (writeCheckTime s) (initialDelayTime s) (keepAliveResponseRequired s) (lastRunTime s) x y (timersLive s) (filterOpen s) (wire s) (heard s).
Definition cancel_timers (s : InactivityMonitor) := mkMonitor (localWireFormatInfo s) (remoteWireFormatInfo s) (monitorStarted s) (commandSent s) (commandReceived s) (failed s) (inRead s) (inWrite s) (readCheckTime s) (writeCheckTime s) (initialDelayTime s) (keepAliveResponseRequired s) (lastRunTime s) (readFailed s) (writeWanted s) false (filterOpen s) (wire s) (heard s).
Definition set_filterOpen x (s : InactivityMonitor) := mkMonitor (localWireFormatInfo s) (remoteWireFormatInfo s) (monitorStarted s) (commandSent s) (commandReceived s) (failed s) (inRead s) (inWrite s) (readCheckTime s) (writeCheckTime s) (initialDelayTime s) (keepAliveResponseRequired s) (lastRunTime s) (readFailed s) (writeWanted s) (timersLive s) x (wire s) (heard s).
Definition put_wire x (s : InactivityMonitor) := mkMonitor (localWireFormatInfo s) (remoteWireFormatInfo s) (monitorStarted s) (commandSent s) (commandReceived s) (failed s) (inRead s) (inWrite s) (readCheckTime s) (writeCheckTime s) (initialDelayTime s) (keepAliveResponseRequired s) (lastRunTime s) (readFailed s) (writeWanted s) (timersLive s) (filterOpen s) (wire s ++ [x]) (heard s).
Definition tell_listener x (s : InactivityMonitor) := mkMonitor (localWireFormatInfo s) (remoteWireFormatInfo s) (monitorStarted s) (commandSent s) (commandReceived s) (failed s) (inRead s) (inWrite s) (readCheckTime s) (writeCheckTime s) (initialDelayTime s) (keepAliveResponseRequired s) (lastRunTime s) (readFailed s) (writeWanted s) (timersLive s) (filterOpen s) (wire s) (if filterOpen s then heard s ++ [x] else heard s).

(** ** Starting and stopping *)

(** With both sides known. A timer that was cancelled refuses the checkers. *)
Definition startMonitorThreads (s : InactivityMonitor) : InactivityMonitor * option exn :=
  if monitorStarted s then (s, None) else
  match localWireFormatInfo s, remoteWireFormatInfo s with
  | Some l, Some r =>
      let read := Z.min (maxInactivityDuration l) (maxInactivityDuration r) in
      let delay := Z.min (maxInactivityDurationInitalDelay l) (maxInactivityDurationInitalDelay r) in
      let s := set_tasks false false (set_times read (writeCheckTime s) delay s) in
      if 0 <? read then
        (set_lastRunTime 0 (set_times read (if 3 <? read then read / 3 else read) delay (set_monitorStarted true s)), if timersLive s then None else Some IllegalStateException)
      else (s, None)
  | _, _ => (s, None)
  end.

Definition stopMonitorThreads (s : InactivityMonitor) : InactivityMonitor :=
  if monitorStarted s then cancel_timers (set_monitorStarted false s) else s.

Definition onException (e : exn) (s : InactivityMonitor) : InactivityMonitor :=
  if failed s then s else tell_listener (HeardException e) (stopMonitorThreads (set_failed true s)).

(** ** Reading and writing *)

(** [onCommand] until the listener is through, and after that. *)
Definition onCommand_begins (c : Traffic) (s : InactivityMonitor) : InactivityMonitor * option exn :=
  let s := set_inRead true (set_commandReceived true s) in
  let '(s, refused) := match c with WireFormatInfo i => startMonitorThreads (set_infos (localWireFormatInfo s) (Some i) s) | _ => (s, None) end in
  match refused with
  | None => (tell_listener (HeardCommand c) s, None)
  | Some e => (set_inRead false s, Some e)
  end.
Definition onCommand_ends (s : InactivityMonitor) : InactivityMonitor := set_inRead false s.

(** [oneway] until the next transport has the command, or it is refused. *)
Definition oneway_begins (c : Traffic) (s : InactivityMonitor) : InactivityMonitor * option exn :=
  let s := set_inWrite true s in
  if failed s then (set_inWrite false (set_commandSent true s), Some IOException)
  else
    let '(s, refused) := match c with WireFormatInfo i => startMonitorThreads (set_infos (Some i) (remoteWireFormatInfo s) s) | _ => (s, None) end in
    match refused with
    | None => (put_wire c s, None)
    | Some e => (set_inWrite false (set_commandSent true s), Some (if is_io e then e else IOException))
    end.
Definition oneway_ends (s : InactivityMonitor) : InactivityMonitor := set_inWrite false (set_commandSent true s).

(** ** The checks *)

Definition allowReadCheck (elapsed : Z) (s : InactivityMonitor) : bool := Z.quot (s64 (readCheckTime s * 9)) 10 <? elapsed.

Definition readCheck (inReceive : bool) (s : InactivityMonitor) : InactivityMonitor :=
  if inRead s || inReceive then s
  else set_commandReceived false (if commandReceived s then s else set_tasks true (writeWanted s) s).

Definition ReadChecker_run (now : Z) (inReceive : bool) (s : InactivityMonitor) : InactivityMonitor :=
  if allowReadCheck (now - lastRunTime s) s then readCheck inReceive (set_lastRunTime now s) else s.

Definition writeCheck (s : InactivityMonitor) : InactivityMonitor :=
  if inWrite s then s
  else set_commandSent false (if commandSent s then s else set_tasks (readFailed s) true s).

(** [AsyncSignalReadErrorkTask::iterate] *)
Definition readError_iterate (s : InactivityMonitor) : InactivityMonitor :=
  if readFailed s then onException IOException (set_tasks false (writeWanted s) s) else s.

(** [AsyncWriteTask::iterate]; [outcome] is what becomes of the keep alive below. An
    UnsupportedOperationException passes through [oneway] and the task and ends its runner. *)
Definition asyncWrite_iterate (outcome : option exn) (s : InactivityMonitor) : InactivityMonitor :=
  if writeWanted s then
    let s := set_tasks (readFailed s) false s in
    if monitorStarted s then
      let '(s, refused) := oneway_begins (KeepAliveInfo (keepAliveResponseRequired s)) s in
      match refused with
      | Some e => onException e s
      | None => let s := oneway_ends s in match outcome with
        | Some e => if is_io e || negb (bool_decide (e = UnsupportedOperationException)) then onException (if is_io e then e else IOException) s else s
        | None => s end
      end
    else s
  else s.

(** ** Histories *)

Inductive event : Type :=
  | Arrives (c : Traffic) | Delivered              (* the reading thread *)
  | Writes (c : Traffic) | Written                 (* a thread that writes *)
  | ReadTimer (now : Z) (inReceive : bool) | WriteTimer
  | RunsReadError | RunsWrite (outcome : option exn) (* the task runner *)
  | Fails (e : exn) | Opens | Stops.

(** The timers and the runner run until the monitor is stopped; who writes waits for
    [inWriteMutex]. *)
Definition step (ev : event) (s : InactivityMonitor) : InactivityMonitor :=
  match ev with
  | Arrives c => (onCommand_begins c s).1
  | Delivered => onCommand_ends s
  | Writes c => if inWrite s then s else (oneway_begins c s).1
  | Written => if inWrite s then oneway_ends s else s
  | ReadTimer now inReceive => if monitorStarted s && timersLive s then ReadChecker_run now inReceive s else s
  | WriteTimer => if monitorStarted s && timersLive s then writeCheck s else s
  | RunsReadError => if timersLive s then readError_iterate s else s
  | RunsWrite outcome => if inWrite s || negb (timersLive s) then s else asyncWrite_iterate outcome s
  | Fails e => onException e s
  | Opens => if filterOpen s then s else (startMonitorThreads (set_filterOpen true s)).1
  | Stops => set_filterOpen false (stopMonitorThreads s)
  end.
Definition run (evs : list event) (s : InactivityMonitor) : InactivityMonitor := foldl (fun s ev => step ev s) s evs.
