(* ===== verification/InactivityTheorems.v ===== *)
(** * What the inactivity monitor promises: a peer that is gone is noticed, one that is there
    is not given up, and a connection that is idle is kept alive. *)
From stdpp Require Import sorting.
From S2P Require Import Prelude InactivityMonitor.

(** ** One exception *)

Definition is_exception (h : Heard) : bool := match h with HeardException _ => true | HeardCommand _ => false end.
Definition exceptions (s : InactivityMonitor) : nat := length (List.filter is_exception (heard s)).
Definition told_once (s : InactivityMonitor) : Prop := (exceptions s <= if failed s then 1 else 0)%nat.

(** A change that the listener does not hear of. *)
Definition unheard (s s' : InactivityMonitor) : Prop := heard s' = heard s /\ failed s' = failed s.

Lemma unheard_told s s' : unheard s s' -> told_once s -> told_once s'.
Proof. intros [H1 H2]. unfold told_once, exceptions. by rewrite H1, H2. Qed.

Lemma start_unheard s : unheard s (startMonitorThreads s).1.
Proof. unfold startMonitorThreads. destruct (monitorStarted s); [done|]. destruct (localWireFormatInfo s), (remoteWireFormatInfo s); try done. by destruct (0 <? _). Qed.

Lemma stop_unheard s : unheard s (stopMonitorThreads s).
Proof. unfold stopMonitorThreads. by destruct (monitorStarted s). Qed.

Lemma told_exception e s : told_once s -> told_once (onException e s).
Proof.
  intros H. unfold onException. destruct (failed s) eqn:Ef; [done|]. unfold told_once, exceptions in *. rewrite Ef in H.
  destruct (stop_unheard (set_failed true s)) as [H1 H2]. unfold tell_listener. cbn [heard failed]. rewrite H2. cbn [failed set_failed].
  destruct (filterOpen _); rewrite H1; cbn [heard set_failed]; [rewrite List.filter_app, length_app; cbn; lia|lia].
Qed.

Lemma told_command c s : told_once s -> told_once (tell_listener (HeardCommand c) s).
Proof. unfold told_once, exceptions, tell_listener. cbn. destruct (filterOpen s); [|done]. rewrite List.filter_app, length_app. cbn. by rewrite Nat.add_0_r. Qed.

Lemma oneway_unheard c s : unheard s (oneway_begins c s).1.
Proof.
  unfold oneway_begins. destruct (failed _); [done|]. destruct c as [i| |]; [|done..].
  match goal with |- context [startMonitorThreads ?x] => pose proof (start_unheard x) as [H1 H2]; destruct (startMonitorThreads x) as [s' []] end; by split.
Qed.

Lemma told_once_step ev s : told_once s -> told_once (step ev s).
Proof.
  intros H. destruct ev as [c| |c| |now ir| | |o|e| |]; cbn [step].
  - unfold onCommand_begins. destruct c as [i| |]; [|by apply told_command..].
    match goal with |- context [startMonitorThreads ?x] => pose proof (start_unheard x) as Hu; destruct (startMonitorThreads x) as [s' []] end; cbn [fst] in *; [|apply told_command]; by eapply unheard_told.
  - by eapply unheard_told.
  - destruct (inWrite s); [done|]. eapply unheard_told; [apply oneway_unheard|done].
  - by destruct (inWrite s).
  - destruct (_ && _); [|done]. unfold ReadChecker_run, readCheck. destruct (allowReadCheck _ _); [|done]. destruct (_ || _); [done|]. by destruct (commandReceived _).
  - destruct (_ && _); [|done]. unfold writeCheck. destruct (inWrite s); [done|]. by destruct (commandSent s).
  - destruct (timersLive s); [|done]. unfold readError_iterate. destruct (readFailed s); [|done]. by apply told_exception.
  - destruct (_ || _); [done|]. unfold asyncWrite_iterate. destruct (writeWanted s); [|done]. destruct (monitorStarted _); [|done].
    match goal with |- context [oneway_begins ?c ?x] => pose proof (oneway_unheard c x) as Hu; destruct (oneway_begins c x) as [s' []] end; cbn [fst] in *.
    + apply told_exception. by eapply unheard_told.
    + assert (told_once (oneway_ends s')) by (by eapply unheard_told; [|exact H]). destruct o as [e|]; [|done]. destruct (_ || _); [|done]. by apply told_exception.
  - by apply told_exception.
  - destruct (filterOpen s); [done|]. eapply unheard_told; [apply start_unheard|exact H].
  - eapply unheard_told; [|exact H]. apply (stop_unheard s).
Qed.

(** ** A peer that is gone *)

(** Nothing comes, and nobody else ends the monitor. *)
Definition silent (ev : event) : bool :=
  match ev with Arrives _ | Fails _ | Opens | Stops | ReadTimer _ true => false | _ => true end.

Record watching (s : InactivityMonitor) : Prop := {
  wt_started : monitorStarted s = true;
  wt_timers : timersLive s = true;
  wt_idle : inRead s = false;
  wt_ok : failed s = false;
}.

(** While nothing comes, a check that found nothing leaves that so. *)
Definition still (s s' : InactivityMonitor) : Prop :=
  watching s' /\ (commandReceived s = false -> commandReceived s' = false) /\ (readFailed s = true -> readFailed s' = true).

Lemma still_refl s : watching s -> still s s.
Proof. by split. Qed.

Lemma start_started s : monitorStarted s = true -> startMonitorThreads s = (s, None).
Proof. unfold startMonitorThreads. by intros ->. Qed.

(** What happens on a monitor that failed, or is watching. *)
Definition goes_on (s s' : InactivityMonitor) : Prop :=
  filterOpen s' = filterOpen s /\
  (failed s' = true /\ (failed s = true -> exceptions s' = exceptions s) /\ (failed s = false -> filterOpen s = true -> exceptions s' = S (exceptions s)) \/
   failed s = false /\ still s s' /\ exceptions s' = exceptions s).

Lemma onException_goes e s : watching s \/ failed s = true -> goes_on s (onException e s) /\ failed (onException e s) = true.
Proof.
  intros Hw. unfold onException. destruct (failed s) eqn:Ef; [split; [split; [done|left; by rewrite Ef]|done]|]. destruct Hw as [[Hs Ht Hi Hf]|?]; [|done].
  unfold stopMonitorThreads. cbn [monitorStarted set_failed]. rewrite Hs. split; [|done]. split; [done|left]. split; [done|]. split; [by rewrite Ef|]. intros _ Ho.
  unfold exceptions, tell_listener. cbn. rewrite Ho, List.filter_app, length_app. cbn. lia.
Qed.

Lemma goes_same s s' : failed s' = failed s -> heard s' = heard s -> filterOpen s' = filterOpen s -> (failed s = false -> still s s') -> goes_on s s'.
Proof.
  intros Hf Hh Ho Hs. split; [done|]. unfold exceptions. rewrite Hh, Hf. destruct (failed s); [by left|right]. by auto.
Qed.

Lemma fails_on e s0 s : failed s0 = failed s -> heard s0 = heard s -> filterOpen s0 = filterOpen s -> watching s0 \/ failed s0 = true -> goes_on s (onException e s0).
Proof.
  intros Hf Hh Ho Hw. destruct (onException_goes e s0 Hw) as [[Ho' [(H1 & H2 & H3)|(_ & ([_ _ _ Hn] & _) & _)]] Hfail]; [|congruence].
  split; [congruence|]. left. split; [done|]. unfold exceptions in *. rewrite Hf, Hh, Ho in *. done.
Qed.

Lemma silent_step ev s : silent ev = true -> watching s \/ failed s = true -> goes_on s (step ev s).
Proof.
  intros Hev Hw. assert (failed s = false -> watching s) as Hw' by (destruct Hw as [?| ->]; done). destruct ev as [c| |c| |now []| | |o|e| |]; try done; cbn [step].
  - apply goes_same; try done. intros Hf. destruct (Hw' Hf). by repeat split.
  - destruct (inWrite s); [apply goes_same; try done; auto using still_refl|]. unfold oneway_begins. cbn [failed set_inWrite]. destruct (failed s) eqn:Ef; [apply goes_same; [done..|congruence]|]. destruct (Hw' eq_refl).
    destruct c as [i| |]; cbn; [rewrite start_started by done|..]; cbn; apply goes_same; try done; by repeat split.
  - destruct (inWrite s); apply goes_same; try done; intros Hf; destruct (Hw' Hf); by repeat split.
  - destruct (_ && _) eqn:E; [|apply goes_same; try done; auto using still_refl]. unfold ReadChecker_run. destruct (allowReadCheck _ _); [|apply goes_same; try done; auto using still_refl].
    unfold readCheck. cbn [inRead set_lastRunTime]. destruct (_ || _); [apply goes_same; try done; intros Hf; destruct (Hw' Hf); by repeat split|].
    destruct (commandReceived _); apply goes_same; try done; intros Hf; destruct (Hw' Hf); by repeat split.
  - destruct (_ && _); [|apply goes_same; try done; auto using still_refl]. unfold writeCheck. destruct (inWrite s); [apply goes_same; try done; auto using still_refl|].
    destruct (commandSent s); apply goes_same; try done; intros Hf; destruct (Hw' Hf); by repeat split.
  - destruct (timersLive s); [|apply goes_same; try done; auto using still_refl]. unfold readError_iterate. destruct (readFailed s); [|apply goes_same; try done; auto using still_refl].
    apply (fails_on _ (set_tasks false (writeWanted s) s)); try done. destruct Hw as [[]|?]; [by left|by right].
  - destruct (_ || _) eqn:E; [apply goes_same; try done; auto using still_refl|]. unfold asyncWrite_iterate. destruct (writeWanted s); [|apply goes_same; try done; auto using still_refl].
    cbn [monitorStarted set_tasks]. destruct (monitorStarted s) eqn:Em; [|apply goes_same; try done; intros Hf; destruct (Hw' Hf); congruence].
    unfold oneway_begins. cbn [failed set_inWrite set_tasks]. destruct (failed s) eqn:Ef.
    + apply (fails_on _ (set_inWrite false (set_commandSent true (set_inWrite true (set_tasks (readFailed s) false s))))); try done. by right.
    + match goal with |- context [oneway_ends ?x] => set (s1 := oneway_ends x) end. assert (goes_on s s1) by (apply goes_same; try done; intros Hf; destruct (Hw' eq_refl); by repeat split).
      clear E. destruct o as [e|]; [|done]. destruct (_ || _); [|done]. apply (fails_on _ s1); try done. left. by destruct (Hw' eq_refl).
Qed.

Lemma goes_trans s s1 s2 : goes_on s s1 -> goes_on s1 s2 -> goes_on s s2.
Proof.
  intros [Ho [(Hf & H1 & H2)|(Hf & (Hw & Hc & Hr) & H1)]] [Ho' [(Hf' & H1' & H2')|(Hf' & (Hw' & Hc' & Hr') & H')]]; (split; [congruence|]).
  - left. split; [done|]. split; [intros Hx; rewrite H1' by done; by apply H1|intros Hx Hy; rewrite H1' by done; by apply H2].
  - congruence.
  - left. destruct Hw. split; [done|]. split; [congruence|]. intros _ Hy. rewrite H2', H1; congruence.
  - right. split; [done|]. split; [|congruence]. split; [done|]. auto.
Qed.

Lemma silent_run evs s : Forall (fun ev => silent ev = true) evs -> watching s \/ failed s = true -> goes_on s (run evs s) /\ (watching (run evs s) \/ failed (run evs s) = true).
Proof.
  intros H. revert s. induction H as [|ev evs Hev _ IH]; intros s Hw.
  - split; [apply goes_same; try done; intros Hf; destruct Hw as [?|?]; [by apply still_refl|congruence]|done].
  - pose proof (silent_step ev s Hev Hw) as Hg. assert (watching (step ev s) \/ failed (step ev s) = true) as Hw1 by (destruct Hg as [_ [(?&_)|(_&(?&_)&_)]]; [by right|by left]).
    destruct (IH _ Hw1) as [Hg' Hw2]. split; [by eapply goes_trans|done].
Qed.

Lemma failed_stays evs s : Forall (fun ev => silent ev = true) evs -> failed s = true -> failed (run evs s) = true.
Proof. intros H Hf. destruct (silent_run evs s H (or_intror Hf)) as [[_ [(?&_)|(?&_)]] _]; [done|congruence]. Qed.

Lemma run_app evs1 evs2 s : run (evs1 ++ evs2) s = run evs2 (run evs1 s).
Proof. unfold run. by rewrite foldl_app. Qed.

(** A check that is made, and not too early. *)
Definition accepted (t : Z) (s : InactivityMonitor) : Prop := allowReadCheck (t - lastRunTime s) s = true.

Lemma check_made t s : watching s -> accepted t s -> let s' := step (ReadTimer t false) s in commandReceived s' = false /\ (commandReceived s = false -> readFailed s' = true).
Proof.
  intros [Hs Ht Hi Hf] Ha. cbn [step]. rewrite Hs, Ht. cbn [andb]. unfold ReadChecker_run. rewrite Ha. unfold readCheck. cbn [inRead set_lastRunTime]. rewrite Hi. cbn [orb].
  split; [done|]. intros Hc. cbn [commandReceived set_lastRunTime]. by rewrite Hc.
Qed.

(** C26: when nothing comes for two read checks that are made, the connection is given up: the
    monitor fails, and the listener is told of it, once, whatever is written meanwhile. *)
Theorem dead_peer_detected s evs1 t1 evs2 t2 evs3 : watching s -> filterOpen s = true -> Forall (fun ev => silent ev = true) (evs1 ++ evs2 ++ evs3) ->
  accepted t1 (run evs1 s) -> accepted t2 (run (evs1 ++ ReadTimer t1 false :: evs2) s) ->
  let s' := run (evs1 ++ ReadTimer t1 false :: evs2 ++ ReadTimer t2 false :: evs3 ++ [RunsReadError]) s in
  failed s' = true /\ exceptions s' = S (exceptions s).
Proof.
  intros Hw Ho Hev Ha1 Ha2. cbv zeta. assert (Hev' := Hev). apply List.Forall_app in Hev' as [H1 [H2 H3]%List.Forall_app].
  assert (Forall (fun ev => silent ev = true) (evs1 ++ ReadTimer t1 false :: evs2 ++ ReadTimer t2 false :: evs3 ++ [RunsReadError])) as Hall by (apply List.Forall_app; split; [done|]; constructor; [done|]; apply List.Forall_app; split; [done|]; constructor; [done|]; apply List.Forall_app; split; [done|by repeat constructor]).
  set (s' := run _ _). assert (failed s' = true) as Hf; [|split; [done|]].
  2: { destruct (silent_run _ s Hall (or_introl Hw)) as [[_ [(_ & _ & H)|(Hn & ([_ _ _ ?] & _) & _)]] _]; [apply H; [by destruct Hw|done]|unfold s' in Hf; congruence]. }
  subst s'. rewrite run_app. destruct (silent_run evs1 s H1 (or_introl Hw)) as [_ [Hw1|Hf]]; [|by apply failed_stays; [apply List.Forall_app in Hall as [_ ?]|]].
  apply List.Forall_app in Hall as [_ Hall]. rewrite run_app in Ha2. set (s1 := run evs1 s) in *. destruct (check_made t1 s1 Hw1 Ha1) as [Hc1 _]. apply List.Forall_cons_iff in Hall as [Ht1 Hall].
  change (failed (run (evs2 ++ ReadTimer t2 false :: evs3 ++ [RunsReadError]) (step (ReadTimer t1 false) s1)) = true). change (accepted t2 (run evs2 (step (ReadTimer t1 false) s1))) in Ha2.
  set (s2 := step (ReadTimer t1 false) s1) in *. destruct (silent_step (ReadTimer t1 false) s1 eq_refl (or_introl Hw1)) as [_ [(Hf&_)|(_&(Hw2&_)&_)]]; [by apply failed_stays|].
  rewrite run_app. apply List.Forall_app in Hall as [_ Hall]. destruct (silent_run evs2 s2 H2 (or_introl Hw2)) as [[_ [(Hf&_)|(_&(Hw3&Hc3&_)&_)]] _]; [by apply failed_stays|].
  set (s3 := run evs2 s2) in *. destruct (check_made t2 s3 Hw3 Ha2) as [_ Hr]. specialize (Hr (Hc3 Hc1)). apply List.Forall_cons_iff in Hall as [_ Hall].
  change (failed (run (evs3 ++ [RunsReadError]) (step (ReadTimer t2 false) s3)) = true). set (s4 := step (ReadTimer t2 false) s3) in *.
  destruct (silent_step (ReadTimer t2 false) s3 eq_refl (or_introl Hw3)) as [_ [(Hf&_)|(_&(Hw4&_)&_)]]; [by apply failed_stays|].
  rewrite run_app. destruct (silent_run evs3 s4 H3 (or_introl Hw4)) as [[_ [(Hf&_)|(_&(Hw5&_&Hr5)&_)]] _]; [by apply failed_stays; [repeat constructor|]|].
  change (failed (step RunsReadError (run evs3 s4)) = true). cbn [step]. rewrite (wt_timers _ Hw5). unfold readError_iterate. rewrite (Hr5 Hr). apply onException_goes. left. by destruct Hw5.
Qed.

(** ** A connection that is idle *)

(** What a side does: a command of its own, or a write check and the task that it wakes. *)
Inductive beat : Type := Sends (c : Traffic) | Checks.
Definition events_of (b : beat) : list event := match b with Sends c => [Writes c; Written] | Checks => [WriteTimer; RunsWrite None] end.
Definition after (l : list (Z * beat)) (s : InactivityMonitor) : InactivityMonitor := foldl (fun s b => run (events_of b.2) s) s l.

(** The times at which something is put on the wire. *)
Fixpoint sent_times (l : list (Z * beat)) (s : InactivityMonitor) : list Z :=
  match l with
  | [] => []
  | (t, b) :: l' => let s' := run (events_of b) s in (if (length (wire s) <? length (wire s'))%nat then [t] else []) ++ sent_times l' s'
  end.

(** Something happens in every span of [g] between two times. *)
Definition every (g from to : Z) (P : Z -> Prop) : Prop := forall s, from <= s -> s + g <= to -> exists t, s < t <= s + g /\ P t.
Definition in_order {A} (l : list (Z * A)) : Prop := StronglySorted (fun x y => x.1 <= y.1) l.

Record writing (s : InactivityMonitor) : Prop := {
  wr_started : monitorStarted s = true;
  wr_timers : timersLive s = true;
  wr_ok : failed s = false;
  wr_idle : inWrite s = false;
  wr_wanted : writeWanted s = false;
}.

Lemma sends_beat c s : writing s -> let s' := run (events_of (Sends c)) s in writing s' /\ (length (wire s) < length (wire s'))%nat.
Proof.
  intros [Hs Ht Hf Hi Hw]. cbn [events_of run foldl step]. rewrite Hi. unfold oneway_begins. cbn [failed set_inWrite]. rewrite Hf.
  destruct c as [i| |]; [rewrite start_started by done|..]; cbn; rewrite ?length_app; cbn; (split; [by split|lia]).
Qed.

Lemma checks_beat s : writing s -> let s' := run (events_of Checks) s in writing s' /\
  if commandSent s then commandSent s' = false else (length (wire s) < length (wire s'))%nat.
Proof.
  intros [Hs Ht Hf Hi Hw]. cbn [events_of run foldl step]. rewrite Hs, Ht. cbn [andb]. unfold writeCheck. rewrite Hi. destruct (commandSent s) eqn:Ec; cbn [inWrite timersLive set_commandSent set_tasks]; rewrite Hi, Ht; cbn [orb negb];
    unfold asyncWrite_iterate; cbn [writeWanted set_commandSent set_tasks monitorStarted].
  - rewrite Hw. by split; [split|].
  - rewrite Hs. unfold oneway_begins. cbn [failed set_inWrite set_commandSent set_tasks]. rewrite Hf. cbn. rewrite length_app. cbn. split; [by split|lia].
Qed.

Lemma beat_writing b s : writing s -> writing (run (events_of b) s).
Proof. intros H. destruct b; [by apply sends_beat|by apply checks_beat]. Qed.

Lemma after_writing l s : writing s -> writing (after l s).
Proof. revert s. induction l as [|b l IH]; intros s H; [done|]. apply IH. by apply beat_writing. Qed.

Lemma sent_head t b l s : (length (wire s) < length (wire (run (events_of b) s)))%nat -> t ∈ sent_times ((t, b) :: l) s.
Proof. intros H. apply Nat.ltb_lt in H. cbn [sent_times]. cbv zeta. rewrite H. left. Qed.

Lemma sent_app a b s : sent_times (a ++ b) s = sent_times a s ++ sent_times b (after a s).
Proof. revert s. induction a as [|[t x] a IH]; intros s; [done|]. cbn. by rewrite IH, app_assoc. Qed.

Lemma in_order_app {A} (a b : list (Z * A)) : in_order (a ++ b) -> forall x y, x ∈ a -> y ∈ b -> x.1 <= y.1.
Proof.
  induction a as [|z a IH]; intros H x y Hx Hy; [by apply elem_of_nil in Hx|]. inversion H as [|? ? H1 H2]; subst. apply elem_of_cons in Hx as [->|Hx]; [|by apply IH].
  rewrite List.Forall_forall in H2. apply H2. apply list_elem_of_In, elem_of_app. by right.
Qed.

Lemma in_order_tail {A} (a b : list (Z * A)) : in_order (a ++ b) -> in_order b.
Proof. induction a as [|z a IH]; [done|]. inversion 1; auto. Qed.

(** The first check of a list that has one. *)
Lemma first_check l t : (t, Checks) ∈ l -> exists mid t' rest, l = mid ++ (t', Checks) :: rest /\ forall x : Z * beat, x ∈ mid -> x.2 <> Checks.
Proof.
  induction l as [|[u b] l IH]; intros Hin; [by apply elem_of_nil in Hin|]. destruct b as [c|].
  - apply elem_of_cons in Hin as [[=]|Hin]. destruct (IH Hin) as (mid & t' & rest & -> & Hm). exists ((u, Sends c) :: mid), t', rest. split; [done|]. intros x [->|Hx]%elem_of_cons; [done|by apply Hm].
  - exists [], u, l. split; [done|]. by intros x ?%elem_of_nil.
Qed.

Lemma keeps_alive g from to l s : in_order l -> writing s -> every g from to (fun t => (t, Checks) ∈ l) -> 0 < g -> every (2 * g) from to (fun t => t ∈ sent_times l s).
Proof.
  intros Hord Hw Hev Hg s0 H1 H2. destruct (Hev s0 ltac:(lia) ltac:(lia)) as (t1 & Ht1 & Hin1). destruct (Hev t1 ltac:(lia) ltac:(lia)) as (t2 & Ht2 & Hin2).
  apply list_elem_of_split in Hin1 as (pre & post & ->). assert ((t2, Checks) ∈ post) as Hpost.
  { apply elem_of_app in Hin2 as [Hin2|[[= ->]|?]%elem_of_cons]; [|lia|done]. pose proof (in_order_app _ _ Hord _ (t1, Checks) Hin2 ltac:(left)). cbn in *. lia. }
  apply in_order_tail in Hord. pose proof (after_writing pre s Hw) as Hw1. set (s1 := after pre s) in *. destruct (checks_beat s1 Hw1) as [Hw2 Hc]. set (s2 := run (events_of Checks) s1) in *.
  assert (forall t, t ∈ (if (length (wire s1) <? length (wire s2))%nat then [t1] else []) ++ sent_times post s2 -> t ∈ sent_times (pre ++ (t1, Checks) :: post) s) as Hsub.
  { intros t Ht. rewrite sent_app. apply elem_of_app. right. exact Ht. }
  clearbody s2.
  destruct (commandSent s1). 2: { exists t1. split; [lia|]. apply Hsub. apply Nat.ltb_lt in Hc. rewrite Hc. left. }
  assert (forall x, x ∈ post -> t1 <= x.1) as Hge by (intros x Hx; eapply (in_order_app [(t1, Checks)] post Hord (t1, Checks)); [left|done]).
  destruct (first_check _ _ Hpost) as (mid & t' & rest & -> & Hmid).
  assert (forall x, x ∈ mid ++ [(t', Checks)] -> x.1 <= t2) as Hle.
  { intros x Hx. inversion Hord as [|? ? Hord' _]; subst. apply elem_of_app in Hpost as [Hp|Hp]; [by apply Hmid in Hp|]. apply elem_of_app in Hx as [Hx|Hx].
    - by apply (in_order_app _ _ Hord' x (t2, Checks)).
    - apply list_elem_of_singleton in Hx as ->. apply elem_of_cons in Hp as [[= <-]|Hp]; [cbn; lia|]. apply in_order_tail in Hord'. by apply (in_order_app [(t', Checks)] rest Hord' _ (t2, Checks)); [left|]. }
  destruct mid as [|[tm b] mid].
  - exists t'. pose proof (Hge (t', Checks) ltac:(left)) as Hg1. pose proof (Hle (t', Checks) ltac:(left)) as Hl1. cbn [fst] in Hg1, Hl1. split; [lia|]. apply Hsub. apply elem_of_app. right.
    destruct (checks_beat s2 Hw2) as [_ Hc2]. rewrite Hc in Hc2. by apply sent_head.
  - exists tm. pose proof (Hge (tm, b) ltac:(left)) as Hg1. pose proof (Hle (tm, b) ltac:(left)) as Hl1. cbn [fst] in Hg1, Hl1. split; [lia|]. apply Hsub. apply elem_of_app. right.
    destruct b as [c|]; [|by destruct (Hmid (tm, Checks) ltac:(left))]. destruct (sends_beat c s2 Hw2) as [_ Hc2]. by apply sent_head.
Qed.

(** ** A peer that is there *)

(** What the side that reads sees: the timer reads the clock, and nothing else ends it. *)
Definition reads (x : Z * event) : Prop :=
  match x.2 with ReadTimer now _ => now = x.1 | Fails _ | Stops | RunsWrite (Some _) => False | _ => True end.
Definition threshold (s : InactivityMonitor) : Z := Z.quot (s64 (readCheckTime s * 9)) 10.

Record reading (r : Z) (s : InactivityMonitor) : Prop := {
  rd_started : monitorStarted s = true;
  rd_timers : timersLive s = true;
  rd_ok : failed s = false;
  rd_alarm : readFailed s = false;
  rd_limit : threshold s = r;
}.

(** A change that the checks of the reader do not see. *)
Definition unread (s s' : InactivityMonitor) : Prop :=
  monitorStarted s' = monitorStarted s /\ timersLive s' = timersLive s /\ failed s' = failed s /\ readFailed s' = readFailed s /\ readCheckTime s' = readCheckTime s /\
  commandReceived s' = commandReceived s /\ lastRunTime s' = lastRunTime s.

Lemma unread_reading r s s' : unread s s' -> reading r s -> reading r s'.
Proof. intros (H1 & H2 & H3 & H4 & H5 & _) []. split; try congruence. unfold threshold in *. congruence. Qed.

Lemma other_event r x s : reading r s -> reads x -> match x.2 with Arrives _ | ReadTimer _ _ => False | _ => True end -> unread s (step x.2 s).
Proof.
  intros [Hs Ht Hf Ha _] Hx Hev. destruct x as [t ev]. unfold reads in Hx. cbn in *. destruct ev as [c| |c| |now ir| | |o|e| |]; try done; cbn [step].
  - destruct (inWrite s); [done|]. unfold oneway_begins. cbn [failed set_inWrite]. rewrite Hf. destruct c; [rewrite start_started by done|..]; done.
  - by destruct (inWrite s).
  - rewrite Hs, Ht. cbn [andb]. unfold writeCheck. destruct (inWrite s); [done|]. by destruct (commandSent s).
  - rewrite Ht. unfold readError_iterate. by rewrite Ha.
  - destruct o; [done|]. destruct (_ || _); [done|]. unfold asyncWrite_iterate. destruct (writeWanted s); [|done]. cbn [monitorStarted set_tasks]. rewrite Hs. unfold oneway_begins. cbn [failed set_inWrite set_tasks]. rewrite Hf. done.
  - destruct (filterOpen s); [done|]. by rewrite start_started.
Qed.

Lemma arrival r c s : reading r s -> let s' := step (Arrives c) s in reading r s' /\ commandReceived s' = true /\ lastRunTime s' = lastRunTime s.
Proof.
  intros [Hs Ht Hf Ha Hr]. cbn [step]. unfold onCommand_begins. destruct c as [i| |]; [rewrite start_started by done|..]; by split_and!; [split|..].
Qed.

Definition playing (l : list (Z * event)) (s : InactivityMonitor) : InactivityMonitor := run (map snd l) s.

(** Either something came since the last check, or it says when that was. *)
Definition heard_since (pre : list (Z * event)) (s : InactivityMonitor) : Prop :=
  commandReceived s = true \/ exists p q now ir, pre = p ++ (lastRunTime s, ReadTimer now ir) :: q /\ forall x c, x ∈ q -> x.2 <> Arrives c.

Lemma heard_more pre x s s' : unread s s' -> match x.2 with Arrives _ => False | _ => True end -> heard_since pre s -> heard_since (pre ++ [x]) s'.
Proof.
  intros (_ & _ & _ & _ & _ & Hc & Hl) Hx [H|(p & q & now & ir & -> & Hq)]; [left; congruence|right]. exists p, (q ++ [x]), now, ir. rewrite Hl, <- app_assoc. split; [done|].
  intros y c [Hy|Hy]%elem_of_app; [by apply Hq|]. apply list_elem_of_singleton in Hy as ->. intros E. by rewrite E in Hx.
Qed.

Lemma no_alarm l g r from to s : in_order l -> Forall reads l -> Forall (fun x => from <= x.1 <= to) l -> every g from to (fun t => exists c, (t, Arrives c) ∈ l) -> 0 <= g <= r ->
  reading r s -> commandReceived s = true -> forall pre post, l = pre ++ post -> reading r (playing pre s) /\ heard_since pre (playing pre s).
Proof.
  intros Hord Hreads Hspan Hev Hg Hr Hc. induction pre as [|x pre IH] using rev_ind; intros post E; [by split; [|left]|].
  rewrite <- app_assoc in E. cbn in E. destruct (IH (x :: post) E) as [Hr1 Hh]. unfold playing in *. rewrite map_app, run_app. set (s1 := run (map snd pre) s) in *. cbn [map run foldl].
  assert (x ∈ l) as Hin by (rewrite E; apply elem_of_app; right; left). rewrite List.Forall_forall in Hreads, Hspan. pose proof (Hreads x (proj1 (list_elem_of_In _ _) Hin)) as Hx.
  assert (match x.2 with Arrives _ | ReadTimer _ _ => False | _ => True end -> reading r (step x.2 s1) /\ heard_since (pre ++ [x]) (step x.2 s1)) as Hother.
  { intros Hev0. pose proof (other_event r x s1 Hr1 Hx Hev0) as Hu. split; [by eapply unread_reading|]. eapply heard_more; [exact Hu| |done]. by destruct (x.2). }
  destruct x as [t ev]. cbn [fst snd] in *. destruct ev as [c| |c| |now ir| | |o|e| |]; try (by apply Hother).
  { destruct (arrival r c s1 Hr1) as (H1 & H2 & _). split; [done|by left]. }
  unfold reads in Hx. cbn in Hx. subst now. pose proof Hr1 as [Hs Ht Hf Ha Hl]. cbn [step]. rewrite Hs, Ht. cbn [andb]. unfold ReadChecker_run.
  destruct (allowReadCheck _ _) eqn:Eacc; [|split; [done|]; eapply heard_more; [|done|exact Hh]; done].
  assert (heard_since (pre ++ [(t, ReadTimer t ir)]) (set_lastRunTime t s1)) as Hmark.
  { right. exists pre, [], t, ir. split; [done|]. by intros ? ? ?%elem_of_nil. }
  unfold readCheck. cbn [inRead set_lastRunTime]. destruct (_ || _) eqn:Ebusy; [split; [by split|exact Hmark]|].
  assert (commandReceived s1 = true) as Hcr.
  { destruct Hh as [?|(p & q & now & ir' & Ep & Hq)]; [done|exfalso]. unfold allowReadCheck in Eacc. fold (threshold s1) in Eacc. rewrite Hl in Eacc. apply Z.ltb_lt in Eacc. set (L := lastRunTime s1) in *.
    assert ((L, ReadTimer now ir') ∈ l) as HL by (rewrite E, Ep; apply elem_of_app; left; apply elem_of_app; right; left).
    pose proof (Hspan _ (proj1 (list_elem_of_In _ _) HL)) as HspL. pose proof (Hspan _ (proj1 (list_elem_of_In _ _) Hin)) as Hspt. cbn [fst] in HspL, Hspt.
    destruct (Hev L) as (ta & Hta & c & Harr); [lia|lia|]. rewrite E, Ep, <- app_assoc in Harr, Hord. cbn [app] in Harr, Hord.
    apply elem_of_app in Harr as [Harr|Harr]; [pose proof (in_order_app _ _ Hord _ (L, ReadTimer now ir') Harr ltac:(left)); cbn in *; lia|].
    apply elem_of_cons in Harr as [[=]|Harr]. apply in_order_tail in Hord. apply (in_order_tail [(L, ReadTimer now ir')]) in Hord. apply elem_of_app in Harr as [Harr|Harr]; [by apply (Hq _ c Harr)|].
    apply elem_of_cons in Harr as [[=]|Harr]. apply in_order_tail in Hord. pose proof (in_order_app [(t, ReadTimer t ir)] post Hord _ (ta, Arrives c) ltac:(left) Harr). cbn in *. lia. }
  cbn [commandReceived set_lastRunTime]. rewrite Hcr. split; [by split|].
  right. exists pre, [], t, ir. split; [done|]. by intros ? ? ?%elem_of_nil.
Qed.

(** A side that knows both WireFormatInfos and starts. *)
Record ready (mine peers : Info) (s : InactivityMonitor) : Prop := {
  re_local : localWireFormatInfo s = Some mine;
  re_remote : remoteWireFormatInfo s = Some peers;
  re_new : monitorStarted s = false;
  re_timers : timersLive s = true;
  re_ok : failed s = false;
  re_idle : inWrite s = false;
}.

Definition negotiated (a b : Info) : Z := Z.min (maxInactivityDuration a) (maxInactivityDuration b).

Lemma ready_starts a b s : ready a b s -> 3 < negotiated a b -> let s' := (startMonitorThreads s).1 in
  writing s' /\ writeCheckTime s' = negotiated a b / 3 /\ (negotiated a b * 9 < 2 ^ 63 -> reading (negotiated a b * 9 / 10) s') /\ commandReceived s' = commandReceived s.
Proof.
  intros [Hl Hr Hn Ht Hf Hi] H3. cbv zeta. unfold startMonitorThreads. rewrite Hn, Hl, Hr. fold (negotiated a b). rewrite (proj2 (Z.ltb_lt 0 _)), (proj2 (Z.ltb_lt 3 _)) by lia.
  cbn [fst]. split; [by split|]. split; [done|]. split; [|done]. intros Ho. split; try done. unfold threshold. cbn [readCheckTime set_lastRunTime set_times]. rewrite wraps_id by (unfold in_s; lia). by rewrite Z.quot_div_nonneg by lia.
Qed.

(** C25: two sides that negotiated a duration of [r] keep their connection, however little
    they have to say: when the write checks of the one come every [r / 3] with a delay of at
    most [j], and what it sends arrives within [d], no read check of the other fails if
    [2 * (r / 3 + j) + d] is not more than nine tenths of [r]. *)
Theorem connection_stays_alive a b A B la lb from to j d : ready a b A -> ready b a B -> 3 < negotiated a b -> negotiated a b * 9 < 2 ^ 63 -> 0 <= j -> 0 <= d ->
  let A' := (startMonitorThreads A).1 in let B' := (startMonitorThreads B).1 in
  2 * (writeCheckTime A' + j) + d <= negotiated a b * 9 / 10 ->
  in_order la -> every (writeCheckTime A' + j) from to (fun t => (t, Checks) ∈ la) ->
  in_order lb -> Forall reads lb -> Forall (fun x => from <= x.1 <= to + d) lb -> commandReceived B = true ->
  (forall t, t ∈ sent_times la A' -> exists t' c, t <= t' <= t + d /\ (t', Arrives c) ∈ lb) ->
  failed (playing lb B') = false /\ readFailed (playing lb B') = false.
Proof.
  intros HA HB H3 Ho Hj Hd. cbv zeta. assert (negotiated b a = negotiated a b) as Eba by (unfold negotiated; lia). rewrite <- Eba in H3, Ho. destruct (ready_starts _ _ _ HB H3) as (_ & _ & HrB & HcB). specialize (HrB Ho).
  rewrite Eba in *. destruct (ready_starts _ _ _ HA H3) as (HwA & EwA & _). set (A' := (startMonitorThreads A).1) in *. set (B' := (startMonitorThreads B).1) in *. clearbody A' B'.
  intros Hsum Hla HevA Hlb Hreads Hspan HcrB Harr. pose proof (Z.div_pos (negotiated a b) 3). assert (0 < negotiated a b / 3) by (apply Z.div_str_pos; lia). rewrite EwA in *.
  pose proof (keeps_alive _ from to la A' Hla HwA HevA ltac:(lia)) as Hsent.
  assert (every (2 * (negotiated a b / 3 + j) + d) from (to + d) (fun t => exists c, (t, Arrives c) ∈ lb)) as Hev.
  { intros s H1 H2. destruct (Hsent s H1 ltac:(lia)) as (t & Ht & Hin). destruct (Harr t Hin) as (t' & c & Ht' & Hin'). exists t'. split; [lia|]. by exists c. }
  destruct (no_alarm lb _ (negotiated a b * 9 / 10) from (to + d) B' Hlb Hreads Hspan Hev ltac:(lia) HrB ltac:(congruence) lb [] ltac:(by rewrite app_nil_r)) as [[_ _ Hf Ha _] _]. done.
Qed.

(** *** Two sides with nothing to say *)

Definition idle_info : Info := mkInfo 30000 10000.
Definition known (s : InactivityMonitor) : InactivityMonitor := set_filterOpen true (set_infos (Some idle_info) (Some idle_info) s).
Definition ticks (n : nat) : list Z := map (fun k => 10000 * Z.of_nat k) (List.seq 1 n).
Definition idle_writer : list (Z * beat) := map (fun t => (t, Checks)) (ticks 12).
Definition idle_reader : list (Z * event) := flat_map (fun t => (if t mod 20000 =? 10000 then [(t, Arrives (KeepAliveInfo false)); (t, Delivered)] else []) ++ (if t mod 30000 =? 0 then [(t, ReadTimer t false)] else [])) (ticks 12).

Lemma known_ready responseRequired : ready idle_info idle_info (known (InactivityMonitor_new responseRequired)).
Proof. done. Qed.

Fixpoint sorted_b (l : list Z) : bool := match l with [] => true | x :: l' => forallb (Z.leb x) l' && sorted_b l' end.
Lemma in_order_b {A} (l : list (Z * A)) : sorted_b (map fst l) = true -> in_order l.
Proof.
  unfold in_order. induction l as [|x l IH]; intros H; [constructor|]. cbn in H. apply andb_true_iff in H as [H1 H2]. constructor; [by apply IH|].
  apply List.Forall_forall. intros y Hy. rewrite forallb_forall in H1. apply Z.leb_le, H1. by apply in_map.
Qed.
Definition reads_b (x : Z * event) : bool := match x.2 with ReadTimer now _ => now =? x.1 | Fails _ | Stops | RunsWrite (Some _) => false | _ => true end.
Lemma reads_b_ok l : forallb reads_b l = true -> Forall reads l.
Proof. rewrite forallb_forall. intros H. apply List.Forall_forall. intros [t ev] Hx. specialize (H _ Hx). unfold reads, reads_b in *. cbn in *. destruct ev as [| | | |now ir| | |[]| | |]; try done. by apply Z.eqb_eq. Qed.
Lemma span_b_ok {A} from to (l : list (Z * A)) : forallb (fun x => (from <=? x.1) && (x.1 <=? to)) l = true -> Forall (fun x => from <= x.1 <= to) l.
Proof. rewrite forallb_forall. intros H. apply List.Forall_forall. intros x Hx. specialize (H _ Hx). lia. Qed.

Lemma dead_peer_detected_witness : let s := (startMonitorThreads (known (InactivityMonitor_new false))).1 in
  let s' := run [ReadTimer 40000 false; WriteTimer; RunsWrite None; ReadTimer 70000 false; Written; RunsReadError] s in failed s' = true /\ exceptions s' = 1%nat.
Proof.
  apply (dead_peer_detected (startMonitorThreads (known (InactivityMonitor_new false))).1 [] 40000 [WriteTimer; RunsWrite None] 70000 [Written]); [done|done|by repeat constructor|vm_compute; reflexivity|vm_compute; reflexivity].
Defined.

Lemma connection_stays_alive_witness : let B' := (startMonitorThreads (known (InactivityMonitor_new false))).1 in
  failed (playing idle_reader B') = false /\ readFailed (playing idle_reader B') = false.
Proof.
  apply (connection_stays_alive idle_info idle_info (known (InactivityMonitor_new false)) (known (InactivityMonitor_new false)) idle_writer idle_reader 0 120000 1000 1000); try apply known_ready; try done.
  - by apply in_order_b.
  - intros s H1 H2. change (writeCheckTime _) with 10000 in *. exists (10000 * (s / 10000 + 1)). pose proof (Z.div_mod s 10000 ltac:(lia)). pose proof (Z.mod_pos_bound s 10000 ltac:(lia)). split; [lia|].
    apply list_elem_of_fmap_2' with (x := 10000 * (s / 10000 + 1)); [|done]. apply list_elem_of_In, in_map_iff. exists (Z.to_nat (s / 10000 + 1)). split; [lia|]. apply in_seq. lia.
  - by apply in_order_b.
  - by apply reads_b_ok.
  - by apply span_b_ok.
  - intros t Ht. exists t, (KeepAliveInfo false). split; [lia|]. vm_compute in Ht. repeat (apply elem_of_cons in Ht as [->|Ht]; [apply list_elem_of_In; vm_compute; tauto|]). by apply elem_of_nil in Ht.
Defined.

(** Whatever happens to a monitor, its listener is told of one exception at most. *)
Lemma one_exception evs responseRequired : (exceptions (run evs (InactivityMonitor_new responseRequired)) <= 1)%nat.
Proof.
  assert (forall s, told_once s -> told_once (run evs s)) as H.
  { induction evs as [|ev evs IH]; intros s Hs; [done|]. apply IH. by apply told_once_step. }
  assert (told_once (InactivityMonitor_new responseRequired)) as H0 by (vm_compute; lia).
  apply H in H0. unfold told_once in H0. destruct (failed _) in H0; lia.
Qed.
