(* ===== verification/TaskRunner.v ===== *)
(** * CompositeTaskRunner (activemq/threads): a thread that runs the tasks which have work.

    The thread of the runner is in some place of [run] and [iterate]; callers of [wakeup] and
    [shutdown] are in some place of theirs. An event is what one of them does while it holds
    a lock, or an atomic operation. The list of tasks is locked for as long as [iterate]
    goes, the task it runs included, and the thread of the runner may come back into it. *)
From stdpp Require Import gmap.
From S2P Require Import Prelude.

Inductive TaskRunnerState : Type := RUNNING | STOPPING | STOPPED.
#[export] Instance TaskRunnerState_dec : EqDecision TaskRunnerState.
Proof. solve_decision. Defined.

(** Where the thread of the runner is. *)
Inductive Place : Type :=
  | Unstarted
  | Looping               (* before it looks at the state *)
  | Clearing              (* before [pending] is cleared *)
  | Scanning (i : nat)    (* in the loop of [iterate], which has looked at [i] tasks *)
  | Iterating (t : nat)   (* in [iterate] of a task, which is not in the list *)
  | Deciding              (* [iterate] had nothing to do: before the lock *)
  | Parked                (* in [mutex.wait(100)] *)
  | Ending
  | Finished.

#[export] Instance Place_dec : EqDecision Place.
Proof. solve_decision. Defined.

(** Where a thread is that called [wakeup] or [shutdown]: [inside] if it is the thread
    of the runner, [timed] if it waits for a time only. *)
Inductive Caller : Type :=
  | Waking (inside : bool)
  | Notifying (inside : bool)
  | Shutting (inside timed : bool)
  | Announcing (inside timed : bool)
  | Joining (timed : bool)
  | Returned.

Record Runner : Type := mkRunner {
  tasks : list nat;
  pending : bool;
  state : TaskRunnerState;
  place : Place;
  callers : list Caller;
  ready : gset nat;        (* the tasks that say [isPending] *)
  iterated : list nat;     (* the calls of a task's [iterate] *)
}.
Definition CompositeTaskRunner_new : Runner := mkRunner [] false RUNNING Unstarted [] ∅ [].

Definition with_tasks x (s : Runner) := mkRunner x (pending s) (state s) (place s) (callers s) (ready s) (iterated s).
Definition with_pending x (s : Runner) := mkRunner (tasks s) x (state s) (place s) (callers s) (ready s) (iterated s).
Definition with_state x (s : Runner) := mkRunner (tasks s) (pending s) x (place s) (callers s) (ready s) (iterated s).
Definition at_place x (s : Runner) := mkRunner (tasks s) (pending s) (state s) x (callers s) (ready s) (iterated s).
Definition with_callers x (s : Runner) := mkRunner (tasks s) (pending s) (state s) (place s) x (ready s) (iterated s).
Definition with_ready x (s : Runner) := mkRunner (tasks s) (pending s) (state s) (place s) (callers s) x (iterated s).
Definition iterates t (s : Runner) := mkRunner (tasks s) (pending s) (state s) (Iterating t) (callers s) (ready s) (iterated s ++ [t]).
Definition calls c (s : Runner) := with_callers (callers s ++ [c]) s.

Definition running (s : Runner) : bool := bool_decide (state s = RUNNING).

(** ** The thread of the runner *)

(** One turn of the loop of [iterate]. *)
Definition scan (i : nat) (s : Runner) : Runner :=
  match tasks s with
  | t :: rest =>
      if (i <? length (tasks s))%nat then
        if decide (t ∈ ready s) then iterates t (with_tasks rest s)
        else at_place (Scanning (S i)) (with_tasks (rest ++ [t]) s)
      else at_place Deciding s
  | [] => at_place Deciding s
  end.

(** After [iterate] of a task: the task goes to the end of the list, unless the runner is
    being stopped. *)
Definition iterate_ends (t : nat) (s : Runner) : Runner :=
  if running s then at_place Looping (with_tasks (tasks s ++ [t]) s) else at_place Deciding s.

(** The condition of the wait. *)
Definition wait_over (s : Runner) : bool := pending s || negb (running s).

(** Who is inside the runner is in a call that has not returned. *)
Definition inside (c : Caller) : bool := match c with Waking b | Notifying b | Shutting b _ | Announcing b _ => b | _ => false end.
Definition busy_inside (s : Runner) : bool := existsb inside (callers s).

(** [run]; [throws] says how [iterate] of a task ends. [synchronized] is a loop of its own: the
    [break] before the wait only gives up the lock, and the loop of [run] looks at the state
    again. *)
Definition run (throws : bool) (s : Runner) : option Runner :=
  match place s with
  | Unstarted | Finished => None
  | Looping => Some (at_place (if running s then Clearing else Ending) s)
  | Clearing => Some (at_place (Scanning 0) (with_pending false s))
  | Scanning i => Some (scan i s)
  | Iterating t => if busy_inside s then None else Some (if throws then at_place Ending s else iterate_ends t s)
  | Deciding => Some (at_place (if running s && negb (wait_over s) then Parked else Looping) s)
  | Parked => Some (if wait_over s then at_place Looping s else s)
  | Ending => Some (at_place Finished (with_state STOPPED s))
  end.

(** ** The other threads *)

(** [wakeup] and [shutdown], a step of the caller. A thread that was not started is not
    waited for. *)
Definition proceed (timeup : bool) (c : Caller) (s : Runner) : option (Caller * Runner) :=
  match c with
  | Waking b => Some (if running s then Notifying b else Returned, s)
  | Notifying _ => Some (Returned, with_pending true s)
  | Shutting b timed => Some (if running s then (Announcing b timed, with_state STOPPING s) else (Returned, s))
  | Announcing b timed => Some (if b then Returned else if decide (state s = STOPPED) then Returned else Joining timed, with_pending true s)
  | Joining timed => if decide (place s = Finished \/ place s = Unstarted) then Some (Returned, s) else if timed && timeup then Some (Returned, s) else None
  | Returned => None
  end.

(** [addTask] and [removeTask] until they call [wakeup]. *)
Definition addTask (t : nat) (inside : bool) (s : Runner) : Runner := calls (Waking inside) (with_tasks (tasks s ++ [t]) s).
Fixpoint remove_first_task (t : nat) (l : list nat) : list nat :=
  match l with [] => [] | x :: l' => if decide (x = t) then l' else x :: remove_first_task t l' end.
Definition removeTask (t : nat) (inside : bool) (s : Runner) : Runner := calls (Waking inside) (with_tasks (remove_first_task t (tasks s)) s).

(** [start] *)
Definition start (s : Runner) : Runner :=
  if running s then match place s with Unstarted => calls (Waking false) (at_place Looping s) | _ => s end else s.

(** The list of tasks is free for a thread that is not the runner's, or for the runner's own
    while it runs a task. *)
Definition iterating (s : Runner) : bool := match place s with Iterating _ => true | _ => false end.
Definition scanning (s : Runner) : bool := match place s with Scanning _ => true | _ => false end.
Definition may_enter (b : bool) (s : Runner) : bool := if b then iterating s && negb (busy_inside s) else negb (iterating s) && negb (scanning s).
Definition may_call (b : bool) (s : Runner) : bool := if b then iterating s && negb (busy_inside s) else true.

Inductive event : Type :=
  | Runs (throws : bool)
  | Proceeds (i : nat) (timeup : bool)
  | Starts
  | Signals (t : nat) (inside : bool)     (* gives the task work, and calls [wakeup] *)
  | Rearms (t : nat) | Consumes (t : nat) (* what [iterate] of the task does to its work *)
  | Adds (t : nat) (inside : bool)
  | Removes (t : nat) (inside : bool)
  | ShutsDown (inside timed : bool).

Definition step (ev : event) (s : Runner) : option Runner :=
  match ev with
  | Runs throws => run throws s
  | Proceeds i timeup => match callers s !! i with
      | Some c => match proceed timeup c s with Some (c', s') => Some (with_callers (<[i := c']> (callers s)) s') | None => None end
      | None => None
      end
  | Starts => Some (start s)
  | Signals t b => if may_call b s then Some (calls (Waking b) (with_ready ({[t]} ∪ ready s) s)) else None
  | Rearms t => if decide (place s = Iterating t) then Some (with_ready ({[t]} ∪ ready s) s) else None
  | Consumes t => if decide (place s = Iterating t) then Some (with_ready (ready s ∖ {[t]}) s) else None
  | Adds t b => if may_enter b s then Some (addTask t b s) else None
  | Removes t b => if may_enter b s then Some (removeTask t b s) else None
  | ShutsDown b timed => if may_call b s then Some (calls (Shutting b timed) s) else None
  end.

Fixpoint history (evs : list event) (s : Runner) : option Runner :=
  match evs with [] => Some s | ev :: evs' => match step ev s with Some s' => history evs' s' | None => None end end.
