(* ===== verification/TaskRunnerTheorems.v ===== *)
(** * TaskRunner: a task that has work is run, and none when the shutdown that ends the
    runner has returned. *)
From stdpp Require Import gmap.
From S2P Require Import Prelude TaskRunner.
From Stdlib Require Import Lia.

#[local] Arguments Nat.ltb : simpl never.
#[local] Arguments Nat.sub : simpl never.
#[local] Arguments Nat.mul : simpl never.

(** ** Where a task is in the list *)

Fixpoint pos (t : nat) (l : list nat) : nat := match l with [] => O | x :: l' => if decide (x = t) then O else S (pos t l') end.

Lemma pos_lt t l : t ∈ l -> (pos t l < length l)%nat.
Proof. induction l as [|x l IH]; [by intros ?%elem_of_nil|]. intros [->|H]%elem_of_cons; cbn; destruct (decide _); try done; try lia; specialize (IH H); lia. Qed.
Lemma pos_app t l k : t ∈ l -> pos t (l ++ k) = pos t l.
Proof. induction l as [|x l IH]; [by intros ?%elem_of_nil|]. intros [->|H]%elem_of_cons; cbn; destruct (decide _); try done. by rewrite IH. Qed.
Lemma pos_head t x l : x <> t -> pos t (x :: l) = S (pos t l).
Proof. intros H. cbn. by destruct (decide _). Qed.
Lemma remove_first_other t x l : x <> t -> t ∈ l -> t ∈ remove_first_task x l /\ (pos t (remove_first_task x l) <= pos t l)%nat.
Proof.
  intros Hn. induction l as [|y l IH]; [by intros ?%elem_of_nil|]. intros [<-|H]%elem_of_cons; cbn.
  - rewrite decide_False by done. split; [by left|]. cbn. destruct (decide (t = t)); [lia|done].
  - destruct (IH H) as [H1 H2]. destruct (decide (y = x)) as [->|Hy].
    + split; [done|]. rewrite decide_False by done. lia.
    + split; [by right|]. cbn. destruct (decide (y = t)); lia.
Qed.
Lemma remove_first_in t x l : t ∈ remove_first_task x l -> t ∈ l.
Proof. induction l as [|y l IH]; cbn; [done|]. destruct (decide _); [by right|]. intros [->|?]%elem_of_cons; [by left|right; by apply IH]. Qed.

(** ** No wakeup is lost *)

Definition calling (c : Caller) : Prop := match c with Waking _ | Notifying _ => True | _ => False end.
Definition stopping (c : Caller) : Prop := match c with Shutting _ _ | Announcing _ _ | Joining _ => True | _ => False end.
Definition underway (s : Runner) : Prop := exists c, c ∈ callers s /\ calling c.
Definition alive (s : Runner) : Prop := state s = RUNNING /\ match place s with Unstarted | Ending | Finished => False | _ => True end.

(** The runner will look at the task before it waits. *)
Definition awake (t : nat) (s : Runner) : Prop :=
  match place s with
  | Looping | Clearing | Iterating _ => True
  | Scanning i => pending s = true \/ (pos t (tasks s) < length (tasks s) - i)%nat
  | Deciding | Parked => pending s = true
  | _ => False
  end.
Definition due (t : nat) (s : Runner) : Prop := t ∈ tasks s /\ t ∈ ready s.
Definition told (s : Runner) : Prop := alive s -> forall t, due t s -> underway s \/ awake t s.

#[local] Arguments pos : simpl never.

(** How many steps of its thread the runner takes at most before it runs the task. *)
Definition ahead (t : nat) (s : Runner) : nat :=
  let p := pos t (tasks s) in
  match place s with
  | Looping => 4 * p + 3
  | Clearing => 4 * p + 2
  | Scanning i => if (p <? length (tasks s) - i)%nat then 4 * p + 1 else 4 * p + 6
  | Iterating _ => 4 * p + 4
  | Deciding => 4 * p + 5
  | Parked => 4 * p + 4
  | _ => 0
  end.

(** A step of the thread of the runner, while it goes on, runs the task or comes nearer. *)
Lemma run_awake t s s' : alive s -> alive s' -> due t s -> awake t s -> place s <> Iterating t -> run false s = Some s' ->
  place s' = Iterating t /\ iterated s' = iterated s ++ [t] \/
  place s' <> Iterating t /\ (exists l, iterated s' = iterated s ++ l) /\ due t s' /\ awake t s' /\ (ahead t s' < ahead t s)%nat.
Proof.
  intros [Hr Hp] [Hr' Hp'] [Ht Hd] Ha Hn. pose proof (pos_lt _ _ Ht) as Hlt.
  assert (exists l, iterated s = iterated s ++ l) as Hnil by (exists []; by rewrite app_nil_r).
  unfold run, awake, running, due, ahead in *. rewrite Hr in *. destruct (place s) as [| | |i|u| | | |] eqn:Ep; try done; cbn in *.
  - intros [= <-]. right. cbn. split_and!; try done. lia.
  - intros [= <-]. right. cbn. split_and!; try done; [right; lia|]. rewrite (proj2 (Nat.ltb_lt _ _)) by lia. lia.
  - unfold scan. intros [= <-]. destruct (tasks s) as [|x rest] eqn:Et; [by apply elem_of_nil in Ht|]. destruct (Nat.ltb_spec i (length (x :: rest))) as [Hi|Hi].
    + destruct (decide (x = t)) as [->|Hx].
      * left. rewrite decide_True by done. done.
      * right. apply elem_of_cons in Ht as [?|Ht]; [done|]. rewrite pos_head in * by done. cbn [length] in *. destruct (decide (x ∈ ready s)) as [Hxr|Hxr]; cbn.
        -- split_and!; try done; [congruence|by eexists|]. destruct (Nat.ltb_spec (S (pos t rest)) (S (length rest) - i)); lia.
        -- rewrite pos_app, length_app by done. cbn. split_and!; try done; [apply elem_of_app; by left|destruct Ha as [|Ha]; [by left|right; unfold lt in *; lia]|].
           destruct (Nat.ltb_spec (pos t rest) (length rest + 1 - S i)), (Nat.ltb_spec (S (pos t rest)) (S (length rest) - i)); lia.
    + right. destruct Ha; [|lia]. cbn. rewrite Et. cbn [length] in *. split_and!; try done. rewrite (proj2 (Nat.ltb_ge _ _)) by lia. lia.
  - destruct (busy_inside s); [done|]. unfold iterate_ends, running. rewrite Hr. cbn. intros [= <-]. right. cbn. rewrite pos_app by done. split_and!; try done; [apply elem_of_app; by left|lia].
  - unfold wait_over, running. rewrite Hr, Ha. cbn. intros [= <-]. right. cbn. split_and!; try done. lia.
  - unfold wait_over, running. rewrite Hr, Ha. cbn. intros [= <-]. right. cbn. split_and!; try done. lia.
Qed.

(** A step of another thread, or of a task, does not take it away. *)
Definition calm (t : nat) (ev : event) : Prop :=
  match ev with Runs true | ShutsDown _ _ => False | Removes t' _ => t' <> t | _ => True end.

Lemma awake_frame t s s' : place s' = place s -> tasks s' = tasks s -> (pending s = true -> pending s' = true) -> awake t s -> awake t s'.
Proof. intros Hp Ht Hi. unfold awake. rewrite Hp, Ht. destruct (place s); tauto. Qed.
Lemma ahead_frame t s s' : place s' = place s -> tasks s' = tasks s -> ahead t s' = ahead t s.
Proof. intros Hp Ht. unfold ahead. by rewrite Hp, Ht. Qed.

(** Only the thread of the runner scans, and the list is locked while it does. *)
Lemma may_enter_place b s : may_enter b s = true -> match place s with Scanning _ => False | Iterating _ => b = true | _ => b = false end.
Proof. unfold may_enter, iterating, scanning. destruct b, (place s); cbn; done. Qed.

Lemma awake_tasks t s l : (forall i, place s <> Scanning i) -> awake t s -> awake t (with_tasks l s).
Proof. intros Hn. unfold awake. cbn. destruct (place s) eqn:E; try done. by destruct (Hn i). Qed.
Lemma ahead_tasks t s l : (forall i, place s <> Scanning i) -> (pos t l <= pos t (tasks s))%nat -> (ahead t (with_tasks l s) <= ahead t s)%nat.
Proof. intros Hn Hl. unfold ahead. cbn. destruct (place s) eqn:E; try lia. by destruct (Hn i). Qed.

Lemma proceed_frame timeup c s c' s' : proceed timeup c s = Some (c', s') ->
  place s' = place s /\ tasks s' = tasks s /\ ready s' = ready s /\ iterated s' = iterated s /\ callers s' = callers s /\ (pending s = true -> pending s' = true) /\
  (stopping c \/ state s' = state s /\ ~ stopping c') /\ (calling c -> state s = RUNNING -> calling c' \/ pending s' = true).
Proof.
  unfold proceed, running. destruct c as [b|b|b timed|b timed|timed|]; cbn.
  - intros [= <- <-]. split_and!; try done; [right; split; [done|destruct (bool_decide _); by intros []]|]. intros _ ->. by left.
  - intros [= <- <-]. split_and!; try done; [right; split; [done|by intros []]|]. by right.
  - destruct (bool_decide _); intros [= <- <-]; cbn; split_and!; try done; by left.
  - intros [= <- <-]. cbn. split_and!; try done. by left.
  - destruct (decide _); [intros [= <- <-]; split_and!; try done; by left|]. destruct (_ && _); [|done]. intros [= <- <-]; split_and!; try done; by left.
  - done.
Qed.

Definition orderly (s : Runner) : Prop := Forall (fun c => ~ stopping c) (callers s).

Lemma run_alive s s' : alive s -> run false s = Some s' -> alive s' /\ callers s' = callers s /\ ready s' = ready s.
Proof.
  intros [Hr Hp]. unfold run, alive, scan, iterate_ends, wait_over, running. rewrite Hr. cbn. destruct (place s) eqn:Ep; try done; cbn; repeat case_match; intros; simplify_eq/=; try done; congruence.
Qed.

(** What a step that is not the runner's may do to it. *)
Record gentle (t : nat) (s s' : Runner) : Prop := mkGentle {
  g_place : place s' = place s;
  g_state : state s' = state s;
  g_iterated : iterated s' = iterated s;
  g_pending : pending s = true -> pending s' = true;
  g_orderly : orderly s';
  g_tasks : tasks s' = tasks s \/ (forall i, place s <> Scanning i) /\ (t ∈ tasks s -> t ∈ tasks s' /\ (pos t (tasks s') <= pos t (tasks s))%nat);
  g_ready : t ∈ ready s -> t ∈ ready s' \/ place s = Iterating t;
}.

Lemma orderly_calls b s l p st pl r it : orderly s -> orderly (calls (Waking b) (mkRunner l p st pl (callers s) r it)).
Proof. intros H. unfold orderly in *. cbn. apply List.Forall_app. split; [done|]. constructor; [by intros []|constructor]. Qed.

Lemma step_gentle t ev s s' : calm t ev -> alive s -> orderly s -> step ev s = Some s' -> (exists b, ev = Runs b) \/ gentle t s s'.
Proof.
  intros Hc [Hr Hp] Ho. destruct ev as [throws|i timeup| |t' b|t'|t'|t' b|t' b|b timed]; cbn; [by left; eexists|..]; intros E; right; try done.
  - destruct (callers s !! i) as [c|] eqn:Ec; [|done]. destruct (proceed timeup c s) as [[c' s1]|] eqn:Eq; [|done]. injection E as <-.
    destruct (proceed_frame _ _ _ _ _ Eq) as (H1 & H2 & H3 & H4 & H5 & H6 & H7 & _).
    assert (~ stopping c) as Hns by (eapply (proj1 (Forall_lookup _ _) Ho); exact Ec). destruct H7 as [?|[H7 H8]]; [done|]. split; cbn; try done; [|by left|by rewrite H3; left].
    unfold orderly. cbn. by apply Forall_insert.
  - injection E as <-. unfold start. destruct (running s); [|by split; try done; left]. destruct (place s) eqn:Ep; try done; split; rewrite ?Ep; try done; by left.
  - destruct (may_call b s); [|done]. injection E as <-. split; cbn; try done; [by apply orderly_calls|by left|]. intros H. left. set_solver.
  - destruct (decide _); [|done]. injection E as <-. split; cbn; try done; [by left|]. intros H. left. set_solver.
  - destruct (decide _) as [Hi|]; [|done]. injection E as <-. split; cbn; try done; [by left|]. intros H. destruct (decide (t' = t)) as [<-|]; [by right|left; set_solver].
  - destruct (may_enter b s) eqn:Em; [|done]. injection E as <-. apply may_enter_place in Em. split; cbn; try done; [by apply orderly_calls| |by left]. right. split; [intros i Hi; by rewrite Hi in Em|].
    intros Ht. split; [apply elem_of_app; by left|]. by rewrite pos_app.
  - destruct (may_enter b s) eqn:Em; [|done]. injection E as <-. apply may_enter_place in Em. split; cbn; try done; [by apply orderly_calls| |by left]. right. split; [intros i Hi; by rewrite Hi in Em|].
    intros Ht. by apply remove_first_other.
Qed.

Lemma gentle_awake t s s' : gentle t s s' -> alive s -> due t s -> awake t s -> place s <> Iterating t ->
  alive s' /\ due t s' /\ awake t s' /\ (ahead t s' <= ahead t s)%nat.
Proof.
  intros [G1 G2 _ G4 _ G6 G7] [Ha Hb] [Ht Hd] Haw Hn. split; [unfold alive; by rewrite G1, G2|]. destruct (G7 Hd) as [Hd'|]; [|done]. destruct G6 as [G6|[G6 G8]].
  - split; [by split; [rewrite G6|]|]. split; [by apply (awake_frame t s)|]. by rewrite (ahead_frame t s s').
  - destruct (G8 Ht) as [Ht' Hle]. split; [done|]. split; [by apply (awake_frame t (with_tasks (tasks s') s)); [done|done|done|apply awake_tasks]|].
    rewrite (ahead_frame t (with_tasks (tasks s') s) s') by done. by apply ahead_tasks.
Qed.

(** ** The invariant *)

Lemma underway_calls b s : underway (calls (Waking b) s).
Proof. exists (Waking b). split; [|done]. cbn. apply elem_of_app. right. by left. Qed.

Lemma pending_awake t s : alive s -> pending s = true -> awake t s.
Proof. intros [_ Hp] H. unfold awake. destruct (place s); try done. by left. Qed.

Lemma run_throws throws s s' : alive s' -> run throws s = Some s' -> run false s = Some s' /\ alive s.
Proof.
  intros Ha H. assert (run false s = Some s') as H'.
  { revert H Ha. unfold run, alive. destruct (place s), throws; try done. destruct (busy_inside s); [done|]. intros [= <-] [_ []]. }
  split; [done|]. clear H. revert H' Ha. unfold run, alive, scan, iterate_ends. destruct (place s); try done; repeat case_match; intros [= <-] [Hr Hp]; done.
Qed.

Lemma run_tasks s s' t : run false s = Some s' -> due t s' -> due t s \/ place s' = Looping \/ exists u, place s = Iterating u.
Proof.
  intros H [Ht Hd]. unfold run, due in *. destruct (place s) as [| | |i|u| | | |] eqn:Ep; try done; try (injection H as <-; cbn in *; by left); [|by right; right; eexists|].
  - injection H as <-. revert Ht Hd. unfold scan. destruct (tasks s) as [|x rest] eqn:Et; [cbn; rewrite Et; by left|].
    destruct (_ <? _)%nat; [destruct (decide _)|]; cbn; intros Ht Hd; left; try (by rewrite Et in Ht); split; try done; [by right|]. apply elem_of_app in Ht as [?|[->|[]%elem_of_nil]%elem_of_cons]; [by right|by left].
  - injection H as <-. destruct (wait_over s); by left.
Qed.

Lemma told_runner_step ev s s' : told s -> step ev s = Some s' -> told s'.
Proof.
  intros Hs E Ha t Hd. destruct ev as [throws|i timeup| |t' b|t'|t'|t' b|t' b|b timed]; cbn in E.
  - destruct (run_throws _ _ _ Ha E) as [E' Ha0]. destruct (run_alive _ _ Ha0 E') as (_ & Hc & _). destruct (iterating s) eqn:Ei; unfold iterating in Ei.
    { destruct (place s) as [| | | |u| | | |] eqn:Hu; try done. right. revert E'. destruct Ha0 as [Hr _]. unfold run, awake, iterate_ends, running. rewrite Hu, Hr. cbn. destruct (busy_inside s); [done|]. by intros [= <-]. }
    destruct (run_tasks _ _ _ E' Hd) as [Hd0|[Hl|[u Hu]]]; [|right; unfold awake; by rewrite Hl|by rewrite Hu in Ei].
    destruct (Hs Ha0 t Hd0) as [(c & Hin & Hcc)|Haw]; [left; exists c; by rewrite Hc|right]. destruct (run_awake t s s') as [[H _]|(_ & _ & _ & H & _)]; try done; [by intros H; rewrite H in Ei|unfold awake; by rewrite H].
  - destruct (callers s !! i) as [c|] eqn:Ec; [|done]. destruct (proceed timeup c s) as [[c' s1]|] eqn:Eq; [|done]. injection E as <-.
    destruct (proceed_frame _ _ _ _ _ Eq) as (H1 & H2 & H3 & _ & _ & H6 & _ & H8). assert (alive s) as Ha0.
    { destruct Ha as [Hr Hp]. split; [|by rewrite <- H1]. revert Eq Hr. unfold proceed. repeat case_match; intros; simplify_eq/=; done. }
    assert (due t s) as Hd0 by (unfold due in *; cbn in Hd; by rewrite <- H2, <- H3). destruct (Hs Ha0 t Hd0) as [(c0 & Hin & Hcc)|Haw]; [|right; by apply (awake_frame t s)].
    apply list_elem_of_lookup in Hin as (j & Hj). destruct (decide (i = j)) as [<-|Hn].
    + simplify_eq. destruct (H8 Hcc) as [Hc'|Hp]; [by destruct Ha0|left; exists c'; split; [|done]|right; by apply pending_awake]. cbn. apply list_elem_of_lookup. exists i. apply list_lookup_insert_eq. by eapply lookup_lt_Some.
    + left. exists c0. split; [|done]. cbn. apply list_elem_of_lookup. exists j. by rewrite list_lookup_insert_ne.
  - injection E as <-. unfold start in *. destruct (running s); [|by apply Hs]. destruct (place s) eqn:Ep; try (by apply Hs). by right.
  - destruct (may_call b s); [|done]. injection E as <-. left. apply underway_calls.
  - destruct (decide _) as [Hp|]; [|done]. injection E as <-. right. unfold awake. cbn. by rewrite Hp.
  - destruct (decide _) as [Hp|]; [|done]. injection E as <-. right. unfold awake. cbn. by rewrite Hp.
  - destruct (may_enter b s); [|done]. injection E as <-. left. apply underway_calls.
  - destruct (may_enter b s); [|done]. injection E as <-. left. apply underway_calls.
  - destruct (may_call b s); [|done]. injection E as <-. destruct (Hs Ha t Hd) as [(c & Hin & Hc)|?]; [left|by right]. exists c. split; [|done]. cbn. apply elem_of_app. by left.
Qed.

Lemma told_history evs s s' : told s -> history evs s = Some s' -> told s'.
Proof.
  revert s. induction evs as [|ev evs IH]; intros s Hs; cbn; [by intros [= <-]|]. destruct (step ev s) as [s1|] eqn:E; [|done]. apply IH. by eapply told_runner_step.
Qed.
Lemma told_new : told CompositeTaskRunner_new.
Proof. intros [_ []]. Qed.

(** ** The task is run *)

Definition runner_steps (evs : list event) : nat := length (List.filter (fun ev => match ev with Runs _ => true | _ => false end) evs).

Lemma step_iterated ev s s' : step ev s = Some s' -> exists l, iterated s' = iterated s ++ l.
Proof.
  assert (exists l, iterated s = iterated s ++ l) as Hnil by (exists []; by rewrite app_nil_r).
  destruct ev as [throws|i timeup| |t' b|t'|t'|t' b|t' b|b timed]; cbn; try (case_match; [|done]; intros [= <-]; done); try (case_match; [done|]; intros [= <-]; done).
  - unfold run, scan, iterate_ends. repeat case_match; intros [= <-]; try done. by eexists.
  - case_match; [|done]. case_match; [|done]. case_match; subst. intros [= <-]. cbn. match goal with H : proceed _ _ _ = _ |- _ => apply proceed_frame in H as (_ & _ & _ & -> & _) end. done.
  - intros [= <-]. unfold start. by repeat case_match.
Qed.
Lemma history_iterated evs s s' : history evs s = Some s' -> exists l, iterated s' = iterated s ++ l.
Proof.
  revert s. induction evs as [|ev evs IH]; intros s; cbn; [intros [= <-]; exists []; by rewrite app_nil_r|]. destruct (step ev s) as [s1|] eqn:E; [|done]. intros H.
  destruct (step_iterated _ _ _ E) as [l1 H1], (IH _ H) as [l2 H2]. exists (l1 ++ l2). by rewrite H2, H1, app_assoc.
Qed.

(** One step: the task is run, or it is nearer to it and everything as it was. *)
Lemma step_nearer t ev s s' : calm t ev -> alive s -> orderly s -> due t s -> awake t s -> place s <> Iterating t -> step ev s = Some s' ->
  iterated s' = iterated s ++ [t] \/
  alive s' /\ orderly s' /\ due t s' /\ awake t s' /\ place s' <> Iterating t /\ (ahead t s' + runner_steps [ev] <= ahead t s)%nat.
Proof.
  intros Hc Ha Ho Hd Haw Hn E. destruct (decide (runner_steps [ev] = 1%nat)) as [H1|H0].
  - destruct ev as [[]| | | | | | | |]; try done. cbn in E. destruct (run_alive _ _ Ha E) as (Ha' & Hcs & _). destruct (run_awake t s s') as [[_ ?]|(? & _ & ? & ? & ?)]; try done; [by left|right].
    split_and!; try done; [by unfold orderly; rewrite Hcs|cbn; lia].
  - destruct (step_gentle _ _ _ _ Hc Ha Ho E) as [[b ->]|Hg]; [done|]. right. destruct (gentle_awake _ _ _ Hg) as (? & ? & ? & ?); try done. destruct Hg as [G1 ? ? ? ?]. split_and!; try done; [by rewrite G1|].
    assert (runner_steps [ev] = 0%nat) as -> by (by destruct ev). lia.
Qed.

Lemma runner_steps_cons ev evs : runner_steps (ev :: evs) = (runner_steps [ev] + runner_steps evs)%nat.
Proof. by destruct ev. Qed.

Lemma served evs t s s' : alive s -> orderly s -> due t s -> awake t s -> place s <> Iterating t -> history evs s = Some s' -> Forall (calm t) evs ->
  (ahead t s <= runner_steps evs)%nat -> exists l, iterated s' = iterated s ++ l /\ t ∈ l.
Proof.
  revert s. induction evs as [|ev evs IH]; intros s Ha Ho Hd Haw Hn; cbn [history].
  - intros _ _. unfold ahead. destruct Ha as [_ Hp]. cbn. destruct (place s); try done; try lia. destruct (_ <? _)%nat; lia.
  - destruct (step ev s) as [s1|] eqn:E; [|done]. intros H Hc. apply List.Forall_cons_iff in Hc as [Hc Hcs]. rewrite runner_steps_cons. intros Hle.
    destruct (step_iterated _ _ _ E) as [l1 Hl1]. destruct (step_nearer _ _ _ _ Hc Ha Ho Hd Haw Hn E) as [Hi|(? & ? & ? & ? & ? & ?)].
    + destruct (history_iterated _ _ _ H) as [l Hl]. exists (t :: l). rewrite Hl, Hi, <- app_assoc. split; [done|by left].
    + destruct (IH s1) as (l & Hl & Ht); try done; [lia|]. exists (l1 ++ l). rewrite Hl, Hl1, app_assoc. split; [done|]. apply elem_of_app. by right.
Qed.

(** The runner will look at the task, or a wakeup is on its way that will make it. *)
Definition hopeful (o : option nat) (t : nat) (s : Runner) : Prop :=
  awake t s \/ exists i c, o = Some i /\ callers s !! i = Some c /\ calling c.

Lemma run_due t s s' : alive s -> due t s -> place s <> Iterating t -> run false s = Some s' ->
  iterated s' = iterated s ++ [t] \/ due t s' /\ place s' <> Iterating t.
Proof.
  intros [Hr _] [Ht Hd] Hn. unfold run, due, scan, iterate_ends, running. rewrite Hr. destruct (place s) as [| | |i|u| | | |] eqn:Ep; try done; try (intros [= <-]; by right).
  - intros [= <-]. destruct (tasks s) as [|x rest] eqn:Et; [by apply elem_of_nil in Ht|]. destruct (_ <? _)%nat; [|right; cbn; by rewrite Et]. destruct (decide (x = t)) as [->|Hx]; [left; by rewrite decide_True|].
    apply elem_of_cons in Ht as [?|Ht]; [done|]. destruct (decide _); right; cbn; split_and!; try done; [congruence|]. apply elem_of_app. by left.
  - destruct (busy_inside s); [done|]. intros [= <-]. right. cbn. split; [|done]. split; [apply elem_of_app; by left|done].
  - intros [= <-]. right. cbn. by repeat case_match.
  - intros [= <-]. right. destruct (wait_over s); cbn; rewrite ?Ep; done.
Qed.

Lemma gentle_due t s s' : gentle t s s' -> alive s -> due t s -> place s <> Iterating t -> alive s' /\ due t s' /\ place s' <> Iterating t.
Proof.
  intros [G1 G2 _ _ _ G6 G7] [Ha Hb] [Ht Hd] Hn. split; [unfold alive; by rewrite G1, G2|]. rewrite G1. split; [|done]. destruct (G7 Hd) as [?|]; [|done]. split; [|done].
  destruct G6 as [->|[_ G6]]; [done|by apply G6].
Qed.

(** A call of [wakeup] goes on until the runner is told. *)
Lemma step_calling ev s s' i c : step ev s = Some s' -> state s = RUNNING -> callers s !! i = Some c -> calling c ->
  (exists b, ev = Runs b) \/ pending s' = true \/ exists c', callers s' !! i = Some c' /\ calling c'.
Proof.
  intros E Hr Hi Hc. destruct ev as [throws|j timeup| |t' b|t'|t'|t' b|t' b|b timed]; cbn in E; [by left; eexists|..]; right; try (case_match; [|done]; injection E as <-; right; cbn; eauto using lookup_app_l_Some; done).
  - destruct (callers s !! j) as [d|] eqn:Ej; [|done]. destruct (proceed timeup d s) as [[d' s1]|] eqn:Eq; [|done]. injection E as <-. destruct (proceed_frame _ _ _ _ _ Eq) as (_ & _ & _ & _ & _ & _ & _ & H8). cbn.
    destruct (decide (j = i)) as [->|Hn]; [|right; exists c; by rewrite list_lookup_insert_ne]. simplify_eq. destruct (H8 Hc Hr) as [?|?]; [right; exists d'|by left]. split; [|done]. apply list_lookup_insert_eq. by eapply lookup_lt_Some.
  - injection E as <-. right. exists c. split; [|done]. unfold start. repeat case_match; cbn; first [done|by apply lookup_app_l_Some].
Qed.

Lemma step_hopeful o t ev s s' : calm t ev -> alive s -> orderly s -> due t s -> hopeful o t s -> place s <> Iterating t -> step ev s = Some s' ->
  iterated s' = iterated s ++ [t] \/ alive s' /\ orderly s' /\ due t s' /\ hopeful o t s' /\ place s' <> Iterating t.
Proof.
  intros Hc Ha Ho Hd Hh Hn E. destruct Hh as [Haw|(i & c & Ei & Hi & Hcc)].
  { destruct (step_nearer _ _ _ _ Hc Ha Ho Hd Haw Hn E) as [?|(? & ? & ? & ? & ? & _)]; [by left|right]. split_and!; try done. by left. }
  destruct (step_gentle _ _ _ _ Hc Ha Ho E) as [[b ->]|Hg].
  - destruct b; [done|]. cbn in E. destruct (run_alive _ _ Ha E) as (? & Hcs & _). destruct (run_due t _ _ Ha Hd Hn E) as [?|[? ?]]; [by left|right]. split_and!; try done; [unfold orderly; by rewrite Hcs|]. right. exists i, c. by rewrite Hcs.
  - right. destruct (gentle_due _ _ _ Hg Ha Hd Hn) as (Ha' & ? & ?). split_and!; try done; [apply Hg|]. destruct (step_calling _ _ _ _ _ E (proj1 Ha) Hi Hcc) as [[b ->]|[Hp|(c' & ? & ?)]].
    + cbn in E. destruct b; [done|]. destruct (run_alive _ _ Ha E) as (_ & Hcs & _). right. exists i, c. by rewrite Hcs.
    + left. by apply pending_awake.
    + right. by exists i, c'.
Qed.

Lemma history_hopeful o evs t s s' : alive s -> orderly s -> due t s -> hopeful o t s -> place s <> Iterating t -> history evs s = Some s' -> Forall (calm t) evs ->
  (exists l, iterated s' = iterated s ++ l /\ t ∈ l) \/ alive s' /\ orderly s' /\ due t s' /\ hopeful o t s' /\ place s' <> Iterating t.
Proof.
  revert s. induction evs as [|ev evs IH]; intros s Ha Ho Hd Hh Hn; cbn [history]; [intros [= <-] _; by right|]. destruct (step ev s) as [s1|] eqn:E; [|done]. intros H Hc. apply List.Forall_cons_iff in Hc as [Hc Hcs].
  destruct (step_hopeful _ _ _ _ _ Hc Ha Ho Hd Hh Hn E) as [Hi|(? & ? & ? & ? & ?)].
  - left. destruct (history_iterated _ _ _ H) as [l Hl]. exists (t :: l). rewrite Hl, Hi, <- app_assoc. split; [done|by left].
  - destruct (IH s1) as [(l & Hl & Ht)|?]; try done; [left|by right]. destruct (step_iterated _ _ _ E) as [l1 Hl1]. exists (l1 ++ l). rewrite Hl, Hl1, app_assoc. split; [done|]. apply elem_of_app. by right.
Qed.


(** ** Shutting down *)

(** A thread that waits for the runner has stopped it, and a runner that has stopped is at its end. *)
Definition announced (c : Caller) : bool := match c with Announcing _ _ | Joining _ => true | _ => false end.
Record coherent (s : Runner) : Prop := mkCoherent {
  c_stopped : state s = STOPPED -> place s = Finished;
  c_announced : existsb announced (callers s) = true -> state s <> RUNNING;
}.
(** Nothing of the runner moves any more. *)
Definition over (s : Runner) : Prop := state s <> RUNNING /\ (place s = Finished \/ place s = Unstarted).

Lemma existsb_snoc {A} (p : A -> bool) l x : existsb p (l ++ [x]) = existsb p l || p x.
Proof. rewrite existsb_app. cbn. by rewrite orb_false_r. Qed.
Lemma existsb_insert {A} (p : A -> bool) l i (x y : A) : l !! i = Some y -> existsb p (<[i := x]> l) = true -> p x = true \/ existsb p l = true.
Proof.
  intros Hi. rewrite !existsb_exists. intros (z & Hz & Hp). apply list_elem_of_In, list_elem_of_lookup in Hz as [j Hj]. destruct (decide (i = j)) as [<-|Hn].
  - rewrite list_lookup_insert_eq in Hj by (by eapply lookup_lt_Some). injection Hj as <-. by left.
  - rewrite list_lookup_insert_ne in Hj by done. right. exists z. split; [|done]. apply list_elem_of_In. by eapply list_elem_of_lookup_2.
Qed.

Lemma start_over s : start s = s \/ place s = Unstarted /\ state s = RUNNING /\ start s = calls (Waking false) (at_place Looping s).
Proof. unfold start, running. case_bool_decide; [|by left]. destruct (place s) eqn:E; try (by left). by right. Qed.

Lemma coherent_run throws s s' : coherent s -> run throws s = Some s' -> coherent s' /\ (state s <> RUNNING -> state s' <> RUNNING).
Proof.
  intros [H1 H2]. unfold run, scan, iterate_ends. destruct (place s) eqn:Ep; try done; repeat case_match; intros [= <-]; (split; [split|]); cbn in *; try done; intros Hst%H1; congruence.
Qed.

Lemma coherent_step ev s s' : coherent s -> step ev s = Some s' -> coherent s' /\ (state s <> RUNNING -> state s' <> RUNNING).
Proof.
  intros Hs E. pose proof Hs as [H1 H2]. destruct ev as [throws|i timeup| |t' b|t'|t'|t' b|t' b|b timed]; cbn in E; [by eapply coherent_run|..];
    try (case_match; [|done]; injection E as <-; split; [split|]; cbn; [done|rewrite ?existsb_snoc, ?orb_false_r; done|done]).
  - destruct (callers s !! i) as [c|] eqn:Ec; [|done]. destruct (proceed timeup c s) as [[c' s1]|] eqn:Eq; [|done]. injection E as <-.
    assert (c ∈ callers s) as Hin by (by eapply list_elem_of_lookup_2). assert (announced c = true -> existsb announced (callers s) = true) as Hex by (intros; apply existsb_exists; exists c; split; [by apply list_elem_of_In|done]).
    revert Eq. unfold proceed, running. destruct c as [b|b|b timed|b timed|timed|]; cbn; repeat case_match; intros; simplify_eq/=; split; try split; cbn; try done; try (intros [?|?]%(existsb_insert _ _ _ _ _ Ec); [done|by apply H2]); try (intros _; by apply H2, Hex); try case_bool_decide; try congruence.
  - injection E as <-. destruct (start_over s) as [->|(Hp & Hr & ->)]; [done|]. split; [|done]. split; cbn; [by rewrite Hr|]. rewrite existsb_snoc, orb_false_r. done.
Qed.

Lemma coherent_history evs s s' : coherent s -> history evs s = Some s' -> coherent s' /\ (state s <> RUNNING -> state s' <> RUNNING).
Proof.
  revert s. induction evs as [|ev evs IH]; intros s Hs; cbn; [by intros [= <-]|]. destruct (step ev s) as [s1|] eqn:E; [|done]. intros H.
  destruct (coherent_step _ _ _ Hs E) as [H1 Hr], (IH _ H1 H) as [H2 Hr']. auto.
Qed.
Lemma coherent_new : coherent CompositeTaskRunner_new.
Proof. by split. Qed.

Lemma over_step ev s s' : over s -> step ev s = Some s' -> over s' /\ iterated s' = iterated s.
Proof.
  intros [Hr Hp] E. destruct ev as [throws|i timeup| |t' b|t'|t'|t' b|t' b|b timed]; cbn in E; try (case_match; [|done]; by injection E as <-).
  - unfold run in E. by destruct Hp as [Hp|Hp]; rewrite Hp in E.
  - case_match; [|done]. case_match; [|done]. case_match; subst. injection E as <-.
    match goal with H : proceed _ _ _ = _ |- _ => pose proof H as H'; apply proceed_frame in H as (Hpl & _ & _ & Hi & _) end. split; [|done].
    split; cbn; [|by rewrite Hpl]. revert H'. unfold proceed, running. rewrite (bool_decide_eq_false_2 _ Hr). repeat case_match; intros; simplify_eq/=; done.
  - injection E as <-. destruct (start_over s) as [->|(_ & ? & _)]; done.
Qed.
Lemma over_history evs s s' : over s -> history evs s = Some s' -> iterated s' = iterated s.
Proof.
  revert s. induction evs as [|ev evs IH]; intros s Hs; cbn; [by intros [= <-]|]. destruct (step ev s) as [s1|] eqn:E; [|done]. intros H.
  destruct (over_step _ _ _ Hs E) as [H1 H2]. by rewrite (IH _ H1 H).
Qed.

(** Where a thread is that shuts the runner down and waits for it. *)
Definition waits_or_over (i : nat) (s : Runner) : Prop :=
  callers s !! i = Some (Announcing false false) \/ callers s !! i = Some (Joining false) \/ callers s !! i = Some Returned /\ over s.

Lemma step_callers i c ev s s' : callers s !! i = Some c -> step ev s = Some s' ->
  callers s' !! i = Some c \/ exists timeup c' s1, proceed timeup c s = Some (c', s1) /\ s' = with_callers (<[i := c']> (callers s)) s1.
Proof.
  intros Hi E. assert (forall x, (callers s ++ [x]) !! i = Some c) as Happ by (intros x; by apply lookup_app_l_Some).
  destruct ev as [throws|j timeup| |t' b|t'|t'|t' b|t' b|b timed]; cbn in E; try (case_match; [|done]; injection E as <-; left; cbn; done).
  - left. revert E. unfold run, scan, iterate_ends. repeat case_match; intros [= <-]; done.
  - case_match; [|done]. case_match; [|done]. case_match; subst. injection E as <-. destruct (decide (i = j)) as [<-|Hn]; [|left; cbn; by rewrite list_lookup_insert_ne].
    simplify_eq. right. by do 3 eexists.
  - injection E as <-. left. destruct (start_over s) as [->|(_ & _ & ->)]; [done|]. cbn. done.
Qed.

Lemma waits_step i ev s s' : coherent s -> waits_or_over i s -> step ev s = Some s' -> waits_or_over i s'.
Proof.
  intros [H1 H2] Hw E. assert (forall c, callers s !! i = Some c -> announced c = true -> state s <> RUNNING) as Hst.
  { intros c Hc Ha. apply H2, existsb_exists. exists c. split; [|done]. apply list_elem_of_In. by eapply list_elem_of_lookup_2. }
  assert (forall c c' s1, callers s !! i = Some c -> callers (with_callers (<[i := c']> (callers s)) s1) !! i = Some c') as Hins.
  { intros c c' s1 Hc. cbn. apply list_lookup_insert_eq. by eapply lookup_lt_Some. }
  destruct Hw as [Hw|[Hw|[Hw Ho]]]; destruct (step_callers _ _ _ _ _ Hw E) as [?|(timeup & c' & s1 & Eq & ->)]; try (by left); try (by right; left).
  - cbn in Eq. injection Eq as <- <-. unfold waits_or_over. rewrite (Hins _ _ _ Hw). case_decide as Hd; [|by right; left]. right; right. split; [done|]. split; [|left; by apply H1].
    cbn. by apply (Hst _ Hw).
  - cbn in Eq. case_decide as Hd; [|done]. injection Eq as <- <-. right. right. split; [by apply (Hins _ _ _ Hw)|]. split; [by apply (Hst _ Hw)|done].
  - right. right. split; [done|]. by eapply over_step.
Qed.


(** ** The end of the thread *)

(** How many steps of its thread a runner takes at most that was told to stop. *)
Definition to_go (s : Runner) : nat :=
  match place s with
  | Unstarted | Finished => 0
  | Ending => 1
  | Looping => 2
  | Deciding | Parked => 3
  | Iterating _ => 4
  | Scanning i => (length (tasks s) - i) + 4
  | Clearing => length (tasks s) + 5
  end.

Lemma run_nearer throws s s' : state s <> RUNNING -> run throws s = Some s' -> (to_go s' < to_go s)%nat.
Proof.
  intros Hr. unfold run, scan, iterate_ends, wait_over, to_go, running. rewrite (bool_decide_eq_false_2 _ Hr). cbn. rewrite orb_true_r. destruct (place s) as [| | |i|u| | | |] eqn:Ep; try done; repeat case_match; intros; simplify_eq/=; try lia.
  all: match goal with H : (_ <? _)%nat = true |- _ => apply Nat.ltb_lt in H end; rewrite ?length_app; cbn; lia.
Qed.

Definition no_adds (ev : event) : Prop := match ev with Adds _ _ => False | _ => True end.

Lemma remove_first_length t l : (length (remove_first_task t l) <= length l)%nat.
Proof. induction l as [|x l IH]; cbn; [lia|]. destruct (decide _); cbn; lia. Qed.

Lemma step_to_go ev s s' : state s <> RUNNING -> no_adds ev -> step ev s = Some s' -> (to_go s' + runner_steps [ev] <= to_go s)%nat.
Proof.
  intros Hr Hn E. destruct ev as [throws|i timeup| |t' b|t'|t'|t' b|t' b|b timed]; try done; cbn in E; try (case_match; [|done]; injection E as <-; cbn; unfold to_go; cbn; lia).
  - pose proof (run_nearer _ _ _ Hr E). cbn. lia.
  - case_match; [|done]. case_match; [|done]. case_match; subst. injection E as <-. cbn.
    match goal with H : proceed _ _ _ = _ |- _ => apply proceed_frame in H as (Hpl & Ht & _) end. unfold to_go. cbn. rewrite Hpl, Ht. lia.
  - injection E as <-. destruct (start_over s) as [->|(_ & ? & _)]; [cbn; lia|done].
  - case_match; [|done]. injection E as <-. pose proof (remove_first_length t' (tasks s)). unfold to_go, removeTask. cbn. destruct (place s); lia.
Qed.

(** Once the runner was told to stop its thread ends: it takes five steps more than there are
    tasks at most, and if it can take none it is at its end, or a task that it runs has not
    come back from a call of the runner. Then [shutdown] returns to who waits in it. *)
Theorem shutdown_ends past evs s s' i : history past CompositeTaskRunner_new = Some s -> callers s !! i = Some (Joining false) ->
  history evs s = Some s' -> Forall no_adds evs ->
  (runner_steps evs <= length (tasks s) + 5)%nat /\
  (run false s' = None -> busy_inside s' = false -> callers s' !! i = Some (Joining false) ->
   exists s'', step (Proceeds i false) s' = Some s'' /\ callers s'' !! i = Some Returned).
Proof.
  intros Hp Hi H Hn. destruct (coherent_history _ _ _ coherent_new Hp) as [[_ Hc] _]. split.
  - assert (state s <> RUNNING) as Hr.
    { apply Hc, existsb_exists. exists (Joining false). split; [|done]. apply list_elem_of_In. by eapply list_elem_of_lookup_2. }
    trans (to_go s); [|unfold to_go; destruct (place s); lia]. destruct (coherent_history _ _ _ coherent_new Hp) as [Hcoh _]. clear Hp Hi Hc. revert s Hr Hcoh H. induction Hn as [|ev evs Hev _ IH]; intros s Hr Hcoh; cbn [history].
    + intros _. cbn. lia.
    + destruct (step ev s) as [s1|] eqn:E; [|done]. intros H. destruct (coherent_step _ _ _ Hcoh E) as [H1 H2]. specialize (IH s1 (H2 Hr) H1 H). pose proof (step_to_go _ _ _ Hr Hev E). rewrite runner_steps_cons. lia.
  - intros Hrun Hb Hj. cbn. rewrite Hj. cbn. rewrite decide_True; [eexists; split; [reflexivity|]; cbn; apply list_lookup_insert_eq; by eapply lookup_lt_Some|].
    revert Hrun. unfold run. rewrite Hb. destruct (place s'); try done; tauto.
Qed.

(** ** Histories *)

Definition three_tasks : list event := [Adds 1 false; Adds 2 false; Adds 3 false; Proceeds 0 false; Proceeds 0 false; Starts; Proceeds 1 false; Proceeds 2 false; Proceeds 3 false; Proceeds 1 false; Proceeds 2 false; Proceeds 3 false].
Definition all_signalled : list event := three_tasks ++ [Signals 1 false; Signals 2 false; Signals 3 false] ++ map (fun i => Proceeds i false) [4; 5; 6; 4; 5; 6]%nat.
(** Every task has work again whenever it has done it. *)
Definition greedy : list event := flat_map (fun t => [Runs false; Runs false; Runs false; Consumes t; Rearms t; Runs false]) [1; 2; 3; 1]%nat.

(** A history and a check of where it leads. *)
Definition leads (evs : list event) (s : Runner) (p : Runner -> bool) : bool := match history evs s with Some s' => p s' | None => false end.
Lemma leads_to evs s p : leads evs s p = true -> exists s', history evs s = Some s' /\ p s' = true.
Proof. unfold leads. destruct (history evs s) as [s'|]; [by exists s'|done]. Qed.

Definition is_returned (c : Caller) : bool := match c with Returned => true | _ => false end.
Definition is_calm (t : nat) (ev : event) : bool := match ev with Runs b => negb b | ShutsDown _ _ => false | Removes t' _ => negb (t' =? t)%nat | _ => true end.
Lemma all_calm t evs : forallb (is_calm t) evs = true -> Forall (calm t) evs.
Proof. rewrite forallb_forall. intros H. apply List.Forall_forall. intros ev Hev. specialize (H ev Hev). unfold is_calm, calm in *. destruct ev as [[]| | | | | | |t' b|]; try done. by destruct (Nat.eqb_spec t' t). Qed.
(** Another thread shuts the runner down, while one of the tasks is run. *)
Definition shut_down : list event := all_signalled ++ [Runs false; Runs false; Runs false; ShutsDown false false; Proceeds 7 false].
Definition ends : list event := [Proceeds 7 false; Consumes 1; Runs false; Runs false; Runs false; Runs false; Proceeds 7 false].

Definition caller_is (i : nat) (p : Caller -> bool) (s : Runner) : bool := match callers s !! i with Some c => p c | None => false end.
Definition is_announcing (c : Caller) : bool := match c with Announcing false false => true | _ => false end.
Definition is_joining (c : Caller) : bool := match c with Joining false => true | _ => false end.
Lemma caller_is_some i p c s : (forall x, p x = true -> x = c) -> caller_is i p s = true -> callers s !! i = Some c.
Proof. unfold caller_is. destruct (callers s !! i); [|done]. intros H ?. f_equal. by apply H. Qed.
Lemma is_announcing_eq x : is_announcing x = true -> x = Announcing false false.
Proof. by destruct x as [| | |[] []| |]. Qed.
Lemma is_joining_eq x : is_joining x = true -> x = Joining false.
Proof. by destruct x as [| | | |[]|]. Qed.
Lemma is_returned_eq x : is_returned x = true -> x = Returned.
Proof. by destruct x. Qed.

Definition is_waking (c : Caller) : bool := match c with Waking false => true | _ => false end.
Lemma is_waking_eq x : is_waking x = true -> x = Waking false.
Proof. by destruct x as [[]| | | | |]. Qed.
Definition has_work (t : nat) (s : Runner) : bool :=
  running s && bool_decide (t ∈ tasks s) && bool_decide (t ∈ ready s) && bool_decide (place s = Looping) && caller_is 6 is_waking s &&
  forallb (fun c => match c with Waking _ | Notifying _ | Returned => true | _ => false end) (callers s).
Lemma wakes_only l : forallb (fun c => match c with Waking _ | Notifying _ | Returned => true | _ => false end) l = true -> Forall (fun c => ~ stopping c) l.
Proof. rewrite forallb_forall. intros H. apply List.Forall_forall. intros c Hc. specialize (H c Hc). destruct c; (done || by intros []). Qed.

(** The wakeup of the third task returns, those of the others are not heard of again. *)
Definition one_returns : list event := [Proceeds 6 false; Proceeds 6 false].


Definition goes_on : list event := [Starts; Signals 2 false; Adds 4 false; Proceeds 8 false].


Definition joins : list event := [Consumes 1; Runs false; Runs false; Runs false; Runs false].

Lemma shutdown_ends_witness : exists s s' s'', history (shut_down ++ [Proceeds 7 false]) CompositeTaskRunner_new = Some s /\ history joins s = Some s' /\ step (Proceeds 7 false) s' = Some s'' /\ callers s'' !! 7%nat = Some Returned.
Proof.
  destruct (leads_to (shut_down ++ [Proceeds 7 false]) CompositeTaskRunner_new (fun s => caller_is 7 is_joining s && leads joins s (fun s' => match run false s' with None => true | _ => false end && (negb (busy_inside s') && caller_is 7 is_joining s'))))
    as (s & E & [H1 [s' [E' [H2 [H3%negb_true_iff H4]%andb_true_iff]%andb_true_iff]]%leads_to]%andb_true_iff); [vm_compute; reflexivity|].
  exists s, s'. destruct (shutdown_ends _ joins s s' 7 E (caller_is_some _ _ _ _ is_joining_eq H1) E') as [_ H]; [repeat constructor|]. destruct H as (s'' & Hs & Hc); [by destruct (run false s')|done|by apply (caller_is_some _ is_joining); [apply is_joining_eq|]|]. exact (ex_intro _ s'' (conj E (conj E' (conj Hs Hc)))).
Defined.

(** A task that throws ends the runner for all of them: what is signalled then is never run. *)
Example thrown_task_stops_all : match history (all_signalled ++ [Runs false; Runs false; Runs false; Runs true; Runs false; Signals 2 false; Proceeds 7 false]) CompositeTaskRunner_new with
  | Some s => place s = Finished /\ state s = STOPPED /\ tasks s = [2; 3]%nat /\ iterated s = [1%nat] /\ pending s = false /\ callers s !! 7%nat = Some Returned
  | None => False
  end.
Proof. vm_compute. done. Qed.

(** A task that removes itself while it runs is not in the list then, and comes back into it. *)
Example removes_itself : match history (all_signalled ++ [Runs false; Runs false; Runs false; Removes 1 true; Proceeds 7 false; Proceeds 7 false; Runs false]) CompositeTaskRunner_new with
  | Some s => tasks s = [2; 3; 1]%nat
  | None => False
  end.
Proof. vm_compute. done. Qed.

(** A second [shutdown] returns at once, in the middle of a task and while the first caller is on its way. *)
Example second_shutdown_returns : match history (shut_down ++ [ShutsDown false false; Proceeds 8 false]) CompositeTaskRunner_new with
  | Some s => callers s !! 8%nat = Some Returned /\ place s = Iterating 1 /\ callers s !! 7%nat = Some (Announcing false false)
  | None => False
  end.
Proof. vm_compute. done. Qed.
(** One with a timeout as well, and the thread goes on to run a task it had found ready. *)
Definition timed_shutdown : list event := all_signalled ++ [Runs false; Runs false; ShutsDown false true; Proceeds 7 false; Proceeds 7 false; Proceeds 7 true].
Example timed_shutdown_returns : match history timed_shutdown CompositeTaskRunner_new, history (timed_shutdown ++ [Runs false]) CompositeTaskRunner_new with
  | Some s, Some s' => callers s !! 7%nat = Some Returned /\ iterated s = [] /\ iterated s' = [1%nat]
  | _, _ => False
  end.
Proof. vm_compute. done. Qed.
