(* ===== verification/BinaryHeap.v ===== *)
(** * The binary heap that decaf/util/PriorityQueue.h and decaf/internal/util/TimerTaskHeap.cpp
    keep in an array: the two loops of the code, and when they leave a heap. *)
From stdpp Require Import list.
From S2P Require Import Prelude.
From Stdlib Require Import Lia.

#[local] Arguments Nat.sub : simpl never.
#[local] Arguments Nat.mul : simpl never.
#[local] Arguments Nat.div : simpl never.
#[local] Arguments Nat.ltb : simpl never.

#[local] Open Scope nat_scope.

(** ** Arrays *)

Section arrays.
Context {E : Type} (d : E).

Definition swap (i j : nat) (a : list E) : list E := <[i := nth j a d]> (<[j := nth i a d]> a).

Lemma nth_insert i j x a : nth j (<[i := x]> a) d = if decide (i = j /\ i < length a) then x else nth j a d.
Proof.
  revert i j. induction a as [|y a IH]; intros [|i] [|j]; cbn; try done; try (rewrite decide_False by lia; done).
  rewrite IH. destruct (decide (i = j /\ i < length a)), (decide (S i = S j /\ S i < S (length a))); try done; lia.
Qed.
Lemma length_swap i j a : length (swap i j a) = length a.
Proof. unfold swap. by rewrite !length_insert. Qed.
Lemma nth_swap i j k a : (i < length a) -> (j < length a) -> nth k (swap i j a) d = if decide (k = i) then nth j a d else if decide (k = j) then nth i a d else nth k a d.
Proof.
  intros Hi Hj. unfold swap. rewrite !nth_insert, length_insert. destruct (decide (k = i)) as [->|Hk]; [by rewrite decide_True|]. rewrite decide_False by lia.
  destruct (decide (k = j)) as [->|]; [by rewrite decide_True|by rewrite decide_False by lia].
Qed.

Lemma insert_exchange i x y (a : list E) : a !! i = Some x -> x :: <[i := y]> a ≡ₚ y :: a.
Proof. revert i. induction a as [|z a IH]; intros [|i]; cbn; intros H; try done; [injection H as ->; apply perm_swap|]. rewrite perm_swap, (IH _ H). apply perm_swap. Qed.
Lemma lookup_nth i (a : list E) : (i < length a) -> a !! i = Some (nth i a d).
Proof. revert i. induction a as [|x a IH]; intros [|i] Hi; cbn in *; try lia; [done|]. apply IH. lia. Qed.
Lemma swap_perm i j a : (i < length a) -> (j < length a) -> swap i j a ≡ₚ a.
Proof.
  intros Hi Hj. unfold swap. destruct (decide (i = j)) as [<-|Hn].
  - rewrite list_insert_insert_eq, list_insert_id; [done|by apply lookup_nth].
  - apply (Permutation_cons_inv (a := nth i a d)). rewrite insert_exchange by (rewrite list_lookup_insert_ne by done; by apply lookup_nth). apply insert_exchange. by apply lookup_nth.
Qed.
Lemma take_swap n i j a : (i < n) -> (j < n) -> (n <= length a) -> take n (swap i j a) = swap i j (take n a).
Proof.
  intros Hi Hj Hn. unfold swap. rewrite !take_insert_lt by done.
  assert (forall k, (k < n) -> nth k (take n a) d = nth k a d) as Hk by (intros k Hk; revert k a Hk Hn; clear; induction n as [|n IH]; intros [|k] [|x a] Hk Hn; cbn in *; try lia; try done; apply IH; lia).
  by rewrite !Hk.
Qed.

(** What happens in the first [n] places is an exchange of their elements. *)
Definition within (n : nat) (a b : list E) : Prop := length b = length a /\ take n b ≡ₚ take n a /\ drop n b = drop n a.
Lemma within_refl n a : within n a a.
Proof. done. Qed.
Lemma within_trans n a b c : within n a b -> within n b c -> within n a c.
Proof. intros (H1 & H2 & H3) (H4 & H5 & H6). split_and!; [congruence|by rewrite H5|congruence]. Qed.
Lemma within_swap n i j a : i < n -> j < n -> n <= length a -> within n a (swap i j a).
Proof.
  intros Hi Hj Hn. split_and!; [apply length_swap| |].
  - rewrite take_swap by done. apply swap_perm; rewrite length_take; lia.
  - unfold swap. rewrite !drop_insert_lt by done. done.
Qed.

Lemma nth_take i n (a : list E) : i < n -> nth i (take n a) d = nth i a d.
Proof. revert i a. induction n as [|n IH]; intros [|i] [|x a] H; cbn; try lia; try done. apply IH. lia. Qed.
End arrays.

Section heap.
Context {E : Type} (d : E) (less : E -> E -> bool).
#[local] Notation swap := (swap d).

(** ** The loops *)

Definition less_at (a : list E) (i j : nat) : bool := less (nth i a d) (nth j a d).
Definition parent (i : nat) : nat := (i - 1) / 2.

(** [upHeap] from a position; it halves in each turn. *)
Fixpoint up (fuel current : nat) (a : list E) : list E :=
  match fuel with
  | O => a
  | S fuel' => if negb (current =? 0) && less_at a current (parent current) then up fuel' (parent current) (swap current (parent current) a) else a
  end.
Definition upHeap (size : nat) (a : list E) : list E := up size (size - 1) a.

(** The child that is compared with its parent. *)
Definition lesser_child (size child : nat) (a : list E) : nat := if (child + 1 <? size) && less_at a (child + 1) child then child + 1 else child.

(** [downHeap]; the position at least doubles in each turn. *)
Fixpoint down (fuel size current : nat) (a : list E) : list E :=
  match fuel with
  | O => a
  | S fuel' =>
      let child := 2 * current + 1 in
      if (child <? size) then
        let child := lesser_child size child a in
        if less_at a current child then a else down fuel' size child (swap current child a)
      else a
  end.
Definition downHeap (size pos : nat) (a : list E) : list E := down size size pos a.

(** ** Order *)

Context (less_asym : forall x y, less x y = true -> less y x = false).
Context (le_trans : forall x y z, less y x = false -> less z y = false -> less z x = false).

Definition ordered (n : nat) (a : list E) : Prop := forall i, 0 < i < n -> less_at a i (parent i) = false.
(** A heap but for an element that may be less than its parent. *)
Definition rising (n cur : nat) (a : list E) : Prop :=
  (forall i, 0 < i < n -> i <> cur -> less_at a i (parent i) = false) /\
  (forall i, 0 < i < n -> parent i = cur -> 0 < cur -> less_at a i (parent cur) = false).
(** A heap but for an element that may be greater than its children. *)
Definition sinking (n cur : nat) (a : list E) : Prop :=
  (forall i, 0 < i < n -> parent i <> cur -> less_at a i (parent i) = false) /\
  (forall i, 0 < i < n -> parent i = cur -> 0 < cur -> less_at a i (parent cur) = false).

Lemma parent_lt i : 0 < i -> parent i < i.
Proof. intros H. unfold parent. apply Nat.Div0.div_lt_upper_bound. lia. Qed.
Lemma parent_children i c : 0 < i -> parent i = c <-> i = 2 * c + 1 \/ i = 2 * c + 2.
Proof. intros H. unfold parent. pose proof (Nat.div_mod_eq (i - 1) 2). pose proof (Nat.mod_upper_bound (i - 1) 2). lia. Qed.

Lemma less_irrefl x : less x x = false.
Proof. destruct (less x x) eqn:H; [|done]. by rewrite (less_asym _ _ H) in H. Qed.

Lemma rising_up n cur a : rising n cur a -> 0 < cur < n -> n <= length a -> less_at a cur (parent cur) = true -> rising n (parent cur) (swap cur (parent cur) a).
Proof.
  intros [H1 H2] Hc Hn Hl. assert (parent cur < cur) as Hpc by (apply parent_lt; lia). unfold rising, sinking, less_at in *. split; intros i Hi.
  - intros Hne. assert (parent i < i) by (apply parent_lt; lia). specialize (H1 i Hi). specialize (H2 i Hi). rewrite !nth_swap by lia. destruct (decide (i = cur)) as [->|Hic].
    + rewrite decide_False by lia. rewrite decide_True by done. by apply less_asym.
    + rewrite (decide_False (P := i = parent cur)) by done. specialize (H1 Hic). destruct (decide (parent i = cur)) as [He|He]; [apply H2; [done|lia]|].
      destruct (decide (parent i = parent cur)) as [He'|He']; [|done]. rewrite He' in H1. eapply le_trans; [|exact H1]. by apply less_asym.
  - intros Hpi Hpos. assert (parent (parent cur) < parent cur) by (by apply parent_lt). rewrite !nth_swap by lia. rewrite (decide_False (P := parent (parent cur) = cur)), (decide_False (P := parent (parent cur) = parent cur)) by lia.
    assert (less (nth (parent cur) a d) (nth (parent (parent cur)) a d) = false) as Hup by (apply (H1 (parent cur)); lia).
    destruct (decide (i = cur)) as [->|Hic]; [done|]. assert (i <> parent cur) by (intros ->; lia). rewrite decide_False by done.
    specialize (H1 i Hi Hic). rewrite Hpi in H1. by eapply le_trans.
Qed.

Lemma up_ordered fuel n cur a : rising n cur a -> cur < n -> n <= length a -> cur <= fuel -> ordered n (up fuel cur a) /\ within n a (up fuel cur a).
Proof.
  revert cur a. induction fuel as [|fuel IH]; intros cur a Hr Hc Hn Hf; cbn [up].
  - split; [|apply within_refl]. intros i Hi. apply Hr; lia.
  - destruct (Nat.eqb_spec cur 0) as [->|H0]; cbn; [split; [|apply within_refl]; intros i Hi; apply Hr; lia|]. assert (parent cur < cur) by (apply parent_lt; lia).
    destruct (less_at a cur (parent cur)) eqn:El.
    + destruct (IH (parent cur) (swap cur (parent cur) a)) as [Ho Hw]; [apply rising_up; [done|lia..|done]|lia|by rewrite length_swap|lia|].
      split; [done|]. eapply within_trans; [|exact Hw]. apply within_swap; lia.
    + split; [|apply within_refl]. intros i Hi. destruct (decide (i = cur)) as [->|]; [done|]. by apply Hr.
Qed.

(** A new element at the end of a heap. *)
Lemma upHeap_ordered n a : 0 < n <= length a -> ordered (n - 1) a -> ordered n (upHeap n a) /\ within n a (upHeap n a).
Proof.
  intros Hn Ho. apply up_ordered; try lia. split; intros i Hi; [intros Hne; apply Ho; lia|]. intros Hp. assert (parent i < i) by (apply parent_lt; lia). lia.
Qed.

Lemma lesser_child_range n c a : c < n -> c <= lesser_child n c a < n /\ lesser_child n c a <= c + 1.
Proof. intros H. unfold lesser_child. destruct (Nat.ltb_spec (c + 1) n), (less_at a (c + 1) c); cbn; lia. Qed.
(** Neither child is less than the lesser one. *)
Lemma lesser_child_least n c a i : c < n -> c <= i <= c + 1 -> i < n -> less_at a i (lesser_child n c a) = false.
Proof.
  intros H Hi Hn. unfold lesser_child. destruct (Nat.ltb_spec (c + 1) n) as [H1|H1]; cbn.
  - destruct (less_at a (c + 1) c) eqn:El; assert (i = c \/ i = c + 1) as [->| ->] by lia; try done; try apply less_irrefl. by apply less_asym.
  - assert (i = c) as -> by lia. apply less_irrefl.
Qed.

Lemma sinking_down n cur a : sinking n cur a -> 2 * cur + 1 < n -> n <= length a -> let c := lesser_child n (2 * cur + 1) a in
  less_at a cur c = false -> sinking n c (swap cur c a).
Proof.
  intros [H1 H2] Hc Hn c Hl. destruct (lesser_child_range n (2 * cur + 1) a Hc) as [Hr1 Hr2]. pose proof (lesser_child_least n (2 * cur + 1) a) as Hleast. fold c in Hr1, Hr2, Hleast.
  assert (parent c = cur) as Hpc by (apply parent_children; lia). unfold rising, sinking, less_at in *. split; intros i Hi.
  - intros Hpi. assert (parent i < i) by (apply parent_lt; lia). specialize (H1 i Hi). rewrite !nth_swap by lia. rewrite (decide_False (P := parent i = c)) by done.
    destruct (decide (i = cur)) as [->|Hic].
    + rewrite (decide_False (P := parent cur = cur)) by lia. apply H2; [lia|done|lia].
    + destruct (decide (i = c)) as [->|Hicc]; [by rewrite Hpc, decide_True|]. destruct (decide (parent i = cur)) as [He|He]; [|by apply H1].
      apply (Hleast i); [done|apply parent_children in He; lia|lia].
  - intros Hpi Hpos. assert (parent i < i) by (apply parent_lt; lia). rewrite !nth_swap by lia. rewrite Hpc. rewrite (decide_False (P := i = cur)), (decide_False (P := i = c)) by lia. rewrite decide_True by done.
    rewrite <- Hpi. apply H1; lia.
Qed.

Lemma down_ordered fuel n cur a : sinking n cur a -> n <= length a -> n <= cur + fuel -> ordered n (down fuel n cur a).
Proof.
  assert (forall cur a, sinking n cur a -> n <= 2 * cur + 1 -> ordered n a) as Hend.
  { intros c b [H1 H2] Hn i Hi. apply H1; [lia|]. intros [?|?]%parent_children; lia. }
  revert cur a. induction fuel as [|fuel IH]; intros cur a Hs Hn Hf; cbn [down]; [eapply Hend; [exact Hs|lia]|]. destruct (Nat.ltb_spec (2 * cur + 1) n) as [Hc|Hc]; [|by eapply Hend].
  destruct (lesser_child_range n (2 * cur + 1) a Hc) as [Hr1 Hr2]. destruct (less_at a cur (lesser_child n (2 * cur + 1) a)) eqn:El.
  - intros i Hi. destruct (decide (parent i = cur)) as [He|]; [|by apply Hs]. pose proof (lesser_child_least n (2 * cur + 1) a i Hc) as Hleast. unfold less_at in *. rewrite He.
    eapply le_trans; [by apply less_asym|]. apply Hleast; [apply parent_children in He; lia|lia].
  - apply IH; [by apply sinking_down|by rewrite length_swap|lia].
Qed.
Lemma down_within fuel n cur a : cur < n -> n <= length a -> within n a (down fuel n cur a).
Proof.
  revert cur a. induction fuel as [|fuel IH]; intros cur a Hc Hn; cbn [down]; [apply within_refl|]. destruct (Nat.ltb_spec (2 * cur + 1) n) as [Hd|]; [|apply within_refl].
  destruct (less_at _ _ _); [apply within_refl|]. destruct (lesser_child_range n (2 * cur + 1) a Hd) as [Hr1 Hr2].
  eapply within_trans; [apply within_swap|apply IH; rewrite ?length_swap]; lia.
Qed.
(** It leaves alone what is before the position it starts from. *)
Lemma down_before fuel n cur a i : i < cur -> n <= length a -> nth i (down fuel n cur a) d = nth i a d.
Proof.
  revert cur a. induction fuel as [|fuel IH]; intros cur a Hi Hn; cbn [down]; [done|]. destruct (Nat.ltb_spec (2 * cur + 1) n) as [Hd|]; [|done].
  destruct (less_at _ _ _); [done|]. destruct (lesser_child_range n (2 * cur + 1) a Hd) as [Hr1 Hr2]. rewrite IH by (rewrite ?length_swap; lia). rewrite nth_swap by lia. by rewrite !decide_False by lia.
Qed.

(** The first of a heap is a least one. *)
Lemma ordered_least n a i : ordered n a -> i < n -> less_at a i 0 = false.
Proof.
  intros Ho. induction i as [i IH] using lt_wf_ind. intros Hi. destruct (decide (i = 0)) as [->|]; [apply less_irrefl|].
  assert (parent i < i) by (apply parent_lt; lia). unfold less_at in *. apply (le_trans _ (nth (parent i) a d)); [apply (IH (parent i)); lia|apply Ho; lia].
Qed.

(** What [removeAt] does: the last element goes to the place of the removed one, and down. *)
Definition take_out (n pos : nat) (a : list E) : list E := downHeap (n - 1) pos (<[pos := nth (n - 1) a d]> a).

Lemma take_insert_snoc n pos a : pos < n -> n <= length a -> nth pos a d :: take (n - 1) (<[pos := nth (n - 1) a d]> a) ≡ₚ take n a.
Proof.
  intros Hp Hn. assert (take n a = take (n - 1) a ++ [nth (n - 1) a d]) as Ht.
  { replace n with (S (n - 1)) at 1 by lia. apply take_S_r, lookup_nth. lia. }
  rewrite Ht. destruct (decide (pos = n - 1)) as [->|].
  - rewrite take_insert_ge by lia. by rewrite Permutation_app_comm.
  - rewrite take_insert_lt by lia. rewrite insert_exchange by (rewrite lookup_take_lt by lia; apply lookup_nth; lia). by rewrite Permutation_app_comm.
Qed.

(** It takes out that element and no other, and the rest is a heap again, if what went up into
    its place is not less than the parent there: always, if the first is removed. *)
Lemma take_out_content n pos a : pos < n -> n <= length a -> nth pos a d :: take (n - 1) (take_out n pos a) ≡ₚ take n a /\ length (take_out n pos a) = length a.
Proof.
  intros Hp Hn. unfold take_out, downHeap. destruct (decide (pos = n - 1)) as [->|Hne].
  - rewrite <- (take_insert_snoc n (n - 1) a) by done. assert (forall f b, down f (n - 1) (n - 1) b = b) as ->; [|split; [done|by rewrite length_insert]].
    intros [|f] b; cbn; [done|]. destruct (Nat.ltb_spec (2 * (n - 1) + 1) (n - 1)); [lia|done].
  - destruct (down_within (n - 1) (n - 1) pos (<[pos := nth (n - 1) a d]> a)) as (H1 & H2 & _); [lia|rewrite length_insert; lia|]. rewrite H1, H2, length_insert. split; [by apply take_insert_snoc|done].
Qed.
Lemma take_out_ordered n pos a : pos < n -> n <= length a -> ordered n a -> pos = 0 \/ pos = n - 1 \/ less_at a (n - 1) (parent pos) = false -> ordered (n - 1) (take_out n pos a).
Proof.
  intros Hp Hn Ho Hpos. unfold take_out, downHeap. apply down_ordered; [|rewrite length_insert; lia|lia]. unfold ordered, sinking, less_at in *. split; intros i Hi; assert (parent i < i) by (apply parent_lt; lia).
  - intros Hpi. rewrite !nth_insert. rewrite (decide_False (P := pos = parent i /\ _)) by lia. destruct (decide _) as [[-> _]|]; [|apply Ho; lia].
    destruct Hpos as [->|[->|Hl]]; [lia..|done].
  - intros Hpi H0. assert (parent pos < pos) by (by apply parent_lt). rewrite !nth_insert. rewrite !decide_False by lia. eapply le_trans; [apply (Ho pos); lia|]. rewrite <- Hpi. apply Ho. lia.
Qed.
End heap.

(** ** A vector that is cut *)

Section cut.
Context {E : Type} (d : E) (less : E -> E -> bool).

Lemma down_take fuel n cur a : cur < n -> n <= length a -> down d less fuel n cur (take n a) = take n (down d less fuel n cur a).
Proof.
  revert cur a. induction fuel as [|fuel IH]; intros cur a Hc Hn; cbn [down]; [done|]. destruct (Nat.ltb_spec (2 * cur + 1) n) as [Hd|]; [|done].
  assert (lesser_child d less n (2 * cur + 1) (take n a) = lesser_child d less n (2 * cur + 1) a) as ->.
  { unfold lesser_child, less_at. destruct (Nat.ltb_spec (2 * cur + 1 + 1) n); [|done]. by rewrite !nth_take by lia. }
  pose proof (lesser_child_range d less n (2 * cur + 1) a Hd) as Hr. unfold less_at. rewrite !nth_take by lia. destruct (less _ _); [done|].
  rewrite <- take_swap by lia. apply IH; [lia|]. by rewrite length_swap.
Qed.
Lemma up_within fuel n cur a : cur < n -> n <= length a -> within n a (up d less fuel cur a).
Proof.
  revert cur a. induction fuel as [|fuel IH]; intros cur a Hc Hn; cbn [up]; [apply within_refl|]. destruct (Nat.eqb_spec cur 0); [apply within_refl|]. destruct (negb false && less_at _ _ _ _ _) eqn:Ec; [|apply within_refl].
  assert (parent cur < cur) by (apply parent_lt; lia). eapply within_trans; [apply within_swap|apply IH; rewrite ?length_swap]; lia.
Qed.
End cut.
