(* ===== verification/PriorityQueue.v ===== *)
(** * decaf/util/PriorityQueue.h: the queue on its array, its iterator, and what a history of
    its operations answers. Sizes are natural numbers where the code has an int; the remove of
    an iterator, which reaches the wrong element, is not an operation of the histories. *)
From stdpp Require Import list.
From S2P Require Import Prelude BinaryHeap.
From Stdlib Require Import Lia Sorted.

#[local] Open Scope nat_scope.
#[local] Arguments Nat.sub : simpl never.
#[local] Arguments Nat.ltb : simpl never.
#[local] Arguments upHeap : simpl never.
#[local] Arguments downHeap : simpl never.

Definition DEFAULT_CAPACITY : nat := 11.
Definition DEFAULT_CAPACITY_RATIO : nat := 2.

Section queue.
Context {E : Type} (d : E) (compare : E -> E -> Z).

Record PriorityQueue : Type := mkPriorityQueue { _size : nat; elements : list E }.
Definition PriorityQueue_new (initialCapacity : nat) : PriorityQueue := mkPriorityQueue 0 (repeat d initialCapacity).
Definition capacity (q : PriorityQueue) : nat := length (elements q).

Definition less (x y : E) : bool := (compare x y <? 0)%Z.

(** A new array is filled with default elements. *)
Definition increaseCapacity (size : nat) (q : PriorityQueue) : PriorityQueue :=
  if capacity q <? size then mkPriorityQueue (_size q) (elements q ++ repeat d (size * DEFAULT_CAPACITY_RATIO - capacity q)) else q.

Definition offer (value : E) (q : PriorityQueue) : PriorityQueue :=
  let q := increaseCapacity (_size q + 1) q in
  mkPriorityQueue (S (_size q)) (upHeap d less (S (_size q)) (<[_size q := value]> (elements q))).

(** Writing past the array is undefined behaviour. *)
Definition removeAt (index : nat) (q : PriorityQueue) : outcome PriorityQueue :=
  if index <? capacity q then
    let size := _size q - 1 in
    let a := downHeap d less size index (<[index := nth size (elements q) d]> (elements q)) in
    Ok (mkPriorityQueue size (<[size := d]> a))
  else UB.

Definition isEmpty (q : PriorityQueue) : bool := _size q =? 0.

(** [poll] and [peek] say whether there was an element, and which. *)
Definition peek (q : PriorityQueue) : option E := if isEmpty q then None else Some (nth 0 (elements q) d).
Definition poll (q : PriorityQueue) : outcome (option E * PriorityQueue) :=
  if isEmpty q then Ok (None, q) else match removeAt 0 q with Ok q' => Ok (Some (nth 0 (elements q) d), q') | Throw e => Throw e | UB => UB | Hang => Hang end.
Definition remove (q : PriorityQueue) : outcome (E * PriorityQueue) :=
  match poll q with Ok (Some e, q') => Ok (e, q') | Ok (None, _) => Throw NoSuchElementException | Throw e => Throw e | UB => UB | Hang => Hang end.

(** [remove] of a value: the first that compares equal. *)
Fixpoint find_equal (value : E) (l : list E) : nat := match l with [] => 0 | x :: l' => if (compare value x =? 0)%Z then 0 else S (find_equal value l') end.
Definition remove_value (value : E) (q : PriorityQueue) : outcome (bool * PriorityQueue) :=
  let targetIndex := find_equal value (take (_size q) (elements q)) in
  if (_size q =? 0) || (_size q =? targetIndex) then Ok (false, q)
  else match removeAt targetIndex q with Ok q' => Ok (true, q') | Throw e => Throw e | UB => UB | Hang => Hang end.

Definition clear (q : PriorityQueue) : PriorityQueue := mkPriorityQueue 0 (repeat d DEFAULT_CAPACITY).

(** ** The iterator *)

Record Iterator : Type := mkIterator { position : nat; allowRemove : bool }.
Definition iterator : Iterator := mkIterator 0 false.
Definition hasNext (it : Iterator) (q : PriorityQueue) : bool := position it <? _size q.
Definition next (it : Iterator) (q : PriorityQueue) : outcome (E * Iterator) :=
  if hasNext it q then Ok (nth (position it) (elements q) d, mkIterator (S (position it)) true) else Throw NoSuchElementException.
(** The position is that after the element that was given. *)
Definition it_remove (it : Iterator) (q : PriorityQueue) : outcome (Iterator * PriorityQueue) :=
  if allowRemove it then match removeAt (position it) q with Ok q' => Ok (mkIterator (position it - 1) false, q') | Throw e => Throw e | UB => UB | Hang => Hang end
  else Throw IllegalStateException.

(** ** The queue as a collection *)

Context (compare_asym : forall x y, less x y = true -> less y x = false).
Context (compare_trans : forall x y z, less y x = false -> less z y = false -> less z x = false).

Record queue_ok (q : PriorityQueue) : Prop := mkQueueOk { q_size : _size q <= capacity q; q_heap : ordered d less (_size q) (elements q) }.
Definition contents (q : PriorityQueue) : list E := take (_size q) (elements q).
Definition least (x : E) (l : list E) : Prop := x ∈ l /\ forall y, y ∈ l -> less y x = false.

Lemma queue_new_ok n : queue_ok (PriorityQueue_new n) /\ contents (PriorityQueue_new n) = [].
Proof. split; [|done]. split; [cbn; lia|]. intros i Hi. cbn in Hi. lia. Qed.

Lemma increaseCapacity_ok q : _size q <= capacity q -> let q' := increaseCapacity (_size q + 1) q in
  _size q' = _size q /\ _size q < capacity q' /\ exists l, elements q' = elements q ++ l.
Proof.
  intros Hs. unfold increaseCapacity, DEFAULT_CAPACITY_RATIO. destruct (Nat.ltb_spec (capacity q) (_size q + 1)) as [H|H]; cbn.
  - split_and!; [done| |by eexists]. unfold capacity in *. cbn. rewrite length_app, repeat_length. lia.
  - split_and!; [done|lia|exists []; by rewrite app_nil_r].
Qed.

Lemma nth_app_insert (a l : list E) n x i : n <= length a -> i < n -> nth i (<[n := x]> (a ++ l)) d = nth i a d.
Proof. intros Hn Hi. rewrite nth_insert. rewrite decide_False by lia. apply app_nth1. lia. Qed.

Lemma offer_ok value q : queue_ok q -> queue_ok (offer value q) /\ contents (offer value q) ≡ₚ value :: contents q.
Proof.
  intros [Hs Ho]. destruct (increaseCapacity_ok q Hs) as (H1 & H2 & l & Hl). unfold offer. cbv zeta in *. rewrite H1. unfold capacity in *. rewrite Hl in *. set (n := _size q) in *.
  destruct (upHeap_ordered d less compare_asym compare_trans (S n) (<[n := value]> (elements q ++ l))) as (Ho' & Hlen & Hp & _).
  - rewrite length_insert. lia.
  - replace (S n - 1) with n by lia. intros i Hi. assert (parent i < i) by (apply parent_lt; lia). unfold less_at. rewrite !nth_app_insert by lia. by apply Ho.
  - split; [split; unfold capacity; cbn; [rewrite Hlen, length_insert; lia|done]|]. unfold contents. cbn. rewrite Hp.
    rewrite (take_S_r _ n value) by (apply list_lookup_insert_eq; lia). rewrite take_insert_ge, take_app_le by done. by rewrite Permutation_app_comm.
Qed.

(** Whatever is removed, the rest stays; it is a heap, if what takes its place is not less
    than the parent there. *)
Lemma removeAt_ok index q : index < _size q -> _size q <= capacity q -> exists q', removeAt index q = Ok q' /\
  _size q' = _size q - 1 /\ capacity q' = capacity q /\ nth index (elements q) d :: contents q' ≡ₚ contents q /\
  (ordered d less (_size q) (elements q) -> index = 0 \/ index = _size q - 1 \/ less_at d less (elements q) (_size q - 1) (parent index) = false -> queue_ok q').
Proof.
  intros Hi Hs. unfold removeAt, capacity in *. rewrite (proj2 (Nat.ltb_lt _ _)) by lia. eexists. split; [done|]. cbn.
  destruct (take_out_content d less (_size q) index (elements q) Hi Hs) as [Hp Hl]. unfold take_out in *. split_and!; [done|by rewrite length_insert|by unfold contents; cbn; rewrite take_insert_ge by lia|].
  intros Ho Hc. pose proof (take_out_ordered d less compare_asym compare_trans _ _ _ Hi Hs Ho Hc) as Ho'. unfold take_out in *. split; unfold capacity; cbn; [rewrite length_insert; lia|].
  intros i Hr. assert (parent i < i) by (apply parent_lt; lia). specialize (Ho' i Hr). unfold less_at in *. rewrite !nth_insert, !decide_False by lia. done.
Qed.

Lemma first_least q : queue_ok q -> 0 < _size q -> least (nth 0 (elements q) d) (contents q).
Proof.
  intros [Hs Ho] H0. unfold contents, capacity in *. split; [apply list_elem_of_lookup; exists 0; rewrite lookup_take_lt by done; by apply lookup_nth; lia|].
  intros y [i Hy]%list_elem_of_lookup. apply lookup_take_Some in Hy as [Hy Hi]. rewrite (lookup_nth d) in Hy by lia. injection Hy as <-. apply (ordered_least d less compare_asym compare_trans (_size q)); done.
Qed.

Lemma poll_ok q : queue_ok q -> 0 < _size q -> exists e q', poll q = Ok (Some e, q') /\ queue_ok q' /\ least e (contents q) /\ e :: contents q' ≡ₚ contents q.
Proof.
  intros Hq H0. destruct (removeAt_ok 0 q H0 (q_size _ Hq)) as (q' & E1 & _ & _ & Hp & Hok). exists (nth 0 (elements q) d), q'. unfold poll, isEmpty. destruct (Nat.eqb_spec (_size q) 0); [lia|]. rewrite E1.
  split_and!; [done|apply Hok; [apply Hq|by left]|by apply first_least|done].
Qed.

Lemma find_equal_spec value l : find_equal value l <= length l /\ (find_equal value l < length l -> (compare value (nth (find_equal value l) l d) =? 0)%Z = true) /\
  forall i, i < find_equal value l -> (compare value (nth i l d) =? 0)%Z = false.
Proof.
  induction l as [|x l (H1 & H2 & H3)]; cbn; [split_and!; [lia..|]; intros i Hi; lia|]. destruct (compare value x =? 0)%Z eqn:Ex; cbn.
  - split_and!; [lia|done|intros i Hi; lia].
  - split_and!; [lia|intros ?; apply H2; lia|]. intros [|i] Hi; [done|]. apply H3. lia.
Qed.

(** ** Histories *)

Inductive operation : Type := Offer (value : E) | Poll | Peek | Remove | RemoveValue (value : E) | Clear | Size.
Inductive answer : Type := Accepted | Element (e : option E) | NoElement | Found (b : bool) | Cleared | Count (n : nat).

Definition perform (op : operation) (q : PriorityQueue) : outcome (answer * PriorityQueue) :=
  match op with
  | Offer value => Ok (Accepted, offer value q)
  | Poll => match poll q with Ok (e, q') => Ok (Element e, q') | Throw e => Throw e | UB => UB | Hang => Hang end
  | Peek => Ok (Element (peek q), q)
  | Remove => match remove q with Ok (e, q') => Ok (Element (Some e), q') | Throw NoSuchElementException => Ok (NoElement, q) | Throw e => Throw e | UB => UB | Hang => Hang end
  | RemoveValue value => match remove_value value q with Ok (b, q') => Ok (Found b, q') | Throw e => Throw e | UB => UB | Hang => Hang end
  | Clear => Ok (Cleared, clear q)
  | Size => Ok (Count (_size q), q)
  end.
Fixpoint perform_all (ops : list operation) (q : PriorityQueue) : outcome (list answer * PriorityQueue) :=
  match ops with
  | [] => Ok ([], q)
  | op :: ops' => match perform op q with
      | Ok (x, q') => match perform_all ops' q' with Ok (xs, q'') => Ok (x :: xs, q'') | Throw e => Throw e | UB => UB | Hang => Hang end
      | Throw e => Throw e | UB => UB | Hang => Hang end
  end.

(** What a collection answers that is [inorder], a least element first, until a value is taken
    out of it, and again when it is empty; out of order any element may come first. *)
Definition first (inorder : bool) (e : E) (l : list E) : Prop := if inorder then least e l else e ∈ l.
Definition equals (value x : E) : bool := (compare value x =? 0)%Z.
Inductive answers (inorder : bool) : operation -> list E -> answer -> list E -> bool -> Prop :=
  | answers_offer value l l' : l' ≡ₚ value :: l -> answers inorder (Offer value) l Accepted l' inorder
  | answers_poll e l l' : first inorder e l -> e :: l' ≡ₚ l -> answers inorder Poll l (Element (Some e)) l' inorder
  | answers_poll_empty : answers inorder Poll [] (Element None) [] inorder
  | answers_peek e l : first inorder e l -> answers inorder Peek l (Element (Some e)) l inorder
  | answers_peek_empty : answers inorder Peek [] (Element None) [] inorder
  | answers_remove e l l' : first inorder e l -> e :: l' ≡ₚ l -> answers inorder Remove l (Element (Some e)) l' inorder
  | answers_remove_empty : answers inorder Remove [] NoElement [] inorder
  | answers_value value x l l' : equals value x = true -> x :: l' ≡ₚ l -> answers inorder (RemoveValue value) l (Found true) l' false
  | answers_no_value value l : (forall x, x ∈ l -> equals value x = false) -> answers inorder (RemoveValue value) l (Found false) l inorder
  | answers_clear l : answers inorder Clear l Cleared [] inorder
  | answers_size l : answers inorder Size l (Count (length l)) l inorder.
Definition settled (inorder : bool) (l : list E) : bool := match l with [] => true | _ => inorder end.
Inductive answers_all : bool -> list operation -> list E -> list answer -> list E -> Prop :=
  | answers_nil b l : answers_all b [] l [] l
  | answers_cons b b' op ops x xs l l' l'' : answers b op l x l' b' -> answers_all (settled b' l') ops l' xs l'' -> answers_all b (op :: ops) l (x :: xs) l''.

Lemma contents_length q : _size q <= capacity q -> length (contents q) = _size q.
Proof. intros H. unfold contents. rewrite length_take. unfold capacity in H. lia. Qed.
Lemma contents_empty q : isEmpty q = true -> contents q = [].
Proof. unfold isEmpty, contents. intros ->%Nat.eqb_eq. done. Qed.
Lemma not_empty q : isEmpty q = false -> 0 < _size q.
Proof. unfold isEmpty. intros H%Nat.eqb_neq. lia. Qed.

(** The array has room, and is a heap if the queue is in order. *)
Definition queue_at (inorder : bool) (q : PriorityQueue) : Prop := _size q <= capacity q /\ (inorder = true -> ordered d less (_size q) (elements q)).
Lemma queue_at_ok b q : queue_at b q -> b = true -> queue_ok q.
Proof. intros [H1 H2] Hb. split; auto. Qed.
Lemma ok_queue_at b q : queue_ok q -> queue_at b q.
Proof. by intros [H1 H2]. Qed.
Lemma queue_at_settled b q : queue_at b q -> queue_at (settled b (contents q)) q.
Proof.
  intros [H1 H2]. split; [done|]. destruct (contents q) as [|x l] eqn:El; [|done]. apply (f_equal length) in El. rewrite contents_length in El by done. cbn in El. intros _ i Hi. lia.
Qed.

Lemma offer_at b value q : queue_at b q -> queue_at b (offer value q) /\ contents (offer value q) ≡ₚ value :: contents q.
Proof.
  intros Hq. pose proof Hq as [Hs _]. destruct (increaseCapacity_ok q Hs) as (H1 & H2 & l & Hl). assert (within (S (_size q)) (<[_size q := value]> (elements q ++ l)) (elements (offer value q))) as (Hlen & Hp & _).
  { unfold offer, upHeap. cbv zeta in *. unfold capacity in *. rewrite H1, Hl in *. cbn [elements]. apply up_within; rewrite ?length_insert; lia. }
  assert (_size (offer value q) = S (_size q)) as Hsz by (unfold offer; cbv zeta in *; by rewrite H1). unfold capacity in *. cbv zeta in *. rewrite Hl in H2. split.
  - split; [|intros Hb; by apply offer_ok, (queue_at_ok b)]. unfold capacity. rewrite Hlen, Hsz, length_insert. lia.
  - unfold contents. rewrite Hsz, Hp. rewrite (take_S_r _ (_size q) value) by (apply list_lookup_insert_eq; lia). rewrite take_insert_ge, take_app_le by done. by rewrite Permutation_app_comm.
Qed.

Lemma first_at b q : queue_at b q -> 0 < _size q -> first b (nth 0 (elements q) d) (contents q).
Proof.
  intros Hq H0. destruct b; [by apply first_least; [apply (queue_at_ok true)|]|]. destruct Hq as [Hs _]. unfold first, contents, capacity in *. apply list_elem_of_lookup. exists 0. rewrite lookup_take_lt by done. apply lookup_nth. lia.
Qed.
Lemma poll_at b q : queue_at b q -> 0 < _size q -> exists e q', poll q = Ok (Some e, q') /\ queue_at b q' /\ first b e (contents q) /\ e :: contents q' ≡ₚ contents q.
Proof.
  intros Hq H0. pose proof Hq as [Hs Ho]. destruct (removeAt_ok 0 q H0 Hs) as (q' & E1 & Hsz & Hc & Hp & Hok). exists (nth 0 (elements q) d), q'. unfold poll, isEmpty. destruct (Nat.eqb_spec (_size q) 0); [lia|]. rewrite E1.
  split_and!; [done| |by apply first_at|done]. split; [lia|]. intros Hb. apply Hok; [by apply Ho|by left].
Qed.

Lemma remove_value_at b value q : queue_at b q ->
  exists found q', remove_value value q = Ok (found, q') /\
    if found : bool then (exists x, equals value x = true /\ x :: contents q' ≡ₚ contents q) /\ queue_at false q' else q' = q /\ forall x, x ∈ contents q -> equals value x = false.
Proof.
  intros [Hs _]. destruct (find_equal_spec value (contents q)) as (H1 & H2 & H3). unfold remove_value. fold (contents q). set (i := find_equal value (contents q)) in *. rewrite contents_length in * by done.
  destruct (Nat.eqb_spec (_size q) i) as [Hi|Hi].
  - rewrite orb_true_r. exists false, q. split; [done|]. split; [done|]. intros x [j Hj]%list_elem_of_lookup. pose proof (lookup_lt_Some _ _ _ Hj) as Hlt. rewrite contents_length in Hlt by done.
    unfold equals. rewrite <- (nth_lookup_Some _ _ d _ Hj). apply H3. lia.
  - destruct (Nat.eqb_spec (_size q) 0); [lia|]. cbn [orb]. assert (i < _size q) as Hlt by lia. destruct (removeAt_ok i q Hlt Hs) as (q' & -> & Hsz & Hc & Hp & _). exists true, q'. split; [done|]. split; [|split; [lia|done]].
    exists (nth i (elements q) d). split; [|done]. unfold equals. specialize (H2 Hlt). unfold contents in H2. by rewrite nth_take in H2.
Qed.

Lemma perform_ok b op q : queue_at b q -> exists x q' b', perform op q = Ok (x, q') /\ queue_at b' q' /\ answers b op (contents q) x (contents q') b'.
Proof.
  intros Hq. destruct op as [value| | | |value| |]; cbn; unfold remove, peek.
  - destruct (offer_at b value q Hq) as [H1 H2]. exists Accepted, (offer value q), b. split; [done|]. split; [done|]. by constructor.
  - destruct (isEmpty q) eqn:Ee.
    + unfold poll. rewrite Ee. exists (Element None), q, b. split; [done|]. split; [done|]. rewrite contents_empty by done. constructor.
    + destruct (poll_at b q Hq (not_empty _ Ee)) as (e & q' & -> & Hq' & Hl & Hp). exists (Element (Some e)), q', b. split; [done|]. split; [done|]. by constructor.
  - exists (Element (if isEmpty q then None else Some (nth 0 (elements q) d))), q, b. split; [done|]. split; [done|]. destruct (isEmpty q) eqn:Ee; [rewrite contents_empty by done|]; constructor. by apply first_at, not_empty.
  - destruct (isEmpty q) eqn:Ee.
    + unfold poll. rewrite Ee. exists NoElement, q, b. split; [done|]. split; [done|]. rewrite contents_empty by done. constructor.
    + destruct (poll_at b q Hq (not_empty _ Ee)) as (e & q' & -> & Hq' & Hl & Hp). exists (Element (Some e)), q', b. split; [done|]. split; [done|]. by constructor.
  - destruct (remove_value_at b value q Hq) as ([] & q' & -> & H).
    + destruct H as [(x & Hx & Hp) Hq']. exists (Found true), q', false. split; [done|]. split; [done|]. by apply (answers_value _ _ x).
    + destruct H as [-> Hn]. exists (Found false), q, b. split; [done|]. split; [done|]. by constructor.
  - exists Cleared, (clear q), b. split; [done|]. split; [split; [cbn; lia|intros _ i Hi; cbn in Hi; lia]|]. apply answers_clear.
  - exists (Count (_size q)), q, b. split; [done|]. split; [done|]. rewrite <- (contents_length q) by apply Hq. constructor.
Qed.

(** C31: Every history of insertions, polls, peeks, removals (of the first or of a value) and
    clearings of a priority queue returns, grows the array where it must, never reaches outside
    of it, and answers as a collection: what comes first is a least element as long as no value
    was taken out, and again once the queue was empty; after a value was taken out some element
    comes first, not necessarily a least one. *)
Theorem priority_queue_refines b ops q : queue_at b q -> exists xs q', perform_all ops q = Ok (xs, q') /\ _size q' <= capacity q' /\ answers_all b ops (contents q) xs (contents q').
Proof.
  revert b q. induction ops as [|op ops IH]; intros b q Hq; cbn; [exists [], q; split; [done|]; split; [apply Hq|constructor]|].
  destruct (perform_ok b op q Hq) as (x & q1 & b1 & -> & Hq1 & Ha). destruct (IH _ q1 (queue_at_settled _ _ Hq1)) as (xs & q2 & -> & Hq2 & Has). do 2 eexists. split; [done|]. split; [done|]. by econstructor.
Qed.

Lemma poll_all n : forall q, queue_ok q -> _size q = n -> exists l q', perform_all (repeat Poll n) q = Ok (map (fun e => Element (Some e)) l, q') /\ l ≡ₚ contents q /\ StronglySorted (fun x y => less y x = false) l.
Proof.
  induction n as [|n IH]; intros q Hq Hn; cbn.
  - exists [], q. rewrite contents_empty by (unfold isEmpty; by rewrite Hn). split_and!; [done..|constructor].
  - destruct (poll_ok q Hq) as (e & q1 & -> & Hq1 & [_ Hl] & Hp); [lia|]. assert (_size q1 = n) as Hn1.
    { apply Permutation_length in Hp. cbn in Hp. rewrite !contents_length in Hp by (apply Hq || apply Hq1). lia. }
    destruct (IH q1 Hq1 Hn1) as (l & q2 & -> & Hp2 & Hs). exists (e :: l), q2. split; [done|]. split; [by rewrite Hp2|]. constructor; [done|].
    apply List.Forall_forall. intros y Hy. apply Hl. rewrite <- Hp. right. rewrite <- Hp2. by apply list_elem_of_In.
Qed.

(** [remove] of a value takes out the first element that compares equal and keeps the others;
    the queue is in order after it if the last element is not less than the parent of that
    place, otherwise nothing brings it up. *)
Lemma remove_value_ok value q : queue_ok q ->
  let i := find_equal value (contents q) in
  if i <? _size q then exists q', remove_value value q = Ok (true, q') /\ (compare value (nth i (elements q) d) =? 0)%Z = true /\
    nth i (elements q) d :: contents q' ≡ₚ contents q /\ (i = 0 \/ i = _size q - 1 \/ less_at d less (elements q) (_size q - 1) (parent i) = false -> queue_ok q')
  else remove_value value q = Ok (false, q) /\ forall x, x ∈ contents q -> (compare value x =? 0)%Z = false.
Proof.
  intros Hq i. destruct (find_equal_spec value (contents q)) as (H1 & H2 & H3). fold i in H1, H2, H3. rewrite contents_length in * by apply Hq. unfold remove_value. fold (contents q). fold i. destruct (Nat.ltb_spec i (_size q)) as [Hi|Hi].
  - destruct (removeAt_ok i q Hi (q_size _ Hq)) as (q' & -> & _ & _ & Hp & Hok). exists q'. destruct (Nat.eqb_spec (_size q) 0), (Nat.eqb_spec (_size q) i); cbn; try lia. split_and!; [done| |done|by apply Hok, Hq].
    specialize (H2 Hi). unfold contents in H2. rewrite <- (take_drop (_size q) (elements q)) at 1. rewrite app_nth1; [done|]. pose proof (q_size _ Hq). unfold capacity in *. rewrite length_take. lia.
  - assert (i = _size q) as Hie by lia. destruct (Nat.eqb_spec (_size q) i); [|lia]. rewrite orb_true_r. split; [done|]. intros x [j Hj]%list_elem_of_lookup. assert (j < _size q) as Hlt by (rewrite <- (contents_length q) by apply Hq; by eapply lookup_lt_Some).
    rewrite <- (H3 j) by lia. by rewrite (nth_lookup_Some _ _ d _ Hj).
Qed.
End queue.

(** ** Examples *)

Definition numbers : list Z := [0; 10; 1; 11; 12; 20; 2; 13; 14; 15; 16; 21; 22; 9]%Z.
Definition queue_of (l : list Z) : PriorityQueue := fold_left (fun q x => offer 0%Z Z.sub x q) l (PriorityQueue_new 0%Z 11).

Lemma sub_asym (x y : Z) : less Z.sub x y = true -> less Z.sub y x = false.
Proof. unfold less. lia. Qed.
Lemma sub_trans (x y z : Z) : less Z.sub y x = false -> less Z.sub z y = false -> less Z.sub z x = false.
Proof. unfold less. lia. Qed.

Lemma queue_of_ok l : queue_ok 0%Z Z.sub (queue_of l).
Proof.
  unfold queue_of. assert (queue_ok 0%Z Z.sub (PriorityQueue_new 0%Z 11)) as H by apply queue_new_ok. revert H. generalize (PriorityQueue_new 0%Z 11). induction l as [|x l IH]; intros q H; [done|].
  cbn. apply IH. apply offer_ok; [apply sub_asym|apply sub_trans|done].
Qed.

Lemma priority_queue_refines_witness : exists xs q', perform_all 0%Z Z.sub [Offer 5%Z; Poll; Peek; RemoveValue 12%Z; Offer (-1)%Z; Remove; Size] (queue_of numbers) = Ok (xs, q') /\ _size q' <= capacity q'.
Proof. destruct (priority_queue_refines 0%Z Z.sub sub_asym sub_trans true [Offer 5%Z; Poll; Peek; RemoveValue 12%Z; Offer (-1)%Z; Remove; Size] (queue_of numbers) (ok_queue_at 0%Z Z.sub true _ (queue_of_ok _))) as (xs & q' & H1 & H2 & _). exact (ex_intro _ xs (ex_intro _ q' (conj H1 H2))). Defined.

(** After the removal of 11 the 9 is below the 10, and is polled after it. *)
Example remove_breaks_order : match remove_value 0%Z Z.sub 11%Z (queue_of numbers) with
  | Ok (true, q) => match perform_all 0%Z Z.sub (repeat Poll 6) q with Ok (xs, _) => xs = map (fun e => Element (Some e)) [0; 1; 2; 10; 9; 12]%Z | _ => False end
  | _ => False
  end.
Proof. vm_compute. done. Qed.

(** The iterator removes not what it gave, but the element after it; after the last one it
    removes the last, or writes past the array. *)
Example iterator_removes_another : match next 0%Z iterator (queue_of [1; 2; 3]%Z) with
  | Ok (e, it) => e = 1%Z /\ match it_remove 0%Z Z.sub it (queue_of [1; 2; 3]%Z) with Ok (_, q) => contents q = [1; 3]%Z | _ => False end
  | _ => False
  end.
Proof. vm_compute. done. Qed.
Example iterator_writes_past : let q := queue_of [1; 2; 3; 4; 5; 6; 7; 8; 9; 10; 11]%Z in it_remove 0%Z Z.sub (mkIterator 11 true) q = UB.
Proof. vm_compute. done. Qed.
