(* ===== verification/Timer.v ===== *)
(** * TimerTaskHeap (decaf/internal/util), Timer and TimerTask (decaf/util), and the Scheduler
    of activemq/threads over them.

    A task is its number; what the code keeps in the object is in a list of records. A turn of
    the timer's thread is one round of the loop of [TimerImpl::run], which holds the lock of
    the timer; the task is run after it, without the lock. *)
From stdpp Require Import list.
From S2P Require Import Prelude BinaryHeap.

Record TimerTask : Type := mkTimerTask {
  fixedRate : bool;
  cancelled : bool;
  scheduledTime : Z;
  when : Z;
  period : Z;
}.
Definition TimerTask_new : TimerTask := mkTimerTask false false 0 0 (-1).

Definition isScheduled (t : TimerTask) : bool := (0 <? when t) || (0 <? scheduledTime t).
(** [TimerTask::cancel] *)
Definition task_cancel (t : TimerTask) : bool * TimerTask :=
  (negb (cancelled t) && (0 <? when t), mkTimerTask (fixedRate t) true (scheduledTime t) (when t) (period t)).
Definition set_when (w : Z) (t : TimerTask) : TimerTask := mkTimerTask (fixedRate t) (cancelled t) (scheduledTime t) w (period t).
Definition setScheduledTime (w : Z) (t : TimerTask) : TimerTask := mkTimerTask (fixedRate t) (cancelled t) w (when t) (period t).

(** ** TimerTaskHeap *)

Section heap.
Context (tasks : list TimerTask).
Definition task (t : nat) : TimerTask := nth t tasks TimerTask_new.
Definition earlier (t u : nat) : bool := when (task t) <? when (task u).

Definition heap_insert (t : nat) (heap : list nat) : list nat := let heap := heap ++ [t] in upHeap O earlier (length heap) heap.
(** The last takes the place of the removed one, and goes down. *)
Definition heap_remove (pos : nat) (heap : list nat) : list nat :=
  if (pos <? length heap)%nat then
    let n := (length heap - 1)%nat in downHeap O earlier n pos (take n (<[pos := nth n heap O]> heap))
  else heap.

(** The loop looks at a place again from which it removed. *)
Fixpoint delete_loop (fuel i : nat) (heap : list nat) (result : nat) : nat * list nat :=
  match fuel with
  | O => (result, heap)
  | S fuel' =>
      if (i <? length heap)%nat then
        if cancelled (task (nth i heap O)) then delete_loop fuel' i (heap_remove i heap) (S result)
        else delete_loop fuel' (S i) heap result
      else (result, heap)
  end.
Definition deleteIfCancelled (heap : list nat) : nat * list nat := delete_loop (length heap) O heap O.
End heap.

(** [find]; the code's -1 is the length here, [remove] refuses both. *)
Fixpoint heap_find (t : nat) (heap : list nat) : nat := match heap with [] => O | x :: heap' => if decide (x = t) then O else S (heap_find t heap') end.

(** ** Timer *)

(** What the thread of the timer does when it does not hold the lock. *)
Inductive Thread : Type :=
  | Idle                (* before a round of the loop *)
  | Firing (t : nat)    (* before it looks whether the task was cancelled *)
  | Running (t : nat)   (* in [run] of the task *)
  | Ended.

Record Timer : Type := mkTimer {
  store : list TimerTask;
  heap : list nat;
  timerCancelled : bool;
  thread : Thread;
  taken : list (nat * Z * Z);   (* the tasks taken to be run: their scheduled time, and when *)
  executed : list (nat * Z);    (* the calls of [run], and their scheduled time *)
}.
Definition Timer_new : Timer := mkTimer [] [] false Idle [] [].

Definition with_store x (s : Timer) := mkTimer x (heap s) (timerCancelled s) (thread s) (taken s) (executed s).
Definition with_heap x (s : Timer) := mkTimer (store s) x (timerCancelled s) (thread s) (taken s) (executed s).
Definition with_thread x (s : Timer) := mkTimer (store s) (heap s) (timerCancelled s) x (taken s) (executed s).
Definition on_task (t : nat) (f : TimerTask -> TimerTask) (s : Timer) := with_store (alter f t (store s)) s.
Definition insertTask (t : nat) (s : Timer) : Timer := with_heap (heap_insert (store s) t (heap s)) s.

(** A round of the loop. [late]: the task is cancelled between the two looks at it; [now'] is
    the clock of the second reading. [Dies]: the thread ends by an exception. *)
Inductive Verdict : Type := Returned | Sleeps | Waits (timeToSleep : Z) | Drops (t : nat) | Takes (t : nat) | Dies.

Definition next_time (now' : Z) (t : TimerTask) : Z := s64 ((if fixedRate t then when t else now') + period t).
Definition take_task (pos t : nat) (now now' : Z) (s : Timer) : Timer :=
  let w := when (task (store s) t) in
  let s := on_task t (setScheduledTime w) s in
  let s := with_heap (heap_remove (store s) pos (heap s)) s in
  let s := if 0 <=? period (task (store s) t) then insertTask t (on_task t (fun x => set_when (next_time now' x) x) s) else on_task t (set_when 0) s in
  mkTimer (store s) (heap s) (timerCancelled s) (Firing t) (taken s ++ [(t, w, now)]) (executed s).

(** The second look at the task, which starts from the first of the heap: the pointer to it is
    NULL, and [->] of it throws, when there is none. *)
Definition second_look (t : nat) (now now' : Z) (s : Timer) : Verdict * Timer :=
  match heap s with
  | [] => (Dies, with_thread Ended s)
  | u :: _ =>
      let pos := if when (task (store s) u) =? when (task (store s) t) then O else heap_find t (heap s) in
      if cancelled (task (store s) t) then (Drops t, with_heap (heap_remove (store s) (heap_find t (heap s)) (heap s)) s)
      else (Takes t, take_task pos t now now' s)
  end.

(** [synchronized] is a loop of its own, so the [continue] after a cancelled task was removed
    only gives up the lock of the task: the round goes on with the second look, having nothing
    to sleep for. What was cancelled is not run after the round. *)
Definition turn (now now' : Z) (late : bool) (s : Timer) : Verdict * Timer :=
  if timerCancelled s then (Returned, with_thread Ended s)
  else match heap s with
  | [] => (Sleeps, s)
  | t :: _ =>
      let gone := cancelled (task (store s) t) in
      let s := if gone then with_heap (heap_remove (store s) O (heap s)) s else s in
      let timeToSleep := if gone then 0 else s64 (when (task (store s) t) - now) in
      if 0 <? timeToSleep then (Waits timeToSleep, s)
      else second_look t now now' (if late then on_task t (fun x => (task_cancel x).2) s else s)
  end.

(** [Timer::scheduleTask] and the functions before it. *)
Definition scheduleTask (t : nat) (delay period : Z) (fixed : bool) (now : Z) (s : Timer) : outcome Timer :=
  if timerCancelled s then Throw IllegalStateException
  else
    let w := s64 (delay + now) in
    if w <? 0 then Throw IllegalArgumentException
    else if isScheduled (task (store s) t) then Throw IllegalStateException
    else if cancelled (task (store s) t) then Throw IllegalStateException
    else Ok (insertTask t (on_task t (fun x => mkTimerTask fixed (cancelled x) (scheduledTime x) w period) s)).
Definition schedule (t : nat) (delay now : Z) (s : Timer) : outcome Timer :=
  if delay <? 0 then Throw IllegalArgumentException else scheduleTask t delay (-1) false now s.
Definition schedule_repeating (t : nat) (delay period : Z) (fixed : bool) (now : Z) (s : Timer) : outcome Timer :=
  if delay <? 0 then Throw IllegalArgumentException else if period <=? 0 then Throw IllegalArgumentException else scheduleTask t delay period fixed now s.

Definition timer_cancel (s : Timer) : Timer := mkTimer (store s) [] true (thread s) (taken s) (executed s).
Definition purge (s : Timer) : nat * Timer :=
  match heap s with [] => (O, s) | _ => let '(n, h) := deleteIfCancelled (store s) (heap s) in (n, with_heap h s) end.

(** ** Histories *)

Inductive event : Type :=
  | Creates                                        (* a TimerTask *)
  | Schedules (t : nat) (delay now : Z)
  | Repeats (t : nat) (delay period : Z) (fixed : bool) (now : Z)
  | Cancels (t : nat)
  | CancelsTimer
  | Purges
  | Turns (now now' : Z) (late : bool)
  | Fires
  | Returns.

Definition outcome_or (s : Timer) (o : outcome Timer) : Timer := match o with Ok s' => s' | _ => s end.
Definition step (ev : event) (s : Timer) : option Timer :=
  match ev with
  | Creates => Some (with_store (store s ++ [TimerTask_new]) s)
  | Schedules t delay now => if (t <? length (store s))%nat then Some (outcome_or s (schedule t delay now s)) else None
  | Repeats t delay period fixed now => if (t <? length (store s))%nat then Some (outcome_or s (schedule_repeating t delay period fixed now s)) else None
  | Cancels t => Some (on_task t (fun x => (task_cancel x).2) s)
  | CancelsTimer => Some (timer_cancel s)
  | Purges => Some (purge s).2
  | Turns now now' late => match thread s with Idle => Some (turn now now' late s).2 | _ => None end
  | Fires => match thread s with
      | Firing t => Some (if cancelled (task (store s) t) then with_thread Idle s
                          else mkTimer (store s) (heap s) (timerCancelled s) (Running t) (taken s) (executed s ++ [(t, scheduledTime (task (store s) t))]))
      | _ => None end
  | Returns => match thread s with Running _ => Some (with_thread Idle s) | _ => None end
  end.
Fixpoint history (evs : list event) (s : Timer) : option Timer :=
  match evs with [] => Some s | ev :: evs' => match step ev s with Some s' => history evs' s' | None => None end end.

(** ** Scheduler *)

(** [tasks] of the scheduler maps what is to be run to the task of the timer that runs it; the
    timer is there when the scheduler is started. *)
Record Scheduler : Type := mkScheduler { isStarted : bool; timer : Timer; tickets : list (nat * nat) }.

Fixpoint remove_ticket (runnable : nat) (l : list (nat * nat)) : option (nat * list (nat * nat)) :=
  match l with
  | [] => None
  | (r, t) :: l' => if decide (r = runnable) then Some (t, l') else match remove_ticket runnable l' with Some (t', l'') => Some (t', (r, t) :: l'') | None => None end
  end.
Definition put_ticket (runnable t : nat) (l : list (nat * nat)) : list (nat * nat) := (runnable, t) :: match remove_ticket runnable l with Some (_, l') => l' | None => l end.

(** A new task of the timer; [executePeriodically] has a fixed rate, [schedualPeriodically] a
    fixed delay. *)
Definition scheduler_repeat (runnable : nat) (period : Z) (fixed : bool) (now : Z) (s : Scheduler) : outcome Scheduler :=
  if isStarted s then
    let t := length (store (timer s)) in
    match schedule_repeating t period period fixed now (with_store (store (timer s) ++ [TimerTask_new]) (timer s)) with
    | Ok tm => Ok (mkScheduler true tm (put_ticket runnable t (tickets s)))
    | Throw e => Throw e | UB => UB | Hang => Hang end
  else Throw IllegalStateException.
Definition executePeriodically (runnable : nat) (period now : Z) : Scheduler -> outcome Scheduler := scheduler_repeat runnable period true now.
Definition schedualPeriodically (runnable : nat) (period now : Z) : Scheduler -> outcome Scheduler := scheduler_repeat runnable period false now.
Definition executeAfterDelay (delay now : Z) (s : Scheduler) : outcome Scheduler :=
  if isStarted s then
    match schedule (length (store (timer s))) delay now (with_store (store (timer s) ++ [TimerTask_new]) (timer s)) with
    | Ok tm => Ok (mkScheduler true tm (tickets s))
    | Throw e => Throw e | UB => UB | Hang => Hang end
  else Throw IllegalStateException.
(** [remove] of an StlMap throws for what it does not have. *)
Definition scheduler_cancel (runnable : nat) (s : Scheduler) : outcome Scheduler :=
  if isStarted s then
    match remove_ticket runnable (tickets s) with
    | Some (t, l) => Ok (mkScheduler true (purge (on_task t (fun x => (task_cancel x).2) (timer s))).2 l)
    | None => Throw NoSuchElementException
    end
  else Throw IllegalStateException.
