(* ===== verification/TimerTheorems.v ===== *)
(** * Timer: the heap of the tasks, which task is taken when, and the times of a repeated one. *)
From stdpp Require Import list.
From S2P Require Import Prelude BinaryHeap Timer.
From Stdlib Require Import Lia.

#[local] Arguments Nat.sub : simpl never.
#[local] Arguments Nat.ltb : simpl never.
#[local] Arguments Z.mul : simpl never.
#[local] Arguments Z.pow : simpl never.
#[local] Arguments task : simpl never.
#[local] Arguments upHeap : simpl never.
#[local] Arguments downHeap : simpl never.

(** ** The heap *)

Lemma filter_keep {A} (P : A -> Prop) `{!forall x, Decision (P x)} (l : list A) : Forall P l -> filter P l = l.
Proof. induction 1 as [|x l Hx _ IH]; [done|]. rewrite filter_cons_True by done. by rewrite IH. Qed.

Section heap.
Context (tasks : list TimerTask).

Lemma earlier_asym t u : earlier tasks t u = true -> earlier tasks u t = false.
Proof. unfold earlier. lia. Qed.
Lemma earlier_trans t u v : earlier tasks u t = false -> earlier tasks v u = false -> earlier tasks v t = false.
Proof. unfold earlier. lia. Qed.

Definition heap_ordered (h : list nat) : Prop := ordered O (earlier tasks) (length h) h.

Lemma within_all (a b : list nat) : within (length a) a b -> b ≡ₚ a.
Proof. intros (Hl & Hp & _). by rewrite !take_ge in Hp by lia. Qed.

Lemma heap_insert_content t h : heap_insert tasks t h ≡ₚ t :: h.
Proof.
  unfold heap_insert, upHeap. rewrite (within_all (h ++ [t])); [by rewrite Permutation_app_comm|]. apply up_within; rewrite length_app; cbn; lia.
Qed.
Lemma heap_insert_ordered t h : heap_ordered h -> heap_ordered (heap_insert tasks t h).
Proof.
  intros Ho. unfold heap_ordered, heap_insert. cbv zeta. destruct (upHeap_ordered O (earlier tasks) earlier_asym earlier_trans (length (h ++ [t])) (h ++ [t])) as (Ho' & Hl & _); [rewrite length_app; cbn; lia| |by rewrite Hl].
  rewrite length_app. cbn. replace (length h + 1 - 1)%nat with (length h) by lia. intros i Hi. assert (parent i < i)%nat by (apply parent_lt; lia).
  unfold less_at. rewrite !app_nth1 by lia. by apply Ho.
Qed.

Lemma heap_remove_take pos h : (pos < length h)%nat -> heap_remove tasks pos h = take (length h - 1) (take_out O (earlier tasks) (length h) pos h).
Proof.
  intros Hp. unfold heap_remove, take_out, downHeap. rewrite (proj2 (Nat.ltb_lt _ _)) by done. destruct (decide (pos = length h - 1)%nat) as [He|Hne].
  - assert (forall f b, down O (earlier tasks) f (length h - 1) pos b = b) as Hd; [|by rewrite !Hd].
    intros [|f] b; cbn [down]; [done|]. destruct (Nat.ltb_spec (2 * pos + 1) (length h - 1)); [lia|done].
  - apply down_take; [lia|]. rewrite length_insert. lia.
Qed.
(** Whichever place is removed, the others stay. *)
Lemma heap_remove_content pos h : (pos < length h)%nat -> nth pos h O :: heap_remove tasks pos h ≡ₚ h.
Proof. intros Hp. rewrite heap_remove_take by lia. destruct (take_out_content O (earlier tasks) (length h) pos h Hp (le_n _)) as [H _]. by rewrite (take_ge h) in H by lia. Qed.
Lemma heap_remove_length pos h : (pos < length h)%nat -> length (heap_remove tasks pos h) = (length h - 1)%nat.
Proof. intros Hp. pose proof (Permutation_length (heap_remove_content pos h Hp)) as H. cbn in H. lia. Qed.
(** Removing the first keeps the order. *)
Lemma heap_remove_ordered h : heap_ordered h -> heap_ordered (heap_remove tasks O h).
Proof.
  intros Ho. destruct h as [|t h]; [done|]. assert (0 < length (t :: h))%nat as Hp by (cbn; lia). unfold heap_ordered. rewrite heap_remove_length by done. rewrite heap_remove_take by done.
  pose proof (take_out_ordered O (earlier tasks) earlier_asym earlier_trans _ _ _ Hp (le_n _) Ho (or_introl eq_refl)) as Ho'.
  intros i Hi. assert (parent i < i)%nat by (apply parent_lt; lia). unfold less_at. rewrite !nth_take by lia. by apply Ho'.
Qed.
Lemma heap_remove_before pos h i : (i < pos < length h)%nat -> nth i (heap_remove tasks pos h) O = nth i h O.
Proof.
  intros Hp. rewrite heap_remove_take by lia. rewrite nth_take by lia. unfold take_out, downHeap. destruct (decide (pos = length h - 1)%nat).
  - rewrite down_before by (rewrite ?length_insert; lia). rewrite nth_insert. by rewrite decide_False by lia.
  - rewrite down_before by (rewrite ?length_insert; lia). rewrite nth_insert. by rewrite decide_False by lia.
Qed.

(** The first of the heap has the least time. *)
Lemma heap_least t h u : heap_ordered (t :: h) -> u ∈ t :: h -> when (task tasks t) <= when (task tasks u).
Proof.
  intros Ho [i Hi]%list_elem_of_lookup. pose proof (ordered_least O (earlier tasks) earlier_asym earlier_trans _ _ i Ho (lookup_lt_Some _ _ _ Hi)) as Hl. unfold less_at in Hl.
  rewrite (nth_lookup_Some _ _ _ _ Hi) in Hl. cbn in Hl. unfold earlier in Hl. lia.
Qed.

(** What is left is what was not cancelled, and the number is that of the others. *)
Lemma delete_loop_ok fuel i h n : (length h <= i + fuel)%nat -> (forall j, (j < i)%nat -> (j < length h)%nat -> cancelled (task tasks (nth j h O)) = false) ->
  let '(r, h') := delete_loop tasks fuel i h n in
  h' ≡ₚ filter (fun t => cancelled (task tasks t) = false) h /\ (r + length h' = n + length h)%nat.
Proof.
  assert (forall i h n, (length h <= i)%nat -> (forall j, (j < i)%nat -> (j < length h)%nat -> cancelled (task tasks (nth j h O)) = false) ->
    h ≡ₚ filter (fun t => cancelled (task tasks t) = false) h /\ (n + length h = n + length h)%nat) as Hend.
  { intros k l m Hk Hl. split; [|done]. rewrite filter_keep; [done|]. apply List.Forall_forall. intros t Ht. apply list_elem_of_In, list_elem_of_lookup in Ht as [j Hj]. pose proof (lookup_lt_Some _ _ _ Hj).
    rewrite <- (nth_lookup_Some _ _ O _ Hj). apply Hl; lia. }
  revert i h n. induction fuel as [|fuel IH]; intros i h n Hf Hi; cbn [delete_loop]; [apply (Hend i); [lia|done]|]. destruct (Nat.ltb_spec i (length h)) as [Hlt|]; [|by apply (Hend i)].
  destruct (cancelled (task tasks (nth i h O))) eqn:Ec.
  - pose proof (heap_remove_content i h Hlt) as Hc. pose proof (heap_remove_length i h Hlt) as Hl.
    specialize (IH i (heap_remove tasks i h) (S n) ltac:(lia)). destruct (delete_loop _ _ _ _ _) as [r h']. destruct IH as [H1 H2].
    { intros j Hj Hj'. rewrite heap_remove_before by lia. apply Hi; lia. }
    split; [|lia]. rewrite H1. rewrite <- Hc at 2. rewrite filter_cons_False by congruence. done.
  - specialize (IH (S i) h n ltac:(lia)). destruct (delete_loop _ _ _ _ _) as [r h']. apply IH. intros j Hj Hj'. destruct (decide (j = i)) as [->|]; [done|]. apply Hi; lia.
Qed.
Lemma deleteIfCancelled_ok h : let '(r, h') := deleteIfCancelled tasks h in
  h' ≡ₚ filter (fun t => cancelled (task tasks t) = false) h /\ (r + length h' = length h)%nat.
Proof. apply (delete_loop_ok (length h) O h O); [lia|]. intros j Hj. lia. Qed.
End heap.

(** ** The records of the tasks *)

Lemma task_alter f t l u : task (alter f t l) u = if decide (u = t /\ (t < length l)%nat) then f (task l t) else task l u.
Proof.
  unfold task. destruct (decide _) as [[-> Hl]|Hn].
  - apply nth_lookup_Some. rewrite list_lookup_alter_eq. by rewrite (lookup_nth TimerTask_new).
  - destruct (decide (u = t)) as [->|Hne]; [|by rewrite !nth_lookup, list_lookup_alter_ne by done].
    rewrite !nth_overflow; [done|lia|]. rewrite length_alter. lia.
Qed.
Lemma task_alter_same {A} (g : TimerTask -> A) f t l u : (forall x, g (f x) = g x) -> g (task (alter f t l) u) = g (task l u).
Proof. intros H. rewrite task_alter. destruct (decide _) as [[-> _]|]; [apply H|done]. Qed.
Lemma task_app l x u : (u < length l)%nat -> task (l ++ [x]) u = task l u.
Proof. intros H. unfold task. by apply app_nth1. Qed.

Lemma heap_ordered_ext l l' h : (forall t, t ∈ h -> when (task l t) = when (task l' t)) -> heap_ordered l h -> heap_ordered l' h.
Proof.
  intros He Ho i Hi. specialize (Ho i Hi). assert (parent i < i)%nat by (apply parent_lt; lia). unfold less_at, earlier in *. rewrite <- !He; [done|..]; apply list_elem_of_In, nth_In; lia.
Qed.

(** ** The invariant *)

Record timer_ok (s : Timer) : Prop := mkTimerOk {
  t_nodup : base.NoDup (heap s);
  t_range : forall t, t ∈ heap s -> (t < length (store s))%nat;
  t_when : forall t, t ∈ heap s -> 0 < when (task (store s) t) < 2 ^ 63;
  t_period : forall t, period (task (store s) t) < 2 ^ 62;
}.
Definition in_order (s : Timer) : Prop := heap_ordered (store s) (heap s).

(** The clock and what is asked for are times of this age. *)
Definition sane_time (z : Z) : Prop := 0 < z < 2 ^ 62.
Definition sane (ev : event) : Prop :=
  match ev with
  | Schedules _ delay now => delay < 2 ^ 62 /\ sane_time now
  | Repeats _ delay period _ now => delay < 2 ^ 62 /\ period < 2 ^ 62 /\ sane_time now
  | Turns now now' _ => sane_time now /\ sane_time now'
  | _ => True
  end.

Lemma s64_id z : - 2 ^ 63 <= z < 2 ^ 63 -> s64 z = z.
Proof. intros H. apply wraps_id; unfold in_s; lia. Qed.

Lemma on_task_ok t f s : (forall x, when (f x) = when x /\ period (f x) = period x) -> timer_ok s -> timer_ok (on_task t f s) /\ (in_order s -> in_order (on_task t f s)).
Proof.
  intros Hf [H1 H2 H3 H4]. split; [split; cbn; try done|].
  - intros u Hu. rewrite length_alter. by apply H2.
  - intros u Hu. rewrite (task_alter_same when) by apply Hf. by apply H3.
  - intros u. rewrite (task_alter_same period) by apply Hf. apply H4.
  - unfold in_order. cbn. apply heap_ordered_ext. intros u _. symmetry. apply task_alter_same, Hf.
Qed.

(** Removing from the heap and inserting into it. *)
Lemma with_heap_ok h s : (exists x, x ≡ₚ heap s /\ h `sublist_of` x) -> timer_ok s -> timer_ok (with_heap h s).
Proof.
  intros (x & Hx & Hs) [H1 H2 H3 H4]. assert (forall u, u ∈ h -> u ∈ heap s) as Hin by (intros u Hu; rewrite <- Hx; by eapply elem_of_sublist).
  split; cbn; auto. eapply sublist_NoDup; [|exact Hs]. by rewrite Hx.
Qed.
Lemma remove_ok l pos s : timer_ok s -> timer_ok (with_heap (heap_remove l pos (heap s)) s).
Proof.
  intros Hs. apply with_heap_ok; [|done]. destruct (decide (pos < length (heap s))%nat) as [Hp|Hp].
  - eexists. split; [by apply (heap_remove_content l)|]. by apply sublist_cons.
  - exists (heap s). split; [done|]. unfold heap_remove. destruct (Nat.ltb_spec pos (length (heap s))); [lia|done].
Qed.

Lemma insert_ok t f s : timer_ok s -> t ∉ heap s -> (t < length (store s))%nat -> let x := f (task (store s) t) in 0 < when x < 2 ^ 63 -> period x < 2 ^ 62 ->
  timer_ok (insertTask t (on_task t f s)) /\ (in_order s -> in_order (insertTask t (on_task t f s))).
Proof.
  intros [H1 H2 H3 H4] Hn Hl x Hw Hp. assert (forall u, u ∈ heap s -> task (alter f t (store s)) u = task (store s) u) as Hsame.
  { intros u Hu. rewrite task_alter. destruct (decide _) as [[-> _]|]; [|done]. done. }
  split; [split; cbn|].
  - rewrite heap_insert_content. by apply list.NoDup_cons.
  - intros u. rewrite heap_insert_content. rewrite length_alter. intros [->|Hu]%elem_of_cons; [done|by apply H2].
  - intros u. rewrite heap_insert_content. intros [->|Hu]%elem_of_cons; [by rewrite task_alter, decide_True|]. rewrite Hsame by done. by apply H3.
  - intros u. rewrite task_alter. destruct (decide _); [done|apply H4].
  - intros Ho. unfold in_order. cbn. apply heap_insert_ordered. eapply heap_ordered_ext; [|exact Ho]. intros u Hu. by rewrite Hsame.
Qed.

Lemma head_removed t h (l : list TimerTask) : base.NoDup (t :: h) -> heap_remove l O (t :: h) ≡ₚ h /\ t ∉ heap_remove l O (t :: h).
Proof.
  intros [Hn _]%list.NoDup_cons. assert (heap_remove l O (t :: h) ≡ₚ h) as Hp.
  { pose proof (heap_remove_content l O (t :: h)) as H. cbn in H. apply Permutation_cons_inv with t. apply H. lia. }
  split; [done|]. by rewrite Hp.
Qed.

Lemma remove_first_order l s : (forall u, when (task (store s) u) = when (task l u)) -> in_order s -> heap_ordered l (heap_remove (store s) O (heap s)).
Proof. intros Hw Ho. apply (heap_ordered_ext (store s)); [intros; apply Hw|]. by apply heap_remove_ordered. Qed.

(** Taking the first task puts it back at its next time, or leaves it out. *)
Lemma take_task_ok t h now now' s : timer_ok s -> heap s = t :: h -> when (task (store s) t) <= now -> sane_time now -> sane_time now' ->
  timer_ok (take_task O t now now' s) /\ (in_order s -> in_order (take_task O t now now' s)).
Proof.
  intros Hs Hh Hdue Hnow Hnow'. assert (t ∈ heap s) as Hin by (rewrite Hh; by left). pose proof (t_range _ Hs t Hin) as Hl. pose proof (t_when _ Hs t Hin) as Hw. pose proof (t_period _ Hs t) as Hp.
  destruct (on_task_ok t (setScheduledTime (when (task (store s) t))) s) as [Hs1 Ho1]; [done|done|]. set (s1 := on_task t (setScheduledTime _) s) in *.
  pose proof (remove_ok (store s1) O _ Hs1) as Hs2. set (s2 := with_heap (heap_remove (store s1) O (heap s1)) s1) in *.
  assert (t ∉ heap s2) as Hout by (cbn; rewrite Hh; apply head_removed; rewrite <- Hh; apply Hs). assert (in_order s -> in_order s2) as Ho2 by (intros Ho; by apply remove_first_order; [|apply Ho1]).
  assert (when (task (store s2) t) = when (task (store s) t)) as Hwt by (by apply task_alter_same). assert (period (task (store s2) t) = period (task (store s) t)) as Hpt by (by apply task_alter_same).
  assert (fixedRate (task (store s2) t) = fixedRate (task (store s) t)) as Hft by (by apply task_alter_same).
  unfold take_task. change (with_heap _ _) with s2. destruct (Z.leb_spec 0 (period (task (store s2) t))) as [Hp0|Hp0].
  - destruct (insert_ok t (fun x => set_when (next_time now' x) x) s2 Hs2 Hout) as [Hs3 Ho3].
    + cbn. by rewrite length_alter.
    + unfold set_when, next_time, sane_time in *. cbn [when]. rewrite Hwt, Hpt, Hft in *. rewrite s64_id; destruct (fixedRate (task (store s) t)); lia.
    + unfold set_when. cbn [period]. by rewrite Hpt.
    + split; [by destruct Hs3; split|]. intros Ho. apply Ho3, Ho2, Ho.
  - assert (forall u, u ∈ heap s2 -> u <> t) as Hne by (intros u Hu ->; done). destruct Hs2 as [N1 N2 N3 N4]. split; [split; cbn -[task] in *; try done|].
    + intros u Hu. rewrite length_alter. by apply N2.
    + intros u Hu. rewrite task_alter, decide_False by (intros [? _]; by apply (Hne u)). by apply N3.
    + intros u. rewrite (task_alter_same period) by done. apply N4.
    + intros Ho. unfold in_order. cbn. apply (heap_ordered_ext (store s2)); [|by apply Ho2]. intros u Hu. rewrite task_alter, decide_False; [done|]. intros [? _]; by apply (Hne u).
Qed.

Lemma heap_find_absent t h : t ∉ h -> heap_find t h = length h.
Proof. induction h as [|x h IH]; [done|]. intros Hn. cbn. rewrite decide_False by (intros ->; apply Hn; by left). f_equal. apply IH. intros H. apply Hn. by right. Qed.
Lemma heap_remove_absent l t h : t ∉ h -> heap_remove l (heap_find t h) h = h.
Proof. intros Hn. unfold heap_remove. rewrite heap_find_absent by done. by rewrite Nat.ltb_irrefl. Qed.

(** The task may have been cancelled in the meantime. *)
Definition later_of (t : nat) (s s' : Timer) : Prop := s' = s \/ s' = on_task t (fun x => (task_cancel x).2) s.

(** What a round does, case by case. *)
Inductive turned (now now' : Z) (late : bool) (s : Timer) : Verdict * Timer -> Prop :=
  | turned_returned : timerCancelled s = true -> turned now now' late s (Returned, with_thread Ended s)
  | turned_sleeps : timerCancelled s = false -> heap s = [] -> turned now now' late s (Sleeps, s)
  | turned_waits t h : timerCancelled s = false -> heap s = t :: h -> cancelled (task (store s) t) = false -> 0 < when (task (store s) t) - now ->
      turned now now' late s (Waits (when (task (store s) t) - now), s)
  | turned_dies t s' : timerCancelled s = false -> heap s = [t] -> cancelled (task (store s) t) = true -> later_of t s s' ->
      turned now now' late s (Dies, with_thread Ended (with_heap [] s'))
  | turned_drops t h l s' : timerCancelled s = false -> heap s = t :: h -> l = store s \/ l = store s' -> later_of t s s' ->
      late = true \/ cancelled (task (store s) t) = true /\ h <> [] -> turned now now' late s (Drops t, with_heap (heap_remove l O (heap s)) s')
  | turned_takes t h : timerCancelled s = false -> heap s = t :: h -> cancelled (task (store s) t) = false -> when (task (store s) t) <= now -> late = false ->
      turned now now' late s (Takes t, take_task O t now now' s).

Lemma turn_turned now now' late s : timer_ok s -> sane_time now -> turned now now' late s (turn now now' late s).
Proof.
  intros Hs Hn. unfold turn. destruct (timerCancelled s) eqn:Etc; [by constructor|]. destruct (heap s) as [|t h] eqn:Hh; [by constructor|].
  assert (t ∈ heap s) as Hin by (rewrite Hh; by left). pose proof (t_when _ Hs t Hin) as Hw. pose proof (t_range _ Hs t Hin) as Hl. unfold sane_time in Hn. cbv zeta. destruct (cancelled _) eqn:Ec.
  - assert (t ∉ heap_remove (store s) O (t :: h)) as Hout by (apply head_removed; rewrite <- Hh; apply Hs).
    assert (length (heap_remove (store s) O (t :: h)) = length h) as Hlen by (rewrite heap_remove_length; cbn; lia).
    change (0 <? 0) with false. cbv iota. set (s1 := with_heap _ s). set (s2 := if late then _ else s1).
    assert (exists sc, later_of t s sc /\ s2 = with_heap (heap_remove (store s) O (t :: h)) sc) as (sc & Hsc & Hs2) by (destruct late; [by exists (on_task t (fun x => (task_cancel x).2) s); split; [right|]|by exists s; split; [left|]]).
    assert (cancelled (task (store s2) t) = true) as Ec2 by (rewrite Hs2; destruct Hsc as [->| ->]; [done|]; cbn; rewrite task_alter, decide_True by done; done).
    unfold second_look. rewrite Ec2. destruct (heap s2) as [|u h2] eqn:Hh2.
    + assert (h = []) as -> by (rewrite Hs2 in Hh2; cbn in Hh2; rewrite Hh2 in Hlen; by destruct h). assert (s2 = with_heap [] sc) as -> by (rewrite Hs2 in Hh2 |- *; cbn in Hh2; by rewrite Hh2). by apply (turned_dies _ _ _ _ t).
    + rewrite <- Hh2. assert (heap s2 = heap_remove (store s) O (heap s)) as Hheap by (by rewrite Hs2, Hh). rewrite heap_remove_absent by (by rewrite Hheap, Hh).
      assert (with_heap (heap s2) s2 = with_heap (heap_remove (store s) O (heap s)) sc) as -> by (by rewrite Hs2, Hh).
      apply (turned_drops _ _ _ _ t h); [done|done|by left|done|]. right. split; [done|]. intros ->. by rewrite Hh2 in Hheap; rewrite Hh in Hheap; rewrite <- Hheap in Hlen.
  - rewrite s64_id by lia. destruct (Z.ltb_spec 0 (when (task (store s) t) - now)); [by apply (turned_waits _ _ _ _ t h)|]. unfold second_look.
    assert (heap (if late then on_task t (fun x => (task_cancel x).2) s else s) = t :: h) as -> by (by destruct late). rewrite Z.eqb_refl. cbv zeta. cbn [heap_find]. rewrite decide_True by done. destruct late.
    + assert (cancelled (task (store (on_task t (fun x => (task_cancel x).2) s)) t) = true) as -> by (cbn; rewrite task_alter, decide_True by done; done). rewrite <- Hh. eapply turned_drops; [done|exact Hh|by right|by right|by left].
    + rewrite Ec. apply (turned_takes _ _ _ _ t h); first [done|lia].
Qed.

Lemma later_ok t s s' : later_of t s s' -> timer_ok s -> timer_ok s' /\ (in_order s -> in_order s') /\ heap s' = heap s /\ (forall u, when (task (store s) u) = when (task (store s') u)).
Proof. intros [->| ->] Hs; [done|]. destruct (on_task_ok t (fun x => (task_cancel x).2) s) as [H1 H2]; [done|done|]. split_and!; [done|done|done|]. intros u. symmetry. by apply task_alter_same. Qed.

Lemma turn_ok now now' late s : timer_ok s -> sane_time now -> sane_time now' -> timer_ok (turn now now' late s).2 /\ (in_order s -> in_order (turn now now' late s).2).
Proof.
  intros Hs Hn Hn'. destruct (turn_turned now now' late s Hs Hn) as [Hc|Hc Hh|t h Hc Hh He Hw|t s' Hc Hh He Hl|t h l s' Hc Hh Hs' Hl Hb|t h Hc Hh He Hw Hb]; cbn [snd]; [by destruct Hs; split; [split|]|done|done|..].
  - destruct (later_ok _ _ _ Hl Hs) as ([N1 N2 N3 N4] & _). split; [split; cbn; try done; [by apply list.NoDup_nil|by intros ? ?%elem_of_nil..]|]. intros _ i Hi. cbn in Hi. lia.
  - destruct (later_ok _ _ _ Hl Hs) as (Hs1 & Ho1 & Hh1 & Hw). split.
    + rewrite <- Hh1. by apply remove_ok.
    + intros Ho. unfold in_order. cbn [heap store with_heap]. destruct Hs' as [->| ->]; [by apply remove_first_order|]. rewrite <- Hh1. apply remove_first_order; [done|by apply Ho1].
  - by apply (take_task_ok t h).
Qed.

Lemma schedule_task_ok t delay p fixed now s : timer_ok s -> (t < length (store s))%nat -> 0 <= delay < 2 ^ 62 -> p < 2 ^ 62 -> sane_time now ->
  (forall u, u ∈ heap s -> isScheduled (task (store s) u) = true) ->
  timer_ok (outcome_or s (scheduleTask t delay p fixed now s)) /\ (in_order s -> in_order (outcome_or s (scheduleTask t delay p fixed now s))).
Proof.
  intros Hs Hl Hd Hp Hn Hsch. unfold scheduleTask, sane_time in *. destruct (timerCancelled s); [done|]. rewrite s64_id by lia. destruct (Z.ltb_spec (delay + now) 0); [lia|].
  destruct (isScheduled (task (store s) t)) eqn:Ei; [done|]. destruct (cancelled _); [done|]. cbn [outcome_or]. apply insert_ok; try done; cbn; [|lia].
  intros Hin. by rewrite (Hsch t Hin) in Ei.
Qed.

Lemma in_heap_scheduled s : timer_ok s -> forall u, u ∈ heap s -> isScheduled (task (store s) u) = true.
Proof. intros Hs u Hu. pose proof (t_when _ Hs u Hu). unfold isScheduled. destruct (Z.ltb_spec 0 (when (task (store s) u))); [done|lia]. Qed.

Lemma purge_ok s : timer_ok s -> timer_ok (purge s).2.
Proof.
  intros Hs. unfold purge. destruct (heap s) as [|t h] eqn:Hh; [done|]. rewrite <- Hh. pose proof (deleteIfCancelled_ok (store s) (heap s)) as H. destruct (deleteIfCancelled _ _) as [n h']. destruct H as [H _].
  cbn [snd]. assert (timer_ok (with_heap (filter (fun t => cancelled (task (store s) t) = false) (heap s)) s)) as [N1 N2 N3 N4].
  { apply with_heap_ok; [|done]. exists (heap s). split; [done|]. apply sublist_filter. }
  split; cbn in *; [by rewrite H|intros u; rewrite H; apply N2|intros u; rewrite H; apply N3|done].
Qed.

Definition purges (ev : event) : bool := match ev with Purges => true | _ => false end.

Lemma step_ok ev s s' : timer_ok s -> sane ev -> step ev s = Some s' -> timer_ok s' /\ (in_order s -> purges ev = false -> in_order s').
Proof.
  intros Hs Hev E. destruct ev as [|t delay now|t delay p fixed now|t| | |now now' late| |]; cbn [step] in E.
  - injection E as <-. assert (forall u, u ∈ heap s -> task (store s ++ [TimerTask_new]) u = task (store s) u) as Hsame by (intros u Hu; apply task_app; by apply (t_range _ Hs)).
    split.
    + pose proof Hs as [N1 N2 N3 N4]. split; cbn -[task]; [done|intros u Hu; rewrite length_app; cbn; specialize (N2 u Hu); lia|intros u Hu; rewrite Hsame by done; by apply N3|].
      intros u. destruct (decide (u < length (store s))%nat); [rewrite task_app by done; apply N4|]. unfold task. rewrite app_nth2 by lia. destruct (u - length (store s))%nat as [|[|?]]; cbn; lia.
    + intros Ho _. eapply heap_ordered_ext; [|exact Ho]. intros u Hu. cbn -[task]. by rewrite Hsame.
  - destruct (Nat.ltb_spec t (length (store s))) as [Hl|]; [|done]. injection E as <-. destruct Hev as [Hd Hn]. unfold schedule. destruct (Z.ltb_spec delay 0); [done|].
    destruct (schedule_task_ok t delay (-1) false now s) as [H1 H2]; try done; try lia; [by apply in_heap_scheduled|]. by split; [|intros Ho _; apply H2].
  - destruct (Nat.ltb_spec t (length (store s))) as [Hl|]; [|done]. injection E as <-. destruct Hev as (Hd & Hp & Hn). unfold schedule_repeating. destruct (Z.ltb_spec delay 0); [done|]. destruct (Z.leb_spec p 0); [done|].
    destruct (schedule_task_ok t delay p fixed now s) as [H1 H2]; try done; try lia; [by apply in_heap_scheduled|]. by split; [|intros Ho _; apply H2].
  - injection E as <-. destruct (on_task_ok t (fun x => (task_cancel x).2) s) as [H1 H2]; [done|done|]. by split; [|intros Ho _; apply H2].
  - injection E as <-. destruct Hs as [N1 N2 N3 N4]. split; [split; cbn; try done; [by apply list.NoDup_nil|by intros ? ?%elem_of_nil..]|]. intros _ _ i Hi. cbn in Hi. lia.
  - injection E as <-. split; [by apply purge_ok|done].
  - destruct (thread s); try done. injection E as <-. destruct Hev as [Hn Hn']. destruct (turn_ok now now' late s Hs Hn Hn') as [H1 H2]. by split; [|intros Ho _; apply H2].
  - destruct (thread s); try done. injection E as <-. destruct (cancelled _); by destruct Hs; split; [split|].
  - destruct (thread s); try done. injection E as <-. by destruct Hs; split; [split|].
Qed.

Lemma timer_new_ok : timer_ok Timer_new /\ in_order Timer_new.
Proof. split; [split; cbn; [by apply list.NoDup_nil|by intros ? ?%elem_of_nil..|intros t; unfold task; destruct t; cbn; lia]|]. intros i Hi. cbn in Hi. lia. Qed.

Lemma history_ok evs s s' : timer_ok s -> Forall sane evs -> history evs s = Some s' -> timer_ok s' /\ (in_order s -> Forall (fun ev => purges ev = false) evs -> in_order s').
Proof.
  revert s. induction evs as [|ev evs IH]; intros s Hs Hev; cbn [history]; [by intros [= <-]|]. apply List.Forall_cons_iff in Hev as [He Hes]. destruct (step ev s) as [s1|] eqn:E; [|done]. intros H.
  destruct (step_ok _ _ _ Hs He E) as [Hs1 Ho1], (IH s1 Hs1 Hes H) as [Hs' Ho']. split; [done|]. intros Ho [Hp Hps]%List.Forall_cons_iff. auto.
Qed.

(** Why the thread of a timer ended. *)
Definition ends_here (evs : list event) : Prop := exists before now now' late after s t,
  evs = before ++ Turns now now' late :: after /\ history before Timer_new = Some s /\ heap s = [t] /\ cancelled (task (store s) t) = true.

Lemma history_app evs evs' s : history (evs ++ evs') s = match history evs s with Some s1 => history evs' s1 | None => None end.
Proof. revert s. induction evs as [|ev evs IH]; intros s; cbn; [done|]. destruct (step ev s); [apply IH|done]. Qed.

Lemma step_ended ev s s' : timer_ok s -> sane ev -> step ev s = Some s' -> thread s' = Ended ->
  timerCancelled s' = true \/ thread s = Ended \/ exists now now' late t, ev = Turns now now' late /\ heap s = [t] /\ cancelled (task (store s) t) = true.
Proof.
  intros Hok Hev E He. destruct ev as [|t delay now|t delay p fixed now|t| | |now now' late| |]; cbn [step] in E.
  - injection E as <-. by right; left.
  - case_match; [|done]. injection E as <-. right. left. revert He. unfold schedule, scheduleTask. by repeat case_match.
  - case_match; [|done]. injection E as <-. right. left. revert He. unfold schedule_repeating, scheduleTask. by repeat case_match.
  - injection E as <-. by right; left.
  - injection E as <-. by left.
  - injection E as <-. right. left. revert He. unfold purge. destruct (heap s); [done|]. by destruct (deleteIfCancelled _ _).
  - destruct (thread s) eqn:Eth; try done. injection E as <-. destruct Hev as [Hn Hn']. revert He. destruct (turn_turned now now' late s Hok Hn) as [Hc|Hc Hh|t h Hc Hh Hca Hw|t sc Hc Hh Hca Hl|t h l sc Hc Hh Hs' Hl Hb|t h Hc Hh Hca Hw Hb]; cbn [snd]; try (rewrite ?Eth; done).
    + by left.
    + intros _. right. right. by exists now, now', late, t.
    + destruct Hl as [->| ->]; cbn; by rewrite Eth.
  - destruct (thread s); try done. injection E as <-. revert He. by destruct (cancelled _).
  - destruct (thread s); try done. by injection E as <-.
Qed.

Lemma step_cancelled ev s s' : timerCancelled s = true -> step ev s = Some s' -> timerCancelled s' = true.
Proof.
  intros Hc E. destruct ev as [|t delay now|t delay p fixed now|t| | |now now' late| |]; cbn [step] in E; try (injection E as <-; done).
  - case_match; [|done]. injection E as <-. unfold schedule, scheduleTask. by repeat case_match.
  - case_match; [|done]. injection E as <-. unfold schedule_repeating, scheduleTask. by repeat case_match.
  - injection E as <-. unfold purge. destruct (heap s); [done|]. by destruct (deleteIfCancelled _ _).
  - destruct (thread s); try done. injection E as <-. unfold turn. by rewrite Hc.
  - destruct (thread s); try done. injection E as <-. by destruct (cancelled _).
  - destruct (thread s); try done. by injection E as <-.
Qed.

Lemma history_ended evs s : Forall sane evs -> history evs Timer_new = Some s -> thread s = Ended -> timerCancelled s = true \/ ends_here evs.
Proof.
  revert s. induction evs as [|ev evs IH] using rev_ind; intros s Hev; [by intros [= <-]|]. apply List.Forall_app in Hev as [Hevs He%List.Forall_inv]. rewrite history_app. destruct (history evs Timer_new) as [s0|] eqn:E0; [|done].
  cbn [history]. destruct (step ev s0) as [s1|] eqn:E1; [|done]. intros [= <-] Hth. destruct timer_new_ok as [Hok _]. destruct (history_ok _ _ _ Hok Hevs E0) as [Hs0 _].
  destruct (step_ended _ _ _ Hs0 He E1 Hth) as [Hc|[Hth0|(now & now' & late & t & -> & Hh & Hca)]]; [by left|..].
  - destruct (IH s0 Hevs eq_refl Hth0) as [Hc|(before & now & now' & late & after & s2 & t & -> & H)]; [left; by eapply step_cancelled|]. right.
    exists before, now, now', late, (after ++ [ev]), s2, t. by rewrite <- app_assoc.
  - right. by exists evs, now, now', late, [], s0, t.
Qed.

(** C28: Of a timer from which cancelled tasks were not purged, the thread always takes the task
    with the earliest time, and not before it; it does not sleep while a task is waiting, or
    longer than until the earliest. A cancelled task that is the first is left out, and when it
    was the only one the thread ends by the exception of the empty heap. *)
Theorem earliest_first evs s now now' : history evs Timer_new = Some s -> Forall sane evs -> Forall (fun ev => purges ev = false) evs -> sane_time now ->
  match (turn now now' false s).1 with
  | Returned => timerCancelled s = true
  | Sleeps => heap s = []
  | Waits d => 0 < d /\ (exists t, t ∈ heap s /\ when (task (store s) t) = now + d) /\ forall t, t ∈ heap s -> now + d <= when (task (store s) t)
  | Drops t => t ∈ heap s /\ cancelled (task (store s) t) = true /\ heap s ≡ₚ t :: heap (turn now now' false s).2 /\ heap (turn now now' false s).2 <> []
  | Takes t => t ∈ heap s /\ cancelled (task (store s) t) = false /\ when (task (store s) t) <= now /\ forall u, u ∈ heap s -> when (task (store s) t) <= when (task (store s) u)
  | Dies => exists t, heap s = [t] /\ cancelled (task (store s) t) = true
  end.
Proof.
  intros H Hev Hp Hn. destruct timer_new_ok as [Hok Hord]. destruct (history_ok _ _ _ Hok Hev H) as [Hs Ho]. specialize (Ho Hord Hp). unfold in_order in Ho.
  destruct (turn_turned now now' false s Hs Hn) as [Hc|Hc Hh|t h Hc Hh Hca Hw|t sc Hc Hh Hca Hl|t h l sc Hc Hh Hs' Hl Hb|t h Hc Hh Hca Hw Hb]; cbn [fst snd]; [done|done|..].
  - rewrite Hh in *. split; [done|]. split; [exists t; split; [by left|lia]|]. intros u Hu. pose proof (heap_least _ _ _ _ Ho Hu). lia.
  - by exists t.
  - destruct Hb as [?|[Hca Hne]]; [done|]. rewrite Hh in *. assert (0 < length (t :: h))%nat as Hlt by (cbn; lia). cbn [heap with_heap]. split_and!; [by left|done|symmetry; apply (heap_remove_content l O (t :: h) Hlt)|].
    intros He%(f_equal length). rewrite heap_remove_length in He by done. by destruct h.
  - rewrite Hh in *. split_and!; [by left|done|lia|]. intros u Hu. by apply heap_least with h.
Qed.

(** ** The times of a repeated task *)

Definition times_of (t : nat) (l : list (nat * Z * Z)) : list Z := omap (fun x => if decide (x.1.1 = t) then Some x.1.2 else None) l.
Definition runs_of (t : nat) (l : list (nat * Z)) : list Z := omap (fun x => if decide (x.1 = t) then Some x.2 else None) l.
Definition at_rate (first p : Z) (n : nat) : list Z := map (fun k => first + Z.of_nat k * p) (seq 0 n).

#[local] Arguments times_of : simpl never.
#[local] Arguments runs_of : simpl never.

Lemma at_rate_S first p n : at_rate first p (S n) = at_rate first p n ++ [first + Z.of_nat n * p].
Proof. unfold at_rate. rewrite seq_S, map_app. done. Qed.
Lemma at_rate_length first p n : length (at_rate first p n) = n.
Proof. unfold at_rate. by rewrite length_map, length_seq. Qed.

(** What the record of a task says of when it was taken and run. *)
Record steady (x : TimerTask) (tm ex : list Z) (firing : bool) : Prop := mkSteady {
  s_unscheduled : isScheduled x = false -> tm = [];
  s_rate : fixedRate x = true -> 0 < period x /\ exists first, tm = at_rate first (period x) (length tm) /\ when x = first + Z.of_nat (length tm) * period x;
  s_run : exists rest, tm = ex ++ rest /\ if firing then rest = [scheduledTime x] else rest = [] \/ cancelled x = true /\ length rest = 1%nat;
}.
Definition firing (t : nat) (s : Timer) : bool := match thread s with Firing u => bool_decide (u = t) | _ => false end.
Definition all_steady (s : Timer) : Prop := forall t, steady (task (store s) t) (times_of t (taken s)) (runs_of t (executed s)) (firing t s).

Lemma steady_cancel x tm ex f : steady x tm ex f -> steady (task_cancel x).2 tm ex f.
Proof. intros [H1 H2 (rest & H3 & H4)]. split; [done|done|]. exists rest. split; [done|]. destruct f; cbn; tauto. Qed.
Lemma all_steady_cancel t s : all_steady s -> all_steady (on_task t (fun x => (task_cancel x).2) s).
Proof. intros H u. cbn. rewrite task_alter. destruct (decide _) as [[-> _]|]; [apply steady_cancel|]; apply H. Qed.
Lemma all_steady_frame s s' : store s' = store s -> taken s' = taken s -> executed s' = executed s -> (forall t, firing t s' = firing t s) -> all_steady s -> all_steady s'.
Proof. intros H1 H2 H3 H4 H t. rewrite H1, H2, H3, H4. apply H. Qed.

Lemma steady_schedule t delay p fixed now s : all_steady s -> p = -1 /\ fixed = false \/ 0 < p -> 0 <= delay < 2 ^ 62 -> sane_time now -> (t < length (store s))%nat ->
  all_steady (outcome_or s (scheduleTask t delay p fixed now s)).
Proof.
  intros H Hp Hd Hn Hl. unfold scheduleTask, sane_time in *. destruct (timerCancelled s); [done|]. rewrite s64_id by lia. destruct (Z.ltb_spec (delay + now) 0); [done|]. destruct (isScheduled (task (store s) t)) eqn:Ei; [done|]. destruct (cancelled (task (store s) t)) eqn:Ec; [done|].
  cbn [outcome_or]. intros u. cbn. change (firing u _) with (firing u s). rewrite task_alter. destruct (decide _) as [[-> _]|]; [|apply H].
  destruct (H t) as [H1 _ H3]. specialize (H1 Ei). rewrite H1 in *. split; [done| |exact H3]. cbn. intros ->. split; [lia|]. exists (delay + now). split; [done|lia].
Qed.

Lemma times_snoc t u w now l : times_of t (l ++ [(u, w, now)]) = times_of t l ++ (if decide (u = t) then [w] else []).
Proof. unfold times_of. rewrite omap_app. cbn. by destruct (decide (u = t)). Qed.
Lemma runs_snoc t u w l : runs_of t (l ++ [(u, w)]) = runs_of t l ++ (if decide (u = t) then [w] else []).
Proof. unfold runs_of. rewrite omap_app. cbn. by destruct (decide (u = t)). Qed.

(** What a task is after it was taken. *)
Lemma take_task_record t h now now' s u : heap s = t :: h -> (t < length (store s))%nat ->
  task (store (take_task O t now now' s)) u = if decide (u = t) then
    (let x := task (store s) t in set_when (if 0 <=? period x then next_time now' x else 0) (setScheduledTime (when x) x)) else task (store s) u.
Proof.
  intros Hh Hl. unfold take_task. cbn. rewrite (task_alter_same period) by done. destruct (0 <=? period (task (store s) t)); cbn; rewrite !task_alter, ?length_alter.
  - destruct (decide (u = t)) as [->|]; [rewrite !decide_True by done; done|]. by rewrite !decide_False by (intros [? _]; done).
  - destruct (decide (u = t)) as [->|]; [rewrite !decide_True by done; done|]. by rewrite !decide_False by (intros [? _]; done).
Qed.

Lemma steady_take t h now now' s : timer_ok s -> all_steady s -> thread s = Idle -> heap s = t :: h -> cancelled (task (store s) t) = false -> when (task (store s) t) <= now -> sane_time now ->
  all_steady (take_task O t now now' s).
Proof.
  intros Hok H Hth Hh Hc Hdue Hn u. assert (t ∈ heap s) as Hin by (rewrite Hh; by left). pose proof (t_range _ Hok t Hin) as Hl. pose proof (t_when _ Hok t Hin) as Hw. pose proof (t_period _ Hok t) as Hp.
  rewrite (take_task_record t h) by done. assert (taken (take_task O t now now' s) = taken s ++ [(t, when (task (store s) t), now)]) as -> by (unfold take_task; cbn; by destruct (_ <=? _)).
  assert (executed (take_task O t now now' s) = executed s) as -> by (unfold take_task; cbn; by destruct (_ <=? _)). assert (firing u (take_task O t now now' s) = bool_decide (t = u)) as -> by done.
  rewrite times_snoc. destruct (H u) as [H1 H2 H3]. assert (firing u s = false) as Hf by (unfold firing; by rewrite Hth). rewrite Hf in H3. destruct (decide (u = t)) as [->|Hne].
  - rewrite decide_True, bool_decide_eq_true_2 by done. destruct H3 as (rest & Hrest & [->|[? _]]); [|congruence]. rewrite app_nil_r in Hrest. split.
    + unfold isScheduled. cbn. destruct (Z.ltb_spec 0 (when (task (store s) t))); [|lia]. by rewrite orb_true_r.
    + cbn. intros Hfix. destruct (H2 Hfix) as [Hp0 (first & Htm & Hwt)]. split; [done|]. exists first. rewrite length_app. cbn [length]. rewrite Nat.add_1_r, at_rate_S, <- Hwt. split; [by rewrite <- Htm|].
      destruct (Z.leb_spec 0 (period (task (store s) t))); [|lia]. unfold next_time, sane_time in *. rewrite Hfix, s64_id by lia. lia.
    + exists [when (task (store s) t)]. by rewrite Hrest.
  - rewrite decide_False, app_nil_r, bool_decide_eq_false_2 by done. by split.
Qed.

Lemma steady_step ev s s' : timer_ok s -> all_steady s -> sane ev -> step ev s = Some s' -> all_steady s'.
Proof.
  intros Hok H Hev E. destruct ev as [|t delay now|t delay p fixed now|t| | |now now' late| |]; cbn [step] in E.
  - injection E as <-. intros t. cbn. assert (task (store s ++ [TimerTask_new]) t = task (store s) t) as ->; [|apply H]. destruct (decide (t < length (store s))%nat); [by apply task_app|].
    unfold task. rewrite (nth_overflow (store s)) by lia. rewrite app_nth2 by lia. by destruct (t - length (store s))%nat as [|[|?]].
  - destruct (Nat.ltb_spec t (length (store s))); [|done]. injection E as <-. unfold schedule. destruct (Z.ltb_spec delay 0); [done|]. destruct Hev. apply steady_schedule; first [done|by left|lia].
  - destruct (Nat.ltb_spec t (length (store s))); [|done]. injection E as <-. unfold schedule_repeating. destruct (Z.ltb_spec delay 0); [done|]. destruct (Z.leb_spec p 0); [done|]. destruct Hev as (? & ? & ?). apply steady_schedule; first [done|by right|lia].
  - injection E as <-. by apply all_steady_cancel.
  - by injection E as <-.
  - injection E as <-. unfold purge. destruct (heap s); [done|]. by destruct (deleteIfCancelled _ _).
  - destruct (thread s) eqn:Eth; try done. injection E as <-. destruct Hev as [Hn Hn']. assert (forall t sc, later_of t s sc -> all_steady sc /\ forall u, firing u sc = false) as Hlater.
    { intros t sc [->| ->]; (split; [first [done|by apply all_steady_cancel]|]); intros u; unfold firing; cbn; by rewrite Eth. }
    destruct (turn_turned now now' late s Hok Hn) as [Hc|Hc Hh|t h Hc Hh Hca Hw|t sc Hc Hh Hca Hl|t h l sc Hc Hh Hs' Hl Hb|t h Hc Hh Hca Hw Hb]; cbn [snd]; [|done|done|..].
    + apply (all_steady_frame s); try done. intros t. unfold firing. by rewrite Eth.
    + destruct (Hlater _ _ Hl) as [Hst Hf]. by apply (all_steady_frame sc).
    + destruct (Hlater _ _ Hl) as [Hst Hf]. by apply (all_steady_frame sc).
    + by apply (steady_take t h).
  - destruct (thread s) as [|t| |] eqn:Eth; try done. injection E as <-. intros u. destruct (H u) as [H1 H2 (rest & Hr & Hf)]. unfold firing in Hf. rewrite Eth in Hf. destruct (cancelled (task (store s) t)) eqn:Ec.
    + split; [done|done|]. exists rest. split; [done|]. cbn. case_bool_decide; subst; [right; by split|done].
    + cbn. rewrite runs_snoc. split; [done|done|]. destruct (decide (t = u)) as [->|Hne].
      * rewrite bool_decide_eq_true_2 in Hf by done. subst rest. exists []. split; [by rewrite app_nil_r|by left].
      * rewrite bool_decide_eq_false_2 in Hf by done. exists rest. by rewrite app_nil_r.
  - destruct (thread s) eqn:Eth; try done. injection E as <-. apply (all_steady_frame s); try done. intros u. unfold firing. by rewrite Eth.
Qed.

Lemma steady_history evs s s' : timer_ok s -> all_steady s -> Forall sane evs -> history evs s = Some s' -> all_steady s'.
Proof.
  revert s. induction evs as [|ev evs IH]; intros s Hok Hs Hev; cbn [history]; [by intros [= <-]|]. apply List.Forall_cons_iff in Hev as [He Hes]. destruct (step ev s) as [s1|] eqn:E; [|done].
  apply IH; [by eapply step_ok|by eapply steady_step|done].
Qed.
Lemma steady_new : all_steady Timer_new.
Proof. intros t. unfold task. destruct t; (split; [done|done|]); exists []; (split; [done|by left]). Qed.

(** Nothing is taken before its time. *)
Lemma never_early evs s s' : timer_ok s -> Forall sane evs -> history evs s = Some s' -> Forall (fun x => x.1.2 <= x.2) (taken s) -> Forall (fun x => x.1.2 <= x.2) (taken s').
Proof.
  revert s. induction evs as [|ev evs IH]; intros s Hok Hev; cbn [history]; [by intros [= <-]|]. apply List.Forall_cons_iff in Hev as [He Hes]. destruct (step ev s) as [s1|] eqn:E; [|done]. intros H Ht.
  apply (IH s1); [by eapply step_ok|done|done|]. destruct ev as [|t delay now|t delay p fixed now|t| | |now now' late| |]; cbn [step] in E.
  - by injection E as <-.
  - case_match; [|done]. injection E as <-. unfold schedule, scheduleTask. by repeat case_match.
  - case_match; [|done]. injection E as <-. unfold schedule_repeating, scheduleTask. by repeat case_match.
  - by injection E as <-.
  - by injection E as <-.
  - injection E as <-. unfold purge. destruct (heap s); [done|]. by destruct (deleteIfCancelled _ _).
  - destruct (thread s); try done. injection E as <-. destruct He as [Hn _]. destruct (turn_turned now now' late s Hok Hn) as [Hc|Hc Hh|t h Hc Hh Hca Hw|t sc Hc Hh Hca Hl|t h l sc Hc Hh Hs' Hl Hb|t h Hc Hh Hca Hw Hb]; cbn [snd]; try done.
    + by destruct Hl as [->| ->].
    + by destruct Hl as [->| ->].
    + assert (taken (take_task O t now now' s) = taken s ++ [(t, when (task (store s) t), now)]) as -> by (unfold take_task; cbn; by destruct (_ <=? _)). apply List.Forall_app. split; [done|]. constructor; [cbn; lia|constructor].
  - destruct (thread s); try done. injection E as <-. by destruct (cancelled _).
  - destruct (thread s); try done. by injection E as <-.
Qed.

(** C27: The runs that a task scheduled at a fixed rate has had are those of its first time and of
    every period after it, each once and none left out, whatever else the timer does and however
    late it is; none is before its time; the next time is one period after the last, unless the
    task was cancelled or is about to be run. That there is another run is not said: the thread
    that runs it ends when the timer is cancelled, or when the only task of the heap is found
    cancelled, and by nothing else. *)
Theorem fixed_rate_kept evs s t : history evs Timer_new = Some s -> Forall sane evs -> fixedRate (task (store s) t) = true ->
  exists first n, runs_of t (executed s) = at_rate first (period (task (store s) t)) n /\
    (forall w, w ∈ runs_of t (executed s) -> exists now, (t, w, now) ∈ taken s /\ w <= now) /\
    (when (task (store s) t) = first + Z.of_nat n * period (task (store s) t) \/ cancelled (task (store s) t) = true \/ thread s = Firing t) /\
    (thread s = Ended -> timerCancelled s = true \/ ends_here evs).
Proof.
  intros H Hev Hf. destruct timer_new_ok as [Hok _]. destruct (steady_history evs _ s Hok steady_new Hev H t) as [_ H2 (rest & Htm & Hrest)]. destruct (H2 Hf) as [Hp (first & Hat & Hw)]. clear H2.
  exists first, (length (runs_of t (executed s))). split_and!.
  - set (ex := runs_of t (executed s)) in *. assert (ex = take (length ex) (times_of t (taken s))) as He by (by rewrite Htm, take_app_length). rewrite He at 1. rewrite Hat, Htm, length_app. unfold at_rate.
    rewrite firstn_map, take_seq. do 2 f_equal. lia.
  - intros w Hin. assert (w ∈ times_of t (taken s)) as Hin' by (rewrite Htm; apply elem_of_app; by left). unfold times_of in Hin'. apply list_elem_of_omap in Hin' as ([[u w'] now] & Hx & Hd). cbn in Hd. destruct (decide (u = t)) as [->|]; [|done]. injection Hd as ->.
    exists now. split; [done|]. assert (Forall (fun x => x.1.2 <= x.2) (taken s)) as Hne by (eapply never_early; [apply timer_new_ok|exact Hev|exact H|constructor]).
    rewrite List.Forall_forall in Hne. apply list_elem_of_In in Hx. by apply Hne in Hx.
  - unfold firing in Hrest. clear - Hrest Hw Htm. destruct (thread s) as [|u| |] eqn:Eth; try (destruct Hrest as [->|[? _]]; [left; by rewrite Hw, Htm, app_nil_r|by right; left]). case_bool_decide; subst; [by right; right|].
    destruct Hrest as [->|[? _]]; [left; by rewrite Hw, Htm, app_nil_r|by right; left].
  - by apply history_ended.
Qed.

(** ** Histories *)

Definition delays : list Z := [0; 10; 1; 11; 12; 20; 2; 13; 14; 15; 16; 21; 22; 9].
(** Fourteen tasks, at the time 100, and some rounds at another. *)
Definition fourteen : list event := flat_map (fun '(i, d) => [Creates; Schedules i d 100]) (combine (seq 0 14) delays).
Definition rounds (n : nat) (now : Z) : list event := concat (repeat [Turns now now false; Fires; Returns] n).

Definition sane_time_b (ev : event) : bool :=
  let t z := (0 <? z) && (z <? 2 ^ 62) in
  match ev with
  | Schedules _ delay now => (delay <? 2 ^ 62) && t now
  | Repeats _ delay period _ now => (delay <? 2 ^ 62) && (period <? 2 ^ 62) && t now
  | Turns now now' _ => t now && t now'
  | _ => true
  end.
Lemma sane_times_ok evs : forallb sane_time_b evs = true -> Forall sane evs.
Proof. rewrite forallb_forall. intros H. apply List.Forall_forall. intros ev Hev. specialize (H ev Hev). unfold sane_time_b, sane, sane_time in *. destruct ev; try done; lia. Qed.

(** A history and a check of where it leads. *)
Lemma timer_leads_to evs p : match history evs Timer_new with Some s => p s | None => false end = true -> exists s, history evs Timer_new = Some s /\ p s = true.
Proof. destruct (history evs Timer_new) as [s|]; [by exists s|done]. Qed.
Lemma takes_eq t v : match v with Takes u => (u =? t)%nat | _ => false end = true -> v = Takes t.
Proof. destruct v; try done. by intros ->%Nat.eqb_eq. Qed.

Lemma unpurged evs : forallb (fun ev => negb (purges ev)) evs = true -> Forall (fun ev => purges ev = false) evs.
Proof. rewrite forallb_forall. intros H. apply List.Forall_forall. intros ev Hev. by apply negb_true_iff, H. Qed.

Definition cancelled_left : list event := fourteen ++ [Cancels 3] ++ rounds 3 109.

Lemma earliest_first_witness : exists s, history cancelled_left Timer_new = Some s /\ (turn 109 109 false s).1 = Takes 13 /\ forall u, u ∈ heap s -> when (task (store s) 13) <= when (task (store s) u).
Proof.
  destruct (timer_leads_to cancelled_left (fun s => match (turn 109 109 false s).1 with Takes u => (u =? 13)%nat | _ => false end)) as (s & E & Hv%takes_eq); [vm_compute; reflexivity|].
  pose proof (earliest_first cancelled_left s 109 109 E) as H. rewrite Hv in H.
  assert (Forall sane cancelled_left) as Hs by (apply sane_times_ok; vm_compute; reflexivity).
  assert (Forall (fun ev => purges ev = false) cancelled_left) as Hp by (apply unpurged; vm_compute; reflexivity).
  exact (ex_intro _ s (conj E (conj Hv (proj2 (proj2 (proj2 (H Hs Hp ltac:(unfold sane_time; lia)))))))).
Defined.

(** A task every ten, its timer late once. *)
Definition every_ten : list event := [Creates; Repeats 0 5 10 true 100] ++ rounds 1 105 ++ rounds 2 128.
Definition at_ten (s : Timer) : bool := fixedRate (task (store s) 0) && (period (task (store s) 0) =? 10) && bool_decide (runs_of 0 (executed s) = [105; 115; 125]).

Lemma fixed_rate_kept_witness : exists s first n, history every_ten Timer_new = Some s /\ runs_of 0 (executed s) = at_rate first 10 n /\ runs_of 0 (executed s) = [105; 115; 125].
Proof.
  destruct (timer_leads_to every_ten at_ten) as (s & E & [[Hf Hp%Z.eqb_eq]%andb_true_iff Hr%bool_decide_eq_true]%andb_true_iff); [vm_compute; reflexivity|].
  destruct (fixed_rate_kept every_ten s 0 E) as (first & n & H & _); [apply sane_times_ok; vm_compute; reflexivity|exact Hf|]. rewrite Hp in H.
  exact (ex_intro _ s (ex_intro _ first (ex_intro _ n (conj E (conj H Hr))))).
Defined.

(** With the cancelled task purged, the timer sleeps while a task is due that a later one is above. *)
Example purge_delays : match history (fourteen ++ [Cancels 3; Purges] ++ rounds 3 109) Timer_new with
  | Some s => 13%nat ∈ heap s /\ when (task (store s) 13) = 109 /\ (turn 109 109 false s).1 = Waits 1
  | None => False
  end.
Proof. vm_compute. split; [|done]. repeat (first [by left|right]). Qed.

(** A timer whose only task was cancelled: its thread ends, and what is scheduled afterwards
    is accepted and never run. *)
Definition lone_cancelled : list event := [Creates; Repeats 0 5 10 true 100] ++ rounds 1 105 ++ [Cancels 0; Turns 115 115 false; Creates; Repeats 1 5 10 true 200].
Example lone_cancelled_ends : match history lone_cancelled Timer_new with
  | Some s => thread s = Ended /\ timerCancelled s = false /\ heap s = [1%nat] /\ runs_of 1 (executed s) = [] /\ step (Turns 205 205 false) s = None
  | None => False
  end.
Proof. vm_compute. done. Qed.

(** What is scheduled after a delay cannot be cancelled at the scheduler. *)
Example delayed_not_cancelled : match executeAfterDelay 50 100 (mkScheduler true Timer_new []) with
  | Ok s => scheduler_cancel 0 s = Throw NoSuchElementException
  | _ => False
  end.
Proof. done. Qed.
