(* ===== verification/RedeliveryPolicy.v ===== *)
(** * RedeliveryPolicy and DefaultRedeliveryPolicy (activemq/core, core/policies): how long
    a consumer waits before it delivers its messages again.

    What the generator of random numbers draws is an argument. *)
From S2P Require Import Prelude Floating.
From Stdlib Require Import Floats.SpecFloat.

Record RedeliveryPolicy : Type := mkRedeliveryPolicy {
  backOffMultiplier : double;
  collisionAvoidanceFactor : double;
  initialRedeliveryDelay : Z;
  maximumRedeliveries : Z;
  useCollisionAvoidance : bool;
  useExponentialBackOff : bool;
  redeliveryDelay : Z;
  maximumRedeliveryDelay : Z;
}.

Definition NO_MAXIMUM_REDELIVERIES : Z := -1.

(** 5.0 and 0.15, the nearest double. *)
Definition DefaultRedeliveryPolicy : RedeliveryPolicy := {|
  backOffMultiplier := double_of 5;
  collisionAvoidanceFactor := SFdiv prec emax (double_of 15) (double_of 100);
  initialRedeliveryDelay := 1000;
  maximumRedeliveries := 6;
  useCollisionAvoidance := false;
  useExponentialBackOff := false;
  redeliveryDelay := 1000;
  maximumRedeliveryDelay := -1;
|}.

(** [(long long)((double)delay * factor)] *)
Definition scale (delay : Z) (factor : double) : outcome Z := truncate 64 (dmul (double_of delay) factor).

Definition outcome_bind {A B} (m : outcome A) (k : A -> outcome B) : outcome B :=
  match m with Ok a => k a | Throw e => Throw e | UB => UB | Hang => Hang end.

(** The delay before the variance: [(int)backOffMultiplier > 1] is tested on the
    truncated factor. *)
Definition backed_off (p : RedeliveryPolicy) (previousDelay : Z) : outcome Z :=
  if (0 <? previousDelay) && useExponentialBackOff p then
    outcome_bind (truncate 32 (backOffMultiplier p)) (fun m =>
      if 1 <? m then
        outcome_bind (scale previousDelay (backOffMultiplier p)) (fun nextDelay =>
          Ok (if negb (maximumRedeliveryDelay p =? -1) && (maximumRedeliveryDelay p <? nextDelay)
              then Z.max (maximumRedeliveryDelay p) (redeliveryDelay p) else nextDelay))
      else Ok (redeliveryDelay p))
  else Ok (redeliveryDelay p).

(** [nextBoolean] and [nextDouble] are the draws of the collision avoidance. *)
Definition getNextRedeliveryDelay (nextBoolean : bool) (nextDouble : double)
    (p : RedeliveryPolicy) (previousDelay : Z) : outcome Z :=
  outcome_bind (backed_off p previousDelay) (fun nextDelay =>
    if useCollisionAvoidance p then
      let factor := if nextBoolean then collisionAvoidanceFactor p else SFopp (collisionAvoidanceFactor p) in
      outcome_bind (scale nextDelay (dmul factor nextDouble)) (fun d => Ok (s64 (nextDelay + d)))
    else Ok nextDelay).

(** The delays of the redeliveries that follow one another, from the delay [d] on. *)
Fixpoint delays (p : RedeliveryPolicy) (n : nat) (d : Z) : list (outcome Z) :=
  match n with
  | O => []
  | S n' =>
      let r := getNextRedeliveryDelay false (double_of 0) p d in
      r :: match r with Ok d' => delays p n' d' | _ => [] end
  end.

(** Five, twenty-five, ... seconds, up to the limit. *)
Example delays_run :
  let p := {| backOffMultiplier := double_of 5; collisionAvoidanceFactor := double_of 0; initialRedeliveryDelay := 1000;
              maximumRedeliveries := 6; useCollisionAvoidance := false; useExponentialBackOff := true;
              redeliveryDelay := 1000; maximumRedeliveryDelay := 60000 |} in
  delays p 4 1000 = [Ok 5000; Ok 25000; Ok 60000; Ok 60000].
Proof. vm_compute. reflexivity. Qed.

(** Without collision avoidance a delay is the fixed delay, or, after a first delay and
    with exponential back-off, never above the larger of the configured maximum and the
    fixed delay. *)
Theorem delay_bounded b x p d : useCollisionAvoidance p = false -> maximumRedeliveryDelay p <> -1 ->
  match getNextRedeliveryDelay b x p d with
  | Ok r => r <= Z.max (maximumRedeliveryDelay p) (redeliveryDelay p) /\
      (useExponentialBackOff p = false \/ d <= 0 -> r = redeliveryDelay p)
  | UB => useExponentialBackOff p = true
  | _ => False
  end.
Proof.
  intros Hc Hm. unfold getNextRedeliveryDelay, backed_off. rewrite Hc, (proj2 (Z.eqb_neq _ _) Hm). cbn [negb andb].
  destruct (Z.ltb_spec 0 d), (useExponentialBackOff p); cbn [andb outcome_bind]; try lia.
  assert (forall w y, truncate w y = UB \/ exists v, truncate w y = Ok v) as Ht.
  { intros w y. unfold truncate. repeat case_match; eauto. }
  destruct (Ht 32 (backOffMultiplier p)) as [->|[m ->]]; cbn [outcome_bind]; [done|].
  destruct (1 <? m); cbn [outcome_bind]; [|split; [lia|intros [?|?]; done || lia]].
  unfold scale. destruct (Ht 64 (dmul (double_of d) (backOffMultiplier p))) as [->|[v ->]]; cbn [outcome_bind]; [done|].
  destruct (Z.ltb_spec (maximumRedeliveryDelay p) v); (split; [lia|]); intros [?|?]; done || lia.
Qed.

Lemma delay_bounded_witness :
  let p := {| backOffMultiplier := double_of 5; collisionAvoidanceFactor := double_of 0; initialRedeliveryDelay := 1000;
              maximumRedeliveries := 6; useCollisionAvoidance := false; useExponentialBackOff := true;
              redeliveryDelay := 1000; maximumRedeliveryDelay := 60000 |} in
  match getNextRedeliveryDelay true (double_of 0) p 25000 with
  | Ok r => r <= Z.max 60000 1000 /\ (true = false \/ 25000 <= 0 -> r = 1000)
  | UB => true = true
  | _ => False
  end.
Proof. intros p. apply (delay_bounded true (double_of 0) p 25000); [reflexivity|discriminate]. Defined.

(** A multiplier below two is no back-off: its integer part is 1, and the fixed delay is
    used however often the messages come back. *)
Theorem fractional_backoff_ignored b x p d : useCollisionAvoidance p = false ->
  truncate 32 (backOffMultiplier p) = Ok 1 -> getNextRedeliveryDelay b x p d = Ok (redeliveryDelay p).
Proof.
  intros Hc Ht. unfold getNextRedeliveryDelay, backed_off. rewrite Hc, Ht.
  by destruct (_ && _).
Qed.

Lemma fractional_backoff_ignored_witness :
  let p := {| backOffMultiplier := SFdiv prec emax (double_of 3) (double_of 2); collisionAvoidanceFactor := double_of 0;
              initialRedeliveryDelay := 1000; maximumRedeliveries := 6; useCollisionAvoidance := false;
              useExponentialBackOff := true; redeliveryDelay := 1000; maximumRedeliveryDelay := -1 |} in
  getNextRedeliveryDelay true (double_of 0) p 1000 = Ok 1000.
Proof.
  intros p. apply (fractional_backoff_ignored true (double_of 0) p 1000); [reflexivity|].
  assert (backOffMultiplier p = S754_finite false 6755399441055744 (-52)) as -> by (vm_compute; reflexivity).
  reflexivity.
Defined.
