(* ===== verification/TransactionContext.v ===== *)
(** * ActiveMQTransactionContext (activemq/core/ActiveMQTransactionContext.cpp): local and XA
    transactions of a session.

    The context works on the state [W] of its session through [TransactionHost]: its own
    data, the connection, and the callbacks of the registered synchronizations. The
    synchronizations are a set ordered by address, as [std::set] orders shared pointers;
    an iterator left on an element that a callback removed is undefined behaviour. *)
From Stdlib Require Import Sorting.Sorted.
From S2P Require Import Prelude.

Record Xid : Type := mkXid { formatId : Z; globalTransactionId : list Z; branchQualifier : list Z }.

Inductive TransactionId : Type :=
| LocalTransactionId (value : Z)
| XATransactionId (xid : Xid).

#[export] Instance Xid_eq_dec : EqDecision Xid.
Proof. solve_decision. Defined.
#[export] Instance TransactionId_eq_dec : EqDecision TransactionId.
Proof. solve_decision. Defined.

Inductive TransactionState : Set :=
| STATE_BEGIN | STATE_PREPARE | STATE_COMMITONEPHASE | STATE_COMMITTWOPHASE
| STATE_ROLLBACK | STATE_RECOVER | STATE_FORGET | STATE_END.

Record TransactionInfo : Type := mkTransactionInfo { ti_type : TransactionState; ti_id : option TransactionId }.

Inductive BrokerResponse : Type :=
| PlainResponse
| IntegerResponse (result : Z)
| DataArrayResponse (data : list (option Xid)).

Definition TMFAIL : Z := 0x20000000.
Definition TMJOIN : Z := 0x200000.
Definition TMRESUME : Z := 0x8000000.
Definition TMSUCCESS : Z := 0x4000000.
Definition TMSUSPEND : Z := 0x2000000.
Definition XA_RDONLY : Z := 3.
Definition MAXGTRIDSIZE : nat := 64.
Definition MAXBQUALSIZE : nat := 64.

Record TxContext (Sync : Type) : Type := mkTxContext {
  transactionId : option TransactionId;
  associatedXid : option Xid;
  synchronizations : list (Z * Sync);
}.
Arguments mkTxContext {Sync} _ _ _.
Arguments transactionId {Sync} _.
Arguments associatedXid {Sync} _.
Arguments synchronizations {Sync} _.

(** What the context uses of its session and of the connection. *)
Class TransactionHost (W Sync : Type) : Type := {
  tx : W -> TxContext Sync;
  set_tx : TxContext Sync -> W -> W;
  (** The connection: [getConnectionInfo], which wants it open, [oneway], [syncRequest],
      [getNextLocalTransactionId], and [checkClosedOrFailed] followed by
      [ensureConnectionInfoSent]. *)
  getConnectionInfo : M W unit;
  oneway_info : TransactionInfo -> M W unit;
  request_info : TransactionInfo -> M W BrokerResponse;
  getNextLocalTransactionId : M W Z;
  ensureConnected : M W unit;
}.

(** The virtual functions of a synchronization. *)
Class Synchronization (W Sync : Type) : Type := {
  sync_beforeEnd : Sync -> M W unit;
  sync_afterCommit : Sync -> M W unit;
  sync_afterRollback : Sync -> M W unit;
}.

Section context.
Context {W Sync : Type} {host : TransactionHost W Sync} {synchronization : Synchronization W Sync}.

Abbreviation context := (TxContext Sync).

Definition set_id (id : option TransactionId) (t : context) : context := mkTxContext id (associatedXid t) (synchronizations t).
Definition set_syncs (l : list (Z * Sync)) (t : context) : context := mkTxContext (transactionId t) (associatedXid t) l.
Definition associate (xid : option Xid) (id : option TransactionId) (t : context) : context := mkTxContext id xid (synchronizations t).
Definition modify_tx (f : context -> context) : M W unit := modify (fun w => set_tx (f (tx w)) w).

(** ** The set of synchronizations *)

Fixpoint set_insert (s : Z * Sync) (l : list (Z * Sync)) : list (Z * Sync) :=
  match l with
  | [] => [s]
  | x :: l' => if s.1 =? x.1 then l else if s.1 <? x.1 then s :: l else x :: set_insert s l'
  end.
Fixpoint set_find (a : Z) (l : list (Z * Sync)) : option Sync :=
  match l with [] => None | x :: l' => if x.1 =? a then Some x.2 else set_find a l' end.
(** The element after the one at [a]: what [++] makes of an iterator. *)
Fixpoint set_next (a : Z) (l : list (Z * Sync)) : option Z :=
  match l with [] => None | x :: l' => if a <? x.1 then Some x.1 else set_next a l' end.
Definition set_remove (a : Z) (l : list (Z * Sync)) : list (Z * Sync) :=
  List.filter (fun x => negb (x.1 =? a)) l.

Definition addSynchronization (s : Z * Sync) : M W unit := modify_tx (fun t => set_syncs (set_insert s (synchronizations t)) t).
Definition removeSynchronization (a : Z) : M W unit := modify_tx (fun t => set_syncs (set_remove a (synchronizations t)) t).
Definition clearSynchronizations : M W unit := modify_tx (set_syncs []).

(** [while (iter->hasNext()) f(iter->next())]: the iterator moves on before the callback
    runs. *)
Fixpoint iterate (fuel : nat) (f : Sync -> M W unit) (current : option Z) : M W unit :=
  match current with
  | None => ret tt
  | Some a =>
      match fuel with
      | O => hang
      | S fuel' =>
          w <- get ;;
          let l := synchronizations (tx w) in
          match set_find a l with
          | None => undefined
          | Some s => f s ;;; iterate fuel' f (set_next a l)
          end
      end
  end.

Definition for_each (f : Sync -> M W unit) : M W unit :=
  w <- get ;;
  let l := synchronizations (tx w) in
  iterate (length l) f (match l with [] => None | x :: _ => Some x.1 end).

Definition beforeEnd : M W unit := for_each sync_beforeEnd.

(** The destructor of [Finally] clears the set however the function ends. *)
Definition finally_clear {A} (m : M W A) : M W A :=
  fun w => let '(r, w') := m w in (r, set_tx (set_syncs [] (tx w')) w').
Definition afterCommit : M W unit := finally_clear (for_each sync_afterCommit).
Definition afterRollback : M W unit := finally_clear (for_each sync_afterRollback).

(** ** Local transactions *)

Definition isInTransaction (w : W) : bool := match transactionId (tx w) with Some _ => true | None => false end.
Definition isInLocalTransaction (w : W) : bool :=
  match transactionId (tx w) with Some (LocalTransactionId _) => true | _ => false end.
Definition isInXATransaction (w : W) : bool :=
  match transactionId (tx w) with Some (XATransactionId _) => true | _ => false end.

(** The handlers of begin, commit and rollback: a cms exception and an
    ActiveMQException leave as they are. *)
Definition catch_tx {A} (m : M W A) : M W A :=
  rethrow (fun e => is_cms e || bool_decide (e = ActiveMQException)) ActiveMQException m.

Definition begin : M W unit :=
  catch_tx
    (w <- get ;;
     if isInXATransaction w then throw TransactionInProgressException
     else if isInTransaction w then ret tt
     else
       clearSynchronizations ;;;
       getConnectionInfo ;;;
       n <- getNextLocalTransactionId ;;
       let id := LocalTransactionId n in
       oneway_info (mkTransactionInfo STATE_BEGIN (Some id)) ;;;
       modify_tx (set_id (Some id))).

Definition rollback : M W unit :=
  catch_tx
    (w <- get ;;
     if isInXATransaction w then throw TransactionInProgressException
     else
       try_catch (fun e => bool_decide (e = TransactionRolledBackException)) beforeEnd (fun _ => ret tt) ;;;
       w <- get ;;
       match transactionId (tx w) with
       | None => ret tt
       | Some id =>
           getConnectionInfo ;;;
           modify_tx (set_id None) ;;;
           request_info (mkTransactionInfo STATE_ROLLBACK (Some id)) ;;;
           afterRollback
       end).

(** The part of [commit] after [beforeEnd]. *)
Definition commit_open : M W unit :=
  w <- get ;;
  match transactionId (tx w) with
  | None => ret tt
  | Some id =>
      getConnectionInfo ;;;
      modify_tx (set_id None) ;;;
      try_catch is_cms
        (request_info (mkTransactionInfo STATE_COMMITONEPHASE (Some id)) ;;; afterCommit)
        (fun e => afterRollback ;;; throw e)
  end.

Definition commit : M W unit :=
  catch_tx
    (w <- get ;;
     if isInXATransaction w then throw TransactionInProgressException
     else
       try_catch is_cms beforeEnd (fun e => rollback ;;; throw e) ;;;
       commit_open).

(** ** XA transactions *)

(** The identifiers are copied into zeroed buffers before they are compared. *)
Definition buffer (n : nat) (l : list Z) : list Z := take n l ++ replicate (n - length l) 0.
Definition same_xid (x y : Xid) : bool :=
  (formatId x =? formatId y) &&
  bool_decide (buffer MAXBQUALSIZE (branchQualifier x) = buffer MAXBQUALSIZE (branchQualifier y)) &&
  bool_decide (buffer MAXGTRIDSIZE (globalTransactionId x) = buffer MAXGTRIDSIZE (globalTransactionId y)).
Definition equals (local remote : option Xid) : bool :=
  match local, remote with
  | None, None => true
  | Some x, Some y => same_xid x y
  | _, _ => false
  end.

(** [catch (Exception&) catch (CMSException&) { throw toXAException }] *)
Definition to_xa {A} (m : M W A) : M W A := try_catch (fun e => is_decaf e || is_cms e) m (fun _ => throw XAException).

(** The same with the callbacks of a rollback first, whatever they throw. *)
Definition to_xa_rolling_back {A} (m : M W A) : M W A :=
  try_catch (fun e => is_decaf e || is_cms e) m
    (fun _ => try_catch (fun _ => true) afterRollback (fun _ => ret tt) ;;; throw XAException).

Definition setXid (xid : option Xid) : M W unit :=
  to_xa ensureConnected ;;;
  match xid with
  | Some x =>
      getConnectionInfo ;;;
      modify_tx (associate (Some x) (Some (XATransactionId x))) ;;;
      to_xa (oneway_info (mkTransactionInfo STATE_BEGIN (Some (XATransactionId x))))
  | None =>
      w <- get ;;
      match transactionId (tx w) with
      | None => modify_tx (associate None None)
      | Some id =>
          getConnectionInfo ;;;
          modify_tx (associate None None) ;;;
          try_catch is_cms (request_info (mkTransactionInfo STATE_END (Some id)) ;;; ret tt)
            (fun _ => throw XAException)
      end
  end.

(** [throw new XAException] throws a pointer, which no handler of a class matches. *)
Definition xa_start (xid : option Xid) (flags : Z) : M W unit :=
  w <- get ;;
  if isInLocalTransaction w then throw XAException
  else match associatedXid (tx w) with
  | Some _ => throw UnknownException
  | None =>
      if (Z.land flags TMJOIN =? TMJOIN) || (Z.land flags TMRESUME =? TMRESUME) then throw XAException
      else clearSynchronizations ;;; setXid xid
  end.

Definition xa_end (xid : option Xid) (flags : Z) : M W unit :=
  w <- get ;;
  if isInLocalTransaction w then throw XAException
  else if negb (Z.land flags (Z.lor TMSUSPEND TMFAIL) =? 0) then
    if negb (equals (associatedXid (tx w)) xid) then throw XAException
    else to_xa beforeEnd ;;; setXid None
  else if Z.land flags TMSUCCESS =? TMSUCCESS then
    if equals (associatedXid (tx w)) xid then to_xa beforeEnd ;;; setXid None else ret tt
  else throw XAException.

Definition xa_prepare (xid : option Xid) : M W Z :=
  w <- get ;;
  match xid with
  | None => throw XAException
  | Some x =>
      if equals (associatedXid (tx w)) xid then throw XAException
      else
        to_xa_rolling_back
          (getConnectionInfo ;;;
           response <- request_info (mkTransactionInfo STATE_PREPARE (Some (XATransactionId x))) ;;
           match response with
           | IntegerResponse result =>
               (if result =? XA_RDONLY then afterCommit else ret tt) ;;; ret result
           | _ => undefined
           end)
  end.

Definition xa_commit (xid : option Xid) (onePhase : bool) : M W unit :=
  w <- get ;;
  match xid with
  | None => throw XAException
  | Some x =>
      if equals (associatedXid (tx w)) xid then throw XAException
      else
        to_xa_rolling_back
          (ensureConnected ;;;
           getConnectionInfo ;;;
           request_info (mkTransactionInfo (if onePhase then STATE_COMMITONEPHASE else STATE_COMMITTWOPHASE)
             (Some (XATransactionId x))) ;;;
           afterCommit)
  end.

(** The id a rollback or a forget names: the current one for the associated xid. *)
Definition named_id (x : Xid) (t : context) : option TransactionId :=
  if equals (associatedXid t) (Some x) then
    match transactionId t with Some (XATransactionId y) => Some (XATransactionId y) | _ => None end
  else Some (XATransactionId x).

Definition xa_rollback (xid : option Xid) : M W unit :=
  w <- get ;;
  match xid with
  | None => throw XAException
  | Some x =>
      to_xa
        (ensureConnected ;;;
         getConnectionInfo ;;;
         request_info (mkTransactionInfo STATE_ROLLBACK (named_id x (tx w))) ;;;
         afterRollback)
  end.

Definition xa_forget (xid : option Xid) : M W unit :=
  w <- get ;;
  match xid with
  | None => throw XAException
  | Some x =>
      getConnectionInfo ;;;
      to_xa (request_info (mkTransactionInfo STATE_FORGET (named_id x (tx w))) ;;; ret tt)
  end.

(** The array the xids are cloned into is assigned to the parameter: the caller is
    told how many there are and does not see them. *)
Definition xa_recover (recovered : option (list Xid)) : M W (Z * option (list Xid)) :=
  getConnectionInfo ;;;
  to_xa
    (ensureConnected ;;;
     response <- request_info (mkTransactionInfo STATE_RECOVER None) ;;
     match response with
     | DataArrayResponse data =>
         if forallb (fun x => match x with Some _ => true | None => false end) data
         then ret (zlen data, recovered) else undefined
     | _ => undefined
     end).
End context.

(** ** The local transactions of a session *)

(** What the session told the broker of its local transactions, oldest first, and the
    transaction that is open: one at a time, each begun once under an id higher than
    those before, and ended once at most. A transaction whose end did not reach the
    broker is given up. *)
Inductive bracketed : list (TransactionState * Z) -> option Z -> Prop :=
| bracketed_nil : bracketed [] None
| bracketed_begin l n : bracketed l None -> Forall (fun e => e.2 < n) l -> bracketed (l ++ [(STATE_BEGIN, n)]) (Some n)
| bracketed_end l n t : bracketed l (Some n) -> t = STATE_COMMITONEPHASE \/ t = STATE_ROLLBACK ->
    bracketed (l ++ [(t, n)]) None
| bracketed_lost l n : bracketed l (Some n) -> bracketed l None.

Definition local_infos (log : list TransactionInfo) : list (TransactionState * Z) :=
  omap (fun i => match ti_id i with Some (LocalTransactionId n) => Some (ti_type i, n) | _ => None end) log.

Definition open_local {Sync} (t : TxContext Sync) : option Z :=
  match transactionId t with Some (LocalTransactionId n) => Some n | _ => None end.

(** What the log of a connection records: a command that was handed to the transport,
    whatever came back. [next_id] is the counter of local transactions. *)
Definition sent (A : Type) (r : outcome A) (l l' : list TransactionInfo) (i : TransactionInfo) : Prop :=
  match r with Ok _ => l' = l ++ [i] | _ => l' = l ++ [i] \/ l' = l end.

Class TransactionLog (W Sync : Type) {host : TransactionHost W Sync} : Type := {
  log : W -> list TransactionInfo;
  next_id : W -> Z;
  tx_set t w : tx (set_tx t w) = t;
  log_set t w : log (set_tx t w) = log w /\ next_id (set_tx t w) = next_id w;
  log_info w : (getConnectionInfo w).2 = w;
  log_oneway i w : sent unit (oneway_info i w).1 (log w) (log (oneway_info i w).2) i /\
    tx (oneway_info i w).2 = tx w /\ next_id (oneway_info i w).2 = next_id w;
  log_request i w : sent _ (request_info i w).1 (log w) (log (request_info i w).2) i /\
    tx (request_info i w).2 = tx w /\ next_id (request_info i w).2 = next_id w;
  log_ensure w : log (ensureConnected w).2 = log w /\ tx (ensureConnected w).2 = tx w /\
    next_id (ensureConnected w).2 = next_id w;
  log_next w : (getNextLocalTransactionId w).1 = Ok (next_id w) /\
    log (getNextLocalTransactionId w).2 = log w /\ tx (getNextLocalTransactionId w).2 = tx w /\
    next_id (getNextLocalTransactionId w).2 = next_id w + 1;
}.

(** What a transaction manager does with the context of a session. *)
Inductive xa_operation : Type :=
| XaStart (xid : option Xid) (flags : Z) | XaEnd (xid : option Xid) (flags : Z)
| XaPrepare (xid : option Xid) | XaCommit (xid : option Xid) (onePhase : bool)
| XaRollback (xid : option Xid) | XaForget (xid : option Xid) | XaRecover.

Definition run_xa {W Sync : Type} {host : TransactionHost W Sync} {synchronization : Synchronization W Sync}
    (o : xa_operation) : M W unit :=
  match o with
  | XaStart xid flags => xa_start xid flags
  | XaEnd xid flags => xa_end xid flags
  | XaPrepare xid => xa_prepare xid ;;; ret tt
  | XaCommit xid onePhase => xa_commit xid onePhase
  | XaRollback xid => xa_rollback xid
  | XaForget xid => xa_forget xid
  | XaRecover => xa_recover None ;;; ret tt
  end.

Section transactions.
Context {W Sync : Type} {host : TransactionHost W Sync} {synchronization : Synchronization W Sync}
  {LOG : TransactionLog W Sync}.

(** The log is that of one local transaction after the other, and the open one is the
    one the context holds. *)
Definition tx_invariant (w : W) : Prop :=
  bracketed (local_infos (log w)) (open_local (tx w)) /\
  Forall (fun e => e.2 < next_id w) (local_infos (log w)).

Definition no_local (w : W) : Prop := tx_invariant w /\ open_local (tx w) = None.

Lemma local_infos_snoc l i : local_infos (l ++ [i]) =
  local_infos l ++ match ti_id i with Some (LocalTransactionId n) => [(ti_type i, n)] | _ => [] end.
Proof. unfold local_infos. rewrite omap_app. cbn. by destruct (ti_id i) as [[]|]. Qed.

Lemma bracketed_closed l o : bracketed l o -> bracketed l None.
Proof. destruct o as [n|]; [apply bracketed_lost|done]. Qed.

(** Two states with the same log, counter and open transaction. *)
Lemma invariant_same w w' : log w' = log w -> next_id w' = next_id w -> open_local (tx w') = open_local (tx w) ->
  tx_invariant w -> tx_invariant w'.
Proof. unfold tx_invariant. by intros -> -> ->. Qed.

Lemma keeps_modify_tx (P : W -> Prop) f :
  (forall w, P w -> P (set_tx (f (tx w)) w)) -> keeps P (modify_tx f).
Proof. intros Hf w Hw. by apply Hf. Qed.

Lemma set_tx_invariant t w : open_local t = open_local (tx w) -> tx_invariant w -> tx_invariant (set_tx t w).
Proof. intros Ht. destruct (log_set t w) as [E1 E2]. apply invariant_same; [done..|]. by rewrite tx_set. Qed.

(** Forgetting the open transaction. *)
Lemma set_tx_closes t w : open_local t = None -> tx_invariant w -> no_local (set_tx t w).
Proof.
  intros Ht [Hb Hn]. destruct (log_set t w) as [E1 E2]. unfold no_local, tx_invariant. rewrite E1, E2, tx_set, Ht.
  split_and!; [by eapply bracketed_closed|done..].
Qed.

(** A command that names no local transaction. *)
Definition foreign (i : TransactionInfo) : Prop :=
  match ti_id i with Some (LocalTransactionId _) => False | _ => True end.

Lemma sent_foreign {A} (r : outcome A) l l' i : foreign i -> sent A r l l' i -> local_infos l' = local_infos l.
Proof.
  intros Hi Hs. assert (local_infos (l ++ [i]) = local_infos l) as E.
  { rewrite local_infos_snoc. unfold foreign in Hi. destruct (ti_id i) as [[]|]; by rewrite ?app_nil_r. }
  unfold sent in Hs. destruct r; [by subst|destruct Hs as [->| ->]; [done|done]..].
Qed.

(** What holds of the log, the counter and the context, whatever else the state has. *)
Definition about_log (P : W -> Prop) : Prop :=
  forall w w', local_infos (log w') = local_infos (log w) -> next_id w' = next_id w -> tx w' = tx w -> P w -> P w'.

Lemma about_invariant : about_log tx_invariant.
Proof. intros w w' E1 E2 E3. unfold tx_invariant. by rewrite E1, E2, E3. Qed.
Lemma about_no_local : about_log no_local.
Proof. intros w w' E1 E2 E3. unfold no_local, tx_invariant. by rewrite E1, E2, E3. Qed.

Lemma keeps_oneway_foreign P i : about_log P -> foreign i -> keeps P (oneway_info i).
Proof.
  intros HP Hi w. destruct (log_oneway i w) as (Hs & Ht & Hn). apply HP; [|done..]. by eapply sent_foreign.
Qed.
Lemma keeps_request_foreign P i : about_log P -> foreign i -> keeps P (request_info i).
Proof.
  intros HP Hi w. destruct (log_request i w) as (Hs & Ht & Hn). apply HP; [|done..]. by eapply sent_foreign.
Qed.
Lemma keeps_ensure P : about_log P -> keeps P ensureConnected.
Proof. intros HP w. destruct (log_ensure w) as (E1 & E2 & E3). apply HP; [by rewrite E1|done..]. Qed.

Lemma keeps_connectionInfo P : keeps P getConnectionInfo.
Proof. intros w. by rewrite log_info. Qed.

Lemma keeps_iterate P f fuel cur : (forall s, keeps P (f s)) -> keeps P (iterate fuel f cur).
Proof.
  intros Hf. revert cur. induction fuel as [|fuel IH]; intros [a|]; cbn [iterate]; try (intros w; done).
  apply keeps_read. intros w Hw. destruct (set_find a _) as [s|]; [|done].
  apply keeps_bind; [apply Hf|intros; apply IH|done].
Qed.
Lemma keeps_for_each P f : (forall s, keeps P (f s)) -> keeps P (for_each f).
Proof. intros Hf. apply keeps_read. intros w. by apply keeps_iterate. Qed.
Lemma keeps_finally_clear {A} (m : M W A) : keeps tx_invariant m -> keeps tx_invariant (finally_clear m).
Proof.
  intros Hm w Hw. specialize (Hm w Hw). unfold finally_clear. destruct (m w) as [r w']. cbn in *.
  by apply set_tx_invariant.
Qed.
Lemma keeps_clear : keeps tx_invariant clearSynchronizations.
Proof. apply keeps_modify_tx. intros w. by apply set_tx_invariant. Qed.

(** The end of the open transaction: it is out of the context before the broker is
    told, and stays out whatever the broker answers. *)
Lemma keeps_end t id w : t = STATE_COMMITONEPHASE \/ t = STATE_ROLLBACK ->
  tx_invariant w -> transactionId (tx w) = Some id ->
  tx_invariant (request_info (mkTransactionInfo t (Some id)) (set_tx (set_id None (tx w)) w)).2.
Proof.
  intros Hty [Hb Hn] Hid. set (i := mkTransactionInfo _ _). set (v := set_tx _ w).
  destruct (log_set (set_id None (tx w)) w) as [L1 L2]. destruct (log_request i v) as (Hs & Ht & Hx).
  assert (open_local (tx (request_info i v).2) = None) as Ho by (by rewrite Ht; unfold v; rewrite tx_set).
  assert (log (request_info i v).2 = log w ++ [i] \/ log (request_info i v).2 = log w) as Hl.
  { unfold sent in Hs. fold v in L1. rewrite L1 in Hs. destruct (request_info i v).1; [by left|done..]. }
  fold v in L2. unfold tx_invariant. rewrite Ho, Hx, L2.
  destruct Hl as [-> | ->]; [|split; [by eapply bracketed_closed|done]].
  rewrite local_infos_snoc. cbn [ti_id ti_type i]. unfold open_local in Hb. rewrite Hid in Hb.
  destruct id as [n|x]; [|rewrite app_nil_r; split; [done|done]].
  split; [by apply bracketed_end|]. apply Forall_app_2; [done|]. constructor; [|done]. cbn.
  inversion Hb as [|l m ? ? Hl| |]; subst.
  rewrite <- Hl in Hn. apply Forall_app in Hn as [_ Hn]. by inversion Hn.
Qed.

Context (before_keeps : forall s, keeps tx_invariant (sync_beforeEnd s))
        (commit_keeps : forall s, keeps tx_invariant (sync_afterCommit s))
        (rollback_keeps : forall s, keeps tx_invariant (sync_afterRollback s)).

Lemma keeps_afterCommit : keeps tx_invariant afterCommit.
Proof. by apply keeps_finally_clear, keeps_for_each. Qed.
Lemma keeps_afterRollback : keeps tx_invariant afterRollback.
Proof. by apply keeps_finally_clear, keeps_for_each. Qed.
Hint Resolve keeps_connectionInfo keeps_afterCommit keeps_afterRollback keeps_clear keeps_for_each keeps_ensure keeps_request_foreign
  keeps_oneway_foreign about_invariant about_no_local before_keeps : keeps.

(** The start of a transaction [n], above every id the log has. *)
Lemma begin_sent n u r u' : oneway_info (mkTransactionInfo STATE_BEGIN (Some (LocalTransactionId n))) u = (r, u') ->
  bracketed (local_infos (log u)) None -> Forall (fun e => e.2 < n) (local_infos (log u)) ->
  open_local (tx u) = None -> next_id u = n + 1 ->
  tx_invariant match r with Ok _ => set_tx (set_id (Some (LocalTransactionId n)) (tx u')) u' | _ => u' end.
Proof.
  intros E Hb Hf Ho Hx. set (i := mkTransactionInfo _ _) in *. destruct (log_oneway i u) as (Hs & E1 & E2).
  rewrite E in Hs, E1, E2. cbn [fst snd] in *.
  assert (local_infos (log u ++ [i]) = local_infos (log u) ++ [(STATE_BEGIN, n)]) as Ei by apply local_infos_snoc.
  assert (bracketed (local_infos (log u) ++ [(STATE_BEGIN, n)]) (Some n)) as Hb' by (by apply bracketed_begin).
  assert (Forall (fun e => e.2 < n + 1) (local_infos (log u) ++ [(STATE_BEGIN, n)])) as Hf'.
  { apply Forall_app_2; [eapply Forall_impl; [|exact Hf]; cbn; lia|]. constructor; [cbn; lia|done]. }
  assert (forall l, l = log u ++ [i] \/ l = log u ->
    bracketed (local_infos l) None /\ Forall (fun e => e.2 < n + 1) (local_infos l)) as Hl.
  { intros l [-> | ->]; rewrite ?Ei; (split; [by try eapply bracketed_closed|]); [done|].
    eapply Forall_impl; [|exact Hf]. cbn. lia. }
  destruct r; cbn in Hs.
  1: { destruct (log_set (set_id (Some (LocalTransactionId n)) (tx u')) u') as [L1 L2].
       unfold tx_invariant. by rewrite L1, L2, tx_set, Hs, E2, Hx, Ei. }
  all: apply Hl in Hs as [? ?]; unfold tx_invariant; by rewrite E1, Ho, E2, Hx.
Qed.

Lemma keeps_begin : keeps tx_invariant begin.
Proof.
  apply keeps_rethrow, keeps_read. intros w. destruct (isInXATransaction w) eqn:Hx; [done|].
  destruct (isInTransaction w) eqn:Ht; [done|]. intros Hw. apply keeps_clear in Hw as Hc.
  unfold isInTransaction in Ht. destruct (transactionId (tx w)) eqn:Hid; [done|].
  unfold bind at 1. cbn [clearSynchronizations modify_tx modify fst snd] in *. set (v := set_tx _ w) in *.
  assert (open_local (tx v) = None) as Hv by (unfold v; rewrite tx_set; unfold open_local; cbn; by rewrite Hid).
  pose proof (log_info v) as Hi. unfold bind at 1. destruct (getConnectionInfo v) as [[a|e| |] v'] eqn:Ei; cbn in Hi; subst v'; [|done..].
  destruct Hc as [Hb Hn]. rewrite Hv in Hb. destruct (log_next v) as (En & L1 & L2 & L3). unfold bind at 1.
  destruct (getNextLocalTransactionId v) as [r u] eqn:Eu. cbn [fst snd] in *. subst r.
  unfold bind. destruct (oneway_info _ u) as [r u'] eqn:E.
  apply begin_sent in E; [|by rewrite ?L1, ?L2..]. by destruct r.
Qed.

(** The request that ends the open transaction, and what the function makes of it. *)
Lemma keeps_ending t (after : M W BrokerResponse -> M W unit) : t = STATE_COMMITONEPHASE \/ t = STATE_ROLLBACK ->
  (forall m w, tx_invariant (m w).2 -> tx_invariant (after m w).2) ->
  keeps tx_invariant
    (w <- get ;;
     match transactionId (tx w) with
     | None => ret tt
     | Some id => getConnectionInfo ;;; modify_tx (set_id None) ;;; after (request_info (mkTransactionInfo t (Some id)))
     end).
Proof.
  intros Ht Ha. apply keeps_read. intros w Hw. destruct (transactionId (tx w)) as [id|] eqn:Hid; [|done].
  pose proof (log_info w) as Hi. unfold bind at 1. destruct (getConnectionInfo w) as [[a|e| |] v]; cbn in Hi; subst v; [|done..].
  apply Ha. by apply keeps_end.
Qed.

Lemma bind_after {A} (P : W -> Prop) (m : M W BrokerResponse) (k : BrokerResponse -> M W A) w :
  (forall a, keeps P (k a)) -> P (m w).2 -> P (bind m k w).2.
Proof. intros Hk. unfold bind. destruct (m w) as [[] w']; cbn; try done. apply Hk. Qed.

Lemma try_after (P : W -> Prop) p (m : M W unit) h w : (forall e, keeps P (h e)) -> P (m w).2 -> P (try_catch p m h w).2.
Proof. intros Hh. unfold try_catch. destruct (m w) as [[|e| |] w']; cbn; try done. destruct (p e); [apply Hh|done]. Qed.

Lemma keeps_rollback : keeps tx_invariant rollback.
Proof.
  apply keeps_rethrow, keeps_bind; [apply keeps_get|]. intros w0. destruct (isInXATransaction w0); [apply keeps_throw|].
  apply keeps_bind; [apply keeps_try_catch; [by apply keeps_for_each|intros; apply keeps_ret]|]. intros _.
  apply (keeps_ending STATE_ROLLBACK (fun m => m ;;; afterRollback)); [by right|].
  intros m w. apply bind_after. intros _. apply keeps_afterRollback.
Qed.

Lemma keeps_commit : keeps tx_invariant commit.
Proof.
  apply keeps_rethrow, keeps_bind; [apply keeps_get|]. intros w0. destruct (isInXATransaction w0); [apply keeps_throw|].
  apply keeps_bind.
  { apply keeps_try_catch; [by apply keeps_for_each|]. intros e.
    apply keeps_bind; [apply keeps_rollback|intros; apply keeps_throw]. }
  intros _.
  apply (keeps_ending STATE_COMMITONEPHASE
    (fun m => try_catch is_cms (m ;;; afterCommit) (fun e => afterRollback ;;; throw e))); [by left|].
  intros m w Hm. apply try_after.
  - intros e. apply keeps_bind; [apply keeps_afterRollback|intros; apply keeps_throw].
  - apply bind_after; [intros _; apply keeps_afterCommit|done].
Qed.

End transactions.

(** Without local transactions: a predicate [N] that implies [no_local] is kept by every
    operation of the context if the callbacks and the connection keep it. *)
Section no_local.
Context {W Sync : Type} {host : TransactionHost W Sync} {synchronization : Synchronization W Sync}
  {LOG : TransactionLog W Sync}.
Context (N : W -> Prop) (N_no_local : forall w, N w -> no_local w)
  (N_set : forall t w, N w -> open_local t = None -> N (set_tx t w))
  (N_oneway : forall i, foreign i -> keeps N (oneway_info i))
  (N_request : forall i, foreign i -> keeps N (request_info i))
  (N_ensure : keeps N ensureConnected)
  (before_N : forall s, keeps N (sync_beforeEnd s))
  (commit_N : forall s, keeps N (sync_afterCommit s))
  (rollback_N : forall s, keeps N (sync_afterRollback s)).

Lemma N_modify_tx f : (forall t, open_local t = None -> open_local (f t) = None) -> keeps N (modify_tx f).
Proof. intros Hf. apply keeps_modify_tx. intros w Hw. apply N_set; [done|]. apply Hf. by destruct (N_no_local w Hw). Qed.

Lemma N_clear : keeps N clearSynchronizations.
Proof. by apply N_modify_tx. Qed.
Lemma N_for_each f : (forall s, keeps N (f s)) -> keeps N (for_each f).
Proof. apply keeps_for_each. Qed.
Lemma N_finally (f : Sync -> M W unit) : (forall s, keeps N (f s)) -> keeps N (finally_clear (for_each f)).
Proof.
  intros Hf w Hw. pose proof (keeps_for_each N f Hf w Hw) as Hm. unfold finally_clear.
  destruct (for_each f w) as [r w']. cbn in *. apply N_set; [done|]. by destruct (N_no_local w' Hm).
Qed.
Lemma N_afterCommit : keeps N afterCommit.
Proof. by apply N_finally. Qed.
Lemma N_afterRollback : keeps N afterRollback.
Proof. by apply N_finally. Qed.

Lemma foreign_none t : foreign (mkTransactionInfo t None).
Proof. done. Qed.
Lemma foreign_xa t x : foreign (mkTransactionInfo t (Some (XATransactionId x))).
Proof. done. Qed.
Lemma foreign_named t x (c : TxContext Sync) : foreign (mkTransactionInfo t (named_id x c)).
Proof. unfold foreign, named_id. cbn. destruct (equals _ _); [by destruct (transactionId c) as [[]|]|done]. Qed.
Lemma foreign_N t id w : N w -> transactionId (tx w) = Some id -> foreign (mkTransactionInfo t (Some id)).
Proof. intros [_ Ho]%N_no_local Hid. unfold open_local in Ho. rewrite Hid in Ho. by destruct id. Qed.
Lemma foreign_connectionInfo : keeps N getConnectionInfo.
Proof. apply keeps_connectionInfo. Qed.
Hint Resolve N_clear N_afterCommit N_afterRollback N_for_each N_oneway N_request N_ensure before_N foreign_none
  foreign_xa foreign_named foreign_connectionInfo : keeps.

(** The end of what is open, whatever the function makes of the broker's answer. *)
Lemma N_ending t f (after : M W BrokerResponse -> M W unit) :
  (forall t', open_local (f t') = None) -> (forall m w, N (m w).2 -> N (after m w).2) ->
  keeps N
    (w <- get ;;
     match transactionId (tx w) with
     | None => modify_tx f
     | Some id => getConnectionInfo ;;; modify_tx f ;;; after (request_info (mkTransactionInfo t (Some id)))
     end).
Proof.
  intros Hf Ha. apply keeps_read. intros w Hw. destruct (transactionId (tx w)) as [id|] eqn:Hid; [|by apply N_set].
  pose proof (log_info w) as Hi. unfold bind at 1. destruct (getConnectionInfo w) as [[a|e| |] v]; cbn in Hi; subst v; [|done..].
  apply Ha, N_request; [by eapply foreign_N|]. by apply N_set.
Qed.

Lemma keeps_N_same {A} (m m' : M W A) : (forall w, (m w).2 = (m' w).2) -> keeps N m' -> keeps N m.
Proof. intros E Hm w Hw. rewrite E. by apply Hm. Qed.

Lemma N_setXid xid : keeps N (setXid xid).
Proof.
  unfold setXid, to_xa. destruct xid as [x|].
  - keeps. by apply N_modify_tx.
  - apply keeps_bind; [keeps|]. intros _.
    apply (N_ending STATE_END (associate None None)
      (fun m => try_catch is_cms (m ;;; ret tt) (fun _ => throw XAException))); [done|].
    intros m w Hm. apply try_after; [intros; apply keeps_throw|]. by apply bind_after; [intros; apply keeps_ret|].
Qed.
Hint Resolve N_setXid : keeps.

Lemma N_open t (after : M W BrokerResponse -> M W unit) : (forall m w, N (m w).2 -> N (after m w).2) ->
  keeps N
    (w <- get ;;
     match transactionId (tx w) with
     | None => ret tt
     | Some id => getConnectionInfo ;;; modify_tx (set_id None) ;;; after (request_info (mkTransactionInfo t (Some id)))
     end).
Proof.
  intros Ha w Hw. rewrite bind_get. pose proof (N_ending t (set_id None) after (fun _ => eq_refl) Ha w Hw) as He. rewrite bind_get in He.
  by destruct (transactionId (tx w)).
Qed.

Lemma N_rollback : keeps N rollback.
Proof.
  apply keeps_rethrow, keeps_bind; [apply keeps_get|]. intros w0. destruct (isInXATransaction w0); [apply keeps_throw|].
  apply keeps_bind; [apply keeps_try_catch; [by apply N_for_each|intros; apply keeps_ret]|]. intros _.
  apply (N_open STATE_ROLLBACK (fun m => m ;;; afterRollback)).
  intros m w. apply bind_after. intros _. apply N_afterRollback.
Qed.

Lemma N_commit : keeps N commit.
Proof.
  apply keeps_rethrow, keeps_bind; [apply keeps_get|]. intros w0. destruct (isInXATransaction w0); [apply keeps_throw|].
  apply keeps_bind.
  { apply keeps_try_catch; [by apply N_for_each|]. intros e.
    apply keeps_bind; [apply N_rollback|intros; apply keeps_throw]. }
  intros _.
  apply (N_open STATE_COMMITONEPHASE (fun m => try_catch is_cms (m ;;; afterCommit) (fun e => afterRollback ;;; throw e))).
  intros m w Hm. apply try_after.
  - intros e. apply keeps_bind; [apply N_afterRollback|intros; apply keeps_throw].
  - apply bind_after; [intros _; apply N_afterCommit|done].
Qed.

Lemma keeps_run_xa o : keeps N (run_xa o).
Proof.
  destruct o; cbn [run_xa].
  - unfold xa_start. keeps.
  - unfold xa_end, to_xa, beforeEnd. keeps.
  - unfold xa_prepare, to_xa_rolling_back. keeps.
  - unfold xa_commit, to_xa_rolling_back. keeps.
  - unfold xa_rollback, to_xa. keeps.
  - unfold xa_forget, to_xa. keeps.
  - unfold xa_recover, to_xa. keeps.
Qed.
End no_local.

(** ** Notification *)

Section notification.
Context {W Sync : Type} {host : TransactionHost W Sync} {synchronization : Synchronization W Sync}.

Abbreviation addresses l := (map (fst (A := Z) (B := Sync)) l).

(** The set is in the order of the addresses, each once. *)
Definition ordered (l : list (Z * Sync)) : Prop := StronglySorted Z.lt (addresses l).

Lemma set_insert_addresses s (l : list (Z * Sync)) a : a ∈ addresses (set_insert s l) <-> a = s.1 \/ a ∈ addresses l.
Proof.
  induction l as [|x l IH]; cbn [set_insert map]; [by rewrite list_elem_of_singleton, elem_of_nil; tauto|].
  destruct (Z.eqb_spec s.1 x.1) as [E|E]; cbn [map]; [rewrite elem_of_cons, E; tauto|].
  destruct (Z.ltb_spec s.1 x.1); cbn [map]; rewrite !elem_of_cons; [tauto|]. rewrite IH. tauto.
Qed.

Lemma set_insert_ordered s (l : list (Z * Sync)) : ordered l -> ordered (set_insert s l).
Proof.
  unfold ordered. induction l as [|x l IH]; cbn [set_insert map]; intros Hl; [by repeat constructor|].
  apply StronglySorted_inv in Hl as [Hl Hx]. destruct (Z.eqb_spec s.1 x.1) as [E|E]; [by constructor|].
  destruct (Z.ltb_spec s.1 x.1) as [Hs|Hs]; cbn [map]; constructor; auto.
  - by constructor.
  - constructor; [done|]. eapply Forall_impl; [|exact Hx]. cbn. lia.
  - apply Forall_forall. intros a Ha%list_elem_of_In. apply set_insert_addresses in Ha as [->|Ha]; [lia|].
    rewrite Forall_forall in Hx. by apply Hx, list_elem_of_In.
Qed.

Lemma ordered_at (p q : list (Z * Sync)) s : ordered (p ++ s :: q) -> Forall (fun x => x.1 < s.1) p /\ Forall (fun x => s.1 < x.1) q.
Proof.
  unfold ordered. rewrite map_app. cbn [map]. intros Ho. induction p as [|x p IH]; cbn [map app] in *.
  - apply StronglySorted_inv in Ho as [_ Hq]. split; [done|]. by rewrite Forall_map in Hq.
  - apply StronglySorted_inv in Ho as [Ho Hx]. destruct (IH Ho) as [Hp Hq]. split; [|done]. constructor; [|done].
    apply Forall_app in Hx as [_ Hx]. by inversion Hx.
Qed.

Lemma set_find_at (p q : list (Z * Sync)) s : Forall (fun x => x.1 < s.1) p -> set_find s.1 (p ++ s :: q) = Some s.2.
Proof.
  induction 1 as [|x p Hx Hp IH]; cbn [app set_find]; [by rewrite Z.eqb_refl|]. by rewrite (proj2 (Z.eqb_neq _ _)) by lia.
Qed.

Lemma set_next_at (p q : list (Z * Sync)) s : Forall (fun x => x.1 < s.1) p -> Forall (fun x => s.1 < x.1) q ->
  set_next s.1 (p ++ s :: q) = option_map fst (head q).
Proof.
  intros Hp Hq. induction Hp as [|x p Hx Hp IH]; cbn [app set_next]; rewrite (proj2 (Z.ltb_ge _ _)) by lia; [|done].
  destruct Hq as [|y q Hy Hq]; cbn [set_next]; [done|]. by rewrite (proj2 (Z.ltb_lt _ _)) by lia.
Qed.

(** A callback of the synchronizations [l] that leaves the set as it finds it. *)
Definition leaves_set (f : Sync -> M W unit) (l : list (Z * Sync)) : Prop :=
  Forall (fun s => forall w, synchronizations (tx (f s.2 w).2) = synchronizations (tx w)) l.

Lemma iterate_visits f (p q : list (Z * Sync)) w : leaves_set f q -> synchronizations (tx w) = p ++ q -> ordered (p ++ q) ->
  forall fuel, (length q <= fuel)%nat -> iterate fuel f (option_map fst (head q)) w = iter_m f (map snd q) w.
Proof.
  intros Hf. revert p w. induction Hf as [|s q Hf Hq' IH]; intros p w Hw Ho fuel Hfuel; [by destruct fuel|].
  destruct fuel as [|fuel]; [cbn in Hfuel; lia|]. cbn [head option_map iterate map iter_m]. rewrite bind_get, Hw.
  destruct (ordered_at _ _ _ Ho) as [Hp Hq]. rewrite (set_find_at _ _ _ Hp), (set_next_at _ _ _ Hp Hq).
  unfold bind. destruct (f s.2 w) as [[[]|e| |] w'] eqn:E; try done.
  specialize (Hf w) as Hs. rewrite E in Hs. cbn in Hs. cbn in Hfuel.
  apply (IH (p ++ [s])); [by rewrite Hs, Hw, <- app_assoc|by rewrite <- app_assoc|lia].
Qed.

(** The registered synchronizations are visited once each, by address, if no callback
    adds or removes one. *)
Lemma for_each_visits f w : leaves_set f (synchronizations (tx w)) -> ordered (synchronizations (tx w)) ->
  for_each f w = iter_m f (map snd (synchronizations (tx w))) w.
Proof.
  intros Hf Ho. unfold for_each. rewrite bind_get.
  rewrite <- (iterate_visits f [] (synchronizations (tx w)) w Hf eq_refl Ho (length (synchronizations (tx w)))) by lia.
  by destruct (synchronizations (tx w)).
Qed.

(** A callback that removes the synchronization it belongs to leaves the iteration without
    a place if it is not the last: the list was cleared under it. *)
Lemma iterate_cleared f a fuel w : synchronizations (tx w) = [] -> iterate (S fuel) f (Some a) w = (UB, w).
Proof. intros E. cbn [iterate]. by rewrite bind_get, E. Qed.
End notification.

(** ** A commit *)

Lemma rethrow_at {S A} keep to (m : M S A) s t (m' : M S A) : m s = m' t -> rethrow keep to m s = rethrow keep to m' t.
Proof. unfold rethrow. by intros ->. Qed.

Section outcomes.
Context {W Sync : Type} {host : TransactionHost W Sync} {synchronization : Synchronization W Sync}.

(** What a commit comes to once its preparations are done: nothing without a transaction;
    otherwise the context forgets the transaction, and the broker is asked. If it agrees,
    every synchronization is told in order, and the set is emptied. If the request fails
    with anything but a cms exception, which is all that a connection throws, the
    synchronizations are neither told that the transaction is lost nor removed. *)
Theorem commit_outcome w w1 :
  isInXATransaction w = false -> beforeEnd w = (Ok tt, w1) ->
  match transactionId (tx w1) with
  | None => commit w = (Ok tt, w1)
  | Some id =>
      let v := set_tx (set_id None (tx w1)) w1 in
      getConnectionInfo w1 = (Ok tt, w1) ->
      match request_info (mkTransactionInfo STATE_COMMITONEPHASE (Some id)) v with
      | (Ok _, w2) =>
          leaves_set sync_afterCommit (synchronizations (tx w2)) -> ordered (synchronizations (tx w2)) ->
          commit w = catch_tx (try_catch is_cms
            (finally_clear (iter_m sync_afterCommit (map snd (synchronizations (tx w2))))) (fun e => afterRollback ;;; throw e)) w2
      | (Throw e, w2) => is_cms e = false -> commit w = (Throw ActiveMQException, w2)
      | (UB, w2) => commit w = (UB, w2)
      | (Hang, w2) => commit w = (Hang, w2)
      end
  end.
Proof.
  intros Hx Hb.
  assert (try_catch is_cms beforeEnd (fun e => rollback ;;; throw e) w = (Ok tt, w1)) as Hb' by (unfold try_catch; by rewrite Hb).
  assert (commit w = catch_tx commit_open w1) as ->.
  { apply rethrow_at. rewrite bind_get, Hx. apply (bind_ok _ (fun _ => commit_open) _ _ _ Hb'). }
  unfold commit_open, catch_tx, rethrow. rewrite bind_get.
  destruct (transactionId (tx w1)) as [id|]; [|done]. cbv zeta.
  intros Hi. rewrite (bind_ok _ _ _ _ _ Hi). unfold modify_tx. rewrite bind_modify. set (v := set_tx _ w1).
  destruct (request_info _ v) as [[a|e| |] w2] eqn:E; unfold try_catch, bind; rewrite E; [|intros He; rewrite He; cbn; rewrite He; cbn; by case_bool_decide; subst|done..].
  intros Hf Ho. unfold afterCommit, finally_clear at 1 2. by rewrite (for_each_visits _ _ Hf Ho).
Qed.

End outcomes.
