(* ===== verification/SessionState.v ===== *)
(** * The state a session and its consumers work on (activemq/core/kernels): messages,
    acknowledgements, the consumers' configuration ([ActiveMQConsumerKernelConfig]), the
    connection, and the calls a consumer makes on its session and connection.

    Everything one session reaches is one state [World]: a consumer is a record under
    its number, the connection keeps what was sent and what the network is going to
    answer, the scheduler keeps what it was asked to run. Objects whose identity the code
    compares (a MessageDispatch, the MessageId of a message) carry their address. *)
From S2P Require Import Prelude Commands DispatchChannel RedeliveryPolicy TransactionContext.

#[export] Instance ProducerId_eq_dec : EqDecision ProducerId.
Proof. solve_decision. Defined.
#[export] Instance MessageId_eq_dec : EqDecision MessageId.
Proof. solve_decision. Defined.

(** ** Messages and acknowledgements *)

(** [destination]: whether it is a queue, and its name. [redeliveryDelay_property]: whether the properties hold a [redeliveryDelay]; [None] if
    they cannot be unmarshalled. *)
Record Message : Type := mkMessage {
  destination : option (bool * list Z);
  messageId : MessageId;
  messageId_address : Z;
  redeliveryCounter : Z;
  expiration : Z;
  priority : Z;
  redeliveryDelay_property : option bool;
}.

Record MessageDispatch : Type := mkMessageDispatch {
  address : Z;
  consumerId : Z;
  message : option Message;
  dispatch_redeliveryCounter : Z;
  rollbackCause : option exn;
}.

Inductive AckType : Set :=
| ACK_TYPE_DELIVERED | ACK_TYPE_POISON | ACK_TYPE_CONSUMED | ACK_TYPE_REDELIVERED
| ACK_TYPE_INDIVIDUAL | ACK_TYPE_UNMATCHED | ACK_TYPE_EXPIRED.

#[export] Instance AckType_eq_dec : EqDecision AckType.
Proof. solve_decision. Defined.

(** Why a message is given up: with the limit that was exceeded. *)
Inductive PoisonCause : Type :=
| DispatchExceeds (limit : Z)
| RedeliveryExceeds (limit : Z) (cause : option exn)
| DuplicateDelivery.

Record MessageAck : Type := mkAck {
  ack_type : AckType;
  ack_consumer : Z;
  ack_first : option MessageId;
  ack_last : MessageId;
  ack_count : Z;
  ack_transaction : option TransactionId;
  ack_poison : option PoisonCause;
}.

(** [MessageAck(dispatch, type, count)]; the message is dereferenced. *)
Definition new_ack (d : MessageDispatch) (m : Message) (t : AckType) (count : Z) : MessageAck :=
  mkAck t (consumerId d) None (messageId m) count None None.
Definition ack_from (first : option MessageId) (a : MessageAck) : MessageAck :=
  mkAck (ack_type a) (ack_consumer a) first (ack_last a) (ack_count a) (ack_transaction a) (ack_poison a).
Definition ack_in (t : option TransactionId) (a : MessageAck) : MessageAck :=
  mkAck (ack_type a) (ack_consumer a) (ack_first a) (ack_last a) (ack_count a) t (ack_poison a).
Definition ack_because (c : PoisonCause) (a : MessageAck) : MessageAck :=
  mkAck (ack_type a) (ack_consumer a) (ack_first a) (ack_last a) (ack_count a) (ack_transaction a) (Some c).

Definition isStandardAck (a : MessageAck) : bool := bool_decide (ack_type a = ACK_TYPE_CONSUMED).
Definition isDeliveredAck (a : MessageAck) : bool := bool_decide (ack_type a = ACK_TYPE_DELIVERED).
Definition isExpiredAck (a : MessageAck) : bool := bool_decide (ack_type a = ACK_TYPE_EXPIRED).

(** ** A consumer *)

(** What its ConsumerInfo and its options say. [destination_queue] is
    [getDestination()->isQueue()]. *)
Record Options : Type := mkOptions {
  prefetchSize : Z;
  browser : bool;
  destination_queue : bool;
  transactedIndividualAck : bool;
  nonBlockingRedelivery : bool;
  consumerExpiryCheckEnabled : bool;
  optimizeAcknowledgeTimeOut : Z;
  failoverRedeliveryWaitPeriod : Z;
  redeliveryPolicy : option RedeliveryPolicy;
  listener : bool;
}.

Record Acks : Type := mkAcks {
  pendingAck : option MessageAck;
  deliveredCounter : Z;
  additionalWindowSize : Z;
  ackCounter : Z;
  deliveringAcks : bool;
  optimizeAcknowledge : bool;
  optimizeAckTimestamp : Z;
}.

(** [previouslyDelivered] is a map from message ids by address, oldest entry first. *)
Record Redelivery : Type := mkRedelivery {
  current_redeliveryDelay : Z;
  previouslyDelivered : option (list (Z * (MessageId * bool)));
  isClearDeliveredList : bool;
  inProgressClearRequiredFlag : Z;
}.

(** [executor] holds the acknowledgements its one thread still has to send. *)
Record Life : Type := mkLife {
  started : bool;
  closeSyncRegistered : bool;
  disposing : bool;
  synchronizationRegistered : bool;
  lastDeliveredSequenceId : Z;
  executor : option (list MessageAck);
  failureError : bool;
}.

Section consumer.
Context {C : Type}.

(** [delivered] has the message delivered last at its head. *)
Record Consumer : Type := mkConsumer {
  options : Options;
  unconsumed : C;
  delivered : list MessageDispatch;
  acks : Acks;
  redelivery : Redelivery;
  life : Life;
}.

Definition set_unconsumed (c : C) (k : Consumer) : Consumer := mkConsumer (options k) c (delivered k) (acks k) (redelivery k) (life k).
Definition set_delivered (l : list MessageDispatch) (k : Consumer) : Consumer :=
  mkConsumer (options k) (unconsumed k) l (acks k) (redelivery k) (life k).
Definition set_acks (a : Acks) (k : Consumer) : Consumer := mkConsumer (options k) (unconsumed k) (delivered k) a (redelivery k) (life k).
Definition set_redelivery (r : Redelivery) (k : Consumer) : Consumer := mkConsumer (options k) (unconsumed k) (delivered k) (acks k) r (life k).
Definition set_life (l : Life) (k : Consumer) : Consumer := mkConsumer (options k) (unconsumed k) (delivered k) (acks k) (redelivery k) l.
End consumer.
Arguments Consumer : clear implicits.
Arguments mkConsumer {C} _ _ _ _ _ _.

Definition set_pendingAck x (a : Acks) : Acks :=
  mkAcks x (deliveredCounter a) (additionalWindowSize a) (ackCounter a) (deliveringAcks a) (optimizeAcknowledge a) (optimizeAckTimestamp a).
Definition set_deliveredCounter x (a : Acks) : Acks :=
  mkAcks (pendingAck a) x (additionalWindowSize a) (ackCounter a) (deliveringAcks a) (optimizeAcknowledge a) (optimizeAckTimestamp a).
Definition set_additionalWindowSize x (a : Acks) : Acks :=
  mkAcks (pendingAck a) (deliveredCounter a) x (ackCounter a) (deliveringAcks a) (optimizeAcknowledge a) (optimizeAckTimestamp a).
Definition set_ackCounter x (a : Acks) : Acks :=
  mkAcks (pendingAck a) (deliveredCounter a) (additionalWindowSize a) x (deliveringAcks a) (optimizeAcknowledge a) (optimizeAckTimestamp a).
Definition set_deliveringAcks x (a : Acks) : Acks :=
  mkAcks (pendingAck a) (deliveredCounter a) (additionalWindowSize a) (ackCounter a) x (optimizeAcknowledge a) (optimizeAckTimestamp a).
Definition set_optimizeAckTimestamp x (a : Acks) : Acks :=
  mkAcks (pendingAck a) (deliveredCounter a) (additionalWindowSize a) (ackCounter a) (deliveringAcks a) (optimizeAcknowledge a) x.

Definition set_redeliveryDelay x (r : Redelivery) : Redelivery :=
  mkRedelivery x (previouslyDelivered r) (isClearDeliveredList r) (inProgressClearRequiredFlag r).
Definition set_previouslyDelivered x (r : Redelivery) : Redelivery :=
  mkRedelivery (current_redeliveryDelay r) x (isClearDeliveredList r) (inProgressClearRequiredFlag r).
Definition set_isClearDeliveredList x (r : Redelivery) : Redelivery :=
  mkRedelivery (current_redeliveryDelay r) (previouslyDelivered r) x (inProgressClearRequiredFlag r).
Definition set_inProgressClearRequiredFlag x (r : Redelivery) : Redelivery :=
  mkRedelivery (current_redeliveryDelay r) (previouslyDelivered r) (isClearDeliveredList r) x.

Definition set_started x (l : Life) : Life :=
  mkLife x (closeSyncRegistered l) (disposing l) (synchronizationRegistered l) (lastDeliveredSequenceId l) (executor l) (failureError l).
Definition set_closeSyncRegistered x (l : Life) : Life :=
  mkLife (started l) x (disposing l) (synchronizationRegistered l) (lastDeliveredSequenceId l) (executor l) (failureError l).
Definition set_disposing x (l : Life) : Life :=
  mkLife (started l) (closeSyncRegistered l) x (synchronizationRegistered l) (lastDeliveredSequenceId l) (executor l) (failureError l).
Definition set_registered x (l : Life) : Life :=
  mkLife (started l) (closeSyncRegistered l) (disposing l) x (lastDeliveredSequenceId l) (executor l) (failureError l).
Definition set_lastDelivered x (l : Life) : Life :=
  mkLife (started l) (closeSyncRegistered l) (disposing l) (synchronizationRegistered l) x (executor l) (failureError l).
Definition set_executor x (l : Life) : Life :=
  mkLife (started l) (closeSyncRegistered l) (disposing l) (synchronizationRegistered l) (lastDeliveredSequenceId l) x (failureError l).
Definition set_failureError x (l : Life) : Life :=
  mkLife (started l) (closeSyncRegistered l) (disposing l) (synchronizationRegistered l) (lastDeliveredSequenceId l) (executor l) x.

(** ** The connection *)

Inductive Command : Type :=
| CAck (a : MessageAck)
| CTransaction (i : TransactionInfo)
| CRemoveConsumer (c : Z) (lastDelivered : Z)
| CRemoveSession (lastDelivered : Z)
| CPull (c : Z) (timeout : Z)
| CConnectionInfo.

(** What comes of handing a command to the transport: an answer, an ExceptionResponse
    (which a one way command does not wait for), or an exception, after the command was
    sent or without. *)
Inductive reply : Type :=
| Answered (r : BrokerResponse)
| Refused
| Failed (sent : bool) (e : exn).

(** The duplicate detection a connection keeps ([ConnectionAudit]): for the consumer that
    asks and the message. *)
Class Audit (A : Type) : Type := {
  audit_isDuplicate : Z -> Message -> A -> bool * A;
  audit_rollbackDuplicate : Z -> Message -> A -> A;
  audit_removeDispatcher : Z -> A -> A;
}.

(** [network] has the replies to come, [wire] what was sent, the last at the end;
    [interruptions] is [transportInterruptionProcessingComplete]. *)
Record Connection (A : Type) : Type := mkConnection {
  connection_closed : bool;
  connection_closing : bool;
  transportFailed : bool;
  sendAcksAsync : bool;
  infoSent : bool;
  checkForDuplicates : bool;
  audit : A;
  wire : list Command;
  network : list reply;
  localTransactionIds : Z;
  interruptions : Z;
}.
Arguments mkConnection {A} _ _ _ _ _ _ _ _ _ _ _.
Arguments connection_closed {A} _.
Arguments connection_closing {A} _.
Arguments transportFailed {A} _.
Arguments sendAcksAsync {A} _.
Arguments infoSent {A} _.
Arguments checkForDuplicates {A} _.
Arguments audit {A} _.
Arguments wire {A} _.
Arguments network {A} _.
Arguments localTransactionIds {A} _.
Arguments interruptions {A} _.

Section connection.
Context {A : Type}.
Implicit Types (n : Connection A).

Definition set_infoSent x n : Connection A :=
  mkConnection (connection_closed n) (connection_closing n) (transportFailed n) (sendAcksAsync n) x
    (checkForDuplicates n) (audit n) (wire n) (network n) (localTransactionIds n) (interruptions n).
Definition set_audit x n : Connection A :=
  mkConnection (connection_closed n) (connection_closing n) (transportFailed n) (sendAcksAsync n) (infoSent n)
    (checkForDuplicates n) x (wire n) (network n) (localTransactionIds n) (interruptions n).
Definition set_wire x y n : Connection A :=
  mkConnection (connection_closed n) (connection_closing n) (transportFailed n) (sendAcksAsync n) (infoSent n)
    (checkForDuplicates n) (audit n) x y (localTransactionIds n) (interruptions n).
Definition set_localTransactionIds x n : Connection A :=
  mkConnection (connection_closed n) (connection_closing n) (transportFailed n) (sendAcksAsync n) (infoSent n)
    (checkForDuplicates n) (audit n) (wire n) (network n) x (interruptions n).
Definition set_interruptions x n : Connection A :=
  mkConnection (connection_closed n) (connection_closing n) (transportFailed n) (sendAcksAsync n) (infoSent n)
    (checkForDuplicates n) (audit n) (wire n) (network n) (localTransactionIds n) x.

Definition isClosed_check : M (Connection A) unit :=
  n <- get ;; if connection_closed n then throw ActiveMQException else ret tt.

(** A [ConnectionFailedException] is an [ActiveMQException]. *)
Definition checkClosedOrFailed : M (Connection A) unit :=
  isClosed_check ;;; n <- get ;; if transportFailed n then throw ActiveMQException else ret tt.

(** The transport takes one reply of the network; with none left everything is
    answered. *)
Definition next_reply (n : Connection A) : reply := match network n with [] => Answered PlainResponse | r :: _ => r end.
Definition transport (c : Command) : M (Connection A) reply :=
  n <- get ;;
  let r := next_reply n in
  modify (set_wire (match r with Failed false _ => wire n | _ => wire n ++ [c] end) (tail (network n))) ;;;
  match r with Failed _ e => throw e | _ => ret r end.

Definition always_amq {S B} (m : M S B) : M S B := rethrow (fun _ => false) ActiveMQException m.

Definition connection_oneway (c : Command) : M (Connection A) unit :=
  always_amq (checkClosedOrFailed ;;; transport c ;;; ret tt).

(** An ExceptionResponse is thrown as an [ActiveMQException]. *)
Definition connection_syncRequest (c : Command) : M (Connection A) BrokerResponse :=
  always_amq
    (checkClosedOrFailed ;;;
     r <- transport c ;;
     match r with Answered a => ret a | _ => throw ActiveMQException end).

(** Without [watchTopicAdvisories]. *)
Definition ensureConnectionInfoSent : M (Connection A) unit :=
  always_amq
    (n <- get ;;
     if infoSent n || connection_closed n then ret tt
     else connection_syncRequest CConnectionInfo ;;; modify (set_infoSent true)).

(** The counter of local transactions is 64 bits wide; it is a number here. *)
Definition connection_nextTransactionId : M (Connection A) Z :=
  n <- get ;;
  modify (set_localTransactionIds (localTransactionIds n + 1)) ;;;
  ret (localTransactionIds n + 1).

Context `{Audit A}.

Definition isDuplicate (c : Z) (m : Message) : M (Connection A) bool :=
  n <- get ;;
  if checkForDuplicates n then
    let '(b, a) := audit_isDuplicate c m (audit n) in modify (set_audit a) ;;; ret b
  else ret false.

Definition rollbackDuplicate (c : Z) (m : Message) : M (Connection A) unit :=
  n <- get ;;
  if connection_closed n || connection_closing n then ret tt
  else modify (set_audit (audit_rollbackDuplicate c m (audit n))).

Definition removeAuditedDispatcher (c : Z) : M (Connection A) unit :=
  n <- get ;;
  if connection_closed n || connection_closing n then ret tt
  else modify (set_audit (audit_removeDispatcher c (audit n))).

(** The signal to the failover transport when the count reaches 0 is not part of the
    state. *)
Definition setTransportInterruptionProcessingComplete : M (Connection A) unit :=
  modify (fun n => set_interruptions (interruptions n - 1) n).
End connection.

(** ** The session *)

(** [SESSION_TRANSACTED] of cms::Session. *)
Inductive AcknowledgeMode : Set :=
| AUTO_ACKNOWLEDGE | DUPS_OK_ACKNOWLEDGE | CLIENT_ACKNOWLEDGE | SESSION_TRANSACTED | INDIVIDUAL_ACKNOWLEDGE.

#[export] Instance AcknowledgeMode_eq_dec : EqDecision AcknowledgeMode.
Proof. solve_decision. Defined.

(** The synchronizations of ActiveMQConsumerKernel.cpp and of ActiveMQSessionKernel.cpp. *)
Inductive Synchronizer : Type :=
| TransactionSynchronization (c : Z)
| CloseSynchronization (c : Z)
| SessionCloseSynchronization.

(** What the scheduler is given to run. *)
Inductive Task : Type :=
| StartConsumerTask (c : Z)
| NonBlockingRedeliveryTask (c : Z) (redeliveries : list MessageDispatch)
| ClearConsumerTask (c : Z)
| OptimizedAckTask (c : Z).

(** [closeSyncFlag] is [config->synchronizationRegistered]; [readHolds] counts the read
    holds on the lock of the list of consumers. *)
Record Session : Type := mkSession {
  ackMode : AcknowledgeMode;
  session_closed : bool;
  sessionAsyncDispatch : bool;
  closeSyncFlag : bool;
  session_lastDelivered : Z;
  readHolds : Z;
}.

Definition set_session_closed x (s : Session) : Session :=
  mkSession (ackMode s) x (sessionAsyncDispatch s) (closeSyncFlag s) (session_lastDelivered s) (readHolds s).
Definition set_closeSyncFlag x (s : Session) : Session :=
  mkSession (ackMode s) (session_closed s) (sessionAsyncDispatch s) x (session_lastDelivered s) (readHolds s).
Definition set_session_lastDelivered x (s : Session) : Session :=
  mkSession (ackMode s) (session_closed s) (sessionAsyncDispatch s) (closeSyncFlag s) x (readHolds s).
Definition set_readHolds x (s : Session) : Session :=
  mkSession (ackMode s) (session_closed s) (sessionAsyncDispatch s) (closeSyncFlag s) (session_lastDelivered s) x.

Section world.
Context {C A : Type}.

(** [consumerIds] are the consumers of the session in the order they were added, [queue]
    and [taskRunner] those of its executor, [scheduled] the tasks given to the scheduler
    with their delay, [clock] the times the clock is going to show, the last of them from
    then on; the object allocated as number [allocated] is at [place allocated]. *)
Record World : Type := mkWorld {
  session : Session;
  consumers : Z -> Consumer C;
  consumerIds : list Z;
  transaction : TxContext Synchronizer;
  queue : C;
  taskRunner : bool;
  connection : Connection A;
  scheduled : list (Z * Task);
  clock : list Z;
  place : Z -> Z;
  allocated : Z;
}.
Implicit Types (w : World).

Definition set_session x w : World :=
  mkWorld x (consumers w) (consumerIds w) (transaction w) (queue w) (taskRunner w) (connection w) (scheduled w) (clock w) (place w) (allocated w).
Definition set_consumers x w : World :=
  mkWorld (session w) x (consumerIds w) (transaction w) (queue w) (taskRunner w) (connection w) (scheduled w) (clock w) (place w) (allocated w).
Definition set_consumerIds x w : World :=
  mkWorld (session w) (consumers w) x (transaction w) (queue w) (taskRunner w) (connection w) (scheduled w) (clock w) (place w) (allocated w).
Definition set_transaction x w : World :=
  mkWorld (session w) (consumers w) (consumerIds w) x (queue w) (taskRunner w) (connection w) (scheduled w) (clock w) (place w) (allocated w).
Definition set_queue x y w : World :=
  mkWorld (session w) (consumers w) (consumerIds w) (transaction w) x y (connection w) (scheduled w) (clock w) (place w) (allocated w).
Definition set_connection x w : World :=
  mkWorld (session w) (consumers w) (consumerIds w) (transaction w) (queue w) (taskRunner w) x (scheduled w) (clock w) (place w) (allocated w).
Definition set_scheduled x w : World :=
  mkWorld (session w) (consumers w) (consumerIds w) (transaction w) (queue w) (taskRunner w) (connection w) x (clock w) (place w) (allocated w).
Definition set_clock x w : World :=
  mkWorld (session w) (consumers w) (consumerIds w) (transaction w) (queue w) (taskRunner w) (connection w) (scheduled w) x (place w) (allocated w).
Definition set_allocated x w : World :=
  mkWorld (session w) (consumers w) (consumerIds w) (transaction w) (queue w) (taskRunner w) (connection w) (scheduled w) (clock w) (place w) x.

Definition set_consumer (c : Z) (k : Consumer C) w : World :=
  set_consumers (fun c' => if decide (c' = c) then k else consumers w c') w.

(** A change to the consumer [c]. *)
Definition update (c : Z) (f : Consumer C -> Consumer C) : M World unit := modify (fun w => set_consumer c (f (consumers w c)) w).
Definition update_acks (c : Z) (f : Acks -> Acks) : M World unit := update c (fun k => set_acks (f (acks k)) k).
Definition update_redelivery (c : Z) (f : Redelivery -> Redelivery) : M World unit := update c (fun k => set_redelivery (f (redelivery k)) k).
Definition update_life (c : Z) (f : Life -> Life) : M World unit := update c (fun k => set_life (f (life k)) k).
Definition self (c : Z) : M World (Consumer C) := fun w => (Ok (consumers w c), w).

Definition on_connection {B} (m : M (Connection A) B) : M World B :=
  fun w => let '(r, n) := m (connection w) in (r, set_connection n w).

(** [system_clock::now()], in milliseconds. *)
Definition now : M World Z :=
  w <- get ;;
  match clock w with
  | [] => ret 0
  | [t] => ret t
  | t :: l => modify (set_clock l) ;;; ret t
  end.

(** The address of a new object. *)
Definition allocate : M World Z :=
  w <- get ;; modify (set_allocated (allocated w + 1)) ;;; ret (place w (allocated w)).

(** *** The session, as a consumer uses it *)

Definition isTransacted w : bool :=
  bool_decide (ackMode (session w) = SESSION_TRANSACTED) || match transactionId (transaction w) with Some (XATransactionId _) => true | _ => false end.
Definition isAutoAcknowledge w : bool := bool_decide (ackMode (session w) = AUTO_ACKNOWLEDGE).
Definition isDupsOkAcknowledge w : bool := bool_decide (ackMode (session w) = DUPS_OK_ACKNOWLEDGE).
Definition isClientAcknowledge w : bool := bool_decide (ackMode (session w) = CLIENT_ACKNOWLEDGE).
Definition isIndividualAcknowledge w : bool := bool_decide (ackMode (session w) = INDIVIDUAL_ACKNOWLEDGE).

Definition session_checkClosed : M World unit := w <- get ;; if session_closed (session w) then throw ActiveMQException else ret tt.

(** [CATCH_RETHROW(ActiveMQException)], everything else converted. *)
Definition session_oneway (c : Command) : M World unit := catch_amq (on_connection (connection_oneway c)).
Definition session_syncRequest (c : Command) : M World BrokerResponse :=
  catch_amq (session_checkClosed ;;; on_connection (connection_syncRequest c)).

Definition sendAck (a : MessageAck) (async : bool) : M World unit :=
  w <- get ;;
  if async || sendAcksAsync (connection w) || isTransacted w then on_connection (connection_oneway (CAck a))
  else on_connection (connection_syncRequest (CAck a)) ;;; ret tt.

(** [consumerLock.readLock().lock(); try { m; unlock } catch (Exception&) { unlock; throw }]:
    what is thrown and is no decaf exception leaves the lock held. *)
Definition update_session (f : Session -> Session) : M World unit := modify (fun w => set_session (f (session w)) w).
Definition with_readLock {B} (m : M World B) : M World B :=
  update_session (fun s => set_readHolds (readHolds s + 1) s) ;;;
  fun w =>
    let release (w : World) := set_session (set_readHolds (readHolds (session w) - 1) (session w)) w in
    match m w with
    | (Ok b, w') => (Ok b, release w')
    | (Throw e, w') => (Throw e, if is_decaf e then release w' else w')
    | r => r
    end.

(** A writer waits for the readers, its own thread among them. *)
Definition with_writeLock {B} (m : M World B) : M World B :=
  w <- get ;; if 0 <? readHolds (session w) then hang else m.

(** The kernel of a consumer, if the session has it. *)
Definition lookupConsumerKernel (c : Z) w : option Z := if decide (c ∈ consumerIds w) then Some c else None.

Definition schedule (t : Task) (delay : Z) : M World unit := modify (fun w => set_scheduled (scheduled w ++ [(delay, t)]) w).

(** The context of the session, on its connection. *)
#[export] Instance World_host : TransactionHost World Synchronizer := {
  tx := transaction;
  set_tx := set_transaction;
  getConnectionInfo := on_connection isClosed_check;
  oneway_info i := on_connection (connection_oneway (CTransaction i));
  request_info i := on_connection (connection_syncRequest (CTransaction i));
  getNextLocalTransactionId := on_connection connection_nextTransactionId;
  ensureConnected := on_connection (checkClosedOrFailed ;;; ensureConnectionInfoSent);
}.

Definition doStartTransaction : M World unit :=
  w <- get ;; if isTransacted w && negb (isInXATransaction w) then begin else ret tt.

Context `{MessageDispatchChannel C MessageDispatch}.

(** ActiveMQSessionExecutor: the task runner is started when there is work for it. *)
Definition executor_wakeup : M World unit :=
  w <- get ;;
  if negb (sessionAsyncDispatch (session w)) then ret tt
  else if taskRunner w then ret tt
  else if isRunning (queue w) then modify (set_queue (queue w) true) else ret tt.

Definition executeFirst (d : MessageDispatch) : M World unit :=
  modify (fun w => set_queue (enqueueFirst d (queue w)) (taskRunner w) w) ;;; executor_wakeup.

(** The messages that wait for the consumer [c] go to the front of the executor's queue. *)
Definition redispatch (c : Z) : M World unit :=
  k <- self c ;;
  let '(messages, ch) := removeAll (unconsumed k) in
  update c (set_unconsumed ch) ;;;
  iter_m executeFirst (reverse messages).
End world.
Arguments World : clear implicits.

(** *** What was sent of transactions *)

Definition transactions_of (l : list Command) : list TransactionInfo :=
  omap (fun c => match c with CTransaction i => Some i | _ => None end) l.

Section sending.
Context {C A : Type}.
Implicit Types (n : Connection A) (w : World C A).

(** What a call adds to the wire: the command if it returns, nothing or the command
    otherwise; nothing else of the connection but the network's replies changes. *)
Definition sends {B} (c : Command) (r : outcome B * Connection A) n : Prop :=
  (exists l t, r.2 = set_wire l t n /\ match r.1 with Ok _ => l = wire n ++ [c] | _ => l = wire n \/ l = wire n ++ [c] end) /\
  forall e, r.1 = Throw e -> e = ActiveMQException.

Lemma set_wire_same n : n = set_wire (wire n) (network n) n.
Proof. by destruct n. Qed.

Lemma checked (B : Type) (k : unit -> M (Connection A) B) n :
  bind checkClosedOrFailed k n = (Throw ActiveMQException, n) \/
  (bind checkClosedOrFailed k n = k tt n /\ connection_closed n = false /\ transportFailed n = false).
Proof.
  unfold bind, checkClosedOrFailed, isClosed_check, bind, get.
  destruct (connection_closed n); [by left|]. cbn. destruct (transportFailed n); [by left|]. by right.
Qed.

Lemma oneway_sends c n : sends c (connection_oneway c n) n.
Proof.
  unfold connection_oneway, always_amq, rethrow.
  destruct (checked unit (fun _ => transport c ;;; ret tt) n) as [-> |[-> _]].
  { split; [|by intros e [= <-]]. exists (wire n), (network n). split; [apply set_wire_same|by left]. }
  unfold transport, bind, get, modify, ret, throw. destruct (next_reply n) as [r| |[] e]; cbn.
  all: split; [eexists _, _; split; [destruct n; reflexivity|cbn; auto]|cbn; intros ? ?; congruence].
Qed.

Lemma syncRequest_sends c n : sends c (connection_syncRequest c n) n.
Proof.
  unfold connection_syncRequest, always_amq, rethrow. set (k := fun _ : unit => _).
  destruct (checked _ k n) as [-> |[-> _]].
  { split; [|by intros e [= <-]]. exists (wire n), (network n). split; [apply set_wire_same|by left]. }
  subst k. unfold transport, bind, get, modify, ret, throw. destruct (next_reply n) as [r| |[] e]; cbn.
  all: split; [eexists _, _; split; [destruct n; reflexivity|cbn; auto]|cbn; intros ? ?; congruence].
Qed.

Lemma ensure_sends n : exists l, transactions_of l = transactions_of (wire n) /\
  wire (ensureConnectionInfoSent n).2 = l /\ localTransactionIds (ensureConnectionInfoSent n).2 = localTransactionIds n.
Proof.
  unfold ensureConnectionInfoSent, always_amq, rethrow. rewrite bind_get.
  destruct (infoSent n || connection_closed n); [by exists (wire n)|].
  destruct (syncRequest_sends CConnectionInfo n) as [(l & t & E & Hl) _]. unfold bind.
  assert (transactions_of l = transactions_of (wire n)) as El.
  { assert (l = wire n \/ l = wire n ++ [CConnectionInfo]) as [-> | ->] by (by destruct (connection_syncRequest _ n).1; auto); [done|].
    unfold transactions_of. by rewrite omap_app, app_nil_r. }
  exists l. destruct (connection_syncRequest CConnectionInfo n) as [r n']. cbn [snd] in E. subst n'. by destruct r.
Qed.

Lemma transactions_app l c : transactions_of (l ++ [c]) = transactions_of l ++ match c with CTransaction i => [i] | _ => [] end.
Proof. unfold transactions_of. rewrite omap_app. by destruct c. Qed.

Lemma sends_log {B} i (m : M (Connection A) B) w : sends (CTransaction i) (m (connection w)) (connection w) ->
  let r := on_connection m w in
  sent B r.1 (transactions_of (wire (connection w))) (transactions_of (wire (connection r.2))) i /\
  transaction r.2 = transaction w /\ localTransactionIds (connection r.2) = localTransactionIds (connection w).
Proof.
  intros [(l & t & E & Hl) _]. unfold on_connection. destruct (m (connection w)) as [r n]. cbn in *. rewrite E. cbn.
  split_and!; [|done..]. unfold sent. destruct r; [by subst; rewrite transactions_app|..].
  all: destruct Hl as [-> | ->]; [by right|by left; rewrite transactions_app].
Qed.

(** The log of the transactions of a session is on the wire of its connection. *)
#[export] Instance World_log : TransactionLog (World C A) Synchronizer.
Proof.
  refine {| log w := transactions_of (wire (connection w)); next_id w := localTransactionIds (connection w) + 1 |}.
  - done.
  - done.
  - intros w. cbn. unfold on_connection, isClosed_check, bind, get. destruct (connection_closed (connection w)); by destruct w.
  - intros i w. cbn. destruct (sends_log i _ w (oneway_sends _ _)) as (H1 & H2 & H3). split_and!; [done..|]. cbn in *. by rewrite H3.
  - intros i w. cbn. destruct (sends_log i _ w (syncRequest_sends _ _)) as (H1 & H2 & H3). split_and!; [done..|]. cbn in *. by rewrite H3.
  - intros w. cbn. unfold on_connection. destruct (checked unit (fun _ => ensureConnectionInfoSent) (connection w)) as [-> |[-> _]]; [by destruct w|].
    destruct (ensure_sends (connection w)) as (l & El & E1 & E2).
    destruct (ensureConnectionInfoSent (connection w)) as [r n]. cbn in *. by rewrite E1, El, E2.
  - intros w. cbn. unfold on_connection, connection_nextTransactionId, bind, get, modify, ret. cbn. split_and!; done || lia.
Defined.
End sending.
