(* ===== verification/MessageAudit.v ===== *)
(** * ActiveMQMessageAudit and ConnectionAudit (activemq/core)

    A message audit keeps, for every producer it has heard of lately, the set of the
    sequence numbers it has seen; a connection keeps one audit for every queue and one for
    every dispatcher of a topic. The bit sets are shared by pointer with the operation that
    runs only, so the cache holds them by value and [on_value] changes them in place. *)
From stdpp Require Import gmap sorting.
From S2P Require Import Prelude Floating Commands SessionState StringUtils IdGenerator HashMap BitSet.

(** ** ActiveMQMessageAudit *)

Record MessageAudit : Type := mkAudit {
  auditDepth : Z;
  maximumNumberOfProducersToTrack : Z;
  producers : LRUCache (list Z) BitSet;
}.

Definition from_outcome {S A} (o : outcome A) : M S A := fun s => (o, s).
Definition no_such_element (e : exn) : bool := bool_decide (e = NoSuchElementException).

Definition on_producers {B} (op : M (LRUCache (list Z) BitSet) B) : M MessageAudit B :=
  fun a => let '(r, c) := op (producers a) in (r, mkAudit (auditDepth a) (maximumNumberOfProducersToTrack a) c).

(** Both constructors make the cache with its own default size. *)
Definition MessageAudit_new (depth maxProducers : Z) : outcome MessageAudit :=
  match LRUCache_new with
  | Ok c => Ok (mkAudit depth maxProducers c)
  | Throw e => Throw e
  | UB => UB
  | Hang => Hang
  end.

Definition setAuditDepth (value : Z) : M MessageAudit unit :=
  modify (fun a => mkAudit value (maximumNumberOfProducersToTrack a) (producers a)).

Definition adjustMaxProducersToTrack (value : Z) : M MessageAudit unit :=
  a <- get ;;
  (if value <? maximumNumberOfProducersToTrack a then
    newMap <- from_outcome (LRUCache_new4 0 value DEFAULT_LOAD true) ;;
    with_object newMap (
      on_snd (lru_putAll string_hash (cache (producers a))) ;;;
      on_fst (on_producers lru_clear) ;;;
      p <- get ;;
      on_fst (on_producers (lru_putAll string_hash (cache p.2))))
  else ret tt) ;;;
  on_producers (setMaxCacheSize value) ;;;
  modify (fun a => mkAudit (auditDepth a) value (producers a)).

(** [producerId->toString()] *)
Definition producer_seed (p : ProducerId) : list Z :=
  pr_connectionId p ++ COLON :: to_string (pr_sessionId p) ++ COLON :: to_string (pr_value p).

(** [bits = map.get(seed)], caught; whether there are any. *)
Definition find_bits (seed : list Z) : M MessageAudit bool :=
  try_catch no_such_element (on_producers (lru_get string_hash seed) ;;; ret true) (fun _ => ret false).

(** The same, with a new set put where there is none. *)
Definition find_or_add_bits (seed : list Z) : M MessageAudit unit :=
  try_catch no_such_element (on_producers (lru_get string_hash seed) ;;; ret tt) (fun _ =>
    a <- get ;;
    bits <- from_outcome (BitSet_sized (auditDepth a)) ;;
    on_producers (lru_put string_hash seed bits) ;;; ret tt).

Definition on_bits {B} (seed : list Z) (op : M BitSet B) : M MessageAudit B := on_producers (on_cache (on_value string_hash seed op)).

Definition scaledIndex (index : Z) : Z := if INT_MAX <? index then s32 (Z.rem index INT_MAX) else s32 index.

(** The body the two overloads of each operation share: [index] is what computes the
    number, which may throw. *)
Definition check_seed (seed : list Z) (index : outcome Z) : M MessageAudit bool :=
  match seed with
  | [] => ret false
  | _ =>
      find_or_add_bits seed ;;;
      index <- from_outcome index ;;
      if 0 <=? index then
        answer <- on_bits seed (BitSet_get (scaledIndex index)) ;;
        if answer then ret true
        else on_bits seed (BitSet_set_value (scaledIndex index) true) ;;; ret false
      else ret false
  end.

Definition rollback_seed (seed : list Z) (index : outcome Z) : M MessageAudit unit :=
  match seed with
  | [] => ret tt
  | _ =>
      found <- find_bits seed ;;
      if found then
        index <- from_outcome index ;;
        if 0 <=? index then on_bits seed (BitSet_set_value (scaledIndex index) false) else ret tt
      else ret tt
  end.

Definition order_seed (otherwise : bool) (seed : list Z) (index : outcome Z) : M MessageAudit bool :=
  match seed with
  | [] => ret otherwise
  | _ =>
      find_or_add_bits seed ;;;
      index <- from_outcome index ;;
      if 0 <=? index then
        n <- on_bits seed BitSet_length ;; ret (n - 1 =? scaledIndex index)
      else ret otherwise
  end.

Definition isDuplicate_id (id : list Z) : M MessageAudit bool := check_seed (getSeedFromId id) (getSequenceFromId id).
Definition rollback_id (id : list Z) : M MessageAudit unit := rollback_seed (getSeedFromId id) (getSequenceFromId id).
Definition isInOrder_id (id : list Z) : M MessageAudit bool :=
  match id with [] => ret true | _ => order_seed true (getSeedFromId id) (getSequenceFromId id) end.

(** With a pointer to a MessageId, and a pointer to a ProducerId in it. *)
Definition with_producer {B} (msgId : option MessageId) (otherwise : B) (op : list Z -> outcome Z -> M MessageAudit B) : M MessageAudit B :=
  match msgId with
  | None => ret otherwise
  | Some i =>
      match mi_producerId i with
      | None => ret otherwise
      | Some p => op (producer_seed p) (Ok (mi_producerSequenceId i))
      end
  end.

Definition isDuplicate_message (msgId : option MessageId) : M MessageAudit bool := with_producer msgId false check_seed.
Definition rollback_message (msgId : option MessageId) : M MessageAudit unit := with_producer msgId tt rollback_seed.
Definition isInOrder_message (msgId : option MessageId) : M MessageAudit bool := with_producer msgId false (order_seed false).

Definition getLastSeqId (id : option ProducerId) : M MessageAudit Z :=
  match id with
  | None => ret (-1)
  | Some p =>
      match producer_seed p with
      | [] => ret (-1)
      | seed =>
          found <- find_bits seed ;;
          if found then n <- on_bits seed BitSet_length ;; ret (n - 1) else ret (-1)
      end
  end.

Definition audit_clear : M MessageAudit unit := on_producers lru_clear.

(** ** What a message audit is to do: remember the numbers of each of the producers used
    most recently. *)

Definition seen_state : Type := lru_state (K := list Z) (V := gset Z).

Section audit_spec.
Variable max : Z.
Implicit Types (s : seen_state) (seed : list Z).

Definition seen_of seed s : gset Z := default ∅ (s.1 !! seed).

Definition spec_find_or_add seed s : seen_state :=
  match s.1 !! seed with Some _ => (s.1, to_tail seed s.2) | None => spec_put max seed ∅ s end.

Definition spec_check seed (index : outcome Z) : M seen_state bool := fun s =>
  match seed with
  | [] => (Ok false, s)
  | _ =>
      let s := spec_find_or_add seed s in
      match index with
      | Ok n =>
          if 0 <=? n then
            (Ok (bool_decide (scaledIndex n ∈ seen_of seed s)), (<[seed := {[scaledIndex n]} ∪ seen_of seed s]> s.1, s.2))
          else (Ok false, s)
      | Throw e => (Throw e, s)
      | UB => (UB, s)
      | Hang => (Hang, s)
      end
  end.

Definition spec_rollback seed (index : outcome Z) : M seen_state unit := fun s =>
  match seed, s.1 !! seed with
  | [], _ | _, None => (Ok tt, s)
  | _, Some x =>
      let s := (s.1, to_tail seed s.2) in
      match index with
      | Ok n => if 0 <=? n then (Ok tt, (<[seed := x ∖ {[scaledIndex n]}]> s.1, s.2)) else (Ok tt, s)
      | Throw e => (Throw e, s)
      | UB => (UB, s)
      | Hang => (Hang, s)
      end
  end.
End audit_spec.

(** A history of an audit: messages asked about and taken back, by their MessageId or by
    their string, and the audit emptied. *)
Inductive audit_op : Type :=
| Ask (msgId : option MessageId) | AskId (id : list Z)
| TakeBack (msgId : option MessageId) | TakeBackId (id : list Z)
| Forget.

Definition run_audit_op (o : audit_op) : M MessageAudit bool :=
  match o with
  | Ask m => isDuplicate_message m
  | AskId id => isDuplicate_id id
  | TakeBack m => rollback_message m ;;; ret false
  | TakeBackId id => rollback_id id ;;; ret false
  | Forget => audit_clear ;;; ret false
  end.

(** The producer and the number a MessageId names. *)
Definition message_key (msgId : option MessageId) : option (list Z * Z) :=
  i ← msgId; p ← mi_producerId i; Some (producer_seed p, mi_producerSequenceId i).

Definition spec_audit_op (max : Z) (o : audit_op) : M seen_state bool :=
  match o with
  | Ask m => match message_key m with Some (seed, n) => spec_check max seed (Ok n) | None => ret false end
  | AskId id => spec_check max (getSeedFromId id) (getSequenceFromId id)
  | TakeBack m => match message_key m with Some (seed, n) => spec_rollback seed (Ok n) ;;; ret false | None => ret false end
  | TakeBackId id => spec_rollback (getSeedFromId id) (getSequenceFromId id) ;;; ret false
  | Forget => put (∅, []) ;;; ret false
  end.

Fixpoint run_ops {S O B} (step : O -> M S B) (ops : list O) (s : S) : list (outcome B) * S :=
  match ops with
  | [] => ([], s)
  | o :: ops' => let '(r, s') := step o s in let '(rs, s'') := run_ops step ops' s' in (r :: rs, s'')
  end.

(** *** The audit does it *)

Definition represents (_ : list Z) (b : BitSet) (x : gset Z) : Prop := wf b /\ exact b /\ forall j, 0 <= j -> bit b j = bool_decide (j ∈ x).

Record audit_sim (a : MessageAudit) (s : seen_state) : Prop := {
  sim_depth : 0 <= auditDepth a;
  sim_cache : cache_ok string_hash 29 (producers a);
  sim_order : (lru_view (producers a)).2 = s.2;
  sim_sets : map_Forall2 represents (lru_view (producers a)).1 s.1;
}.

Definition same_limits (a a' : MessageAudit) : Prop := auditDepth a' = auditDepth a /\ maxCacheSize (producers a') = maxCacheSize (producers a).

Lemma scaled_range n : 0 <= n -> 0 <= scaledIndex n <= INT_MAX.
Proof.
  intros Hn. unfold scaledIndex. destruct (Z.ltb_spec INT_MAX n) as [Hgt|Hle]; [rewrite Z.rem_mod_nonneg by (unfold INT_MAX in *; lia)|];
    rewrite wraps_id; unfold in_s, INT_MAX in *; cbn; try lia;
    pose proof (Z.mod_pos_bound n 2147483647); lia.
Qed.

Lemma map_Forall2_lookup {A B} (R : list Z -> A -> B -> Prop) (m1 : gmap (list Z) A) (m2 : gmap (list Z) B) (k : list Z) :
  map_Forall2 R m1 m2 -> match m1 !! k, m2 !! k with Some x, Some y => R k x y | None, None => True | _, _ => False end.
Proof. intros Hm. specialize (Hm k). destruct (m1 !! k), (m2 !! k); by inversion Hm. Qed.

Lemma spec_put_sim {A B} (R : list Z -> A -> B -> Prop) (max : Z) (k : list Z) (x : A) (y : B) (s1 : gmap (list Z) A * list (list Z)) (s2 : gmap (list Z) B * list (list Z)) :
  R k x y -> s1.2 = s2.2 -> map_Forall2 R s1.1 s2.1 ->
  (spec_put max k x s1).2 = (spec_put max k y s2).2 /\ map_Forall2 R (spec_put max k x s1).1 (spec_put max k y s2).1.
Proof.
  intros Hxy Ho Hm. pose proof (map_Forall2_insert_2 _ _ _ _ _ _ Hxy Hm) as Hi. unfold spec_put. rewrite Ho.
  destruct (inserted true k s2.2) as [|eldest l]; [done|]. case_match; [|done]. split; [done|]. by apply map_Forall2_delete.
Qed.

(** What is put stays. *)
Lemma spec_put_stays {A} (max : Z) (k : list Z) (x : A) (s : gmap (list Z) A * list (list Z)) : 0 < max -> NoDup s.2 -> (spec_put max k x s).1 !! k = Some x.
Proof.
  intros Hmax Hn. unfold spec_put. pose proof (inserted_NoDup true k _ Hn) as Hn'.
  assert (list.last (inserted true k s.2) = Some k) as Hl by (unfold inserted, accessed, to_tail; case_decide; apply last_snoc).
  destruct (inserted true k s.2) as [|eldest l]; [done|]. destruct (Z.ltb_spec max (zlen (eldest :: l))) as [Hlt|]; [|apply lookup_insert_eq].
  cbn. destruct l as [|k' l]; [unfold zlen in Hlt; cbn in Hlt; lia|]. rewrite lookup_delete_ne; [apply lookup_insert_eq|].
  intros ->. apply list.NoDup_cons in Hn' as [Hn' _]. apply Hn'. change (list.last (k' :: l) = Some k) in Hl. by eapply last_Some_elem_of.
Qed.

Lemma audit_sim_step a c s' : 0 <= auditDepth a -> cache_ok string_hash 29 c -> (lru_view c).2 = s'.2 ->
  map_Forall2 represents (lru_view c).1 s'.1 -> audit_sim (mkAudit (auditDepth a) (maximumNumberOfProducersToTrack a) c) s'.
Proof. by split. Qed.

Lemma find_or_add_ok a s seed : audit_sim a s ->
  exists a', find_or_add_bits seed a = (Ok tt, a') /\ audit_sim a' (spec_find_or_add (maxCacheSize (producers a)) seed s) /\
    same_limits a a' /\ is_Some ((lru_view (producers a')).1 !! seed).
Proof.
  intros Hs. pose proof Hs as [Hd Hc Ho Hm]. destruct (lru_get_ok string_hash 29 (le_n _) (producers a) seed Hc) as (c & Hc' & Hmax & Hget).
  unfold find_or_add_bits, try_catch, spec_find_or_add. pose proof (map_Forall2_lookup _ _ _ seed Hm) as Hk.
  change ((lru_view (producers a)).1 !! seed) with (abs (table (cache (producers a))) !! seed) in Hk.
  destruct (abs (table (cache (producers a))) !! seed) as [b|] eqn:Eb; destruct Hget as [E Hv]; (destruct (s.1 !! seed) as [x|]; [|done]) || (destruct (s.1 !! seed) as [x|]; [done|]).
  - exists (mkAudit (auditDepth a) (maximumNumberOfProducersToTrack a) c). unfold bind, on_producers. rewrite E. split; [done|].
    split; [|split; [done|change (is_Some ((lru_view c).1 !! seed)); rewrite Hv; by exists b]]. apply audit_sim_step; [done..|by rewrite Hv; cbn; rewrite <- Ho|by rewrite Hv].
  - set (a1 := mkAudit (auditDepth a) (maximumNumberOfProducersToTrack a) c).
    replace (bind _ _ a) with (Throw (A := unit) NoSuchElementException, a1) by (unfold bind, on_producers; by rewrite E).
    change (no_such_element NoSuchElementException) with true. cbv iota. rewrite bind_get. cbn [auditDepth a1].
    destruct (sized_ok _ Hd) as (bits & Eb' & Hw & Hx & _ & Hbit). rewrite Eb'. unfold from_outcome, bind at 1.
    destruct (lru_put_ok string_hash 29 (le_n _) c seed bits Hc') as (c2 & E2 & Hc2 & Hmax2 & Hv2). unfold bind, on_producers. cbn [producers a1]. rewrite E2.
    assert (represents seed bits ∅) as Hr by (split_and!; [done..|]; intros j _; rewrite Hbit; by rewrite bool_decide_false by set_solver).
    rewrite Hmax, Hv in Hv2. destruct (spec_put_sim represents (maxCacheSize (producers a)) seed bits ∅ _ s Hr Ho Hm) as [Ho2 Hm2].
    eexists. split; [reflexivity|]. split; [apply audit_sim_step; by rewrite ?Hv2|].
    split; [split; [done|cbn; congruence]|].
    change (is_Some ((lru_view c2).1 !! seed)). rewrite Hv2. exists bits. apply spec_put_stays; [apply Hc|]. apply (ok_chain_nodup _ _ _ (cache_linked _ _ _ Hc)).
Qed.

Lemma on_bits_ok {B} a s seed b (op : M BitSet B) r b' x : audit_sim a s -> (lru_view (producers a)).1 !! seed = Some b ->
  op b = (r, b') -> represents seed b' x ->
  exists a', on_bits seed op a = (r, a') /\ audit_sim a' (<[seed := x]> s.1, s.2) /\ same_limits a a' /\
    (lru_view (producers a')).1 !! seed = Some b'.
Proof.
  intros [Hd Hc Ho Hm] Hb Hop Hr. destruct (lru_value_ok string_hash 29 (producers a) seed b op r b' Hc Hb Hop) as (c & E & Hc' & Hmax & Hv).
  exists (mkAudit (auditDepth a) (maximumNumberOfProducersToTrack a) c). split; [unfold on_bits, on_producers; by rewrite E|].
  split; [apply audit_sim_step; [done..|by rewrite Hv|rewrite Hv; by apply map_Forall2_insert_2]|]. split; [done|].
  change ((lru_view c).1 !! seed = Some b'). rewrite Hv. apply lookup_insert_eq.
Qed.

Lemma seen_represented a s seed b : audit_sim a s -> (lru_view (producers a)).1 !! seed = Some b ->
  s.1 !! seed = Some (seen_of seed s) /\ represents seed b (seen_of seed s).
Proof.
  intros Hs Hb. pose proof (map_Forall2_lookup _ _ _ seed (sim_sets _ _ Hs)) as Hk. rewrite Hb in Hk. unfold seen_of.
  by destruct (s.1 !! seed).
Qed.

Lemma represents_add seed b b' x i : 0 <= i -> represents seed b x -> wf b' -> (exact b -> exact b') ->
  (forall j, 0 <= j -> bit b' j = (j =? i) || bit b j) -> represents seed b' ({[i]} ∪ x).
Proof.
  intros Hi (Hw & Hx & Hb) Hw' Hx' Hb'. split_and!; [done|by apply Hx'|]. intros j Hj. rewrite Hb', Hb by done.
  apply Bool.eq_iff_eq_true. rewrite orb_true_iff, Z.eqb_eq, !bool_decide_eq_true. set_solver.
Qed.

Lemma represents_remove seed b b' x i : 0 <= i -> represents seed b x -> wf b' -> (exact b -> exact b') ->
  (forall j, 0 <= j -> bit b' j = negb (j =? i) && bit b j) -> represents seed b' (x ∖ {[i]}).
Proof.
  intros Hi (Hw & Hx & Hb) Hw' Hx' Hb'. split_and!; [done|by apply Hx'|]. intros j Hj. rewrite Hb', Hb by done.
  apply Bool.eq_iff_eq_true. rewrite andb_true_iff, negb_true_iff, Z.eqb_neq, !bool_decide_eq_true. set_solver.
Qed.

Lemma check_seed_ok a s seed index : audit_sim a s ->
  exists a', check_seed seed index a = ((spec_check (maxCacheSize (producers a)) seed index s).1, a') /\
    audit_sim a' (spec_check (maxCacheSize (producers a)) seed index s).2 /\ same_limits a a'.
Proof.
  intros Hs. unfold check_seed, spec_check. destruct seed as [|c0 seed]; [by exists a|]. set (k := c0 :: seed).
  destruct (find_or_add_ok a s k Hs) as (a1 & E1 & Hs1 & Hl1 & [b Hb]). rewrite (bind_ok _ _ _ _ _ E1). cbv zeta.
  set (s1 := spec_find_or_add _ k s) in *. unfold from_outcome, bind at 1. destruct index as [n|e| |]; try by exists a1.
  destruct (Z.leb_spec 0 n) as [Hn|]; [|by exists a1]. destruct (scaled_range n Hn) as [Hi _]. set (i := scaledIndex n) in *.
  destruct (seen_represented _ _ _ _ Hs1 Hb) as [Hx Hr]. pose proof Hr as (Hw & _ & Hbit). cbn [fst snd]. rewrite <- Hbit by done.
  destruct (on_bits_ok a1 s1 k b (BitSet_get i) (Ok (bit b i)) b (seen_of k s1) Hs1 Hb (get_ok b i Hw Hi) Hr) as (a2 & E2 & Hs2 & Hl2 & Hb2).
  rewrite (bind_ok _ _ _ _ _ E2). destruct (bit b i) eqn:Ei.
  - exists a2. split; [done|]. split; [|unfold same_limits in *; intuition congruence].
    replace ({[i]} ∪ seen_of k s1) with (seen_of k s1); [done|]. rewrite Hbit in Ei by done. apply bool_decide_eq_true in Ei. set_solver.
  - destruct (set_ok b i Hw Hi) as (b' & Eb & Hw' & Hx' & Hb'). pose proof (represents_add _ _ _ _ _ Hi Hr Hw' Hx' Hb') as Hr'.
    destruct (on_bits_ok a2 _ k b (BitSet_set_value i true) (Ok tt) b' _ Hs2 Hb2 Eb Hr') as (a3 & E3 & Hs3 & Hl3 & _).
    rewrite (bind_ok _ _ _ _ _ E3). exists a3. cbn [fst snd] in Hs3. rewrite insert_insert_eq in Hs3. split; [done|]. split; [done|].
    unfold same_limits in *; intuition congruence.
Qed.

Lemma find_bits_ok a s seed : audit_sim a s ->
  exists a', same_limits a a' /\
    match s.1 !! seed with
    | Some x => find_bits seed a = (Ok true, a') /\ audit_sim a' (s.1, to_tail seed s.2) /\
        exists b, (lru_view (producers a')).1 !! seed = Some b /\ represents seed b x
    | None => find_bits seed a = (Ok false, a') /\ audit_sim a' s
    end.
Proof.
  intros [Hd Hc Ho Hm]. destruct (lru_get_ok string_hash 29 (le_n _) (producers a) seed Hc) as (c & Hc' & Hmax & Hget).
  exists (mkAudit (auditDepth a) (maximumNumberOfProducersToTrack a) c). split; [done|].
  pose proof (map_Forall2_lookup _ _ _ seed Hm) as Hk. change ((lru_view (producers a)).1 !! seed) with (abs (table (cache (producers a))) !! seed) in Hk.
  unfold find_bits, try_catch, bind, on_producers.
  destruct (abs (table (cache (producers a))) !! seed) as [b|] eqn:Eb, (s.1 !! seed) as [x|]; try done; destruct Hget as [E Hv]; rewrite E.
  - split; [done|]. split; [apply audit_sim_step; [done..|by rewrite Hv; cbn; rewrite <- Ho|by rewrite Hv]|].
    exists b. split; [|done]. change ((lru_view c).1 !! seed = Some b). by rewrite Hv.
  - split; [done|]. apply audit_sim_step; by rewrite ?Hv.
Qed.

Lemma rollback_seed_ok a s seed index : audit_sim a s ->
  exists a', rollback_seed seed index a = ((spec_rollback seed index s).1, a') /\ audit_sim a' (spec_rollback seed index s).2 /\ same_limits a a'.
Proof.
  intros Hs. unfold rollback_seed, spec_rollback. destruct seed as [|c0 seed]; [by exists a|]. set (k := c0 :: seed).
  destruct (find_bits_ok a s k Hs) as (a1 & Hl1 & Hf). destruct (s.1 !! k) as [x|].
  - destruct Hf as (E & Hs1 & b & Hb & Hr). rewrite (bind_ok _ _ _ _ _ E). unfold from_outcome, bind. destruct index as [n|e| |]; try by exists a1.
    destruct (Z.leb_spec 0 n) as [Hn|]; [|by exists a1]. destruct (scaled_range n Hn) as [Hi _]. set (i := scaledIndex n) in *.
    destruct (clear_ok b i (proj1 Hr) Hi) as (b' & Eb & Hw' & Hx' & Hb'). pose proof (represents_remove _ _ _ _ _ Hi Hr Hw' Hx' Hb') as Hr'.
    destruct (on_bits_ok a1 _ k b (BitSet_set_value i false) (Ok tt) b' _ Hs1 Hb Eb Hr') as (a2 & E2 & Hs2 & Hl2 & _).
    exists a2. split; [exact E2|]. split; [done|]. unfold same_limits in *; intuition congruence.
  - destruct Hf as (E & Hs1). rewrite (bind_ok _ _ _ _ _ E). by exists a1.
Qed.

Lemma run_audit_op_ok a s o : audit_sim a s ->
  exists a', run_audit_op o a = ((spec_audit_op (maxCacheSize (producers a)) o s).1, a') /\
    audit_sim a' (spec_audit_op (maxCacheSize (producers a)) o s).2 /\ same_limits a a'.
Proof.
  intros Hs. assert (forall seed index, exists a', bind (rollback_seed seed index) (fun _ => ret false) a =
    ((bind (spec_rollback seed index) (fun _ => ret false) s).1, a') /\ audit_sim a' (bind (spec_rollback seed index) (fun _ => ret false) s).2 /\ same_limits a a') as Hrb.
  { intros seed index. destruct (rollback_seed_ok a s seed index Hs) as (a' & E & Hs' & Hl). exists a'. unfold bind. rewrite E.
    by destruct (spec_rollback seed index s) as [[] s']. }
  destruct o as [m|id|m|id|]; cbn [run_audit_op spec_audit_op].
  - destruct m as [[? [p|] ? ?]|]; cbn; [by apply check_seed_ok|by exists a..].
  - by apply check_seed_ok.
  - destruct m as [[? [p|] ? ?]|]; cbn; [by apply Hrb|by exists a..].
  - apply Hrb.
  - destruct (lru_clear_ok string_hash 29 (le_n _) (producers a) (sim_cache _ _ Hs)) as (c & E & Hc & Hmax & Hv). pose proof (sim_depth _ _ Hs).
    eexists. split; [unfold audit_clear, bind, on_producers; rewrite E; reflexivity|]. split; [|done].
    apply audit_sim_step; [done..|by rewrite Hv|rewrite Hv; apply map_Forall2_empty].
Qed.

(** C9: An audit is the record of the numbers it has seen: whatever is asked and taken back,
    by MessageId or by string, a message is a duplicate exactly if its number was seen and
    not taken back since its producer was last forgotten, and a producer is forgotten only
    when there are more of them than the cache holds and the others were used later. *)
Theorem audit_refines (ops : list audit_op) a s : audit_sim a s ->
  (run_ops run_audit_op ops a).1 = (run_ops (spec_audit_op (maxCacheSize (producers a))) ops s).1 /\
  audit_sim (run_ops run_audit_op ops a).2 (run_ops (spec_audit_op (maxCacheSize (producers a))) ops s).2.
Proof.
  revert a s. induction ops as [|o ops IH]; intros a s Hs; cbn [run_ops]; [done|].
  destruct (run_audit_op_ok a s o Hs) as (a' & E & Hs' & [_ Hm]). rewrite E. specialize (IH a' _ Hs'). rewrite Hm in IH.
  destruct (spec_audit_op _ o s) as [r s']. cbn [fst snd] in *.
  destruct (run_ops run_audit_op ops a') as [rs a'']. destruct (run_ops _ ops s') as [rs' s'']. cbn [fst snd] in *. by destruct IH as [-> ?].
Qed.

Lemma new_audit_ok depth maxProducers : 0 <= depth ->
  exists a, MessageAudit_new depth maxProducers = Ok a /\ audit_sim a (∅, []) /\ maxCacheSize (producers a) = 10000 /\ auditDepth a = depth.
Proof.
  intros Hd. destruct (new_cache_ok (K := list Z) (V := BitSet) string_hash) as (c & E & Hc & Hv & Hm). unfold MessageAudit_new. rewrite E.
  eexists. split; [reflexivity|]. split; [|done]. split; [done..|change ((lru_view c).2 = []); by rewrite Hv|].
  change (map_Forall2 represents (lru_view c).1 ∅). rewrite Hv. apply map_Forall2_empty.
Qed.

(** Two producers; a number asked about twice, taken back, and asked about again; an
    identifier that ends in no number. *)
Definition sample_message (producer n : Z) : option MessageId := Some (mkMessageId [] (Some (mkProducerId [67] producer 1)) n 0).
Definition sample_audit_ops : list audit_op :=
  [Ask (sample_message 1 7); Ask (sample_message 2 7); Ask (sample_message 1 7); TakeBack (sample_message 1 7); Ask (sample_message 1 7);
   Ask (sample_message 1 (7 + INT_MAX)); AskId [65; 58; 48]; AskId [65; 58; 48]; AskId [65; 58; 66]].

Lemma audit_refines_witness :
  exists a, MessageAudit_new 2048 64 = Ok a /\ audit_sim a (∅, []) /\
    (run_ops run_audit_op sample_audit_ops a).1 =
      [Ok false; Ok false; Ok true; Ok false; Ok false; Ok true; Ok false; Ok true; Throw StdException].
Proof.
  destruct (new_audit_ok 2048 64) as (a & E & Hs & Hm & _); [done|]. exists a. split; [exact E|]. split; [exact Hs|].
  rewrite (proj1 (audit_refines sample_audit_ops a _ Hs)), Hm. vm_compute. reflexivity.
Defined.
