(* ===== verification/ConnectionAudit.v ===== *)
(** * ConnectionAudit (activemq/core): the message audits of a connection, one for every
    queue and one for every dispatcher of a topic.

    The audits of the queues are a [std::map] sorted by the natural order of the names
    (StringUtils.v, OrderedMap.v), so queues whose names this order takes to be the same share one. *)
From stdpp Require Import gmap sorting.
From S2P Require Import Prelude Floating Commands SessionState StringUtils OrderedMap IdGenerator HashMap BitSet MessageAudit.

Section connection_audit.
(** [dispatcher->getHashCode()] *)
Variable getHashCode : Z -> Z.

Record ConnectionAudit : Type := mkConnectionAudit {
  ca_checkForDuplicates : bool;
  ca_auditDepth : Z;
  auditMaximumProducerNumber : Z;
  destinations : list (list Z * MessageAudit);
  dispatchers : LinkedHashMap Z MessageAudit;
}.

Definition set_destinations d (s : ConnectionAudit) : ConnectionAudit :=
  mkConnectionAudit (ca_checkForDuplicates s) (ca_auditDepth s) (auditMaximumProducerNumber s) d (dispatchers s).
Definition on_dispatchers {B} (op : M (LinkedHashMap Z MessageAudit) B) : M ConnectionAudit B := fun s =>
  let '(r, m) := op (dispatchers s) in
  (r, mkConnectionAudit (ca_checkForDuplicates s) (ca_auditDepth s) (auditMaximumProducerNumber s) (destinations s) m).

Definition ConnectionAudit_new (depth maxProducers : Z) : outcome ConnectionAudit :=
  match LinkedHashMap_new 1000 DEFAULT_LOAD false with
  | Ok m => Ok (mkConnectionAudit true depth maxProducers [] m)
  | Throw e => Throw e
  | UB => UB
  | Hang => Hang
  end.

(** [*left < *right] of two destinations; the comparison always returns. *)
Definition destination_less (left right : list Z) : bool := name_less false left right.

Definition destination_find (name : list Z) (l : list (list Z * MessageAudit)) : option MessageAudit := om_find destination_less name l.
Definition destination_set (name : list Z) (a : MessageAudit) (l : list (list Z * MessageAudit)) : list (list Z * MessageAudit) :=
  om_set destination_less name a l.

(** ** The audit of a destination: of the queue, or of the dispatcher that asks *)

Definition get_audit (dispatcher : Z) (destination : bool * list Z) : M ConnectionAudit unit :=
  if destination.1 then
    s <- get ;; match destination_find destination.2 (destinations s) with Some _ => ret tt | None => throw NoSuchElementException end
  else on_dispatchers (lhm_get getHashCode dispatcher) ;;; ret tt.

Definition put_audit (dispatcher : Z) (destination : bool * list Z) (a : MessageAudit) : M ConnectionAudit unit :=
  if destination.1 then modify (fun s => set_destinations (destination_set destination.2 a (destinations s)) s)
  else on_dispatchers (lhm_put getHashCode (fun _ => false) dispatcher a) ;;; ret tt.

(** What the pointer found is used for. *)
Definition on_audit {B} (dispatcher : Z) (destination : bool * list Z) (op : M MessageAudit B) : M ConnectionAudit B :=
  if destination.1 then fun s =>
    match destination_find destination.2 (destinations s) with
    | None => (UB, s)
    | Some a => let '(r, a') := op a in (r, set_destinations (destination_set destination.2 a' (destinations s)) s)
    end
  else on_dispatchers (on_value getHashCode dispatcher op).

Definition ca_removeDispatcher (dispatcher : Z) : M ConnectionAudit unit :=
  try_catch no_such_element (on_dispatchers (lhm_remove getHashCode dispatcher) ;;; ret tt) (fun _ => ret tt).

Definition ca_isDuplicate (dispatcher : Z) (message : option Message) : M ConnectionAudit bool :=
  s <- get ;;
  match message with
  | None => ret false
  | Some m =>
      if ca_checkForDuplicates s then
        match destination m with
        | None => ret false
        | Some d =>
            try_catch no_such_element (get_audit dispatcher d) (fun _ =>
              s <- get ;;
              audit <- from_outcome (MessageAudit_new (ca_auditDepth s) (auditMaximumProducerNumber s)) ;;
              put_audit dispatcher d audit) ;;;
            on_audit dispatcher d (isDuplicate_message (Some (messageId m)))
        end
      else ret false
  end.

Definition ca_rollbackDuplicate (dispatcher : Z) (message : option Message) : M ConnectionAudit unit :=
  s <- get ;;
  match message with
  | None => ret tt
  | Some m =>
      if ca_checkForDuplicates s then
        match destination m with
        | None => ret tt
        | Some d =>
            try_catch no_such_element
              (get_audit dispatcher d ;;; on_audit dispatcher d (rollback_message (Some (messageId m)))) (fun _ => ret tt)
        end
      else ret tt
  end.

(** ** What it is to do *)

(** A channel, of which each has its own audit. *)
Inductive channel : Type := Queue (name : list token) | Topic (dispatcher : Z).

#[export] Instance channel_eq_dec : EqDecision channel.
Proof. solve_decision. Defined.

Definition channel_of (dispatcher : Z) (destination : bool * list Z) : channel :=
  if destination.1 then Queue (name_key false destination.2) else Topic dispatcher.

Definition seen_key : Type := channel * list Z * Z.

(** The key a message is remembered by; without a destination, a producer or a number it
    is not. *)
Definition key_in (ch : channel) (msgId : option MessageId) : option seen_key :=
  '(seed, n) ← message_key msgId; if 0 <=? n then Some (ch, seed, scaledIndex n) else None.
Definition key_of (dispatcher : Z) (message : option Message) : option seen_key :=
  m ← message; d ← destination m; key_in (channel_of dispatcher d) (Some (messageId m)).

Inductive connection_op : Type :=
| AskFor (dispatcher : Z) (message : option Message)
| TakeBackFor (dispatcher : Z) (message : option Message)
| RemoveDispatcher (dispatcher : Z).

Definition run_connection_op (o : connection_op) : M ConnectionAudit bool :=
  match o with
  | AskFor c m => ca_isDuplicate c m
  | TakeBackFor c m => ca_rollbackDuplicate c m ;;; ret false
  | RemoveDispatcher c => ca_removeDispatcher c ;;; ret false
  end.

Definition keep_keys (p : seen_key -> bool) : list seen_key -> list seen_key := List.filter p.

(** The set of the keys seen. *)
Definition spec_connection_op (o : connection_op) : M (list seen_key) bool := fun l =>
  match o with
  | AskFor c m =>
      match key_of c m with
      | Some k => (Ok (bool_decide (k ∈ l)), if decide (k ∈ l) then l else k :: l)
      | None => (Ok false, l)
      end
  | TakeBackFor c m =>
      (Ok false, match key_of c m with Some k => keep_keys (fun k' => negb (bool_decide (k' = k))) l | None => l end)
  | RemoveDispatcher c => (Ok false, keep_keys (fun k => negb (bool_decide (k.1.1 = Topic c))) l)
  end.

(** ** The audits by their channels *)

Definition find_audit (s : ConnectionAudit) (ch : channel) : option MessageAudit :=
  match ch with
  | Queue ts => om_map (name_key false) (destinations s) !! ts
  | Topic c => abs (table (dispatchers s)) !! c
  end.

(** With room for [n] more dispatchers. *)
Record tables_ok (n : Z) (s : ConnectionAudit) : Prop := {
  ca_depth : 0 <= ca_auditDepth s;
  ca_sorted : om_sorted destination_less (destinations s);
  ca_linked : lhm_ok getHashCode 29 (dispatchers s);
  ca_order : accessOrder (dispatchers s) = false;
  ca_room : 4 * (zlen (chain (dispatchers s)) + n) <= 3 * 2 ^ 29;
}.

Implicit Types (s : ConnectionAudit) (c : Z) (d : bool * list Z).

Definition same_settings s s' : Prop :=
  ca_checkForDuplicates s' = ca_checkForDuplicates s /\ ca_auditDepth s' = ca_auditDepth s.

Lemma get_audit_ok n s c d : tables_ok n s ->
  get_audit c d s = (match find_audit s (channel_of c d) with Some _ => Ok tt | None => Throw NoSuchElementException end, s).
Proof.
  intros [Hd Hs Hl Ho Hr]. destruct d as [[] name]; unfold get_audit, channel_of; cbn [fst snd find_audit].
  - rewrite bind_get. unfold destination_find. rewrite (om_find_ok _ _ Hs). by destruct (om_map _ _ !! _).
  - destruct (lhm_getEntry_ok getHashCode 29 (dispatchers s) c Hl) as (r & E & Hv). rewrite Ho in E. cbn [accessed] in E. unfold lhm_get, on_dispatchers, bind.
    assert (set_chain (chain (dispatchers s)) (dispatchers s) = dispatchers s) as Hself by by destruct (dispatchers s).
    rewrite E. by destruct (abs (table (dispatchers s)) !! c), r; try done; rewrite Hself; destruct s.
Qed.

Lemma tables_dispatchers n n' s m : tables_ok n s -> lhm_ok getHashCode 29 m -> accessOrder m = false ->
  zlen (chain m) + n' <= zlen (chain (dispatchers s)) + n ->
  tables_ok n' (mkConnectionAudit (ca_checkForDuplicates s) (ca_auditDepth s) (auditMaximumProducerNumber s) (destinations s) m).
Proof. intros [Hd Hs Hl Ho Hr] ???. split; cbn; try done. lia. Qed.

(** What a channel's audit is replaced by; the others stay. *)
Definition replaced (n : Z) s (ch : channel) (a : option MessageAudit) s' : Prop :=
  tables_ok n s' /\ same_settings s s' /\ forall ch', find_audit s' ch' = if decide (ch' = ch) then a else find_audit s ch'.

Lemma set_queue n n' s name a : tables_ok n s -> n' <= n ->
  replaced n' s (Queue (name_key false name)) (Some a) (set_destinations (destination_set name a (destinations s)) s).
Proof.
  intros [Hd Hs Hl Ho Hr] Hn. destruct (om_set_ok name a _ Hs) as [Hs' Hf]. split; [split; cbn; try done; lia|]. split; [done|].
  intros [ts|c']; cbn [find_audit set_destinations destinations dispatchers]; [|by rewrite decide_False].
  change (destination_set name a (destinations s)) with (om_set destination_less name a (destinations s)).
  rewrite Hf. case_decide as E; [injection E as ->; apply lookup_insert_eq|apply lookup_insert_ne; congruence].
Qed.

Lemma set_topic n n' s c a m : tables_ok n s -> lhm_ok getHashCode 29 m -> accessOrder m = false ->
  zlen (chain m) + n' <= zlen (chain (dispatchers s)) + n -> (forall c', abs (table m) !! c' = if decide (c' = c) then a else abs (table (dispatchers s)) !! c') ->
  replaced n' s (Topic c) a (mkConnectionAudit (ca_checkForDuplicates s) (ca_auditDepth s) (auditMaximumProducerNumber s) (destinations s) m).
Proof.
  intros Hok Hm Ho Hn Ha. split; [by eapply tables_dispatchers|]. split; [done|]. intros [ts|c']; cbn [find_audit destinations dispatchers]; [by rewrite decide_False|].
  rewrite Ha. repeat case_decide; simplify_eq; done.
Qed.

Lemma put_audit_ok n s c d a : tables_ok (n + 1) s -> 0 <= n ->
  exists s', put_audit c d a s = (Ok tt, s') /\ replaced n s (channel_of c d) (Some a) s'.
Proof.
  intros Hok Hn. pose proof Hok as [Hd Hs Hl Ho Hr]. destruct d as [[] name]; unfold put_audit, channel_of; cbn [fst snd].
  - eexists. split; [reflexivity|]. apply (set_queue (n + 1)); [done|lia].
  - destruct (lhm_putImpl_ok getHashCode 29 (le_n _) (dispatchers s) c a Hl) as (m & E & Hl' & Ha & Hc & Ho'); [lia|].
    destruct (inserted_length (accessOrder (dispatchers s)) c _ (ok_chain_nodup _ _ _ Hl)) as [Hlen Hne].
    unfold lhm_put, on_dispatchers, bind, get. rewrite E. cbv beta iota. destruct (chain m) as [|eldest l] eqn:El; [congruence|].
    eexists. split; [reflexivity|]. apply (set_topic (n + 1)); [done|done|congruence|rewrite El, Hc; lia|].
    intros c'. rewrite Ha. case_decide; subst; [apply lookup_insert_eq|by apply lookup_insert_ne].
Qed.

Lemma on_audit_ok {B} n s c d a (op : M MessageAudit B) r a' : tables_ok n s -> find_audit s (channel_of c d) = Some a -> op a = (r, a') ->
  exists s', on_audit c d op s = (r, s') /\ replaced n s (channel_of c d) (Some a') s'.
Proof.
  intros Hok Hf Hop. pose proof Hok as [Hd Hs Hl Ho Hr]. destruct d as [[] name]; unfold on_audit, channel_of in *; cbn [fst snd find_audit] in *.
  - unfold destination_find. rewrite (om_find_ok _ _ Hs), Hf, Hop. eexists. split; [reflexivity|]. by apply (set_queue n).
  - destruct (on_value_ok getHashCode 29 (dispatchers s) c a op r a' Hl Hf Hop) as (m & E & Hl' & Ha & Hc & Ho').
    unfold on_dispatchers. rewrite E. eexists. split; [reflexivity|]. apply (set_topic n); [done|done|congruence|by rewrite Hc|].
    intros c'. rewrite Ha. case_decide; subst; [apply lookup_insert_eq|by apply lookup_insert_ne].
Qed.

Lemma removeDispatcher_ok n s c : tables_ok n s ->
  exists s', ca_removeDispatcher c s = (Ok tt, s') /\ replaced n s (Topic c) None s'.
Proof.
  intros Hok. pose proof Hok as [Hd Hs Hl Ho Hr]. unfold ca_removeDispatcher, try_catch, on_dispatchers, bind.
  pose proof (lhm_remove_ok getHashCode 29 (dispatchers s) c Hl) as Hrem. destruct (abs (table (dispatchers s)) !! c) as [a|] eqn:Ea.
  - destruct Hrem as (m & E & Hl' & Ha & Hc & Ho'). rewrite E. eexists. split; [reflexivity|]. apply (set_topic n); [done|done|congruence| |].
    + rewrite Hc. unfold without, zlen. pose proof (filter_length_le (fun k => negb (bool_decide (k = c))) (chain (dispatchers s))). lia.
    + intros c'. rewrite Ha. case_decide; subst; [apply lookup_delete_eq|by apply lookup_delete_ne].
  - rewrite Hrem. eexists. split; [reflexivity|]. apply (set_topic n); [done..|]. intros c'. case_decide; by subst.
Qed.

(** ** An audit that has room forgets nothing *)

Lemma seen_keys a (s : seen_state) : audit_sim a s -> NoDup s.2 /\ forall k, k ∈ s.2 <-> is_Some (s.1 !! k).
Proof.
  intros [_ Hc Ho Hm]. pose proof (cache_linked _ _ _ Hc) as [_ Hn Hk]. rewrite <- Ho. split; [done|]. intros k.
  etrans; [apply Hk|]. pose proof (map_Forall2_lookup _ _ _ k Hm) as H. unfold lru_view in H. cbn [fst] in H.
  destruct (abs _ !! k), (s.1 !! k); try done; split; (by eexists) || by intros [].
Qed.

Lemma to_tail_length (k : list Z) l : NoDup l -> k ∈ l -> zlen (to_tail k l) = zlen l.
Proof.
  intros Hn Hk. unfold zlen. f_equal. apply Permutation_length, list.NoDup_Permutation; [by apply to_tail_NoDup|done|].
  intros x. rewrite to_tail_elem. split; [intros [?| ->]; done|by left].
Qed.

Lemma spec_find_or_add_room a (s : seen_state) (max : Z) seed : audit_sim a s -> zlen s.2 + 1 <= max ->
  (forall k, seen_of k (spec_find_or_add max seed s) = seen_of k s) /\ zlen (spec_find_or_add max seed s).2 <= zlen s.2 + 1.
Proof.
  intros Hs Hmax. destruct (seen_keys a s Hs) as [Hn Hk]. unfold spec_find_or_add. destruct (s.1 !! seed) as [x|] eqn:E.
  - split; [done|]. cbn. rewrite to_tail_length by (done || (apply Hk; by rewrite E)). lia.
  - destruct (inserted_length true seed s.2 Hn) as [Hl Hne]. unfold spec_put. destruct (inserted true seed s.2) as [|e l]; [done|].
    rewrite (proj2 (Z.ltb_ge _ _)) by lia. split; [|done]. intros k. unfold seen_of. cbn. destruct (decide (k = seed)) as [->|];
      [by rewrite lookup_insert_eq, E|by rewrite lookup_insert_ne].
Qed.

Lemma seen_of_insert (k seed : list Z) (x : gset Z) (g : gmap (list Z) (gset Z)) (l : list (list Z)) : seen_of k (<[seed := x]> g, l) = if decide (k = seed) then x else seen_of k (g, l).
Proof. unfold seen_of. cbn. case_decide; subst; [by rewrite lookup_insert_eq|by rewrite lookup_insert_ne]. Qed.

Lemma spec_check_room a (s : seen_state) (max : Z) seed n : audit_sim a s -> zlen s.2 + 1 <= max -> seed <> [] ->
  let s' := (spec_check max seed (Ok n) s).2 in
  (spec_check max seed (Ok n) s).1 = Ok (if 0 <=? n then bool_decide (scaledIndex n ∈ seen_of seed s) else false) /\
  zlen s'.2 <= zlen s.2 + 1 /\
  forall k i, i ∈ seen_of k s' <-> (0 <= n /\ k = seed /\ i = scaledIndex n) \/ i ∈ seen_of k s.
Proof.
  intros Hs Hmax Hne. destruct (spec_find_or_add_room a s max seed Hs Hmax) as [Hseen Hlen]. unfold spec_check. destruct seed as [|c0 seed]; [done|].
  set (key := c0 :: seed) in *. destruct (Z.leb_spec 0 n); cbn [fst snd].
  - rewrite Hseen. split_and!; [done..|]. intros k i. rewrite seen_of_insert. fold (spec_find_or_add max key s).
    replace (seen_of k ((spec_find_or_add max key s).1, (spec_find_or_add max key s).2)) with (seen_of k s) by (rewrite <- (Hseen k); by destruct (spec_find_or_add max key s)).
    case_decide; [subst|]; set_solver.
  - split_and!; [done..|]. intros k i. rewrite Hseen. intuition lia.
Qed.

Lemma spec_rollback_room a (s : seen_state) seed n : audit_sim a s -> seed <> [] ->
  let s' := (spec_rollback seed (Ok n) s).2 in
  zlen s'.2 = zlen s.2 /\ forall k i, i ∈ seen_of k s' <-> ~ (0 <= n /\ k = seed /\ i = scaledIndex n) /\ i ∈ seen_of k s.
Proof.
  intros Hs Hne. destruct (seen_keys a s Hs) as [Hn Hk]. unfold spec_rollback. destruct seed as [|c0 seed]; [done|]. set (key := c0 :: seed).
  destruct (s.1 !! key) as [x|] eqn:E.
  - assert (zlen (to_tail key s.2) = zlen s.2) as Hl by (apply to_tail_length; [done|]; apply Hk; by rewrite E).
    assert (seen_of key s = x) as Hx by (unfold seen_of; by rewrite E).
    destruct (Z.leb_spec 0 n); cbn [fst snd]; (split; [done|]); intros k i.
    + rewrite seen_of_insert. case_decide; [subst; set_solver|]. change (seen_of k (s.1, _)) with (seen_of k s). naive_solver.
    + change (seen_of k (s.1, _)) with (seen_of k s). intuition lia.
  - split; [done|]. cbn [snd]. intros k i. split; [|naive_solver]. intros Hi. split; [|done]. intros (_ & -> & _). unfold seen_of in Hi. rewrite E in Hi. set_solver.
Qed.

(** ** The connection's audit is the set of the keys seen *)

(** The audit of a channel, with room for [n] more producers, has seen what the set
    says. *)
Definition knows (n : Z) (ch : channel) (a : MessageAudit) (l : list seen_key) : Prop :=
  exists seen, audit_sim a seen /\ maxCacheSize (producers a) = 10000 /\ zlen seen.2 + n <= 10000 /\
    forall seed i, i ∈ seen_of seed seen <-> (ch, seed, i) ∈ l.

Definition channel_knows (n : Z) s (l : list seen_key) (ch : channel) (oa : option MessageAudit) : Prop :=
  match oa with Some a => knows n ch a l | None => forall seed i, (ch, seed, i) ∉ l end.

Record connection_sim (n : Z) s (l : list seen_key) : Prop := {
  sim_tables : tables_ok n s;
  sim_checks : ca_checkForDuplicates s = true;
  sim_channels : forall ch, channel_knows n s l ch (find_audit s ch);
}.

Lemma channel_knows_ext n n' s s' l l' ch oa : channel_knows n s l ch oa -> n' <= n ->
  (forall seed i, (ch, seed, i) ∈ l' <-> (ch, seed, i) ∈ l) -> channel_knows n' s' l' ch oa.
Proof.
  intros Hk Hn Hl. destruct oa as [a|]; cbn in *; [|intros seed i; rewrite Hl; apply Hk]. destruct Hk as (seen & Hs & Hm & Hr & Hi).
  exists seen. split_and!; [done..|lia|]. intros seed i. by rewrite Hl.
Qed.

Lemma connection_sim_weaken n n' s l : connection_sim n s l -> n' <= n -> connection_sim n' s l.
Proof.
  intros [[Hd Hs Hl Ho Hr] Hc Hk] Hn. split; [split; try done; lia|done|]. intros ch. by eapply channel_knows_ext.
Qed.

Lemma replaced_trans n n' s s1 s2 ch oa1 oa2 : replaced n s ch oa1 s1 -> replaced n' s1 ch oa2 s2 -> replaced n' s ch oa2 s2.
Proof.
  intros (_ & [? ?] & Hf) (Ht & [? ?] & Hf'). split; [done|]. split; [split; congruence|]. intros ch'. rewrite Hf', Hf. by case_decide.
Qed.

Lemma connection_sim_replaced n n' s s' l l' ch oa : connection_sim n s l -> n' <= n -> replaced n' s ch oa s' ->
  channel_knows n' s' l' ch oa -> (forall ch' seed i, ch' <> ch -> (ch', seed, i) ∈ l' <-> (ch', seed, i) ∈ l) -> connection_sim n' s' l'.
Proof.
  intros [Ht Hc Hk] Hn (Ht' & [Hc' _] & Hf) Hch Hl. split; [done|congruence|]. intros ch'. rewrite Hf. case_decide as E; [by subst|].
  eapply channel_knows_ext; [apply Hk|done|]. intros. by apply Hl.
Qed.

(** The audit of the channel is there, or is added. *)
Lemma add_audit_ok n s l c d : connection_sim (n + 1) s l -> 0 <= n < 10000 ->
  exists s1 a, try_catch no_such_element (get_audit c d) (fun _ =>
      s <- get ;;
      audit <- from_outcome (MessageAudit_new (ca_auditDepth s) (auditMaximumProducerNumber s)) ;;
      put_audit c d audit) s = (Ok tt, s1) /\
    replaced n s (channel_of c d) (Some a) s1 /\ knows (n + 1) (channel_of c d) a l.
Proof.
  intros [Ht Hc Hk] Hn. specialize (Hk (channel_of c d)). unfold try_catch. rewrite (get_audit_ok _ _ c d Ht).
  destruct (find_audit s (channel_of c d)) as [a|] eqn:Ef.
  - exists s, a. split; [done|]. split; [|done]. destruct Ht as [Hd Hs Hl Ho Hr]. split; [split; try done; lia|]. split; [done|].
    intros ch'. case_decide; by subst.
  - change (no_such_element NoSuchElementException) with true. cbv iota. rewrite bind_get.
    destruct (new_audit_ok (ca_auditDepth s) (auditMaximumProducerNumber s) (ca_depth _ _ Ht)) as (a & E & Hs & Hm & _).
    rewrite E. unfold from_outcome, bind at 1. destruct (put_audit_ok n s c d a Ht ltac:(lia)) as (s1 & E1 & Hr1).
    exists s1, a. split; [done|]. split; [done|]. exists (∅, []). split_and!; [done..|cbn; rewrite zlen_nil; lia|]. intros seed i.
    split; [|intros Hi; by apply Hk in Hi]. unfold seen_of. cbn. rewrite lookup_empty. cbn. by intros ?%elem_of_empty.
Qed.

Lemma producer_seed_nonempty p : producer_seed p <> [].
Proof. unfold producer_seed. by destruct (pr_connectionId p). Qed.

(** Asking a channel's audit about a message, and taking it back. *)
Lemma ask_audit n ch a l m : knows (n + 1) ch a l -> 0 <= n ->
  exists a', isDuplicate_message m a = (Ok (match key_in ch m with Some k => bool_decide (k ∈ l) | None => false end), a') /\
    knows n ch a' (match key_in ch m with Some k => if decide (k ∈ l) then l else k :: l | None => l end).
Proof.
  intros (seen & Hs & Hm & Hr & Hi) Hn. assert (knows n ch a l) as Hsame by (exists seen; split_and!; [done..|lia|done]).
  destruct m as [[tv [p|] i bs]|]; [|by exists a..]. cbn.
  pose proof (producer_seed_nonempty p) as Hne. destruct (check_seed_ok a seen (producer_seed p) (Ok i) Hs) as (a' & E & Hs' & [_ Hm']).
  rewrite Hm in *. destruct (spec_check_room a seen 10000 (producer_seed p) i Hs ltac:(lia) Hne) as (E1 & Hl & Hseen). rewrite E1 in E.
  exists a'. rewrite E. destruct (Z.leb_spec 0 i) as [H0|H0].
  - split; [f_equal; f_equal; apply bool_decide_ext, Hi|]. eexists. split; [exact Hs'|]. split; [congruence|]. split; [lia|]. intros seed j. rewrite Hseen, Hi.
    destruct (decide (_ ∈ l)) as [Hin|Hin]; [split; [intros [(_ & -> & ->)|?]; done|by right]|]. rewrite elem_of_cons.
    split; [intros [(_ & -> & ->)|?]; [by left|by right]|intros [[= -> ->]|?]; [by left|by right]].
  - split; [done|]. eexists. split; [exact Hs'|]. split; [congruence|]. split; [lia|]. intros seed j. rewrite Hseen, Hi. intuition lia.
Qed.

Lemma keep_keys_elem p k l : k ∈ keep_keys p l <-> k ∈ l /\ p k = true.
Proof. unfold keep_keys. rewrite !list_elem_of_In, filter_In. done. Qed.

Lemma take_back_audit n ch a l m : knows n ch a l ->
  exists a', rollback_message m a = (Ok tt, a') /\
    knows n ch a' (match key_in ch m with Some k => keep_keys (fun k' => negb (bool_decide (k' = k))) l | None => l end).
Proof.
  intros (seen & Hs & Hm & Hr & Hi). assert (knows n ch a l) as Hsame by by exists seen.
  destruct m as [[tv [p|] i bs]|]; [|by exists a..]. cbn.
  pose proof (producer_seed_nonempty p) as Hne. destruct (rollback_seed_ok a seen (producer_seed p) (Ok i) Hs) as (a' & E & Hs' & [_ Hm']).
  destruct (spec_rollback_room a seen (producer_seed p) i Hs Hne) as (Hl & Hseen). exists a'.
  assert ((spec_rollback (producer_seed p) (Ok i) seen).1 = Ok tt) as E1 by (unfold spec_rollback; repeat case_match; done).
  rewrite E, E1. split; [done|]. exists (spec_rollback (producer_seed p) (Ok i) seen).2. split; [done|]. split; [congruence|]. split; [lia|].
  intros seed j. rewrite Hseen, Hi. destruct (Z.leb_spec 0 i) as [H0|H0]; [|intuition lia].
  rewrite keep_keys_elem, negb_true_iff, bool_decide_eq_false. split; intros [H1 H2]; (split; [|]); try done; [intros [= -> ->]; by apply H1|].
  intros (_ & -> & ->). by apply H2.
Qed.

Lemma key_of_channel c m d : destination m = Some d -> key_of c (Some m) = key_in (channel_of c d) (Some (messageId m)).
Proof. intros E. unfold key_of. cbn [mbind option_bind]. by rewrite E. Qed.

Lemma key_channel ch m k : key_in ch m = Some k -> k.1.1 = ch.
Proof. unfold key_in. destruct (message_key m) as [[seed i]|]; [|done]. cbn. case_match; [|done]. by intros [= <-]. Qed.

Lemma run_connection_op_ok n s l o : connection_sim (n + 1) s l -> 0 <= n < 10000 ->
  exists s', run_connection_op o s = ((spec_connection_op o l).1, s') /\ connection_sim n s' (spec_connection_op o l).2.
Proof.
  intros Hsim Hn. pose proof Hsim as [Ht Hc Hk]. assert (connection_sim n s l) as Hsame by (eapply connection_sim_weaken; [done|lia]).
  destruct o as [c [m|]|c [m|]|c]; cbn [run_connection_op spec_connection_op].
  - unfold ca_isDuplicate. rewrite bind_get, Hc. destruct (destination m) as [d|] eqn:Ed; [|by exists s; unfold key_of; cbn; rewrite Ed].
    destruct (add_audit_ok n s l c d Hsim Hn) as (s1 & a & E1 & Hr1 & Ha). rewrite (bind_ok _ _ _ _ _ E1).
    destruct (ask_audit n (channel_of c d) a l (Some (messageId m)) Ha ltac:(lia)) as (a' & E & Ha').
    destruct (on_audit_ok n s1 c d a _ _ _ (proj1 Hr1) ltac:(by rewrite (proj2 (proj2 Hr1)), decide_True) E) as (s' & E2 & Hr2).
    rewrite E2. exists s'. rewrite (key_of_channel _ _ _ Ed). pose proof (key_channel (channel_of c d) (Some (messageId m))) as Hch.
    destruct (key_in _ _) as [k|]; (split; [done|]);
      (eapply (connection_sim_replaced (n + 1)); [done|lia|by eapply replaced_trans|done|]); intros ch' seed i Hne; [|done].
    specialize (Hch k eq_refl). cbn. case_decide; [done|]. rewrite elem_of_cons. split; [|by right]. intros [<-|?]; [by cbn in Hch|done].
  - by exists s.
  - unfold bind at 1. unfold ca_rollbackDuplicate. rewrite bind_get, Hc. destruct (destination m) as [d|] eqn:Ed; [|by exists s; unfold key_of; cbn; rewrite Ed].
    rewrite (key_of_channel _ _ _ Ed). unfold try_catch, bind at 1. rewrite (get_audit_ok _ _ c d Ht). specialize (Hk (channel_of c d)).
    assert (forall ch' seed i, ch' <> channel_of c d -> (ch', seed, i) ∈ match key_in (channel_of c d) (Some (messageId m)) with
        Some k => keep_keys (fun k' => negb (bool_decide (k' = k))) l | None => l end <-> (ch', seed, i) ∈ l) as Hother.
    { intros ch' seed i Hne. pose proof (key_channel (channel_of c d) (Some (messageId m))) as Hch. destruct (key_in _ _) as [k|]; [|done].
      specialize (Hch k eq_refl). rewrite keep_keys_elem, negb_true_iff, bool_decide_eq_false. split; [by intros [? _]|]. intros ?. split; [done|].
      intros <-. by cbn in Hch. }
    destruct (find_audit s (channel_of c d)) as [a|] eqn:Ef.
    + destruct (take_back_audit _ _ a l (Some (messageId m)) Hk) as (a' & E & Ha').
      destruct (on_audit_ok _ s c d a _ _ _ Ht Ef E) as (s' & E2 & Hr2). rewrite E2. exists s'. split; [by destruct (key_in _ _)|].
      apply (connection_sim_weaken (n + 1)); [|lia]. eapply (connection_sim_replaced (n + 1)); [done|lia|exact Hr2|exact Ha'|exact Hother].
    + change (no_such_element NoSuchElementException) with true. cbv iota. exists s. split; [by destruct (key_in _ _)|].
      eapply (connection_sim_replaced n n s s l _ (channel_of c d) None); [done|lia| | |exact Hother].
      * split; [apply Hsame|]. split; [done|]. intros ch'. case_decide; by subst.
      * cbn [channel_knows] in *. intros seed i. destruct (key_in _ _) as [k|]; [|apply Hk]. cbn [snd]. rewrite keep_keys_elem. intros [Hin _]. by apply Hk in Hin.
  - by exists s.
  - destruct (removeDispatcher_ok _ s c Ht) as (s' & E & Hr). rewrite (bind_ok _ _ _ _ _ E). exists s'. split; [done|].
    apply (connection_sim_weaken (n + 1)); [|lia]. eapply (connection_sim_replaced (n + 1)); [done|lia|exact Hr| |].
    + intros seed i. cbn [snd]. rewrite keep_keys_elem. cbn. rewrite bool_decide_true by done. by intros [_ ?].
    + intros ch' seed i Hne. cbn [snd]. rewrite keep_keys_elem. cbn. rewrite bool_decide_false by done. split; [by intros [? _]|done].
Qed.

Lemma connection_history (ops : list connection_op) n s l : connection_sim n s l -> zlen ops <= n -> n <= 10000 ->
  (run_ops run_connection_op ops s).1 = (run_ops spec_connection_op ops l).1.
Proof.
  revert n s l. induction ops as [|o ops IH]; intros n s l Hs Hn Hmax; [done|]. rewrite zlen_cons in Hn. pose proof (zlen_nonneg ops) as Hpos.
  destruct (run_connection_op_ok (n - 1) s l o) as (s' & E & Hs'); [by replace (n - 1 + 1) with n by lia|lia|]. cbn [run_ops].
  rewrite E. specialize (IH (n - 1) s' _ Hs' ltac:(lia) ltac:(lia)). destruct (spec_connection_op o l) as [r l']. cbn [fst snd] in *.
  destruct (run_ops run_connection_op ops s') as [rs s'']. destruct (run_ops spec_connection_op ops l') as [rs' l'']. cbn [fst] in *. by subst.
Qed.

Lemma new_connection_ok depth maxProducers : 0 <= depth ->
  exists s, ConnectionAudit_new depth maxProducers = Ok s /\ connection_sim 10000 s [].
Proof.
  intros Hd. destruct (new_table_ok (K := Z) (V := MessageAudit) getHashCode 1000) as (t & E & Ht & Ha & Hc); [done|lia|done|].
  unfold ConnectionAudit_new, LinkedHashMap_new. rewrite E. eexists. split; [reflexivity|]. split; [|done|].
  - split; cbn; [done|apply SSorted_nil| |done|rewrite zlen_nil; lia]. split; cbn; [done|constructor|]. intros k. rewrite Ha, lookup_empty. split; [by intros ?%not_elem_of_nil|by intros []].
  - intros [ts|c]; cbn [find_audit destinations dispatchers table]; [unfold om_map; cbn [map list_to_map foldr]|rewrite Ha]; rewrite lookup_empty; by intros ?? ?%not_elem_of_nil.
Qed.

(** C8: Over the first 10000 questions a connection answers that a message is a duplicate exactly
    if one with the same key came before and was not taken back, nor its dispatcher removed,
    since. The key of a message is its channel, its producer, and its number as the audit scales
    it; the channel is the tokens of the name of a queue, or the dispatcher that has a topic. So
    numbers are told apart modulo INT_MAX, and names of queues up to the blanks in them; a
    message without a producer or with a negative number has no key and is never a duplicate. *)
Theorem duplicates_detected (ops : list connection_op) (depth maxProducers : Z) : 0 <= depth -> zlen ops <= 10000 ->
  exists s, ConnectionAudit_new depth maxProducers = Ok s /\
    (run_ops run_connection_op ops s).1 = (run_ops spec_connection_op ops []).1.
Proof.
  intros Hd Hn. destruct (new_connection_ok depth maxProducers Hd) as (s & E & Hs). exists s. split; [exact E|].
  by apply (connection_history ops 10000).
Qed.
End connection_audit.

(** The duplicate detection of a connection, as SessionState.v uses it; no operation of it
    throws ([run_connection_op_ok]). *)
Definition answer {S B} (otherwise : B) (r : outcome B * S) : B * S :=
  (match r.1 with Ok b => b | _ => otherwise end, r.2).

#[export] Instance Connection_audit (getHashCode : Z -> Z) : Audit ConnectionAudit := {
  audit_isDuplicate c m a := answer false (ca_isDuplicate getHashCode c (Some m) a);
  audit_rollbackDuplicate c m a := (ca_rollbackDuplicate getHashCode c (Some m) a).2;
  audit_removeDispatcher c a := (ca_removeDispatcher getHashCode c a).2;
}.

(** A queue of two consumers, a topic of two, and a name with a blank. *)
Definition sample_queue_message (name : list Z) (n : Z) : option Message :=
  Some (mkMessage (Some (true, name)) (mkMessageId [] (Some (mkProducerId [67] 1 1)) n 0) 0 0 0 4 None).
Definition sample_topic_message (n : Z) : option Message :=
  Some (mkMessage (Some (false, [84])) (mkMessageId [] (Some (mkProducerId [67] 1 1)) n 0) 0 0 0 4 None).
Definition sample_connection_ops : list connection_op :=
  [AskFor 1 (sample_queue_message [65; 66] 7); AskFor 2 (sample_queue_message [65; 66] 7); AskFor 2 (sample_queue_message [65; 32; 66] 7);
   TakeBackFor 2 (sample_queue_message [65; 66] 7); AskFor 1 (sample_queue_message [65; 66] 7);
   AskFor 1 (sample_topic_message 7); AskFor 2 (sample_topic_message 7); AskFor 1 (sample_topic_message 7);
   RemoveDispatcher 1; AskFor 1 (sample_topic_message 7)].

Lemma duplicates_detected_witness :
  exists s, ConnectionAudit_new 2048 64 = Ok s /\
    (run_ops (run_connection_op (fun c => c)) sample_connection_ops s).1 =
      map Ok [false; true; true; false; false; false; false; true; false; false].
Proof.
  destruct (duplicates_detected (fun c => c) sample_connection_ops 2048 64) as (s & E & Hr); [done|done|].
  exists s. split; [exact E|]. rewrite Hr. vm_compute. reflexivity.
Defined.
