(* ===== verification/ConsumerKernel.v ===== *)
(** * ActiveMQConsumerKernel (activemq/core/kernels/ActiveMQConsumerKernel.cpp): how a
    consumer takes messages from its channel, acknowledges them, and gives them back.

    The operations of the consumer [c] of a session work on the [World] of SessionState.v.
    What the code leaves to others is an argument of the section: the application's
    message listener [on_message], the numbers [draw] gives for collision avoidance, and
    what other threads do to a channel while the consumer waits on it. *)
From S2P Require Import Prelude Floating Commands DispatchChannel RedeliveryPolicy TransactionContext SessionState.
From Stdlib Require Import Floats.SpecFloat.

(** The acknowledgement handler a message is given to the application with. *)
Inductive AckHandler : Type :=
| ClientAckHandler
| IndividualAckHandler (d : MessageDispatch)
| NoOpAckHandler.

(** 0.65, the nearest double. *)
Definition OPTIMIZE_RATIO : double := SFdiv prec emax (double_of 65) (double_of 100).

Section consumer_kernel.
Context {C A : Type} `{CHANNEL : MessageDispatchChannel C MessageDispatch} `{AUDIT : Audit A}.
Context (on_message : Z -> MessageDispatch -> M (World C A) unit) (draw : World C A -> bool * double).

Abbreviation W := (World C A).
Implicit Types (c : Z) (w : W) (d : MessageDispatch).

Definition need_message d : M W Message := match message d with Some m => ret m | None => undefined end.
Definition audit_rollback c d : M W unit := m <- need_message d ;; on_connection (rollbackDuplicate c m).

(** [getAutoAcknowledge...]: the destination decides for [DUPS_OK]. *)
Definition isAutoAcknowledgeEach c w : bool :=
  isAutoAcknowledge w || (isDupsOkAcknowledge w && destination_queue (options (consumers w c))).
Definition isAutoAcknowledgeBatch c w : bool :=
  isDupsOkAcknowledge w && negb (destination_queue (options (consumers w c))).

(** ** ActiveMQConsumerKernelConfig *)

Definition isTimeForOptimizedAck c : M W bool :=
  k <- self c ;;
  let a := acks k in
  if SFleb (dmul (double_of (prefetchSize (options k))) OPTIMIZE_RATIO) (double_of (ackCounter a + deliveredCounter a))
  then ret true
  else if 0 <? optimizeAcknowledgeTimeOut (options k) then
    t <- now ;; ret (optimizeAckTimestamp a + optimizeAcknowledgeTimeOut (options k) <=? t)
  else ret false.

(** A HashMap finds a key by [==], the address for a shared pointer. *)
Fixpoint map_put (a : Z) (m : MessageId) (b : bool) (l : list (Z * (MessageId * bool))) : list (Z * (MessageId * bool)) :=
  match l with
  | [] => [(a, (m, b))]
  | x :: l' => if x.1 =? a then (a, (x.2.1, b)) :: l' else x :: map_put a m b l'
  end.
Definition map_containsKey (a : Z) (l : list (Z * (MessageId * bool))) : bool := existsb (fun x => x.1 =? a) l.

(** The entries whose message has not come back. *)
Definition not_replayed (l : list (Z * (MessageId * bool))) : list (Z * (MessageId * bool)) := List.filter (fun x => negb x.2.2) l.

Definition put_delivered c d : M W unit :=
  m <- need_message d ;;
  update_redelivery c (fun r =>
    set_previouslyDelivered (Some (map_put (messageId_address m) (messageId m) false (default [] (previouslyDelivered r)))) r).

(** [clearDeliveredList] *)
Definition clearDeliveredList c : M W unit :=
  w <- get ;;
  let k := consumers w c in
  if isClearDeliveredList (redelivery k) then
    match delivered k with
    | [] => ret tt
    | _ =>
        if isTransacted w then
          update_redelivery c (fun r => set_previouslyDelivered (Some (default [] (previouslyDelivered r))) r) ;;;
          iter_m (put_delivered c) (delivered k)
        else
          (if (isClientAcknowledge w || isIndividualAcknowledge w) && negb (browser (options k))
           then iter_m (audit_rollback c) (delivered k) else ret tt) ;;;
          update c (set_delivered []) ;;;
          update_acks c (set_pendingAck None)
    end ;;;
    update_redelivery c (set_isClearDeliveredList false)
  else ret tt.

Definition clearPreviouslyDelivered c : M W unit := update_redelivery c (set_previouslyDelivered None).

(** The first delivered message with the id goes. *)
Fixpoint remove_first (p : MessageDispatch -> bool) (l : list MessageDispatch) : list MessageDispatch :=
  match l with [] => [] | d :: l' => if p d then l' else d :: remove_first p l' end.
Definition has_id (key : MessageId) d : bool :=
  match message d with Some m => bool_decide (key = messageId m) | None => true end.

Definition removeFromDeliveredMessages c (key : MessageId) : M W unit :=
  k <- self c ;;
  match List.find (has_id key) (delivered k) with
  | None => ret tt
  | Some d => audit_rollback c d ;;; update c (set_delivered (remove_first (has_id key) (delivered k)))
  end.

Definition rollbackPreviouslyDeliveredAndNotRedelivered c : M W unit :=
  k <- self c ;;
  match previouslyDelivered (redelivery k) with
  | None => ret tt
  | Some l => iter_m (fun x => removeFromDeliveredMessages c x.2.1) (not_replayed l) ;;; clearPreviouslyDelivered c
  end.

Definition rollbackOnFailedRecoveryRedelivery c : M W unit :=
  k <- self c ;;
  match previouslyDelivered (redelivery k) with
  | None => ret tt
  | Some l => match not_replayed l with [] => ret tt | _ => throw TransactionRolledBackException end
  end.

(** [do { if (numberNotReplayed > 0) sleep } while (numberNotReplayed > 0 && expiry < now)]:
    the loop runs on once the time is up, and ends before. A sleep changes nothing but
    the time; each round looks at the clock once. *)
Fixpoint wait_rounds (fuel : nat) c (expiry : Z) : M W unit :=
  match fuel with
  | O => hang
  | S fuel' =>
      k <- self c ;;
      match not_replayed (default [] (previouslyDelivered (redelivery k))) with
      | [] => ret tt
      | _ => t <- now ;; if expiry <? t then wait_rounds fuel' c expiry else ret tt
      end
  end.

(** As many rounds as the clock has readings, and one more: the last reading stays, and
    so would the loop. *)
Definition waitForRedeliveries c : M W unit :=
  k <- self c ;;
  match previouslyDelivered (redelivery k) with
  | Some _ =>
      if 0 <? failoverRedeliveryWaitPeriod (options k) then
        t <- now ;;
        w <- get ;;
        wait_rounds (S (length (clock w))) c (t + failoverRedeliveryWaitPeriod (options k))
      else ret tt
  | None => ret tt
  end.

Definition redeliveryExpectedInCurrentTransaction c d (markReceipt : bool) : M W bool :=
  w <- get ;;
  if isTransacted w then
    match previouslyDelivered (redelivery (consumers w c)) with
    | None => ret false
    | Some l =>
        m <- need_message d ;;
        if map_containsKey (messageId_address m) l then
          (if markReceipt
           then update_redelivery c (set_previouslyDelivered (Some (map_put (messageId_address m) (messageId m) true l)))
           else ret tt) ;;;
          ret true
        else ret false
    end
  else ret false.

(** The loop over the sessions' consumers returns with the first one; the connection has
    the one session. *)
Definition redeliveryPendingInCompetingTransaction d : M W bool :=
  w <- get ;;
  match consumerIds w with
  | [] => ret false
  | c :: _ => redeliveryExpectedInCurrentTransaction c d false
  end.

Definition isExpired (m : Message) : M W bool := t <- now ;; ret ((0 <? expiration m) && (expiration m <? t)).

Definition consumeExpiredMessage c d : M W bool :=
  k <- self c ;; m <- need_message d ;; e <- isExpired m ;;
  ret (e && negb (browser (options k)) && consumerExpiryCheckEnabled (options k)).

Definition redeliveryExceeded c d : M W bool :=
  k <- self c ;; m <- need_message d ;;
  ret match redeliveryPolicy (options k) with
      | None => false
      | Some p =>
          if maximumRedeliveries p =? NO_MAXIMUM_REDELIVERIES then false
          else if dispatch_redeliveryCounter d <=? maximumRedeliveries p then false
          else match redeliveryDelay_property m with Some b => negb b | None => true end
      end.

Definition posionAck d (cause : PoisonCause) : M W unit :=
  m <- need_message d ;;
  sendAck (ack_because cause (ack_from (Some (messageId m)) (new_ack d m ACK_TYPE_POISON 1))) false.

(** ** Acknowledgements *)

(** The synchronization of a consumer the session does not have cannot be made. *)
Definition add_synchronization (c : Z) (s : Synchronizer) : M W unit :=
  w <- get ;;
  match lookupConsumerKernel c w with
  | None => throw NullPointerException
  | Some _ => a <- allocate ;; addSynchronization (a, s)
  end.

Definition registerSync c : M W unit :=
  doStartTransaction ;;;
  k <- self c ;;
  if synchronizationRegistered (life k) then ret tt
  else update_life c (set_registered true) ;;; add_synchronization c (TransactionSynchronization c).

Definition immediateIndividualTransactedAck c d : M W unit :=
  registerSync c ;;;
  m <- need_message d ;;
  w <- get ;;
  session_syncRequest (CAck (ack_in (transactionId (transaction w)) (new_ack d m ACK_TYPE_INDIVIDUAL 1))) ;;; ret tt.

(** The acknowledgement that waits after [ackLater] has counted a message: it goes on from
    the previous one if that is of the same type. *)
Definition next_pending (old : option MessageAck) (a : MessageAck) : MessageAck :=
  match old with
  | None => ack_from (Some (ack_last a)) a
  | Some o => if bool_decide (ack_type o = ack_type a) then ack_from (ack_first o) a else a
  end.

(** [(0.5 * prefetchSize) <= pendingAcks] *)
Definition half_window (k : Consumer C) : bool :=
  prefetchSize (options k) <=?
    2 * (deliveredCounter (acks k) + ackCounter (acks k) - additionalWindowSize (acks k)).

(** One more message delivered; an acknowledgement of another type that was pending is
    sent, unless it only said that messages were delivered. *)
Definition count_pending c d (ackType : AckType) : M W unit :=
  update_acks c (fun a => set_deliveredCounter (deliveredCounter a + 1) a) ;;;
  k <- self c ;;
  m <- need_message d ;;
  let old := pendingAck (acks k) in
  let a := new_ack d m ackType (deliveredCounter (acks k)) in
  update_acks c (set_pendingAck (Some (next_pending old a))) ;;;
  match old with
  | Some o =>
      if negb (bool_decide (ack_type o = ackType)) && negb (isDeliveredAck o) then sendAck o false else ret tt
  | None => ret tt
  end.

Definition tag_pending c : M W unit :=
  w <- get ;;
  if isTransacted w
  then update_acks c (fun a => set_pendingAck (option_map (ack_in (transactionId (transaction w))) (pendingAck a)) a)
  else ret tt.

(** The pending acknowledgement goes out when it stands for half the window. *)
Definition send_window c : M W unit :=
  k <- self c ;;
  if half_window k then
    match pendingAck (acks k) with
    | Some a => sendAck a false
    | None => undefined
    end ;;;
    update_acks c (set_pendingAck None) ;;;
    update_acks c (set_deliveredCounter 0) ;;;
    update_acks c (set_additionalWindowSize 0)
  else ret tt.

Definition ackLater c d (ackType : AckType) : M W unit :=
  w <- get ;;
  (if isTransacted w then registerSync c else ret tt) ;;;
  count_pending c d ackType ;;;
  tag_pending c ;;;
  send_window c.

(** One acknowledgement from the oldest delivered message to the newest. *)
Definition makeAckForAllDeliveredMessages c (t : AckType) : M W (option MessageAck) :=
  k <- self c ;;
  match delivered k with
  | [] => ret None
  | d :: _ =>
      m <- need_message d ;;
      m' <- need_message (List.last (delivered k) d) ;;
      ret (Some (ack_from (Some (messageId m')) (new_ack d m t (zlen (delivered k)))))
  end.

(** [acknowledge(dispatch, ackType)] *)
Definition acknowledge_dispatch c d (ackType : AckType) : M W unit :=
  catch_cms
    (m <- need_message d ;;
     let a := new_ack d m ackType 1 in
     sendAck (if isExpiredAck a then ack_from (Some (ack_last a)) a else a) false ;;;
     update c (fun k => set_delivered (remove_first (fun x => address x =? address d) (delivered k)) k)).

(** [acknowledge()]: every delivered message at once. *)
Definition acknowledge c : M W unit :=
  catch_cms
    (clearDeliveredList c ;;;
     waitForRedeliveries c ;;;
     ack <- makeAckForAllDeliveredMessages c ACK_TYPE_CONSUMED ;;
     match ack with
     | None => ret tt
     | Some a =>
         w <- get ;;
         (if isTransacted w then rollbackOnFailedRecoveryRedelivery c ;;; doStartTransaction else ret tt) ;;;
         v <- get ;;
         let a := if isTransacted w then ack_in (transactionId (transaction v)) a else a in
         update_acks c (set_pendingAck None) ;;;
         sendAck a false ;;;
         k <- self c ;;
         update_acks c (set_deliveredCounter (Z.max 0 (deliveredCounter (acks k) - zlen (delivered k)))) ;;;
         update_acks c (set_additionalWindowSize (Z.max 0 (additionalWindowSize (acks k) - zlen (delivered k)))) ;;;
         u <- get ;;
         if isTransacted u then ret tt else update c (set_delivered [])
     end).

(** What an [AUTO_ACKNOWLEDGE] consumer sends after a message, [deliveringAcks] being
    set. *)
Definition ack_each c : M W unit :=
  k <- self c ;;
  match delivered k with
  | [] => ret tt
  | _ =>
      if optimizeAcknowledge (acks k) then
        update_acks c (fun a => set_ackCounter (ackCounter a + 1) a) ;;;
        b <- isTimeForOptimizedAck c ;;
        if b then
          ack <- makeAckForAllDeliveredMessages c ACK_TYPE_CONSUMED ;;
          match ack with
          | None => ret tt
          | Some a =>
              update c (set_delivered []) ;;;
              update_acks c (set_ackCounter 0) ;;;
              sendAck a false ;;;
              t <- now ;; update_acks c (set_optimizeAckTimestamp t)
          end ;;;
          k <- self c ;;
          match pendingAck (acks k) with
          | Some p =>
              if 0 <? deliveredCounter (acks k) then
                sendAck p false ;;; update_acks c (set_pendingAck None) ;;; update_acks c (set_deliveredCounter 0)
              else ret tt
          | None => ret tt
          end
        else ret tt
      else
        ack <- makeAckForAllDeliveredMessages c ACK_TYPE_CONSUMED ;;
        match ack with
        | None => ret tt
        | Some a => update c (set_delivered []) ;;; sendAck a false
        end
  end.

Definition afterMessageIsConsumed c d (messageExpired : bool) : M W unit :=
  catch_amq
    (w <- get ;;
     if isClosed (unconsumed (consumers w c)) then ret tt
     else if messageExpired then acknowledge_dispatch c d ACK_TYPE_EXPIRED
     else if isTransacted w then ret tt
     else if isAutoAcknowledgeEach c w then
       if deliveringAcks (acks (consumers w c)) then ret tt
       else
         update_acks c (set_deliveringAcks true) ;;;
         ack_each c ;;;
         update_acks c (set_deliveringAcks false)
     else if isAutoAcknowledgeBatch c w then ackLater c d ACK_TYPE_CONSUMED
     else if isClientAcknowledge w || isIndividualAcknowledge w then
       if existsb (fun x => address x =? address d) (delivered (consumers w c)) then ackLater c d ACK_TYPE_DELIVERED else ret tt
     else throw IllegalStateException).

Definition beforeMessageIsConsumed c d : M W unit :=
  match message d with
  | Some m => update_life c (set_lastDelivered (mi_brokerSequenceId (messageId m)))
  | None => ret tt
  end ;;;
  w <- get ;;
  if isAutoAcknowledgeBatch c w then ret tt
  else
    update c (fun k => set_delivered (d :: delivered k) k) ;;;
    if isTransacted w then
      if transactedIndividualAck (options (consumers w c)) then immediateIndividualTransactedAck c d
      else ackLater c d ACK_TYPE_DELIVERED
    else ret tt.

(** [submit(new AsyncMessageAckTask(ack, ...))] *)
Definition submit_ack c (a : MessageAck) : M W unit :=
  update_life c (fun l => set_executor (Some (default [] (executor l) ++ [a])) l).

Definition deliverAcks c : M W unit :=
  catch_amq
    (w <- get ;;
     let k := consumers w c in
     if deliveringAcks (acks k) then ret tt
     else
       update_acks c (set_deliveringAcks true) ;;;
       ack <-
         (if isAutoAcknowledgeEach c w then
            ack <- makeAckForAllDeliveredMessages c ACK_TYPE_CONSUMED ;;
            match ack with
            | Some a => update c (set_delivered []) ;;; update_acks c (set_ackCounter 0) ;;; ret (Some a)
            | None => update_acks c (set_pendingAck None) ;;; ret (pendingAck (acks k))
            end
          else match pendingAck (acks k) with
          | Some p => if isStandardAck p then update_acks c (set_pendingAck None) ;;; ret (Some p) else ret None
          | None => ret None
          end) ;;
       match ack with
       | Some a => submit_ack c a
       | None => update_acks c (set_deliveringAcks false)
       end).

(** [AsyncMessageAckTask::run]; what is neither an [Exception] nor a [CMSException] ends the
    thread's task without the store. *)
Definition run_ack_task c (a : MessageAck) : M W unit :=
  try_catch (fun e => is_decaf e || is_cms e)
    (sendAck a true ;;; update_acks c (set_deliveringAcks false))
    (fun _ => update_acks c (set_deliveringAcks false)).

(** The thread of the executor takes its next task. *)
Definition run_executor c : M W unit :=
  k <- self c ;;
  match executor (life k) with
  | Some (a :: l) => update_life c (set_executor (Some l)) ;;; run_ack_task c a
  | _ => ret tt
  end.

(** ** Commit and rollback *)

Definition consumer_start c : M W unit :=
  k <- self c ;;
  if isClosed (unconsumed k) then ret tt
  else
    update_life c (set_started true) ;;;
    update c (fun k => set_unconsumed (start (unconsumed k)) k) ;;;
    executor_wakeup.

Definition consumer_stop c : M W unit :=
  update_life c (set_started false) ;;;
  update c (fun k => set_unconsumed (stop (unconsumed k)) k).

Definition consumer_commit c : M W unit :=
  update c (set_delivered []) ;;;
  clearPreviouslyDelivered c ;;;
  update_redelivery c (set_redeliveryDelay 0).

(** [for (i = 0; i < deliveredMessages.size() && i < ackCounter; i++) removeLast()]: the
    list gets shorter as [i] grows. *)
Fixpoint rollback_optimized (fuel : nat) c (i : Z) : M W unit :=
  match fuel with
  | O => ret tt
  | S fuel' =>
      k <- self c ;;
      if (i <? zlen (delivered k)) && (i <? ackCounter (acks k)) then
        match List.rev (delivered k) with
        | [] => ret tt
        | d :: l => update c (set_delivered (List.rev l)) ;;; audit_rollback c d ;;; rollback_optimized fuel' c (i + 1)
        end
      else ret tt
  end.

Definition bump (d : MessageDispatch) : MessageDispatch :=
  mkMessageDispatch (address d) (consumerId d)
    (option_map (fun m => mkMessage (destination m) (messageId m) (messageId_address m) (redeliveryCounter m + 1)
       (expiration m) (priority m) (redeliveryDelay_property m)) (message d))
    (dispatch_redeliveryCounter d) (rollbackCause d).

Definition lift {B} (r : outcome B) : M W B := fun w => (r, w).

(** What becomes of the messages given back, newest first, the policy and the delay
    known: given up when the newest has come back too often, or delivered again. *)
Definition nack_delivered c (p : RedeliveryPolicy) (newest oldest : MessageDispatch) : M W unit :=
  m <- need_message newest ;;
  m' <- need_message oldest ;;
  k <- self c ;;
  let n := zlen (delivered k) in
  sendAck (ack_because (RedeliveryExceeds (maximumRedeliveries p) (rollbackCause newest))
             (ack_from (Some (messageId m')) (new_ack newest m ACK_TYPE_POISON n))) true ;;;
  update_acks c (fun a => set_additionalWindowSize (Z.max 0 (additionalWindowSize a - n)) a) ;;;
  update_redelivery c (set_redeliveryDelay 0) ;;;
  update_acks c (fun a => set_deliveredCounter (deliveredCounter a - n) a) ;;;
  update c (set_delivered []) ;;;
  if isClosed (unconsumed k) then ret tt
  else if nonBlockingRedelivery (options k) then
    (if isRunning (unconsumed k) then ret tt else update c (fun k => set_unconsumed (start (unconsumed k)) k))
  else consumer_start c.

Definition deliver_again c (currentRedeliveryCount : Z) (newest oldest : MessageDispatch) : M W unit :=
  m <- need_message newest ;;
  m' <- need_message oldest ;;
  k <- self c ;;
  let n := zlen (delivered k) in
  (if 0 <? currentRedeliveryCount
   then sendAck (ack_from (Some (messageId m')) (new_ack newest m ACK_TYPE_REDELIVERED n)) false
   else ret tt) ;;;
  if nonBlockingRedelivery (options k) then
    if isClosed (unconsumed k) then ret tt
    else
      w <- get ;;
      update_acks c (fun a => set_deliveredCounter (deliveredCounter a - n) a) ;;;
      update c (set_delivered []) ;;;
      (** without a consumer the task does nothing *)
      match lookupConsumerKernel c w with
      | Some _ => schedule (NonBlockingRedeliveryTask c (reverse (delivered k))) (current_redeliveryDelay (redelivery k))
      | None => ret tt
      end
  else
    update c (fun k => set_unconsumed (foldl (fun ch d => enqueueFirst d ch) (stop (unconsumed k)) (delivered k)) k) ;;;
    update_acks c (fun a => set_deliveredCounter (deliveredCounter a - n) a) ;;;
    update c (set_delivered []) ;;;
    if (0 <? current_redeliveryDelay (redelivery k)) && negb (isClosed (unconsumed k)) then
      w <- get ;;
      match lookupConsumerKernel c w with
      | Some _ => schedule (StartConsumerTask c) (current_redeliveryDelay (redelivery k))
      | None => throw NullPointerException
      end
    else consumer_start c.

(** The delay of this redelivery from that of the last one. *)
Definition next_delay c (p : RedeliveryPolicy) (currentRedeliveryCount : Z) : M W unit :=
  w <- get ;;
  d <- lift (if 0 <? currentRedeliveryCount
             then getNextRedeliveryDelay (draw w).1 (draw w).2 p (current_redeliveryDelay (redelivery (consumers w c)))
             else Ok (initialRedeliveryDelay p)) ;;
  update_redelivery c (set_redeliveryDelay d).

(** Whether the messages went back: with none delivered there is nothing to do. *)
Definition rollback_delivered c : M W bool :=
  rollbackPreviouslyDeliveredAndNotRedelivered c ;;;
  k <- self c ;;
  match delivered k with
  | [] => ret false
  | d :: _ =>
      m <- need_message d ;;
      match redeliveryPolicy (options k) with
      | None => undefined
      | Some p =>
          next_delay c p (redeliveryCounter m) ;;;
          let bumped := map bump (delivered k) in
          update c (set_delivered bumped) ;;;
          iter_m (audit_rollback c) bumped ;;;
          let newest := bump d in
          let oldest := List.last bumped newest in
          (if negb (maximumRedeliveries p =? NO_MAXIMUM_REDELIVERIES) && (maximumRedeliveries p <? redeliveryCounter m + 1)
           then nack_delivered c p newest oldest
           else deliver_again c (redeliveryCounter m) newest oldest) ;;;
          ret true
      end
  end.

Definition consumer_rollback c : M W unit :=
  clearDeliveredList c ;;;
  k <- self c ;;
  (if optimizeAcknowledge (acks k) && negb (browser (options k))
   then rollback_optimized (length (delivered k)) c 0 else ret tt) ;;;
  b <- rollback_delivered c ;;
  if b && listener (options k) then redispatch c else ret tt.

(** ** Messages in *)

(** The message for the application; there is no transformer. *)
Definition createCMSMessage d : M W (Message * AckHandler) :=
  m <- need_message d ;;
  w <- get ;;
  ret (m, if isClientAcknowledge w then ClientAckHandler
          else if isIndividualAcknowledge w then IndividualAckHandler d else NoOpAckHandler).

Definition inProgressClearRequired c : M W unit :=
  update_redelivery c (fun r => set_inProgressClearRequiredFlag (inProgressClearRequiredFlag r + 1) r) ;;;
  update_redelivery c (set_isClearDeliveredList true).

Definition clearMessagesInProgress c : M W unit :=
  k <- self c ;;
  if 0 <? inProgressClearRequiredFlag (redelivery k) then
    let '(l, ch) := removeAll (unconsumed k) in
    update c (set_unconsumed ch) ;;;
    (if browser (options k) then ret tt else iter_m (audit_rollback c) l) ;;;
    on_connection setTransportInterruptionProcessingComplete ;;;
    update_redelivery c (set_inProgressClearRequiredFlag 0) ;;;
    clearDeliveredList c
  else ret tt.

(** [setRollbackCause]: the dispatch that the application saw is the one in the list. *)
Definition set_rollbackCause (e : exn) d : MessageDispatch :=
  mkMessageDispatch (address d) (consumerId d) (message d) (dispatch_redeliveryCounter d) (Some e).
Definition note_cause c (e : exn) d : M W unit :=
  update c (fun k => set_delivered (map (fun x => if address x =? address d then set_rollbackCause e x else x) (delivered k)) k).

(** The listener is given the message; its IOException or RuntimeException sends the
    message back, or leaves it to be acknowledged by the application. *)
Definition deliver_to_listener c d : M W unit :=
  createCMSMessage d ;;;
  beforeMessageIsConsumed c d ;;;
  try_catch (fun e => is_io e || bool_decide (e = RuntimeException))
    (k <- self c ;;
     m <- need_message d ;;
     expired <- (if consumerExpiryCheckEnabled (options k) then isExpired m else ret false) ;;
     (if expired then ret tt else on_message c d) ;;;
     afterMessageIsConsumed c d expired)
    (fun e =>
       note_cause c e d ;;;
       w <- get ;;
       if isAutoAcknowledgeBatch c w || isAutoAcknowledgeEach c w || isIndividualAcknowledge w
       then consumer_rollback c
       else afterMessageIsConsumed c (set_rollbackCause e d) false).

(** A message that is no duplicate: to the listener of a running consumer, or to the
    channel. *)
Definition dispatch_new c d : M W unit :=
  k <- self c ;;
  if listener (options k) && isRunning (unconsumed k) then
    b <- redeliveryExceeded c d ;;
    if b then
      match redeliveryPolicy (options k) with
      | Some p => posionAck d (DispatchExceeds (maximumRedeliveries p))
      | None => undefined
      end
    else deliver_to_listener c d
  else
    (if isRunning (unconsumed k) then ret tt else audit_rollback c d) ;;;
    update c (fun k => set_unconsumed (enqueue d (unconsumed k)) k).

(** A duplicate pending in another transaction is dispatched again, once the audit has
    forgotten it. *)
Fixpoint dispatch_body (fuel : nat) c d : M W unit :=
  match fuel with
  | O => hang
  | S fuel' =>
      match message d with
      | None => throw StdException
      | Some m =>
          catch_amq
            (clearMessagesInProgress c ;;;
             clearDeliveredList c ;;;
             k <- self c ;;
             if isClosed (unconsumed k) then ret tt
             else
               duplicate <- (if browser (options k) then ret false else on_connection (isDuplicate c m)) ;;
               if negb duplicate then dispatch_new c d
               else
                 expected <- redeliveryExpectedInCurrentTransaction c d true ;;
                 if expected then
                   if transactedIndividualAck (options k) then immediateIndividualTransactedAck c d
                   else sendAck (new_ack d m ACK_TYPE_DELIVERED 1) false
                 else
                   competing <- redeliveryPendingInCompetingTransaction d ;;
                   if competing then on_connection (rollbackDuplicate c m) ;;; dispatch_body fuel' c d
                   else posionAck d DuplicateDelivery)
      end
  end.

(** The second call finds no duplicate where the audit has forgotten the message; where it
    has not, as on a connection that is closing, the code calls itself again and again,
    and the model hangs. *)
Definition dispatch c d : M W unit := dispatch_body 2 c d.

(** ** Receiving *)

Definition sendPullRequest c (timeout : Z) : M W unit :=
  catch_amq
    (clearDeliveredList c ;;;
     k <- self c ;;
     if negb (isEmpty (unconsumed k)) then ret tt
     else if prefetchSize (options k) =? 0 then session_oneway (CPull c timeout)
     else ret tt).

Definition on_channel {B} c (m : M C B) : M W B :=
  fun w => let '(r, ch) := m (unconsumed (consumers w c)) in (r, set_consumer c (set_unconsumed ch (consumers w c)) w).

(** What is left of the timeout, if there is one. *)
Definition remaining (deadline timeout : Z) : M W Z :=
  if 0 <? timeout then t <- now ;; ret (Z.max (deadline - t) 0) else ret timeout.

(** [while (true)]: a round for each wait, [envs] saying what others do to the channel
    during each. *)
Fixpoint dequeue_rounds c (deadline timeout : Z) (envs : list (list (C -> C))) : M W (option MessageDispatch) :=
  match envs with
  | [] => hang
  | env :: envs' =>
      d <- on_channel c (DispatchChannel.dequeue timeout env) ;;
      k <- self c ;;
      match d with
      | None =>
          if (0 <? timeout) && negb (isClosed (unconsumed k)) then
            t <- remaining deadline timeout ;; dequeue_rounds c deadline t envs'
          else if failureError (life k) then throw CMSException else ret None
      | Some d =>
          match message d with
          | None => ret None
          | Some _ =>
              expired <- consumeExpiredMessage c d ;;
              if expired then
                beforeMessageIsConsumed c d ;;;
                afterMessageIsConsumed c d true ;;;
                t <- remaining deadline timeout ;;
                sendPullRequest c t ;;;
                dequeue_rounds c deadline t envs'
              else
                exceeded <- redeliveryExceeded c d ;;
                if exceeded then
                  match redeliveryPolicy (options k) with
                  | Some p => posionAck d (DispatchExceeds (maximumRedeliveries p))
                  | None => undefined
                  end ;;;
                  t <- remaining deadline timeout ;;
                  sendPullRequest c t ;;;
                  dequeue_rounds c deadline t envs'
                else ret (Some d)
          end
      end
  end.

Definition consumer_dequeue c (timeout : Z) (envs : list (list (C -> C))) : M W (option MessageDispatch) :=
  catch_cms
    (deadline <- (if 0 <? timeout then t <- now ;; ret (t + timeout) else ret 0) ;;
     dequeue_rounds c deadline timeout envs).

Definition consumer_checkClosed c : M W unit :=
  k <- self c ;; if isClosed (unconsumed k) then throw CMSIllegalStateException else ret tt.
Definition session_checkMessageListener : M W unit :=
  with_readLock
    (w <- get ;;
     if existsb (fun c => listener (options (consumers w c))) (consumerIds w) then throw CMSIllegalStateException else ret tt).
Definition checkMessageListener c : M W unit :=
  k <- self c ;; if listener (options k) then throw CMSIllegalStateException else session_checkMessageListener.

(** A message taken from the channel, and what is said of it to the broker. *)
Definition consume c (taken : option MessageDispatch) : M W (option (Message * AckHandler)) :=
  match taken with
  | None => ret None
  | Some d =>
      beforeMessageIsConsumed c d ;;;
      afterMessageIsConsumed c d false ;;;
      m <- createCMSMessage d ;; ret (Some m)
  end.

Definition receive c (envs : list (list (C -> C))) : M W (option (Message * AckHandler)) :=
  catch_cms
    (consumer_checkClosed c ;;; checkMessageListener c ;;; sendPullRequest c 0 ;;;
     d <- consumer_dequeue c (-1) envs ;; consume c d).

Definition receive_for c (timeout : Z) (envs : list (list (C -> C))) : M W (option (Message * AckHandler)) :=
  catch_cms
    (consumer_checkClosed c ;;; checkMessageListener c ;;;
     if timeout =? 0 then receive c envs
     else sendPullRequest c timeout ;;; d <- consumer_dequeue c timeout envs ;; consume c d).

Definition receiveNoWait c (envs : list (list (C -> C))) : M W (option (Message * AckHandler)) :=
  catch_cms
    (consumer_checkClosed c ;;; checkMessageListener c ;;; sendPullRequest c (-1) ;;;
     d <- consumer_dequeue c 0 envs ;; consume c d).

(** [iterate]: the next message to the listener. *)
Definition consumer_iterate c : M W bool :=
  k <- self c ;;
  if listener (options k) then
    let '(d, ch) := dequeueNoWait (unconsumed k) in
    update c (set_unconsumed ch) ;;;
    match d with Some d => dispatch c d ;;; ret true | None => ret false end
  else ret false.

(** ** Closing *)

(** [removeConsumer] of the session; the table of the connection's dispatchers is not
    part of the state. *)
Definition removeConsumer c : M W unit :=
  catch_amq
    (w <- get ;;
     with_writeLock
       (modify (fun w => set_consumerIds (List.filter (fun c' => negb (c' =? c)) (consumerIds w)) w) ;;;
        if connection_closed (connection w) then ret tt else on_connection (removeAuditedDispatcher c))).

(** [executor->shutdown()] and [awaitTermination]: the thread runs what it was given. *)
Fixpoint drain_executor (fuel : nat) c : M W unit :=
  match fuel with
  | O => ret tt
  | Datatypes.S fuel' => run_executor c ;;; drain_executor fuel' c
  end.
Definition shutdown_executor c : M W unit :=
  k <- self c ;;
  match executor (life k) with
  | None => ret tt
  | Some l => drain_executor (length l) c ;;; update_life c (set_executor None)
  end.

Definition cancel_optimizedAckTask c : M W unit :=
  modify (fun w => set_scheduled
    (List.filter (fun t => match t.2 with OptimizedAckTask c' => negb (c' =? c) | _ => true end) (scheduled w)) w).

Definition dispose_open c : M W unit :=
  w <- get ;;
  (if isTransacted w then ret tt
   else deliverAcks c ;;; (if isAutoAcknowledgeBatch c w then acknowledge c else ret tt)) ;;;
  update_life c (set_started false) ;;;
  shutdown_executor c ;;;
  cancel_optimizedAckTask c ;;;
  k <- self c ;;
  (if (isClientAcknowledge w || isIndividualAcknowledge w) && negb (browser (options k)) && negb (connection_closed (connection w))
   then iter_m (audit_rollback c) (delivered k) else ret tt) ;;;
  w <- get ;;
  (if isTransacted w then ret tt else update c (set_delivered [])) ;;;
  update c (fun k => set_unconsumed (close (unconsumed k)) k) ;;;
  removeConsumer c ;;;
  k <- self c ;;
  let '(l, ch) := removeAll (unconsumed k) in
  update c (set_unconsumed ch) ;;;
  if browser (options k) then ret tt else iter_m (audit_rollback c) l.

Definition dispose c : M W unit :=
  catch_amq
    (k <- self c ;;
     if disposing (life k) then ret tt
     else
       update_life c (set_disposing true) ;;;
       if isClosed (unconsumed k) then ret tt else dispose_open c).

Definition consumer_doClose c : M W unit :=
  catch_amq
    (dispose c ;;;
     k <- self c ;;
     session_oneway (CRemoveConsumer c (lastDeliveredSequenceId (life k)))).

(** A consumer with messages of an open transaction is closed when the transaction
    ends. *)
Definition consumer_close c : M W unit :=
  catch_cms
    (w <- get ;;
     let k := consumers w c in
     if isClosed (unconsumed k) then ret tt
     else if negb (bool_decide (delivered k = [])) && isInTransaction w && negb (closeSyncRegistered (life k)) then
       update_life c (set_closeSyncRegistered true) ;;;
       add_synchronization c (CloseSynchronization c)
     else consumer_doClose c).

(** ** The prefetch size *)

(** [setPrefetchSize] sends what is pending and sets the current prefetch size, which
    the acknowledgements do not look at. *)
Definition setPrefetchSize c (n : Z) : M W unit := deliverAcks c.

Definition set_optimize (b : bool) (a : Acks) : Acks :=
  mkAcks (pendingAck a) (deliveredCounter a) (additionalWindowSize a) (ackCounter a) (deliveringAcks a) b (optimizeAckTimestamp a).
Definition setOptimizeAcknowledge c (b : bool) : M W unit :=
  k <- self c ;;
  (if optimizeAcknowledge (acks k) && negb b then deliverAcks c else ret tt) ;;;
  update_acks c (set_optimize b).
End consumer_kernel.

(** ** The constructor's options *)

(** What the connection is configured with, and what the options of the destination
    say. *)
Record ConnectionOptions : Type := mkConnectionOptions {
  co_nonBlockingRedelivery : bool;
  co_transactedIndividualAck : bool;
  co_messagePrioritySupported : bool;
  co_consumerExpiryCheckEnabled : bool;
  co_failoverRedeliveryWaitPeriod : Z;
  co_optimizeAcknowledge : bool;
  co_optimizeAcknowledgeTimeOut : Z;
  co_redeliveryPolicy : RedeliveryPolicy;
}.
Record DestinationOptions : Type := mkDestinationOptions {
  do_nonBlockingRedelivery : bool;
  do_transactedIndividualAck : bool;
  do_consumerExpiryCheckEnabled : bool;
  do_prefetchSize : option Z;
}.

(** [applyDestinationOptions] on what is kept here. *)
Definition applyDestinationOptions (d : DestinationOptions) (o : Options) : Options :=
  mkOptions (default (prefetchSize o) (do_prefetchSize d)) (browser o) (destination_queue o) (do_transactedIndividualAck d)
    (do_nonBlockingRedelivery d) (do_consumerExpiryCheckEnabled d) (optimizeAcknowledgeTimeOut o)
    (failoverRedeliveryWaitPeriod o) (redeliveryPolicy o) (listener o).

(** The options of a new consumer and whether it optimizes its acknowledgements, as the
    constructor computes them, step by step. *)
Definition consumer_options (co : ConnectionOptions) (d : DestinationOptions) (mode : AcknowledgeMode)
    (prefetch : Z) (is_browser is_queue has_listener : bool) : outcome (Options * bool) :=
  if prefetch <? 0 then Throw CMSException
  else if has_listener && (prefetch =? 0) then Throw CMSException
  else
    let o := applyDestinationOptions d
      (mkOptions prefetch is_browser is_queue false false true 0 0 (Some (co_redeliveryPolicy co)) has_listener) in
    let optimize := co_optimizeAcknowledge co && bool_decide (mode = AUTO_ACKNOWLEDGE) && negb is_browser in
    let o :=
      mkOptions (prefetchSize o) is_browser is_queue
        (co_transactedIndividualAck co || co_nonBlockingRedelivery co || co_messagePrioritySupported co)
        (co_nonBlockingRedelivery co) (co_consumerExpiryCheckEnabled co)
        (if optimize then co_optimizeAcknowledgeTimeOut co else optimizeAcknowledgeTimeOut o)
        (co_failoverRedeliveryWaitPeriod co) (redeliveryPolicy o) (listener o) in
    if prefetchSize o <? 0 then Throw IllegalArgumentException else Ok (o, optimize).
