(* ===== verification/SessionKernel.v ===== *)
(** * ActiveMQSessionKernel and ActiveMQSessionExecutor (activemq/core): a session, its
    consumers and its transaction together.

    The synchronizations a consumer or a session registers with the transaction are
    given their callbacks here; what the scheduler and the task runner run are
    operations of their own. Producers are left out. *)
From S2P Require Import Prelude Floating Commands DispatchChannel RedeliveryPolicy TransactionContext SessionState ConsumerKernel.

Section session_kernel.
Context {C A : Type} `{CHANNEL : MessageDispatchChannel C MessageDispatch} `{AUDIT : Audit A}.
Context (on_message : Z -> MessageDispatch -> M (World C A) unit) (draw : World C A -> bool * double).

Abbreviation W := (World C A).
Implicit Types (c : Z) (w : W) (d : MessageDispatch).

(** ** ActiveMQSessionExecutor *)

(** [catch (...)] without a throw. *)
Definition swallow {B} (b : B) (m : M W B) : M W B := try_catch (fun _ => true) m (fun _ => ret b).

Definition executor_dispatch d : M W unit :=
  swallow tt
    (w <- get ;;
     match lookupConsumerKernel (consumerId d) w with
     | Some c => dispatch on_message draw c d
     | None => ret tt
     end).

Definition execute d : M W unit :=
  w <- get ;;
  if sessionAsyncDispatch (session w) then
    modify (fun w => set_queue (enqueue d (queue w)) (taskRunner w) w) ;;; executor_wakeup
  else executor_dispatch d.

Fixpoint iterate_first (l : list Z) : M W bool :=
  match l with
  | [] => ret false
  | c :: l' => b <- consumer_iterate on_message draw c ;; if b then ret true else iterate_first l'
  end.
Definition iterateConsumers : M W bool :=
  w <- get ;;
  if session_closed (session w) then ret false else with_readLock (iterate_first (consumerIds w)).

(** One step of the task runner: whether there is more to do. An exception is handed to
    the exception listener. *)
Definition executor_iterate : M W bool :=
  swallow true
    (b <- iterateConsumers ;;
     if b then ret true
     else
       w <- get ;;
       let '(d, q) := dequeueNoWait (queue w) in
       modify (set_queue q (taskRunner w)) ;;;
       match d with
       | None => ret false
       | Some d => executor_dispatch d ;;; w <- get ;; ret (negb (isEmpty (queue w)))
       end).

Definition executor_start : M W unit :=
  w <- get ;;
  if isRunning (queue w) then ret tt
  else
    let q := start (queue w) in
    modify (set_queue q (taskRunner w)) ;;;
    if negb (isClosed q) && isRunning q && negb (isEmpty q) then executor_wakeup else ret tt.

Definition executor_stop : M W unit :=
  w <- get ;; if isRunning (queue w) then modify (set_queue (stop (queue w)) false) else ret tt.

(** ** The session's own operations *)

Definition session_dispatch d : M W unit := execute d.

(** Every consumer in turn, under the read lock. *)
Definition for_consumers (f : Z -> M W unit) : M W unit :=
  with_readLock (w <- get ;; iter_m f (consumerIds w)).

Definition session_start : M W unit := for_consumers consumer_start ;;; executor_start.
Definition session_stop : M W unit := for_consumers consumer_stop ;;; executor_stop.
Definition session_acknowledge : M W unit := for_consumers acknowledge.
Definition session_deliverAcks : M W unit := for_consumers deliverAcks.

Definition session_recover : M W unit :=
  catch_cms
    (session_checkClosed ;;;
     w <- get ;;
     if isTransacted w then throw CMSIllegalStateException else for_consumers (consumer_rollback draw)).

(** The transport was interrupted: what the consumers hold is to be cleared. *)
Definition session_clearMessagesInProgress : M W unit :=
  modify (fun w => set_queue (clear (queue w)) (taskRunner w) w) ;;;
  for_consumers (fun c =>
    inProgressClearRequired c ;;;
    on_connection (modify (fun n => set_interruptions (interruptions n + 1) n)) ;;;
    schedule (ClearConsumerTask c) 0).

Definition session_setPrefetchSize (id n : Z) : M W unit :=
  for_consumers (fun c => if c =? id then setPrefetchSize c n else ret tt).

(** [close(ConsumerId)]: under the read lock. *)
Definition session_close_consumer (id : Z) : M W unit :=
  for_consumers (fun c => if c =? id then try_catch is_cms (consumer_close c) (fun _ => ret tt) else ret tt).

Definition addConsumer c (k : Consumer C) : M W unit :=
  catch_amq
    (session_checkClosed ;;;
     with_writeLock (modify (fun w => set_consumerIds (consumerIds w ++ [c]) (set_consumer c k w)))).

(** [setMessageListener] of the consumer, its prefetch being above zero. *)
Definition set_listener (b : bool) (o : Options) : Options :=
  mkOptions (prefetchSize o) (browser o) (destination_queue o) (transactedIndividualAck o) (nonBlockingRedelivery o)
    (consumerExpiryCheckEnabled o) (optimizeAcknowledgeTimeOut o) (failoverRedeliveryWaitPeriod o) (redeliveryPolicy o) b.
Definition update_options c (f : Options -> Options) : M W unit :=
  update c (fun k => mkConsumer (f (options k)) (unconsumed k) (delivered k) (acks k) (redelivery k) (life k)).
Definition setMessageListener c (present : bool) : M W unit :=
  catch_cms
    (consumer_checkClosed c ;;;
     w <- get ;;
     if (prefetchSize (options (consumers w c)) =? 0) && present then throw ActiveMQException
     else if present then
       let wasStarted := isRunning (queue w) in
       (if wasStarted then session_stop else ret tt) ;;;
       update_options c (set_listener true) ;;;
       redispatch c ;;;
       (if wasStarted then session_start else ret tt)
     else update_options c (set_listener false)).

(** [dispose], given the rollback of the transaction. A consumer whose disposal throws a
    cms exception is passed over. *)
Definition dispose_consumer c : M W unit :=
  try_catch is_cms
    (w <- get ;;
     (if transportFailed (connection w) then update_life c (set_failureError true) else ret tt) ;;;
     dispose c ;;;
     k <- self c ;;
     update_session (fun s => set_session_lastDelivered (Z.max (session_lastDelivered s) (lastDeliveredSequenceId (life k))) s))
    (fun _ => ret tt).

Definition session_dispose (tx_rollback : M W unit) : M W unit :=
  w <- get ;;
  if session_closed (session w) then ret tt
  else
    update_session (set_session_closed true) ;;;
    catch_amq
      (session_stop ;;;
       with_writeLock (w <- get ;; iter_m dispose_consumer (consumerIds w) ;;; modify (set_consumerIds [])) ;;;
       w <- get ;;
       if isInTransaction w then tx_rollback else ret tt).

Definition session_doClose (tx_rollback : M W unit) : M W unit :=
  catch_amq
    (session_dispose tx_rollback ;;;
     w <- get ;;
     on_connection (connection_oneway (CRemoveSession (session_lastDelivered (session w))))).

(** ** The synchronizations *)

Definition setSynchronizationRegistered c (b : bool) : M W unit := update_life c (set_registered b).

Definition transaction_beforeEnd c : M W unit :=
  k <- self c ;;
  (if transactedIndividualAck (options k)
   then clearDeliveredList c ;;; waitForRedeliveries c ;;; rollbackOnFailedRecoveryRedelivery c
   else acknowledge c) ;;;
  setSynchronizationRegistered c false.

Definition callbacks (tx_rollback : M W unit) : Synchronization W Synchronizer := {|
  sync_beforeEnd s := match s with TransactionSynchronization c => transaction_beforeEnd c | _ => ret tt end;
  sync_afterCommit s :=
    match s with
    | TransactionSynchronization c => consumer_commit c ;;; setSynchronizationRegistered c false
    | CloseSynchronization c => consumer_doClose c
    | SessionCloseSynchronization => session_doClose tx_rollback ;;; update_session (set_closeSyncFlag false)
    end;
  sync_afterRollback s :=
    match s with
    | TransactionSynchronization c => consumer_rollback draw c ;;; setSynchronizationRegistered c false
    | CloseSynchronization c => consumer_doClose c
    | SessionCloseSynchronization => session_doClose tx_rollback ;;; update_session (set_closeSyncFlag false)
    end;
|}.

(** A rollback may close the session, which rolls back what is open then; a closed
    session is not closed again. *)
Fixpoint nested (fuel : nat) : Synchronization W Synchronizer :=
  callbacks (match fuel with O => hang | S fuel' => @rollback W Synchronizer World_host (nested fuel') end).
#[export] Instance World_synchronization : Synchronization W Synchronizer := nested 2.

(** ** Commit, rollback, close *)

Definition session_commit : M W unit :=
  catch_cms
    (session_checkClosed ;;;
     w <- get ;;
     if isTransacted w then TransactionContext.commit else throw ActiveMQException).
Definition session_rollback : M W unit :=
  catch_cms
    (session_checkClosed ;;;
     w <- get ;;
     if isTransacted w then TransactionContext.rollback else throw ActiveMQException).

(** In an XA transaction the synchronization is registered if the flag was set before, and
    the flag is set if it was not. *)
Definition session_close : M W unit :=
  w <- get ;;
  if session_closed (session w) then ret tt
  else
    catch_cms
      (if isInXATransaction w then
         if closeSyncFlag (session w) then a <- allocate ;; addSynchronization (a, SessionCloseSynchronization)
         else update_session (set_closeSyncFlag true)
       else session_doClose TransactionContext.rollback).

(** ** What the scheduler runs *)

Fixpoint redeliver c (l : list MessageDispatch) : M W unit :=
  match l with
  | [] => ret tt
  | d :: l' =>
      k <- self c ;;
      if isClosed (unconsumed k) then ret tt else session_dispatch d ;;; redeliver c l'
  end.

Definition run_task (t : Task) : M W unit :=
  match t with
  | StartConsumerTask c =>
      k <- self c ;; if isClosed (unconsumed k) then ret tt else consumer_start c
  | NonBlockingRedeliveryTask c l => try_catch is_decaf (redeliver c l) (fun _ => ret tt)
  | ClearConsumerTask c => clearMessagesInProgress c
  | OptimizedAckTask c =>
      k <- self c ;;
      if optimizeAcknowledge (acks k) && negb (isClosed (unconsumed k))
      then try_catch is_decaf (deliverAcks c) (fun _ => ret tt) else ret tt
  end.

(** The scheduler takes the first task of its list whose time has come, [n] being its
    place; a periodic task stays. *)
Definition run_scheduled (n : nat) : M W unit :=
  w <- get ;;
  match scheduled w !! n with
  | None => ret tt
  | Some (_, t) =>
      match t with
      | OptimizedAckTask _ => ret tt
      | _ => modify (set_scheduled (take n (scheduled w) ++ drop (S n) (scheduled w)))
      end ;;;
      run_task t
  end.
End session_kernel.
