(* ===== verification/SessionSamples.v ===== *)
(** * Sample sessions: concrete states of SessionState.v for the witnesses and the
    scenarios of the files after this one. The duplicate detection is the plain one: the
    set of the messages seen. *)
From S2P Require Import Prelude Floating Commands DispatchChannel RedeliveryPolicy TransactionContext SessionState ConsumerKernel SessionKernel.

(** What a duplicate detection is to do, without bounds: the ids seen and not taken
    back. *)
#[export] Instance Plain_audit : Audit (list MessageId) := {
  audit_isDuplicate _ m a := (bool_decide (messageId m ∈ a), if decide (messageId m ∈ a) then a else messageId m :: a);
  audit_rollbackDuplicate _ m a := List.filter (fun i => negb (bool_decide (i = messageId m))) a;
  audit_removeDispatcher _ a := a;
}.

Abbreviation SampleWorld := (World (Fifo MessageDispatch) (list MessageId)).

(** The message [n] for the consumer [c]. *)
Definition sample_id (n : Z) : MessageId := mkMessageId [] (Some (mkProducerId [1] 1 1)) n n.
Definition sample_dispatch (c n : Z) : MessageDispatch :=
  mkMessageDispatch (1000 + n) c (Some (mkMessage (Some (true, [113])) (sample_id n) (2000 + n) 0 0 4 (Some false))) 0 None.

Definition sample_policy (redeliveries delay : Z) : RedeliveryPolicy := {|
  backOffMultiplier := double_of 5; collisionAvoidanceFactor := double_of 0; initialRedeliveryDelay := delay;
  maximumRedeliveries := redeliveries; useCollisionAvoidance := false; useExponentialBackOff := false;
  redeliveryDelay := delay; maximumRedeliveryDelay := -1 |}.

Definition sample_options (prefetch : Z) (is_queue : bool) : Options :=
  mkOptions prefetch false is_queue false false true 0 0 (Some (sample_policy 6 0)) false.

(** A started consumer with the messages [ns] waiting. *)
Definition sample_consumer (c prefetch : Z) (is_queue : bool) (ns : list Z) : Consumer (Fifo MessageDispatch) :=
  mkConsumer (sample_options prefetch is_queue) (mkFifo false true (map (sample_dispatch c) ns)) []
    (mkAcks None 0 0 0 false false 0) (mkRedelivery 0 None false 0) (mkLife true false false false (-1) None false).

(** A started session with the consumers [ids]. *)
Definition sample_world (mode : AcknowledgeMode) (ids : list Z) (k : Z -> Consumer (Fifo MessageDispatch)) (network : list reply) : SampleWorld :=
  mkWorld (mkSession mode false true false (-2) 0) k ids (mkTxContext None None []) (mkFifo false true []) false
    (mkConnection false false false false true true [] [] network 0 0) [] [100] (fun n => 3000 + n) 0.

Definition quiet (c : Z) (d : MessageDispatch) : M SampleWorld unit := ret tt.
Definition no_draw (w : SampleWorld) : bool * double := (false, double_of 0).
