(* ===== verification/SessionTransactions.v ===== *)
(** * The transactions of a session (activemq/core/kernels): what every operation of a
    session and of its consumers keeps.

    A predicate that depends on the log of transactions, the open transaction and the
    acknowledge mode only ([frame]), and that starting a transaction keeps, is kept by
    every operation. Two such predicates give the theorem: [tx_invariant] for a session
    that starts local transactions, and the absence of local transactions for the
    others. *)
From S2P Require Import Prelude Floating Commands DispatchChannel RedeliveryPolicy TransactionContext SessionState ConsumerKernel SessionKernel SessionSamples.

Section frame.
Context {C A : Type}.
Implicit Types (w : World C A).

(** What the predicates look at. *)
Record frame w w' : Prop := {
  frame_log : transactions_of (wire (connection w')) = transactions_of (wire (connection w));
  frame_ids : localTransactionIds (connection w') = localTransactionIds (connection w);
  frame_open : transactionId (transaction w') = transactionId (transaction w);
  frame_mode : ackMode (session w') = ackMode (session w);
}.

#[export] Instance frame_refl : Reflexive frame.
Proof. by split. Qed.
#[export] Instance frame_trans : Transitive frame.
Proof. intros w1 w2 w3 [] []. split; congruence. Qed.

(** A computation that keeps the frame however it ends. *)
Definition framed {B} (m : M (World C A) B) : Prop := forall w, frame w (m w).2.

Lemma framed_keeps {B} (m : M (World C A) B) : framed m <-> forall w0, keeps (frame w0) m.
Proof. split; [intros Hm w0 w Hw; by rewrite Hw|intros Hm w; by apply Hm]. Qed.
End frame.

Create HintDb framed.

Section kept.
Context {C A : Type} `{CHANNEL : MessageDispatchChannel C MessageDispatch} `{AUDIT : Audit A}.
Context (P : World C A -> Prop) (P_frame : forall w w', frame w w' -> P w -> P w').
Context (P_begin : keeps P doStartTransaction).
Context (on_message : Z -> MessageDispatch -> M (World C A) unit) (draw : World C A -> bool * double).
Context (P_message : forall c d, keeps P (on_message c d)).
Abbreviation W := (World C A).

Lemma keeps_framed {B} (m : M W B) : framed m -> keeps P m.
Proof. intros Hm w. by apply P_frame. Qed.

Lemma keeps_modify_frame f : (forall w, frame w (f w)) -> keeps P (modify f).
Proof. intros Hf w. by apply P_frame. Qed.

Lemma keeps_self c : keeps P (self c).
Proof. by intros w. Qed.
Lemma keeps_update c f : keeps P (update c f).
Proof. by apply keeps_modify_frame. Qed.
Lemma keeps_update_acks c f : keeps P (update_acks c f).
Proof. apply keeps_update. Qed.
Lemma keeps_update_redelivery c f : keeps P (update_redelivery c f).
Proof. apply keeps_update. Qed.
Lemma keeps_update_life c f : keeps P (update_life c f).
Proof. apply keeps_update. Qed.

Lemma keeps_on_connection {B} (m : M (Connection A) B) :
  (forall n, transactions_of (wire (m n).2) = transactions_of (wire n) /\ localTransactionIds (m n).2 = localTransactionIds n) ->
  keeps P (on_connection m).
Proof.
  intros Hm. apply keeps_framed. intros w. unfold on_connection. destruct (Hm (connection w)) as [E1 E2].
  destruct (m (connection w)) as [r n]. by split.
Qed.

(** Commands that are not of transactions. *)
Lemma sends_frame {B} c (m : M (Connection A) B) : transactions_of [c] = [] -> (forall n, sends c (m n) n) ->
  keeps P (on_connection m).
Proof.
  intros Hc Hm. apply keeps_on_connection. intros n. destruct (Hm n) as [(l & t & E & Hl) _]. rewrite E. split; [|done]. cbn.
  assert (l = wire n \/ l = wire n ++ [c]) as [-> | ->] by (destruct (m n).1; auto); [done|].
  unfold transactions_of in *. by rewrite omap_app, Hc, app_nil_r.
Qed.
Lemma keeps_oneway c : transactions_of [c] = [] -> keeps P (on_connection (connection_oneway c)).
Proof. intros Hc. by apply (sends_frame c); [|apply oneway_sends]. Qed.
Lemma keeps_syncRequest c : transactions_of [c] = [] -> keeps P (on_connection (connection_syncRequest c)).
Proof. intros Hc. by apply (sends_frame c); [|apply syncRequest_sends]. Qed.

Lemma keeps_rollbackDuplicate c m : keeps P (on_connection (rollbackDuplicate c m)).
Proof. apply keeps_on_connection. intros n. unfold rollbackDuplicate, bind, get. by destruct (_ || _). Qed.
Lemma keeps_isDuplicate c m : keeps P (on_connection (isDuplicate c m)).
Proof.
  apply keeps_on_connection. intros n. unfold isDuplicate, bind, get. destruct (checkForDuplicates n); [|done].
  by destruct (audit_isDuplicate c m (audit n)).
Qed.
Lemma keeps_removeAudited c : keeps P (on_connection (removeAuditedDispatcher c)).
Proof. apply keeps_on_connection. intros n. unfold removeAuditedDispatcher, bind, get. by destruct (_ || _). Qed.
Lemma keeps_interruption f : keeps P (on_connection (modify (fun n => set_interruptions (f n) n))).
Proof. by apply keeps_on_connection. Qed.

Lemma keeps_now : keeps P now.
Proof. apply keeps_read. intros w Hw. destruct (clock w) as [|t [|t' l]]; try done. by eapply P_frame; [|exact Hw]. Qed.
Lemma keeps_lift {B} (r : outcome B) : keeps P (lift r).
Proof. by intros w. Qed.
Lemma keeps_on_channel {B} c (m : M C B) : keeps P (on_channel c m).
Proof. apply keeps_framed. intros w. unfold on_channel. by destruct (m _) as [r ch]. Qed.
Lemma keeps_add_synchronization c s : keeps P (add_synchronization c s).
Proof.
  apply keeps_framed. intros w. unfold add_synchronization, bind, get. destruct (lookupConsumerKernel c w); [|done].
  by split.
Qed.
Lemma keeps_readLock {B} (m : M W B) : keeps P m -> keeps P (with_readLock m).
Proof.
  intros Hm. unfold with_readLock. apply keeps_bind; [by apply keeps_modify_frame|]. intros _ w Hw. specialize (Hm w Hw).
  destruct (m w) as [[b|e| |] w']; cbn in *; try done; [by eapply P_frame; [|exact Hm]|].
  destruct (is_decaf e); [by eapply P_frame; [|exact Hm]|done].
Qed.
Lemma keeps_writeLock {B} (m : M W B) : keeps P m -> keeps P (with_writeLock m).
Proof. intros Hm. unfold with_writeLock. keeps. Qed.
Lemma keeps_update_session f : (forall s, ackMode (f s) = ackMode s) -> keeps P (update_session f).
Proof. intros Hf. apply keeps_modify_frame. intros w. split; [done..|apply Hf]. Qed.
Hint Resolve keeps_self keeps_update keeps_update_acks keeps_update_redelivery keeps_update_life
  keeps_oneway keeps_syncRequest keeps_rollbackDuplicate keeps_isDuplicate keeps_removeAudited keeps_interruption
  keeps_now keeps_lift keeps_on_channel keeps_add_synchronization keeps_update_session keeps_readLock keeps_writeLock
  P_begin P_message : keeps.
Hint Extern 0 (transactions_of [_] = []) => reflexivity : keeps.
Hint Extern 0 (forall s : Session, ackMode _ = ackMode s) => reflexivity : keeps.

(** A step that changes nothing the frame looks at. *)
Ltac step := try solve [apply keeps_modify_frame; intros; by split].

(** *** The consumer *)

Lemma keeps_need_message d : keeps P (need_message (C := C) (A := A) d).
Proof. unfold need_message. keeps. Qed.
Hint Resolve keeps_need_message : keeps.
Lemma keeps_audit_rollback c d : keeps P (audit_rollback c d).
Proof. unfold audit_rollback. keeps. Qed.
Lemma keeps_sendAck a b : keeps P (sendAck a b).
Proof. unfold sendAck. keeps. Qed.
Lemma keeps_session_oneway c : transactions_of [c] = [] -> keeps P (session_oneway c).
Proof. intros. unfold session_oneway, catch_amq. keeps. Qed.
Lemma keeps_session_syncRequest c : transactions_of [c] = [] -> keeps P (session_syncRequest c).
Proof. intros. unfold session_syncRequest, session_checkClosed, catch_amq. keeps. Qed.
Lemma keeps_executor_wakeup : keeps P executor_wakeup.
Proof. unfold executor_wakeup. keeps; step. Qed.
Hint Resolve keeps_audit_rollback keeps_sendAck keeps_session_oneway keeps_session_syncRequest keeps_executor_wakeup : keeps.
Lemma keeps_executeFirst d : keeps P (executeFirst d).
Proof. unfold executeFirst. keeps; step. Qed.
Hint Resolve keeps_executeFirst : keeps.
Lemma keeps_redispatch c : keeps P (redispatch c).
Proof. unfold redispatch. keeps. Qed.
Lemma keeps_schedule t n : keeps P (schedule t n).
Proof. unfold schedule. step. Qed.
Hint Resolve keeps_redispatch keeps_schedule : keeps.

Lemma keeps_clearDeliveredList c : keeps P (clearDeliveredList c).
Proof. unfold clearDeliveredList, put_delivered. keeps. Qed.
Lemma keeps_wait_rounds n c e : keeps P (wait_rounds n c e).
Proof. induction n; cbn [wait_rounds]; keeps. Qed.
Hint Resolve keeps_clearDeliveredList keeps_wait_rounds : keeps.
Lemma keeps_waitForRedeliveries c : keeps P (waitForRedeliveries c).
Proof. unfold waitForRedeliveries. keeps. Qed.
Lemma keeps_rollbackOnFailed c : keeps P (rollbackOnFailedRecoveryRedelivery c).
Proof. unfold rollbackOnFailedRecoveryRedelivery. keeps. Qed.
Lemma keeps_removeFromDelivered c key : keeps P (removeFromDeliveredMessages c key).
Proof. unfold removeFromDeliveredMessages. keeps. Qed.
Hint Resolve keeps_waitForRedeliveries keeps_rollbackOnFailed keeps_removeFromDelivered : keeps.
Lemma keeps_registerSync c : keeps P (registerSync c).
Proof. unfold registerSync. keeps. Qed.
Hint Resolve keeps_registerSync : keeps.
Lemma keeps_immediate c d : keeps P (immediateIndividualTransactedAck c d).
Proof. unfold immediateIndividualTransactedAck. keeps. Qed.
Lemma keeps_ackLater c d t : keeps P (ackLater c d t).
Proof. unfold ackLater, count_pending, tag_pending, send_window. keeps. Qed.
Lemma keeps_makeAck c t : keeps P (makeAckForAllDeliveredMessages c t).
Proof. unfold makeAckForAllDeliveredMessages. keeps. Qed.
Hint Resolve keeps_immediate keeps_ackLater keeps_makeAck : keeps.
Lemma keeps_acknowledge_dispatch c d t : keeps P (acknowledge_dispatch c d t).
Proof. unfold acknowledge_dispatch, catch_cms. keeps. Qed.
Lemma keeps_acknowledge c : keeps P (acknowledge c).
Proof. unfold acknowledge, catch_cms. keeps. Qed.
Lemma keeps_ack_each c : keeps P (ack_each c).
Proof. unfold ack_each, isTimeForOptimizedAck. keeps. Qed.
Hint Resolve keeps_acknowledge_dispatch keeps_acknowledge keeps_ack_each : keeps.
Lemma keeps_after c d b : keeps P (afterMessageIsConsumed c d b).
Proof. unfold afterMessageIsConsumed, catch_amq. keeps. Qed.
Lemma keeps_before c d : keeps P (beforeMessageIsConsumed c d).
Proof. unfold beforeMessageIsConsumed. keeps. Qed.
Lemma keeps_deliverAcks c : keeps P (deliverAcks c).
Proof. unfold deliverAcks, submit_ack, catch_amq. keeps. Qed.
Lemma keeps_run_executor c : keeps P (run_executor c).
Proof. unfold run_executor, run_ack_task. keeps. Qed.
Hint Resolve keeps_after keeps_before keeps_deliverAcks keeps_run_executor : keeps.

Lemma keeps_consumer_start c : keeps P (consumer_start c).
Proof. unfold consumer_start. keeps. Qed.
Lemma keeps_consumer_stop c : keeps P (consumer_stop c).
Proof. unfold consumer_stop. keeps. Qed.
Lemma keeps_consumer_commit c : keeps P (consumer_commit c).
Proof. unfold consumer_commit, clearPreviouslyDelivered. keeps. Qed.
Lemma keeps_rollback_optimized n c i : keeps P (rollback_optimized n c i).
Proof. revert i. induction n; intros i; cbn [rollback_optimized]; keeps. Qed.
Hint Resolve keeps_consumer_start keeps_consumer_stop keeps_consumer_commit keeps_rollback_optimized : keeps.
Lemma keeps_nack_delivered c p d e : keeps P (nack_delivered c p d e).
Proof. unfold nack_delivered. keeps. Qed.
Lemma keeps_deliver_again c n d e : keeps P (deliver_again c n d e).
Proof. unfold deliver_again. keeps. Qed.
Hint Resolve keeps_nack_delivered keeps_deliver_again : keeps.
Lemma keeps_rollback_delivered c : keeps P (rollback_delivered draw c).
Proof. unfold rollback_delivered, next_delay, rollbackPreviouslyDeliveredAndNotRedelivered, clearPreviouslyDelivered. keeps. Qed.
Hint Resolve keeps_rollback_delivered : keeps.
Lemma keeps_consumer_rollback c : keeps P (consumer_rollback draw c).
Proof. unfold consumer_rollback. keeps. Qed.
Hint Resolve keeps_consumer_rollback : keeps.

Lemma keeps_clearMessagesInProgress c : keeps P (clearMessagesInProgress c).
Proof. unfold clearMessagesInProgress, setTransportInterruptionProcessingComplete. keeps. Qed.
Lemma keeps_expected c d b : keeps P (redeliveryExpectedInCurrentTransaction c d b).
Proof. unfold redeliveryExpectedInCurrentTransaction. keeps. Qed.
Lemma keeps_exceeded c d : keeps P (redeliveryExceeded c d).
Proof. unfold redeliveryExceeded. keeps. Qed.
Lemma keeps_posionAck d x : keeps P (posionAck d x).
Proof. unfold posionAck. keeps. Qed.
Hint Resolve keeps_clearMessagesInProgress keeps_expected keeps_exceeded keeps_posionAck : keeps.
Lemma keeps_competing d : keeps P (redeliveryPendingInCompetingTransaction d).
Proof. unfold redeliveryPendingInCompetingTransaction. keeps. Qed.
Lemma keeps_deliver_to_listener c d : keeps P (deliver_to_listener on_message draw c d).
Proof. unfold deliver_to_listener, createCMSMessage, isExpired, note_cause. keeps. Qed.
Hint Resolve keeps_competing keeps_deliver_to_listener : keeps.
Lemma keeps_dispatch_new c d : keeps P (dispatch_new on_message draw c d).
Proof. unfold dispatch_new. keeps. Qed.
Hint Resolve keeps_dispatch_new : keeps.
Lemma keeps_dispatch c d : keeps P (dispatch on_message draw c d).
Proof. unfold dispatch. generalize 2%nat. intros n. induction n; cbn [dispatch_body]; unfold catch_amq; keeps. Qed.
Hint Resolve keeps_dispatch : keeps.

Lemma keeps_sendPullRequest c t : keeps P (sendPullRequest c t).
Proof. unfold sendPullRequest, catch_amq. keeps. Qed.
Hint Resolve keeps_sendPullRequest : keeps.
Lemma keeps_dequeue_rounds c x t envs : keeps P (dequeue_rounds c x t envs).
Proof.
  revert t. induction envs as [|env envs IH]; intros t; cbn [dequeue_rounds]; unfold remaining, consumeExpiredMessage, isExpired; keeps; apply IH.
Qed.
Hint Resolve keeps_dequeue_rounds : keeps.
Lemma keeps_consumer_dequeue c t envs : keeps P (consumer_dequeue c t envs).
Proof. unfold consumer_dequeue, catch_cms. keeps. Qed.
Lemma keeps_session_checkMessageListener : keeps P session_checkMessageListener.
Proof. apply keeps_readLock. keeps. Qed.
Lemma keeps_consume c d : keeps P (consume c d).
Proof. unfold consume, createCMSMessage. keeps. Qed.
Hint Resolve keeps_consumer_dequeue keeps_session_checkMessageListener keeps_consume : keeps.
Lemma keeps_receive c envs : keeps P (receive c envs).
Proof. unfold receive, consumer_checkClosed, checkMessageListener, catch_cms. keeps. Qed.
Hint Resolve keeps_receive : keeps.
Lemma keeps_receive_for c t envs : keeps P (receive_for c t envs).
Proof. unfold receive_for, consumer_checkClosed, checkMessageListener, catch_cms. keeps. Qed.
Lemma keeps_receiveNoWait c envs : keeps P (receiveNoWait c envs).
Proof. unfold receiveNoWait, consumer_checkClosed, checkMessageListener, catch_cms. keeps. Qed.
Lemma keeps_consumer_iterate c : keeps P (consumer_iterate on_message draw c).
Proof. unfold consumer_iterate. keeps. Qed.
Hint Resolve keeps_receive_for keeps_receiveNoWait keeps_consumer_iterate : keeps.
Lemma keeps_removeConsumer c : keeps P (removeConsumer c).
Proof. unfold removeConsumer, catch_amq. keeps; step. Qed.
Lemma keeps_shutdown_executor c : keeps P (shutdown_executor c).
Proof.
  unfold shutdown_executor. keeps. match goal with |- keeps _ (drain_executor ?n _) => generalize n end.
  intros n. induction n; cbn [drain_executor]; keeps.
Qed.
Lemma keeps_cancel c : keeps P (cancel_optimizedAckTask c).
Proof. unfold cancel_optimizedAckTask. step. Qed.
Hint Resolve keeps_removeConsumer keeps_shutdown_executor keeps_cancel : keeps.
Lemma keeps_dispose c : keeps P (dispose c).
Proof. unfold dispose, dispose_open, catch_amq. keeps. Qed.
Hint Resolve keeps_dispose : keeps.
Lemma keeps_consumer_doClose c : keeps P (consumer_doClose c).
Proof. unfold consumer_doClose, catch_amq. keeps. Qed.
Hint Resolve keeps_consumer_doClose : keeps.
Lemma keeps_consumer_close c : keeps P (consumer_close c).
Proof. unfold consumer_close, catch_cms. keeps. Qed.
Lemma keeps_setOptimizeAcknowledge c b : keeps P (setOptimizeAcknowledge c b).
Proof. unfold setOptimizeAcknowledge. keeps. Qed.
Hint Resolve keeps_consumer_close keeps_setOptimizeAcknowledge : keeps.

(** *** The session *)

Lemma keeps_executor_dispatch d : keeps P (executor_dispatch on_message draw d).
Proof. unfold executor_dispatch, swallow. keeps. Qed.
Hint Resolve keeps_executor_dispatch : keeps.
Lemma keeps_session_dispatch d : keeps P (session_dispatch on_message draw d).
Proof. unfold session_dispatch, execute. keeps; step. Qed.
Lemma keeps_iterate_first l : keeps P (iterate_first on_message draw l).
Proof. induction l; cbn [iterate_first]; keeps. Qed.
Hint Resolve keeps_session_dispatch keeps_iterate_first : keeps.
Lemma keeps_executor_iterate : keeps P (executor_iterate on_message draw).
Proof. unfold executor_iterate, iterateConsumers, swallow. keeps; step. Qed.
Lemma keeps_for_consumers f : (forall c, keeps P (f c)) -> keeps P (for_consumers f).
Proof. intros Hf. apply keeps_readLock. keeps. Qed.
Hint Resolve keeps_executor_iterate keeps_for_consumers : keeps.
Lemma keeps_session_start : keeps P session_start.
Proof. unfold session_start, executor_start. keeps; step. Qed.
Lemma keeps_session_stop : keeps P session_stop.
Proof. unfold session_stop, executor_stop. keeps; step. Qed.
Hint Resolve keeps_session_start keeps_session_stop : keeps.
Lemma keeps_session_recover : keeps P (session_recover draw).
Proof. unfold session_recover, session_checkClosed, catch_cms. keeps. Qed.
Lemma keeps_session_clear : keeps P session_clearMessagesInProgress.
Proof.
  unfold session_clearMessagesInProgress. apply keeps_bind; [step|intros _]. apply keeps_for_consumers. intros c. unfold inProgressClearRequired. keeps.
Qed.
Lemma keeps_session_setPrefetchSize c n : keeps P (session_setPrefetchSize c n).
Proof. apply keeps_for_consumers. intros c'. unfold setPrefetchSize. keeps. Qed.
Lemma keeps_session_close_consumer c : keeps P (session_close_consumer c).
Proof. apply keeps_for_consumers. keeps. Qed.
Lemma keeps_addConsumer c k : keeps P (addConsumer c k).
Proof. unfold addConsumer, session_checkClosed, catch_amq. keeps; step. Qed.
Lemma keeps_setMessageListener c b : keeps P (setMessageListener c b).
Proof. unfold setMessageListener, consumer_checkClosed, update_options, catch_cms. keeps. Qed.
Lemma keeps_dispose_consumer c : keeps P (dispose_consumer c).
Proof. unfold dispose_consumer. keeps. Qed.
Hint Resolve keeps_session_recover keeps_session_clear keeps_session_setPrefetchSize keeps_session_close_consumer
  keeps_addConsumer keeps_setMessageListener keeps_dispose_consumer : keeps.
Lemma keeps_session_doClose r : keeps P r -> keeps P (session_doClose r).
Proof.
  intros Hr. unfold session_doClose, session_dispose, catch_amq. keeps; step.
Qed.
Hint Resolve keeps_session_doClose : keeps.
Lemma keeps_redeliver c l : keeps P (redeliver on_message draw c l).
Proof. induction l; cbn [redeliver]; keeps. Qed.
Hint Resolve keeps_redeliver : keeps.
Lemma keeps_run_scheduled n : keeps P (run_scheduled on_message draw n).
Proof. unfold run_scheduled, run_task. keeps; step. Qed.
Hint Resolve keeps_run_scheduled : keeps.

(** *** The callbacks, and the ends of transactions *)

(** The callbacks of the synchronizations keep [P]. *)
Definition callbacks_keep (S : Synchronization W Synchronizer) : Prop :=
  forall s, keeps P (@sync_beforeEnd _ _ S s) /\ keeps P (@sync_afterCommit _ _ S s) /\ keeps P (@sync_afterRollback _ _ S s).

Lemma callbacks_kept r : keeps P r -> callbacks_keep (callbacks draw r).
Proof.
  intros Hr s. assert (forall c b, keeps P (setSynchronizationRegistered (A := A) (C := C) c b)) as Hs by (unfold setSynchronizationRegistered; keeps).
  destruct s as [c|c|]; cbn; (split_and!; [unfold transaction_beforeEnd; keeps|keeps..]).
Qed.

Context (P_end : forall S : Synchronization W Synchronizer, callbacks_keep S -> keeps P TransactionContext.commit /\ keeps P TransactionContext.rollback).

Lemma nested_kept n : callbacks_keep (nested draw n).
Proof. induction n as [|n IH]; cbn [nested]; apply callbacks_kept; [apply keeps_hang|]. by apply P_end. Qed.

Lemma keeps_ends : keeps P (session_commit draw) /\ keeps P (session_rollback draw) /\ keeps P (session_close draw).
Proof.
  destruct (P_end _ (nested_kept 2)) as [Hc Hr].
  unfold session_commit, session_rollback, session_close, session_checkClosed, catch_cms.
  split_and!; keeps; try done; step; by apply keeps_session_doClose.
Qed.
End kept.

(** ** The histories of a session *)

(** What can happen to a session: the application calls it, the broker's messages and
    controls arrive, the task runner, the scheduler and the consumers' threads take a
    step, or time and the network move on. *)
Inductive event {C : Type} : Type :=
| Receive (c : Z) (envs : list (list (C -> C)))
| ReceiveFor (c timeout : Z) (envs : list (list (C -> C)))
| ReceiveNoWait (c : Z) (envs : list (list (C -> C)))
| Acknowledge
| AcknowledgeOne (c : Z) (d : MessageDispatch)
| Commit | Rollback | Recover | Close | Start | Stop
| CloseConsumer (c : Z)
| AddConsumer (c : Z) (k : Consumer C)
| SetListener (c : Z) (present : bool)
| SetOptimize (c : Z) (b : bool)
| Xa (o : xa_operation)
| Dispatch (d : MessageDispatch)
| Interrupted
| ControlClose (c : Z)
| ControlPrefetch (c n : Z)
| Iterate
| Scheduled (n : nat)
| AckThread (c : Z)
| World_moves (network : list reply) (clock : list Z).
Arguments event : clear implicits.

Section histories.
Context {C A : Type} `{CHANNEL : MessageDispatchChannel C MessageDispatch} `{AUDIT : Audit A}.
Context (on_message : Z -> MessageDispatch -> M (World C A) unit) (draw : World C A -> bool * double).
Abbreviation W := (World C A).

Definition drop_result {B} (m : M W B) : M W unit := m ;;; ret tt.

Definition run_event (e : event C) : M W unit :=
  match e with
  | Receive c envs => drop_result (receive c envs)
  | ReceiveFor c t envs => drop_result (receive_for c t envs)
  | ReceiveNoWait c envs => drop_result (receiveNoWait c envs)
  | Acknowledge => session_acknowledge
  | AcknowledgeOne c d => acknowledge_dispatch c d ACK_TYPE_INDIVIDUAL
  | Commit => session_commit draw
  | Rollback => session_rollback draw
  | Recover => session_recover draw
  | Close => session_close draw
  | Start => session_start
  | Stop => session_stop
  | CloseConsumer c => consumer_close c
  | AddConsumer c k => addConsumer c k
  | SetListener c b => setMessageListener c b
  | SetOptimize c b => setOptimizeAcknowledge c b
  | Xa o => @run_xa W Synchronizer World_host (World_synchronization draw) o
  | Dispatch d => session_dispatch on_message draw d
  | Interrupted => session_clearMessagesInProgress
  | ControlClose c => session_close_consumer c
  | ControlPrefetch c n => session_setPrefetchSize c n
  | Iterate => drop_result (executor_iterate on_message draw)
  | Scheduled n => run_scheduled on_message draw n
  | AckThread c => run_executor c
  | World_moves l t => modify (fun w => set_clock t (set_connection (set_wire (wire (connection w)) l (connection w)) w))
  end.

(** A history: each event runs in the state the last one left, whatever came of it. *)
Definition run_events (es : list (event C)) (w : W) : W := foldl (fun w e => (run_event e w).2) w es.

Definition is_xa (e : event C) : bool := match e with Xa _ => true | _ => false end.

Lemma keeps_run_event P e : (forall w w', frame w w' -> P w -> P w') -> keeps P doStartTransaction ->
  (forall c d, keeps P (on_message c d)) ->
  (forall S : Synchronization W Synchronizer, callbacks_keep P S -> keeps P TransactionContext.commit /\ keeps P TransactionContext.rollback) ->
  (forall S : Synchronization W Synchronizer, callbacks_keep P S -> forall o, is_xa e = true -> keeps P (run_xa o)) ->
  keeps P (run_event e).
Proof.
  intros Hf Hb Hm He Hx. destruct (keeps_ends P Hf Hb draw He) as (Hc & Hr & Hcl).
  destruct e; cbn [run_event]; unfold drop_result;
    try (apply keeps_bind; [|intros; apply keeps_ret]);
    eauto using keeps_receive, keeps_receive_for, keeps_receiveNoWait, keeps_acknowledge, keeps_for_consumers,
      keeps_acknowledge_dispatch, keeps_session_recover, keeps_session_start, keeps_session_stop, keeps_consumer_close,
      keeps_addConsumer, keeps_setMessageListener, keeps_setOptimizeAcknowledge, keeps_session_dispatch, keeps_session_clear,
      keeps_session_close_consumer, keeps_session_setPrefetchSize, keeps_executor_iterate, keeps_run_scheduled, keeps_run_executor.
  - apply Hx; [|done]. by apply nested_kept.
  - intros w. by apply Hf.
Qed.

(** The state in which the transactions of a session are in order: [tx_invariant], and
    no local transaction if its mode is not [SESSION_TRANSACTED]. *)
Definition transactions_ok (w : W) : Prop :=
  tx_invariant w /\ (ackMode (session w) <> SESSION_TRANSACTED -> open_local (transaction w) = None).

(** Without local transactions, in a session that starts none. *)
Definition no_local_session (w : W) : Prop := no_local w /\ ackMode (session w) <> SESSION_TRANSACTED.

Lemma tx_invariant_frame (w w' : W) : frame w w' -> tx_invariant w -> tx_invariant w'.
Proof.
  intros [E1 E2 E3 _]. apply invariant_same; cbn; [done|by rewrite E2|]. unfold open_local. by rewrite E3.
Qed.
Lemma no_local_frame (w w' : W) : frame w w' -> no_local_session w -> no_local_session w'.
Proof.
  intros Hf [[Hi Ho] Hm]. split; [split; [by eapply tx_invariant_frame|]|by rewrite (frame_mode _ _ Hf)].
  cbn in *. unfold open_local in *. by rewrite (frame_open _ _ Hf).
Qed.

Lemma tx_invariant_begin : keeps (tx_invariant (W := W)) doStartTransaction.
Proof. apply keeps_read. intros w Hw. destruct (_ && _); [by apply keeps_begin|done]. Qed.

(** A session that is not transacted is in an XA transaction where [isTransacted] holds. *)
Lemma no_local_begin : keeps no_local_session doStartTransaction.
Proof.
  apply keeps_read. intros w Hw. destruct (isTransacted w && negb (isInXATransaction w)) eqn:E; [|done].
  exfalso. destruct Hw as [_ Hm]. unfold isTransacted, isInXATransaction in E. cbn in E. apply andb_true_iff in E as [E1 E2].
  rewrite bool_decide_false in E1 by done. cbn in E1. by destruct (transactionId (transaction w)) as [[]|].
Qed.

Lemma tx_invariant_end (S : Synchronization W Synchronizer) : callbacks_keep tx_invariant S ->
  keeps tx_invariant TransactionContext.commit /\ keeps tx_invariant TransactionContext.rollback.
Proof.
  intros HS. split; [apply keeps_commit|apply keeps_rollback]; intros s; by destruct (HS s) as (? & ? & ?).
Qed.

Lemma connection_mode {B} (m : M (Connection A) B) (w : W) : session (on_connection m w).2 = session w.
Proof. unfold on_connection. by destruct (m _). Qed.

(** A call of the connection that keeps [no_local] keeps the mode too. *)
Lemma no_local_connection {B} (m : M (Connection A) B) : keeps no_local (on_connection (C := C) m) -> keeps no_local_session (on_connection (C := C) m).
Proof. intros Hm w [Hw Hs]. split; [by apply Hm|]. by rewrite connection_mode. Qed.

Lemma no_local_set (t : TxContext Synchronizer) (w : W) : no_local_session w -> open_local t = None -> no_local_session (set_transaction t w).
Proof. intros [Hw Hm] Ht. split; [|done]. apply (set_tx_closes (W := W) (LOG := World_log) t w Ht). by destruct Hw. Qed.

Lemma no_local_end (S : Synchronization W Synchronizer) : callbacks_keep no_local_session S ->
  (keeps no_local_session TransactionContext.commit /\ keeps no_local_session TransactionContext.rollback) /\
  forall o, keeps no_local_session (run_xa o).
Proof.
  intros HS.
  assert (forall i, foreign i -> keeps no_local_session (oneway_info (W := W) i)) as H1.
  { intros i Hi. apply no_local_connection. exact (keeps_oneway_foreign (W := W) no_local i about_no_local Hi). }
  assert (forall i, foreign i -> keeps no_local_session (request_info (W := W) i)) as H2.
  { intros i Hi. apply no_local_connection. exact (keeps_request_foreign (W := W) no_local i about_no_local Hi). }
  assert (keeps no_local_session (ensureConnected (W := W))) as H3.
  { apply no_local_connection. exact (keeps_ensure (W := W) no_local about_no_local). }
  assert (forall w : W, no_local_session w -> no_local w) as H0 by (by intros w []).
  split_and!.
  - by apply (N_commit no_local_session); try done; [apply no_local_set|intros s; apply (HS s)..].
  - by apply (N_rollback no_local_session); try done; [apply no_local_set|intros s; apply (HS s)..].
  - intros o. by apply (keeps_run_xa no_local_session); try done; [apply no_local_set|intros s; apply (HS s)..].
Qed.

(** C4: In every history of a session the commands of its local transactions are bracketed:
    each transaction is begun once, under an id of its own, is ended once at most and
    before the next begins, and the transaction the session holds open is the last one
    begun. The exception are XA operations on a session in which local transactions
    are started. *)
Theorem transactions_bracketed (es : list (event C)) (w : W) :
  (forall c d P, (P = tx_invariant \/ P = no_local_session) -> keeps P (on_message c d)) ->
  (ackMode (session w) = SESSION_TRANSACTED -> forallb (fun e => negb (is_xa e)) es = true) ->
  transactions_ok w ->
  bracketed (local_infos (transactions_of (wire (connection (run_events es w))))) (open_local (transaction (run_events es w))).
Proof.
  intros Hm Hx [Hi Ho].
  destruct (decide (ackMode (session w) = SESSION_TRANSACTED)) as [Hmode|Hmode].
  - specialize (Hx Hmode). cut (tx_invariant (run_events es w)); [by intros []|]. clear Ho Hmode.
    revert w Hi. induction es as [|e es IH]; intros w Hi; [done|]. cbn in Hx. apply andb_true_iff in Hx as [He Hes].
    apply (IH Hes). apply keeps_run_event; try done; [apply tx_invariant_frame|apply tx_invariant_begin|eauto|apply tx_invariant_end|].
    intros S HS o E. by rewrite E in He.
  - cut (no_local_session (run_events es w)); [by intros [[[] _] _]|].
    assert (no_local_session w) as Hw by (split; [split; auto|done]). clear Hi Ho Hmode Hx.
    revert w Hw. induction es as [|e es IH]; intros w Hw; [done|].
    apply IH. apply keeps_run_event; try done; [apply no_local_frame|apply no_local_begin|eauto|apply no_local_end|].
    intros S HS o _. by apply no_local_end.
Qed.
End histories.

Lemma transactions_bracketed_witness :
  let w := sample_world SESSION_TRANSACTED [1] (fun c => sample_consumer c 10 true [1; 2]) [] in
  let w' := run_events quiet no_draw [ReceiveNoWait 1 [[]]; Commit; ReceiveNoWait 1 [[]]] w in
  local_infos (transactions_of (wire (connection w'))) = [(STATE_BEGIN, 1); (STATE_COMMITONEPHASE, 1); (STATE_BEGIN, 2)] /\
  bracketed (local_infos (transactions_of (wire (connection w')))) (open_local (transaction w')).
Proof.
  intros w w'. split; [vm_compute; reflexivity|].
  apply (transactions_bracketed quiet no_draw [ReceiveNoWait 1 [[]]; Commit; ReceiveNoWait 1 [[]]] w).
  - intros c d P _ u Hu. exact Hu.
  - intros _. reflexivity.
  - split; [split; constructor|intros _; reflexivity].
Defined.
