(* ===== verification/ConsumerAcks.v ===== *)
(** * What a consumer acknowledges (ActiveMQConsumerKernel.cpp): which messages each
    acknowledgement stands for, and what becomes of one that is refused.

    The lemmas of the first part compute the steps of a consumer's operations, for this
    file and for ConsumerRollback.v. *)
From S2P Require Import Prelude Floating Commands DispatchChannel RedeliveryPolicy TransactionContext SessionState ConsumerKernel SessionKernel SessionSamples.

Section steps.
Context {C A : Type}.
Implicit Types (w : World C A) (c : Z).

Lemma bind_update {B} c f (k : unit -> M (World C A) B) w : bind (update c f) k w = k tt (set_consumer c (f (consumers w c)) w).
Proof. done. Qed.
Lemma bind_update_acks {B} c f (k : unit -> M (World C A) B) w :
  bind (update_acks c f) k w = k tt (set_consumer c (set_acks (f (acks (consumers w c))) (consumers w c)) w).
Proof. done. Qed.
Lemma bind_update_redelivery {B} c f (k : unit -> M (World C A) B) w :
  bind (update_redelivery c f) k w = k tt (set_consumer c (set_redelivery (f (redelivery (consumers w c))) (consumers w c)) w).
Proof. done. Qed.
Lemma bind_update_life {B} c f (k : unit -> M (World C A) B) w :
  bind (update_life c f) k w = k tt (set_consumer c (set_life (f (life (consumers w c))) (consumers w c)) w).
Proof. done. Qed.
Lemma bind_self {B} c (k : Consumer C -> M (World C A) B) w : bind (self c) k w = k (consumers w c) w.
Proof. done. Qed.
Lemma bind_ret {S B B'} (b : B) (k : B -> M S B') s : bind (ret b) k s = k b s.
Proof. done. Qed.

Lemma consumers_set c k w : consumers (set_consumer c k w) c = k.
Proof. cbn. by rewrite decide_True. Qed.
Lemma consumers_other c c' k w : c' <> c -> consumers (set_consumer c k w) c' = consumers w c'.
Proof. intros. cbn. by rewrite decide_False. Qed.

(** A state in which what is sent is accepted. *)
Definition answered (r : reply) : bool := match r with Answered _ => true | _ => false end.
Record accepting w : Prop := {
  accepting_open : connection_closed (connection w) = false;
  accepting_up : transportFailed (connection w) = false;
  accepting_network : Forall (fun r => answered r = true) (network (connection w));
}.

(** [w] with a command more on the wire. *)
Definition sent_on (cmd : Command) w : World C A :=
  set_connection (set_wire (wire (connection w) ++ [cmd]) (tail (network (connection w))) (connection w)) w.

Lemma next_accepted w : accepting w -> exists r, next_reply (connection w) = Answered r.
Proof.
  intros [_ _ Hn]. unfold next_reply. destruct Hn as [|[] l Hr Hn]; eauto; by discriminate.
Qed.

Lemma accepting_sent cmd w : accepting w -> accepting (sent_on cmd w).
Proof. intros [H1 H2 H3]. split; [done..|]. cbn. destruct H3; [constructor|done]. Qed.

Lemma accepting_connection w w' : connection w' = connection w -> accepting w -> accepting w'.
Proof. intros E []. split; by rewrite E. Qed.

Lemma transport_accepted cmd w : accepting w ->
  exists r, transport cmd (connection w) = (Ok (Answered r), set_wire (wire (connection w) ++ [cmd]) (tail (network (connection w))) (connection w)).
Proof. intros Ha. destruct (next_accepted w Ha) as [r Er]. exists r. unfold transport, bind, get, modify. by rewrite Er. Qed.

Lemma open_checks w : accepting w -> checkClosedOrFailed (connection w) = (Ok tt, connection w).
Proof. intros [H1 H2 _]. unfold checkClosedOrFailed, isClosed_check, bind, get. rewrite H1. cbn. by rewrite H2. Qed.

Lemma oneway_accepted cmd w : accepting w -> on_connection (connection_oneway cmd) w = (Ok tt, sent_on cmd w).
Proof.
  intros Ha. destruct (transport_accepted cmd w Ha) as [r Er]. unfold on_connection, connection_oneway, always_amq, rethrow.
  rewrite (bind_ok _ _ _ _ _ (open_checks w Ha)), (bind_ok _ _ _ _ _ Er). done.
Qed.

Lemma syncRequest_accepted cmd w : accepting w -> exists r, on_connection (connection_syncRequest cmd) w = (Ok r, sent_on cmd w).
Proof.
  intros Ha. destruct (transport_accepted cmd w Ha) as [r Er]. exists r. unfold on_connection, connection_syncRequest, always_amq, rethrow.
  rewrite (bind_ok _ _ _ _ _ (open_checks w Ha)), (bind_ok _ _ _ _ _ Er). done.
Qed.

Lemma sendAck_accepted a b w : accepting w -> sendAck a b w = (Ok tt, sent_on (CAck a) w).
Proof.
  intros Ha. unfold sendAck. rewrite bind_get. destruct (_ || _); [by apply oneway_accepted|].
  destruct (syncRequest_accepted (CAck a) w Ha) as [r Er]. by rewrite (bind_ok _ _ _ _ _ Er).
Qed.

Lemma bind_sendAck {B} a b (k : unit -> M (World C A) B) w : accepting w ->
  bind (sendAck a b) k w = k tt (sent_on (CAck a) w).
Proof. intros Ha. by rewrite (bind_ok _ _ _ _ _ (sendAck_accepted a b w Ha)). Qed.

(** What a connection throws is an [ActiveMQException], the command sent or not. *)
Lemma sendAck_throws a b w e w' : sendAck a b w = (Throw e, w') ->
  e = ActiveMQException /\ consumers w' = consumers w.
Proof.
  unfold sendAck. rewrite bind_get. assert (forall B (m : M (Connection A) B) x, sends (CAck a) (m (connection w)) (connection w) ->
    on_connection m w = (Throw x, w') -> x = ActiveMQException /\ consumers w' = consumers w) as Hm.
  { intros B m x [_ Ht] E. unfold on_connection in E. destruct (m (connection w)) as [r n]. injection E as -> <-. auto. }
  destruct (_ || _); intros E.
  - by apply (Hm _ _ _ (oneway_sends _ _)).
  - unfold bind in E. destruct (on_connection (connection_syncRequest (CAck a)) w) as [[|x| |] w1] eqn:E1; try done.
    injection E as <- <-. by apply (Hm _ _ _ (syncRequest_sends _ _)).
Qed.
End steps.

(** Run through the steps that are known; [cbn] is kept to the state's records. *)
Ltac records := cbn [consumers session transaction queue taskRunner connection scheduled clock place allocated consumerIds
  set_consumer set_consumers set_connection sent_on set_wire options unconsumed delivered acks redelivery life
  set_unconsumed set_delivered set_acks set_redelivery set_life
  pendingAck deliveredCounter additionalWindowSize ackCounter deliveringAcks optimizeAcknowledge optimizeAckTimestamp
  set_pendingAck set_deliveredCounter set_additionalWindowSize set_ackCounter set_deliveringAcks set_optimizeAckTimestamp
  current_redeliveryDelay previouslyDelivered isClearDeliveredList inProgressClearRequiredFlag
  set_redeliveryDelay set_previouslyDelivered set_isClearDeliveredList set_inProgressClearRequiredFlag
  started closeSyncRegistered disposing synchronizationRegistered lastDeliveredSequenceId executor failureError
  set_started set_closeSyncRegistered set_disposing set_registered set_lastDelivered set_executor set_failureError
  wire network connection_closed connection_closing transportFailed sendAcksAsync audit localTransactionIds].
Ltac run_step := first
  [ rewrite bind_assoc | rewrite bind_get | rewrite bind_self | rewrite bind_ret | rewrite bind_update_acks | rewrite bind_update_redelivery
  | rewrite bind_update_life | rewrite bind_update | rewrite consumers_set ].

(** ** One acknowledgement for every delivered message *)

Definition message_id (d : MessageDispatch) : option MessageId := option_map messageId (message d).
Definition has_message (d : MessageDispatch) : Prop := message d <> None.

(** From the oldest of the delivered messages, which come newest first, to the newest. *)
Definition ack_all (t : AckType) (ds : list MessageDispatch) (tx : option TransactionId) (a : MessageAck) : Prop :=
  match ds with
  | [] => False
  | d :: _ => ack_type a = t /\ ack_consumer a = consumerId d /\ ack_first a = message_id (List.last ds d) /\
      Some (ack_last a) = message_id d /\ ack_count a = zlen ds /\ ack_transaction a = tx
  end.

Section acknowledge.
Context {C A : Type} `{CHANNEL : MessageDispatchChannel C MessageDispatch} `{AUDIT : Audit A}.
Implicit Types (w : World C A) (c : Z).

Lemma need_message_ok d w : has_message d -> exists m, message d = Some m /\ need_message (C := C) (A := A) d w = (Ok m, w).
Proof. unfold has_message, need_message. destruct (message d) as [m|]; [by exists m|done]. Qed.

Lemma last_in {B} (d : B) l : In (List.last (d :: l) d) (d :: l).
Proof.
  assert (In (List.last l d) (d :: l)) as Hl; [|by destruct l].
  induction l as [|x [|y l] IH]; [by left|by right; left|]. destruct IH as [E|Hi]; [by left|by right; right].
Qed.

Lemma last_default {B} (x a b : B) l : List.last (x :: l) a = List.last (x :: l) b.
Proof. revert x. induction l as [|y l IH]; intros x; [done|]. apply (IH y). Qed.

Lemma makeAck_covers c t w d ds : delivered (consumers w c) = d :: ds -> Forall has_message (d :: ds) ->
  exists a, makeAckForAllDeliveredMessages c t w = (Ok (Some a), w) /\ ack_all t (d :: ds) None a.
Proof.
  intros Hd Hm. unfold makeAckForAllDeliveredMessages. rewrite bind_self, Hd.
  destruct (need_message_ok d w) as (m & Em & En); [by inversion Hm|]. rewrite (bind_ok _ _ _ _ _ En).
  destruct (need_message_ok (List.last (d :: ds) d) w) as (m' & Em' & En').
  { rewrite Forall_forall in Hm. apply Hm, last_in. }
  rewrite (bind_ok _ _ _ _ _ En'). eexists. split; [reflexivity|]. cbn -[List.last zlen]. unfold message_id. rewrite Em, Em'. done.
Qed.

Lemma makeAck_none c t w : delivered (consumers w c) = [] -> makeAckForAllDeliveredMessages c t w = (Ok None, w).
Proof. intros Hd. unfold makeAckForAllDeliveredMessages. by rewrite bind_self, Hd. Qed.

Lemma clear_idle c w : isClearDeliveredList (redelivery (consumers w c)) = false -> clearDeliveredList c w = (Ok tt, w).
Proof. intros E. unfold clearDeliveredList. by rewrite bind_get, E. Qed.

Lemma wait_idle c w : previouslyDelivered (redelivery (consumers w c)) = None -> waitForRedeliveries c w = (Ok tt, w).
Proof. intros E. unfold waitForRedeliveries. by rewrite bind_self, E. Qed.

Lemma failed_idle c w : previouslyDelivered (redelivery (consumers w c)) = None -> rollbackOnFailedRecoveryRedelivery c w = (Ok tt, w).
Proof. intros E. unfold rollbackOnFailedRecoveryRedelivery. by rewrite bind_self, E. Qed.

(** In a transaction there is none to start. *)
Lemma doStart_open w : transactionId (transaction w) <> None -> doStartTransaction w = (Ok tt, w).
Proof.
  intros Ht. unfold doStartTransaction. rewrite bind_get. destruct (isTransacted w && negb (isInXATransaction w)) eqn:E; [|done].
  apply andb_true_iff in E as [_ E]. unfold begin, catch_tx, rethrow. rewrite bind_get.
  destruct (isInXATransaction w); [done|]. unfold isInTransaction. cbn. by destruct (transactionId (transaction w)).
Qed.

(** C5: [acknowledge()] sends one acknowledgement that covers every delivered message, from
    the oldest to the newest with their number, in the open transaction if the session is
    transacted; nothing is pending then, and outside a transaction nothing is left
    delivered. No other consumer is touched. *)
Theorem acknowledge_covers c w d ds :
  delivered (consumers w c) = d :: ds -> Forall has_message (d :: ds) ->
  isClearDeliveredList (redelivery (consumers w c)) = false -> previouslyDelivered (redelivery (consumers w c)) = None ->
  (isTransacted w = true -> transactionId (transaction w) <> None) -> accepting w ->
  exists a w', acknowledge c w = (Ok tt, w') /\
    wire (connection w') = wire (connection w) ++ [CAck a] /\
    ack_all ACK_TYPE_CONSUMED (d :: ds) (if isTransacted w then transactionId (transaction w) else None) a /\
    delivered (consumers w' c) = (if isTransacted w then d :: ds else []) /\
    pendingAck (acks (consumers w' c)) = None /\
    forall c', c' <> c -> consumers w' c' = consumers w c'.
Proof.
  intros Hd Hm Hclear Hprev Htx Ha.
  destruct (makeAck_covers c ACK_TYPE_CONSUMED w d ds Hd Hm) as (a & Ea & Hall).
  assert ((if isTransacted w then rollbackOnFailedRecoveryRedelivery c ;;; doStartTransaction else ret tt) w = (Ok tt, w)) as Es.
  { destruct (isTransacted w) eqn:E; [|done]. rewrite (bind_ok _ _ _ _ _ (failed_idle c w Hprev)). by apply doStart_open, Htx. }
  set (a' := if isTransacted w then ack_in (transactionId (transaction w)) a else a).
  set (k1 := set_acks (set_pendingAck None (acks (consumers w c))) (consumers w c)).
  set (w1 := sent_on (CAck a') (set_consumer c k1 w)).
  assert (exists w', acknowledge c w = (Ok tt, w') /\ connection w' = connection w1 /\
    delivered (consumers w' c) = (if isTransacted w then d :: ds else []) /\ pendingAck (acks (consumers w' c)) = None /\
    forall c', c' <> c -> consumers w' c' = consumers w c') as (w' & E & Ec & E1 & E2 & E3).
  { unfold acknowledge, catch_cms, rethrow.
    rewrite (bind_ok _ _ _ _ _ (clear_idle c w Hclear)), (bind_ok _ _ _ _ _ (wait_idle c w Hprev)), (bind_ok _ _ _ _ _ Ea), bind_get.
    rewrite (bind_ok _ _ _ _ _ Es), bind_get. cbv zeta. fold a'. run_step. rewrite bind_sendAck by (by destruct Ha). fold k1. fold w1.
    repeat run_step. match goal with |- context [if isTransacted ?x then ret tt else _] => change (isTransacted x) with (isTransacted w) end.
    destruct (isTransacted w); eexists; (split; [reflexivity|]); (split; [reflexivity|]); unfold w1, k1; records; rewrite !decide_True by done; records;
      (split; [try reflexivity|split; [reflexivity|]]).
    1: by rewrite Hd.
    all: intros c' Hc'; by rewrite ?decide_False. }
  exists a', w'. split; [exact E|]. rewrite Ec. split; [done|]. split; [|done].
  unfold ack_all in *. destruct Hall as (? & ? & ? & ? & ? & ?). unfold a'. by destruct (isTransacted w).
Qed.
End acknowledge.

(** ** Acknowledgements in batches *)

Section batches.
Context {C A : Type} `{CHANNEL : MessageDispatchChannel C MessageDispatch} `{AUDIT : Audit A}.
Implicit Types (w : World C A) (c : Z).

(** A [DUPS_OK_ACKNOWLEDGE] consumer of a topic since [w0]: what it sent are
    acknowledgements of [blocks] of messages, what is pending is that of the messages
    [tail], newest first, and these fill less than half of the prefetch window. *)
Record batch c (blocks : list (list MessageDispatch)) (tail : list MessageDispatch) w0 w : Prop := {
  batch_wire : exists l, wire (connection w) = wire (connection w0) ++ map CAck l /\
    Forall2 (fun b a => ack_all ACK_TYPE_CONSUMED b None a) blocks l;
  batch_pending : match tail with
    | [] => pendingAck (acks (consumers w c)) = None
    | _ => exists a, pendingAck (acks (consumers w c)) = Some a /\ ack_all ACK_TYPE_CONSUMED tail None a
    end;
  batch_counter : deliveredCounter (acks (consumers w c)) = zlen tail;
  batch_window : additionalWindowSize (acks (consumers w c)) = 0 /\ ackCounter (acks (consumers w c)) = 0;
  batch_half : tail = [] \/ 2 * zlen tail < prefetchSize (options (consumers w0 c));
  batch_sizes : Forall (fun b => zlen b = Z.max 1 ((prefetchSize (options (consumers w0 c)) + 1) / 2)) blocks;
  batch_same : session w = session w0 /\ transaction w = transaction w0 /\
    options (consumers w c) = options (consumers w0 c) /\ unconsumed (consumers w c) = unconsumed (consumers w0 c);
  batch_accepting : accepting w;
}.

(** The consumers it is about. *)
Definition batches c w : Prop :=
  ackMode (session w) = DUPS_OK_ACKNOWLEDGE /\ transactionId (transaction w) = None /\
  destination_queue (options (consumers w c)) = false /\ isClosed (unconsumed (consumers w c)) = false.

Lemma after_batch c d w : batches c w -> afterMessageIsConsumed c d false w = catch_amq (ackLater c d ACK_TYPE_CONSUMED) w.
Proof.
  intros (Hm & Ht & Hq & Hc). unfold afterMessageIsConsumed, catch_amq, rethrow. rewrite bind_get, Hc.
  unfold isTransacted, isAutoAcknowledgeEach, isAutoAcknowledgeBatch, isAutoAcknowledge, isDupsOkAcknowledge.
  rewrite Hm, Ht, Hq. done.
Qed.

(** What is pending after one more message. *)
Lemma next_pending_covers d m tail old : message d = Some m ->
  match tail with [] => old = None | _ => exists a, old = Some a /\ ack_all ACK_TYPE_CONSUMED tail None a end ->
  ack_all ACK_TYPE_CONSUMED (d :: tail) None (next_pending old (new_ack d m ACK_TYPE_CONSUMED (zlen tail + 1))).
Proof.
  intros Hm Hold. unfold ack_all, message_id. destruct tail as [|x tail].
  - subst old. cbn -[zlen]. rewrite Hm. by split_and!.
  - destruct Hold as (a & -> & Ht & _ & Hf & _). cbn -[zlen List.last]. rewrite Ht, bool_decide_true by done. cbn -[zlen List.last]. rewrite Hm.
    split_and!; try done. + rewrite Hf. unfold message_id. by rewrite (last_default x x d tail). + autorewrite with amq_len. lia.
Qed.

(** The message is counted in the pending acknowledgement, and nothing is sent. *)
Lemma count_pending_ok c d w m tail : message d = Some m ->
  match tail with
  | [] => pendingAck (acks (consumers w c)) = None
  | _ => exists a, pendingAck (acks (consumers w c)) = Some a /\ ack_all ACK_TYPE_CONSUMED tail None a
  end ->
  deliveredCounter (acks (consumers w c)) = zlen tail ->
  exists w1, count_pending c d ACK_TYPE_CONSUMED w = (Ok tt, w1) /\
    consumers w1 c = set_acks (set_pendingAck (Some (next_pending (pendingAck (acks (consumers w c)))
      (new_ack d m ACK_TYPE_CONSUMED (zlen tail + 1)))) (set_deliveredCounter (zlen tail + 1) (acks (consumers w c)))) (consumers w c) /\
    session w1 = session w /\ transaction w1 = transaction w /\ connection w1 = connection w.
Proof.
  intros Em Hp Hn. unfold count_pending. run_step. rewrite bind_self. records. rewrite !decide_True by done. records. rewrite Hn.
  assert (need_message (C := C) (A := A) d = ret m) as -> by (unfold need_message; by rewrite Em).
  rewrite bind_ret. cbv zeta. run_step.
  assert (forall v : World C A, match pendingAck (acks (consumers w c)) with
    | Some o => if negb (bool_decide (ack_type o = ACK_TYPE_CONSUMED)) && negb (isDeliveredAck o) then sendAck o false else ret tt
    | None => ret tt
    end v = (Ok tt, v)) as ->.
  { intros v. destruct tail as [|x tail]; [by rewrite Hp|]. destruct Hp as (a & -> & Ht & _). by rewrite Ht. }
  eexists. split; [reflexivity|]. records. rewrite !decide_True by done. by records.
Qed.

Lemma batch_step c blocks tail w0 w d : batches c w0 -> batch c blocks tail w0 w -> has_message d ->
  exists w', ackLater c d ACK_TYPE_CONSUMED w = (Ok tt, w') /\
    (batch c blocks (d :: tail) w0 w' \/ batch c (blocks ++ [d :: tail]) [] w0 w').
Proof.
  intros (Hm & Ht & Hq & Hc) [(l & Hw & Hl) Hp Hn [Hz1 Hz2] Hh Hs (S1 & S2 & S3 & S4) Ha] Hd.
  assert (isTransacted w = false) as Hnt by (unfold isTransacted; by rewrite S1, S2, Hm, Ht).
  destruct (need_message_ok (C := C) (A := A) d w Hd) as (m & Em & _).
  set (a := next_pending (pendingAck (acks (consumers w c))) (new_ack d m ACK_TYPE_CONSUMED (zlen tail + 1))).
  pose proof (next_pending_covers d m tail (pendingAck (acks (consumers w c))) Em Hp) as Hcov. fold a in Hcov.
  destruct (count_pending_ok c d w m tail Em Hp Hn) as (w1 & E1 & C1 & T1 & X1 & N1). fold a in C1.
  assert (tag_pending c w1 = (Ok tt, w1)) as Etag.
  { unfold tag_pending. rewrite bind_get. unfold isTransacted in *. by rewrite T1, X1, Hnt. }
  assert (half_window (consumers w1 c) = (prefetchSize (options (consumers w0 c)) <=? 2 * (zlen tail + 1))) as Hhalf.
  { unfold half_window. rewrite C1. records. rewrite Hz1, Hz2, S3. f_equal. lia. }
  unfold ackLater. rewrite bind_get, Hnt, bind_ret, (bind_ok _ _ _ _ _ E1), (bind_ok _ _ _ _ _ Etag).
  unfold send_window. rewrite bind_self, Hhalf.
  destruct (Z.leb_spec (prefetchSize (options (consumers w0 c))) (2 * (zlen tail + 1))) as [Hflush|Hflush].
  - assert (accepting w1) as Ha1 by (by apply (accepting_connection w)).
    rewrite C1. records. rewrite bind_sendAck by done. repeat run_step.
    eexists. split; [reflexivity|]. right. split; records; rewrite ?decide_True by done; records; rewrite ?C1; records; try done.
    + exists (l ++ [a]). rewrite N1, Hw, map_app, app_assoc. split; [done|]. apply Forall2_app; [done|]. by constructor.
    + by left.
    + apply Forall_app_2; [done|]. constructor; [|done]. pose proof (zlen_nonneg tail). autorewrite with amq_len. destruct Hh as [-> |Hh]; [change (zlen (@nil MessageDispatch)) with 0 in *|]; lia.
    + by rewrite T1, X1.
    + by eapply accepting_connection; [|apply accepting_sent, Ha1].
  - eexists. split; [reflexivity|]. left. split; rewrite ?C1; records; rewrite ?N1; eauto.
    + autorewrite with amq_len. lia.
    + right. autorewrite with amq_len. lia.
    + by rewrite T1, X1.
    + by apply (accepting_connection w).
Qed.

(** C10: A [DUPS_OK_ACKNOWLEDGE] consumer of a topic that is given the messages [ms] one after
    the other acknowledges them in order and each once: its acknowledgements stand for
    blocks of half the prefetch window, the pending one for the rest, which is less
    than half the window, and put together the blocks and the rest are [ms]. *)
Theorem batches_partition c w0 ms :
  batches c w0 -> accepting w0 -> Forall has_message ms ->
  pendingAck (acks (consumers w0 c)) = None -> deliveredCounter (acks (consumers w0 c)) = 0 ->
  additionalWindowSize (acks (consumers w0 c)) = 0 -> ackCounter (acks (consumers w0 c)) = 0 ->
  exists w blocks tail, iter_m (fun d => afterMessageIsConsumed c d false) ms w0 = (Ok tt, w) /\
    batch c blocks tail w0 w /\ concat (map reverse blocks) ++ reverse tail = ms.
Proof.
  intros Hb Ha Hms Hp Hn Hz1 Hz2.
  assert (batch c [] [] w0 w0) as H0.
  { split; try done; [|by left]. exists []. split; [by rewrite app_nil_r|constructor]. }
  assert (forall blocks tail w, batch c blocks tail w0 w ->
    exists w' blocks' tail', iter_m (fun d => afterMessageIsConsumed c d false) ms w = (Ok tt, w') /\
      batch c blocks' tail' w0 w' /\
      concat (map reverse blocks') ++ reverse tail' = (concat (map reverse blocks) ++ reverse tail) ++ ms) as Hall.
  { clear H0. induction Hms as [|d ms Hd Hms IH]; intros blocks tail w Hw.
    - exists w, blocks, tail. by rewrite app_nil_r.
    - destruct (batch_step c blocks tail w0 w d Hb Hw Hd) as (w1 & E1 & Hw1). cbn [iter_m].
      assert (afterMessageIsConsumed c d false w = (Ok tt, w1)) as E2.
      { rewrite after_batch; [unfold catch_amq; by apply rethrow_ok|].
        destruct Hw as [_ _ _ _ _ _ (S1 & S2 & S3 & S4) _]. unfold batches in *. by rewrite S1, S2, S3, S4. }
      rewrite (bind_ok _ _ _ _ _ E2).
      destruct Hw1 as [Hw1|Hw1]; destruct (IH _ _ _ Hw1) as (w' & bs & tl & E & Hw' & Ec); exists w', bs, tl;
        (split; [done|]); (split; [done|]); rewrite Ec, ?reverse_cons, ?map_app, ?concat_app; cbn [map concat];
        rewrite ?reverse_cons, ?app_nil_r, <- ?app_assoc; done. }
  destruct (Hall [] [] w0 H0) as (w' & bs & tl & ?). by exists w', bs, tl.
Qed.
End batches.

(** ** A refused acknowledgement *)

Section refused.
Context {C A : Type} `{CHANNEL : MessageDispatchChannel C MessageDispatch} `{AUDIT : Audit A}.
Implicit Types (w : World C A) (c : Z).

(** An open consumer of an [AUTO_ACKNOWLEDGE] session that sends its acknowledgements one
    by one. *)
Record auto c w : Prop := {
  auto_mode : ackMode (session w) = AUTO_ACKNOWLEDGE;
  auto_tx : transactionId (transaction w) = None;
  auto_each : optimizeAcknowledge (acks (consumers w c)) = false;
  auto_open : isClosed (unconsumed (consumers w c)) = false;
}.

Lemma auto_transacted c w : auto c w -> isTransacted w = false.
Proof. intros [Hm Ht _ _]. unfold isTransacted. by rewrite Hm, Ht. Qed.

Lemma auto_isEach c w : auto c w -> isAutoAcknowledgeEach c w = true.
Proof. intros [Hm _ _ _]. unfold isAutoAcknowledgeEach, isAutoAcknowledge. by rewrite Hm. Qed.

Lemma sendAck_refused a w : connection_closed (connection w) = false -> transportFailed (connection w) = false ->
  sendAcksAsync (connection w) = false -> isTransacted w = false -> next_reply (connection w) = Refused ->
  exists w', sendAck a false w = (Throw ActiveMQException, w') /\ consumers w' = consumers w /\ session w' = session w /\ transaction w' = transaction w.
Proof.
  intros H1 H2 H3 H4 H5. unfold sendAck. rewrite bind_get, H3, H4. cbn [orb].
  unfold bind, on_connection, connection_syncRequest, always_amq, rethrow, checkClosedOrFailed, isClosed_check, bind, get.
  rewrite H1. cbn. rewrite H2. cbn. unfold transport, bind, get, modify. rewrite H5. cbn. by eexists.
Qed.

(** Where [deliveringAcks] is set, an [AUTO_ACKNOWLEDGE] consumer acknowledges nothing. *)
Lemma stuck c w : auto c w -> deliveringAcks (acks (consumers w c)) = true ->
  (forall d, afterMessageIsConsumed c d false w = (Ok tt, w)) /\ deliverAcks c w = (Ok tt, w).
Proof.
  intros Ha Hd. split.
  - intros d. unfold afterMessageIsConsumed, catch_amq, rethrow. rewrite bind_get.
    by rewrite (auto_open c w Ha), (auto_transacted c w Ha), (auto_isEach c w Ha), Hd.
  - unfold deliverAcks, catch_amq, rethrow. by rewrite bind_get, Hd.
Qed.

(** C34: After a message that the broker accepts the acknowledgement of, everything delivered
    is acknowledged at once and [deliveringAcks] is clear. If the broker refuses the
    acknowledgement, the exception leaves [deliveringAcks] set and the messages dropped:
    neither they nor any message after them is acknowledged for as long as the flag is
    set. *)
Theorem auto_acknowledge c w d ds :
  auto c w -> deliveringAcks (acks (consumers w c)) = false -> delivered (consumers w c) = d :: ds ->
  Forall has_message (d :: ds) -> connection_closed (connection w) = false -> transportFailed (connection w) = false ->
  (accepting w ->
   exists a w', afterMessageIsConsumed c d false w = (Ok tt, w') /\ wire (connection w') = wire (connection w) ++ [CAck a] /\
     ack_all ACK_TYPE_CONSUMED (d :: ds) None a /\ delivered (consumers w' c) = [] /\
     deliveringAcks (acks (consumers w' c)) = false) /\
  (sendAcksAsync (connection w) = false -> next_reply (connection w) = Refused ->
   exists w', afterMessageIsConsumed c d false w = (Throw ActiveMQException, w') /\ delivered (consumers w' c) = [] /\
     (forall d', afterMessageIsConsumed c d' false w' = (Ok tt, w')) /\ deliverAcks c w' = (Ok tt, w')).
Proof.
  intros Ha Hda Hd Hm H1 H2.
  set (w1 := set_consumer c (set_acks (set_deliveringAcks true (acks (consumers w c))) (consumers w c)) w).
  assert (delivered (consumers w1 c) = d :: ds) as Hd1 by (unfold w1; records; by rewrite decide_True).
  destruct (makeAck_covers c ACK_TYPE_CONSUMED w1 d ds Hd1 Hm) as (a & Ea & Hall).
  set (w2 := set_consumer c (set_delivered [] (consumers w1 c)) w1).
  assert (afterMessageIsConsumed c d false w =
    catch_amq (sendAck a false ;;; update_acks c (set_deliveringAcks false)) w2) as E.
  { unfold afterMessageIsConsumed, catch_amq, rethrow. rewrite bind_get.
    rewrite (auto_open c w Ha), (auto_transacted c w Ha), (auto_isEach c w Ha), Hda. run_step. fold w1.
    unfold ack_each. rewrite bind_assoc, bind_self, Hd1.
    assert (optimizeAcknowledge (acks (consumers w1 c)) = false) as ->.
    { unfold w1. records. rewrite decide_True by done. records. apply (auto_each c w Ha). }
    rewrite bind_assoc, (bind_ok _ _ _ _ _ Ea). rewrite bind_assoc. run_step. by fold w2. }
  assert (consumers w2 c = set_delivered [] (set_acks (set_deliveringAcks true (acks (consumers w c))) (consumers w c))) as Ec.
  { unfold w2, w1. records. by rewrite !decide_True. }
  rewrite E. clear E. unfold catch_amq, rethrow. split.
  - intros Hacc. rewrite bind_sendAck by (by apply (accepting_connection w)).
    exists a. eexists. split; [reflexivity|]. split; [reflexivity|]. split; [done|].
    records. rewrite decide_True by done. records. by rewrite Ec.
  - intros H3 H4.
    destruct (sendAck_refused a w2) as (w' & E & C' & T' & X'); [done..| |done|].
    { unfold isTransacted in *. apply (auto_transacted c w Ha). }
    unfold bind. rewrite E. exists w'. rewrite bool_decide_true by done. split; [done|]. rewrite C', Ec. split; [done|].
    apply stuck; [|by rewrite C', Ec]. destruct Ha as [A1 A2 A3 A4].
    split; [by rewrite T'|by rewrite X'|by rewrite C', Ec|by rewrite C', Ec].
Qed.
End refused.

(** ** Examples *)

(** A consumer that has the messages [ns] delivered, newest first. *)
Definition sample_delivered (c prefetch : Z) (is_queue : bool) (ns : list Z) : Consumer (Fifo MessageDispatch) :=
  set_delivered (map (sample_dispatch c) ns) (sample_consumer c prefetch is_queue []).

Lemma sample_accepting mode ids k : accepting (sample_world mode ids k []).
Proof. split; [reflexivity..|constructor]. Qed.

Lemma sample_messages c ns : Forall has_message (map (sample_dispatch c) ns).
Proof. apply Forall_map, Forall_true. intros n. discriminate. Qed.

Lemma acknowledge_covers_witness :
  let w := sample_world CLIENT_ACKNOWLEDGE [1] (fun c => sample_delivered c 10 true [3; 2; 1]) [] in
  exists a w', acknowledge 1 w = (Ok tt, w') /\ wire (connection w') = [CAck a] /\
    ack_first a = Some (sample_id 1) /\ ack_last a = sample_id 3 /\ ack_count a = 3 /\ delivered (consumers w' 1) = [].
Proof.
  intros w.
  destruct (acknowledge_covers 1 w (sample_dispatch 1 3) (map (sample_dispatch 1) [2; 1])) as (a & w' & E & N & H & D & _).
  - reflexivity.
  - apply (sample_messages 1 [3; 2; 1]).
  - reflexivity.
  - reflexivity.
  - discriminate.
  - apply sample_accepting.
  - exists a, w'. destruct H as (_ & _ & H1 & H2 & H3 & _). injection H2 as H2. by split_and!.
Defined.

Lemma batches_partition_witness :
  let w0 := sample_world DUPS_OK_ACKNOWLEDGE [1] (fun c => sample_consumer c 4 false []) [] in
  let ms := map (sample_dispatch 1) [1; 2; 3; 4; 5] in
  exists w blocks tail, iter_m (fun d => afterMessageIsConsumed 1 d false) ms w0 = (Ok tt, w) /\
    batch 1 blocks tail w0 w /\ concat (map reverse blocks) ++ reverse tail = ms.
Proof.
  intros w0 ms. apply (batches_partition 1 w0 ms).
  - repeat split.
  - apply sample_accepting.
  - apply sample_messages.
  - reflexivity.
  - reflexivity.
  - reflexivity.
  - reflexivity.
Defined.

Lemma auto_acknowledge_witness :
  let w := sample_world AUTO_ACKNOWLEDGE [1] (fun c => sample_delivered c 10 true [1]) [Refused] in
  exists w', afterMessageIsConsumed 1 (sample_dispatch 1 1) false w = (Throw ActiveMQException, w') /\
    afterMessageIsConsumed 1 (sample_dispatch 1 2) false w' = (Ok tt, w').
Proof.
  intros w.
  destruct (auto_acknowledge 1 w (sample_dispatch 1 1) []) as [_ H].
  - split; reflexivity.
  - reflexivity.
  - reflexivity.
  - apply (sample_messages 1 [1]).
  - reflexivity.
  - reflexivity.
  - destruct H as (w' & E & _ & H & _); [reflexivity|reflexivity|]. exists w'. split; [exact E|apply H].
Defined.
