(* ===== verification/ConsumerRollback.v ===== *)
(** * What a consumer gives back (ActiveMQConsumerKernel.cpp, [rollback]): the messages of
    a transaction that was rolled back, of a session that was recovered, or of a listener
    that failed go back to the channel, or are given up. *)
From S2P Require Import Prelude Floating Commands DispatchChannel RedeliveryPolicy TransactionContext SessionState ConsumerKernel SessionKernel SessionSamples ConsumerAcks.

Section rollback.
Context {C A : Type} `{CHANNEL : MessageDispatchChannel C MessageDispatch} {LAWS : ChannelLaws C MessageDispatch} `{AUDIT : Audit A}.
Context (draw : World C A -> bool * double).
Implicit Types (w : World C A) (c : Z).

(** The same state but for what the audit knows. *)
Definition audited w w' : Prop := exists a, w' = set_connection (set_audit a (connection w)) w.

Lemma audited_refl w : audited w w.
Proof. exists (audit (connection w)). by destruct w as [? ? ? ? ? ? [] ? ? ? ?]. Qed.
Lemma audited_trans w1 w2 w3 : audited w1 w2 -> audited w2 w3 -> audited w1 w3.
Proof. intros [a ->] [b ->]. by exists b. Qed.

Lemma audit_rollback_audited c d w : has_message d -> exists w', audit_rollback c d w = (Ok tt, w') /\ audited w w'.
Proof.
  intros Hd. destruct (need_message_ok d w Hd) as (m & _ & En). unfold audit_rollback. rewrite (bind_ok _ _ _ _ _ En).
  unfold on_connection, rollbackDuplicate, bind, get.
  destruct (_ || _); eexists; (split; [reflexivity|]).
  - cbn. exists (audit (connection w)). by destruct w as [? ? ? ? ? ? [] ? ? ? ?].
  - by eexists.
Qed.

Lemma iter_audit_rollback c l w : Forall has_message l -> exists w', iter_m (audit_rollback c) l w = (Ok tt, w') /\ audited w w'.
Proof.
  intros Hl. revert w. induction Hl as [|d l Hd Hl IH]; intros w; [exists w; split; [done|apply audited_refl]|].
  destruct (audit_rollback_audited c d w Hd) as (w1 & E1 & A1). destruct (IH w1) as (w2 & E2 & A2).
  exists w2. cbn [iter_m]. rewrite (bind_ok _ _ _ _ _ E1). split; [done|]. by eapply audited_trans.
Qed.

Lemma accepting_audit w w' : (exists a, connection w' = set_audit a (connection w)) -> accepting w -> accepting w'.
Proof. intros [a E] []. split; by rewrite E. Qed.

Lemma bump_message d : has_message d -> has_message (bump d).
Proof. unfold has_message, bump. cbn. by destruct (message d). Qed.

(** Put back into the channel, the newest first. *)
Definition put_back (l : list MessageDispatch) (ch : C) : C := foldl (fun ch d => enqueueFirst d ch) ch l.

Lemma put_back_contents l ch : channel_ok ch ->
  contents (put_back l ch) = foldl (fun l d => insert_front rank d l) (contents ch) l /\ channel_ok (put_back l ch) /\
  isClosed (put_back l ch) = isClosed ch /\ isRunning (put_back l ch) = isRunning ch.
Proof.
  revert ch. induction l as [|d l IH]; intros ch Hok; [done|]. cbn [put_back foldl].
  destruct (ok_enqueue d ch Hok) as [_ Hok']. destruct (IH _ Hok') as (E1 & E2 & E3 & E4).
  destruct (flags_kept d ch) as (_ & _ & F1 & F2). unfold put_back in *.
  by rewrite E1, E3, E4, contents_enqueueFirst, F1, F2.
Qed.

(** A consumer that has the messages [d :: ds] to give back, newest first, [m] the
    message of the newest. *)
Record gives_back c w d ds m p : Prop := {
  gb_delivered : delivered (consumers w c) = d :: ds;
  gb_messages : Forall has_message (d :: ds);
  gb_newest : message d = Some m;
  gb_clear : isClearDeliveredList (redelivery (consumers w c)) = false;
  gb_previous : previouslyDelivered (redelivery (consumers w c)) = None;
  gb_optimize : optimizeAcknowledge (acks (consumers w c)) = false;
  gb_policy : redeliveryPolicy (options (consumers w c)) = Some p;
  gb_listener : listener (options (consumers w c)) = false;
  gb_ok : channel_ok (unconsumed (consumers w c));
  gb_open : isClosed (unconsumed (consumers w c)) = false;
  gb_accepting : accepting w;
}.

Definition next_delay_of c w (p : RedeliveryPolicy) (m : Message) : outcome Z :=
  if 0 <? redeliveryCounter m
  then getNextRedeliveryDelay (draw w).1 (draw w).2 p (current_redeliveryDelay (redelivery (consumers w c)))
  else Ok (initialRedeliveryDelay p).

(** The messages given back: with a redelivery more each, and the delay set. *)
Definition given_back c w d ds x : Consumer C :=
  set_delivered (map bump (d :: ds)) (set_redelivery (set_redeliveryDelay x (redelivery (consumers w c))) (consumers w c)).

(** What else stays as it was. *)
Record same_but c w w' : Prop := {
  same_session : session w' = session w;
  same_transaction : transaction w' = transaction w;
  same_ids : consumerIds w' = consumerIds w;
  same_scheduled : scheduled w' = scheduled w;
  same_wire : wire (connection w') = wire (connection w);
  same_others : forall c', c' <> c -> consumers w' c' = consumers w c';
}.

Lemma rollback_prepares c w d ds m p x : gives_back c w d ds m p -> next_delay_of c w p m = Ok x ->
  exists w', consumers w' c = given_back c w d ds x /\ same_but c w w' /\ accepting w' /\
  consumer_rollback draw c w =
    (if negb (maximumRedeliveries p =? NO_MAXIMUM_REDELIVERIES) && (maximumRedeliveries p <? redeliveryCounter m + 1)
     then nack_delivered c p (bump d) (List.last (map bump (d :: ds)) (bump d))
     else deliver_again c (redeliveryCounter m) (bump d) (List.last (map bump (d :: ds)) (bump d))) w'.
Proof.
  intros [H1 H2 H3 H4 H5 H6 H7 H8 H9 H10 H11] Hx.
  set (w1 := set_consumer c (set_redelivery (set_redeliveryDelay x (redelivery (consumers w c))) (consumers w c)) w).
  set (w2 := set_consumer c (set_delivered (map bump (d :: ds)) (consumers w1 c)) w1).
  destruct (iter_audit_rollback c (map bump (d :: ds)) w2) as (w3 & E3 & a & ->).
  { apply Forall_map. eapply Forall_impl; [|exact H2]. apply bump_message. }
  exists (set_connection (set_audit a (connection w2)) w2).
  assert (consumers w2 c = given_back c w d ds x) as Ec by (unfold w2, w1, given_back; records; by rewrite !decide_True).
  split; [exact Ec|]. split; [|split; [apply (accepting_audit w); [by exists a|done]|]].
  { split; try done. intros c' Hc'. unfold w2, w1. records. by rewrite !decide_False. }
  unfold consumer_rollback. rewrite (bind_ok _ _ _ _ _ (clear_idle c w H4)), bind_self, H6. cbn [andb]. rewrite bind_ret.
  unfold rollback_delivered. rewrite !bind_assoc.
  assert (rollbackPreviouslyDeliveredAndNotRedelivered c w = (Ok tt, w)) as Ep.
  { unfold rollbackPreviouslyDeliveredAndNotRedelivered. by rewrite bind_self, H5. }
  rewrite (bind_ok _ _ _ _ _ Ep), bind_assoc, bind_self, H1.
  assert (need_message (C := C) (A := A) d = ret m) as -> by (unfold need_message; by rewrite H3).
  rewrite bind_assoc, bind_ret, H7, bind_assoc.
  assert (next_delay draw c p (redeliveryCounter m) w = (Ok tt, w1)) as En.
  { unfold next_delay. rewrite bind_get. unfold bind, lift. unfold next_delay_of in Hx. by rewrite Hx. }
  rewrite (bind_ok _ _ _ _ _ En), bind_assoc. run_step. fold w2. rewrite bind_assoc, (bind_ok _ _ _ _ _ E3). rewrite bind_assoc.
  set (X := if _ && _ then nack_delivered _ _ _ _ else _). set (w3 := set_connection _ w2).
  unfold bind. destruct (X w3) as [[[]|e| |] w4]; try done. rewrite H8. done.
Qed.

Lemma bumped_last (d : MessageDispatch) ds : List.last (map bump (d :: ds)) (bump d) = bump (List.last (d :: ds) d).
Proof. change (bump d :: map bump ds) with (map bump (d :: ds)). generalize (d :: ds). intros l. induction l as [|x [|y l] IH]; [done..|]. apply IH. Qed.

Lemma need_bumped d m w : message d = Some m ->
  exists m', need_message (C := C) (A := A) (bump d) w = (Ok m', w) /\ messageId m' = messageId m.
Proof. intros Hm. unfold need_message, bump. cbn. rewrite Hm. by eexists. Qed.

(** The two ends of the messages given back. *)
Lemma need_ends d ds w : Forall has_message (d :: ds) ->
  exists m m', message_id d = Some (messageId m) /\ message_id (List.last (d :: ds) d) = Some (messageId m') /\
    need_message (C := C) (A := A) (bump d) w = (Ok m, w) /\
    need_message (C := C) (A := A) (List.last (map bump (d :: ds)) (bump d)) w = (Ok m', w).
Proof.
  intros Hm. destruct (need_message_ok (C := C) (A := A) d w) as (m & Em & _); [by inversion Hm|].
  destruct (need_message_ok (C := C) (A := A) (List.last (d :: ds) d) w) as (m' & Em' & _).
  { rewrite Forall_forall in Hm. apply Hm, last_in. }
  destruct (need_bumped d m w Em) as (n & En & Hn). destruct (need_bumped _ m' w Em') as (n' & En' & Hn').
  exists n, n'. unfold message_id. rewrite Em, Em', Hn, Hn', bumped_last. by split_and!.
Qed.

(** The channel starts. *)
Lemma consumer_start_open c w : isClosed (unconsumed (consumers w c)) = false ->
  exists w', consumer_start c w = (Ok tt, w') /\
    consumers w' c = set_unconsumed (start (unconsumed (consumers w c))) (set_life (set_started true (life (consumers w c))) (consumers w c)) /\
    scheduled w' = scheduled w /\ connection w' = connection w.
Proof.
  intros Ho. unfold consumer_start. rewrite bind_self, Ho. repeat run_step.
  set (v := set_consumer c _ _).
  assert (consumers v c = set_unconsumed (start (unconsumed (consumers w c))) (set_life (set_started true (life (consumers w c))) (consumers w c))) as Ev.
  { unfold v. by repeat run_step. }
  unfold executor_wakeup. rewrite bind_get. destruct (sessionAsyncDispatch (session v)); [|by exists v].
  destruct (taskRunner v); [by exists v|]. cbn [negb]. destruct (isRunning (queue v)); [|by exists v].
  eexists. by split_and!.
Qed.

(** C23: The messages rolled back are delivered again: they go back into the channel before
    what waits there, each with one redelivery more, and the broker is told if they had
    come back before. The consumer starts after the delay of its policy; its channel
    stands still until then. *)
Theorem rollback_redelivers c w d ds m p x :
  gives_back c w d ds m p -> next_delay_of c w p m = Ok x ->
  maximumRedeliveries p = NO_MAXIMUM_REDELIVERIES \/ redeliveryCounter m + 1 <= maximumRedeliveries p ->
  nonBlockingRedelivery (options (consumers w c)) = false -> c ∈ consumerIds w ->
  exists w' l, consumer_rollback draw c w = (Ok tt, w') /\
    contents (unconsumed (consumers w' c)) =
      foldl (fun l d => insert_front rank d l) (contents (unconsumed (consumers w c))) (map bump (d :: ds)) /\
    delivered (consumers w' c) = [] /\
    wire (connection w') = wire (connection w) ++ map CAck l /\
    (if 0 <? redeliveryCounter m then exists a, l = [a] /\ ack_all ACK_TYPE_REDELIVERED (d :: ds) None a else l = []) /\
    (if 0 <? x then scheduled w' = scheduled w ++ [(x, StartConsumerTask c)] /\ isRunning (unconsumed (consumers w' c)) = false
     else scheduled w' = scheduled w /\ isRunning (unconsumed (consumers w' c)) = true).
Proof.
  intros Hg Hx Hmax Hnb Hin. destruct (rollback_prepares c w d ds m p x Hg Hx) as (w1 & C1 & S1 & A1 & ->).
  rewrite (proj2 (andb_false_iff _ _)) by (destruct Hmax; [left; apply negb_false_iff|right]; lia). clear Hmax Hx.
  destruct (need_ends d ds w1 (gb_messages _ _ _ _ _ _ Hg)) as (n & n' & E1 & E2 & En & En').
  unfold deliver_again. rewrite (bind_ok _ _ _ _ _ En), (bind_ok _ _ _ _ _ En'), bind_self, C1. unfold given_back at 1. records.
  set (a := ack_from (Some (messageId n')) (new_ack (bump d) n ACK_TYPE_REDELIVERED (zlen (map bump (d :: ds))))).
  set (l := if 0 <? redeliveryCounter m then [a] else []).
  set (w2 := if 0 <? redeliveryCounter m then sent_on (CAck a) w1 else w1).
  assert ((if 0 <? redeliveryCounter m then sendAck a false else ret tt) w1 = (Ok tt, w2)) as Es.
  { unfold w2. destruct (0 <? redeliveryCounter m); [by apply sendAck_accepted|done]. }
  rewrite (bind_ok _ _ _ _ _ Es).
  assert (consumers w2 c = given_back c w d ds x) as C2 by (unfold w2; by destruct (0 <? redeliveryCounter m)).
  assert (wire (connection w2) = wire (connection w) ++ map CAck l /\ scheduled w2 = scheduled w /\ consumerIds w2 = consumerIds w) as (N2 & K2 & I2).
  { destruct S1 as [_ _ I K N _]. unfold w2, l. rewrite <- I, <- K, <- N.
    destruct (0 <? redeliveryCounter m); cbn; by rewrite ?app_nil_r. }
  change (options (given_back c w d ds x)) with (options (consumers w c)).
  change (unconsumed (given_back c w d ds x)) with (unconsumed (consumers w c)).
  change (current_redeliveryDelay (redelivery (given_back c w d ds x))) with x.
  rewrite Hnb, (gb_open _ _ _ _ _ _ Hg). repeat run_step.
  match goal with |- context [if _ then _ else consumer_start c] => idtac end.
  set (w3 := set_consumer c _ _).
  destruct (ok_control _ (gb_ok _ _ _ _ _ _ Hg)) as (_ & Hok & _).
  destruct (contents_control (unconsumed (consumers w c))) as (_ & Hstop & _).
  destruct (put_back_contents (map bump (d :: ds)) _ Hok) as (P1 & P2 & P3 & P4). rewrite Hstop in P1.
  destruct (running_stop (unconsumed (consumers w c))) as [R1 R2]. rewrite R1 in P4. rewrite R2, (gb_open _ _ _ _ _ _ Hg) in P3.
  assert (unconsumed (consumers w3 c) = put_back (map bump (d :: ds)) (stop (unconsumed (consumers w c))) /\
    delivered (consumers w3 c) = [] /\ connection w3 = connection w2 /\ scheduled w3 = scheduled w2 /\ consumerIds w3 = consumerIds w2)
    as (U3 & D3 & N3 & K3 & I3).
  { unfold w3. repeat run_step. rewrite C2. by split_and!. }
  clearbody w3.
  assert (if 0 <? redeliveryCounter m then exists a0, l = [a0] /\ ack_all ACK_TYPE_REDELIVERED (d :: ds) None a0 else l = []) as Hl.
  { unfold l. destruct (0 <? redeliveryCounter m); [|done]. exists a. split; [done|]. unfold ack_all, a.
    cbn [ack_type ack_consumer ack_first ack_last ack_count ack_transaction ack_poison ack_from new_ack]. rewrite E1, E2.
    split_and!; try done. unfold zlen. by rewrite length_map. }
  destruct (0 <? x); cbn [andb negb].
  - rewrite bind_get. unfold lookupConsumerKernel. rewrite I3, I2, decide_True by done.
    eexists. exists l. split; [reflexivity|]. cbn. rewrite U3, D3, N3, N2, K3, K2. by split_and!.
  - destruct (consumer_start_open c w3) as (w4 & E4 & C4 & K4 & N4); [by rewrite U3|].
    exists w4, l. rewrite E4, C4, K4, N4. records. rewrite U3, D3, N3, N2, K3, K2.
    destruct (contents_control (put_back (map bump (d :: ds)) (stop (unconsumed (consumers w c))))) as (-> & _).
    destruct (running_start (put_back (map bump (d :: ds)) (stop (unconsumed (consumers w c))))) as [-> _]. rewrite P3. by split_and!.
Qed.

(** C24: Messages that have come back too often are given up: one acknowledgement says of all
    of them, with the limit, that they are poison, none goes back into the channel, and
    the consumer runs on with the delay reset. *)
Theorem rollback_gives_up c w d ds m p x :
  gives_back c w d ds m p -> next_delay_of c w p m = Ok x ->
  maximumRedeliveries p <> NO_MAXIMUM_REDELIVERIES -> maximumRedeliveries p < redeliveryCounter m + 1 ->
  exists w' a, consumer_rollback draw c w = (Ok tt, w') /\
    wire (connection w') = wire (connection w) ++ [CAck a] /\ ack_all ACK_TYPE_POISON (d :: ds) None a /\
    ack_poison a = Some (RedeliveryExceeds (maximumRedeliveries p) (rollbackCause d)) /\
    contents (unconsumed (consumers w' c)) = contents (unconsumed (consumers w c)) /\
    isRunning (unconsumed (consumers w' c)) = true /\ delivered (consumers w' c) = [] /\
    current_redeliveryDelay (redelivery (consumers w' c)) = 0 /\ scheduled w' = scheduled w.
Proof.
  intros Hg Hx Hmax1 Hmax2. destruct (rollback_prepares c w d ds m p x Hg Hx) as (w1 & C1 & S1 & A1 & ->).
  rewrite (proj2 (andb_true_iff _ _)) by (split; [apply negb_true_iff|]; lia).
  destruct (need_ends d ds w1 (gb_messages _ _ _ _ _ _ Hg)) as (n & n' & E1 & E2 & En & En').
  unfold nack_delivered. rewrite (bind_ok _ _ _ _ _ En), (bind_ok _ _ _ _ _ En'), bind_self, C1.
  rewrite bind_sendAck by done. set (a := ack_because _ _). set (w2 := sent_on _ w1).
  change (unconsumed (given_back c w d ds x)) with (unconsumed (consumers w c)).
  change (options (given_back c w d ds x)) with (options (consumers w c)).
  rewrite (gb_open _ _ _ _ _ _ Hg). repeat run_step.
  set (w3 := set_consumer c _ _).
  assert (unconsumed (consumers w3 c) = unconsumed (consumers w c) /\ delivered (consumers w3 c) = [] /\
    current_redeliveryDelay (redelivery (consumers w3 c)) = 0 /\ wire (connection w3) = wire (connection w) ++ [CAck a] /\
    scheduled w3 = scheduled w) as (U3 & D3 & X3 & N3 & K3).
  { unfold w3. repeat run_step. change (consumers w2 c) with (consumers w1 c). rewrite C1. destruct S1 as [_ _ _ K N _].
    split_and!; [done..| |done]. cbn. by rewrite N. }
  clearbody w3. destruct (contents_control (unconsumed (consumers w c))) as (Hstart & _).
  destruct (running_start (unconsumed (consumers w c))) as [Hrun _]. rewrite (gb_open _ _ _ _ _ _ Hg) in Hrun.
  assert (ack_all ACK_TYPE_POISON (d :: ds) None a) as Hall.
  { unfold ack_all, a. cbn [ack_type ack_consumer ack_first ack_last ack_count ack_transaction ack_poison ack_from ack_because new_ack].
    rewrite E1, E2. split_and!; try done. unfold given_back. cbn [delivered set_delivered]. unfold zlen. by rewrite length_map. }
  assert (exists w4, (if nonBlockingRedelivery (options (consumers w c))
     then if isRunning (unconsumed (consumers w c)) then ret tt else update c (fun k => set_unconsumed (start (unconsumed k)) k)
     else consumer_start c) w3 = (Ok tt, w4) /\
    contents (unconsumed (consumers w4 c)) = contents (unconsumed (consumers w c)) /\ isRunning (unconsumed (consumers w4 c)) = true /\
    delivered (consumers w4 c) = [] /\ redelivery (consumers w4 c) = redelivery (consumers w3 c) /\
    connection w4 = connection w3 /\ scheduled w4 = scheduled w3) as (w4 & E4 & H1 & H2 & H3 & H4 & H5 & H6).
  { destruct (nonBlockingRedelivery _).
    - destruct (isRunning (unconsumed (consumers w c))) eqn:Hr.
      + exists w3. rewrite U3, D3. by split_and!.
      + eexists. split; [reflexivity|]. repeat run_step. records. rewrite U3, Hstart, Hrun. by split_and!.
    - destruct (consumer_start_open c w3) as (w4 & E4 & C4 & K4 & N4); [rewrite U3; apply (gb_open _ _ _ _ _ _ Hg)|].
      exists w4. rewrite C4, K4, N4. records. rewrite U3, Hstart, Hrun. by split_and!. }
  exists w4, a. rewrite E4, H5, H6, N3, K3, H1, H2, H3, H4, X3. by split_and!.
Qed.
End rollback.

(** Of messages of one rank: in the order in which they were delivered. *)
Lemma insert_front_same {D} (rank : D -> Z) (l k : list D) r : Forall (fun d => rank d = r) l -> Forall (fun d => rank d <= r) k ->
  foldl (fun l d => insert_front rank d l) k l = reverse l ++ k.
Proof.
  intros Hl. revert k. induction Hl as [|d l Hd Hl IH]; intros k Hk; [done|]. cbn [foldl].
  assert (insert_front rank d k = d :: k) as ->.
  { destruct Hk as [|x k Hx Hk]; [done|]. cbn [insert_front]. by rewrite (proj2 (Z.leb_le _ _)) by lia. }
  rewrite IH by (constructor; [lia|done]). by rewrite reverse_cons, <- app_assoc.
Qed.

(** ** Examples *)

(** A consumer that has given 3, 2 and 1 back once before, with 4 waiting. *)
Definition sample_returned (c limit delay : Z) : Consumer (Fifo MessageDispatch) :=
  mkConsumer (mkOptions 10 false true false false true 0 0 (Some (sample_policy limit delay)) false)
    (mkFifo false true [sample_dispatch c 4]) (map (fun n => bump (sample_dispatch c n)) [3; 2; 1])
    (mkAcks None 3 0 0 false false 0) (mkRedelivery 0 None false 0) (mkLife true false false false 3 None false).

Lemma sample_gives_back limit delay m : message (bump (sample_dispatch 1 3)) = Some m ->
  gives_back (LAWS := Fifo_laws) 1 (sample_world SESSION_TRANSACTED [1] (fun c => sample_returned c limit delay) [])
    (bump (sample_dispatch 1 3)) (map (fun n => bump (sample_dispatch 1 n)) [2; 1]) m (sample_policy limit delay).
Proof.
  intros Hm. split; try done.
  change (Forall has_message (map bump (map (sample_dispatch 1) [3; 2; 1]))). apply Forall_map. eapply Forall_impl; [|apply sample_messages].
  apply bump_message.
Qed.

Lemma rollback_redelivers_witness :
  let w := sample_world SESSION_TRANSACTED [1] (fun c => sample_returned c 6 500) [] in
  exists w' l, consumer_rollback no_draw 1 w = (Ok tt, w') /\
    fifo_channel (unconsumed (consumers w' 1)) = map (fun n => bump (bump (sample_dispatch 1 n))) [1; 2; 3] ++ [sample_dispatch 1 4] /\
    wire (connection w') = map CAck l /\ length l = 1%nat /\ scheduled w' = [(500, StartConsumerTask 1)].
Proof.
  intros w.
  destruct (rollback_redelivers (LAWS := Fifo_laws) no_draw 1 w _ _ _ _ 500 (sample_gives_back 6 500 _ eq_refl)) as (w' & l & E & H1 & _ & H2 & H3 & H4 & _).
  - reflexivity.
  - right. vm_compute. discriminate.
  - reflexivity.
  - by apply list_elem_of_singleton.
  - exists w', l. split; [exact E|]. split; [exact H1|]. split; [exact H2|]. split; [|exact H4].
    destruct H3 as (a & -> & _). reflexivity.
Defined.

Lemma rollback_gives_up_witness :
  let w := sample_world SESSION_TRANSACTED [1] (fun c => sample_returned c 1 500) [] in
  exists w' a, consumer_rollback no_draw 1 w = (Ok tt, w') /\ wire (connection w') = [CAck a] /\
    ack_type a = ACK_TYPE_POISON /\ ack_count a = 3 /\ fifo_channel (unconsumed (consumers w' 1)) = [sample_dispatch 1 4].
Proof.
  intros w.
  destruct (rollback_gives_up (LAWS := Fifo_laws) no_draw 1 w _ _ _ _ 500 (sample_gives_back 1 500 _ eq_refl)) as (w' & a & E & H1 & H2 & _ & H3 & _).
  - reflexivity.
  - vm_compute. discriminate.
  - vm_compute. reflexivity.
  - exists w', a. destruct H2 as (T & _ & _ & _ & Hn & _). split; [exact E|]. split; [exact H1|]. split; [exact T|]. split; [exact Hn|exact H3].
Defined.
