(* ===== verification/SessionCommit.v ===== *)
(** * Ends of a session's transactions and of its consumers (ActiveMQSessionKernel.cpp):
    what a commit settles, what a refused one leaves, and what an exception does to the
    lock of the consumers. *)
From S2P Require Import Prelude Floating Commands DispatchChannel RedeliveryPolicy TransactionContext SessionState ConsumerKernel SessionKernel SessionSamples SessionTransactions ConsumerAcks.

Section commit.
Context {C A : Type} `{CHANNEL : MessageDispatchChannel C MessageDispatch} `{AUDIT : Audit A}.
Context (draw : World C A -> bool * double).
Implicit Types (w : World C A) (c : Z).
Abbreviation W := (World C A).

#[local] Instance session_synchronization : Synchronization W Synchronizer := World_synchronization draw.

(** A transacted session, outside an XA transaction. *)
Lemma commit_is_context w : session_closed (session w) = false -> ackMode (session w) = SESSION_TRANSACTED ->
  session_commit draw w = catch_cms TransactionContext.commit w.
Proof.
  intros Hc Hm. unfold session_commit, catch_cms, rethrow, session_checkClosed. rewrite bind_assoc, bind_get, Hc, bind_ret, bind_get.
  unfold isTransacted. by rewrite Hm.
Qed.

Lemma connection_checked w : connection_closed (connection w) = false -> on_connection isClosed_check w = (Ok tt, w).
Proof. intros E. unfold on_connection, isClosed_check, bind, get. rewrite E. cbn. by destruct w. Qed.

(** What the callbacks of a commit do to a consumer: nothing is delivered any more, and
    the synchronization is not registered. *)
Definition settled (k : Consumer C) : Prop :=
  delivered k = [] /\ previouslyDelivered (redelivery k) = None /\ current_redeliveryDelay (redelivery k) = 0 /\
  synchronizationRegistered (life k) = false.

Definition settle (k : Consumer C) : Consumer C :=
  set_life (set_registered false (life k))
    (set_redelivery (set_redeliveryDelay 0 (set_previouslyDelivered None (redelivery k))) (set_delivered [] k)).

Lemma settle_settled k : settled (settle k).
Proof. done. Qed.

Lemma afterCommit_settles c w :
  exists w', sync_afterCommit (TransactionSynchronization c) w = (Ok tt, w') /\
    consumers w' c = settle (consumers w c) /\ (forall c', c' <> c -> consumers w' c' = consumers w c') /\
    transaction w' = transaction w /\ connection w' = connection w.
Proof.
  cbn [sync_afterCommit session_synchronization World_synchronization nested callbacks]. unfold consumer_commit, clearPreviouslyDelivered, setSynchronizationRegistered. repeat run_step.
  eexists. split; [reflexivity|]. rewrite !consumers_set. split; [done|]. split; [|done].
  intros c' Hc'. by rewrite !consumers_other.
Qed.

Lemma settles_all (cs : list Z) w :
  exists w', iter_m (sync_afterCommit) (map TransactionSynchronization cs) w = (Ok tt, w') /\
    (forall c, c ∈ cs -> settled (consumers w' c)) /\ (forall c, c ∉ cs -> consumers w' c = consumers w c) /\
    transaction w' = transaction w /\ connection w' = connection w.
Proof.
  revert w. induction cs as [|c cs IH]; intros w; [exists w; split_and!; try done; intros c Hc; by apply elem_of_nil in Hc|].
  destruct (afterCommit_settles c w) as (w1 & E1 & C1 & O1 & T1 & N1). destruct (IH w1) as (w2 & E2 & S2 & O2 & T2 & N2).
  exists w2. cbn [map iter_m]. rewrite (bind_ok _ _ _ _ _ E1). rewrite T2, T1, N2, N1. split_and!; [done| | |done..].
  - intros c' Hc'. destruct (decide (c' ∈ cs)) as [Hin|Hin]; [by apply S2|].
    apply elem_of_cons in Hc' as [->|?]; [|done]. rewrite (O2 _ Hin), C1. apply settle_settled.
  - intros c' [? ?]%not_elem_of_cons. by rewrite O2, O1.
Qed.

(** C6: A commit that the broker accepts: one COMMIT is sent after what the preparations
    sent, no transaction and no synchronization is left, and every consumer that took
    part has nothing delivered and may take part again. *)
Theorem session_commit_settles w w1 n cs :
  session_closed (session w) = false -> ackMode (session w) = SESSION_TRANSACTED ->
  isInXATransaction w = false -> beforeEnd w = (Ok tt, w1) ->
  transactionId (transaction w1) = Some (LocalTransactionId n) -> accepting w1 ->
  map snd (synchronizations (transaction w1)) = map TransactionSynchronization cs ->
  ordered (synchronizations (transaction w1)) ->
  exists w', session_commit draw w = (Ok tt, w') /\
    wire (connection w') = wire (connection w1) ++ [CTransaction (mkTransactionInfo STATE_COMMITONEPHASE (Some (LocalTransactionId n)))] /\
    transactionId (transaction w') = None /\ synchronizations (transaction w') = [] /\
    (forall c, c ∈ cs -> settled (consumers w' c)) /\ (forall c, c ∉ cs -> consumers w' c = consumers w1 c).
Proof.
  intros Hc Hm Hx Hb Ht Ha Hs Ho. rewrite commit_is_context by done.
  pose proof (commit_outcome w w1 Hx Hb) as Hout. cbn [tx World_host] in Hout. rewrite Ht in Hout. cbv zeta in Hout.
  specialize (Hout (connection_checked w1 (accepting_open w1 Ha))).
  set (v := set_transaction (set_id None (transaction w1)) w1) in *.
  destruct (syncRequest_accepted (CTransaction (mkTransactionInfo STATE_COMMITONEPHASE (Some (LocalTransactionId n)))) v) as [r Er].
  { by apply (accepting_connection w1). }
  change (set_tx (set_id None (transaction w1)) w1) with v in Hout.
  cbn [request_info World_host] in Hout. rewrite Er in Hout. set (w2 := sent_on _ v) in *.
  change (synchronizations (tx w2)) with (synchronizations (transaction w1)) in Hout.
  assert (leaves_set sync_afterCommit (synchronizations (transaction w1))) as Hl.
  { apply Forall_forall. intros [a s] Hin u. assert (s ∈ map TransactionSynchronization cs) as Hsy.
    { rewrite <- Hs. apply list_elem_of_In. apply (in_map snd _ (a, s)), Hin. }
    apply list_elem_of_fmap in Hsy as (c & -> & _). destruct (afterCommit_settles c u) as (u' & E & _ & _ & T & _).
    cbn [snd]. rewrite E. cbn. by rewrite T. }
  specialize (Hout Hl Ho). change (synchronizations (transaction w2)) with (synchronizations (transaction w1)) in Hout. rewrite Hs in Hout.
  destruct (settles_all cs w2) as (w3 & E3 & S3 & O3 & T3 & N3).
  unfold catch_cms, rethrow. rewrite Hout. unfold catch_tx, rethrow, try_catch, finally_clear. rewrite E3.
  eexists. split; [reflexivity|]. cbn. rewrite T3, N3. by split_and!.
Qed.

Lemma syncRequest_refused cmd w : connection_closed (connection w) = false -> transportFailed (connection w) = false ->
  next_reply (connection w) = Refused ->
  on_connection (connection_syncRequest cmd) w = (Throw ActiveMQException, sent_on cmd w).
Proof.
  intros H1 H2 H3. unfold on_connection, connection_syncRequest, always_amq, rethrow, checkClosedOrFailed, isClosed_check, bind, get.
  rewrite H1. cbn. rewrite H2. cbn. unfold transport, bind, get, modify. by rewrite H3.
Qed.

(** C35: A commit that the broker refuses is reported as a cms exception, but to the
    application only: no consumer is told. The transaction is forgotten, and every
    synchronization stays registered, every consumer as it was, with the messages of the
    lost transaction still delivered. *)
Theorem session_commit_refused w w1 id :
  session_closed (session w) = false -> ackMode (session w) = SESSION_TRANSACTED ->
  isInXATransaction w = false -> beforeEnd w = (Ok tt, w1) -> transactionId (transaction w1) = Some id ->
  connection_closed (connection w1) = false -> transportFailed (connection w1) = false ->
  next_reply (connection w1) = Refused ->
  exists w', session_commit draw w = (Throw CMSException, w') /\ transactionId (transaction w') = None /\
    synchronizations (transaction w') = synchronizations (transaction w1) /\
    (forall c, consumers w' c = consumers w1 c).
Proof.
  intros Hc Hm Hx Hb Ht H1 H2 H3. rewrite commit_is_context by done.
  pose proof (commit_outcome w w1 Hx Hb) as Hout. cbn [tx World_host] in Hout. rewrite Ht in Hout. cbv zeta in Hout.
  specialize (Hout (connection_checked w1 H1)).
  change (set_tx (set_id None (transaction w1)) w1) with (set_transaction (set_id None (transaction w1)) w1) in Hout.
  cbn [request_info World_host] in Hout. rewrite syncRequest_refused in Hout by done.
  unfold catch_cms, rethrow. rewrite Hout by done. eexists. split; [reflexivity|]. by split_and!.
Qed.
End commit.

(** ** What follows a refused commit *)

(** A transacted session with three messages waiting: two are received, their commit is
    refused, the application rolls back, receives again and commits. *)
Definition after_refused_commit : SampleWorld :=
  run_events quiet no_draw [ReceiveNoWait 1 [[]]; ReceiveNoWait 1 [[]]; Commit]
    (sample_world SESSION_TRANSACTED [1] (fun c => sample_consumer c 10 true [1; 2; 3])
       [Answered PlainResponse; Answered PlainResponse; Refused]).

Definition consumed_by (w : SampleWorld) : list (option TransactionId * option Z * Z * Z) :=
  omap (fun c => match c with
    | CAck a => if isStandardAck a
                then Some (ack_transaction a, option_map mi_producerSequenceId (ack_first a), mi_producerSequenceId (ack_last a), ack_count a)
                else None
    | _ => None end) (wire (connection w)).

(** The rollback after a refused commit gives no message back: it begins a transaction of
    its own, acknowledges the messages of the lost one in it, rolls it back at the broker,
    and leaves them delivered. The next commit acknowledges them for good, with the
    message received after them: messages 1 and 2, which the application believes to be
    rolled back, are consumed. With two consumers the same rollback leaves the iterator
    over the synchronizations without a place. *)
Theorem rollback_after_refused_commit :
  (run_event quiet no_draw Rollback after_refused_commit).1 = Ok tt /\
  (let w := run_events quiet no_draw [Rollback; ReceiveNoWait 1 [[]]; Commit] after_refused_commit in
   map (fun d => option_map mi_producerSequenceId (message_id d)) (delivered (consumers (run_events quiet no_draw [Rollback] after_refused_commit) 1)) = [Some 2; Some 1] /\
   consumed_by w = [(Some (LocalTransactionId 1), Some 1, 2, 2); (Some (LocalTransactionId 2), Some 1, 2, 2);
                    (Some (LocalTransactionId 3), Some 1, 3, 3)] /\
   delivered (consumers w 1) = []) /\
  (run_event quiet no_draw Rollback
     (run_events quiet no_draw [ReceiveNoWait 1 [[]]; ReceiveNoWait 2 [[]]; Commit]
       (sample_world SESSION_TRANSACTED [1; 2] (fun c => sample_consumer c 10 true [c])
          [Answered PlainResponse; Answered PlainResponse; Answered PlainResponse; Refused]))).1 = UB.
Proof. vm_compute. by split_and!. Qed.

(** ** The lock of the consumers *)

Section locks.
Context {C A : Type} `{CHANNEL : MessageDispatchChannel C MessageDispatch} `{AUDIT : Audit A}.
Implicit Types (w : World C A) (c : Z).

(** A computation that gives back the holds it takes. *)
Definition balanced {B} (m : M (World C A) B) : Prop := forall w, readHolds (session (m w).2) = readHolds (session w).

Lemma removeConsumer_locked c w : 0 < readHolds (session w) -> removeConsumer c w = (Hang, w).
Proof.
  intros Hw. unfold removeConsumer, catch_amq, rethrow. rewrite bind_get. unfold with_writeLock. rewrite bind_get.
  by rewrite (proj2 (Z.ltb_lt _ _)) by lia.
Qed.

(** The session's loops over its consumers release their lock when they return and when a
    decaf exception leaves them. A cms exception, which is what [acknowledge] of a
    consumer and the check for message listeners throw, leaves the lock held: from then
    on no consumer can be removed, and whoever tries waits for ever. *)
Theorem read_lock_leaks {B} (m : M (World C A) B) w : balanced m -> 0 <= readHolds (session w) ->
  match with_readLock m w with
  | (Ok _, w') => readHolds (session w') = readHolds (session w)
  | (Throw e, w') =>
      if is_decaf e then readHolds (session w') = readHolds (session w)
      else readHolds (session w') = readHolds (session w) + 1 /\ forall c, removeConsumer c w' = (Hang, w')
  | _ => True
  end.
Proof.
  intros Hm Hw. unfold with_readLock. unfold update_session. rewrite bind_modify. set (v := set_session _ w).
  specialize (Hm v). destruct (m v) as [[b|e| |] w']; cbn [snd] in Hm; [|destruct (is_decaf e) |done..].
  - cbn. rewrite Hm. cbn. lia.
  - cbn. rewrite Hm. cbn. lia.
  - assert (readHolds (session w') = readHolds (session w) + 1) as E by (by rewrite Hm). split; [done|].
    intros c. apply removeConsumer_locked. lia.
Qed.
End locks.

Lemma read_lock_leaks_witness :
  let w := sample_world AUTO_ACKNOWLEDGE [1] (fun c => sample_consumer c 10 true []) [] in
  let m : M SampleWorld unit := throw CMSIllegalStateException in
  match with_readLock m w with
  | (Throw e, w') => is_decaf e = false /\ readHolds (session w') = 0 + 1 /\ forall c, removeConsumer c w' = (Hang, w')
  | _ => False
  end.
Proof.
  intros w m. pose proof (read_lock_leaks m w (fun _ => eq_refl) ltac:(cbn; lia)) as H.
  cbn in H |- *. split; [reflexivity|exact H].
Defined.

(** A session of which one consumer has a listener, and another is asked to receive, or
    one of whose acknowledgements is refused, cannot be closed any more; and a broker that
    asks the client to close a consumer stops the thread that reads its commands. *)
Theorem sessions_that_hang :
  (let w := sample_world AUTO_ACKNOWLEDGE [1; 2] (fun c => sample_consumer c 10 true []) [] in
   let w' := run_events quiet no_draw [SetListener 2 true; ReceiveNoWait 1 [[]]] w in
   (run_event quiet no_draw (ReceiveNoWait 1 [[]]) (run_events quiet no_draw [SetListener 2 true] w)).1 = Throw CMSIllegalStateException /\
   (run_event quiet no_draw Close w').1 = Hang) /\
  (let w := run_events quiet no_draw [ReceiveNoWait 1 [[]]; Acknowledge]
     (sample_world CLIENT_ACKNOWLEDGE [1] (fun c => sample_consumer c 10 true [1]) [Refused]) in
   (run_event quiet no_draw Close w).1 = Hang) /\
  (run_event quiet no_draw (ControlClose 1) (sample_world AUTO_ACKNOWLEDGE [1] (fun c => sample_consumer c 10 true []) [])).1 = Hang.
Proof. vm_compute. by split_and!. Qed.

(** ** Sessions that dispatch in the caller's thread *)

Section synchronous.
Context {C A : Type} `{CHANNEL : MessageDispatchChannel C MessageDispatch} {LAWS : ChannelLaws C MessageDispatch} `{AUDIT : Audit A}.
Implicit Types (w : World C A) (c : Z).

Lemma executeFirst_all l w : sessionAsyncDispatch (session w) = false -> channel_ok (queue w) ->
  exists w', iter_m executeFirst l w = (Ok tt, w') /\
    contents (queue w') = foldl (fun q d => insert_front rank d q) (contents (queue w)) l /\
    taskRunner w' = taskRunner w /\ session w' = session w /\ consumers w' = consumers w.
Proof.
  intros Hs. revert w Hs. induction l as [|d l IH]; intros w Hs Hok; [by exists w|]. cbn [iter_m foldl].
  set (v := set_queue (enqueueFirst d (queue w)) (taskRunner w) w).
  assert (executeFirst d w = (Ok tt, v)) as E.
  { unfold executeFirst. rewrite bind_modify. fold v. unfold executor_wakeup. rewrite bind_get. change (session v) with (session w). by rewrite Hs. }
  rewrite (bind_ok _ _ _ _ _ E). destruct (IH v Hs) as (w' & E' & Q & T & S & K); [by apply ok_enqueue|].
  exists w'. rewrite E', Q, T, S, K. cbn. by rewrite contents_enqueueFirst.
Qed.

(** In a session without its own thread [redispatch], which a rollback with a listener
    and [setMessageListener] end with, takes every waiting message from the consumer into
    the queue of the executor, and starts nothing: messages that come later are
    dispatched past the queue, which only the thread that is missing reads. *)
Theorem redispatch_strands on_message draw c w : sessionAsyncDispatch (session w) = false ->
  channel_ok (queue w) -> channel_ok (unconsumed (consumers w c)) ->
  exists w', redispatch c w = (Ok tt, w') /\ contents (unconsumed (consumers w' c)) = [] /\
    contents (queue w') = foldl (fun q d => insert_front rank d q) (contents (queue w)) (reverse (contents (unconsumed (consumers w c)))) /\
    taskRunner w' = taskRunner w /\
    (forall d, session_dispatch on_message draw d w' = executor_dispatch on_message draw d w') /\
    executor_wakeup w' = (Ok tt, w').
Proof.
  intros Hs Hq Hu. unfold redispatch. rewrite bind_self.
  destruct (removeAll_contents (unconsumed (consumers w c)) Hu) as [E1 E2].
  destruct (removeAll (unconsumed (consumers w c))) as [l ch]. cbn [fst snd] in *. run_step. set (v := set_consumer _ _ w).
  destruct (executeFirst_all (reverse l) v Hs Hq) as (w' & E & Q & T & S & K).
  exists w'. rewrite E, Q, T, K. unfold v at 1. rewrite consumers_set. cbn [unconsumed set_unconsumed]. rewrite E2, E1. split_and!; [done..| |].
  - intros d. unfold session_dispatch, execute. rewrite bind_get, S. change (session v) with (session w). by rewrite Hs.
  - unfold executor_wakeup. rewrite bind_get, S. change (session v) with (session w). by rewrite Hs.
Qed.
End synchronous.

Definition synchronous (w : SampleWorld) : SampleWorld :=
  set_session (mkSession (ackMode (session w)) false false false (-2) 0) w.

Lemma redispatch_strands_witness :
  let w := synchronous (sample_world SESSION_TRANSACTED [1] (fun c => sample_consumer c 10 true [1; 2]) []) in
  exists w', redispatch 1 w = (Ok tt, w') /\ fifo_channel (unconsumed (consumers w' 1)) = [] /\ fifo_channel (queue w') = map (sample_dispatch 1) [1; 2].
Proof.
  intros w. destruct (redispatch_strands (LAWS := Fifo_laws) quiet no_draw 1 w eq_refl I I) as (w' & E & H1 & H2 & _).
  exists w'. split; [exact E|]. split; [exact H1|exact H2].
Defined.

(** ** Examples *)

#[local] Instance sample_synchronization : Synchronization SampleWorld Synchronizer := World_synchronization no_draw.

Lemma outcome_pair {B S} (r : outcome B * S) b : r.1 = Ok b -> r = (Ok b, r.2).
Proof. destruct r. cbn. by intros ->. Qed.

(** Two consumers with a message received each, the replies to come being [network]. *)
Definition sample_transaction (network : list reply) : SampleWorld :=
  run_events quiet no_draw [ReceiveNoWait 1 [[]]; ReceiveNoWait 2 [[]]]
    (sample_world SESSION_TRANSACTED [1; 2] (fun c => sample_consumer c 10 true [c]) network).

Lemma commit_outcome_witness :
  let w := sample_transaction [] in
  commit w = catch_tx (try_catch is_cms
    (finally_clear (iter_m sync_afterCommit [TransactionSynchronization 1; TransactionSynchronization 2]))
    (fun e => afterRollback ;;; throw e))
    (request_info (mkTransactionInfo STATE_COMMITONEPHASE (Some (LocalTransactionId 1)))
       (set_tx (set_id None (tx (beforeEnd w).2)) (beforeEnd w).2)).2.
Proof.
  intros w.
  assert (beforeEnd w = (Ok tt, (beforeEnd w).2)) as Hb by (apply outcome_pair; vm_compute; reflexivity).
  assert (isInXATransaction w = false) as Hx by (vm_compute; reflexivity).
  assert (connection_closed (connection (beforeEnd w).2) = false) as Hc by (vm_compute; reflexivity).
  pose proof (commit_outcome w (beforeEnd w).2 Hx Hb) as H.
  assert (transactionId (tx (beforeEnd w).2) = Some (LocalTransactionId 1)) as Ht by (vm_compute; reflexivity). rewrite Ht in H. cbv zeta in H.
  specialize (H (connection_checked (beforeEnd w).2 Hc)).
  set (v := set_tx _ _) in *.
  set (q := request_info _ v) in *.
  assert (q.1 = Ok PlainResponse) as Hq by (vm_compute; reflexivity).
  assert (synchronizations (tx q.2) = [(3000, TransactionSynchronization 1); (3001, TransactionSynchronization 2)]) as Es by (vm_compute; reflexivity).
  clearbody q. destruct q as [r w2]. cbn [fst snd] in Hq, Es |- *. subst r.
  rewrite Es in H. apply H.
  - repeat constructor; intros u; destruct (afterCommit_settles no_draw 1 u) as (? & E1 & _ & _ & T1 & _), (afterCommit_settles no_draw 2 u) as (? & E2 & _ & _ & T2 & _);
      cbn [snd]; unfold sample_synchronization, session_synchronization in *; rewrite ?E1, ?E2; cbn; by rewrite ?T1, ?T2.
  - repeat constructor.
Defined.

Lemma session_commit_settles_witness :
  let w := sample_transaction [] in
  exists w', session_commit no_draw w = (Ok tt, w') /\ settled (consumers w' 1) /\ settled (consumers w' 2) /\
    synchronizations (transaction w') = [].
Proof.
  intros w.
  destruct (session_commit_settles no_draw w (beforeEnd w).2 1 [1; 2]) as (w' & E & _ & _ & H1 & H2 & _).
  - reflexivity.
  - vm_compute. reflexivity.
  - vm_compute. reflexivity.
  - apply outcome_pair. vm_compute. reflexivity.
  - vm_compute. reflexivity.
  - split; vm_compute; [reflexivity|reflexivity|constructor].
  - vm_compute. reflexivity.
  - vm_compute. repeat constructor.
  - exists w'. split; [exact E|]. split; [apply H2; by left|]. split; [apply H2; by right; left|exact H1].
Defined.

Lemma session_commit_refused_witness :
  let w := sample_transaction [Answered PlainResponse; Answered PlainResponse; Answered PlainResponse; Refused] in
  exists w', session_commit no_draw w = (Throw CMSException, w') /\ transactionId (transaction w') = None /\
    (forall c, consumers w' c = consumers (beforeEnd w).2 c).
Proof.
  intros w.
  destruct (session_commit_refused no_draw w (beforeEnd w).2 (LocalTransactionId 1)) as (w' & E & H1 & _ & H2).
  - reflexivity.
  - vm_compute. reflexivity.
  - vm_compute. reflexivity.
  - apply outcome_pair. vm_compute. reflexivity.
  - vm_compute. reflexivity.
  - vm_compute. reflexivity.
  - vm_compute. reflexivity.
  - vm_compute. reflexivity.
  - exists w'. split; [exact E|]. split; [exact H1|exact H2].
Defined.
